(* ===== verification/_CoqProject ===== *)
-Q . S2P
Prelude.v
JsString.v
JsRegex.v
JsNumber.v
Json.v
JsObject.v
JsOrder.v
StatusCodeRules.v
RequestRuleExpr.v
RequestRuleRoundTrip.v
PricingEditor.v
PricingEditorTheorems.v
ThinkTags.v
Playground.v
PlaygroundTheorems.v
ApiClient.v
Sidebar.v
ChannelForms.v
TieredPricing.v
TieredPricingTheorems.v
TieredEditor.v
Render.v
Dashboard.v
DashboardTheorems.v
TierLog.v
TierLogTheorems.v
PlaygroundConfig.v
PlaygroundConfigTheorems.v
PricingPage.v
PricingPageTheorems.v
Billing.v
BillingTheorems.v
ParamOverride.v
ParamOverrideEditor.v
ParamOverrideTheorems.v
ParamOverrideSave.v
RatioSync.v
RatioSyncTheorems.v
Channels.v
ChannelsTheorems.v
ChannelTests.v
ChannelTestsTheorems.v
UpstreamUpdates.v
JsonEditor.v
JsonEditorTheorems.v
ChannelAffinity.v
ChannelAffinityTheorems.v
GroupSettings.v
GroupSettingsTheorems.v
AsyncTask.v
AsyncTaskTheorems.v
AsyncTaskSample.v
ChannelEdit.v
ChannelEditTheorems.v
ChannelEditSave.v
ChannelEditRuns.v
