(* ===== verification/Prelude.v ===== *)
(** * The web console of new-api: a verification development

    new-api is a gateway to model providers.  Its server is written in Go; this
    development is about the web console, the JavaScript under [web/src], and
    within it about the code that computes: what the forms store and read back,
    what the pages show of prices, usage and conversations, and the state the
    hooks keep.  File names below are relative to [src/].

    ** The parts and how they interact

    The administrator's pages edit options the server stores as text: a model's
    prices and its billing expression (the pricing editor, with the tiered price
    editor and the request rules inside), the rules for HTTP status codes, the
    parameter overrides of a channel.  The user's pages read them: the page of
    models and prices, the usage log with its billing texts and tiers, the usage
    dashboard.  The playground holds a conversation, sends it through the HTTP
    client, takes the streamed answer apart and keeps its settings in the
    browser.  The sidebar decides which of these pages are shown.

    ** The language

    - [JsString]: strings as lists of UTF-16 code units, with the methods the
      sources use;
    - [JsRegex]: the ECMAScript backtracking matcher, with captures, proved
      sound and complete for a declarative relation;
    - [JsNumber]: binary64 numbers (Corelib's [SpecFloat]), [Number(text)],
      [parseFloat], [String(number)], [toFixed] and the rounding functions;
    - [Json], [JsObject], [JsOrder]: values, property reads, spreads, [JSON.stringify] and
      [JSON.parse], with the round trip of every value that has one.

    ** The components

    - [StatusCodeRules]: [web/src/helpers/statusCodeRules.js].  The rules read
      from a text cover exactly the codes written, are canonical, and print to a
      text that reads back.
    - [RequestRuleExpr], [RequestRuleRoundTrip]: [requestRuleExpr.js] of
      [web/src/pages/Setting/Ratio/components].  Rules written into a billing
      expression are read back, but for those that compare a parameter, which the
      reader refuses; and an expression with rules splits again.
    - [TieredPricing], [TieredPricingTheorems], [TieredEditor]:
      [TieredPricingEditor.jsx] of the same directory and
      [web/src/constants/billing.constants.js].  Tiers written as an expression
      are read back as the writer completes them; the controls of the form refine
      operations on an abstract list of cards; the saved expression follows the view.
    - [PricingEditor], [PricingEditorTheorems]:
      [web/src/pages/Setting/Ratio/hooks/useModelPricingEditorState.js].  The
      state is a record and every handler a function on it; an invariant holds in
      every reachable state, and a tiered model survives saving and loading.
    - [ThinkTags], [Playground], [PlaygroundTheorems]: the think tags of
      [web/src/helpers/utils.jsx], [useApiRequest.jsx], [useMessageActions.jsx],
      [useMessageEdit.jsx] of [web/src/hooks/playground] and the page itself.  A
      streamed answer is a session under events in any order; it always settles.
    - [PlaygroundConfig], [PlaygroundConfigTheorems]: [configStorage.js],
      [usePlaygroundState.js], [useSyncMessageAndCustomBody.js].  Settings keep
      their shape and survive a reload; the two effects that keep conversation
      and request body in step come to rest.
    - [ApiClient]: [web/src/helpers/api.js].  Identical requests in flight share
      one promise, as a step relation on the client's state.
    - [Sidebar]: [web/src/hooks/common/useSidebar.js].  Which entry is visible.
    - [ChannelForms]: [statusCodeRiskGuard.js], [upstreamUpdateUtils.js],
      [token.js].  Risky redirects are reported.
    - [Render], [Billing], [BillingTheorems], [TierLog], [TierLogTheorems]:
      [web/src/helpers/render.jsx].  Amounts and currencies, the texts that
      explain the price of a logged request, and the tiers of the usage log: the
      total shown is the sum of the lines shown; the log shows the matched tier.
    - [Dashboard], [DashboardTheorems]: [web/src/helpers/dashboard.jsx] and
      [useDashboardCharts.jsx].  Totals are conserved, points exact, the ranking
      of users true, and the sums over the rows stay below the largest exact integer.
    - [PricingPage], [PricingPageTheorems]: [useModelPricingData.jsx],
      [usePricingFilterCounts.js], the filter lists and the price functions of
      [utils.jsx].  Counts beside the filters are true; the cheapest group is used.
    - [ParamOverride], [ParamOverrideEditor], [ParamOverrideTheorems],
      [ParamOverrideSave]: [ParamOverrideEditorModal.jsx] and the templates of
      [channel-affinity-template.constants.js].  The dialog is a state with one
      function per control; its invariant holds in every reachable state, saved
      rules are complete and come back, and the uncaught errors are characterised.
    - [RatioSync], [RatioSyncTheorems]: [UpstreamRatioSync.jsx] and
      [ChannelSelectorModal.jsx].  Taking prices over from other channels: the
      page is a state under clicks and answers in any order, with its invariant;
      a save writes exactly what was picked, and asks before a model changes
      between fixed price and ratios.
    - [Channels], [ChannelsTheorems]: [useChannelsData.jsx] and the controls of
      the channel table.  Loading, searching, paging, tag rows and operations as
      clicks and answers in any order over a heap of shared channel objects: the
      tag rows partition the channels, and the last load is what is shown.
    - [ChannelTests], [ChannelTestsTheorems]: its tests and [ModelTestModal.jsx].
      Batches of five requests beside single tests and the table: a batch that is
      not closed tests every model once, ends, and counts its results.
    - [UpstreamUpdates]: [useChannelUpstreamUpdates.jsx] and
      [ChannelUpstreamUpdateModal.jsx].  What is sent divides what was offered.
    - [JsonEditor], [JsonEditorTheorems]: [JSONEditor.jsx].  The editor of JSON
      fields, as rows and as text: both show the stored value, and rows are stored
      exactly.
    - [ChannelAffinity], [ChannelAffinityTheorems]:
      [SettingsChannelAffinity.jsx].  The rules that keep a conversation on one
      channel, as a table with a dialog and as text: the table shows the text that
      is saved, the dialog writes one rule and reopens what it wrote.
    - [GroupSettings], [GroupSettingsTheorems]: [GroupRatioSettings.jsx] and its
      four editors.  Groups, their ratios and who may use them: editors and texts
      stay together, and a save followed by a reload shows the same.
    - [AsyncTask], [AsyncTaskTheorems], [AsyncTaskSample]: the configuration of
      asynchronous tasks in [EditChannelModal.jsx].  The boxes refine a map from
      fields to values kept in the text of the settings, a copy can be imported
      again, and the paths guessed from a sample lead to what they are taken for.
    - [ChannelEdit], [ChannelEditTheorems], [ChannelEditSave], [ChannelEditRuns]: the
      form of a channel in [EditChannelModal.jsx].  Its fields, keys, opening and
      saving: no save blanks a stored key, a channel saved as it was opened keeps its
      settings, and runs that show what one use of the form leaves for the next.
    ** How code is modelled

    Pure functions are functions; a component's hooks are a record, its handlers
    functions on the record, and its effects functions that run after a handler,
    in the order React runs them.  An uncaught exception is [None] or [inr].
    Code outside [src/] and the environment are arguments: the translation [t],
    the browser's storage ([getItem]), collation ([localeCompare]), case mapping
    ([lower], [toLowerCase]), the clock and the time zone.  Theorems that need
    something of an argument say so in a hypothesis.

    ** Fuel

    The JSON reader has two units of fuel per code unit, and [parse_fuel] proves
    that more changes nothing; the matcher's repetitions are bounded by the length
    of the text, and [m_complete] proves that no match is lost; the loop of the
    two playground effects has three renders, which [sync_settles] proves enough
    for every state.  The digits of a number are bounded by its logarithm.

    ** Simplifications

    Property reads are reads of own properties: names of [Object.prototype] as
    keys are not modelled.  Texts the server leaves out are empty on the pricing
    page; rows of the dashboard hold integers; the numeric fields of a log entry
    are numbers; a streamed answer's content is text.  Timers that only delay an
    action, notifications and the transport of requests are left out.

    ** Not modelled

    The Go server ([controller], [model], [relay], [service] and the other Go
    packages) is a program of its own, reached through HTTP.  The JSX of pages and
    components is presentation: markup, styles and labels.  Translations and
    generated files are data.  The desktop shell ([electron]) starts processes and
    windows.  The form component of the channel form is a library: its [setValues]
    and [reset] are parameters.  Not covered are the tables and forms of users,
    tokens, redemption codes, model metadata and deployments, which load a list and
    send its changes, the settings pages that are plain forms, and the dialogs that
    only call the server (verification, credentials, lists of models). *)

From Stdlib Require Export Bool NArith ZArith Lia Sorting.Sorted.
From stdpp Require Export base tactics decidable numbers list option strings.

(** ** Automation shared by every file *)

Create HintDb js discriminated.
#[global] Hint Constants Transparent : js.

(** Split every boolean connective in the context into propositions. *)
Ltac bool_hyps :=
  repeat match goal with
  | H : (_ && _)%bool = true |- _ => apply andb_true_iff in H; destruct H
  | H : (_ || _)%bool = false |- _ => apply orb_false_iff in H; destruct H
  | H : negb _ = true |- _ => apply negb_true_iff in H
  | H : negb _ = false |- _ => apply negb_false_iff in H
  | H : bool_decide _ = true |- _ => apply bool_decide_eq_true in H
  | H : bool_decide _ = false |- _ => apply bool_decide_eq_false in H
  | H : (_ =? _)%N = true |- _ => apply N.eqb_eq in H
  | H : (_ =? _)%N = false |- _ => apply N.eqb_neq in H
  | H : (_ <=? _)%N = true |- _ => apply N.leb_le in H
  | H : (_ <=? _)%N = false |- _ => apply N.leb_gt in H
  | H : (_ =? _)%Z = true |- _ => apply Z.eqb_eq in H
  | H : (_ =? _)%Z = false |- _ => apply Z.eqb_neq in H
  | H : (_ <=? _)%Z = true |- _ => apply Z.leb_le in H
  | H : (_ <=? _)%Z = false |- _ => apply Z.leb_gt in H
  | H : (_ <? _)%Z = true |- _ => apply Z.ltb_lt in H
  | H : (_ <? _)%Z = false |- _ => apply Z.ltb_ge in H
  end.

(** Case analysis on the scrutinee of the first [if] or [match] in sight,
    keeping the equation. *)
Ltac split_match :=
  match goal with
  | |- context [match ?x with _ => _ end] => destruct x eqn:?
  | H : context [match ?x with _ => _ end] |- _ => destruct x eqn:?
  end.

(** ** Generic lemmas on lists and options *)

Section Lists.
Context {A B : Type}.

(** The first element satisfying a test, and its index. *)
Fixpoint find_index (p : A → bool) (l : list A) : option nat :=
  match l with
  | [] => None
  | x :: l' => if p x then Some 0 else S <$> find_index p l'
  end.

Lemma find_index_Some (p : A → bool) l i :
  find_index p l = Some i →
  ∃ x, l !! i = Some x ∧ p x = true ∧ forallb (λ y, negb (p y)) (take i l) = true.
Proof.
  revert i. induction l as [|x l IH]; intros i H; simpl in H; [done|].
  destruct (p x) eqn:Hp; simplify_eq/=.
  - exists x. auto.
  - destruct (find_index p l) as [j|] eqn:Hj; simplify_eq/=.
    destruct (IH j eq_refl) as (y & Hy & Hpy & Hall).
    exists y. rewrite Hp. auto.
Qed.

Lemma find_index_None (p : A → bool) l :
  find_index p l = None ↔ forallb (λ y, negb (p y)) l = true.
Proof.
  induction l as [|x l IH]; simpl; [done|].
  destruct (p x); simpl; [done|].
  rewrite <- IH. destruct (find_index p l); simpl; naive_solver.
Qed.

(** [l.slice(0, -1)] of a non-empty array. *)
Lemma last_split (l : list A) x :
  last l = Some x → l = removelast l ++ [x].
Proof.
  intros H. destruct (decide (l = [])) as [->|Hne]; [done|].
  rewrite (app_removelast_last x Hne) at 1. f_equal. f_equal.
  revert x H. induction l as [|y [|z l] IH]; intros x H; simplify_eq/=; auto.
Qed.

Lemma forallb_Forall (p : A → bool) l : forallb p l = true ↔ Forall (λ x, p x = true) l.
Proof. rewrite forallb_forall, Forall_forall. by setoid_rewrite list_elem_of_In. Qed.

Lemma filter_all (p : A → bool) l : forallb p l = true → List.filter p l = l.
Proof. induction l as [|x l IH]; simpl; intros; bool_hyps; [done|]. rewrite H. by rewrite IH. Qed.

Lemma map_opt_ext (f g : A → B) l :
  (∀ x, List.In x l → f x = g x) → List.map f l = List.map g l.
Proof. apply map_ext_in. Qed.
End Lists.

(** [mapM] as a plain recursive function over [option], the shape of a loop
    that returns [null] from inside on the first failure. *)
Fixpoint map_opt {A B} (f : A → option B) (l : list A) : option (list B) :=
  match l with
  | [] => Some []
  | x :: l' => match f x with
               | None => None
               | Some y => match map_opt f l' with
                           | None => None
                           | Some ys => Some (y :: ys)
                           end
               end
  end.

Lemma map_opt_map {A B C} (f : B → option C) (g : A → B) (h : A → C) l :
  (∀ x, List.In x l → f (g x) = Some (h x)) →
  map_opt f (List.map g l) = Some (List.map h l).
Proof.
  induction l as [|x l IH]; intros H; simpl; [done|].
  rewrite (H x) by (simpl; auto). rewrite IH; [done|].
  intros y Hy. apply H. simpl; auto.
Qed.

Lemma map_opt_Forall2 {A B} (f : A → option B) l k :
  map_opt f l = Some k → Forall2 (λ x y, f x = Some y) l k.
Proof.
  revert k. induction l as [|x l IH]; intros k; simpl; [intros [= <-]; constructor|].
  destruct (f x) eqn:E; [|done]. destruct (map_opt f l); [|done]. intros [= <-]. constructor; auto.
Qed.

(** What a pairwise relation says of the left-hand list alone. *)
Lemma Forall2_fst {A B} (R : A → B → Prop) (P : A → Prop) l k :
  (∀ x y, R x y → P x) → Forall2 R l k → Forall P l.
Proof. intros H. induction 1; constructor; eauto. Qed.

(** An invariant of a loop. *)
Lemma fold_left_inv {A B} (P : A → Prop) (f : A → B → A) l a :
  P a → (∀ a x, x ∈ l → P a → P (f a x)) → P (fold_left f l a).
Proof.
  revert a. induction l as [|x l IH]; intros a Ha Hf; [done|]. apply IH.
  - apply Hf; [by left|done].
  - intros b y Hy. apply Hf. by right.
Qed.

(** ** Insertion-ordered maps: objects used as dictionaries *)

Section Assoc.
Context {K V : Type} `{EqDecision K}.

Fixpoint assoc_get (l : list (K * V)) (k : K) : option V :=
  match l with
  | [] => None
  | (k', v) :: l' => if decide (k' = k) then Some v else assoc_get l' k
  end.
(** An existing key keeps its place. *)
Fixpoint assoc_set (l : list (K * V)) (k : K) (v : V) : list (K * V) :=
  match l with
  | [] => [(k, v)]
  | (k', v') :: l' => if decide (k' = k) then (k, v) :: l' else (k', v') :: assoc_set l' k v
  end.
Definition assoc_delete (l : list (K * V)) (k : K) : list (K * V) :=
  List.filter (λ kv, negb (bool_decide (kv.1 = k))) l.

Lemma assoc_get_set l k v k' : assoc_get (assoc_set l k v) k' = if decide (k = k') then Some v else assoc_get l k'.
Proof.
  induction l as [|[k0 v0] l IH]; cbn [assoc_set assoc_get]; [by repeat case_decide|].
  destruct (decide (k0 = k)); cbn [assoc_set assoc_get]; rewrite ?IH; repeat case_decide; congruence.
Qed.

Lemma assoc_get_In l k v : assoc_get l k = Some v → (k, v) ∈ l.
Proof.
  induction l as [|[k' v'] l IH]; cbn [assoc_get]; [done|]. destruct (decide _) as [->|].
  - intros [= ->]. left.
  - intros H. right. auto.
Qed.

Lemma assoc_get_delete l k k' : assoc_get (assoc_delete l k) k' = if decide (k = k') then None else assoc_get l k'.
Proof.
  unfold assoc_delete in *.
  induction l as [|[k0 v0] l IH]; cbn [List.filter fst assoc_get]; [by case_decide|].
  case_bool_decide; cbn [negb assoc_get]; rewrite IH; repeat case_decide; congruence.
Qed.
End Assoc.

(** A [Set] built from a list: the first occurrence of every element. *)
Definition uniq {A} `{EqDecision A} (l : list A) : list A :=
  reverse (fold_left (λ acc x, if bool_decide (x ∈ acc) then acc else x :: acc) l []).

Lemma uniq_go {A} `{EqDecision A} (l acc : list A) :
  NoDup acc →
  NoDup (fold_left (λ acc x, if bool_decide (x ∈ acc) then acc else x :: acc) l acc) ∧
  ∀ x, x ∈ fold_left (λ acc x, if bool_decide (x ∈ acc) then acc else x :: acc) l acc ↔ x ∈ acc ∨ x ∈ l.
Proof.
  revert acc. induction l as [|y l IH]; intros acc Hacc; cbn [fold_left].
  - split; [done|]. intros x. rewrite elem_of_nil. tauto.
  - case_bool_decide as Hy.
    + destruct (IH acc Hacc) as [H1 H2]. split; [done|]. intros x. rewrite H2, elem_of_cons. naive_solver.
    + destruct (IH (y :: acc)) as [H1 H2]; [by constructor|]. split; [done|].
      intros x. rewrite H2, !elem_of_cons. tauto.
Qed.

Lemma uniq_NoDup {A} `{EqDecision A} (l : list A) : NoDup (uniq l).
Proof. unfold uniq. rewrite reverse_Permutation. apply uniq_go. constructor. Qed.

Lemma elem_of_uniq {A} `{EqDecision A} (l : list A) x : x ∈ uniq l ↔ x ∈ l.
Proof.
  unfold uniq. rewrite reverse_Permutation. rewrite (proj2 (uniq_go l [] ltac:(constructor)) x).
  rewrite elem_of_nil. tauto.
Qed.

Lemma uniq_id {A} `{EqDecision A} (l : list A) : NoDup l → uniq l = l.
Proof.
  intros Hnd. unfold uniq. rewrite <- (reverse_involutive l) at 2. f_equal.
  assert (H : ∀ acc, NoDup (acc ++ l) → fold_left (λ acc x, if bool_decide (x ∈ acc) then acc else x :: acc) l acc = reverse l ++ acc).
  { clear Hnd. induction l as [|x l IH]; intros acc Hnd; cbn [fold_left]; [done|].
    rewrite <- Permutation_middle in Hnd. pose proof (NoDup_cons_1_1 _ _ Hnd) as Hx.
    rewrite bool_decide_eq_false_2 by (intros ?; apply Hx, elem_of_app; by left).
    rewrite IH by done. by rewrite reverse_cons, <- app_assoc. }
  rewrite H by done. by rewrite app_nil_r.
Qed.

(** [Array.prototype.sort] with a comparator: a stable sort. *)
Section Sort.
Context {A : Type} (cmp : A → A → Z).

Fixpoint sort_insert (x : A) (l : list A) : list A :=
  match l with
  | [] => [x]
  | y :: l' => if (cmp x y <? 0)%Z then x :: l else y :: sort_insert x l'
  end.
Definition sort (l : list A) : list A := fold_left (λ acc x, sort_insert x acc) l [].

Lemma sort_insert_perm x l : sort_insert x l ≡ₚ x :: l.
Proof. induction l as [|y l IH]; cbn; [done|]. case_match; [done|]. rewrite IH. apply Permutation_swap. Qed.

Lemma sort_perm l : sort l ≡ₚ l.
Proof.
  unfold sort. assert (H : ∀ acc, fold_left (λ acc x, sort_insert x acc) l acc ≡ₚ acc ++ l).
  { induction l as [|x l IH]; intros acc; cbn [fold_left]; [by rewrite app_nil_r|].
    rewrite IH, sort_insert_perm. cbn [app]. by rewrite <- Permutation_middle. }
  apply (H []).
Qed.

(** With a comparator that orders any two values the result is ascending. *)
Lemma sort_insert_sorted x l : (∀ a b, (cmp a b < 0 ∨ cmp b a ≤ 0)%Z) →
  Sorted (λ a b, (cmp a b ≤ 0)%Z) l → Sorted (λ a b, (cmp a b ≤ 0)%Z) (sort_insert x l).
Proof.
  intros Htot. induction 1 as [|y l Hs IH Hr]; cbn [sort_insert]; [repeat constructor|].
  destruct (Z.ltb_spec (cmp x y) 0); [constructor; [by constructor|constructor; lia]|]. constructor; [done|].
  destruct (Htot x y) as [|Hyx]; [lia|]. destruct Hr as [|z l Hyz]; cbn [sort_insert]; [by constructor|].
  by destruct (cmp x z <? 0)%Z; constructor.
Qed.

Lemma sort_sorted l : (∀ a b, (cmp a b < 0 ∨ cmp b a ≤ 0)%Z) → Sorted (λ a b, (cmp a b ≤ 0)%Z) (sort l).
Proof.
  intros Htot. unfold sort. apply fold_left_inv; [constructor|].
  intros acc x _ Hs. apply sort_insert_sorted; done.
Qed.
End Sort.

(** [l.slice(start, end)] of an array; negative positions count from the end. *)
Definition slice_pos (n i : Z) : nat :=
  Z.to_nat (if (i <? 0)%Z then Z.max 0 (n + i) else Z.min i n).
Definition slice_list {A} (l : list A) (start stop : Z) : list A :=
  let n := Z.of_nat (length l) in
  let a := slice_pos n start in let b := slice_pos n stop in
  take (b - a) (drop a l).

Lemma slice_list_pos {A} (l : list A) (a k : nat) :
  slice_list l (Z.of_nat a) (Z.of_nat a + Z.of_nat k) = take k (drop a l).
Proof.
  unfold slice_list, slice_pos.
  destruct (Z.ltb_spec (Z.of_nat a) 0); [lia|]. destruct (Z.ltb_spec (Z.of_nat a + Z.of_nat k) 0); [lia|].
  destruct (decide (a ≤ length l)) as [Ha|Ha].
  - replace (Z.to_nat (Z.of_nat a `min` Z.of_nat (length l))) with a by lia.
    destruct (decide (a + k ≤ length l)); [f_equal; lia|].
    rewrite !take_ge; [done| |]; rewrite length_drop; lia.
  - rewrite !drop_ge by lia. by rewrite !take_nil.
Qed.

(** ** Names *)

Lemma elem_of_names k l : existsb (String.eqb k) l = true → k ∈ l.
Proof. intros (x & Hx & ->%String.eqb_eq)%existsb_exists. by apply list_elem_of_In. Qed.
