(* ===== verification/JsString.v ===== *)
(** * Strings of the language

    A JavaScript string is a sequence of 16-bit code units; [jsstr] is a list
    of them as [N].  The file holds the [String.prototype] operations the
    sources use (trim, split, join, includes, slice, replaceAll, ...) with the
    lemmas the components share.  Every loop is structural, so all of it
    evaluates. *)

From S2P Require Import Prelude.

Abbreviation jsstr := (list N).

Definition unit_ok (c : N) : bool := (c <? 65536)%N.
Definition wf_str (s : jsstr) : Prop := Forall (λ c, unit_ok c = true) s.

Lemma wf_str_forallb s : forallb unit_ok s = true → wf_str s.
Proof. by intros H%forallb_Forall. Qed.

(** ** Literals: the UTF-8 bytes of a Rocq literal, as UTF-16 code units *)

Fixpoint bytes_of (s : string) : list N :=
  match s with
  | EmptyString => []
  | String a s' => Ascii.N_of_ascii a :: bytes_of s'
  end.

Definition utf16_units (cp : N) : list N :=
  if (cp <? 65536)%N then [cp]
  else let v := (cp - 65536)%N in [(55296 + v / 1024)%N; (56320 + v mod 1024)%N].

Fixpoint utf8_decode (need : nat) (acc : N) (bs : list N) : list N :=
  match bs with
  | [] => []
  | b :: bs' =>
    match need with
    | S k => let acc' := (acc * 64 + b mod 64)%N in
             match k with
             | O => utf16_units acc' ++ utf8_decode 0 0 bs'
             | S _ => utf8_decode k acc' bs'
             end
    | O => if (b <? 128)%N then b :: utf8_decode 0 0 bs'
           else if (b <? 224)%N then utf8_decode 1 (b mod 32)%N bs'
           else if (b <? 240)%N then utf8_decode 2 (b mod 16)%N bs'
           else utf8_decode 3 (b mod 8)%N bs'
    end
  end.

Definition js (s : string) : jsstr := utf8_decode 0 0 (bytes_of s).
Arguments js s%_string_scope.

(** The same with every apostrophe standing for a quotation mark. *)
Definition jsq (s : string) : jsstr := map (λ c, if (c =? 39)%N then 34%N else c) (js s).
Arguments jsq s%_string_scope.

(** ** Equality and prefixes *)

Definition streq (a b : jsstr) : bool := bool_decide (a = b).

Lemma streq_true a b : streq a b = true ↔ a = b.
Proof. apply bool_decide_eq_true. Qed.

Lemma streq_false a b : streq a b = false ↔ a ≠ b.
Proof. apply bool_decide_eq_false. Qed.

Lemma streq_refl a : streq a a = true.
Proof. by apply streq_true. Qed.

Definition is_empty (s : jsstr) : bool := match s with [] => true | _ => false end.

Lemma is_empty_true s : is_empty s = true ↔ s = [].
Proof. by destruct s. Qed.

Fixpoint strip_prefix (p s : jsstr) : option jsstr :=
  match p, s with
  | [], _ => Some s
  | a :: p', b :: s' => if (a =? b)%N then strip_prefix p' s' else None
  | _ :: _, [] => None
  end.

(** [s.startsWith(p)] *)
Definition starts_with (p s : jsstr) : bool :=
  match strip_prefix p s with Some _ => true | None => false end.

(** [s.endsWith(p)] *)
Definition ends_with (p s : jsstr) : bool := starts_with (rev p) (rev s).

Lemma strip_prefix_Some p s r : strip_prefix p s = Some r ↔ s = p ++ r.
Proof.
  revert s. induction p as [|a p IH]; intros s; simpl.
  - naive_solver.
  - destruct s as [|b s]; [naive_solver|].
    destruct (N.eqb_spec a b) as [->|Hne]; [|naive_solver].
    rewrite IH. naive_solver.
Qed.

Lemma strip_prefix_app p r : strip_prefix p (p ++ r) = Some r.
Proof. by apply strip_prefix_Some. Qed.

Lemma starts_with_app p r : starts_with p (p ++ r) = true.
Proof. unfold starts_with. by rewrite strip_prefix_app. Qed.

Lemma starts_with_true p s : starts_with p s = true ↔ ∃ r, s = p ++ r.
Proof.
  unfold starts_with. destruct (strip_prefix p s) as [r|] eqn:E.
  - apply strip_prefix_Some in E. naive_solver.
  - split; [done|]. intros [r ->]. by rewrite strip_prefix_app in E.
Qed.

(** [s.includes(p)] *)
Fixpoint includes (p s : jsstr) : bool :=
  starts_with p s || match s with [] => false | _ :: s' => includes p s' end.

Lemma includes_true p s : includes p s = true ↔ ∃ a b, s = a ++ p ++ b.
Proof.
  induction s as [|c s IH]; simpl.
  - rewrite orb_false_r, starts_with_true. split.
    + intros [r Hr]. by exists [], r.
    + intros (a & b & Hab). destruct a; [|done]. by exists b.
  - rewrite orb_true_iff, starts_with_true, IH. split.
    + intros [[r Hr]|(a & b & ->)]; [by exists [], r|by exists (c :: a), b].
    + intros (a & b & Hab). destruct a as [|d a]; [left; by exists b|right].
      simplify_eq/=. by exists a, b.
Qed.

(** ** Trimming: WhiteSpace and LineTerminator code points of ECMAScript *)

Definition is_ws (c : N) : bool :=
  ((9 <=? c) && (c <=? 13) || (c =? 32) || (c =? 160) || (c =? 5760)
   || (8192 <=? c) && (c <=? 8202) || (c =? 8232) || (c =? 8233)
   || (c =? 8239) || (c =? 8287) || (c =? 12288) || (c =? 65279))%N.

Fixpoint drop_while (p : N → bool) (s : jsstr) : jsstr :=
  match s with
  | [] => []
  | c :: s' => if p c then drop_while p s' else s
  end.

(** [s.trim()] *)
Definition trim (s : jsstr) : jsstr :=
  rev (drop_while is_ws (rev (drop_while is_ws s))).
Definition blank (s : jsstr) : bool := is_empty (trim s).

(** A string [trim] leaves unchanged: neither end is white space. *)
Definition trimmed (s : jsstr) : Prop :=
  match s with
  | [] => True
  | c :: _ => is_ws c = false ∧ ∃ d, last s = Some d ∧ is_ws d = false
  end.

Lemma drop_while_head p s c r :
  drop_while p s = c :: r → p c = false.
Proof. induction s as [|d s IH]; simpl; [done|]. destruct (p d) eqn:E; naive_solver. Qed.

Lemma drop_while_id p s c r : s = c :: r → p c = false → drop_while p s = s.
Proof. intros -> H. simpl. by rewrite H. Qed.

Lemma drop_while_suffix p s : ∃ a, s = a ++ drop_while p s ∧ forallb p a = true.
Proof.
  induction s as [|c s (a & Ha & Hp)]; simpl; [by exists []|].
  destruct (p c) eqn:E.
  - exists (c :: a). simpl. rewrite E, Hp. split; [by f_equal|done].
  - by exists [].
Qed.

Lemma drop_while_app_all p a s : forallb p a = true → drop_while p (a ++ s) = drop_while p s.
Proof. induction a; simpl; intros; bool_hyps; [done|]. rewrite H. auto. Qed.

Lemma drop_while_idemp p s : drop_while p (drop_while p s) = drop_while p s.
Proof.
  destruct (drop_while p s) as [|c r] eqn:E; [done|].
  apply (drop_while_id p (c :: r) c r); [done|]. by eapply drop_while_head.
Qed.

Lemma trim_trimmed s : trimmed s → trim s = s.
Proof.
  destruct s as [|c s]; [done|]. intros (Hc & d & Hd & Hw). unfold trim.
  rewrite (drop_while_id is_ws (c :: s) c s) by done.
  rewrite (last_split _ _ Hd), rev_app_distr. simpl rev at 2.
  rewrite (drop_while_id is_ws _ d (rev (removelast (c :: s)))) by done.
  by rewrite rev_app_distr, rev_involutive.
Qed.

Lemma trimmed_trim s : trimmed (trim s).
Proof.
  unfold trim. set (t := drop_while is_ws s).
  destruct (drop_while is_ws (rev t)) as [|d r] eqn:E; [done|].
  assert (Hd : is_ws d = false) by by eapply drop_while_head.
  destruct (drop_while_suffix is_ws (rev t)) as (a & Ha & _).
  rewrite E in Ha. apply (f_equal (@rev N)) in Ha.
  rewrite rev_involutive, rev_app_distr in Ha.
  destruct (rev (d :: r)) as [|c u] eqn:Er.
  { apply (f_equal (@length N)) in Er. by rewrite length_rev in Er. }
  split.
  - apply (drop_while_head is_ws s c (u ++ rev a)). by fold t.
  - exists d. split; [|done]. rewrite <- Er. simpl. apply last_snoc.
Qed.

(** [s.trim().trim() === s.trim()] *)
Lemma trim_length s : length (trim s) ≤ length s.
Proof.
  assert (H : ∀ p t, length (drop_while p t) ≤ length t).
  { intros p t. destruct (drop_while_suffix p t) as (a & Ha & _). rewrite Ha at 2. rewrite length_app. lia. }
  unfold trim. rewrite length_rev. etransitivity; [apply H|]. rewrite length_rev. apply H.
Qed.

Lemma trim_idemp s : trim (trim s) = trim s.
Proof. apply trim_trimmed, trimmed_trim. Qed.

(** ** Joining and splitting *)

(** [parts.join(sep)] *)
Fixpoint join (sep : jsstr) (parts : list jsstr) : jsstr :=
  match parts with
  | [] => []
  | [x] => x
  | x :: rest => x ++ sep ++ join sep rest
  end.

Lemma join_cons sep x y l : join sep (x :: y :: l) = x ++ sep ++ join sep (y :: l).
Proof. done. Qed.

Lemma join_app sep l1 l2 :
  l1 ≠ [] → l2 ≠ [] → join sep (l1 ++ l2) = join sep l1 ++ sep ++ join sep l2.
Proof.
  induction l1 as [|x [|y l1] IH]; intros H1 H2; [done| |].
  - destruct l2; [done|]. done.
  - change ((x :: y :: l1) ++ l2) with (x :: y :: (l1 ++ l2)).
    rewrite !join_cons. change (y :: l1 ++ l2) with ((y :: l1) ++ l2).
    rewrite IH by done. by rewrite <- !app_assoc.
Qed.

(** [s.split(sep)] for a non-empty separator; [skip] counts the units of a
    separator still to be passed over, [acc] is the current piece reversed. *)
Fixpoint split_go (sep : jsstr) (skip : nat) (acc s : jsstr) : list jsstr :=
  match s with
  | [] => [rev acc]
  | c :: s' =>
    match skip with
    | S k => split_go sep k acc s'
    | O => if starts_with sep s then rev acc :: split_go sep (length sep - 1) [] s'
           else split_go sep 0 (c :: acc) s'
    end
  end.
Definition split (sep s : jsstr) : list jsstr := split_go sep 0 [] s.

Lemma split_go_char c acc a s :
  c ∉ a → split_go [c] 0 acc (a ++ s) = split_go [c] 0 (rev a ++ acc) s.
Proof.
  revert acc. induction a as [|d a IH]; intros acc Hc; [done|].
  apply not_elem_of_cons in Hc as [Hne Hc]. simpl.
  unfold starts_with. simpl. destruct (N.eqb_spec c d); [done|].
  rewrite IH by done. by rewrite <- app_assoc.
Qed.

(** Splitting on one unit undoes joining with it. *)
Lemma split_join_char c parts :
  parts ≠ [] → Forall (λ p, c ∉ p) parts → split [c] (join [c] parts) = parts.
Proof.
  unfold split. induction parts as [|p [|q parts] IH]; intros Hne Hall; [done| |].
  - inversion_clear Hall. simpl. rewrite <- (app_nil_r p) at 1.
    rewrite split_go_char by done. simpl. by rewrite app_nil_r, rev_involutive.
  - inversion_clear Hall. rewrite join_cons, split_go_char by done.
    rewrite app_nil_r.
    change ([c] ++ join [c] (q :: parts)) with (c :: join [c] (q :: parts)).
    simpl split_go. unfold starts_with. simpl. rewrite N.eqb_refl, rev_involutive.
    f_equal. by apply IH.
Qed.

(** [s.replaceAll(c, r)] for one unit. *)
Definition replace_all_unit (c : N) (r : jsstr) (s : jsstr) : jsstr :=
  concat (map (λ d, if (d =? c)%N then r else [d]) s).

(** [s.slice(i, j)] and [s.slice(i)] for indices [0 <= i]. *)
Definition slice (i j : nat) (s : jsstr) : jsstr := take (j - i) (drop i s).
Definition slice_from (i : nat) (s : jsstr) : jsstr := drop i s.

(** [parts.filter(Boolean)] on an array of strings. *)
Definition filter_truthy (l : list jsstr) : list jsstr := List.filter (λ s, negb (is_empty s)) l.

Lemma filter_truthy_id l : Forall (λ s, s ≠ []) l → filter_truthy l = l.
Proof.
  intros H. apply filter_all, forallb_Forall. eapply Forall_impl; [exact H|].
  intros [|] ?; done.
Qed.

(** ** Decimal digits *)

Definition is_digit (c : N) : bool := ((48 <=? c) && (c <=? 57))%N.
Definition digit_val (c : N) : Z := Z.of_N c - 48.

(** Value of a run of decimal digits. *)
Definition digits_val (s : jsstr) : Z := fold_left (λ a c, a * 10 + digit_val c)%Z s 0%Z.

(** Decimal digits of a natural number, with fuel for its length. *)
Fixpoint digits_go (fuel : nat) (n : Z) (acc : jsstr) : jsstr :=
  match fuel with
  | O => acc
  | S f => let acc' := Z.to_N (48 + n mod 10) :: acc in
           if (n <? 10)%Z then acc' else digits_go f (n / 10)%Z acc'
  end.
Definition string_of_nonneg (n : Z) : jsstr := digits_go (S (Z.to_nat (Z.log2 n))) n [].
Definition string_of_Z (n : Z) : jsstr :=
  if (n <? 0)%Z then 45%N :: string_of_nonneg (- n) else string_of_nonneg n.

Lemma digits_val_snoc s c : digits_val (s ++ [c]) = (digits_val s * 10 + digit_val c)%Z.
Proof. unfold digits_val. by rewrite fold_left_app. Qed.

Lemma digit_of_mod n : (0 ≤ n)%Z →
  is_digit (Z.to_N (48 + n mod 10)) = true ∧ digit_val (Z.to_N (48 + n mod 10)) = (n mod 10)%Z.
Proof.
  intros H. pose proof (Z.mod_pos_bound n 10 ltac:(lia)). unfold is_digit, digit_val.
  rewrite andb_true_iff, !N.leb_le. lia.
Qed.

Lemma digits_go_spec fuel n acc :
  (0 ≤ n < 2 ^ Z.of_nat fuel)%Z → fuel ≠ 0 →
  ∃ ds, digits_go fuel n acc = ds ++ acc ∧ ds ≠ [] ∧
        forallb is_digit ds = true ∧ digits_val ds = n.
Proof.
  revert n acc. induction fuel as [|f IH]; intros n acc Hn Hf; [done|].
  destruct (digit_of_mod n ltac:(lia)) as [Hd Hv]. cbn [digits_go].
  destruct (Z.ltb_spec n 10).
  - exists [Z.to_N (48 + n mod 10)]. split; [done|]. split; [done|].
    cbn [forallb]. rewrite Hd. split; [done|].
    unfold digits_val. cbn [fold_left]. rewrite Hv, Z.mod_small; lia.
  - assert (f ≠ 0) by (intros ->; change (2 ^ Z.of_nat 1)%Z with 2%Z in Hn; lia).
    assert (Hpow : (2 ^ Z.of_nat (S f) = 2 * 2 ^ Z.of_nat f)%Z)
      by (rewrite Nat2Z.inj_succ, Z.pow_succ_r; lia).
    destruct (IH (n / 10)%Z (Z.to_N (48 + n mod 10) :: acc)) as (ds & -> & Hne & Hall & Hval); [|done|].
    { split; [apply Z.div_pos; lia|apply Z.div_lt_upper_bound; lia]. }
    exists (ds ++ [Z.to_N (48 + n mod 10)]). rewrite <- app_assoc. split; [done|].
    split; [by destruct ds|]. rewrite forallb_app, Hall. cbn [forallb]. rewrite Hd.
    split; [done|]. rewrite digits_val_snoc, Hval, Hv. pose proof (Z.div_mod n 10). lia.
Qed.

(** Printing a non-negative integer and reading its digits back is the identity. *)
Lemma string_of_nonneg_spec n : (0 ≤ n)%Z →
  string_of_nonneg n ≠ [] ∧ forallb is_digit (string_of_nonneg n) = true ∧
  digits_val (string_of_nonneg n) = n.
Proof.
  intros Hn. unfold string_of_nonneg.
  destruct (digits_go_spec (S (Z.to_nat (Z.log2 n))) n []) as (ds & -> & H); [|done|].
  - split; [done|]. rewrite Nat2Z.inj_succ, Z2Nat.id by apply Z.log2_nonneg.
    destruct (Z.eq_dec n 0%Z) as [->|]; [done|]. apply Z.log2_spec. lia.
  - by rewrite app_nil_r.
Qed.

(** The number of digits. *)
Lemma digits_go_length (k fuel : nat) n acc :
  (0 ≤ n < 2 ^ Z.of_nat fuel)%Z → fuel ≠ 0 → (k = 0 ∨ (10 ^ Z.of_nat k ≤ n)%Z) → (n < 10 ^ Z.of_nat (S k))%Z →
  length (digits_go fuel n acc) = S k + length acc.
Proof.
  revert fuel n acc. induction k as [|k IH]; intros [|f] n acc Hn Hf Hlo Hhi; try done; cbn [digits_go].
  - change (10 ^ Z.of_nat 1)%Z with 10%Z in Hhi. destruct (Z.ltb_spec n 10); [done|lia].
  - rewrite !Nat2Z.inj_succ, !Z.pow_succ_r in * by lia. destruct Hlo as [|Hlo]; [done|].
    assert (0 < 10 ^ Z.of_nat k)%Z by (apply Z.pow_pos_nonneg; lia). destruct (Z.ltb_spec n 10); [lia|].
    assert (f ≠ 0) by (intros ->; change (2 * 2 ^ Z.of_nat 0)%Z with 2%Z in Hn; lia).
    rewrite IH; [cbn [length]; lia| |done| |].
    + split; [apply Z.div_pos; lia|apply Z.div_lt_upper_bound; lia].
    + right. apply Z.div_le_lower_bound; lia.
    + apply Z.div_lt_upper_bound; lia.
Qed.

Lemma string_of_Z_length (k : nat) n :
  (0 ≤ n)%Z → (k = 0 ∨ (10 ^ Z.of_nat k ≤ n)%Z) → (n < 10 ^ Z.of_nat (S k))%Z → length (string_of_Z n) = S k.
Proof.
  intros Hn Hlo Hhi. unfold string_of_Z, string_of_nonneg. destruct (Z.ltb_spec n 0); [lia|].
  rewrite (digits_go_length k); [cbn [length]; lia| |done|done|done].
  split; [done|]. rewrite Nat2Z.inj_succ, Z2Nat.id by apply Z.log2_nonneg.
  destruct (Z.eq_dec n 0%Z) as [->|]; [done|]. apply Z.log2_spec. lia.
Qed.

(** Digits carry no white space and no separator. *)
Lemma digit_not_ws c : is_digit c = true → is_ws c = false.
Proof. unfold is_digit, is_ws. intros H. bool_hyps. repeat case_match; bool_hyps; try lia;
  repeat (apply orb_false_iff; split); rewrite ?andb_false_iff, ?N.leb_gt, ?N.eqb_neq; lia. Qed.

Lemma no_ws_trimmed s : forallb (λ c, negb (is_ws c)) s = true → trimmed s.
Proof.
  intros H. destruct s as [|c s]; [done|]. split.
  - simpl in H. by bool_hyps.
  - destruct (last (c :: s)) as [d|] eqn:E; [|by apply last_None in E].
    exists d. split; [done|]. apply last_split in E. rewrite E in H.
    rewrite forallb_app in H. cbn [forallb] in H. by bool_hyps.
Qed.

Lemma digits_trimmed s : forallb is_digit s = true → trimmed s.
Proof.
  intros H. apply no_ws_trimmed. apply forallb_Forall in H. apply forallb_Forall.
  eapply Forall_impl; [exact H|]. intros c Hc. simpl. by rewrite (digit_not_ws c Hc).
Qed.

Lemma digits_not_in s c : forallb is_digit s = true → is_digit c = false → c ∉ s.
Proof.
  intros H Hc Hin. apply forallb_Forall in H. rewrite Forall_forall in H.
  specialize (H _ Hin). congruence.
Qed.

#[export] Hint Resolve streq_refl trim_idemp trimmed_trim digits_trimmed : js.

(** ** Single units: absent units change nothing *)

Lemma replace_all_unit_id c r s : c ∉ s → replace_all_unit c r s = s.
Proof.
  unfold replace_all_unit. induction s as [|d s IH]; intros H; [done|].
  apply not_elem_of_cons in H as [Hne H]. simpl.
  destruct (N.eqb_spec d c); [congruence|]. simpl. by rewrite IH.
Qed.

Lemma includes_unit c s : includes [c] s = true ↔ c ∈ s.
Proof.
  rewrite includes_true. split.
  - intros (a & b & ->). rewrite elem_of_app, elem_of_app. right; left. by apply list_elem_of_singleton.
  - intros (a & b & ->)%list_elem_of_split. by exists a, b.
Qed.

Lemma includes_unit_false c s : c ∉ s → includes [c] s = false.
Proof. intros H. apply not_true_is_false. by rewrite includes_unit. Qed.

Lemma split_unit_absent c s : c ∉ s → split [c] s = [s].
Proof. intros H. apply (split_join_char c [s]); [done|]. by constructor. Qed.

Lemma forallb_not_in (p : N → bool) s c : forallb p s = true → p c = false → c ∉ s.
Proof.
  intros H Hc Hin. apply forallb_Forall in H. rewrite Forall_forall in H.
  specialize (H _ Hin). simpl in H. congruence.
Qed.

Lemma forallb_join (p : N → bool) sep l :
  forallb p sep = true → Forall (λ x, forallb p x = true) l → forallb p (join sep l) = true.
Proof.
  intros Hs. induction l as [|x [|y l] IH]; intros H; [done|by inversion H|].
  inversion_clear H. rewrite join_cons, !forallb_app, IH by done. by rewrite H0, Hs.
Qed.

Lemma forallb_impl (p q : N → bool) s :
  (∀ c, p c = true → q c = true) → forallb p s = true → forallb q s = true.
Proof. intros Hpq H. apply forallb_Forall in H. apply forallb_Forall. eapply Forall_impl; eauto. Qed.

Lemma map_trim_id l : Forall (λ t, trim t = t) l → map trim l = l.
Proof. induction 1 as [|t l Ht _ IH]; [done|]. cbn [map]. by rewrite Ht, IH. Qed.

Lemma trim_cons_nonempty c s : is_ws c = false → trim (c :: s) ≠ [].
Proof.
  intros Hc H. unfold trim in H. cbn [drop_while] in H. rewrite Hc in H.
  apply (f_equal (@rev N)) in H. rewrite rev_involutive in H. cbn [rev] in H.
  assert (Hd : ∀ t, drop_while is_ws (t ++ [c]) ≠ []).
  { induction t as [|d t IH]; cbn [app drop_while]; [by rewrite Hc|]. by destruct (is_ws d). }
  by apply Hd in H.
Qed.

(** ** Ordering *)

(** The order of [sort] without a comparator: by code units. *)
Fixpoint unit_order (a b : jsstr) : Z :=
  match a, b with
  | [], [] => 0
  | [], _ => -1
  | _, [] => 1
  | c :: a', d :: b' => if (c <? d)%N then -1 else if (d <? c)%N then 1 else unit_order a' b'
  end%Z.

Lemma unit_order_total a b : (unit_order a b < 0 ∨ unit_order b a ≤ 0)%Z.
Proof.
  revert b. induction a as [|c a IH]; intros [|d b]; cbn [unit_order]; try lia.
  destruct (N.ltb_spec c d), (N.ltb_spec d c); try lia. apply IH.
Qed.

(** ** Lines *)

Lemma split_go_absent c s : ∀ acc, c ∉ acc → Forall (λ p, c ∉ p) (split_go [c] 0 acc s).
Proof.
  induction s as [|d s IH]; intros acc Hacc; cbn [split_go].
  - repeat constructor. by rewrite list_elem_of_In, <- in_rev, <- list_elem_of_In.
  - destruct (starts_with [c] (d :: s)) eqn:E.
    + constructor; [by rewrite list_elem_of_In, <- in_rev, <- list_elem_of_In|]. apply IH. by intros ?%elem_of_nil.
    + apply IH. rewrite not_elem_of_cons. split; [|done]. intros ->. unfold starts_with in E. cbn [strip_prefix] in E. by rewrite N.eqb_refl in E.
Qed.

(** No piece contains the unit the text was split at. *)
Lemma split_absent c s : Forall (λ p, c ∉ p) (split [c] s).
Proof. apply split_go_absent. by intros ?%elem_of_nil. Qed.

Lemma drop_while_elem p s c : c ∈ drop_while p s → c ∈ s.
Proof. intros H. destruct (drop_while_suffix p s) as (a & Ha & _). rewrite Ha. apply elem_of_app. by right. Qed.
Lemma trim_elem s c : c ∈ trim s → c ∈ s.
Proof.
  unfold trim. rewrite !list_elem_of_In, <- in_rev, <- list_elem_of_In. intros H%drop_while_elem.
  rewrite list_elem_of_In, <- in_rev, <- list_elem_of_In in H. rewrite <- list_elem_of_In. by eapply drop_while_elem.
Qed.

Lemma existsb_streq k l : existsb (streq k) l = true ↔ k ∈ l.
Proof.
  rewrite existsb_exists. split; [intros (x & Hx & ->%streq_true); by apply list_elem_of_In|]. intros H. exists k.
  split; [by apply list_elem_of_In|apply streq_refl].
Qed.
