(* ===== verification/JsRegex.v ===== *)
(** * Regular expressions of the language

    The sources recognise and take apart text with regular-expression
    literals.  ECMAScript defines matching by backtracking over a matcher in
    continuation-passing style; [m] is that matcher for the constructs the
    sources use, captures and back references included.  [rmatch] is the
    declarative relation "this expression takes this position to that one";
    [m_sound] and [m_complete] relate the two for every continuation, so a
    failed match means that no way of matching exists. *)

From S2P Require Import Prelude JsString.

(** ** Syntax *)

Inductive regex :=
  | REmpty
  | RLit (s : jsstr)              (** literal text *)
  | RSet (p : N → bool)           (** one code unit: [[...]], [\d], [\s], [.] *)
  | RSeq (r1 r2 : regex)
  | RAlt (r1 r2 : regex)          (** [r1|r2], left first *)
  | RStar (greedy : bool) (r : regex)  (** [r*] or [r*?] *)
  | ROpt (r : regex)              (** [r?] *)
  | RGroup (n : nat) (r : regex)  (** capture group number [n] *)
  | RRef (n : nat)                (** back reference [\n] *)
  | RBol                          (** [^] *)
  | REol                          (** [$] *)
  | RWordB.                       (** [\b] *)

Declare Scope re_scope.
Delimit Scope re_scope with re.
Bind Scope re_scope with regex.
Infix "+>" := RSeq (at level 60, right associativity) : re_scope.
Infix "<|>" := RAlt (at level 65, right associativity) : re_scope.

Definition RPlus (r : regex) : regex := RSeq r (RStar true r).

(** ** Character classes *)

Definition unit_is (c d : N) : bool := (d =? c)%N.
Definition unit_in (s : jsstr) (d : N) : bool := bool_decide (d ∈ s).
Definition unit_not_in (s : jsstr) (d : N) : bool := negb (unit_in s d).
(** [.] without the [s] flag: anything but a line terminator. *)
Definition is_line_end (c : N) : bool := ((c =? 10) || (c =? 13) || (c =? 8232) || (c =? 8233))%N.
Definition dot (c : N) : bool := negb (is_line_end c).
(** [[\s\S]], and [.] with the [s] flag. *)
Definition any_unit (_ : N) : bool := true.
Definition is_word (c : N) : bool :=
  (is_digit c || (65 <=? c) && (c <=? 90) || (97 <=? c) && (c <=? 122) || (c =? 95))%N.

(** ** Positions: the text to the left (reversed), to the right, the captures *)

Record pos := Pos { lft : jsstr; rgt : jsstr; caps : list (nat * option jsstr) }.

Definition cap_get (n : nat) (cs : list (nat * option jsstr)) : option jsstr :=
  match List.find (λ e, bool_decide (e.1 = n)) cs with
  | Some (_, v) => v
  | None => None
  end.
Definition cap_set (n : nat) (v : option jsstr) (st : pos) : pos :=
  Pos (lft st) (rgt st) ((n, v) :: caps st).

(** The text consumed between two positions. *)
Definition between (st st' : pos) : jsstr := take (length (rgt st) - length (rgt st')) (rgt st).

Definition advance (s rest : jsstr) (st : pos) : pos := Pos (rev s ++ lft st) rest (caps st).

Fixpoint groups (r : regex) : list nat :=
  match r with
  | RSeq a b | RAlt a b => groups a ++ groups b
  | RStar _ a | ROpt a => groups a
  | RGroup n a => n :: groups a
  | _ => []
  end.
(** A new iteration of a quantified expression forgets its captures. *)
Definition reset (r : regex) (st : pos) : pos :=
  Pos (lft st) (rgt st) (map (λ n, (n, None)) (groups r) ++ caps st).

Definition word_at (s : jsstr) : bool := match s with [] => false | c :: _ => is_word c end.

(** ** The matcher *)

(** The loop of a quantifier: [ma] matches one iteration, [rs] forgets its
    captures; an iteration that consumes nothing is refused.  The fuel is the
    length of the text to the right, which every iteration shortens: with no
    fuel left there is nothing to consume and the loop can only stop. *)
Fixpoint star_loop {A} (ma : (pos → option A) → pos → option A) (rs : pos → pos)
    (greedy : bool) (k : pos → option A) (n : nat) (st : pos) : option A :=
  match n with
  | O => k st
  | S n' =>
    let more := ma (λ st', if length (rgt st') <? length (rgt st)
                           then star_loop ma rs greedy k n' st' else None) (rs st) in
    if greedy then match more with Some x => Some x | None => k st end
    else match k st with Some x => Some x | None => more end
  end.

Fixpoint m {A} (r : regex) (k : pos → option A) (st : pos) : option A :=
  match r with
  | REmpty => k st
  | RLit s => match strip_prefix s (rgt st) with
              | Some rest => k (advance s rest st)
              | None => None
              end
  | RSet p => match rgt st with
              | c :: rest => if p c then k (advance [c] rest st) else None
              | [] => None
              end
  | RSeq a b => m a (m b k) st
  | RAlt a b => match m a k st with Some x => Some x | None => m b k st end
  | RStar greedy a => star_loop (m a) (reset a) greedy k (length (rgt st)) st
  | ROpt a =>
    match m a (λ st', if length (rgt st') <? length (rgt st) then k st' else None) (reset a st) with
    | Some x => Some x
    | None => k st
    end
  | RGroup n a => m a (λ st', k (cap_set n (Some (between st st')) st')) st
  | RRef n => match strip_prefix (default [] (cap_get n (caps st))) (rgt st) with
              | Some rest => k (advance (default [] (cap_get n (caps st))) rest st)
              | None => None
              end
  | RBol => if is_empty (lft st) then k st else None
  | REol => if is_empty (rgt st) then k st else None
  | RWordB => if xorb (word_at (lft st)) (word_at (rgt st)) then k st else None
  end.

(** ** The declarative relation *)

Inductive rmatch : regex → pos → pos → Prop :=
  | rm_empty st : rmatch REmpty st st
  | rm_lit s st rest : rgt st = s ++ rest → rmatch (RLit s) st (advance s rest st)
  | rm_set p c rest st : rgt st = c :: rest → p c = true → rmatch (RSet p) st (advance [c] rest st)
  | rm_seq a b st st1 st2 : rmatch a st st1 → rmatch b st1 st2 → rmatch (RSeq a b) st st2
  | rm_alt_l a b st st' : rmatch a st st' → rmatch (RAlt a b) st st'
  | rm_alt_r a b st st' : rmatch b st st' → rmatch (RAlt a b) st st'
  | rm_star_nil g a st : rmatch (RStar g a) st st
  | rm_star_cons g a st st1 st2 :
      rmatch a (reset a st) st1 → length (rgt st1) < length (rgt st) →
      rmatch (RStar g a) st1 st2 → rmatch (RStar g a) st st2
  | rm_opt_none a st : rmatch (ROpt a) st st
  | rm_opt_some a st st' :
      rmatch a (reset a st) st' → length (rgt st') < length (rgt st) → rmatch (ROpt a) st st'
  | rm_group n a st st' :
      rmatch a st st' → rmatch (RGroup n a) st (cap_set n (Some (between st st')) st')
  | rm_ref n st rest :
      rgt st = default [] (cap_get n (caps st)) ++ rest →
      rmatch (RRef n) st (advance (default [] (cap_get n (caps st))) rest st)
  | rm_bol st : lft st = [] → rmatch RBol st st
  | rm_eol st : rgt st = [] → rmatch REol st st
  | rm_wordb st : xorb (word_at (lft st)) (word_at (rgt st)) = true → rmatch RWordB st st.

#[export] Hint Constructors rmatch : js.

(** ** The matcher decides the relation *)

Definition is_success {A} (o : option A) : Prop := o ≠ None.

Lemma star_loop_sound {A} a g (k : pos → option A) n st x :
  (∀ (k' : pos → option A) st' y, m a k' st' = Some y → ∃ st1, rmatch a st' st1 ∧ k' st1 = Some y) →
  star_loop (m a) (reset a) g k n st = Some x → ∃ st', rmatch (RStar g a) st st' ∧ k st' = Some x.
Proof.
  intros IHa. revert st x. induction n as [|n IHn]; intros st x H; cbn [star_loop] in H;
    [eauto with js|].
  set (more := m a _ (reset a st)) in H.
  assert (Hmore : ∀ y, more = Some y → ∃ st', rmatch (RStar g a) st st' ∧ k st' = Some y).
  { intros y (st1 & H1 & H2)%IHa.
    destruct (Nat.ltb_spec (length (rgt st1)) (length (rgt st))); [|done].
    apply IHn in H2 as (st2 & H2 & Hk). eauto with js. }
  destruct g, more, (k st) eqn:Ek; simplify_eq; eauto with js.
Qed.

(** Whatever the matcher returns was found at the end of some match. *)
Lemma m_sound {A} r (k : pos → option A) st x :
  m r k st = Some x → ∃ st', rmatch r st st' ∧ k st' = Some x.
Proof.
  revert k st x. induction r as [|s|p|a IHa b IHb|a IHa b IHb|g a IHa|a IHa|n a IHa|n| | |];
    intros k st x H; cbn [m] in H.
  - eauto with js.
  - destruct (strip_prefix s (rgt st)) eqn:E; [|done]. apply strip_prefix_Some in E. eauto with js.
  - destruct (rgt st) as [|c rest] eqn:E; [done|]. destruct (p c) eqn:Ep; [|done]. eauto with js.
  - apply IHa in H as (st1 & H1 & H). apply IHb in H as (st2 & H2 & H). eauto with js.
  - destruct (m a k st) eqn:E; simplify_eq.
    + apply IHa in E as (st' & H1 & H2). eauto with js.
    + apply IHb in H as (st' & H1 & H2). eauto with js.
  - by eapply star_loop_sound.
  - destruct (m a _ (reset a st)) eqn:E; simplify_eq; [|eauto with js].
    apply IHa in E as (st' & H1 & H2).
    destruct (Nat.ltb_spec (length (rgt st')) (length (rgt st))); [|done]. eauto with js.
  - apply IHa in H as (st' & H1 & H2). eauto with js.
  - destruct (strip_prefix _ (rgt st)) eqn:E; [|done]. apply strip_prefix_Some in E. eauto with js.
  - destruct (lft st) eqn:E; [|done]. eauto with js.
  - destruct (rgt st) eqn:E; [|done]. eauto with js.
  - destruct (xorb _ _) eqn:E; [|done]. eauto with js.
Qed.

Lemma star_loop_complete {A} a g (k : pos → option A) n st st' :
  (∀ k' st1 st2, rmatch a st1 st2 → is_success (k' st2) → is_success (m (A:=A) a k' st1)) →
  rmatch (RStar g a) st st' → length (rgt st) ≤ n →
  is_success (k st') → is_success (star_loop (m a) (reset a) g k n st).
Proof.
  intros IHa Hm. remember (RStar g a) as r eqn:Hr. revert n.
  induction Hm as [| | | | | |g' a' st|g' a' st st1 st2 H1 _ Hlt H2 IH2| | | | | | |];
    simplify_eq; intros n Hn Hk.
  - destruct n; cbn [star_loop]; [done|]. unfold is_success in *.
    destruct g, (m a _ (reset a st)), (k st); done.
  - destruct n as [|n]; [lia|]. cbn [star_loop].
    set (more := m a _ (reset a st)). assert (Hmore : is_success more).
    { unfold more. eapply IHa; [exact H1|]. destruct (Nat.ltb_spec (length (rgt st1)) (length (rgt st))); [|lia].
      apply IH2; [done|lia|done]. }
    unfold is_success in *. destruct g, more, (k st); done.
Qed.

(** If some match ends where the continuation succeeds, the matcher succeeds. *)
Lemma m_complete {A} r (k : pos → option A) st st' :
  rmatch r st st' → is_success (k st') → is_success (m r k st).
Proof.
  revert k st st'. induction r as [|s|p|a IHa b IHb|a IHa b IHb|g a IHa|a IHa|n a IHa|n| | |];
    intros k st st' Hm Hk; [..|eapply star_loop_complete; eauto| | | | | |]; inversion Hm; subst; cbn [m].
  - done.
  - by rewrite (proj2 (strip_prefix_Some _ _ _) H0).
  - by rewrite H0, H1.
  - eapply IHa; [eauto|]. by eapply IHb.
  - unfold is_success in *. pose proof (IHa k st st' H3 Hk). by destruct (m a k st).
  - unfold is_success in *. pose proof (IHb k st st' H3 Hk). by destruct (m a k st).
  - unfold is_success in *. by destruct (m a _ (reset a st')).
  - set (more := m a _ (reset a st)). assert (Hmore : is_success more).
    { eapply IHa; [eauto|]. by destruct (Nat.ltb_spec (length (rgt st')) (length (rgt st))); [|lia]. }
    unfold is_success in *. by destruct more.
  - by eapply IHa.
  - by rewrite (proj2 (strip_prefix_Some _ _ _) H0).
  - by rewrite H.
  - by rewrite H.
  - by rewrite H.
Qed.

(** A failed match: no way of matching satisfies the continuation. *)
Lemma m_None {A} r (k : pos → option A) st :
  m r k st = None ↔ ∀ st', rmatch r st st' → k st' = None.
Proof.
  split.
  - intros H st' Hm. destruct (k st') eqn:E; [|done]. exfalso.
    apply (m_complete r k st st' Hm); [by rewrite E|done].
  - intros H. destruct (m r k st) eqn:E; [|done].
    apply m_sound in E as (st' & Hm & Hk). by rewrite H in Hk.
Qed.

(** ** Searching, [match], [test], [exec] with the [g] flag, [replace] *)

(** The leftmost match: its first and its last position. *)
Fixpoint search (r : regex) (l s : jsstr) : option (pos * pos) :=
  match m r Some (Pos l s []) with
  | Some e => Some (Pos l s [], e)
  | None => match s with
            | [] => None
            | c :: s' => search r (c :: l) s'
            end
  end.

(** [s.match(re)]; group 0 is the whole match. *)
Definition re_match (r : regex) (s : jsstr) : option (nat → option jsstr) :=
  match search r [] s with
  | None => None
  | Some (b, e) => Some (λ n, match n with O => Some (between b e) | _ => cap_get n (caps e) end)
  end.

(** [re.test(s)] *)
Definition re_test (r : regex) (s : jsstr) : bool :=
  match search r [] s with Some _ => true | None => false end.

(** [while ((m = re.exec(s)) !== null)] with the [g] flag: every match starts
    where the previous one ended.  The expressions the sources loop over never
    match the empty text, so one unit of fuel per code unit is enough. *)
Fixpoint exec_all (fuel : nat) (r : regex) (l s : jsstr) : list (pos * pos) :=
  match fuel with
  | O => []
  | S f => match search r l s with
           | None => []
           | Some (b, e) => (b, e) :: exec_all f r (lft e) (rgt e)
           end
  end.
Definition re_all (r : regex) (s : jsstr) : list (pos * pos) := exec_all (S (length s)) r [] s.

(** [s.replace(re, with)] with the [g] flag, for a constant replacement. *)
Fixpoint replace_go (fuel : nat) (r : regex) (w l s : jsstr) : jsstr :=
  match fuel with
  | O => s
  | S f => match search r l s with
           | None => s
           | Some (b, e) => take (length s - length (rgt b)) s ++ w ++ replace_go f r w (lft e) (rgt e)
           end
  end.
Definition re_replace_all (r : regex) (w s : jsstr) : jsstr := replace_go (S (length s)) r w [] s.

(** ** Symbolic execution of the matcher *)

Lemma m_lit_app {A} s (k : pos → option A) l rest cs :
  m (RLit s) k (Pos l (s ++ rest) cs) = k (Pos (rev s ++ l) rest cs).
Proof. cbn [m rgt]. by rewrite strip_prefix_app. Qed.

Lemma m_lit_None {A} s (k : pos → option A) l t cs :
  starts_with s t = false → m (RLit s) k (Pos l t cs) = None.
Proof. cbn [m rgt]. unfold starts_with. by destruct (strip_prefix s t). Qed.

Lemma m_lit_None_cons {A} d s (k : pos → option A) l c t cs :
  c ≠ d → m (RLit (d :: s)) k (Pos l (c :: t) cs) = None.
Proof. intros H. apply m_lit_None. unfold starts_with. cbn [strip_prefix]. by destruct (N.eqb_spec d c). Qed.

(** A greedy star over a class, as a structural loop: longest run first. *)
Fixpoint star_set {A} (p : N → bool) (k : pos → option A) (l s : jsstr) (cs : list (nat * option jsstr)) : option A :=
  match s with
  | c :: s' => if p c then match star_set p k (c :: l) s' cs with
                           | Some x => Some x
                           | None => k (Pos l s cs)
                           end
               else k (Pos l s cs)
  | [] => k (Pos l s cs)
  end.

Lemma m_star_set {A} p (k : pos → option A) l s cs :
  m (RStar true (RSet p)) k (Pos l s cs) = star_set p k l s cs.
Proof.
  change (star_loop (m (RSet p)) (reset (RSet p)) true k (length s) (Pos l s cs) = star_set p k l s cs).
  revert l. induction s as [|c s IH]; intros l; [done|].
  change (match (if p c then if length s <? S (length s)
                 then star_loop (m (RSet p)) (reset (RSet p)) true k (length s) (Pos (c :: l) s cs)
                 else None else None) with Some x => Some x | None => k (Pos l (c :: s) cs) end
          = star_set p k l (c :: s) cs).
  cbn [star_set]. destruct (p c); [|done].
  destruct (Nat.ltb_spec (length s) (S (length s))); [|lia]. by rewrite IH.
Qed.

(** The longest run wins when the continuation accepts what follows it. *)
Lemma star_set_run {A} p (k : pos → option A) l a b cs x :
  forallb p a = true → match b with [] => True | c :: _ => p c = false end →
  k (Pos (rev a ++ l) b cs) = Some x → star_set p k l (a ++ b) cs = Some x.
Proof.
  revert l. induction a as [|c a IH]; intros l Ha Hb Hk; cbn [app star_set].
  - destruct b as [|c b]; [done|]. cbn [star_set]. by rewrite Hb.
  - cbn [forallb] in Ha. bool_hyps. rewrite H. cbn [rev] in Hk. rewrite <- app_assoc in Hk.
    by rewrite (IH (c :: l)).
Qed.

(** It fails when the continuation refuses after every run. *)
Lemma star_set_None {A} p (k : pos → option A) l s cs :
  (∀ a b, s = a ++ b → forallb p a = true → k (Pos (rev a ++ l) b cs) = None) →
  star_set p k l s cs = None.
Proof.
  revert l. induction s as [|c s IH]; intros l H; cbn [star_set]; [by apply (H [] [])|].
  destruct (p c) eqn:Hp; [|by apply (H [] (c :: s))].
  rewrite IH; [by apply (H [] (c :: s))|].
  intros a b -> Ha. specialize (H (c :: a) b). cbn [rev] in H. rewrite <- app_assoc in H.
  apply H; [done|]. cbn [forallb]. by rewrite Hp.
Qed.

(** Text taken between two positions of the same line. *)
Lemma between_app l l' a b cs cs' : between (Pos l (a ++ b) cs) (Pos l' b cs') = a.
Proof.
  unfold between. cbn [rgt]. rewrite length_app.
  replace (length a + length b - length b) with (length a) by lia. by apply take_app_length.
Qed.

(** An expression anchored at the start is tried once. *)
Lemma search_bol r s :
  search (RBol +> r) [] s =
  match m r Some (Pos [] s []) with Some e => Some (Pos [] s [], e) | None => None end.
Proof.
  assert (Hlater : ∀ t l, l ≠ [] → search (RBol +> r) l t = None).
  { induction t as [|c t IH]; intros l Hl; cbn [search m lft]; destruct l; try done; cbn [is_empty].
    by apply IH. }
  destruct s as [|c s]; cbn [search m lft is_empty]; destruct (m r Some _); try done.
  by apply Hlater.
Qed.

(** What a match consumes is a stretch of the text. *)
Lemma rmatch_text r st st' :
  rmatch r st st' → rgt st = between st st' ++ rgt st' ∧ lft st' = rev (between st st') ++ lft st.
Proof.
  assert (Hadv : ∀ s rest st, rgt st = s ++ rest →
            rgt st = between st (advance s rest st) ++ rest ∧
            rev s ++ lft st = rev (between st (advance s rest st)) ++ lft st).
  { clear. intros s rest [l t cs]; cbn [rgt lft]; intros ->. unfold advance. cbn [lft caps].
    by rewrite between_app. }
  assert (Hsame : ∀ st, between st st = []) by (clear; intros []; unfold between; by rewrite Nat.sub_diag).
  assert (Htrans : ∀ st st1 st2, rgt st = between st st1 ++ rgt st1 → rgt st1 = between st1 st2 ++ rgt st2 →
            between st st2 = between st st1 ++ between st1 st2).
  { clear. intros st st1 st2 H1 H2. rewrite H2, app_assoc in H1. destruct st as [l t cs], st2 as [l2 t2 cs2].
    cbn [rgt] in *. rewrite H1 at 1. apply between_app. }
  induction 1; cbn [rgt lft cap_set]; rewrite ?Hsame; try (split; done); try (by apply Hadv).
  - destruct IHrmatch1 as [H1 H2], IHrmatch2 as [H3 H4].
    rewrite (Htrans st st1 st2) by done. rewrite rev_app_distr, <- !app_assoc.
    split; [by rewrite <- H3|by rewrite H4, H2].
  - done.
  - done.
  - destruct IHrmatch1 as [H3 H4], IHrmatch2 as [H5 H6].
    change (between (reset a st) st1) with (between st st1) in *. cbn [reset rgt lft] in H3, H4.
    rewrite (Htrans st st1 st2) by done. rewrite rev_app_distr, <- !app_assoc.
    split; [by rewrite <- H5|by rewrite H6, H4].
  - done.
  - done.
Qed.

(** ** Running an expression on symbolic text

    The expressions of the sources alternate runs of a class with literals
    that the class does not contain, so a run can only stop where it ends:
    matching is a computation on the text, in both directions. *)

Lemma m_seq {A} a b (k : pos → option A) st : m (a +> b) k st = m a (m b k) st.
Proof. done. Qed.

Lemma m_alt {A} a b (k : pos → option A) st :
  m (a <|> b) k st = match m a k st with Some x => Some x | None => m b k st end.
Proof. done. Qed.

Lemma m_group_alt {A} n a b (k : pos → option A) st :
  m (RGroup n (a <|> b)) k st =
  match m (RGroup n a) k st with Some x => Some x | None => m (RGroup n b) k st end.
Proof. done. Qed.

Lemma m_lit_Some {A} s (k : pos → option A) l t cs rest :
  strip_prefix s t = Some rest → m (RLit s) k (Pos l t cs) = k (Pos (rev s ++ l) rest cs).
Proof. intros H. cbn [m rgt]. by rewrite H. Qed.

Lemma m_group_lit {A} n s (k : pos → option A) l t cs rest :
  strip_prefix s t = Some rest →
  m (RGroup n (RLit s)) k (Pos l t cs) = k (Pos (rev s ++ l) rest ((n, Some s) :: cs)).
Proof.
  intros H%strip_prefix_Some. subst t.
  change (m (RLit s) (λ st', k (cap_set n (Some (between (Pos l (s ++ rest) cs) st')) st'))
            (Pos l (s ++ rest) cs) = k (Pos (rev s ++ l) rest ((n, Some s) :: cs))).
  rewrite m_lit_app, between_app. done.
Qed.

Lemma m_group_lit_None {A} n s (k : pos → option A) l t cs :
  starts_with s t = false → m (RGroup n (RLit s)) k (Pos l t cs) = None.
Proof. apply (m_lit_None s (λ st', k (cap_set n (Some (between (Pos l t cs) st')) st'))). Qed.

Lemma m_ref {A} n (k : pos → option A) l t cs rest :
  strip_prefix (default [] (cap_get n cs)) t = Some rest →
  m (RRef n) k (Pos l t cs) = k (Pos (rev (default [] (cap_get n cs)) ++ l) rest cs).
Proof. intros H. cbn [m rgt caps]. by rewrite H. Qed.

Lemma m_ref_app {A} n (k : pos → option A) l a rest cs :
  cap_get n cs = Some a → m (RRef n) k (Pos l (a ++ rest) cs) = k (Pos (rev a ++ l) rest cs).
Proof. intros H. rewrite (m_ref n k l _ cs rest); rewrite H; [done|]. by apply strip_prefix_app. Qed.

(** A continuation that refuses to start at a unit of the class. *)
Definition blocks {A} (p : N → bool) (k : pos → option A) : Prop :=
  ∀ l c t cs, p c = true → k (Pos l (c :: t) cs) = None.

Lemma blocks_lit {A} p d s (k : pos → option A) : p d = false → blocks p (m (RLit (d :: s)) k).
Proof.
  intros Hd l c t cs Hc. apply m_lit_None. apply not_true_is_false. rewrite starts_with_true.
  intros (r & [= -> _]). congruence.
Qed.

Lemma blocks_eol {A} p (k : pos → option A) : blocks p (m REol k).
Proof. done. Qed.

Definition head_not (p : N → bool) (s : jsstr) : Prop := match s with [] => True | c :: _ => p c = false end.

Lemma star_set_det {A} p (k : pos → option A) l a b cs :
  forallb p a = true → head_not p b → blocks p k →
  star_set p k l (a ++ b) cs = k (Pos (rev a ++ l) b cs).
Proof.
  intros Ha Hb Hk. revert l. induction a as [|c a IH]; intros l; cbn [app star_set rev].
  - destruct b as [|c b]; [done|]. cbn [star_set]. by rewrite Hb.
  - cbn [forallb] in Ha. bool_hyps. rewrite H, IH, <- app_assoc by done. cbn [app].
    by destruct (k _); [|rewrite (Hk _ _ _ _ H)].
Qed.

(** A captured run: it ends where the class ends. *)
Lemma m_group_run {A} n p (k : pos → option A) l a b cs :
  a ≠ [] → forallb p a = true → head_not p b → blocks p k →
  m (RGroup n (RPlus (RSet p))) k (Pos l (a ++ b) cs) = k (Pos (rev a ++ l) b ((n, Some a) :: cs)).
Proof.
  destruct a as [|c a]; [done|]. intros _ Ha Hb Hk. cbn [forallb] in Ha. bool_hyps.
  set (st := Pos l ((c :: a) ++ b) cs).
  change (m (RPlus (RSet p)) (λ st', k (cap_set n (Some (between st st')) st')) st =
          k (Pos (rev (c :: a) ++ l) b ((n, Some (c :: a)) :: cs))).
  unfold RPlus. rewrite m_seq.
  change (m (RSet p) ?k0 st) with (if p c then k0 (Pos (c :: l) (a ++ b) cs) else None).
  rewrite H, m_star_set, star_set_det; [|done|done|].
  - unfold st. rewrite between_app. cbn [rev]. by rewrite <- app_assoc.
  - intros l' d t cs' Hd. by apply Hk.
Qed.

(** A captured run that cannot start. *)
Lemma m_group_run_None {A} n p (k : pos → option A) l b cs :
  head_not p b → m (RGroup n (RPlus (RSet p))) k (Pos l b cs) = None.
Proof.
  intros H. set (st := Pos l b cs).
  change (m (RSet p) (m (RStar true (RSet p)) (λ st', k (cap_set n (Some (between st st')) st'))) st = None).
  subst st. destruct b as [|c b]; [done|]. cbn [m rgt]. by rewrite H.
Qed.

(** A greedy star whose iterations each take one of the given chunks. *)
Definition takes (r : regex) (chunk : jsstr) : Prop :=
  chunk ≠ [] ∧
  ∀ (k : pos → option pos) l rest cs, m r k (Pos l (chunk ++ rest) cs) = k (Pos (rev chunk ++ l) rest cs).

Lemma m_star_chunks r (k : pos → option pos) chunks l b cs x :
  groups r = [] → Forall (takes r) chunks →
  (∀ (k' : pos → option pos) l' cs', m r k' (Pos l' b cs') = None) →
  k (Pos (rev (concat chunks) ++ l) b cs) = Some x →
  m (RStar true r) k (Pos l (concat chunks ++ b) cs) = Some x.
Proof.
  intros Hg Hch Hb. change (m (RStar true r) k ?st) with (star_loop (m r) (reset r) true k (length (rgt st)) st).
  assert (Hr : ∀ st, reset r st = st) by (intros []; unfold reset; by rewrite Hg).
  cbn [rgt]. assert (Hn : length (concat chunks ++ b) ≤ length (concat chunks ++ b)) by done. revert Hn.
  generalize (length (concat chunks ++ b)) at 2 3 as n. intros n Hn Hk. revert l n Hn Hk.
  induction Hch as [|ch chunks [Hne Hch] _ IH]; intros l n Hn Hk.
  - destruct n; [done|]. cbn [star_loop concat app]. rewrite Hr.
    rewrite (Hb _ l cs). done.
  - cbn [concat] in *. rewrite <- app_assoc in *. destruct ch as [|c ch]; [done|].
    destruct n as [|n]; [cbn in Hn; lia|]. cbn [star_loop]. rewrite Hr, Hch. cbn [rgt].
    destruct (Nat.ltb_spec (length (concat chunks ++ b)) (length ((c :: ch) ++ concat chunks ++ b))) as [_|Hlt];
      [|rewrite (length_app (c :: ch)) in Hlt; cbn [length] in Hlt; lia].
    rewrite (IH (rev (c :: ch) ++ l) n); [done| |].
    + rewrite (length_app (c :: ch)) in Hn. cbn [length] in Hn. lia.
    + by rewrite rev_app_distr, <- app_assoc in Hk.
Qed.

(** Every unit a match consumes belongs to the alphabet of the expression. *)
Fixpoint over (P : N → bool) (r : regex) : Prop :=
  match r with
  | RLit s => forallb P s = true
  | RSet p => ∀ c, p c = true → P c = true
  | RSeq a b | RAlt a b => over P a ∧ over P b
  | RStar _ a | ROpt a | RGroup _ a => over P a
  | RRef _ => False
  | _ => True
  end.

Lemma rmatch_over P r st st' : over P r → rmatch r st st' → ∃ t, rgt st = t ++ rgt st' ∧ forallb P t = true.
Proof.
  intros Ho Hm. revert Ho. induction Hm; cbn [over]; intros Ho; try (by exists []).
  - by exists s.
  - exists [c]. split; [done|]. cbn [forallb]. by rewrite Ho.
  - destruct IHHm1 as (t1 & He & H1); [tauto|]. destruct IHHm2 as (t2 & Ht & H2); [tauto|].
    exists (t1 ++ t2). by rewrite He, Ht, <- app_assoc, forallb_app, H1, H2.
  - apply IHHm; tauto.
  - apply IHHm; tauto.
  - destruct IHHm1 as (t1 & He & H1); [done|]. destruct IHHm2 as (t2 & Ht & H2); [done|].
    cbn [reset rgt] in He. exists (t1 ++ t2). by rewrite He, Ht, <- app_assoc, forallb_app, H1, H2.
  - by apply IHHm.
  - by apply IHHm.
Qed.

Lemma re_match_bol r s :
  re_match (RBol +> r) s =
  match m r Some (Pos [] s []) with
  | Some e => Some (λ n, match n with O => Some (between (Pos [] s []) e) | _ => cap_get n (caps e) end)
  | None => None
  end.
Proof. unfold re_match. rewrite search_bol. by destruct (m _ _ _). Qed.

(** [re_run] computes a match on text made of literals and of variables whose
    runs are known; [re_lits] first turns literals into lists of units. *)
Ltac re_lits :=
  repeat match goal with
  | |- context [js ?s] => let v := eval vm_compute in (js s) in change (js s) with v
  | |- context [jsq ?s] => let v := eval vm_compute in (jsq s) in change (jsq s) with v
  end.
Ltac re_strip s t :=
  let r := eval cbn [strip_prefix app N.eqb Pos.eqb default cap_get List.find bool_decide fst] in (strip_prefix s t) in
  match r with Some ?rest => rest end.
Ltac re_blocks := first [apply blocks_eol | apply blocks_lit; reflexivity].
Ltac re_step :=
  rewrite ?m_seq;
  match goal with
  | |- context [m (RGroup ?n (_ <|> _)) ?k (Pos ?l ?t ?cs)] => rewrite (m_group_alt n _ _ k (Pos l t cs))
  | |- context [m (RGroup ?n (RLit ?s)) ?k (Pos ?l ?t ?cs)] =>
      first [rewrite (m_group_lit_None n s k l t cs) by reflexivity
            |let rest := re_strip s t in rewrite (m_group_lit n s k l t cs rest) by reflexivity]
  | |- context [m (RGroup ?n (RPlus (RSet ?p))) ?k (Pos ?l (?a ++ ?b) ?cs)] =>
      rewrite (m_group_run n p k l a b cs); [|solve [eauto with js]|solve [eauto with js]
                                             |solve [reflexivity | exact I]|re_blocks]
  | |- context [m (RGroup ?n (RPlus (RSet ?p))) ?k (Pos ?l ?b ?cs)] =>
      rewrite (m_group_run_None n p k l b cs) by reflexivity
  | |- context [m (RRef ?n) ?k (Pos ?l ?t ?cs)] =>
      match t with
      | ?a ++ ?b => rewrite (m_ref_app n k l a b cs) by reflexivity
      | _ => let a := eval vm_compute in (cap_get n cs) in
             match a with
             | Some ?a => let rest := re_strip a t in rewrite (m_ref_app n k l a rest cs : m (RRef n) k (Pos l t cs) = _) by reflexivity
             end
      end
  | |- context [m (RLit ?s) ?k (Pos ?l ?t ?cs)] =>
      first [rewrite (m_lit_None s k l t cs) by reflexivity
            |let rest := re_strip s t in rewrite (m_lit_Some s k l t cs rest) by reflexivity]
  end.
Ltac re_run := repeat re_step.
