(* ===== verification/JsNumber.v ===== *)
(** * Numbers of the language

    A JavaScript number is an IEEE-754 binary64.  [num] is Corelib's
    [spec_float], on which the binary64 operations are plain functions, so
    arithmetic here rounds as the program's arithmetic does and evaluates.
    The file holds the conversions the sources use: [Number(text)],
    [parseFloat], [parseInt(text, 10)], [String(number)], [toFixed], and
    [Math.floor], [Math.round], [Math.sign], [Math.abs]. *)

From Corelib Require Export SpecFloat.
From S2P Require Import Prelude JsString.
#[local] Open Scope Z_scope.

Abbreviation num := spec_float.

Definition prec : Z := 53.
Definition emax : Z := 1024.

(** ** Arithmetic and comparison *)

Definition nadd : num → num → num := SFadd prec emax.
Definition nsub : num → num → num := SFsub prec emax.
Definition nmul : num → num → num := SFmul prec emax.
Definition ndiv : num → num → num := SFdiv prec emax.
Definition nopp : num → num := SFopp.
Definition nabs : num → num := SFabs.
Definition nlt : num → num → bool := SFltb.
Definition nle : num → num → bool := SFleb.
(** [a === b] on numbers: [NaN] differs from itself, [0] equals [-0]. *)
Definition neq : num → num → bool := SFeqb.

Definition nzero : num := S754_zero false.
Definition nan : num := S754_nan.
Definition isNaN (x : num) : bool := match x with S754_nan => true | _ => false end.
Definition isFinite (x : num) : bool :=
  match x with S754_zero _ | S754_finite _ _ _ => true | _ => false end.

(** The number nearest to an integer. *)
Definition num_of_Z (z : Z) : num := binary_normalize prec emax z 0 false.

(** [x || 0] and the like: [NaN] and the zeros are falsy. *)
Definition num_truthy (x : num) : bool :=
  match x with S754_nan | S754_zero _ => false | _ => true end.

#[export] Instance spec_float_eq_dec : EqDecision spec_float.
Proof. solve_decision. Defined.

(** ** Decimal to binary: the number nearest to [m * 10^e] *)

Definition digit_count (n : Z) : Z := Z.of_nat (length (string_of_nonneg n)).

(** Out of the binary64 range the power of ten is not computed: [10^400]
    exceeds every finite number and [10^-400] is below half the smallest. *)
Definition num_of_dec (neg : bool) (m e : Z) : num :=
  match m with
  | Zpos p =>
    let d := digit_count m + e in
    if 400 <? d then S754_infinity neg
    else if d <? -400 then S754_zero neg
    else if 0 <=? e then binary_round prec emax neg (Z.to_pos (m * 10 ^ e)) 0
    else let '(mz, ez, lz) := SFdiv_core_binary prec emax m 0 (10 ^ (- e)) 0 in
         binary_round_aux prec emax neg mz ez lz
  | _ => S754_zero neg
  end.

(** ** Reading numbers *)

(** The longest run of decimal digits at the front. *)
Fixpoint take_digits (s : jsstr) : jsstr * jsstr :=
  match s with
  | c :: s' => if is_digit c then let '(a, b) := take_digits s' in (c :: a, b) else ([], s)
  | [] => ([], [])
  end.

(** An exponent part [e[+-]digits], when there is a complete one. *)
Definition take_exponent (s : jsstr) : Z * jsstr :=
  match s with
  | c :: s' =>
    if ((c =? 101) || (c =? 69))%N then
      let '(neg, s'') := match s' with
                         | 43%N :: t => (false, t)
                         | 45%N :: t => (true, t)
                         | _ => (false, s')
                         end in
      match take_digits s'' with
      | ([], _) => (0, s)
      | (ds, rest) => (if neg then - digits_val ds else digits_val ds, rest)
      end
    else (0, s)
  | [] => (0, s)
  end.

(** StrUnsignedDecimalLiteral at the front of a text: [digits[.digits][exp]] or
    [.digits[exp]]; the value as [m * 10^e] and the rest of the text. *)
Definition take_decimal (s : jsstr) : option (Z * Z * jsstr) :=
  let '(ip, s1) := take_digits s in
  let '(fp, s2) := match s1 with
                   | 46%N :: t => let '(f, r) := take_digits t in
                                  if is_empty ip && is_empty f then ([], s1) else (f, r)
                   | _ => ([], s1)
                   end in
  if is_empty ip && is_empty fp then None
  else let '(e, s3) := take_exponent s2 in
       Some (digits_val (ip ++ fp), e - Z.of_nat (length fp), s3).

Definition take_sign (s : jsstr) : bool * jsstr :=
  match s with
  | 43%N :: t => (false, t)
  | 45%N :: t => (true, t)
  | _ => (false, s)
  end.

(** Digits of a [0x], [0o] or [0b] literal. *)
Definition radix_digit (c : N) : Z :=
  if is_digit c then digit_val c
  else if ((97 <=? c) && (c <=? 102))%N then Z.of_N c - 87
  else if ((65 <=? c) && (c <=? 70))%N then Z.of_N c - 55
  else 99.
Definition radix_val (radix : Z) (s : jsstr) : option Z :=
  if is_empty s || existsb (λ c, radix <=? radix_digit c) s then None
  else Some (fold_left (λ a c, a * radix + radix_digit c) s 0).

Definition radix_literal (s : jsstr) : option num :=
  match s with
  | 48%N :: c :: t =>
    let r := if ((c =? 120) || (c =? 88))%N then 16
             else if ((c =? 111) || (c =? 79))%N then 8
             else if ((c =? 98) || (c =? 66))%N then 2 else 0 in
    if r =? 0 then None
    else match radix_val r t with Some v => Some (num_of_Z v) | None => Some nan end
  | _ => None
  end.

(** [Number(text)] *)
Definition Number_of_string (s0 : jsstr) : num :=
  let s := trim s0 in
  if is_empty s then nzero
  else match radix_literal s with
  | Some x => x
  | None =>
    let '(neg, t) := take_sign s in
    if streq t (js "Infinity") then S754_infinity neg
    else match take_decimal t with
         | Some (m, e, []) => num_of_dec neg m e
         | _ => nan
         end
  end.

(** [parseFloat(text)]: the longest decimal literal at the front. *)
Definition parseFloat (s0 : jsstr) : num :=
  let s := drop_while is_ws s0 in
  let '(neg, t) := take_sign s in
  if starts_with (js "Infinity") t then S754_infinity neg
  else match take_decimal t with
       | Some (m, e, _) => num_of_dec neg m e
       | None => nan
       end.

(** [parseInt(text, 10)] *)
Definition parseInt10 (s0 : jsstr) : num :=
  let '(neg, t) := take_sign (drop_while is_ws s0) in
  match take_digits t with
  | ([], _) => nan
  | (ds, _) => num_of_dec neg (digits_val ds) 0
  end.

(** ** Printing numbers *)

(** A finite positive number as an exact fraction. *)
Definition fraction (m : positive) (e : Z) : Z * Z :=
  if 0 <=? e then (Z.pos m * 2 ^ e, 1) else (Z.pos m, 2 ^ (- e)).

(** [n] with [10^(n-1) <= a/b < 10^n]. *)
Definition dec_exponent (a b : Z) : Z :=
  let n := digit_count a - digit_count b in
  let lt := if 0 <=? n then a <? b * 10 ^ n else a * 10 ^ (- n) <? b in
  if lt then n else n + 1.

(** The two [k]-digit decimals around [a/b] with exponent [x], nearest first. *)
Definition candidates (a b x : Z) : list Z :=
  let '(a', b') := if 0 <=? x then (a, b * 10 ^ x) else (a * 10 ^ (- x), b) in
  let q := a' / b' in let r := a' mod b' in
  if 2 * r <=? b' then [q; q + 1] else [q + 1; q].

(** The fewest digits that read back as the same number; 17 always do. *)
Fixpoint shortest (fuel : nat) (k : Z) (v : num) (a b n : Z) : Z * Z :=
  let x := n - k in
  match fuel with
  | O => (hd 0 (candidates a b x), x)
  | S f => match List.find (λ s, bool_decide (num_of_dec false s x = v)) (candidates a b x) with
           | Some s => (s, x)
           | None => shortest f (k + 1) v a b n
           end
  end.

Fixpoint strip_zeros (fuel : nat) (s x : Z) : Z * Z :=
  match fuel with
  | O => (s, x)
  | S f => if (s mod 10 =? 0) && negb (s =? 0) then strip_zeros f (s / 10) (x + 1) else (s, x)
  end.

Definition zeros (n : Z) : jsstr := repeat 48%N (Z.to_nat n).

(** Number::toString for digits [s] and [n] with value [0.s * 10^n]. *)
Definition layout (ds : jsstr) (n : Z) : jsstr :=
  let k := Z.of_nat (length ds) in
  if (k <=? n) && (n <=? 21) then ds ++ zeros (n - k)
  else if (0 <? n) && (n <=? 21) then take (Z.to_nat n) ds ++ js "." ++ drop (Z.to_nat n) ds
  else if (-6 <? n) && (n <=? 0) then js "0." ++ zeros (- n) ++ ds
  else let e := n - 1 in
       let es := js "e" ++ (if e <? 0 then js "-" else js "+") ++ string_of_nonneg (Z.abs e) in
       match ds with
       | [d] => d :: es
       | d :: rest => d :: js "." ++ rest ++ es
       | [] => es
       end.

Definition sign_text (neg : bool) : jsstr := if neg then js "-" else [].

(** [String(x)] *)
Definition String_of_num (x : num) : jsstr :=
  match x with
  | S754_nan => js "NaN"
  | S754_zero _ => js "0"
  | S754_infinity s => sign_text s ++ js "Infinity"
  | S754_finite neg m e =>
    let '(a, b) := fraction m e in
    let n := dec_exponent a b in
    let '(s, x) := shortest 17 1 (S754_finite false m e) a b n in
    let '(s', x') := strip_zeros 20 s x in
    let ds := string_of_nonneg s' in
    sign_text neg ++ layout ds (x' + Z.of_nat (length ds))
  end.

(** [x.toFixed(f)]: the integer nearest to [x * 10^f], ties upwards in
    magnitude, written with [f] decimals. *)
Definition toFixed (f : nat) (x : num) : jsstr :=
  match x with
  | S754_nan => js "NaN"
  | S754_infinity s => sign_text s ++ js "Infinity"
  | S754_zero _ => js "0" ++ (if Nat.eqb f 0 then [] else js "." ++ zeros (Z.of_nat f))
  | S754_finite neg m e =>
    let '(a, b) := fraction m e in
    if (10 ^ 21 * b <=? a) then String_of_num x
    else
      let a' := a * 10 ^ Z.of_nat f in
      let n := (2 * a' + b) / (2 * b) in
      let ds := string_of_nonneg n in
      sign_text neg ++
      (if Nat.eqb f 0 then ds
       else let ds' := zeros (Z.of_nat f + 1 - Z.of_nat (length ds)) ++ ds in
            let k := (length ds' - f)%nat in
            take k ds' ++ js "." ++ drop k ds')
  end.

(** ** Rounding to integers *)

(** [Math.floor] *)
Definition floor (x : num) : num :=
  match x with
  | S754_finite neg m e =>
    let '(a, b) := fraction m e in
    if neg then (if a mod b =? 0 then x else num_of_Z (- (a / b) - 1))
    else if a mod b =? 0 then x else num_of_Z (a / b)
  | _ => x
  end.

(** [Math.round]: ties towards plus infinity; [-0] for a negative number that
    rounds to zero. *)
Definition round (x : num) : num :=
  match x with
  | S754_finite neg m e =>
    let '(a, b) := fraction m e in
    let z := if neg then - ((2 * a - b + (2 * b - 1)) / (2 * b)) else (2 * a + b) / (2 * b) in
    if a mod b =? 0 then x
    else if z =? 0 then S754_zero neg else num_of_Z z
  | _ => x
  end.

(** [Math.sign] *)
Definition sign (x : num) : num :=
  match x with
  | S754_nan => nan
  | S754_zero _ => x
  | S754_infinity s | S754_finite s _ _ => if s then nopp (num_of_Z 1) else num_of_Z 1
  end.

(** [Number.isInteger] *)
Definition isInteger (x : num) : bool :=
  match x with
  | S754_zero _ => true
  | S754_finite _ m e => let '(a, b) := fraction m e in a mod b =? 0
  | _ => false
  end.

(** ** Checks against known values *)

Example num_ex1 : String_of_num (nadd (Number_of_string (js "0.1")) (Number_of_string (js "0.2"))) = js "0.30000000000000004".
Proof. vm_compute. reflexivity. Qed.
Example num_ex2 : map String_of_num (map Number_of_string [js "1e21"; js "123456789012345680000"; js "1e-7"; js " 0x1F "; js "-.5e1"; js "5e-324"; js "1.7976931348623157e308"; js "1e400"; js "12px"; js ""])
  = [js "1e+21"; js "123456789012345680000"; js "1e-7"; js "31"; js "-5"; js "5e-324"; js "1.7976931348623157e+308"; js "Infinity"; js "NaN"; js "0"].
Proof. vm_compute. reflexivity. Qed.
Example num_ex3 : map (toFixed 2) (map Number_of_string [js "1.005"; js "2.345"; js "-1.5"; js "1e21"; js "0.001"; js "-0.001"; js "1.45"; js "10"])
  = [js "1.00"; js "2.35"; js "-1.50"; js "1e+21"; js "0.00"; js "-0.00"; js "1.45"; js "10.00"].
Proof. vm_compute. reflexivity. Qed.
Example num_ex4 : map String_of_num (map round (map Number_of_string [js "2.5"; js "-2.5"; js "-0.4"; js "0.49999999999999994"; js "7"]))
  = [js "3"; js "-2"; js "0"; js "0"; js "7"].
Proof. vm_compute. reflexivity. Qed.
Example num_ex5 : map String_of_num (map floor (map Number_of_string [js "2.5"; js "-2.5"; js "-0.4"; js "0.9"])) = [js "2"; js "-3"; js "-1"; js "0"].
Proof. vm_compute. reflexivity. Qed.
Example num_ex6 : map String_of_num (map parseFloat [js " 3.14abc"; js ".5."; js "1e"; js "-"; js "1.e2x"]) = [js "3.14"; js "0.5"; js "1"; js "NaN"; js "100"].
Proof. vm_compute. reflexivity. Qed.
Example num_ex7 : String_of_num (Number_of_string (js "5.6843418860808015e-14")) = js "5.684341886080802e-14".
Proof. vm_compute. reflexivity. Qed.
Example num_ex8 : map String_of_num [ndiv (num_of_Z 1) (num_of_Z 3); ndiv (num_of_Z 100) (num_of_Z 7); num_of_Z 9007199254740993; num_of_Z (-1500)] = [js "0.3333333333333333"; js "14.285714285714286"; js "9007199254740992"; js "-1500"].
Proof. vm_compute. reflexivity. Qed.

(** ** Fixed-point texts read back *)

Lemma digits_val_app a b : digits_val (a ++ b) = digits_val a * 10 ^ Z.of_nat (length b) + digits_val b.
Proof.
  induction b as [|c b IH] using rev_ind; [rewrite app_nil_r; cbn; lia|].
  rewrite app_assoc, !digits_val_snoc, IH, length_app. cbn [length].
  replace (Z.of_nat (length b + 1)) with (Z.succ (Z.of_nat (length b))) by lia. rewrite Z.pow_succ_r by lia. lia.
Qed.

Lemma digits_val_bounds s : forallb is_digit s = true → 0 ≤ digits_val s < 10 ^ Z.of_nat (length s).
Proof.
  induction s as [|c s IH] using rev_ind; [cbn; lia|]. rewrite forallb_app. cbn [forallb]. intros H.
  apply andb_true_iff in H as [H1 H2]. specialize (IH H1). rewrite andb_true_r in H2. rewrite digits_val_snoc, length_app. cbn [length].
  replace (Z.of_nat (length s + 1)) with (Z.succ (Z.of_nat (length s))) by lia. rewrite Z.pow_succ_r by lia.
  assert (0 ≤ digit_val c < 10); [|lia]. unfold is_digit in H2. unfold digit_val. apply andb_true_iff in H2 as [?%N.leb_le ?%N.leb_le]. lia.
Qed.

Lemma digits_val_zeros n s : digits_val (zeros n ++ s) = digits_val s.
Proof.
  rewrite digits_val_app. assert (digits_val (zeros n) = 0) as ->; [|lia]. unfold zeros.
  induction (Z.to_nat n) as [|k IH]; [done|]. cbn [repeat]. rewrite repeat_cons, digits_val_snoc, IH. done.
Qed.

Lemma zeros_digits n : forallb is_digit (zeros n) = true.
Proof. unfold zeros. induction (Z.to_nat n) as [|k IH]; cbn [repeat forallb]; [done|]. by rewrite IH. Qed.

(** An amount [toFixed] writes without sign and exponent, and its numerator
    and denominator. *)
Definition amount (x : num) : option (Z * Z) :=
  match x with
  | S754_zero _ => Some (0, 1)
  | S754_finite false m e => let '(a, b) := fraction m e in if 10 ^ 21 * b <=? a then None else Some (a, b)
  | _ => None
  end.

(** [n] is the integer nearest to [a/b * 10^f]. *)
Definition nearest (f : nat) (a b n : Z) : Prop := 2 * Z.abs (n * b - a * 10 ^ Z.of_nat f) ≤ b.

Lemma fraction_pos m e : 0 < (fraction m e).1 ∧ 0 < (fraction m e).2.
Proof. unfold fraction. destruct (Z.leb_spec 0 e); cbn [fst snd]; split; try lia; try (apply Z.mul_pos_pos; [lia|]); apply Z.pow_pos_nonneg; lia. Qed.

Lemma toFixed_text f x a b : (0 < f)%nat → amount x = Some (a, b) →
  ∃ ip fp, toFixed f x = ip ++ 46%N :: fp ∧ forallb is_digit ip = true ∧ forallb is_digit fp = true ∧
           ip ≠ [] ∧ length fp = f ∧ nearest f a b (digits_val (ip ++ fp)).
Proof.
  intros Hf. unfold amount. destruct x as [s| | |[] m e]; try done.
  - intros [= <- <-]. exists (js "0"), (zeros (Z.of_nat f)). unfold toFixed. destruct f as [|f]; [lia|]. cbn [Nat.eqb].
    split_and!; [done|done|apply zeros_digits|done|unfold zeros; rewrite repeat_length; lia|].
    assert (digits_val (js "0" ++ zeros (Z.of_nat (S f))) = 0) as ->; [|unfold nearest; lia].
    change (js "0") with (zeros 1). by rewrite digits_val_zeros, <- (app_nil_r (zeros _)), digits_val_zeros.
  - unfold toFixed. pose proof (fraction_pos m e) as [Hpa Hpb]. destruct (fraction m e) as [a' b']. cbn [fst snd] in *.
    destruct (10 ^ 21 * b' <=? a'); [done|]. intros [= -> ->].
    destruct f as [|f]; [lia|]. cbn [Nat.eqb sign_text app]. set (n := (2 * (a * 10 ^ Z.of_nat (S f)) + b) / (2 * b)).
    assert (Hn : 0 ≤ n). { apply Z.div_pos; [|lia]. pose proof (Z.pow_nonneg 10 (Z.of_nat (S f))). nia. }
    destruct (string_of_nonneg_spec n Hn) as (Hne & Hd & Hv). set (ds := string_of_nonneg n) in *.
    set (ds' := zeros (Z.of_nat (S f) + 1 - Z.of_nat (length ds)) ++ ds).
    assert (Hl : (S f < length ds')%nat). { subst ds'. unfold zeros. rewrite length_app, repeat_length. destruct ds; [done|]. cbn [length]. lia. }
    assert (Hd' : forallb is_digit ds' = true) by (subst ds'; by rewrite forallb_app, zeros_digits, Hd).
    exists (take (length ds' - S f) ds'), (drop (length ds' - S f) ds').
    rewrite <- (take_drop (length ds' - S f) ds') in Hd'. rewrite forallb_app in Hd'. apply andb_true_iff in Hd' as [Hd1 Hd2].
    split_and!; [done|done|done| | |].
    + intros H%(f_equal length). rewrite length_take in H. cbn [length] in H. lia.
    + rewrite length_drop. lia.
    + rewrite take_drop. subst ds'. rewrite digits_val_zeros, Hv. unfold nearest. subst n.
      pose proof (Z.div_mod (2 * (a * 10 ^ Z.of_nat (S f)) + b) (2 * b)). pose proof (Z.mod_pos_bound (2 * (a * 10 ^ Z.of_nat (S f)) + b) (2 * b)). lia.
Qed.

Lemma take_digits_app a r : forallb is_digit a = true → match r with c :: _ => is_digit c = false | [] => True end →
  take_digits (a ++ r) = (a, r).
Proof.
  intros Ha Hr. induction a as [|c a IH]; cbn [app].
  - destruct r as [|c r]; cbn [take_digits]; [done|]. by rewrite Hr.
  - cbn [forallb] in Ha. apply andb_true_iff in Ha as [Hc Ha]. cbn [take_digits]. by rewrite Hc, IH.
Qed.

Lemma digit_start c s : is_digit c = true → drop_while is_ws (c :: s) = c :: s ∧ take_sign (c :: s) = (false, c :: s) ∧
  starts_with (js "Infinity") (c :: s) = false.
Proof.
  intros H. split_and!.
  - cbn [drop_while]. by rewrite digit_not_ws.
  - unfold is_digit in H. apply andb_true_iff in H as [?%N.leb_le ?%N.leb_le].
    assert (c ∈ [48;49;50;51;52;53;54;55;56;57]%N) as Hc. { rewrite !elem_of_cons. lia. }
    repeat (apply elem_of_cons in Hc as [->|Hc]; [done|]). by apply elem_of_nil in Hc.
  - unfold is_digit in H. apply andb_true_iff in H as [?%N.leb_le ?%N.leb_le].
    assert (c ∈ [48;49;50;51;52;53;54;55;56;57]%N) as Hc. { rewrite !elem_of_cons. lia. }
    repeat (apply elem_of_cons in Hc as [->|Hc]; [done|]). by apply elem_of_nil in Hc.
Qed.

Lemma take_exponent_none rest : match rest with c :: _ => c ≠ 101%N ∧ c ≠ 69%N | [] => True end → take_exponent rest = (0, rest).
Proof.
  destruct rest as [|d rest]; [done|]. intros (H1 & H2). unfold take_exponent. destruct (N.eqb_spec d 101), (N.eqb_spec d 69); done.
Qed.

(** [parseFloat] of digits, a dot and digits *)
Lemma parseFloat_fixed ip fp rest : ip ≠ [] → forallb is_digit ip = true → forallb is_digit fp = true →
  match rest with c :: _ => is_digit c = false ∧ c ≠ 101%N ∧ c ≠ 69%N | [] => True end →
  parseFloat (ip ++ 46%N :: fp ++ rest) = num_of_dec false (digits_val (ip ++ fp)) (- Z.of_nat (length fp)).
Proof.
  intros Hne Hi Hf Hr. destruct ip as [|c ip]; [done|]. pose proof Hi as Hi'. cbn [forallb] in Hi'. apply andb_true_iff in Hi' as [Hc _].
  unfold parseFloat. change ((c :: ip) ++ 46%N :: fp ++ rest) with (c :: (ip ++ 46%N :: fp ++ rest)).
  destruct (digit_start c (ip ++ 46%N :: fp ++ rest) Hc) as (-> & -> & ->). unfold take_decimal.
  change (c :: (ip ++ 46%N :: fp ++ rest)) with ((c :: ip) ++ 46%N :: fp ++ rest).
  rewrite take_digits_app by done. rewrite take_digits_app; [|done|by destruct rest as [|? ?]; [|destruct Hr]].
  cbn [is_empty andb]. rewrite take_exponent_none by (destruct rest; tauto). done.
Qed.

(** [parseFloat] of a dot and digits *)
Lemma parseFloat_point fp rest : fp ≠ [] → forallb is_digit fp = true →
  match rest with c :: _ => is_digit c = false ∧ c ≠ 101%N ∧ c ≠ 69%N | [] => True end →
  parseFloat (46%N :: fp ++ rest) = num_of_dec false (digits_val fp) (- Z.of_nat (length fp)).
Proof.
  intros Hne Hf Hr. unfold parseFloat. change (drop_while is_ws (46%N :: fp ++ rest)) with (46%N :: fp ++ rest).
  change (take_sign (46%N :: fp ++ rest)) with (false, 46%N :: fp ++ rest).
  change (starts_with (js "Infinity") (46%N :: fp ++ rest)) with false. cbn iota. unfold take_decimal.
  change (take_digits (46%N :: fp ++ rest)) with (@nil N, 46%N :: fp ++ rest). cbn iota.
  rewrite take_digits_app; [|done|by destruct rest as [|? ?]; [|destruct Hr]].
  destruct fp as [|c fp]; [done|]. cbn [is_empty andb app]. rewrite take_exponent_none by (destruct rest; tauto). done.
Qed.
