(* ===== verification/Json.v ===== *)
(** * Values of the language and JSON

    [jval] is the part of the language's values that the sources exchange:
    primitives, arrays and plain objects.  An object is the list of its own
    properties in the order they were created; [own_entries] is the order
    [Object.keys], [Object.entries] and [JSON.stringify] enumerate them in
    (array indices first, ascending).  Property reads are own-property reads:
    the members of [Object.prototype] are not modelled. *)

From S2P Require Import Prelude JsString JsNumber.

Inductive jval :=
  | JUndef
  | JNull
  | JBool (b : bool)
  | JNum (x : num)
  | JStr (s : jsstr)
  | JArr (l : list jval)
  | JObj (o : list (jsstr * jval)).

(** Induction that reaches into arrays and objects. *)
Fixpoint jval_deep_ind (P : jval → Prop) (Hu : P JUndef) (Hn : P JNull) (Hb : ∀ b, P (JBool b))
    (Hx : ∀ x, P (JNum x)) (Hs : ∀ s, P (JStr s)) (Ha : ∀ l, Forall P l → P (JArr l))
    (Ho : ∀ o, Forall (λ kv, P kv.2) o → P (JObj o)) (v : jval) : P v :=
  match v with
  | JUndef => Hu
  | JNull => Hn
  | JBool b => Hb b
  | JNum x => Hx x
  | JStr s => Hs s
  | JArr l => Ha l ((fix go l := match l return Forall P l with
                     | [] => Forall_nil_2 _
                     | x :: l' => Forall_cons_2 _ _ _ (jval_deep_ind P Hu Hn Hb Hx Hs Ha Ho x) (go l')
                     end) l)
  | JObj o => Ho o ((fix go o := match o return Forall (λ kv, P kv.2) o with
                     | [] => Forall_nil_2 _
                     | kv :: o' => Forall_cons_2 _ _ _ (jval_deep_ind P Hu Hn Hb Hx Hs Ha Ho kv.2) (go o')
                     end) o)
  end.

(** ** Conversions *)

(** Whether a value counts as true in a condition. *)
Definition truthy (v : jval) : bool :=
  match v with
  | JUndef | JNull => false
  | JBool b => b
  | JNum x => num_truthy x
  | JStr s => negb (is_empty s)
  | JArr _ | JObj _ => true
  end.

(** [a || b] and [a ?? b] *)
Definition js_or (a b : jval) : jval := if truthy a then a else b.
Definition js_nullish (a b : jval) : jval := match a with JUndef | JNull => b | _ => a end.

Definition is_nullish (v : jval) : bool := match v with JUndef | JNull => true | _ => false end.
(** [typeof v === 'object'] holds of [null] too. *)
Definition typeof_object (v : jval) : bool := match v with JNull | JArr _ | JObj _ => true | _ => false end.
Definition is_array (v : jval) : bool := match v with JArr _ => true | _ => false end.
Definition is_string (v : jval) : bool := match v with JStr _ => true | _ => false end.
Definition is_number (v : jval) : bool := match v with JNum _ => true | _ => false end.

(** [String(v)] *)
Fixpoint String_of (v : jval) : jsstr :=
  match v with
  | JUndef => js "undefined"
  | JNull => js "null"
  | JBool b => if b then js "true" else js "false"
  | JNum x => String_of_num x
  | JStr s => s
  | JArr l => join (js ",") (map (λ x, if is_nullish x then [] else String_of x) l)
  | JObj _ => js "[object Object]"
  end.

(** [Number(v)] *)
Definition Number_of (v : jval) : num :=
  match v with
  | JUndef => nan
  | JNull => nzero
  | JBool b => if b then num_of_Z 1 else nzero
  | JNum x => x
  | JStr s => Number_of_string s
  | JArr _ => Number_of_string (String_of v)
  | JObj _ => nan
  end.

(** ** Objects *)

Fixpoint obj_get (o : list (jsstr * jval)) (k : jsstr) : jval :=
  match o with
  | [] => JUndef
  | (k', v) :: o' => if streq k' k then v else obj_get o' k
  end.
Fixpoint obj_has (o : list (jsstr * jval)) (k : jsstr) : bool :=
  match o with
  | [] => false
  | (k', _) :: o' => streq k' k || obj_has o' k
  end.
(** [o[k] = v]: an existing property keeps its place. *)
Fixpoint obj_set (o : list (jsstr * jval)) (k : jsstr) (v : jval) : list (jsstr * jval) :=
  match o with
  | [] => [(k, v)]
  | (k', v') :: o' => if streq k' k then (k, v) :: o' else (k', v') :: obj_set o' k v
  end.
(** [delete o[k]] *)
Definition obj_delete (o : list (jsstr * jval)) (k : jsstr) : list (jsstr * jval) :=
  List.filter (λ kv, negb (streq kv.1 k)) o.

(** Array indices: canonical decimal integers below [2^32 - 1]. *)
Definition array_index (k : jsstr) : option Z :=
  if forallb is_digit k && negb (is_empty k) && (streq k (js "0") || negb (starts_with (js "0") k))
     && (digits_val k <? 4294967295)%Z
  then Some (digits_val k) else None.
Fixpoint insert_entry (i : Z) (e : jsstr * jval) (l : list (Z * (jsstr * jval))) : list (Z * (jsstr * jval)) :=
  match l with
  | [] => [(i, e)]
  | (j, e') :: l' => if (i <=? j)%Z then (i, e) :: l else (j, e') :: insert_entry i e l'
  end.
Fixpoint index_entries (o : list (jsstr * jval)) : list (Z * (jsstr * jval)) :=
  match o with
  | [] => []
  | e :: o' => match array_index e.1 with
               | Some i => insert_entry i e (index_entries o')
               | None => index_entries o'
               end
  end.
(** [Object.entries(o)] *)
Definition own_entries (o : list (jsstr * jval)) : list (jsstr * jval) :=
  map snd (index_entries o) ++
  List.filter (λ e, match array_index e.1 with Some _ => false | None => true end) o.
Definition own_keys (o : list (jsstr * jval)) : list jsstr := map fst (own_entries o).

(** [v?.k] and the reads that cannot fail: anything but an object has no own
    property of the names the sources use. *)
Definition prop (v : jval) (k : jsstr) : jval := match v with JObj o => obj_get o k | _ => JUndef end.

(** ** JSON.stringify *)

Definition hex_digit (n : N) : N := if (n <? 10)%N then (48 + n)%N else (87 + n)%N.
Definition unicode_escape (c : N) : jsstr :=
  [92; 117; hex_digit (c / 4096); hex_digit (c / 256 mod 16); hex_digit (c / 16 mod 16); hex_digit (c mod 16)]%N.

Definition is_high (c : N) : bool := ((55296 <=? c) && (c <=? 56319))%N.
Definition is_low (c : N) : bool := ((56320 <=? c) && (c <=? 57343))%N.

Definition quote_unit (c : N) : jsstr :=
  if (c =? 8)%N then [92; 98]%N
  else if (c =? 9)%N then [92; 116]%N
  else if (c =? 10)%N then [92; 110]%N
  else if (c =? 12)%N then [92; 102]%N
  else if (c =? 13)%N then [92; 114]%N
  else if (c =? 34)%N then [92; 34]%N
  else if (c =? 92)%N then [92; 92]%N
  else if (c <? 32)%N || is_high c || is_low c then unicode_escape c
  else [c].

(** A surrogate pair is written as it is, a lone surrogate is escaped. *)
Fixpoint quote_body (s : jsstr) : jsstr :=
  match s with
  | [] => []
  | c :: r => match r with
              | d :: r' => if is_high c && is_low d then c :: d :: quote_body r'
                           else quote_unit c ++ quote_body r
              | [] => quote_unit c
              end
  end.
Definition quote (s : jsstr) : jsstr := 34%N :: quote_body s ++ [34%N].

(** Brackets around comma-separated items, on one line without a gap. *)
Definition wrap (gap ind : jsstr) (op cl : N) (items : list jsstr) : jsstr :=
  match items with
  | [] => [op; cl]
  | _ => if is_empty gap then op :: join (js ",") items ++ [cl]
         else op :: 10%N :: (ind ++ gap) ++ join (44%N :: 10%N :: ind ++ gap) items ++ 10%N :: ind ++ [cl]
  end.

(** [JSON.stringify(v, null, gap)]; [None] is [undefined]. *)
Fixpoint stringify_at (gap ind : jsstr) (v : jval) : option jsstr :=
  match v with
  | JUndef => None
  | JNull => Some (js "null")
  | JBool b => Some (if b then js "true" else js "false")
  | JNum x => Some (if isFinite x then String_of_num x else js "null")
  | JStr s => Some (quote s)
  | JArr l => Some (wrap gap ind 91 93 (map (λ x, default (js "null") (stringify_at gap (ind ++ gap) x)) l))
  | JObj o =>
    let item (e : jsstr * option jsstr) :=
      match e.2 with
      | None => None
      | Some t => Some (quote e.1 ++ js ":" ++ (if is_empty gap then [] else js " ") ++ t)
      end in
    (* the members, then the order of enumeration *)
    let texts := map (λ e, (e.1, stringify_at gap (ind ++ gap) e.2)) o in
    let ordered := map (λ e, (e.1, default None (snd <$> List.find (λ t, streq t.1 e.1) texts))) (own_entries o) in
    Some (wrap gap ind 123 125 (omap item ordered))
  end.
Definition stringify (v : jval) : option jsstr := stringify_at [] [] v.
(** [JSON.stringify(v, null, 2)] *)
Definition stringify2 (v : jval) : option jsstr := stringify_at (js "  ") [] v.

(** ** JSON.parse *)

Definition json_ws (c : N) : bool := ((c =? 32) || (c =? 9) || (c =? 10) || (c =? 13))%N.
Definition skip (s : jsstr) : jsstr := drop_while json_ws s.

Definition hex_val (c : N) : option N :=
  if is_digit c then Some (c - 48)%N
  else if ((97 <=? c) && (c <=? 102))%N then Some (c - 87)%N
  else if ((65 <=? c) && (c <=? 70))%N then Some (c - 55)%N
  else None.
Definition hex4 (a b c d : N) : option N :=
  match hex_val a, hex_val b, hex_val c, hex_val d with
  | Some a, Some b, Some c, Some d => Some (a * 4096 + b * 256 + c * 16 + d)%N
  | _, _, _, _ => None
  end.
Definition simple_escape (c : N) : option N :=
  if ((c =? 34) || (c =? 92) || (c =? 47))%N then Some c
  else if (c =? 98)%N then Some 8%N
  else if (c =? 102)%N then Some 12%N
  else if (c =? 110)%N then Some 10%N
  else if (c =? 114)%N then Some 13%N
  else if (c =? 116)%N then Some 9%N
  else None.

(** The characters of a string literal up to its closing quote. *)
Fixpoint parse_str (acc s : jsstr) : option (jsstr * jsstr) :=
  match s with
  | [] => None
  | c :: r =>
    if (c =? 34)%N then Some (rev acc, r)
    else if (c =? 92)%N then
      match r with
      | e :: r1 =>
        if (e =? 117)%N then
          match r1 with
          | h1 :: h2 :: h3 :: h4 :: r2 =>
            match hex4 h1 h2 h3 h4 with Some u => parse_str (u :: acc) r2 | None => None end
          | _ => None
          end
        else match simple_escape e with Some u => parse_str (u :: acc) r1 | None => None end
      | [] => None
      end
    else if (c <? 32)%N then None
    else parse_str (c :: acc) r
  end.

(** A number is read as the longest run of number characters; what follows a
    number in a valid text is never one of them. *)
Definition num_char (c : N) : bool :=
  (is_digit c || (c =? 43) || (c =? 45) || (c =? 46) || (c =? 101) || (c =? 69))%N.
Fixpoint span (p : N → bool) (s : jsstr) : jsstr * jsstr :=
  match s with
  | c :: s' => if p c then let '(a, b) := span p s' in (c :: a, b) else ([], s)
  | [] => ([], [])
  end.
Definition json_number (t : jsstr) : option num :=
  let '(neg, u) := match t with 45%N :: u => (true, u) | _ => (false, t) end in
  let '(ip, u1) := take_digits u in
  let int_ok := match ip with [] => false | 48%N :: _ :: _ => false | _ => true end in
  let frac := match u1 with
              | 46%N :: w => let '(f, r) := take_digits w in if is_empty f then None else Some (f, r)
              | _ => Some ([], u1)
              end in
  match frac with
  | None => None
  | Some (fp, u2) =>
    let '(e, u3) := take_exponent u2 in
    if int_ok && is_empty u3 then Some (num_of_dec neg (digits_val (ip ++ fp)) (e - Z.of_nat (length fp)))
    else None
  end.

Fixpoint parse_value (n : nat) (s : jsstr) {struct n} : option (jval * jsstr) :=
  match n with
  | O => None
  | S n' =>
    match skip s with
    | [] => None
    | c :: t =>
      if (c =? 123)%N then
        match skip t with
        | 125%N :: r => Some (JObj [], r)
        | _ => parse_members n' [] t
        end
      else if (c =? 91)%N then
        match skip t with
        | 93%N :: r => Some (JArr [], r)
        | _ => parse_elems n' [] t
        end
      else if (c =? 34)%N then
        match parse_str [] t with Some (str, r) => Some (JStr str, r) | None => None end
      else match strip_prefix (js "true") (c :: t) with Some r => Some (JBool true, r) | None =>
           match strip_prefix (js "false") (c :: t) with Some r => Some (JBool false, r) | None =>
           match strip_prefix (js "null") (c :: t) with Some r => Some (JNull, r) | None =>
           let '(d, r) := span num_char (c :: t) in
           match json_number d with Some x => Some (JNum x, r) | None => None end
           end end end
    end
  end
with parse_elems (n : nat) (acc : list jval) (s : jsstr) {struct n} : option (jval * jsstr) :=
  match n with
  | O => None
  | S n' =>
    match parse_value n' s with
    | None => None
    | Some (v, r) =>
      match skip r with
      | 44%N :: r' => parse_elems n' (v :: acc) r'
      | 93%N :: r' => Some (JArr (rev (v :: acc)), r')
      | _ => None
      end
    end
  end
with parse_members (n : nat) (acc : list (jsstr * jval)) (s : jsstr) {struct n} : option (jval * jsstr) :=
  match n with
  | O => None
  | S n' =>
    match skip s with
    | 34%N :: t =>
      match parse_str [] t with
      | None => None
      | Some (k, r) =>
        match skip r with
        | 58%N :: r1 =>
          match parse_value n' r1 with
          | None => None
          | Some (v, r2) =>
            match skip r2 with
            | 44%N :: r3 => parse_members n' (obj_set acc k v) r3
            | 125%N :: r3 => Some (JObj (obj_set acc k v), r3)
            | _ => None
            end
          end
        | _ => None
        end
      end
    | _ => None
    end
  end.

(** [JSON.parse(s)]; [None] is a thrown [SyntaxError].  Two units of fuel per
    code unit bound the depth of the calls. *)
Definition parse (s : jsstr) : option jval :=
  match parse_value (2 + 2 * length s) s with
  | Some (v, r) => if is_empty (skip r) then Some v else None
  | None => None
  end.

Example json_ex1 :
  parse (jsq " { 'a' : [1, -2.50, true,null] , 'bA\u0041\n': 'x', 'a':{} } ") =
  Some (JObj [(js "a", JObj []); (js "bAA" ++ [10%N], JStr (js "x"))]).
Proof. vm_compute. reflexivity. Qed.
Example json_ex2 : map parse [js "01"; js "1."; js "[1,]"; jsq "{'a':}"; js "nul"; jsq "'" ; js "-"; js ""] = repeat None 8.
Proof. vm_compute. reflexivity. Qed.
Example json_ex3 :
  stringify (JObj [(js "b", JUndef); (js "10", JNum (num_of_Z 3)); (js "2", JArr [JUndef; JStr (jsq "q'")]); (js "n", JNum nan)])
  = Some (jsq "{'2':[null,'q\''],'10':3,'n':null}").
Proof. vm_compute. reflexivity. Qed.
Example json_ex4 : stringify2 (JObj [(js "a", JArr [JBool true]); (js "e", JObj [])])
  = Some (js "{" ++ [10%N] ++ jsq "  'a': [" ++ [10%N] ++ js "    true" ++ [10%N] ++ js "  ]," ++ [10%N] ++ jsq "  'e': {}" ++ [10%N] ++ js "}").
Proof. vm_compute. reflexivity. Qed.

(** ** String literals read back *)

Lemma hex_val_digit n : (n < 16)%N → hex_val (hex_digit n) = Some n.
Proof.
  intros H. unfold hex_digit, hex_val, is_digit.
  destruct (N.ltb_spec n 10).
  - destruct (N.leb_spec 48 (48 + n)); [|lia]. destruct (N.leb_spec (48 + n) 57); [|lia]. simpl. f_equal. lia.
  - destruct (N.leb_spec (87 + n) 57); [lia|]. rewrite andb_false_r.
    destruct (N.leb_spec 97 (87 + n)); [|lia]. destruct (N.leb_spec (87 + n) 102); [|lia]. simpl. f_equal. lia.
Qed.

Lemma hex4_escape c : (c < 65536)%N →
  hex4 (hex_digit (c / 4096)) (hex_digit (c / 256 mod 16)) (hex_digit (c / 16 mod 16)) (hex_digit (c mod 16)) = Some c.
Proof.
  intros H. unfold hex4.
  rewrite !hex_val_digit by first [apply N.mod_lt; lia | apply N.Div0.div_lt_upper_bound; lia].
  f_equal. pose proof (N.div_mod c 16). pose proof (N.div_mod (c / 16) 16). pose proof (N.div_mod (c / 256) 16).
  rewrite N.Div0.div_div in *. change (16 * 16)%N with 256%N in *. change (256 * 16)%N with 4096%N in *. lia.
Qed.

(** One escaped or plain code unit is read back. *)
Lemma parse_str_unit c acc r :
  unit_ok c = true → parse_str acc (quote_unit c ++ r) = parse_str (c :: acc) r.
Proof.
  unfold unit_ok. intros Hc%N.ltb_lt. unfold quote_unit.
  repeat match goal with |- context [(?a =? ?b)%N] => is_var a; destruct (N.eqb_spec a b); [subst; reflexivity|] end.
  destruct ((c <? 32)%N || is_high c || is_low c) eqn:E.
  - unfold unicode_escape. cbn [app parse_str]. change (92 =? 34)%N with false. change (92 =? 92)%N with true.
    change (117 =? 117)%N with true. cbv iota. by rewrite hex4_escape.
  - apply orb_false_iff in E as [[E _]%orb_false_iff _]. cbn [app parse_str].
    destruct (N.eqb_spec c 34); [done|]. destruct (N.eqb_spec c 92); [done|]. by rewrite E.
Qed.

Lemma parse_str_plain c acc r :
  (32 ≤ c)%N → c ≠ 34%N → c ≠ 92%N → parse_str acc (c :: r) = parse_str (c :: acc) r.
Proof.
  intros H1 H2 H3. cbn [parse_str]. destruct (N.eqb_spec c 34); [done|].
  destruct (N.eqb_spec c 92); [done|]. destruct (N.ltb_spec c 32); [lia|done].
Qed.

Lemma surrogate_plain c : is_high c || is_low c = true → (32 ≤ c)%N ∧ c ≠ 34%N ∧ c ≠ 92%N.
Proof. unfold is_high, is_low. intros [H|H]%orb_true_iff; bool_hyps; lia. Qed.

Lemma quote_body_cons2 c d s :
  quote_body (c :: d :: s) = if is_high c && is_low d then c :: d :: quote_body s
                             else quote_unit c ++ quote_body (d :: s).
Proof. done. Qed.

Lemma parse_str_body s acc r :
  wf_str s → parse_str acc (quote_body s ++ 34%N :: r) = Some (rev acc ++ s, r).
Proof.
  remember (length s) as n eqn:Hn. revert s acc Hn.
  induction (lt_wf n) as [n _ IH]. intros s acc -> Hw.
  destruct s as [|c [|d s]]; [cbn; by rewrite app_nil_r|cbn [quote_body]|rewrite quote_body_cons2].
  - inversion_clear Hw. rewrite parse_str_unit by done. cbn [parse_str]. simpl. done.
  - inversion_clear Hw as [|? ? Hc Hw']. inversion_clear Hw' as [|? ? Hd Hw''].
    destruct (is_high c && is_low d) eqn:E.
    + apply andb_true_iff in E as [Eh El]. cbn [app].
      destruct (surrogate_plain c ltac:(by rewrite Eh)) as (?&?&?).
      destruct (surrogate_plain d ltac:(by rewrite El, orb_true_r)) as (?&?&?).
      rewrite !parse_str_plain by done.
      rewrite (IH (length s)); [|simpl; lia|done|done]. cbn [rev]. by rewrite <- !app_assoc.
    + rewrite <- app_assoc, parse_str_unit by done.
      rewrite (IH (length (d :: s))); [|simpl; lia|done|by constructor]. cbn [rev]. by rewrite <- app_assoc.
Qed.

Lemma parse_str_quote s r : wf_str s → parse_str [] (quote_body s ++ 34%N :: r) = Some (s, r).
Proof. apply parse_str_body. Qed.

(** ** Values that survive a round trip *)

(** A finite number whose text reads back as the number: [-0] does not. *)
Definition num_ok (x : num) : bool :=
  isFinite x && forallb num_char (String_of_num x) && negb (is_empty (String_of_num x))
  && bool_decide (json_number (String_of_num x) = Some x).

(** No [undefined] or [NaN] inside, code units in range, keys distinct and
    already in the order of enumeration. *)
Fixpoint json_ok (v : jval) : bool :=
  match v with
  | JUndef => false
  | JNull | JBool _ => true
  | JNum x => num_ok x
  | JStr s => forallb unit_ok s
  | JArr l => forallb json_ok l
  | JObj o => forallb (λ e, forallb unit_ok e.1) o && bool_decide (NoDup (map fst o))
              && bool_decide (own_keys o = map fst o) && forallb (λ e, json_ok e.2) o
  end.

Lemma insert_entry_perm i e l : map snd (insert_entry i e l) ≡ₚ e :: map snd l.
Proof.
  induction l as [|[j e'] l IH]; simpl; [done|]. case_match; simpl; [done|].
  rewrite IH. apply Permutation_swap.
Qed.

Lemma own_entries_perm o : own_entries o ≡ₚ o.
Proof.
  unfold own_entries. induction o as [|e o IH]; simpl; [done|].
  destruct (array_index e.1); simpl.
  - rewrite insert_entry_perm. simpl. by rewrite IH.
  - rewrite <- Permutation_middle. by rewrite IH.
Qed.

Lemma obj_get_set o k v k' : obj_get (obj_set o k v) k' = if streq k k' then v else obj_get o k'.
Proof.
  induction o as [|[k0 v0] o IH]; cbn [obj_set obj_get]; [done|].
  destruct (streq k0 k) eqn:E; cbn [obj_get].
  - apply streq_true in E as ->. by destruct (streq k k').
  - rewrite IH. destruct (streq k0 k') eqn:E1; [|done]. destruct (streq k k') eqn:E2; [|done].
    apply streq_true in E1, E2. subst. by rewrite streq_refl in E.
Qed.

Lemma obj_get_In o k v : NoDup (map fst o) → (k, v) ∈ o → obj_get o k = v.
Proof.
  induction o as [|[k' v'] o IH]; simpl; intros Hnd Hin; [by apply not_elem_of_nil in Hin|].
  apply NoDup_cons in Hnd as [Hk Hnd]. apply elem_of_cons in Hin as [Heq|Hin]; simplify_eq.
  - by rewrite streq_refl.
  - destruct (streq k' k) eqn:E; [|by apply IH]. apply streq_true in E. subst.
    destruct Hk. apply list_elem_of_fmap. by exists (k, v).
Qed.

(** Same properties, same order of keys: the same object. *)
Lemma entries_eq (o1 o2 : list (jsstr * jval)) :
  o1 ≡ₚ o2 → map fst o1 = map fst o2 → NoDup (map fst o2) → o1 = o2.
Proof.
  intros Hp Hk Hnd. apply list_eq. intros i.
  assert (Hlook : ∀ k v1 v2, o1 !! i = Some (k, v1) → o2 !! i = Some (k, v2) → v1 = v2).
  { intros k v1 v2 H1%list_elem_of_lookup_2 H2%list_elem_of_lookup_2. rewrite Hp in H1.
    rewrite <- (obj_get_In o2 k v1), <- (obj_get_In o2 k v2); done. }
  pose proof (f_equal (λ l, l !! i) Hk) as Hi. simpl in Hi. rewrite !list_lookup_fmap in Hi.
  destruct (o1 !! i) as [[k1 v1]|] eqn:E1, (o2 !! i) as [[k2 v2]|] eqn:E2; simplify_eq/=; [|done].
  by rewrite (Hlook k2 v1 v2).
Qed.

Lemma own_entries_fixed o :
  NoDup (map fst o) → own_keys o = map fst o → own_entries o = o.
Proof. intros H1 H2. apply entries_eq; [apply own_entries_perm|done|done]. Qed.

(** ** Fuel *)

Fixpoint need (v : jval) : nat :=
  match v with
  | JArr l => S (fold_right (λ x n, S (Nat.max (need x) n)) 0 l)
  | JObj o => S (fold_right (λ e n, S (Nat.max (need e.2) n)) 0 o)
  | _ => 1
  end.

(** What may follow a value: nothing that would prolong a number. *)
Definition delim (r : jsstr) : Prop := match r with [] => True | c :: _ => num_char c = false end.

(** A text [t] that reads as [v] in every context. *)
Definition reads (t : jsstr) (v : jval) : Prop :=
  (∃ c t', t = c :: t' ∧ json_ws c = false ∧ c ≠ 93%N ∧ c ≠ 125%N) ∧ need v ≤ 2 * length t ∧
  ∀ n r, need v ≤ n → delim r → parse_value n (t ++ r) = Some (v, r).

Lemma skip_ws w s : forallb json_ws w = true → skip (w ++ s) = skip s.
Proof. apply drop_while_app_all. Qed.

Lemma skip_id c s : json_ws c = false → skip (c :: s) = c :: s.
Proof. intros H. unfold skip. simpl. by rewrite H. Qed.

Lemma parse_value_ws n w s : forallb json_ws w = true → parse_value n (w ++ s) = parse_value n s.
Proof. intros H. destruct n; cbn [parse_value]; [done|]. by rewrite skip_ws. Qed.

Lemma span_run p a b :
  forallb p a = true → match b with [] => True | c :: _ => p c = false end → span p (a ++ b) = (a, b).
Proof.
  intros Ha Hb. induction a as [|c a IH]; cbn [app span].
  - destruct b as [|c b]; [done|]. cbn [span]. by rewrite Hb.
  - cbn [forallb] in Ha. bool_hyps. by rewrite H, IH.
Qed.

Lemma reads_string s : wf_str s → reads (quote s) (JStr s).
Proof.
  intros H. unfold quote. split; [by exists 34%N, (quote_body s ++ [34%N])|].
  split; [simpl; lia|]. intros [|n] r Hn Hr; [simpl in Hn; lia|].
  cbn [parse_value app]. rewrite skip_id by done. cbn. rewrite <- app_assoc. cbn [app].
  by rewrite parse_str_quote.
Qed.

Lemma num_char_facts c : num_char c = true →
  json_ws c = false ∧ c ≠ 93%N ∧ c ≠ 125%N ∧ c ≠ 123%N ∧ c ≠ 91%N ∧ c ≠ 34%N ∧
  c ≠ 116%N ∧ c ≠ 102%N ∧ c ≠ 110%N.
Proof.
  unfold num_char, json_ws, is_digit. intros H.
  repeat match goal with
  | H : _ || _ = true |- _ => apply orb_true_iff in H as [H|H]
  end; bool_hyps; subst; try done.
  repeat match goal with |- context [(?a =? ?b)%N] => destruct (N.eqb_spec a b); [lia|] end.
  simpl. lia.
Qed.

Lemma reads_number x : num_ok x = true → reads (String_of_num x) (JNum x).
Proof.
  unfold num_ok. intros H. bool_hyps. rename H2 into Hch, H0 into Hp, H1 into Hne.
  destruct (String_of_num x) as [|c t] eqn:E; [done|]. rewrite <- E in Hp.
  assert (Hc : num_char c = true) by (simpl in Hch; by bool_hyps).
  destruct (num_char_facts c Hc) as (H0 & H1 & H2 & H3 & H4 & H5 & H6 & H7 & H8).
  split; [by exists c, t|]. split; [simpl; lia|].
  intros [|n] r Hn Hr; [simpl in Hn; lia|]. cbn [parse_value].
  change ((c :: t) ++ r) with (c :: (t ++ r)). rewrite skip_id by done.
  destruct (N.eqb_spec c 123); [done|]. destruct (N.eqb_spec c 91); [done|].
  destruct (N.eqb_spec c 34); [done|].
  change (js "true") with [116; 114; 117; 101]%N. change (js "false") with [102; 97; 108; 115; 101]%N.
  change (js "null") with [110; 117; 108; 108]%N. cbn [strip_prefix].
  destruct (N.eqb_spec 116 c); [congruence|]. destruct (N.eqb_spec 102 c); [congruence|].
  destruct (N.eqb_spec 110 c); [congruence|].
  change (c :: (t ++ r)) with ((c :: t) ++ r). rewrite span_run by done.
  rewrite E in Hp. by rewrite Hp.
Qed.

Lemma reads_literal v t :
  (v = JNull ∧ t = js "null") ∨ (v = JBool true ∧ t = js "true") ∨ (v = JBool false ∧ t = js "false") →
  reads t v.
Proof.
  intros [[-> ->]|[[-> ->]|[-> ->]]]; (split; [by do 2 eexists|]); (split; [simpl; lia|]);
    intros [|n] r Hn Hr; simpl in *; (lia || done).
Qed.

Lemma reads_value t v n w r :
  reads t v → need v ≤ n → forallb json_ws w = true → delim r →
  parse_value n (w ++ t ++ r) = Some (v, r).
Proof. intros (_ & _ & H) Hn Hw Hr. rewrite parse_value_ws by done. by apply H. Qed.

Lemma ws_not_num c : json_ws c = true → num_char c = false.
Proof. intros H. destruct (num_char c) eqn:E; [|done]. apply num_char_facts in E as [E _]. congruence. Qed.

Lemma delim_ws w c r : forallb json_ws w = true → num_char c = false → delim (w ++ c :: r).
Proof. destruct w; simpl; [done|]. intros H _. bool_hyps. by apply ws_not_num. Qed.

Definition need_list (l : list jval) : nat := fold_right (λ x n, S (Nat.max (need x) n)) 0 l.

Lemma parse_elems_ok ts l acc n w0 w w' r :
  Forall2 reads ts l → l ≠ [] → need_list l ≤ n →
  forallb json_ws w0 = true → forallb json_ws w = true → forallb json_ws w' = true →
  parse_elems n acc (w0 ++ join (44%N :: w) ts ++ w' ++ 93%N :: r) = Some (JArr (rev acc ++ l), r).
Proof.
  intros HF. revert acc n w0. induction HF as [|t v ts l Hr HF IH]; intros acc n w0 Hne Hn H0 Hw Hw'; [done|].
  destruct n as [|n]; [simpl in Hn; lia|]. cbn [parse_elems].
  destruct HF as [|t2 v2 ts l Hr2 HF].
  - cbn [join]. rewrite (reads_value t v); [|done|simpl in Hn; lia|done|by apply delim_ws].
    by rewrite skip_ws, skip_id by done.
  - rewrite join_cons, <- !app_assoc. cbn [app].
    rewrite (reads_value t v); [|done|simpl in *; lia|done|done].
    rewrite skip_id by done.
    rewrite (IH (v :: acc) n w); [|done|simpl in *; lia|done|done|done].
    cbn [rev]. by rewrite <- app_assoc.
Qed.

(** The bytes of a list of texts joined: enough for the fuel. *)
Lemma need_list_length sep ts l :
  Forall2 reads ts l → sep ≠ [] → need_list l ≤ 1 + 2 * length (join sep ts).
Proof.
  intros HF Hs. induction HF as [|t v ts l (H1 & H2 & _) HF IH]; [simpl; lia|].
  assert (1 ≤ length t) by (destruct H1 as (c & t' & -> & _); simpl; lia).
  assert (1 ≤ length sep) by (destruct sep; simpl; [done|lia]).
  destruct HF; [simpl in *; lia|]. rewrite join_cons, !length_app. simpl need_list in *. lia.
Qed.

(** Bracketed items, whatever the layout: white space and commas around them. *)
Lemma wrap_shape gap ind op cl items :
  forallb json_ws gap = true → forallb json_ws ind = true → items ≠ [] →
  ∃ w0 w w', forallb json_ws w0 = true ∧ forallb json_ws w = true ∧ forallb json_ws w' = true ∧
    wrap gap ind op cl items = op :: w0 ++ join (44%N :: w) items ++ w' ++ [cl].
Proof.
  intros Hg Hi Hne. unfold wrap. destruct items as [|i0 items0] eqn:E; [done|]. rewrite <- E.
  destruct (is_empty gap) eqn:Eg.
  - by exists [], [], [].
  - assert (Hig : forallb json_ws (10%N :: ind ++ gap) = true)
      by (cbn [forallb]; rewrite forallb_app, Hi, Hg; done).
    exists (10%N :: ind ++ gap), (10%N :: ind ++ gap), (10%N :: ind).
    split; [done|]. split; [done|]. split; [done|]. cbn [app]. by rewrite <- !app_assoc.
Qed.

Lemma reads_array gap ind ts l :
  forallb json_ws gap = true → forallb json_ws ind = true →
  Forall2 reads ts l → reads (wrap gap ind 91 93 ts) (JArr l).
Proof.
  intros Hg Hi HF. destruct (decide (l = [])) as [->|Hne].
  { inversion HF; subst. split; [by do 2 eexists|]. split; [simpl; lia|].
    intros [|n] r Hn Hr; [simpl in Hn; lia|]. done. }
  assert (Hnt : ts ≠ []) by (intros ->; inversion HF; subst; done).
  assert (Hhead : ∀ sep, ∃ c t', join sep ts = c :: t' ∧ c ≠ 93%N ∧ json_ws c = false).
  { intros sep. destruct HF as [|t v ts' l' ((c & t' & -> & ? & ? & ?) & _) HF]; [done|].
    destruct HF; cbn [join app]; eauto. }
  destruct (wrap_shape gap ind 91 93 ts Hg Hi Hnt) as (w0 & w & w' & H0 & Hw & Hw' & ->).
  pose proof (need_list_length (44%N :: w) ts l HF ltac:(done)) as Hlen.
  split; [by do 2 eexists|]. change (need (JArr l)) with (S (need_list l)).
  split; [cbn [length]; rewrite !length_app; cbn [length]; lia|].
  intros [|n] r Hn Hr; [lia|]. cbn [app]. rewrite <- !app_assoc. cbn [app parse_value]. rewrite skip_id by done.
  change (91 =? 123)%N with false. change (91 =? 91)%N with true. cbv iota.
  rewrite skip_ws by done. destruct (Hhead (44%N :: w)) as (c & t' & Ht & Hc1 & Hc2).
  rewrite Ht at 1. cbn [app]. rewrite skip_id by done.
  pose proof (parse_elems_ok ts l [] n w0 w w' r HF Hne ltac:(lia) H0 Hw Hw') as He.
  destruct c as [|p]; [done|]. do 7 (destruct p as [p|p|]; try done).
Qed.

(** *** Objects *)

Definition member (t : jsstr) (e : jsstr * jval) : Prop :=
  ∃ sp tv, t = quote e.1 ++ 58%N :: sp ++ tv ∧ forallb json_ws sp = true ∧ wf_str e.1 ∧ reads tv e.2.

Lemma obj_set_fresh o k v : k ∉ map fst o → obj_set o k v = o ++ [(k, v)].
Proof.
  induction o as [|[k' v'] o IH]; intros H; [done|]. simpl in *.
  apply not_elem_of_cons in H as [Hne H]. destruct (streq k' k) eqn:E.
  - apply streq_true in E. congruence.
  - by rewrite IH.
Qed.

Definition need_members (o : list (jsstr * jval)) : nat := fold_right (λ e n, S (Nat.max (need e.2) n)) 0 o.

Lemma parse_members_ok ts o acc n w0 w w' r :
  Forall2 member ts o → o ≠ [] → NoDup (map fst (acc ++ o)) → need_members o ≤ n →
  forallb json_ws w0 = true → forallb json_ws w = true → forallb json_ws w' = true →
  parse_members n acc (w0 ++ join (44%N :: w) ts ++ w' ++ 125%N :: r) = Some (JObj (acc ++ o), r).
Proof.
  intros HF. revert acc n w0.
  induction HF as [|t [k v] ts o (sp & tv & -> & Hsp & Hk & Hr) HF IH]; intros acc n w0 Hne Hnd Hn H0 Hw Hw'; [done|].
  assert (Hset : obj_set acc k v = acc ++ [(k, v)]).
  { apply obj_set_fresh. rewrite fmap_app in Hnd. apply NoDup_app in Hnd as (_ & Hnd & _).
    intros Hin. apply (Hnd k Hin). by constructor. }
  destruct n as [|n]; [simpl in Hn; lia|]. cbn [parse_members]. rewrite skip_ws by done. cbn [fst snd] in *.
  assert (Hhead : ∀ x, join (44%N :: w) ((quote k ++ 58%N :: sp ++ tv) :: ts) ++ x =
    34%N :: quote_body k ++ 34%N :: 58%N :: sp ++ tv ++
      match ts with [] => x | _ => 44%N :: w ++ join (44%N :: w) ts ++ x end).
  { intros x. destruct ts; [cbn [join]|rewrite join_cons]; unfold quote; cbn [app]; rewrite <- !app_assoc;
      cbn [app]; rewrite <- !app_assoc; done. }
  rewrite Hhead, skip_id by done. rewrite parse_str_quote by done. rewrite skip_id by done.
  destruct HF as [|t2 e2 ts o Hr2 HF].
  - rewrite (reads_value tv v); [|done|simpl in Hn; lia|done|by apply delim_ws].
    rewrite skip_ws, skip_id by done. by rewrite Hset.
  - rewrite (reads_value tv v); [|done|simpl in *; lia|done|done].
    rewrite skip_id by done. rewrite Hset.
    rewrite (IH (acc ++ [(k, v)]) n w); [by rewrite <- app_assoc|done|by rewrite <- app_assoc|simpl in *; lia|done..].
Qed.

Lemma need_members_length sep ts o :
  Forall2 member ts o → sep ≠ [] → need_members o ≤ 1 + 2 * length (join sep ts).
Proof.
  intros HF Hs. induction HF as [|t [k v] ts o (sp & tv & -> & _ & _ & (_ & Hr & _)) HF IH]; [simpl; lia|].
  assert (1 ≤ length sep) by (destruct sep; simpl; [done|lia]). cbn [fst snd] in *.
  assert (need v + 3 ≤ 2 * length (quote k ++ 58%N :: sp ++ tv))
    by (unfold quote; rewrite length_app; cbn [length app]; rewrite !length_app; cbn [length]; lia).
  set (t := quote k ++ 58%N :: sp ++ tv) in *. clearbody t.
  destruct HF; [simpl in *; lia|]. rewrite join_cons, !length_app. simpl need_members in *. lia.
Qed.

Lemma reads_object gap ind ts o :
  forallb json_ws gap = true → forallb json_ws ind = true → NoDup (map fst o) →
  Forall2 member ts o → reads (wrap gap ind 123 125 ts) (JObj o).
Proof.
  intros Hg Hi Hnd HF. destruct (decide (o = [])) as [->|Hne].
  { inversion HF; subst. split; [by do 2 eexists|]. split; [simpl; lia|].
    intros [|n] r Hn Hr; [simpl in Hn; lia|]. done. }
  assert (Hnt : ts ≠ []) by (intros ->; inversion HF; subst; done).
  assert (Hhead : ∀ sep, ∃ t', join sep ts = 34%N :: t').
  { intros sep. destruct HF as [|t e ts' o' (sp & tv & -> & _) HF]; [done|].
    destruct HF; unfold quote; cbn [join app]; eauto. }
  destruct (wrap_shape gap ind 123 125 ts Hg Hi Hnt) as (w0 & w & w' & H0 & Hw & Hw' & ->).
  pose proof (need_members_length (44%N :: w) ts o HF ltac:(done)) as Hlen.
  split; [by do 2 eexists|]. change (need (JObj o)) with (S (need_members o)).
  split; [cbn [length]; rewrite !length_app; cbn [length]; lia|].
  intros [|n] r Hn Hr; [lia|]. cbn [app]. rewrite <- !app_assoc. cbn [app parse_value]. rewrite skip_id by done.
  change (123 =? 123)%N with true. cbv iota.
  rewrite skip_ws by done. destruct (Hhead (44%N :: w)) as (t' & Ht).
  rewrite Ht at 1. cbn [app]. rewrite skip_id by done.
  exact (parse_members_ok ts o [] n w0 w w' r HF Hne Hnd ltac:(lia) H0 Hw Hw').
Qed.

(** ** The round trip *)

Lemma find_own {B} (f : jval → B) (o : list (jsstr * jval)) e :
  NoDup (map fst o) → e ∈ o →
  List.find (λ t : jsstr * B, streq t.1 e.1) (map (λ e, (e.1, f e.2)) o) = Some (e.1, f e.2).
Proof.
  induction o as [|e' o IH]; intros Hnd Hin; [by apply not_elem_of_nil in Hin|].
  simpl in *. apply NoDup_cons in Hnd as [Hk Hnd].
  apply elem_of_cons in Hin as [->|Hin]; [by rewrite streq_refl|].
  destruct (streq e'.1 e.1) eqn:E; [|by apply IH].
  apply streq_true in E. destruct Hk. rewrite E. by apply list_elem_of_fmap_2.
Qed.

(** Text that [JSON.stringify] writes reads back, alone or inside a larger
    text, with any white-space indentation. *)
Lemma stringify_reads gap ind v :
  forallb json_ws gap = true → forallb json_ws ind = true → json_ok v = true →
  ∃ t, stringify_at gap ind v = Some t ∧ reads t v.
Proof.
  intros Hg. revert ind. induction v as [| |b|x|s|l IH|o IH] using jval_deep_ind; intros ind Hi Hok;
    cbn [json_ok] in Hok; cbn [stringify_at].
  - done.
  - eexists. split; [done|]. apply reads_literal. auto.
  - eexists. split; [done|]. apply reads_literal. destruct b; auto.
  - eexists. split; [done|]. assert (Hf : isFinite x = true) by (unfold num_ok in Hok; by bool_hyps).
    rewrite Hf. by apply reads_number.
  - eexists. split; [done|]. apply reads_string. by apply wf_str_forallb.
  - eexists. split; [done|]. apply reads_array; [done|done|].
    apply forallb_Forall in Hok. assert (Hig : forallb json_ws (ind ++ gap) = true) by (by rewrite forallb_app, Hi).
    induction IH as [|v l Hv IH IH2]; [constructor|]. inversion_clear Hok as [|? ? Hok1 Hok2]. constructor; [|auto].
    destruct (Hv (ind ++ gap) Hig Hok1) as (t & -> & Ht). done.
  - bool_hyps. rename H2 into Hkeys, H1 into Hown, H into Hwf, H0 into Hok.
    assert (Hnd : NoDup (map fst o)) by done.
    eexists. split; [done|]. rewrite own_entries_fixed by done.
    apply reads_object; [done|done|done|].
    assert (Hig : forallb json_ws (ind ++ gap) = true) by (by rewrite forallb_app, Hi).
    set (texts := map (λ e : jsstr * jval, (e.1, stringify_at gap (ind ++ gap) e.2)) o).
    assert (Hfind : ∀ e, e ∈ o → List.find (λ t, streq t.1 e.1) texts = Some (e.1, stringify_at gap (ind ++ gap) e.2))
      by (intros e He; by apply find_own).
    apply forallb_Forall in Hok, Hwf. clearbody texts.
    assert (Hgo : ∀ o', o' ⊆ o → Forall2 member
      (omap (λ e : jsstr * option jsstr, match e.2 with None => None | Some t => Some (quote e.1 ++ js ":" ++ (if is_empty gap then [] else js " ") ++ t) end)
         (map (λ e : jsstr * jval, (e.1, default None (snd <$> List.find (λ t, streq t.1 e.1) texts))) o')) o').
    { induction o' as [|e o' IHo]; intros Hsub; [constructor|].
      assert (He : e ∈ o) by (apply Hsub; by constructor). rewrite Forall_forall in IH, Hok, Hwf.
      csimpl. rewrite (Hfind e He). csimpl.
      destruct (IH e He (ind ++ gap) Hig (Hok e He)) as (t & -> & Ht).
      constructor; [|apply IHo; intros y Hy; apply Hsub; by constructor].
      exists (if is_empty gap then [] else js " "), t. split; [done|].
      split; [by destruct (is_empty gap)|]. split; [|done]. apply wf_str_forallb. by apply Hwf. }
    by apply Hgo.
Qed.

Lemma parse_reads t v : reads t v → parse t = Some v.
Proof.
  intros (_ & Hn & H). unfold parse. rewrite <- (app_nil_r t) at 2. rewrite H; [done|lia|done].
Qed.

(** [JSON.parse(JSON.stringify(v))] is [v], with or without indentation. *)
Lemma parse_stringify_at gap v :
  forallb json_ws gap = true → json_ok v = true →
  ∃ t, stringify_at gap [] v = Some t ∧ parse t = Some v.
Proof.
  intros Hg Hv. destruct (stringify_reads gap [] v Hg eq_refl Hv) as (t & Ht & Hr).
  exists t. split; [done|]. by apply parse_reads.
Qed.

Lemma parse_stringify v : json_ok v = true → ∃ t, stringify v = Some t ∧ parse t = Some v.
Proof. by apply parse_stringify_at. Qed.

Lemma parse_quote s : wf_str s → parse (quote s) = Some (JStr s).
Proof. intros H. by apply parse_reads, reads_string. Qed.
