(* ===== verification/JsObject.v ===== *)
(** * Property access, spreads and parsed objects

    The reads and copies of objects that several components share: property
    reads on any value, [Object.entries] and object spreads, and the fact that
    an object that comes out of [JSON.parse] has each key once. *)

From S2P Require Import Prelude JsString JsNumber Json.

(** ** Reads *)

(** [v[k]] on a value that is neither [null] nor [undefined]: arrays and
    strings have index keys and [length]. *)
Definition read (v : jval) (k : jsstr) : jval :=
  match v with
  | JObj o => obj_get o k
  | JArr l => if streq k (js "length") then JNum (num_of_Z (Z.of_nat (length l)))
              else match array_index k with
                   | Some i => default JUndef (l !! Z.to_nat i)
                   | None => JUndef
                   end
  | JStr s => if streq k (js "length") then JNum (num_of_Z (Z.of_nat (length s)))
              else match array_index k with
                   | Some i => match s !! Z.to_nat i with Some c => JStr [c] | None => JUndef end
                   | None => JUndef
                   end
  | _ => JUndef
  end.

(** [v.k]: [None] is the [TypeError] thrown on [null] and [undefined]. *)
Definition read_throw (v : jval) (k : jsstr) : option jval :=
  if is_nullish v then None else Some (read v k).

(** [Object.entries(v)] and [Object.keys(v)] of a value that is not nullish *)
Definition entries (v : jval) : list (jsstr * jval) :=
  match v with
  | JObj o => own_entries o
  | JArr l => imap (λ i x, (string_of_Z (Z.of_nat i), x)) l
  | JStr s => imap (λ i c, (string_of_Z (Z.of_nat i), JStr [c])) s
  | _ => []
  end.
Definition keys (v : jval) : list jsstr := map fst (entries v).

(** [{ ...o, ...v }] *)
Definition spread (o : list (jsstr * jval)) (v : jval) : list (jsstr * jval) :=
  fold_left (λ acc e, obj_set acc e.1 e.2) (entries v) o.

(** [a === b] for a primitive [b] *)
Definition is_true (v : jval) : bool := match v with JBool true => true | _ => false end.
Definition is_false (v : jval) : bool := match v with JBool false => true | _ => false end.

(** [a === b]; arrays and objects are compared here with others only. *)
Definition strict_eq (a b : jval) : bool :=
  match a, b with
  | JUndef, JUndef | JNull, JNull => true
  | JBool x, JBool y => Bool.eqb x y
  | JNum x, JNum y => neq x y
  | JStr x, JStr y => streq x y
  | _, _ => false
  end.

(** [compareObjects] of [web/src/helpers/utils.jsx]: the keys whose values differ *)
Definition compareObjects (oldObject newObject : list (jsstr * jval)) : list jsstr :=
  List.filter (λ k, obj_has newObject k && negb (strict_eq (obj_get oldObject k) (obj_get newObject k))) (own_keys oldObject).

(** The names every object inherits *)
Definition inherited : list jsstr :=
  [js "constructor"; js "__defineGetter__"; js "__defineSetter__"; js "hasOwnProperty"; js "__lookupGetter__"; js "__lookupSetter__";
   js "isPrototypeOf"; js "propertyIsEnumerable"; js "toString"; js "valueOf"; js "__proto__"; js "toLocaleString"].

Definition inherits (name : jsstr) : bool := existsb (streq name) inherited.
(** [o[k] = v]; an assignment to [__proto__] makes no property. *)
Definition assign (o : list (jsstr * jval)) (k : jsstr) (v : jval) : list (jsstr * jval) := if streq k (js "__proto__") then o else obj_set o k v.

(** ** Lookups *)

Lemma obj_has_In o k : obj_has o k = true ↔ k ∈ map fst o.
Proof.
  induction o as [|[k' v] o IH]; cbn [obj_has map fst]; [split; [done|by intros ?%elem_of_nil]|].
  rewrite orb_true_iff, streq_true, IH, elem_of_cons. naive_solver.
Qed.

Lemma obj_get_absent o k : k ∉ map fst o → obj_get o k = JUndef.
Proof.
  induction o as [|[k' v] o IH]; cbn [obj_get map fst]; [done|]. rewrite not_elem_of_cons. intros [Hne Hni].
  destruct (streq k' k) eqn:E; [apply streq_true in E; congruence|auto].
Qed.

Lemma own_keys_In o k : k ∈ own_keys o ↔ k ∈ map fst o.
Proof. unfold own_keys. by rewrite own_entries_perm. Qed.

(** Setting properties in a row: the last setting of a key counts. *)
Lemma fold_set_get (l : list (jsstr * jval)) o k : NoDup (map fst l) →
  obj_get (fold_left (λ acc e, obj_set acc e.1 e.2) l o) k = if obj_has l k then obj_get l k else obj_get o k.
Proof.
  revert o. induction l as [|[k' v] l IH]; intros o; cbn [fold_left map fst obj_has obj_get snd]; [done|].
  rewrite NoDup_cons. intros [Hni Hnd]. rewrite IH by done. rewrite obj_get_set.
  destruct (streq k' k) eqn:E; cbn [orb]; [|done]. apply streq_true in E as ->.
  destruct (obj_has l k) eqn:Eh; [|done]. by apply obj_has_In in Eh.
Qed.

Lemma obj_has_set o k v k' : obj_has (obj_set o k v) k' = streq k k' || obj_has o k'.
Proof.
  induction o as [|[k0 v0] o IH]; cbn [obj_set obj_has]; [by rewrite orb_false_r|]. destruct (streq k0 k) eqn:E; cbn [obj_has].
  - apply streq_true in E as ->. by destruct (streq k k').
  - rewrite IH. by destruct (streq k0 k'), (streq k k').
Qed.
Lemma fold_set_has (l : list (jsstr * jval)) o k :
  obj_has (fold_left (λ acc e, obj_set acc e.1 e.2) l o) k = obj_has l k || obj_has o k.
Proof.
  revert o. induction l as [|[k' v] l IH]; intros o; cbn [fold_left obj_has fst snd]; [done|]. rewrite IH, obj_has_set.
  by destruct (obj_has l k), (streq k' k).
Qed.
Lemma obj_absent o k : obj_has o k = false → obj_get o k = JUndef.
Proof. intros H. apply obj_get_absent. intros Hin%obj_has_In. congruence. Qed.

Lemma obj_set_keys_In o k v k' : k' ∈ map fst (obj_set o k v) ↔ k' = k ∨ k' ∈ map fst o.
Proof.
  rewrite <- !obj_has_In. pose proof (fold_set_has [(k, v)] o k') as H. cbn [fold_left fst snd obj_has] in H.
  rewrite H, orb_false_r, orb_true_iff, streq_true. naive_solver.
Qed.

Lemma obj_set_keys o k v : NoDup (map fst o) → NoDup (map fst (obj_set o k v)).
Proof.
  induction o as [|[k0 v0] o IH]; cbn [obj_set map fst]; [intros _; apply NoDup_singleton|].
  rewrite NoDup_cons. intros [Hni Hnd]. destruct (streq k0 k) eqn:E; cbn [map fst].
  - apply streq_true in E as ->. by apply NoDup_cons.
  - apply NoDup_cons. split; [|auto]. rewrite obj_set_keys_In. intros [->|Hin]; [by rewrite streq_refl in E|done].
Qed.

Lemma entries_NoDup o : NoDup (map fst o) → NoDup (map fst (own_entries o)).
Proof. by rewrite own_entries_perm. Qed.

Lemma own_entries_get o k : NoDup (map fst o) → obj_get (own_entries o) k = obj_get o k.
Proof.
  intros Hnd. destruct (obj_has o k) eqn:E.
  - apply obj_has_In in E. apply list_elem_of_fmap in E as ([k' v] & -> & Hin). cbn [fst].
    rewrite (obj_get_In o k' v) by done. apply obj_get_In; [by apply entries_NoDup|]. by rewrite own_entries_perm.
  - assert (Hni : k ∉ map fst o) by (intros H%obj_has_In; congruence).
    rewrite (obj_get_absent o) by done. apply obj_get_absent. by rewrite own_entries_perm.
Qed.

Lemma own_entries_has o k : obj_has (own_entries o) k = obj_has o k.
Proof. apply eq_true_iff_eq. by rewrite !obj_has_In, own_entries_perm. Qed.

(** A spread of an object overrides exactly the keys the object has. *)
Lemma spread_get o o' k : NoDup (map fst o') →
  obj_get (spread o (JObj o')) k = if obj_has o' k then obj_get o' k else obj_get o k.
Proof.
  intros Hnd. unfold spread. cbn [entries]. rewrite fold_set_get by by apply entries_NoDup.
  by rewrite own_entries_has, own_entries_get.
Qed.

Lemma spread_has o o' k : obj_has (spread o (JObj o')) k = obj_has o' k || obj_has o k.
Proof. unfold spread. cbn [entries]. by rewrite fold_set_has, own_entries_has. Qed.

Lemma copy_get o k : NoDup (map fst o) → obj_get (spread [] (JObj o)) k = obj_get o k.
Proof.
  intros H. rewrite spread_get by done. destruct (obj_has o k) eqn:E; [done|]. by rewrite (obj_absent o).
Qed.
Lemma spread_keys v o : NoDup (map fst o) → NoDup (map fst (spread o v)).
Proof. intros H. unfold spread. apply fold_left_inv; [done|]. intros acc e _. apply obj_set_keys. Qed.

(** ** Setting a property keeps a value fit for JSON *)

Lemma obj_set_same_keys o k v : k ∈ map fst o → map fst (obj_set o k v) = map fst o.
Proof.
  induction o as [|[k' v'] o IH]; cbn [map fst obj_set]; [by intros ?%elem_of_nil|].
  intros H. destruct (streq k' k) eqn:E; cbn [map fst]; [by apply streq_true in E as ->|]. rewrite IH; [done|].
  apply elem_of_cons in H as [->|H]; [by rewrite streq_refl in E|done].
Qed.

Lemma index_entries_keys (o1 o2 : list (jsstr * jval)) : map fst o1 = map fst o2 →
  map (prod_map (λ i : Z, i) fst) (index_entries o1) = map (prod_map (λ i : Z, i) fst) (index_entries o2).
Proof.
  assert (Hins : ∀ i (e1 e2 : jsstr * jval) l1 l2, e1.1 = e2.1 →
    map (prod_map (λ i : Z, i) fst) l1 = map (prod_map (λ i : Z, i) fst) l2 →
    map (prod_map (λ i : Z, i) fst) (insert_entry i e1 l1) = map (prod_map (λ i : Z, i) fst) (insert_entry i e2 l2)).
  { intros i e1 e2 l1. induction l1 as [|[j x] l1 IH]; intros [|[j' x'] l2] He Hl; simplify_eq/=; [by rewrite He|].
    case_match; simpl; rewrite ?H0, ?H1, ?He; [done|]. by rewrite (IH l2 He H0). }
  revert o2. induction o1 as [|e o1 IH]; intros [|e' o2] H; simplify_eq/=; [done|]. rewrite H in *.
  destruct (array_index e'.1); auto.
Qed.

Lemma own_keys_keys o1 o2 : map fst o1 = map fst o2 → own_keys o1 = own_keys o2.
Proof.
  intros H. unfold own_keys, own_entries. rewrite !map_app. f_equal.
  - pose proof (f_equal (map snd) (index_entries_keys o1 o2 H)) as E. rewrite !map_map in E. rewrite !map_map.
    etrans; [|etrans; [exact E|]]; apply map_ext; by intros [].
  - revert o2 H. induction o1 as [|e o1 IH]; intros [|e' o2] H; simplify_eq/=; [done|]. rewrite H in *.
    destruct (array_index e'.1); simpl; [auto|]. f_equal; auto.
Qed.

Lemma own_keys_snoc o k v : array_index k = None → own_keys (o ++ [(k, v)]) = own_keys o ++ [k].
Proof.
  intros Hk. unfold own_keys, own_entries. rewrite List.filter_app. cbn [List.filter fst]. rewrite Hk.
  assert (index_entries (o ++ [(k, v)]) = index_entries o) as ->.
  { induction o as [|e o IH]; cbn [app index_entries fst]; [by rewrite Hk|]. by rewrite IH. }
  by rewrite app_assoc, (map_app fst (_ ++ _)).
Qed.

Lemma own_keys_set o k v : array_index k = None → own_keys o = map fst o →
  own_keys (obj_set o k v) = map fst (obj_set o k v).
Proof.
  intros Hk Ho. destruct (decide (k ∈ map fst o)) as [H|H].
  - pose proof (obj_set_same_keys o k v H) as E. by rewrite (own_keys_keys _ _ E), E.
  - rewrite obj_set_fresh by done. by rewrite own_keys_snoc, map_app, Ho.
Qed.

Lemma forallb_obj_set (p : jsstr * jval → bool) o k v : forallb p o = true → p (k, v) = true →
  forallb p (obj_set o k v) = true.
Proof.
  intros Ho Hv. induction o as [|[k' v'] o IH]; cbn [obj_set forallb] in *; [by rewrite Hv|].
  apply andb_true_iff in Ho as [H1 H2]. destruct (streq k' k) eqn:E; cbn [forallb].
  - apply streq_true in E as ->. by rewrite Hv, H2.
  - by rewrite H1, IH.
Qed.

Lemma json_ok_set o k v : array_index k = None → forallb unit_ok k = true →
  json_ok (JObj o) = true → json_ok v = true → json_ok (JObj (obj_set o k v)) = true.
Proof.
  intros Hi Hu. cbn [json_ok]. rewrite !andb_true_iff, !bool_decide_eq_true. intros [[[H1 H2] H3] H4] Hv.
  split_and!; [by apply forallb_obj_set|by apply obj_set_keys|by apply own_keys_set|by apply forallb_obj_set].
Qed.

(** An object literal is fit for JSON if its keys and its values are. *)
Definition fields_ok (ks : list jsstr) : bool :=
  forallb (forallb unit_ok) ks && bool_decide (NoDup ks) && bool_decide (own_keys (map (λ k, (k, JNull)) ks) = ks).

Lemma json_ok_fields o : fields_ok (map fst o) = true → Forall (λ v, json_ok v = true) (map snd o) → json_ok (JObj o) = true.
Proof.
  unfold fields_ok. rewrite !andb_true_iff, !bool_decide_eq_true. intros [[H1 H2] H3] H4. cbn [json_ok].
  rewrite !andb_true_iff, !bool_decide_eq_true. split_and!; [|done| |].
  - clear -H1. induction o; cbn [map forallb] in *; [done|]. apply andb_true_iff in H1 as [-> H1]. by rewrite IHo.
  - etrans; [|exact H3]. apply own_keys_keys. rewrite map_map. cbn [fst]. symmetry. apply map_id.
  - clear -H4. induction o; cbn [map forallb] in *; [done|]. apply Forall_cons in H4 as [-> H4]. by rewrite IHo.
Qed.

(** ** Parsed values have each key once *)

Fixpoint unique_keys (v : jval) : bool :=
  match v with
  | JArr l => forallb unique_keys l
  | JObj o => bool_decide (NoDup (map fst o)) && forallb (λ e, unique_keys e.2) o
  | _ => true
  end.

Lemma unique_set o k v :
  unique_keys (JObj o) = true → unique_keys v = true → unique_keys (JObj (obj_set o k v)) = true.
Proof.
  cbn [unique_keys]. rewrite !andb_true_iff, !bool_decide_eq_true. intros [Hnd Ho] Hv.
  split; [by apply obj_set_keys|]. clear Hnd. induction o as [|[k0 v0] o IH]; cbn [obj_set forallb snd] in *; [by rewrite Hv|].
  apply andb_true_iff in Ho as [H0 Ho]. destruct (streq k0 k); cbn [forallb snd]; [by rewrite Hv, Ho|by rewrite H0, IH].
Qed.

(** Case analysis on the unit a match expects, in place of the binary one. *)
Ltac unit_case c k :=
  destruct (N.eqb_spec c k) as [->|?]; [|repeat case_match; try done; congruence].

Lemma closes_object {A} s (f : jsstr → A) d :
  match s with 125%N :: r => f r | _ => d end = match s with c :: r => if (c =? 125)%N then f r else d | [] => d end.
Proof. destruct s as [|c r]; [done|]. unit_case c 125%N. done. Qed.
Lemma closes_array {A} s (f : jsstr → A) d :
  match s with 93%N :: r => f r | _ => d end = match s with c :: r => if (c =? 93)%N then f r else d | [] => d end.
Proof. destruct s as [|c r]; [done|]. unit_case c 93%N. done. Qed.
Lemma after_element {A} s (f g : jsstr → A) d :
  match s with 44%N :: r => f r | 93%N :: r => g r | _ => d end =
  match s with c :: r => if (c =? 44)%N then f r else if (c =? 93)%N then g r else d | [] => d end.
Proof. destruct s as [|c r]; [done|]. unit_case c 44%N. done. Qed.
Lemma after_member {A} s (f g : jsstr → A) d :
  match s with 44%N :: r => f r | 125%N :: r => g r | _ => d end =
  match s with c :: r => if (c =? 44)%N then f r else if (c =? 125)%N then g r else d | [] => d end.
Proof. destruct s as [|c r]; [done|]. unit_case c 44%N. done. Qed.
Lemma after_key {A} s (f : jsstr → A) d :
  match s with 58%N :: r => f r | _ => d end = match s with c :: r => if (c =? 58)%N then f r else d | [] => d end.
Proof. destruct s as [|c r]; [done|]. unit_case c 58%N. done. Qed.
Lemma opens_key {A} s (f : jsstr → A) d :
  match s with 34%N :: r => f r | _ => d end = match s with c :: r => if (c =? 34)%N then f r else d | [] => d end.
Proof. destruct s as [|c r]; [done|]. unit_case c 34%N. done. Qed.
Lemma parse_unique_fuel n :
  (∀ s v r, parse_value n s = Some (v, r) → unique_keys v = true) ∧
  (∀ acc s v r, forallb unique_keys acc = true → parse_elems n acc s = Some (v, r) → unique_keys v = true) ∧
  (∀ acc s v r, unique_keys (JObj acc) = true → parse_members n acc s = Some (v, r) → unique_keys v = true).
Proof.
  induction n as [|n (IHv & IHe & IHm)]; [done|]. split; [|split].
  - intros s v r. cbn [parse_value]. destruct (skip s) as [|c t]; [done|]. rewrite closes_object, closes_array.
    repeat case_match; intros Hres; simplify_eq; try done; by (eapply IHm + eapply IHe; [|exact Hres]).
  - intros acc s v r Hacc. cbn [parse_elems]. destruct (parse_value n s) as [[x r0]|] eqn:E; [|done].
    apply IHv in E. rewrite after_element. repeat case_match; intros Hres; simplify_eq.
    { eapply IHe; [|exact Hres]. cbn. by rewrite E, Hacc. }
    cbn [unique_keys]. rewrite forallb_forall. intros y Hy%in_rev. revert y Hy. apply forallb_forall.
    cbn [forallb]. by rewrite E.
  - intros acc s v r Hacc. cbn [parse_members]. rewrite opens_key. destruct (skip s) as [|c t]; [done|].
    case_match; [|done]. destruct (parse_str [] t) as [[k r0]|]; [|done]. rewrite after_key.
    destruct (skip r0) as [|c1 r1]; [done|]. case_match; [|done].
    destruct (parse_value n r1) as [[x r2]|] eqn:E; [|done]. apply IHv in E. rewrite after_member.
    repeat case_match; intros Hres; simplify_eq; [eapply IHm; [|exact Hres]|]; by apply unique_set.
Qed.

Lemma parse_unique s v : parse s = Some v → unique_keys v = true.
Proof.
  unfold parse. destruct (parse_value _ s) as [[x r]|] eqn:E; [|done]. case_match; [|done]. intros [= <-].
  by apply (proj1 (parse_unique_fuel _)) in E.
Qed.

(** Keys of an array's entries are the numerals of its indices. *)
Lemma numeral_inj (i j : nat) : string_of_Z (Z.of_nat i) = string_of_Z (Z.of_nat j) → i = j.
Proof.
  unfold string_of_Z. rewrite !(proj2 (Z.ltb_ge _ _)) by lia. intros H.
  destruct (string_of_nonneg_spec (Z.of_nat i)) as (_ & _ & Hi); [lia|].
  destruct (string_of_nonneg_spec (Z.of_nat j)) as (_ & _ & Hj); [lia|]. rewrite H in Hi. lia.
Qed.

Lemma imap_numeral_NoDup {A} (f : A → jval) (l : list A) :
  NoDup (map fst (imap (λ i x, (string_of_Z (Z.of_nat i), f x)) l)).
Proof.
  apply NoDup_alt. intros i j k. change (map fst) with (fmap (M:=list) (@fst jsstr jval)).
  rewrite !list_lookup_fmap, !list_lookup_imap.
  destruct (l !! i), (l !! j); cbn; try done. intros [= <-] [= H]. by apply numeral_inj.
Qed.

Lemma unique_entries v : unique_keys v = true → NoDup (map fst (entries v)).
Proof.
  destruct v; cbn [entries]; try (intros _; apply NoDup_nil_2).
  - intros _. apply (imap_numeral_NoDup (λ c, JStr [c])).
  - intros _. apply (imap_numeral_NoDup (λ x, x)).
  - cbn [unique_keys]. rewrite andb_true_iff, bool_decide_eq_true. intros [H _]. by apply entries_NoDup.
Qed.

Lemma unique_entry v k x : unique_keys v = true → (k, x) ∈ entries v → unique_keys x = true.
Proof.
  destruct v as [| | | |s|l|o]; cbn [entries unique_keys]; try (by intros _ ?%elem_of_nil).
  - intros _ Hin. apply elem_of_lookup_imap_1 in Hin as (i & c & [= _ ->] & _). done.
  - intros Hl Hin. apply elem_of_lookup_imap_1 in Hin as (i & y & [= _ ->] & Hy).
    apply (proj1 (forallb_forall _ _) Hl). apply list_elem_of_In. by eapply list_elem_of_lookup_2.
  - rewrite andb_true_iff. intros [_ Ho]. rewrite own_entries_perm. intros Hin.
    apply (proj1 (forallb_forall _ _) Ho (k, x)). by apply list_elem_of_In.
Qed.

(** An object built key by key: each key gets the value computed for it. *)
Lemma fold_keys_get (F : jsstr → jval) (p : jsstr → bool) ks o k :
  obj_get (fold_left (λ acc x, if p x then acc else obj_set acc x (F x)) ks o) k =
  if bool_decide (k ∈ ks) && negb (p k) then F k else obj_get o k.
Proof.
  revert o. induction ks as [|x ks IH]; intros o; cbn [fold_left]; [done|]. rewrite IH.
  destruct (decide (k = x)) as [->|Hne].
  - rewrite (bool_decide_eq_true_2 (x ∈ x :: ks)) by apply elem_of_cons, or_introl, eq_refl. destruct (p x) eqn:Ep; cbn [negb andb].
    + by rewrite !andb_false_r.
    + rewrite obj_get_set, streq_refl. by destruct (bool_decide (x ∈ ks)).
  - rewrite (bool_decide_ext (k ∈ x :: ks) (k ∈ ks)) by (rewrite elem_of_cons; naive_solver). case_match; [done|].
    destruct (p x); [done|]. rewrite obj_get_set. by rewrite (proj2 (streq_false x k)) by done.
Qed.

Lemma inherits_proto k : inherits k = false → streq k (js "__proto__") = false.
Proof. intros H. apply not_true_iff_false. intros ->%streq_true. by vm_compute in H. Qed.
Lemma Forall_obj_set (P : jsstr * jval → Prop) o k v : Forall P o → P (k, v) → Forall P (obj_set o k v).
Proof.
  intros Ho Hv. induction Ho as [|[k' v'] o He Ho IH]; cbn [obj_set]; [by repeat constructor|]. destruct (streq k' k); by constructor.
Qed.
Lemma obj_get_elem o k : obj_has o k = true → (k, obj_get o k) ∈ o.
Proof.
  induction o as [|[k' v] o IH]; cbn [obj_has obj_get]; [done|]. destruct (streq k' k) eqn:E; [apply streq_true in E as ->; by left|].
  intros H. right. by apply IH.
Qed.

(** ** Free names *)

(** A loop that counts up to a name that is not taken.  It ends: with different names
    for different numbers, one of the first [length taken + 1] is free. *)
Fixpoint first_free (name : nat → jsstr) (fuel n : nat) (taken : list jsstr) : jsstr :=
  match fuel with
  | 0 => name n
  | S fuel' => if existsb (streq (name n)) taken then first_free name fuel' (S n) taken else name n
  end.

Lemma first_free_full name fuel n taken : first_free name fuel n taken ∈ taken → ∀ i, i ≤ fuel → name (n + i) ∈ taken.
Proof.
  revert n. induction fuel as [|fuel IH]; intros n H i Hi; cbn [first_free] in H; [by replace (n + i) with n by lia|].
  destruct (existsb (streq (name n)) taken) eqn:E; [|apply existsb_streq in H; congruence].
  destruct i as [|i]; [rewrite Nat.add_0_r; by apply existsb_streq|]. rewrite Nat.add_succ_r, <- Nat.add_succ_l. apply IH; [done|lia].
Qed.
Lemma first_free_fresh name fuel n taken : (∀ i j, name i = name j → i = j) → length taken ≤ fuel → first_free name fuel n taken ∉ taken.
Proof.
  intros Hinj Hf H. pose proof (first_free_full _ _ _ _ H) as Hall.
  assert (Hn : length (map (λ j, name (n + j)) (seq 0 (S fuel))) ≤ length taken).
  { apply submseteq_length, NoDup_submseteq.
    - apply NoDup_fmap_2; [intros a b E%Hinj; lia|apply NoDup_seq].
    - intros k (j & -> & Hj)%list_elem_of_fmap. apply elem_of_seq in Hj. apply Hall. lia. }
  rewrite length_map, length_seq in Hn. lia.
Qed.

(** ** The fuel of the parser is enough *)

Lemma skip_length s : length (skip s) ≤ length s.
Proof. unfold skip. destruct (drop_while_suffix json_ws s) as (a & Hs & _). rewrite Hs at 2. rewrite length_app. lia. Qed.

Lemma skip_cons s c t : skip s = c :: t → length t < length s.
Proof. pose proof (skip_length s) as H. intros E. rewrite E in H. cbn in H. lia. Qed.

Lemma parse_str_length s : ∀ acc str r, parse_str acc s = Some (str, r) → length r < length s.
Proof.
  induction s as [s IH] using (induction_ltof1 _ length). unfold ltof in IH. intros acc str r.
  destruct s as [|c s']; [done|]. cbn [parse_str]. 
  repeat case_match; intros Hr; simplify_eq; cbn; try lia;
    (eapply IH in Hr; cbn in *; lia).
Qed.

Lemma span_length p s a r : span p s = (a, r) → length s = length a + length r.
Proof.
  revert a r. induction s as [|c s IH]; intros a r; cbn [span]; [by intros [= <- <-]|].
  destruct (p c); [|by intros [= <- <-]]. destruct (span p s) as [a' b] eqn:E. intros [= <- <-].
  cbn. by rewrite (IH a' b).
Qed.

Lemma number_consumes s a r x : span num_char s = (a, r) → json_number a = Some x → length r < length s.
Proof.
  intros Hs%span_length Hx. destruct a as [|c a]; [by vm_compute in Hx|]. cbn in Hs. lia.
Qed.

Lemma literal_length p s r : p ≠ [] → strip_prefix p s = Some r → length r < length s.
Proof. intros Hp ->%strip_prefix_Some. rewrite length_app. destruct p; [done|]. cbn. lia. Qed.

(** What is read is not empty. *)
Lemma parse_consumes n :
  (∀ s v r, parse_value n s = Some (v, r) → length r < length s) ∧
  (∀ acc s v r, parse_elems n acc s = Some (v, r) → length r < length s) ∧
  (∀ acc s v r, parse_members n acc s = Some (v, r) → length r < length s).
Proof.
  induction n as [|n (IHv & IHe & IHm)]; [done|]. split; [|split].
  - intros s v r. cbn [parse_value]. pose proof (skip_length s) as Hs. destruct (skip s) as [|c t]; [done|].
    rewrite closes_object, closes_array. pose proof (skip_length t) as Ht. cbn [length] in Hs.
    destruct (span num_char (c :: t)) as [d r0] eqn:Ed. 
    repeat case_match; intros Hres; simplify_eq; cbn [length] in *;
      repeat match goal with
      | H : parse_str _ _ = Some _ |- _ => apply parse_str_length in H
      | H : strip_prefix _ _ = Some _ |- _ => apply literal_length in H; [cbn [length] in H|done]
      | H : json_number d = Some _ |- _ => apply (number_consumes _ _ _ _ Ed) in H; cbn [length] in H
      | H : parse_members _ _ _ = Some _ |- _ => apply IHm in H
      | H : parse_elems _ _ _ = Some _ |- _ => apply IHe in H
      end; lia.
  - intros acc s v r. cbn [parse_elems]. destruct (parse_value n s) as [[x r0]|] eqn:E; [|done].
    apply IHv in E. rewrite after_element. destruct (skip r0) as [|c t] eqn:Es; [done|]. apply skip_cons in Es.
    repeat case_match; intros Hres; simplify_eq; [apply IHe in Hres|]; lia.
  - intros acc s v r. cbn [parse_members]. rewrite opens_key. destruct (skip s) as [|c t] eqn:Es; [done|].
    apply skip_cons in Es. case_match; [|done]. destruct (parse_str [] t) as [[k r0]|] eqn:Ek; [|done].
    apply parse_str_length in Ek. rewrite after_key. destruct (skip r0) as [|c1 r1] eqn:E0; [done|].
    apply skip_cons in E0. case_match; [|done]. destruct (parse_value n r1) as [[x r2]|] eqn:E; [|done].
    apply IHv in E. rewrite after_member. destruct (skip r2) as [|c2 r3] eqn:E2; [done|]. apply skip_cons in E2.
    repeat case_match; intros Hres; simplify_eq; [apply IHm in Hres|]; lia.
Qed.

(** With two units of fuel per code unit and two more, more fuel changes
    nothing: [None] of the parser is a syntax error, never a lack of fuel. *)
Lemma fuel_enough n :
  (∀ m s, 2 + 2 * length s ≤ n → 2 + 2 * length s ≤ m → parse_value n s = parse_value m s) ∧
  (∀ m acc s, 3 + 2 * length s ≤ n → 3 + 2 * length s ≤ m → parse_elems n acc s = parse_elems m acc s) ∧
  (∀ m acc s, 3 + 2 * length s ≤ n → 3 + 2 * length s ≤ m → parse_members n acc s = parse_members m acc s).
Proof.
  induction n as [|n (IHv & IHe & IHm)]; [split; [|split]; intros; lia|].
  split; [|split]; intros [|m]; try (intros; lia).
  - intros s Hn Hm. cbn [parse_value]. destruct (skip s) as [|c t] eqn:Es; [done|]. apply skip_cons in Es.
    by rewrite (IHe m [] t), (IHm m [] t) by lia.
  - intros acc s Hn Hm. cbn [parse_elems]. rewrite (IHv m s) by lia.
    destruct (parse_value m s) as [[x r0]|] eqn:E; [|done]. apply (proj1 (parse_consumes m)) in E.
    rewrite !after_element. destruct (skip r0) as [|c t] eqn:Es; [done|]. apply skip_cons in Es.
    by rewrite (IHe m (x :: acc) t) by lia.
  - intros acc s Hn Hm. cbn [parse_members]. rewrite !opens_key. destruct (skip s) as [|c t] eqn:Es; [done|].
    apply skip_cons in Es. case_match; [|done]. destruct (parse_str [] t) as [[k r0]|] eqn:Ek; [|done].
    apply parse_str_length in Ek. rewrite !after_key. destruct (skip r0) as [|c1 r1] eqn:E0; [done|].
    apply skip_cons in E0. case_match; [|done]. rewrite (IHv m r1) by lia.
    destruct (parse_value m r1) as [[x r2]|] eqn:E; [|done]. apply (proj1 (parse_consumes m)) in E.
    rewrite !after_member. destruct (skip r2) as [|c2 r3] eqn:E2; [done|]. apply skip_cons in E2.
    by rewrite (IHm m (obj_set acc k x) r3) by lia.
Qed.

Lemma parse_fuel s n : 2 + 2 * length s ≤ n → parse_value n s = parse_value (2 + 2 * length s) s.
Proof. intros H. by apply (proj1 (fuel_enough n)). Qed.

(** ** Texts of values *)

Lemma parsed_nonempty s v : parse s = Some v → is_empty s = false.
Proof. destruct s; [by vm_compute|done]. Qed.

(** Setting fresh properties in a row appends them. *)
Lemma fold_set_fresh l : ∀ acc, NoDup (map fst (acc ++ l)) → fold_left (λ acc (e : jsstr * jval), obj_set acc e.1 e.2) l acc = acc ++ l.
Proof.
  induction l as [|[k v] l IH]; intros acc Hnd; cbn [fold_left fst snd]; [by rewrite app_nil_r|].
  rewrite obj_set_fresh.
  - rewrite IH; [by rewrite <- app_assoc|]. by rewrite <- app_assoc.
  - rewrite map_app in Hnd. cbn [map fst] in Hnd. apply NoDup_app in Hnd as (_ & Hd & _). intros Hin. apply (Hd _ Hin). by left.
Qed.

(** The text of an object begins and ends with its braces. *)
Lemma object_text_edges gap o t : stringify_at gap [] (JObj o) = Some t → t ≠ [] ∧ trimmed t.
Proof.
  cbn [stringify_at]. intros [= <-]. unfold wrap.
  assert (Hl : ∀ x, trimmed (123%N :: x ++ [125%N])).
  { intros x. split; [done|]. exists 125%N. split; [|done]. rewrite app_comm_cons. apply last_snoc. }
  destruct (omap _ _) as [|x l]; [split; [done|]; apply (Hl [])|]. destruct (is_empty gap); (split; [done|]).
  - apply Hl.
  - cbn [app]. replace (10%N :: gap ++ _ ++ [10%N; 125%N]) with ((10%N :: gap ++ join (44%N :: 10%N :: gap) (x :: l) ++ [10%N]) ++ [125%N]); [apply Hl|].
    cbn [app]. by rewrite <- !app_assoc.
Qed.

(** ** Deletions *)

Lemma filter_map_NoDup {A B} (g : A → B) (p : A → bool) l : NoDup (map g l) → NoDup (map g (List.filter p l)).
Proof.
  intros H. eapply sublist_NoDup; [exact H|]. clear H. induction l as [|x l IH]; cbn [List.filter map]; [constructor|].
  by destruct (p x); constructor.
Qed.

Lemma obj_get_delete o k k' : obj_get (obj_delete o k) k' = if streq k k' then JUndef else obj_get o k'.
Proof.
  unfold obj_delete. induction o as [|[k0 v] o IH]; cbn [List.filter obj_get fst]; [by destruct (streq k k')|].
  destruct (streq k0 k) eqn:E; cbn [negb obj_get].
  - apply streq_true in E as ->. rewrite IH. by destruct (streq k k').
  - rewrite IH. destruct (streq k k') eqn:E'; [|done]. apply streq_true in E' as <-. by rewrite E.
Qed.

Lemma obj_has_delete o k k' : obj_has (obj_delete o k) k' = negb (streq k k') && obj_has o k'.
Proof.
  unfold obj_delete. induction o as [|[k0 v] o IH]; cbn [List.filter obj_has fst]; [by rewrite andb_false_r|].
  destruct (streq k0 k) eqn:E; cbn [negb obj_has].
  - apply streq_true in E as ->. rewrite IH. by destruct (streq k k').
  - rewrite IH. destruct (streq k k') eqn:E'; [|done]. apply streq_true in E' as <-. by rewrite E.
Qed.

Lemma obj_delete_keys o k : NoDup (map fst o) → NoDup (map fst (obj_delete o k)).
Proof.
  apply filter_map_NoDup.
Qed.

(** Decides comparisons of names written in the source. *)
Ltac names := repeat match goal with
  | |- context [streq (js ?a) (js ?b)] =>
    let r := eval vm_compute in (streq (js a) (js b)) in
    replace (streq (js a) (js b)) with r by (vm_compute; reflexivity)
  end; rewrite ?andb_true_r, ?andb_false_r.
