(* ===== verification/JsOrder.v ===== *)
(** * The order of enumeration

    [Object.keys] lists keys that are array indices first, in ascending order, and
    the others in the order of their insertion; [JSON.stringify] follows it.  A
    text therefore reads back as the value with every object in that order. *)

From S2P Require Import Prelude JsString JsNumber Json JsObject.

(** ** Enumeration is stable *)

Definition indexed (x : Z * (jsstr * jval)) : Prop := array_index x.2.1 = Some x.1.

Lemma insert_first i e L : Forall (λ x : Z * (jsstr * jval), (i ≤ x.1)%Z) L → insert_entry i e L = (i, e) :: L.
Proof. destruct L as [|[j x] L]; [done|]. intros [H _]%Forall_cons. cbn [insert_entry fst] in *. by rewrite (proj2 (Z.leb_le i j) H). Qed.

Lemma insert_bound n i e L : (n ≤ i)%Z → Forall (λ x : Z * (jsstr * jval), (n ≤ x.1)%Z) L → Forall (λ x, (n ≤ x.1)%Z) (insert_entry i e L).
Proof. intros Hi. induction 1 as [|[j x] L Hj HL IH]; cbn [insert_entry]; [by repeat constructor|]. case_match; by repeat constructor. Qed.

Inductive ascending : list (Z * (jsstr * jval)) → Prop :=
| asc_nil : ascending []
| asc_cons i e L : Forall (λ x : Z * (jsstr * jval), (i ≤ x.1)%Z) L → ascending L → ascending ((i, e) :: L).

Lemma insert_ascending i e L : ascending L → ascending (insert_entry i e L).
Proof.
  induction 1 as [|j x L Hj HL IH]; cbn [insert_entry]; [by repeat constructor|]. destruct (Z.leb_spec i j) as [Hle|Hgt].
  - constructor; [|by constructor]. constructor; [done|]. eapply Forall_impl; [exact Hj|]. cbn. intros. lia.
  - constructor; [|done]. apply insert_bound; [lia|done].
Qed.
Lemma index_ascending o : ascending (index_entries o) ∧ Forall indexed (index_entries o).
Proof.
  induction o as [|e o [IH1 IH2]]; cbn [index_entries]; [by repeat constructor|]. destruct (array_index e.1) as [i|] eqn:E; [|done].
  split; [by apply insert_ascending|]. clear IH1. induction IH2 as [|[j x] L Hx HL IH]; cbn [insert_entry]; [by repeat constructor|].
  case_match; by repeat constructor.
Qed.

Lemma index_again L rest : ascending L → Forall indexed L → Forall (λ e, array_index e.1 = None) rest →
  index_entries (map snd L ++ rest) = L.
Proof.
  induction 1 as [|i e L Hi HL IH]; intros Hx Hr; cbn [map app snd index_entries].
  - induction Hr as [|e l He Hl IH]; cbn [index_entries]; [done|]. by rewrite He.
  - apply Forall_cons in Hx as [He Hx]. unfold indexed in He. cbn [fst snd] in He. rewrite He, IH by done. by apply insert_first.
Qed.

Lemma own_entries_idemp o : own_entries (own_entries o) = own_entries o.
Proof.
  destruct (index_ascending o) as [Ha Hi].
  set (f := λ e : jsstr * jval, match array_index e.1 with Some _ => false | None => true end).
  assert (Hr : Forall (λ e, array_index e.1 = None) (List.filter f o)).
  { apply Forall_forall. intros e [_ H]%list_elem_of_In%filter_In. unfold f in H. by destruct (array_index e.1). }
  change (own_entries o) with (map snd (index_entries o) ++ List.filter f o). unfold own_entries. fold f. rewrite index_again by done. f_equal.
  rewrite List.filter_app. replace (List.filter f (map snd (index_entries o))) with (@nil (jsstr * jval)).
  - cbn [app]. clear -Hr. induction Hr as [|e l He Hl IH]; cbn [List.filter]; [done|]. unfold f at 1. by rewrite He, IH.
  - clear -Hi. induction Hi as [|x L Hx HL IH]; cbn [map List.filter]; [done|]. unfold indexed in Hx. unfold f at 1. by rewrite Hx.
Qed.

Lemma find_perm {B} (f : jval → B) o o' k : NoDup (map fst o) → o ≡ₚ o' →
  List.find (λ t, streq t.1 k) (map (λ e, (e.1, f e.2)) o) = List.find (λ t, streq t.1 k) (map (λ e, (e.1, f e.2)) o').
Proof.
  intros Hnd Hp. revert Hnd. induction Hp as [|[k1 v1] l l' _ IH|[k1 v1] [k2 v2] l|l l' l'' H1 IH1 _ IH2]; intros Hnd; cbn [map fst snd List.find] in *.
  - done.
  - apply NoDup_cons in Hnd as [_ Hnd]. case_match; auto.
  - apply NoDup_cons in Hnd as [Hni _]. destruct (streq k1 k) eqn:E1, (streq k2 k) eqn:E2; try done.
    apply streq_true in E1, E2. subst. destruct Hni. by left.
  - rewrite IH1 by done. apply IH2. by rewrite <- H1.
Qed.

(** The text of an object is that of its enumeration. *)
Lemma stringify_own gap ind o : NoDup (map fst o) → stringify_at gap ind (JObj (own_entries o)) = stringify_at gap ind (JObj o).
Proof.
  intros Hnd. cbn [stringify_at]. rewrite own_entries_idemp. do 3 f_equal. apply map_ext. intros e. do 2 f_equal.
  f_equal. apply find_perm; [by rewrite own_entries_perm|apply own_entries_perm].
Qed.

(** ** Texts of any value *)

Fixpoint ordered (v : jval) : jval :=
  match v with
  | JArr l => JArr (map ordered l)
  | JObj o => JObj (own_entries (map (λ e, (e.1, ordered e.2)) o))
  | _ => v
  end.

(** Values with a text of their own: no [undefined], finite numbers, keys once *)
Fixpoint json_fit (v : jval) : bool :=
  match v with
  | JUndef => false
  | JNull | JBool _ => true
  | JNum x => num_ok x
  | JStr s => forallb unit_ok s
  | JArr l => forallb json_fit l
  | JObj o => forallb (λ e, forallb unit_ok e.1) o && bool_decide (NoDup (map fst o)) && forallb (λ e, json_fit e.2) o
  end.

Lemma ordered_keys (o : list (jsstr * jval)) (f : jval → jval) : map fst (map (λ e, (e.1, f e.2)) o) = map fst o.
Proof. rewrite map_map. by apply map_ext. Qed.

Lemma stringify_ordered gap ind v : json_fit v = true → stringify_at gap ind (ordered v) = stringify_at gap ind v.
Proof.
  revert ind. induction v as [| |b|x|s|l IH|o IH] using jval_deep_ind; intros ind Hf; cbn [ordered json_fit] in *; try done.
  - cbn [stringify_at]. do 2 f_equal. rewrite map_map. apply forallb_Forall in Hf. apply map_ext_in. intros x Hx%list_elem_of_In.
    rewrite Forall_forall in IH, Hf. by rewrite IH by (try apply Hf; done).
  - bool_hyps. set (o' := map _ o). assert (Ek : map fst o' = map fst o) by apply ordered_keys.
    rewrite stringify_own by by rewrite Ek. cbn [stringify_at].
    assert (Et : map (λ e, (e.1, stringify_at gap (ind ++ gap) e.2)) o' = map (λ e, (e.1, stringify_at gap (ind ++ gap) e.2)) o).
    { unfold o'. rewrite map_map. apply map_ext_in. intros e He. cbn [fst snd]. f_equal. rewrite Forall_forall in IH.
      apply IH; [by apply list_elem_of_In|]. rewrite forallb_forall in H0. by apply H0. }
    rewrite Et. do 3 f_equal.
    set (F := λ k : jsstr, default None (snd <$> List.find (λ t, streq t.1 k) (map (λ e, (e.1, stringify_at gap (ind ++ gap) e.2)) o))).
    assert (Em : ∀ l : list (jsstr * jval), map (λ e, (e.1, F e.1)) l = map (λ k, (k, F k)) (map fst l)) by (intros; by rewrite map_map).
    etrans; [apply (Em (own_entries o'))|]. etrans; [|symmetry; apply (Em (own_entries o))]. f_equal. by apply own_keys_keys.
Qed.

Lemma fit_ordered v : json_fit v = true → json_ok (ordered v) = true.
Proof.
  induction v as [| |b|x|s|l IH|o IH] using jval_deep_ind; intros Hf; cbn [ordered json_fit json_ok] in *; try done.
  - rewrite forallb_forall in *. intros y (x & <- & Hx)%in_map_iff. rewrite Forall_forall in IH. apply IH; [by apply list_elem_of_In|by apply Hf].
  - bool_hyps. set (o' := map _ o). assert (Ek : map fst o' = map fst o) by apply ordered_keys.
    assert (Hp : ∀ e, List.In e (own_entries o') → ∃ e0, List.In e0 o ∧ e = (e0.1, ordered e0.2)).
    { intros e He. apply (Permutation_in _ (own_entries_perm o')) in He. unfold o' in He. apply in_map_iff in He as (e0 & <- & H'). by exists e0. }
    rewrite !andb_true_iff, !bool_decide_eq_true. rewrite forallb_forall in *. rewrite Forall_forall in IH. split_and!.
    + intros e (e0 & He & ->)%Hp. cbn [fst]. apply (H _ He).
    + apply entries_NoDup. by rewrite Ek.
    + unfold own_keys. by rewrite own_entries_idemp.
    + rewrite forallb_forall. intros e (e0 & He & ->)%Hp. cbn [snd]. apply IH; [by apply list_elem_of_In|by apply H0].
Qed.

(** The text of a value reads back as the value in the order of enumeration. *)
Lemma parse_stringify_ordered gap v : forallb json_ws gap = true → json_fit v = true →
  ∃ t, stringify_at gap [] v = Some t ∧ parse t = Some (ordered v).
Proof. intros Hg Hf. rewrite <- (stringify_ordered gap [] v Hf). apply parse_stringify_at; [done|by apply fit_ordered]. Qed.

Lemma map_id_in {A} (f : A → A) l : (∀ x, List.In x l → f x = x) → map f l = l.
Proof. intros H. rewrite <- (map_id l) at 2. by apply map_ext_in. Qed.

(** A value that is already in the order of enumeration stays as it is. *)
Lemma ordered_ok v : json_ok v = true → ordered v = v ∧ json_fit v = true.
Proof.
  induction v as [| |b|x|s|l IH|o IH] using jval_deep_ind; intros Hf; cbn [ordered json_fit json_ok] in *; try done.
  - rewrite forallb_forall in Hf. rewrite Forall_forall in IH. split.
    + f_equal. apply map_id_in. intros x Hx. apply IH; [by apply list_elem_of_In|by apply Hf].
    + rewrite forallb_forall. intros x Hx. apply IH; [by apply list_elem_of_In|by apply Hf].
  - bool_hyps. rewrite forallb_forall in H0. rewrite Forall_forall in IH.
    assert (Hv : ∀ e, List.In e o → ordered e.2 = e.2 ∧ json_fit e.2 = true) by (intros e He; apply IH; [by apply list_elem_of_In|by apply H0]).
    split.
    + f_equal. rewrite map_id_in; [by apply own_entries_fixed|]. intros [k v] He. cbn [fst snd]. f_equal. apply (Hv _ He).
    + rewrite !andb_true_iff, bool_decide_eq_true. split_and!; [done|done|]. rewrite forallb_forall. intros e He. by apply Hv.
Qed.

(** ** Members without a text *)

Definition defined (e : jsstr * jval) : bool := match e.2 with JUndef => false | _ => true end.

Lemma insert_filter q i e L : ascending L → List.filter q (insert_entry i e L) = if q (i, e) then insert_entry i e (List.filter q L) else List.filter q L.
Proof.
  induction 1 as [|j x L Hj HL IH]; cbn [insert_entry List.filter]; [by destruct (q (i, e))|]. destruct (Z.leb_spec i j) as [Hle|Hgt].
  - cbn [List.filter]. destruct (q (i, e)) eqn:E; [|done]. symmetry. apply insert_first. destruct (q (j, x)).
    + constructor; [done|]. apply Forall_forall. intros y [Hy _]%list_elem_of_In%filter_In. rewrite Forall_forall in Hj. apply list_elem_of_In in Hy. specialize (Hj _ Hy). cbn in *. lia.
    + apply Forall_forall. intros y [Hy _]%list_elem_of_In%filter_In. rewrite Forall_forall in Hj. apply list_elem_of_In in Hy. specialize (Hj _ Hy). cbn in *. lia.
  - cbn [List.filter]. rewrite IH. destruct (q (j, x)), (q (i, e)); try done. cbn [insert_entry]. by rewrite (proj2 (Z.leb_gt i j)).
Qed.

Lemma own_entries_filter (p : jsstr * jval → bool) o : own_entries (List.filter p o) = List.filter p (own_entries o).
Proof.
  unfold own_entries. rewrite List.filter_app. f_equal.
  - assert (H : index_entries (List.filter p o) = List.filter (λ x, p x.2) (index_entries o)).
    { induction o as [|e o IH]; [done|]. cbn [index_entries List.filter]. destruct (array_index e.1) as [i|] eqn:E.
      - rewrite insert_filter by apply index_ascending. cbn [snd]. destruct (p e); cbn [index_entries]; [by rewrite E, IH|done].
      - destruct (p e); cbn [index_entries]; [by rewrite E|done]. }
    rewrite H. clear H. induction (index_entries o) as [|x L IH]; [done|]. cbn [List.filter map]. destruct (p x.2); cbn [map]; by rewrite IH.
  - induction o as [|e o IH]; [done|]. cbn [List.filter]. destruct (p e) eqn:Ep, (match array_index e.1 with Some _ => false | None => true end) eqn:Ea;
      cbn [List.filter]; rewrite ?Ea, ?Ep; by rewrite ?IH.
Qed.

(** [JSON.stringify] leaves out members that are [undefined]. *)
Lemma stringify_defined gap ind o : NoDup (map fst o) → stringify_at gap ind (JObj (List.filter defined o)) = stringify_at gap ind (JObj o).
Proof.
  intros Hnd. cbn [stringify_at]. do 2 f_equal. rewrite own_entries_filter.
  set (texts := map (λ e, (e.1, stringify_at gap (ind ++ gap) e.2)) o).
  assert (Hf : ∀ k v, (k, v) ∈ o → List.find (λ t, streq t.1 k) texts = Some (k, stringify_at gap (ind ++ gap) v)).
  { intros k v. unfold texts. clear -Hnd. induction o as [|[k' v'] o IH]; [by intros ?%elem_of_nil|]. cbn [map fst snd List.find]. cbn [map fst] in Hnd.
    apply NoDup_cons in Hnd as [Hni Hnd]. intros [[= -> ->]|Hin]%elem_of_cons; [by rewrite streq_refl|]. destruct (streq k' k) eqn:E; [|by apply IH].
    apply streq_true in E as ->. destruct Hni. apply list_elem_of_fmap. by exists (k, v). }
  assert (Hd : ∀ k v, (k, v) ∈ o → defined (k, v) = true →
    List.find (λ t, streq t.1 k) (map (λ e, (e.1, stringify_at gap (ind ++ gap) e.2)) (List.filter defined o)) = Some (k, stringify_at gap (ind ++ gap) v)).
  { intros k v. clear -Hnd. induction o as [|[k' v'] o IH]; [by intros ?%elem_of_nil|]. cbn [map fst] in Hnd. apply NoDup_cons in Hnd as [Hni Hnd].
    intros [[= -> ->]|Hin]%elem_of_cons Hv; cbn [List.filter]; [rewrite Hv; cbn [map fst snd List.find]; by rewrite streq_refl|].
    destruct (defined (k', v')); [|by apply IH]. cbn [map fst snd List.find]. destruct (streq k' k) eqn:E; [|by apply IH].
    apply streq_true in E as ->. destruct Hni. apply list_elem_of_fmap. by exists (k, v). }
  assert (Hsub : ∀ e, e ∈ own_entries o → e ∈ o) by (intros e; by rewrite own_entries_perm).
  revert Hsub. generalize (own_entries o). induction l as [|[k v] l IH]; intros Hsub; [done|]. cbn [List.filter].
  assert (Hl : ∀ e, e ∈ l → e ∈ o) by (intros e He; apply Hsub; by right). assert (Hin : (k, v) ∈ o) by (apply Hsub; by left).
  destruct (defined (k, v)) eqn:Ed; cbn [map omap list_omap fst].
  - rewrite (Hd _ _ Hin Ed), (Hf _ _ Hin). cbn [fmap option_fmap option_map snd default]. destruct (stringify_at gap (ind ++ gap) v); [f_equal|]; by apply IH.
  - rewrite (Hf _ _ Hin). unfold defined in Ed. cbn [snd] in Ed. destruct v; try done. cbn [fmap option_fmap option_map snd default stringify_at]. by apply IH.
Qed.

(** ** Members of a text *)

Lemma set_keys_ext (o : list (jsstr * jval)) k v v' : map fst (obj_set o k v) = map fst (obj_set o k v').
Proof. induction o as [|[k' x] o IH]; cbn [obj_set]; [done|]. destruct (streq k' k); cbn [map fst]; by f_equal. Qed.

(** A member enters a text by its own text only. *)
Lemma stringify_set_ext gap ind o k v v' : stringify_at gap (ind ++ gap) v = stringify_at gap (ind ++ gap) v' →
  stringify_at gap ind (JObj (obj_set o k v)) = stringify_at gap ind (JObj (obj_set o k v')).
Proof.
  intros Hv. cbn [stringify_at]. do 3 f_equal.
  assert (Et : map (λ e, (e.1, stringify_at gap (ind ++ gap) e.2)) (obj_set o k v) = map (λ e, (e.1, stringify_at gap (ind ++ gap) e.2)) (obj_set o k v')).
  { induction o as [|[k' x] o IH]; cbn [obj_set map fst snd]; [by rewrite Hv|]. destruct (streq k' k); cbn [map fst snd]; [by rewrite Hv|by f_equal]. }
  rewrite Et.
  set (F := λ k0 : jsstr, default None (snd <$> List.find (λ t, streq t.1 k0) (map (λ e, (e.1, stringify_at gap (ind ++ gap) e.2)) (obj_set o k v')))).
  assert (Em : ∀ l : list (jsstr * jval), map (λ e, (e.1, F e.1)) l = map (λ k, (k, F k)) (map fst l)) by (intros; by rewrite map_map).
  etrans; [apply (Em (own_entries (obj_set o k v)))|]. etrans; [|symmetry; apply (Em (own_entries (obj_set o k v')))]. f_equal.
  apply own_keys_keys, set_keys_ext.
Qed.

Lemma fit_set o k v : forallb unit_ok k = true → json_fit (JObj o) = true → json_fit v = true → json_fit (JObj (obj_set o k v)) = true.
Proof.
  intros Hk. cbn [json_fit]. rewrite !andb_true_iff, !bool_decide_eq_true. intros [[H1 H2] H3] Hv.
  split_and!; [by apply forallb_obj_set|by apply obj_set_keys|by apply forallb_obj_set].
Qed.

Lemma get_ordered o k : NoDup (map fst o) → obj_get (own_entries (map (λ e, (e.1, ordered e.2)) o)) k = ordered (obj_get o k).
Proof.
  intros Hnd. rewrite own_entries_get by by rewrite ordered_keys. clear Hnd. induction o as [|[k' v] o IH]; [done|]. cbn [map obj_get fst snd].
  by destruct (streq k' k).
Qed.

Lemma get_defined o k : NoDup (map fst o) → obj_get (List.filter defined o) k = obj_get o k.
Proof.
  induction o as [|[k' v] o IH]; [done|]. cbn [map fst]. intros [Hni Hnd]%NoDup_cons. cbn [List.filter obj_get]. destruct (streq k' k) eqn:E.
  - destruct (defined (k', v)) eqn:Ed; [cbn [obj_get]; by rewrite E|]. apply streq_true in E as ->. rewrite IH, obj_get_absent by done.
    unfold defined in Ed. cbn [snd] in Ed. by destruct v.
  - rewrite <- IH by done. destruct (defined (k', v)); cbn [obj_get]; [by rewrite E|done].
Qed.

Lemma ordered_truthy v : truthy (ordered v) = truthy v.
Proof. by destruct v. Qed.
Lemma ordered_idemp v : json_fit v = true → ordered (ordered v) = ordered v.
Proof. intros H. by apply ordered_ok, fit_ordered. Qed.

(** A written object, read again: every member in the order of enumeration, and
    those that are [undefined] left out. *)
Lemma parse_object gap o : forallb json_ws gap = true → NoDup (map fst o) → Forall (λ e, forallb unit_ok e.1 = true ∧ (defined e = true → json_fit e.2 = true)) o →
  ∃ t o', stringify_at gap [] (JObj o) = Some t ∧ parse t = Some (JObj o') ∧ ∀ k, obj_get o' k = ordered (obj_get o k).
Proof.
  intros Hg Hnd Ho. assert (Hf : json_fit (JObj (List.filter defined o)) = true).
  { cbn [json_fit]. rewrite !andb_true_iff, bool_decide_eq_true, !forallb_forall. rewrite Forall_forall in Ho.
    split_and!; [|by apply filter_map_NoDup|]; intros e [He Hd]%filter_In; apply list_elem_of_In in He; destruct (Ho _ He); auto. }
  destruct (parse_stringify_ordered gap _ Hg Hf) as (t & Ht & Hp). rewrite stringify_defined in Ht by done. cbn [ordered] in Hp. eexists t, _.
  split_and!; [done|exact Hp|]. intros k. rewrite get_ordered by by apply filter_map_NoDup. by rewrite get_defined.
Qed.

Lemma object_not_blank gap ind o t : stringify_at gap ind (JObj o) = Some t → blank t = false.
Proof.
  cbn [stringify_at]. intros [= <-]. unfold blank, wrap. apply not_true_iff_false. rewrite is_empty_true.
  repeat case_match; by apply trim_cons_nonempty.
Qed.
Lemma array_not_blank gap ind l t : stringify_at gap ind (JArr l) = Some t → blank t = false.
Proof.
  cbn [stringify_at]. intros [= <-]. unfold blank, wrap. apply not_true_iff_false. rewrite is_empty_true.
  repeat case_match; by apply trim_cons_nonempty.
Qed.
