(* ===== verification/StatusCodeRules.v ===== *)
(** * HTTP status-code rules ([web/src/helpers/statusCodeRules.js])

    The setting that lists the status codes a channel is disabled or retried
    on is free text such as ["401, 500-599"].  [parseHttpStatusCodeRules]
    reads it into ranges, merges them and prints a normal form.

    [Number.parseInt] on a run of digits is modelled by the integer it denotes
    ([digits_val]): for values below 2^53 the number is that integer, and above
    every bound the code checks ([> 599]) the rounding of the number cannot
    change the outcome, since both orders of the comparison reject. *)

From S2P Require Import Prelude JsString.
#[local] Open Scope Z_scope.

Record range := Range { start : Z; end_ : Z }.

#[export] Instance range_eq_dec : EqDecision range.
Proof. solve_decision. Defined.

Record rules := Rules {
  ok : bool;
  ranges : list range;
  tokens : list jsstr;
  normalized : jsstr;
  invalidTokens : list jsstr }.

(** ** The operations *)

Definition isNumber (s : jsstr) : bool := negb (is_empty s) && forallb is_digit s.

Definition parseToken (token : jsstr) : option range :=
  let cleaned := replace_all_unit 32 [] (trim token) in
  if is_empty cleaned then None
  else if includes (js "-") cleaned then
    match split (js "-") cleaned with
    | [a; b] =>
      if negb (isNumber a) || negb (isNumber b) then None
      else let s := digits_val a in let e := digits_val b in
           if e <? s then None
           else if (s <? 100) || (599 <? e) then None
           else Some (Range s e)
    | _ => None
    end
  else if negb (isNumber cleaned) then None
  else let code := digits_val cleaned in
       if (code <? 100) || (599 <? code) then None else Some (Range code code).

(** The comparator of [sort], as "a comes before or ties with b"; the sort is
    stable. *)
Definition range_leb (a b : range) : bool :=
  if start a =? start b then end_ a <=? end_ b else start a <=? start b.

Fixpoint insert_range (r : range) (l : list range) : list range :=
  match l with
  | [] => [r]
  | x :: l' => if range_leb r x then r :: l else x :: insert_range r l'
  end.
Fixpoint sort_ranges (l : list range) : list range :=
  match l with [] => [] | r :: l' => insert_range r (sort_ranges l') end.

(** The loop of [mergeRanges]: [last] is [merged[merged.length - 1]]. *)
Fixpoint merge_loop (last : range) (rest : list range) : list range :=
  match rest with
  | [] => [last]
  | current :: rest' =>
    if start current <=? end_ last + 1
    then merge_loop (Range (start last) (Z.max (end_ last) (end_ current))) rest'
    else last :: merge_loop current rest'
  end.

Definition mergeRanges (l : list range) : list range :=
  match sort_ranges l with
  | [] => []
  | r :: rest => merge_loop r rest
  end.

Definition range_token (r : range) : jsstr :=
  if start r =? end_ r then string_of_Z (start r)
  else string_of_Z (start r) ++ js "-" ++ string_of_Z (end_ r).

(** The loop over the comma-separated segments. *)
Fixpoint collect (segments : list jsstr) : list range * list jsstr :=
  match segments with
  | [] => ([], [])
  | segment :: rest =>
    let trimmed := trim segment in
    let '(rs, bad) := collect rest in
    if is_empty trimmed then (rs, bad)
    else match parseToken trimmed with
         | None => (rs, trimmed :: bad)
         | Some r => (r :: rs, bad)
         end
  end.

Definition parseHttpStatusCodeRules (input : option jsstr) : rules :=
  let raw := trim (default [] input) in
  if is_empty raw then Rules true [] [] [] []
  else
    let sanitized := replace_all_unit 65292 (js ",") raw in
    let segments := split (js ",") sanitized in
    let '(rs, invalid) := collect segments in
    match invalid with
    | _ :: _ => Rules false [] [] raw invalid
    | [] =>
      let merged := mergeRanges rs in
      let tokens := map range_token merged in
      Rules true merged tokens (join (js ",") tokens) []
    end.

Example parse_ex :
  normalized (parseHttpStatusCodeRules (Some (js " 500-503，404, 504 - 599,404"))) = js "404,500-599".
Proof. reflexivity. Qed.

(** ** Specification *)

(** A code is selected by a list of ranges. *)
Definition covers (l : list range) (c : Z) : Prop := ∃ r, r ∈ l ∧ start r ≤ c ≤ end_ r.

(** Canonical lists: valid HTTP codes, ascending, with a gap of at least one
    code between neighbours. *)
Fixpoint canonical (l : list range) : Prop :=
  match l with
  | [] => True
  | r :: l' => 100 ≤ start r ∧ start r ≤ end_ r ∧ end_ r ≤ 599 ∧
               (match l' with [] => True | r' :: _ => end_ r + 1 < start r' end) ∧ canonical l'
  end.

Definition valid_range (r : range) : Prop := 100 ≤ start r ∧ start r ≤ end_ r ∧ end_ r ≤ 599.
Definition starts_from (n : Z) (l : list range) : Prop := Forall (λ r, n ≤ start r) l.

(** ** Sorting *)

Fixpoint sorted (l : list range) : Prop :=
  match l with [] => True | r :: l' => starts_from (start r) l' ∧ sorted l' end.

Lemma range_leb_start a b : range_leb a b = true → start a ≤ start b.
Proof. unfold range_leb. destruct (Z.eqb_spec (start a) (start b)); intros; bool_hyps; lia. Qed.

Lemma range_leb_false a b : range_leb a b = false → start b ≤ start a.
Proof. unfold range_leb. destruct (Z.eqb_spec (start a) (start b)); intros; bool_hyps; lia. Qed.

Lemma insert_range_perm r l : insert_range r l ≡ₚ r :: l.
Proof.
  induction l as [|x l IH]; simpl; [done|]. destruct (range_leb r x); [done|].
  rewrite IH. apply Permutation_swap.
Qed.

Lemma sort_ranges_perm l : sort_ranges l ≡ₚ l.
Proof. induction l as [|r l IH]; simpl; [done|]. by rewrite insert_range_perm, IH. Qed.

Lemma starts_from_le n m l : n ≤ m → starts_from m l → starts_from n l.
Proof. intros Hle H. eapply Forall_impl; [exact H|]. intros r. simpl. lia. Qed.

Lemma insert_range_sorted r l : sorted l → sorted (insert_range r l).
Proof.
  induction l as [|x l IH]; simpl; [split; [constructor|done]|]. intros [Hx Hl].
  destruct (range_leb r x) eqn:E.
  - apply range_leb_start in E. split; [|by split].
    constructor; [done|]. by eapply starts_from_le.
  - apply range_leb_false in E. split; [|by apply IH].
    unfold starts_from. rewrite insert_range_perm. by constructor.
Qed.

Lemma sort_ranges_sorted l : sorted (sort_ranges l).
Proof. induction l as [|r l IH]; simpl; [done|]. by apply insert_range_sorted. Qed.

(** ** Merging *)

Lemma merge_loop_head r rest : ∃ e rest', merge_loop r rest = Range (start r) e :: rest'.
Proof.
  revert r. induction rest as [|x rest IH]; intros r; simpl.
  - exists (end_ r), []. by destruct r.
  - case_match; [apply (IH (Range _ _))|]. exists (end_ r). eexists. by destruct r.
Qed.

Lemma covers_cons r l c : covers (r :: l) c ↔ start r ≤ c ≤ end_ r ∨ covers l c.
Proof.
  unfold covers. split.
  - intros (q & [->|Hq]%elem_of_cons & Hc); [by left|right; by exists q].
  - intros [Hc|(q & Hq & Hc)]; [exists r|exists q]; (split; [|done]); by constructor.
Qed.

Lemma covers_perm l1 l2 c : l1 ≡ₚ l2 → covers l1 c ↔ covers l2 c.
Proof. intros H. unfold covers. by setoid_rewrite H. Qed.

Lemma merge_loop_covers r rest c :
  sorted (r :: rest) → Forall (λ x, start x ≤ end_ x) (r :: rest) →
  covers (merge_loop r rest) c ↔ covers (r :: rest) c.
Proof.
  revert r. induction rest as [|x rest IH]; intros r Hs Hv; simpl; [done|].
  destruct Hs as [Hr [Hx Hs]]. inversion_clear Hv as [|? ? Hvr Hv'].
  inversion_clear Hv' as [|? ? Hvx Hvr']. inversion_clear Hr as [|? ? Hrx Hrr].
  destruct (Z.leb_spec (start x) (end_ r + 1)).
  - rewrite IH, !covers_cons; simpl in *.
    + enough (start r ≤ c ≤ end_ r `max` end_ x ↔
              start r ≤ c ≤ end_ r ∨ start x ≤ c ≤ end_ x) by tauto. lia.
    + split; [by eapply starts_from_le|done].
    + constructor; [simpl; lia|done].
  - rewrite covers_cons, IH, !covers_cons; [tauto|by split|by constructor].
Qed.

Lemma merge_loop_canonical r rest :
  sorted (r :: rest) → Forall valid_range (r :: rest) → canonical (merge_loop r rest).
Proof.
  revert r. induction rest as [|x rest IH]; intros r Hs Hv; simpl.
  - inversion_clear Hv. unfold valid_range in *. naive_solver.
  - destruct Hs as [Hr [Hx Hs]]. inversion_clear Hv as [|? ? Hvr Hv'].
    inversion_clear Hv' as [|? ? Hvx Hvr']. inversion_clear Hr as [|? ? Hrx Hrr].
    unfold valid_range in Hvr, Hvx.
    destruct (Z.leb_spec (start x) (end_ r + 1)).
    + apply IH; [split; [by eapply starts_from_le|done]|].
      constructor; [unfold valid_range; simpl; lia|done].
    + pose proof (IH x (conj Hx Hs) ltac:(by constructor)) as Hc.
      destruct (merge_loop_head x rest) as (e & rest' & Heq). rewrite Heq in *.
      simpl. simpl in Hc. intuition lia.
Qed.

Lemma parseToken_valid t r : parseToken t = Some r → valid_range r.
Proof.
  unfold parseToken, valid_range. intros H.
  repeat case_match; simplify_eq/=; repeat match goal with
  | H : (_ || _) = false |- _ => apply orb_false_iff in H as [? ?] end; bool_hyps; lia.
Qed.

Lemma collect_valid segs : Forall valid_range (collect segs).1.
Proof.
  induction segs as [|s segs IH]; simpl; [constructor|].
  destruct (collect segs) as [rs bad]; simpl in *. repeat case_match; simpl; auto.
  constructor; [|done]. by eapply parseToken_valid.
Qed.

Lemma mergeRanges_canonical l : Forall valid_range l → canonical (mergeRanges l).
Proof.
  intros H. rewrite <- (sort_ranges_perm l) in H. unfold mergeRanges.
  pose proof (sort_ranges_sorted l). destruct (sort_ranges l); [done|].
  by apply merge_loop_canonical.
Qed.

Lemma mergeRanges_covers l c : Forall valid_range l → covers (mergeRanges l) c ↔ covers l c.
Proof.
  intros H. rewrite <- (sort_ranges_perm l) in H.
  rewrite <- (covers_perm _ _ c (sort_ranges_perm l)). unfold mergeRanges.
  pose proof (sort_ranges_sorted l). destruct (sort_ranges l); [done|].
  apply merge_loop_covers; [done|]. eapply Forall_impl; [exact H|].
  intros x Hx. unfold valid_range in Hx. lia.
Qed.

(** A canonical list is a fixed point of merging. *)
Lemma canonical_starts_from n l :
  canonical l → match l with [] => True | r :: _ => n ≤ start r end → starts_from n l.
Proof.
  revert n. induction l as [|r l IH]; intros n Hc Hn; [constructor|].
  destruct Hc as (H1 & H2 & H3 & H4 & H5). constructor; [done|].
  apply IH; [done|]. destruct l; [done|]. lia.
Qed.

Lemma insert_range_canonical r l : canonical (r :: l) → insert_range r l = r :: l.
Proof.
  intros (H1 & H2 & H3 & H4 & H5). destruct l as [|x l]; [done|]. simpl.
  unfold range_leb. destruct (Z.eqb_spec (start r) (start x)); [lia|].
  destruct (Z.leb_spec (start r) (start x)); [done|lia].
Qed.

Lemma merge_loop_fixed r l : canonical (r :: l) → merge_loop r l = r :: l.
Proof.
  revert r. induction l as [|x l IH]; intros r H; [done|].
  destruct H as (H1 & H2 & H3 & H4 & H5). simpl.
  destruct (Z.leb_spec (start x) (end_ r + 1)); [lia|]. by rewrite IH.
Qed.

Lemma mergeRanges_fixed l : canonical l → mergeRanges l = l.
Proof.
  intros H. assert (Hs : sort_ranges l = l).
  { induction l as [|r l IH]; [done|]. simpl. rewrite IH by apply H.
    by apply insert_range_canonical. }
  unfold mergeRanges. rewrite Hs. destruct l; [done|]. by apply merge_loop_fixed.
Qed.

(** Canonical lists selecting the same codes are equal. *)
Lemma covers_lower r l c : canonical (r :: l) → covers (r :: l) c → start r ≤ c.
Proof.
  revert r. induction l as [|x l IH]; intros r Hc Hcov; apply covers_cons in Hcov as [|H]; try lia.
  - by destruct H as (? & ?%not_elem_of_nil & _).
  - destruct Hc as (H1 & H2 & H3 & H4 & H5). specialize (IH x H5 H). lia.
Qed.

Lemma canonical_gap r l : canonical (r :: l) → ¬ covers (r :: l) (end_ r + 1).
Proof.
  intros Hc [H|H]%covers_cons; [lia|].
  destruct l as [|x l]; [by destruct H as (? & ?%not_elem_of_nil & _)|].
  destruct Hc as (H1 & H2 & H3 & H4 & H5).
  pose proof (covers_lower x l _ H5 H). lia.
Qed.

Lemma canonical_head_eq r1 l1 r2 l2 :
  canonical (r1 :: l1) → canonical (r2 :: l2) →
  (∀ c, covers (r1 :: l1) c ↔ covers (r2 :: l2) c) → r1 = r2.
Proof.
  intros H1 H2 Heq.
  assert (Hr1 : start r1 ≤ end_ r1) by apply H1.
  assert (Hr2 : start r2 ≤ end_ r2) by apply H2.
  assert (Hin1 : ∀ c, start r1 ≤ c ≤ end_ r1 → covers (r2 :: l2) c)
    by (intros; apply Heq, covers_cons; auto).
  assert (Hin2 : ∀ c, start r2 ≤ c ≤ end_ r2 → covers (r1 :: l1) c)
    by (intros; apply Heq, covers_cons; auto).
  pose proof (covers_lower _ _ _ H2 (Hin1 (start r1) ltac:(lia))).
  pose proof (covers_lower _ _ _ H1 (Hin2 (start r2) ltac:(lia))).
  pose proof (canonical_gap _ _ H1) as G1. pose proof (canonical_gap _ _ H2) as G2.
  assert (end_ r1 = end_ r2).
  { destruct (Z.lt_trichotomy (end_ r1) (end_ r2)) as [Hlt|[?|Hlt]]; [|done|].
    - exfalso. apply G1, Hin2. lia.
    - exfalso. apply G2, Hin1. lia. }
  destruct r1, r2; simpl in *; f_equal; lia.
Qed.

Lemma canonical_unique l1 l2 :
  canonical l1 → canonical l2 → (∀ c, covers l1 c ↔ covers l2 c) → l1 = l2.
Proof.
  assert (Hnil : ∀ r l, canonical (r :: l) → ¬ (∀ c, covers [] c ↔ covers (r :: l) c)).
  { intros r l (? & ? & _) Heq. assert (Hcov : covers (r :: l) (start r)) by (apply covers_cons; lia).
    by destruct (proj2 (Heq (start r)) Hcov) as (? & ?%not_elem_of_nil & _). }
  revert l2. induction l1 as [|r1 l1 IH]; intros [|r2 l2] H1 H2 Heq; [done| | |].
  - by destruct (Hnil _ _ H2).
  - destruct (Hnil _ _ H1). intros c. by rewrite Heq.
  - assert (r1 = r2) as -> by by eapply canonical_head_eq.
    f_equal. apply IH; [apply H1|apply H2|]. intros c.
    pose proof (covers_lower r2) as Hlow. pose proof (Heq c) as Hc. rewrite !covers_cons in Hc.
    assert (Hout : ∀ l, canonical (r2 :: l) → covers l c → end_ r2 < c).
    { intros l Hl Hcov. destruct l as [|x l]; [by destruct Hcov as (? & ?%not_elem_of_nil & _)|].
      destruct Hl as (? & ? & ? & ? & Hl'). pose proof (covers_lower _ _ _ Hl' Hcov). lia. }
    split; intros Hcov.
    + specialize (Hout _ H1 Hcov). destruct Hc as [[?|?] _]; auto; lia.
    + specialize (Hout _ H2 Hcov). destruct Hc as [_ [?|?]]; auto; lia.
Qed.

(** ** The parser as a whole *)

Definition segments (input : option jsstr) : list jsstr :=
  split (js ",") (replace_all_unit 65292 (js ",") (trim (default [] input))).

(** The tokens the loop looks at: the non-blank trimmed segments. *)
Definition rule_tokens (input : option jsstr) : list jsstr := filter_truthy (map trim (segments input)).

Definition rejected (t : jsstr) : bool := match parseToken t with None => true | Some _ => false end.

Lemma collect_tokens segs :
  collect segs = (omap parseToken (filter_truthy (map trim segs)),
                  List.filter rejected (filter_truthy (map trim segs))).
Proof.
  induction segs as [|s segs IH]; simpl; [done|]. rewrite IH. unfold filter_truthy. simpl.
  destruct (is_empty (trim s)); simpl; [done|]. unfold rejected at 3.
  destruct (parseToken (trim s)); done.
Qed.

Lemma parse_unfold input :
  parseHttpStatusCodeRules input =
    match List.filter rejected (rule_tokens input) with
    | [] => let M := mergeRanges (omap parseToken (rule_tokens input)) in
            Rules true M (map range_token M) (join (js ",") (map range_token M)) []
    | bad => Rules false [] [] (trim (default [] input)) bad
    end.
Proof.
  unfold parseHttpStatusCodeRules, rule_tokens, segments.
  destruct (trim (default [] input)) as [|c raw]; [done|]. simpl is_empty. cbv iota.
  rewrite collect_tokens. by case_match.
Qed.

Lemma rules_canonical input : canonical (ranges (parseHttpStatusCodeRules input)).
Proof.
  rewrite parse_unfold. case_match; [|done]. cbn [ranges].
  pose proof (collect_valid (segments input)) as H'. rewrite collect_tokens in H'.
  by apply mergeRanges_canonical.
Qed.

(** *** Printing a canonical list and reading it back *)

Definition rule_char (c : N) : bool := is_digit c || (c =? 45)%N.

Lemma string_of_Z_nonneg n : 0 ≤ n → string_of_Z n = string_of_nonneg n.
Proof. intros H. unfold string_of_Z. destruct (Z.ltb_spec n 0); [lia|done]. Qed.

Lemma range_token_chars r : valid_range r → forallb rule_char (range_token r) = true.
Proof.
  intros (H1 & H2 & H3). unfold range_token. rewrite !string_of_Z_nonneg by lia.
  assert (Hd : ∀ n, 0 ≤ n → forallb rule_char (string_of_nonneg n) = true).
  { intros n Hn. destruct (string_of_nonneg_spec n Hn) as (_ & Hd & _).
    eapply forallb_impl; [|exact Hd]. intros c Hc. unfold rule_char. by rewrite Hc. }
  case_match; [by apply Hd; lia|]. rewrite !forallb_app, !Hd by lia. done.
Qed.

Lemma rule_char_not_ws c : rule_char c = true → negb (is_ws c) = true.
Proof.
  unfold rule_char. intros [H|H]%orb_true_iff; [by rewrite (digit_not_ws c H)|].
  bool_hyps. by subst.
Qed.

Lemma isNumber_digits s : s ≠ [] → forallb is_digit s = true → isNumber s = true.
Proof. intros Hne H. unfold isNumber. rewrite H. by destruct s. Qed.

Lemma parseToken_range_token r : valid_range r → parseToken (range_token r) = Some r.
Proof.
  intros Hv. pose proof (range_token_chars r Hv) as Hc. destruct Hv as (H1 & H2 & H3).
  unfold parseToken.
  rewrite (trim_trimmed (range_token r))
    by (apply no_ws_trimmed; eapply forallb_impl; [apply rule_char_not_ws|done]).
  rewrite replace_all_unit_id by (by eapply forallb_not_in).
  unfold range_token. rewrite !string_of_Z_nonneg by lia.
  destruct (string_of_nonneg_spec (start r) ltac:(lia)) as (Hs1 & Hs2 & Hs3).
  destruct (string_of_nonneg_spec (end_ r) ltac:(lia)) as (He1 & He2 & He3).
  assert (Hno1 : 45%N ∉ string_of_nonneg (start r)) by by eapply digits_not_in.
  assert (Hno2 : 45%N ∉ string_of_nonneg (end_ r)) by by eapply digits_not_in.
  destruct (Z.eqb_spec (start r) (end_ r)) as [Heq|Hne].
  - destruct (string_of_nonneg (start r)) as [|c s] eqn:E; [done|]. rewrite <- E in *.
    replace (is_empty (string_of_nonneg (start r))) with false by by rewrite E.
    change (js "-") with [45%N]. rewrite includes_unit_false by done.
    rewrite isNumber_digits by done. rewrite Hs3. simpl negb. cbv iota.
    destruct (Z.ltb_spec (start r) 100); [lia|]. destruct (Z.ltb_spec 599 (start r)); [lia|].
    simpl. destruct r; simpl in *; subst; done.
  - change (js "-") with [45%N].
    replace (is_empty _) with false by by destruct (string_of_nonneg (start r)).
    replace (includes _ _) with true
      by (symmetry; apply includes_unit; rewrite elem_of_app; right; by constructor).
    change (string_of_nonneg (start r) ++ [45%N] ++ string_of_nonneg (end_ r))
      with (join [45%N] [string_of_nonneg (start r); string_of_nonneg (end_ r)]).
    rewrite split_join_char by (done || by repeat constructor).
    rewrite !isNumber_digits by done. rewrite Hs3, He3. simpl orb. cbv iota.
    destruct (Z.ltb_spec (end_ r) (start r)); [lia|].
    destruct (Z.ltb_spec (start r) 100); [lia|]. destruct (Z.ltb_spec 599 (end_ r)); [lia|].
    by destruct r.
Qed.

Lemma canonical_Forall_valid l : canonical l → Forall valid_range l.
Proof. induction l as [|r l IH]; intros H; constructor; [|apply IH]; apply H || (unfold valid_range; naive_solver). Qed.

Lemma range_token_nonempty r : valid_range r → range_token r ≠ [].
Proof.
  intros Hv Heq. apply parseToken_range_token in Hv. by rewrite Heq in Hv.
Qed.

Lemma rule_tokens_printed l :
  canonical l → rule_tokens (Some (join (js ",") (map range_token l))) = map range_token l.
Proof.
  intros Hc. pose proof (canonical_Forall_valid l Hc) as Hv.
  unfold rule_tokens, segments. simpl default.
  assert (Hchars : Forall (λ x, forallb rule_char x = true) (map range_token l)).
  { rewrite Forall_map. eapply Forall_impl; [exact Hv|]. intros r. apply range_token_chars. }
  assert (Hjoin : forallb (λ c, rule_char c || (c =? 44)%N) (join (js ",") (map range_token l)) = true).
  { apply forallb_join; [done|]. eapply Forall_impl; [exact Hchars|]. intros x.
    apply forallb_impl. intros c H. by rewrite H. }
  assert (Htrim : ∀ x, x ∈ map range_token l → trim x = x).
  { intros x Hx. rewrite Forall_forall in Hchars. apply trim_trimmed, no_ws_trimmed.
    eapply forallb_impl; [apply rule_char_not_ws|auto]. }
  rewrite trim_trimmed.
  2:{ apply no_ws_trimmed. eapply forallb_impl; [|exact Hjoin]. intros c [H|H]%orb_true_iff;
      [by apply rule_char_not_ws|]. bool_hyps. by subst. }
  rewrite replace_all_unit_id by by eapply forallb_not_in.
  destruct l as [|r l]; [done|].
  change (js ",") with [44%N]. rewrite split_join_char; [|done|].
  2:{ eapply Forall_impl; [exact Hchars|]. intros x Hx. exact (forallb_not_in rule_char x 44 Hx eq_refl). }
  rewrite (map_ext_in _ id).
  2:{ intros x Hx%list_elem_of_In. by apply Htrim. }
  rewrite map_id. apply filter_truthy_id. rewrite Forall_map.
  eapply Forall_impl; [exact Hv|]. intros x. apply range_token_nonempty.
Qed.

Lemma parse_printed l :
  canonical l → parseHttpStatusCodeRules (Some (join (js ",") (map range_token l))) =
    Rules true l (map range_token l) (join (js ",") (map range_token l)) [].
Proof.
  intros Hc. pose proof (canonical_Forall_valid l Hc) as Hv.
  rewrite parse_unfold, rule_tokens_printed by done.
  assert (Hp : omap parseToken (map range_token l) = l ∧
               List.filter rejected (map range_token l) = []).
  { clear Hc. induction Hv as [|r l Hr Hl [IH1 IH2]]; [done|]. csimpl.
    unfold rejected at 1. rewrite (parseToken_range_token r Hr), IH1, IH2. done. }
  destruct Hp as [-> ->]. by rewrite mergeRanges_fixed.
Qed.

(** ** Theorems *)

(** Normal form.  Whatever text the administrator types, the ranges the
    parser returns are canonical: codes between 100 and 599, in ascending
    order, and neighbours neither overlap nor touch. *)
Theorem parse_rules_canonical (input : option jsstr) :
  canonical (ranges (parseHttpStatusCodeRules input)).
Proof. apply rules_canonical. Qed.

(** C32. Meaning.  When the text is accepted, a status code is selected by the
    merged ranges exactly when one of the tokens of the text selects it:
    sorting and merging lose no code and add none. *)
Theorem parse_rules_covers (input : option jsstr) (c : Z) :
  ok (parseHttpStatusCodeRules input) = true →
  covers (ranges (parseHttpStatusCodeRules input)) c ↔
  ∃ t r, t ∈ rule_tokens input ∧ parseToken t = Some r ∧ start r ≤ c ≤ end_ r.
Proof.
  rewrite parse_unfold. case_match; [|done]. intros _. cbn [ranges].
  pose proof (collect_valid (segments input)) as H'. rewrite collect_tokens in H'.
  rewrite mergeRanges_covers by exact H'. unfold covers. split.
  - intros (r & (t & Ht & Hr)%list_elem_of_omap & Hc). by exists t, r.
  - intros (t & r & Ht & Hr & Hc). exists r. split; [|done]. apply list_elem_of_omap. by exists t.
Qed.

Lemma parse_rules_covers_witness :
  covers (ranges (parseHttpStatusCodeRules (Some (js "500-502, 503")))) 503 ↔
  ∃ t r, t ∈ rule_tokens (Some (js "500-502, 503")) ∧ parseToken t = Some r ∧ start r ≤ 503 ≤ end_ r.
Proof. apply parse_rules_covers. reflexivity. Defined.

(** Round trip.  The printed normal form of an accepted text is accepted
    again, with the same ranges, tokens and normal form. *)
Theorem parse_rules_roundtrip (input : option jsstr) :
  ok (parseHttpStatusCodeRules input) = true →
  parseHttpStatusCodeRules (Some (normalized (parseHttpStatusCodeRules input)))
  = parseHttpStatusCodeRules input.
Proof.
  pose proof (rules_canonical input) as Hc. rewrite parse_unfold in Hc |- *.
  case_match; [|done]. intros _. cbn [ranges normalized] in *. by apply parse_printed.
Qed.

Lemma parse_rules_roundtrip_witness :
  parseHttpStatusCodeRules (Some (normalized (parseHttpStatusCodeRules (Some (js "503,500-502"))))) =
  parseHttpStatusCodeRules (Some (js "503,500-502")).
Proof. apply parse_rules_roundtrip. reflexivity. Defined.

(** The normal form decides equivalence: two accepted texts print the same
    normal form exactly when they select the same codes. *)
Theorem normalized_decides_equivalence (i1 i2 : option jsstr) :
  ok (parseHttpStatusCodeRules i1) = true → ok (parseHttpStatusCodeRules i2) = true →
  normalized (parseHttpStatusCodeRules i1) = normalized (parseHttpStatusCodeRules i2) ↔
  ∀ c, covers (ranges (parseHttpStatusCodeRules i1)) c ↔ covers (ranges (parseHttpStatusCodeRules i2)) c.
Proof.
  assert (Hp : ∀ i, ok (parseHttpStatusCodeRules i) = true →
            normalized (parseHttpStatusCodeRules i) =
            join (js ",") (map range_token (ranges (parseHttpStatusCodeRules i)))).
  { intros i. rewrite parse_unfold. by case_match. }
  intros H1 H2. pose proof (rules_canonical i1) as C1. pose proof (rules_canonical i2) as C2.
  rewrite (Hp i1 H1), (Hp i2 H2). split.
  - intros Heq c. pose proof (parse_printed _ C1) as P1. rewrite Heq, (parse_printed _ C2) in P1.
    apply (f_equal ranges) in P1. simpl in P1. by rewrite P1.
  - intros Heq. by rewrite (canonical_unique _ _ C1 C2 Heq).
Qed.

Lemma normalized_decides_equivalence_witness :
  normalized (parseHttpStatusCodeRules (Some (js "503,500-502"))) =
  normalized (parseHttpStatusCodeRules (Some (js "500-503"))) ↔
  ∀ c, covers (ranges (parseHttpStatusCodeRules (Some (js "503,500-502")))) c ↔
       covers (ranges (parseHttpStatusCodeRules (Some (js "500-503")))) c.
Proof. apply normalized_decides_equivalence; reflexivity. Defined.

(** Errors.  The text is rejected exactly when some token does not parse;
    all such tokens are reported, in the order of the text, and the text shown
    to the administrator is kept as typed. *)
Theorem parse_rules_errors (input : option jsstr) :
  invalidTokens (parseHttpStatusCodeRules input) = List.filter rejected (rule_tokens input) ∧
  (ok (parseHttpStatusCodeRules input) = true ↔ ∀ t, t ∈ rule_tokens input → parseToken t ≠ None) ∧
  (ok (parseHttpStatusCodeRules input) = false →
   ranges (parseHttpStatusCodeRules input) = [] ∧
   normalized (parseHttpStatusCodeRules input) = trim (default [] input)).
Proof.
  rewrite parse_unfold. destruct (List.filter rejected (rule_tokens input)) as [|b bad] eqn:E; simpl.
  - split; [done|]. split; [|done]. split; [|done]. intros _ t Ht Hn.
    assert (Hin : List.In t (List.filter rejected (rule_tokens input))).
    { apply filter_In. split; [by apply list_elem_of_In|]. unfold rejected. by rewrite Hn. }
    by rewrite E in Hin.
  - split; [done|]. split; [|done]. split; [done|]. intros H.
    assert (Hin : List.In b (List.filter rejected (rule_tokens input))) by (rewrite E; by left).
    apply filter_In in Hin as [Hin%list_elem_of_In Hr]. unfold rejected in Hr.
    specialize (H b Hin). by destruct (parseToken b).
Qed.
