(* ===== verification/RequestRuleExpr.v ===== *)
(** * Request-rule expressions
      ([web/src/pages/Setting/Ratio/components/requestRuleExpr.js])

    The pricing editor lets an administrator multiply a model's price under
    conditions on the request (a body parameter, a header, the time of day).
    The rules are stored as text of the billing-expression language, e.g.
    [(header("x-tier") == "gold" ? 0.5 : 1) * (hour("UTC") >= 22 ? 0.8 : 1)].
    This file models the two directions: building the text from the rules the
    form holds, and reading the form back from stored text, with the regular
    expressions of the source.

    A rule object of the form is a [cond] whose text fields may be absent;
    [normalizeCondition] turns it into an [ncond]. *)

From S2P Require Import Prelude JsString JsRegex JsNumber Json.

(** ** Constants *)

Definition SOURCE_PARAM := Eval vm_compute in js "param".
Definition SOURCE_HEADER := Eval vm_compute in js "header".
Definition SOURCE_TIME := Eval vm_compute in js "time".
Definition MATCH_EQ := Eval vm_compute in js "eq".
Definition MATCH_CONTAINS := Eval vm_compute in js "contains".
Definition MATCH_GT := Eval vm_compute in js "gt".
Definition MATCH_GTE := Eval vm_compute in js "gte".
Definition MATCH_LT := Eval vm_compute in js "lt".
Definition MATCH_LTE := Eval vm_compute in js "lte".
Definition MATCH_EXISTS := Eval vm_compute in js "exists".
Definition MATCH_RANGE := Eval vm_compute in js "range".
Definition TIME_FUNCS := Eval vm_compute in map js ["hour"; "minute"; "weekday"; "month"; "day"].

Definition in_list (x : jsstr) (l : list jsstr) : bool := existsb (streq x) l.

Open Scope re_scope.
Definition re_digit : regex := RSet is_digit.
Definition re_sign : regex := RSet (unit_in [43; 45]%N).

(** [/^-?(?:\d+\.?\d*|\.\d+)(?:[eE][+-]?\d+)?$/] *)
Definition NUMERIC_LITERAL_REGEX : regex :=
  RBol +> ROpt (RLit [45%N])
  +> ((RPlus re_digit +> ROpt (RLit [46%N]) +> RStar true re_digit) <|> (RLit [46%N] +> RPlus re_digit))
  +> ROpt (RSet (unit_in [101; 69]%N) +> ROpt re_sign +> RPlus re_digit) +> REol.

Definition is_numeric (s : jsstr) : bool := re_test NUMERIC_LITERAL_REGEX s.

(** ** Conditions *)

Record cond := Cond {
  source : option jsstr; path : option jsstr; mode : option jsstr; value : jval;
  timeFunc : option jsstr; timezone : option jsstr; rangeStart : jval; rangeEnd : jval }.

Inductive ncond :=
  | NTime (timeFunc timezone mode value rangeStart rangeEnd : jsstr)
  | NReq (source path mode value : jsstr).

#[export] Instance ncond_eq_dec : EqDecision ncond.
Proof. solve_decision. Defined.

Record group := Group { conditions : list cond; multiplier : option jsstr }.
(** A group read back from text: every condition is normalised. *)
Record ngroup := NGroup { nconditions : list ncond; nmultiplier : jsstr }.

Definition createEmptyCondition : cond :=
  Cond (Some SOURCE_PARAM) (Some []) (Some MATCH_EQ) (JStr []) None None JUndef JUndef.
Definition createEmptyTimeCondition : cond :=
  Cond (Some SOURCE_TIME) None (Some MATCH_GTE) (JStr []) (Some (js "hour")) (Some (js "Asia/Shanghai"))
       (JStr []) (JStr []).
Definition createEmptyRuleGroup : group := Group [createEmptyCondition] (Some []).
Definition createEmptyTimeRuleGroup : group := Group [createEmptyTimeCondition] (Some []).

(** The [value] of every option; the labels are translations of fixed text. *)
Definition getRequestRuleMatchOptions (src : jsstr) : list jsstr :=
  if streq src SOURCE_TIME then [MATCH_EQ; MATCH_GTE; MATCH_LT; MATCH_RANGE]
  else let base := [MATCH_EQ; MATCH_CONTAINS; MATCH_EXISTS] in
       if streq src SOURCE_HEADER then base
       else base ++ [MATCH_GT; MATCH_GTE; MATCH_LT; MATCH_LTE].

(** [v == null ? '' : String(v)] *)
Definition text_or_empty (v : jval) : jsstr := if is_nullish v then [] else String_of v.
(** [s || d] for a text that may be absent. *)
Definition or_text (s : option jsstr) (d : jsstr) : jsstr :=
  match s with Some (c :: r) => c :: r | _ => d end.
(** [options.some(o => o.value === mode) ? mode : fallback] *)
Definition pick (opts : list jsstr) (s : option jsstr) (d : jsstr) : jsstr :=
  match s with Some x => if in_list x opts then x else d | None => d end.

Definition source_of (c : cond) : jsstr :=
  match source c with
  | Some s => if streq s SOURCE_TIME then SOURCE_TIME
              else if streq s SOURCE_HEADER then SOURCE_HEADER else SOURCE_PARAM
  | None => SOURCE_PARAM
  end.

Definition normalizeCondition (c : cond) : ncond :=
  let src := source_of c in
  if streq src SOURCE_TIME then
    NTime (pick TIME_FUNCS (timeFunc c) (js "hour")) (or_text (timezone c) (js "Asia/Shanghai"))
          (pick (getRequestRuleMatchOptions SOURCE_TIME) (mode c) MATCH_GTE)
          (text_or_empty (value c)) (text_or_empty (rangeStart c)) (text_or_empty (rangeEnd c))
  else
    NReq src (or_text (path c) []) (pick (getRequestRuleMatchOptions src) (mode c) MATCH_EQ)
         (text_or_empty (value c)).

(** A normalised condition is again an object of the form. *)
Definition raw (n : ncond) : cond :=
  match n with
  | NTime f tz md v s e => Cond (Some SOURCE_TIME) None (Some md) (JStr v) (Some f) (Some tz) (JStr s) (JStr e)
  | NReq src p md v => Cond (Some src) (Some p) (Some md) (JStr v) None None JUndef JUndef
  end.

(** ** Splitting at the top level of parentheses *)

Definition depth_step (c : N) (depth : Z) : Z :=
  let d1 := if (c =? 40)%N then (depth + 1)%Z else depth in
  if (c =? 41)%N then (d1 - 1)%Z else d1.

(** The loop of [splitTopLevelMultiply] and [splitTopLevelAnd]: [skip] counts
    the units of a separator the index still jumps over, [acc] is the current
    part reversed.  Parentheses inside string literals count too. *)
Fixpoint split_top (sep : jsstr) (skip : nat) (depth : Z) (acc s : jsstr) : list jsstr :=
  match s with
  | [] => [trim (rev acc)]
  | c :: s' =>
    match skip with
    | S k => split_top sep k depth acc s'
    | O => let depth' := depth_step c depth in
           if (depth' =? 0)%Z && starts_with sep s
           then trim (rev acc) :: split_top sep (length sep - 1) depth' [] s'
           else split_top sep 0 depth' (c :: acc) s'
    end
  end.
Definition SEP_MUL := Eval vm_compute in js " * ".
Definition SEP_AND := Eval vm_compute in js " && ".
Definition SEP_OR := Eval vm_compute in js " || ".
Definition splitTopLevelMultiply (expr : jsstr) : list jsstr := filter_truthy (split_top SEP_MUL 0 0 [] expr).
Definition splitTopLevelAnd (expr : jsstr) : list jsstr := filter_truthy (split_top SEP_AND 0 0 [] expr).

(** ** Building text *)

Definition is_bool_text (s : jsstr) : bool := streq s (js "true") || streq s (js "false").

Definition buildExprLiteral (md v : jsstr) : jsstr :=
  let text := trim v in
  if streq md MATCH_CONTAINS then quote text
  else if is_bool_text text then text
  else if is_numeric text then text
  else quote text.

Definition time_fn (f tz : jsstr) : jsstr := f ++ js "(" ++ quote tz ++ js ")".

Definition time_op (md : jsstr) : jsstr :=
  if streq md MATCH_EQ then js "==" else if streq md MATCH_GTE then js ">="
  else if streq md MATCH_LT then js "<" else js "==".

Definition buildTimeConditionExpr (c : cond) : jsstr :=
  match normalizeCondition c with
  | NTime f tz md v rs re =>
    let fn := time_fn f tz in
    if streq md MATCH_RANGE then
      let s := trim rs in let e := trim re in
      if negb (is_numeric s) || negb (is_numeric e) then []
      else fn ++ js " >= " ++ s ++ js " || " ++ fn ++ js " < " ++ e
    else
      let v := trim v in
      if negb (is_numeric v) then []
      else fn ++ js " " ++ time_op md ++ js " " ++ v
  | NReq _ _ _ _ => []
  end.

Definition source_expr (src p : jsstr) : jsstr :=
  (if streq src SOURCE_HEADER then js "header(" else js "param(") ++ quote p ++ js ")".

Definition cmp_op (md : jsstr) : jsstr :=
  if streq md MATCH_GT then js ">" else if streq md MATCH_GTE then js ">="
  else if streq md MATCH_LT then js "<" else js "<=".

Definition buildRequestConditionExpr (c : cond) : jsstr :=
  if streq (default [] (source c)) SOURCE_TIME then buildTimeConditionExpr c
  else match normalizeCondition c with
  | NTime _ _ _ _ _ _ => []
  | NReq src p0 md v =>
    let p := trim p0 in
    if is_empty p then []
    else
      let se := source_expr src p in
      let is_header := streq src SOURCE_HEADER in
      if streq md MATCH_EXISTS then (if is_header then se ++ jsq " != ''" else se ++ js " != nil")
      else if streq md MATCH_CONTAINS then
        (if is_header then js "has(" ++ se ++ js ", " ++ buildExprLiteral md v ++ js ")"
         else se ++ js " != nil && has(" ++ se ++ js ", " ++ buildExprLiteral md v ++ js ")")
      else if in_list md [MATCH_GT; MATCH_GTE; MATCH_LT; MATCH_LTE] then
        (if negb (is_numeric (trim v)) then []
         else se ++ js " != nil && " ++ se ++ js " " ++ cmp_op md ++ js " " ++ trim v)
      else se ++ js " == " ++ buildExprLiteral md v
  end.

Definition combine_conditions (condExprs : list jsstr) : jsstr :=
  match condExprs with
  | [e] => e
  | _ => join SEP_AND (map (λ e, if includes SEP_OR e then js "(" ++ e ++ js ")" else e) condExprs)
  end.

Definition factor_text (combined mult : jsstr) : jsstr :=
  js "(" ++ combined ++ js " ? " ++ mult ++ js " : 1)".

Definition buildRuleGroupFactor (g : group) : jsstr :=
  let mult := trim (default [] (multiplier g)) in
  if negb (is_numeric mult) then []
  else let condExprs := filter_truthy (map buildRequestConditionExpr (conditions g)) in
       match condExprs with
       | [] => []
       | _ => factor_text (combine_conditions condExprs) mult
       end.

Definition buildRequestRuleExpr (groups : list group) : jsstr :=
  join SEP_MUL (filter_truthy (map buildRuleGroupFactor groups)).

(** ** Reading text *)

Definition re_num : regex := RPlus (RSet num_char).       (* [\d.eE+-]+ *)
Definition not_quote : N → bool := unit_not_in [34%N].
Definition re_name : regex := RPlus (RSet not_quote).     (* one or more units, no quotation mark *)
Definition re_time_fn : regex :=
  RLit (js "hour") <|> RLit (js "minute") <|> RLit (js "weekday") <|> RLit (js "month") <|> RLit (js "day").

(** [hour("tz") >= s || hour("tz") < e], the part between the anchors *)
Definition re_range : regex :=
  RGroup 1 re_time_fn +> RLit (jsq "('") +> RGroup 2 re_name +> RLit (jsq "') >= ") +> RGroup 3 re_num
  +> RLit (js " || ") +> RRef 1 +> RLit (jsq "('") +> RRef 2 +> RLit (jsq "') < ") +> RGroup 4 re_num.
Definition TIME_RANGE_REGEX : regex := RBol +> re_range +> REol.
Definition TIME_WRAPPED_REGEX : regex := RBol +> RLit (js "(") +> re_range +> RLit (js ")") +> REol.
Definition TIME_SIMPLE_REGEX : regex :=
  RBol +> RGroup 1 re_time_fn +> RLit (jsq "('") +> RGroup 2 re_name +> RLit (jsq "') ")
  +> RGroup 3 (RLit (js "==") <|> RLit (js ">=") <|> RLit (js "<")) +> RLit (js " ") +> RGroup 4 re_num +> REol.

(** Capture [n] of a successful match. *)
Definition grp (f : nat → option jsstr) (n : nat) : jsstr := default [] (f n).

Definition range_cond (f : nat → option jsstr) : cond :=
  Cond (Some SOURCE_TIME) None (Some MATCH_RANGE) (JStr []) (Some (grp f 1)) (Some (grp f 2))
       (JStr (grp f 3)) (JStr (grp f 4)).

Definition time_mode (op : jsstr) : jsstr :=
  if streq op (js "==") then MATCH_EQ else if streq op (js ">=") then MATCH_GTE
  else if streq op (js "<") then MATCH_LT else MATCH_EQ.

Definition tryParseTimeCondition (expr : jsstr) : option cond :=
  match re_match TIME_RANGE_REGEX expr with
  | Some f => Some (range_cond f)
  | None =>
    match re_match TIME_WRAPPED_REGEX expr with
    | Some f => Some (range_cond f)
    | None =>
      match re_match TIME_SIMPLE_REGEX expr with
      | Some f => Some (Cond (Some SOURCE_TIME) None (Some (time_mode (grp f 3))) (JStr (grp f 4))
                          (Some (grp f 1)) (Some (grp f 2)) (JStr []) (JStr []))
      | None => None
      end
    end
  end.

(** The text of a string literal: a quotation mark, then units that are
    neither a quotation mark nor a backslash, or a backslash and any unit
    but a line end, then a quotation mark. *)
Definition re_str_unit : regex := RSet (unit_not_in [34; 92]%N) <|> (RLit [92%N] +> RSet dot).
Definition re_json_str : regex := RLit [34%N] +> RStar true re_str_unit +> RLit [34%N].

Definition HEADER_EXISTS_REGEX : regex :=
  RBol +> RLit (jsq "header('") +> RGroup 1 re_name +> RLit (jsq "') != ''") +> REol.
Definition PARAM_EXISTS_REGEX : regex :=
  RBol +> RLit (jsq "param('") +> RGroup 1 re_name +> RLit (jsq "') != nil") +> REol.
Definition HEADER_HAS_REGEX : regex :=
  RBol +> RLit (jsq "has(header('") +> RGroup 1 re_name +> RLit (jsq "'), ") +> RGroup 2 re_json_str +> RLit (js ")") +> REol.
Definition PARAM_HAS_REGEX : regex :=
  RBol +> RLit (jsq "param('") +> RGroup 1 re_name +> RLit (jsq "') != nil && has(param('") +> RGroup 2 re_name
  +> RLit (jsq "'), ") +> RGroup 3 re_json_str +> RLit (js ")") +> REol.
Definition PARAM_CMP_REGEX : regex :=
  RBol +> RLit (jsq "param('") +> RGroup 1 re_name +> RLit (jsq "') != nil && param('") +> RGroup 2 re_name
  +> RLit (jsq "') ") +> RGroup 3 (RLit (js ">") <|> RLit (js ">=") <|> RLit (js "<") <|> RLit (js "<="))
  +> RLit (js " ") +> RGroup 4 re_num +> REol.
Definition EQ_REGEX : regex :=
  RBol +> RGroup 1 (RLit (js "param") <|> RLit (js "header")) +> RLit (jsq "('") +> RGroup 2 re_name
  +> RLit (jsq "') == ") +> RGroup 3 (RPlus (RSet dot)) +> REol.

Definition cmp_mode (op : jsstr) : jsstr :=
  if streq op (js ">") then MATCH_GT else if streq op (js ">=") then MATCH_GTE
  else if streq op (js "<") then MATCH_LT else MATCH_LTE.

Definition req_cond (src p md : jsstr) (v : jval) : cond :=
  Cond (Some src) (Some p) (Some md) v None None JUndef JUndef.

(** The outcome of reading a condition: [null], a condition, or the exception
    of a [JSON.parse] that is not caught here. *)
Inductive outcome (A : Type) := Null | Ok (a : A) | Throw.
Arguments Null {A}. Arguments Ok {A} a. Arguments Throw {A}.

Definition parsed_or_throw (t : jsstr) (k : jval → cond) : outcome cond :=
  match parse t with Some v => Ok (k v) | None => Throw end.

(** [parseExprLiteral]: [JNull] stands for the returned [null]. *)
Definition parseExprLiteral (raw : jsstr) : jval :=
  let text := trim raw in
  if is_bool_text text then JStr text
  else if is_numeric text then JStr text
  else match parse text with Some v => v | None => JNull end.

(** The equality branch, given the value of its literal. *)
Definition eq_cond (src p : jsstr) (parsedValue : jval) : outcome cond :=
  match parsedValue with
  | JNull => Null
  | _ => Ok (req_cond src p MATCH_EQ (JStr (String_of parsedValue)))
  end.

Definition tryParseRequestCondition (expr : jsstr) : outcome cond :=
  match tryParseTimeCondition expr with
  | Some c => Ok c
  | None =>
  match re_match HEADER_EXISTS_REGEX expr with
  | Some f => Ok (req_cond SOURCE_HEADER (grp f 1) MATCH_EXISTS (JStr []))
  | None =>
  match re_match PARAM_EXISTS_REGEX expr with
  | Some f => Ok (req_cond SOURCE_PARAM (grp f 1) MATCH_EXISTS (JStr []))
  | None =>
  match re_match HEADER_HAS_REGEX expr with
  | Some f => parsed_or_throw (grp f 2) (req_cond SOURCE_HEADER (grp f 1) MATCH_CONTAINS)
  | None =>
  let next2 :=
    match re_match EQ_REGEX expr with
    | Some f => eq_cond (grp f 1) (grp f 2) (parseExprLiteral (grp f 3))
    | None => Null
    end in
  let next1 :=
    match re_match PARAM_CMP_REGEX expr with
    | Some f => if streq (grp f 1) (grp f 2)
                then Ok (req_cond SOURCE_PARAM (grp f 1) (cmp_mode (grp f 3)) (JStr (grp f 4)))
                else next2
    | None => next2
    end in
  match re_match PARAM_HAS_REGEX expr with
  | Some f => if streq (grp f 1) (grp f 2)
              then parsed_or_throw (grp f 3) (req_cond SOURCE_PARAM (grp f 1) MATCH_CONTAINS)
              else next1
  | None => next1
  end end end end end.

(** [/^\((.+) \? ([\d.eE+-]+) : 1\)$/s] *)
Definition FACTOR_REGEX : regex :=
  RBol +> RLit (js "(") +> RGroup 1 (RPlus (RSet any_unit)) +> RLit (js " ? ") +> RGroup 2 re_num
  +> RLit (js " : 1)") +> REol.

Fixpoint parse_conditions (parts : list jsstr) : outcome (list ncond) :=
  match parts with
  | [] => Ok []
  | ap :: rest =>
    match tryParseRequestCondition (trim ap) with
    | Null => Null
    | Throw => Throw
    | Ok c => match parse_conditions rest with
              | Ok cs => Ok (normalizeCondition c :: cs)
              | o => o
              end
    end
  end.

Definition tryParseRuleGroupFactor (part : jsstr) : outcome ngroup :=
  match re_match FACTOR_REGEX part with
  | None => Null
  | Some f =>
    match parse_conditions (splitTopLevelAnd (grp f 1)) with
    | Ok [] => Null
    | Ok cs => Ok (NGroup cs (grp f 2))
    | Null => Null
    | Throw => Throw
    end
  end.

Fixpoint parse_factors (parts : list jsstr) : outcome (list ngroup) :=
  match parts with
  | [] => Ok []
  | part :: rest =>
    match tryParseRuleGroupFactor part with
    | Null => Null
    | Throw => Throw
    | Ok g => match parse_factors rest with
              | Ok gs => Ok (g :: gs)
              | o => o
              end
    end
  end.

Definition tryParseRequestRuleExpr (expr : option jsstr) : outcome (list ngroup) :=
  let trimmed := trim (default [] expr) in
  if is_empty trimmed then Ok [] else parse_factors (splitTopLevelMultiply trimmed).

(** ** Combining a billing expression with its rules, and splitting it again *)

Fixpoint parens_loop (depth : Z) (s : jsstr) : bool :=
  match s with
  | [] => (depth =? 0)%Z
  | c :: s' => let depth' := depth_step c depth in
               if (depth' =? 0)%Z && negb (is_empty s') then false else parens_loop depth' s'
  end.

Definition hasFullOuterParens (expr : jsstr) : bool :=
  if negb (starts_with (js "(") expr) || negb (ends_with (js ")") expr) then false
  else parens_loop 0 expr.

(** Each round removes the outer pair, so as many rounds as units are enough. *)
Fixpoint unwrap_loop (fuel : nat) (current : jsstr) : jsstr :=
  match fuel with
  | O => current
  | S k => if hasFullOuterParens current then unwrap_loop k (trim (removelast (tail current))) else current
  end.
Definition unwrapOuterParens (expr : option jsstr) : jsstr :=
  let current := trim (default [] expr) in unwrap_loop (length current) current.

Definition combineBillingExpr (baseExpr requestRuleExpr : option jsstr) : jsstr :=
  let base := trim (default [] baseExpr) in
  let rules := trim (default [] requestRuleExpr) in
  if is_empty base then []
  else if is_empty rules then base
  else js "(" ++ base ++ js ") * " ++ rules.

(** Whether a part reads as one or more rules; [None] when reading throws. *)
Definition is_rule_part (part : jsstr) : option bool :=
  match tryParseRequestRuleExpr (Some part) with
  | Throw => None
  | Null => Some false
  | Ok gs => Some (negb (Nat.eqb (length gs) 0))
  end.

(** The [forEach]: rule parts and base parts, in order. *)
Fixpoint partition_parts (parts : list jsstr) : option (list jsstr * list jsstr) :=
  match parts with
  | [] => Some ([], [])
  | p :: rest =>
    b ← is_rule_part p;
    '(rs, bs) ← partition_parts rest;
    Some (if b : bool then (p :: rs, bs) else (rs, p :: bs))
  end.

(** The billing expression and the rule expression; [None] when it throws. *)
Definition splitBillingExprAndRequestRules (expr : option jsstr) : option (jsstr * jsstr) :=
  let trimmed := trim (default [] expr) in
  if is_empty trimmed then Some ([], [])
  else
    let parts := splitTopLevelMultiply trimmed in
    if Nat.leb (length parts) 1 then Some (trimmed, [])
    else
      '(ruleParts, baseParts) ← partition_parts parts;
      match ruleParts, baseParts with
      | _ :: _, [b] => Some (unwrapOuterParens (Some b), join SEP_MUL ruleParts)
      | _, _ => Some (trimmed, [])
      end.

(** Legacy wrapper: a condition together with a multiplier. *)
Definition normalizeRequestRule (rule : cond) (mult : jval) : ncond * jsstr :=
  (normalizeCondition rule, text_or_empty mult).

(** ** Numeric literals *)

Lemma is_numeric_rmatch s : is_numeric s = true →
  ∃ e, rmatch NUMERIC_LITERAL_REGEX (Pos [] s []) e ∧ rgt e = [].
Proof.
  unfold is_numeric, re_test, NUMERIC_LITERAL_REGEX. rewrite search_bol.
  destruct (m _ _ _) as [e|] eqn:E; [|done]. intros _. apply m_sound in E as (e' & Hm & [= ->]).
  exists e. split; [by eapply rm_seq; [by apply rm_bol|done]|].
  repeat match goal with H : rmatch (_ +> _) _ _ |- _ => inversion H; clear H; subst end.
  match goal with H : rmatch REol _ _ |- _ => by inversion H; subst end.
Qed.

Lemma is_numeric_units s : is_numeric s = true → forallb num_char s = true.
Proof.
  intros (e & Hm & He)%is_numeric_rmatch. apply (rmatch_over num_char) in Hm as (t & Ht & Hp).
  - cbn [rgt] in Ht. by rewrite Ht, He, app_nil_r.
  - assert (∀ c, is_digit c = true → num_char c = true) by (intros c Hc; unfold num_char; by rewrite Hc).
    assert (∀ l c, forallb num_char l = true → unit_in l c = true → num_char c = true) as Hin.
    { intros l c Hl Hc%bool_decide_eq_true. apply forallb_Forall in Hl. rewrite Forall_forall in Hl. by apply Hl. }
    repeat split; try done; intros c; by apply Hin.
Qed.

Lemma is_numeric_nonempty s : is_numeric s = true → s ≠ [].
Proof. by intros H ->. Qed.

(** A property of every unit a number may contain is checked unit by unit. *)
Lemma num_char_all (P : N → bool) c :
  forallb P [43; 45; 46; 48; 49; 50; 51; 52; 53; 54; 55; 56; 57; 69; 101]%N = true →
  num_char c = true → P c = true.
Proof.
  intros HP Hc. apply forallb_Forall in HP. rewrite Forall_forall in HP. apply HP.
  unfold num_char, is_digit in Hc. rewrite !elem_of_cons.
  repeat match goal with H : _ || _ = true |- _ => apply orb_true_iff in H as [H|H] end; bool_hyps; lia.
Qed.

Lemma num_chars_all (P : N → bool) s :
  forallb P [43; 45; 46; 48; 49; 50; 51; 52; 53; 54; 55; 56; 57; 69; 101]%N = true →
  forallb num_char s = true → forallb P s = true.
Proof. intros HP. apply forallb_impl. intros c. by apply num_char_all. Qed.

Lemma num_trimmed s : forallb num_char s = true → trimmed s.
Proof. intros H. apply no_ws_trimmed. by apply num_chars_all. Qed.

(** ** What the reader makes of each shape the builder writes *)

Definition name (p : jsstr) : Prop := p ≠ [] ∧ forallb not_quote p = true.
Definition number (v : jsstr) : Prop := v ≠ [] ∧ forallb num_char v = true.

Ltac shape :=
  unfold tryParseRequestCondition, tryParseTimeCondition, TIME_RANGE_REGEX, TIME_WRAPPED_REGEX, TIME_SIMPLE_REGEX,
    HEADER_EXISTS_REGEX, PARAM_EXISTS_REGEX, HEADER_HAS_REGEX, PARAM_HAS_REGEX, PARAM_CMP_REGEX, EQ_REGEX,
    re_range, re_time_fn, re_name, re_num;
  rewrite !re_match_bol; re_lits; cbn [app]; re_run.

(** ** String literals *)

Lemma takes_plain c : c ≠ 34%N → c ≠ 92%N → takes re_str_unit [c].
Proof.
  intros H1 H2. split; [done|]. intros k l rest cs.
  assert (Hc : unit_not_in [34; 92]%N c = true).
  { unfold unit_not_in, unit_in. apply negb_true_iff, bool_decide_eq_false.
    rewrite !elem_of_cons, elem_of_nil. tauto. }
  unfold re_str_unit. rewrite m_alt, m_seq. cbn [app]. rewrite (m_lit_None_cons 92%N []) by done.
  cbn [m rgt]. rewrite Hc. by destruct (k _).
Qed.

Lemma takes_escape d : dot d = true → takes re_str_unit [92%N; d].
Proof.
  intros Hd. split; [done|]. intros k l rest cs. unfold re_str_unit. rewrite m_alt, m_seq. cbn [app].
  change (m (RSet (unit_not_in [34; 92]%N)) k (Pos l (92%N :: d :: rest) cs)) with (@None pos).
  rewrite (m_lit_Some [92%N] _ _ _ _ (d :: rest)) by done. cbn [m rgt]. by rewrite Hd.
Qed.

Lemma hex_digit_takes n : (n < 16)%N → takes re_str_unit [hex_digit n].
Proof. intros H. unfold hex_digit. destruct (N.ltb_spec n 10); apply takes_plain; lia. Qed.

Lemma quote_unit_chunks c : unit_ok c = true →
  ∃ chunks, quote_unit c = concat chunks ∧ Forall (takes re_str_unit) chunks.
Proof.
  intros Hc%N.ltb_lt. unfold quote_unit.
  assert (Hesc : ∀ d, dot d = true → ∃ chunks, [92%N; d] = concat chunks ∧ Forall (takes re_str_unit) chunks).
  { intros d Hd. exists [[92%N; d]]. split; [reflexivity|]. constructor; [by apply takes_escape|constructor]. }
  repeat (case_match; [by apply Hesc|]). case_match.
  - unfold unicode_escape.
    exists [[92; 117]%N; [hex_digit (c / 4096)]; [hex_digit (c / 256 mod 16)]; [hex_digit (c / 16 mod 16)];
            [hex_digit (c mod 16)]]. split; [reflexivity|].
    constructor; [by apply takes_escape|].
    repeat (constructor; [apply hex_digit_takes; first [by apply N.mod_lt | apply N.Div0.div_lt_upper_bound; lia]|]).
    constructor.
  - exists [[c]]. split; [reflexivity|]. constructor; [|constructor].
    apply takes_plain; by apply N.eqb_neq.
Qed.

Lemma quote_body_chunks s : wf_str s →
  ∃ chunks, quote_body s = concat chunks ∧ Forall (takes re_str_unit) chunks.
Proof.
  induction s as [s IH] using (well_founded_induction (well_founded_ltof _ length)). unfold ltof in IH.
  destruct s as [|c [|d s]]; intros Hwf; [by exists []| |].
  - apply quote_unit_chunks. by inversion Hwf.
  - inversion Hwf as [|?? Hc Hwf']; subst. inversion Hwf' as [|?? Hd Hwf'']; subst.
    rewrite quote_body_cons2. case_match; bool_hyps.
    + destruct (IH s) as (ch & -> & Hch); [cbn; lia|done|]. exists ([c] :: [d] :: ch). split; [done|].
      destruct (surrogate_plain c) as (_ & ? & ?); [by rewrite H|].
      destruct (surrogate_plain d) as (_ & ? & ?); [by rewrite H0, orb_true_r|].
      repeat constructor; try done; by apply takes_plain.
    + destruct (IH (d :: s)) as (ch & -> & Hch); [cbn; lia|done|].
      destruct (quote_unit_chunks c) as (ch' & -> & Hch'); [done|].
      exists (ch' ++ ch). rewrite concat_app. split; [done|]. by apply Forall_app.
Qed.

Lemma m_json_str n (k : pos → option pos) s l t cs x :
  wf_str s → k (Pos (rev (quote s) ++ l) t ((n, Some (quote s)) :: cs)) = Some x →
  m (RGroup n re_json_str) k (Pos l (quote s ++ t) cs) = Some x.
Proof.
  intros Hwf Hk. set (st := Pos l (quote s ++ t) cs).
  change (m re_json_str (λ st', k (cap_set n (Some (between st st')) st')) st = Some x).
  unfold re_json_str. rewrite m_seq. unfold st at 2, quote. cbn [app].
  rewrite (m_lit_Some [34%N] _ _ _ _ (quote_body s ++ 34%N :: t)) by (by rewrite <- app_assoc).
  rewrite m_seq. destruct (quote_body_chunks s Hwf) as (ch & Hq & Hch). rewrite Hq.
  apply m_star_chunks; [done|done|done|].
  rewrite (m_lit_Some [34%N] _ _ _ _ t) by done. unfold st. rewrite between_app, <- Hk.
  unfold cap_set, quote. cbn [lft rgt caps rev app]. rewrite Hq, rev_app_distr. cbn [rev app].
  by rewrite <- !app_assoc.
Qed.

Section Shapes.
Context (p v w f : jsstr) (Hp : name p) (Hv : number v) (Hw : number w) (Hf : f ∈ TIME_FUNCS).

Lemma parse_header_exists :
  tryParseRequestCondition (jsq "header('" ++ p ++ jsq "') != ''") =
  Ok (req_cond SOURCE_HEADER p MATCH_EXISTS (JStr [])).
Proof. destruct Hp as [Hp1 Hp2]. shape. reflexivity. Qed.

Lemma parse_param_exists :
  tryParseRequestCondition (jsq "param('" ++ p ++ jsq "') != nil") =
  Ok (req_cond SOURCE_PARAM p MATCH_EXISTS (JStr [])).
Proof. destruct Hp as [Hp1 Hp2]. shape. reflexivity. Qed.

Lemma m_time_fn {A} n (k : pos → option A) l t cs :
  m (RGroup n re_time_fn) k (Pos l (f ++ 40%N :: t) cs) = k (Pos (rev f ++ l) (40%N :: t) ((n, Some f) :: cs)).
Proof.
  unfold re_time_fn. re_lits.
  repeat (apply elem_of_cons in Hf as [->|Hf]); [..|by apply elem_of_nil in Hf].
  all: cbn [app]; re_run; by destruct (k _).
Qed.

Lemma m_wrapped_None {A} (k : pos → option A) l t cs : m (RLit (js "(")) k (Pos l (f ++ t) cs) = None.
Proof.
  apply m_lit_None. repeat (apply elem_of_cons in Hf as [->|Hf]); [..|by apply elem_of_nil in Hf].
  all: reflexivity.
Qed.

Ltac time_shape :=
  unfold tryParseRequestCondition, tryParseTimeCondition, TIME_RANGE_REGEX, TIME_WRAPPED_REGEX, TIME_SIMPLE_REGEX,
    re_range, re_name, re_num;
  rewrite !re_match_bol, ?m_seq, ?m_wrapped_None; re_lits; cbn [app];
  repeat (rewrite ?m_seq, ?m_time_fn; re_step).

Lemma parse_time_simple op :
  op ∈ map js ["=="; ">="; "<"] →
  tryParseRequestCondition (f ++ jsq "('" ++ p ++ jsq "') " ++ op ++ js " " ++ v) =
  Ok (Cond (Some SOURCE_TIME) None (Some (time_mode op)) (JStr v) (Some f) (Some p) (JStr []) (JStr [])).
Proof.
  destruct Hp as [Hp1 Hp2], Hv as [Hv1 Hv2]. intros Hop. rewrite <- (app_nil_r v) at 1.
  repeat (apply elem_of_cons in Hop as [->|Hop]); try (by apply elem_of_nil in Hop).
  all: time_shape; reflexivity.
Qed.

Lemma parse_time_range :
  tryParseRequestCondition (f ++ jsq "('" ++ p ++ jsq "') >= " ++ v ++ js " || " ++ f ++ jsq "('" ++ p ++ jsq "') < " ++ w) =
  Ok (Cond (Some SOURCE_TIME) None (Some MATCH_RANGE) (JStr []) (Some f) (Some p) (JStr v) (JStr w)).
Proof.
  destruct Hp as [Hp1 Hp2], Hv as [Hv1 Hv2], Hw as [Hw1 Hw2]. rewrite <- (app_nil_r w) at 1.
  time_shape. reflexivity.
Qed.

Lemma parse_time_wrapped :
  tryParseRequestCondition (js "(" ++ (f ++ jsq "('" ++ p ++ jsq "') >= " ++ v ++ js " || " ++ f ++ jsq "('" ++ p ++ jsq "') < " ++ w) ++ js ")") =
  Ok (Cond (Some SOURCE_TIME) None (Some MATCH_RANGE) (JStr []) (Some f) (Some p) (JStr v) (JStr w)).
Proof.
  destruct Hp as [Hp1 Hp2], Hv as [Hv1 Hv2], Hw as [Hw1 Hw2]. rewrite <- !app_assoc.
  time_shape. reflexivity.
Qed.
Lemma parse_eq_shape src lit :
  src ∈ [SOURCE_PARAM; SOURCE_HEADER] → lit ≠ [] → forallb dot lit = true → parseExprLiteral lit ≠ JNull →
  tryParseRequestCondition (src ++ jsq "('" ++ p ++ jsq "') == " ++ lit) =
  Ok (req_cond src p MATCH_EQ (JStr (String_of (parseExprLiteral lit)))).
Proof.
  destruct Hp as [Hp1 Hp2]. intros Hsrc Hl1 Hl2 Hnull. rewrite <- (app_nil_r lit) at 1.
  assert (Hok : eq_cond src p (parseExprLiteral lit) =
                Ok (req_cond src p MATCH_EQ (JStr (String_of (parseExprLiteral lit))))).
  { unfold eq_cond. by destruct (parseExprLiteral lit). }
  repeat (apply elem_of_cons in Hsrc as [->|Hsrc]); try (by apply elem_of_nil in Hsrc).
  all: unfold SOURCE_PARAM, SOURCE_HEADER in *; shape; exact Hok.
Qed.

Lemma parse_header_has val :
  wf_str val →
  tryParseRequestCondition (jsq "has(header('" ++ p ++ jsq "'), " ++ quote val ++ js ")") =
  Ok (req_cond SOURCE_HEADER p MATCH_CONTAINS (JStr val)).
Proof.
  destruct Hp as [Hp1 Hp2]. intros Hwf. shape.
  match goal with |- context [m (RGroup ?n re_json_str) ?k (Pos ?l (quote val ++ ?t) ?cs)] =>
    erewrite (m_json_str n k val l t cs); [|done|reflexivity] end.
  transitivity (parsed_or_throw (quote val) (req_cond SOURCE_HEADER p MATCH_CONTAINS)); [reflexivity|].
  unfold parsed_or_throw. by rewrite parse_quote.
Qed.

(** What is left of a comparison of a parameter once the conjunction is split. *)
Lemma parse_param_cmp op rest :
  op ∈ map js [">"; ">="; "<"; "<="] →
  tryParseRequestCondition (jsq "param('" ++ p ++ jsq "') " ++ op ++ js " " ++ rest) = Null.
Proof.
  destruct Hp as [Hp1 Hp2]. intros Hop.
  repeat (apply elem_of_cons in Hop as [->|Hop]); try (by apply elem_of_nil in Hop).
  all: shape; reflexivity.
Qed.

Lemma parse_param_has rest :
  tryParseRequestCondition (jsq "has(param('" ++ rest) = Null.
Proof. shape. reflexivity. Qed.
End Shapes.
