(* ===== verification/RequestRuleRoundTrip.v ===== *)
(** * Request rules survive being stored

    The theorems about the model of [RequestRuleExpr]: what the form stores
    is read back as the same rules, the text is stable, a billing expression
    and its rules come apart again, and which rules do not survive. *)

From S2P Require Import Prelude JsString JsRegex JsNumber Json RequestRuleExpr.

(** ** Normalised conditions *)

Definition valid (n : ncond) : bool :=
  match n with
  | NTime f tz md _ _ _ =>
      in_list f TIME_FUNCS && negb (is_empty tz) && in_list md (getRequestRuleMatchOptions SOURCE_TIME)
  | NReq src _ md _ => in_list src [SOURCE_PARAM; SOURCE_HEADER] && in_list md (getRequestRuleMatchOptions src)
  end.

Lemma in_list_elem x l : in_list x l = true ↔ x ∈ l.
Proof.
  unfold in_list. rewrite existsb_exists. split.
  - intros (y & Hy & ->%streq_true). by apply list_elem_of_In.
  - intros H. exists x. split; [by apply list_elem_of_In|apply streq_refl].
Qed.

Lemma pick_in opts s d : in_list d opts = true → in_list (pick opts s d) opts = true.
Proof. unfold pick. by repeat case_match. Qed.

Lemma source_of_cases c : source_of c = SOURCE_TIME ∨ source_of c = SOURCE_HEADER ∨ source_of c = SOURCE_PARAM.
Proof. unfold source_of. repeat case_match; auto. Qed.

Lemma normalize_valid c : valid (normalizeCondition c) = true.
Proof.
  unfold normalizeCondition. destruct (source_of_cases c) as [->|[->| ->]].
  - change (streq SOURCE_TIME SOURCE_TIME) with true. cbn [valid].
    rewrite !pick_in by done. unfold or_text. by destruct (timezone c) as [[|]|].
  - change (streq SOURCE_HEADER SOURCE_TIME) with false. cbn [valid]. by rewrite pick_in.
  - change (streq SOURCE_PARAM SOURCE_TIME) with false. cbn [valid]. by rewrite pick_in.
Qed.

Lemma normalize_raw n : valid n = true → normalizeCondition (raw n) = n.
Proof.
  destruct n as [f tz md v s e|src p md v]; cbn [valid]; intros H; repeat apply andb_true_iff in H as [H ?].
  - change (normalizeCondition (raw (NTime f tz md v s e))) with
      (NTime (if in_list f TIME_FUNCS then f else js "hour") (or_text (Some tz) (js "Asia/Shanghai"))
         (if in_list md (getRequestRuleMatchOptions SOURCE_TIME) then md else MATCH_GTE) v s e).
    rewrite H, H0. by destruct tz.
  - unfold in_list at 1 in H. cbn [existsb] in H. rewrite orb_false_r in H.
    apply orb_true_iff in H as [->%streq_true| ->%streq_true].
    all: match goal with |- normalizeCondition (raw (NReq ?s _ _ _)) = _ =>
      change (normalizeCondition (raw (NReq s p md v))) with
        (NReq s (or_text (Some p) []) (if in_list md (getRequestRuleMatchOptions s) then md else MATCH_EQ) v) end.
    all: rewrite H0; by destruct p.
Qed.

(** ** Parentheses *)

Definition is_paren (c : N) : bool := (c =? 40)%N || (c =? 41)%N.
Definition no_parens (s : jsstr) : bool := forallb (λ c, negb (is_paren c)) s.

(** The depth after [s], unless it drops below zero on the way. *)
Fixpoint scan (d : Z) (s : jsstr) : option Z :=
  match s with
  | [] => Some d
  | c :: s' => let d' := depth_step c d in if (d' <? 0)%Z then None else scan d' s'
  end.
Definition balanced (s : jsstr) : bool := bool_decide (scan 0 s = Some 0%Z).

Lemma depth_step_plain c d : is_paren c = false → depth_step c d = d.
Proof. unfold is_paren, depth_step. intros [-> ->]%orb_false_iff. done. Qed.

Lemma depth_step_shift c d k : depth_step c (d + k) = (depth_step c d + k)%Z.
Proof. unfold depth_step. repeat case_match; lia. Qed.

Lemma scan_app d a b : scan d (a ++ b) = scan d a ≫= λ d', scan d' b.
Proof. revert d. induction a as [|c a IH]; intros d; cbn; [done|]. case_match; [done|apply IH]. Qed.

Lemma scan_shift d s d' k : (0 ≤ k)%Z → scan d s = Some d' → scan (d + k) s = Some (d' + k)%Z.
Proof.
  intros Hk. revert d. induction s as [|c s IH]; intros d; cbn; [naive_solver|].
  rewrite depth_step_shift. destruct (Z.ltb_spec (depth_step c d) 0); [done|].
  destruct (Z.ltb_spec (depth_step c d + k) 0); [lia|]. apply IH.
Qed.

Lemma scan_plain d s : (0 ≤ d)%Z → no_parens s = true → scan d s = Some d.
Proof.
  intros Hd. induction s as [|c s IH]; cbn; [done|]. intros [Hc Hs]%andb_true_iff. apply negb_true_iff in Hc.
  rewrite depth_step_plain by done. destruct (Z.ltb_spec d 0); [lia|]. auto.
Qed.

Lemma balanced_true s : balanced s = true ↔ scan 0 s = Some 0%Z.
Proof. apply bool_decide_eq_true. Qed.

Lemma balanced_plain s : no_parens s = true → balanced s = true.
Proof. intros H. apply balanced_true. by apply scan_plain. Qed.

Lemma balanced_app a b : balanced a = true → balanced b = true → balanced (a ++ b) = true.
Proof. rewrite !balanced_true, scan_app. intros -> Hb. done. Qed.

Lemma balanced_paren s : balanced s = true → balanced (40%N :: s ++ [41%N]) = true.
Proof.
  rewrite !balanced_true. intros H. change (scan 1 (s ++ [41%N]) = Some 0%Z).
  rewrite scan_app. by rewrite (scan_shift 0 s 0 1 ltac:(done) H : scan 1 s = Some 1%Z).
Qed.

#[export] Hint Resolve balanced_plain balanced_app balanced_paren : js.

(** ** Splitting what was joined *)

(** Scanning [s], with [rest] after it, meets no separator at depth 0. *)
Fixpoint quiet (sep : jsstr) (d : Z) (s rest : jsstr) : option Z :=
  match s with
  | [] => Some d
  | c :: s' => let d' := depth_step c d in
               if (d' =? 0)%Z && starts_with sep (s ++ rest) then None else quiet sep d' s' rest
  end.
Definition closed (sep s : jsstr) : Prop := ∀ rest, quiet sep 0 s rest = Some 0%Z.

Lemma quiet_app sep d a b rest :
  quiet sep d (a ++ b) rest = quiet sep d a (b ++ rest) ≫= λ d', quiet sep d' b rest.
Proof.
  revert d. induction a as [|c a IH]; intros d; [done|].
  change ((c :: a) ++ b) with (c :: (a ++ b)). cbn [quiet app]. rewrite <- app_assoc. case_match; [done|apply IH].
Qed.

Lemma quiet_deep sep k s k' rest d :
  (1 ≤ d)%Z → (0 ≤ k)%Z → scan k s = Some k' → quiet sep (k + d) s rest = Some (k' + d)%Z.
Proof.
  intros Hd. revert k. induction s as [|c s IH]; intros k Hk; cbn [scan quiet]; [naive_solver|].
  rewrite depth_step_shift. destruct (Z.ltb_spec (depth_step c k) 0); [done|].
  destruct (Z.eqb_spec (depth_step c k + d) 0); [lia|]. by apply IH.
Qed.

Lemma split_quiet sep d acc s rest d' :
  quiet sep d s rest = Some d' → split_top sep 0 d acc (s ++ rest) = split_top sep 0 d' (rev s ++ acc) rest.
Proof.
  revert d acc. induction s as [|c s IH]; intros d acc; [naive_solver|]. cbn [quiet split_top app rev].
  case_match; [done|]. intros Hq%(IH _ (c :: acc)). by rewrite Hq, <- app_assoc.
Qed.

Lemma split_skip sep d acc a rest : split_top sep (length a) d acc (a ++ rest) = split_top sep 0 d acc rest.
Proof. induction a as [|c a IH]; [done|]. apply IH. Qed.

Lemma split_top_join c sep parts :
  is_paren c = false → parts ≠ [] → Forall (closed (c :: sep)) parts →
  split_top (c :: sep) 0 0 [] (join (c :: sep) parts) = map trim parts.
Proof.
  intros Hc Hne Hall. induction parts as [|a [|b parts] IH]; [done| |].
  - inversion_clear Hall as [|?? Ha]. cbn [join map]. rewrite <- (app_nil_r a) at 1.
    rewrite (split_quiet _ _ _ _ _ 0) by apply Ha. cbn [split_top]. by rewrite app_nil_r, rev_involutive.
  - inversion_clear Hall as [|?? Ha Hrest]. rewrite join_cons, (split_quiet _ _ _ _ _ 0) by apply Ha.
    cbn [app split_top]. rewrite depth_step_plain by done.
    change (c :: sep ++ ?x) with ((c :: sep) ++ x). rewrite starts_with_app. cbn [andb Z.eqb].
    replace (length (c :: sep) - 1) with (length sep) by (cbn; lia).
    rewrite split_skip, app_nil_r, rev_involutive. cbn [map]. f_equal. by apply IH.
Qed.

(** Text without parentheses in which the separator does not occur, not even
    across its end. *)
Lemma closed_flat sep s e :
  no_parens (s ++ [e]) = true → includes sep (s ++ [e]) = false → e ∉ sep → closed sep (s ++ [e]).
Proof.
  intros Hp Hi He rest. assert (Hpre : ∀ a t, s ++ [e] = a ++ t → t ≠ [] → starts_with sep (t ++ rest) = false).
  { intros a t Hat Ht. apply not_true_is_false. intros (r & Hr)%starts_with_true.
    apply app_eq_app in Hr as (l & [[-> _]|[-> _]]).
    - apply not_true_iff_false in Hi. apply Hi, includes_true. by exists a, l.
    - apply He. destruct t as [|x t _] using rev_ind; [done|].
      rewrite app_assoc in Hat. apply app_inj_tail in Hat as [_ ->].
      rewrite !elem_of_app, list_elem_of_singleton. auto. }
  clear Hi He. revert Hpre Hp. generalize (s ++ [e]) as t. intros t Hpre.
  induction t as [|c t IH]; cbn [quiet]; [done|]. intros [Hc Hp]%andb_true_iff.
  apply negb_true_iff in Hc. rewrite depth_step_plain by done. cbn [Z.eqb andb].
  rewrite (Hpre [] (c :: t)) by done. apply IH; [|done]. intros a' t' -> Ht. by apply (Hpre (c :: a') t').
Qed.

(** A call: closed text, balanced text in parentheses, and closed text. *)
Lemma closed_call c sep a inner b :
  is_paren c = false → closed (c :: sep) a → balanced inner = true → closed (c :: sep) b →
  closed (c :: sep) (a ++ 40%N :: inner ++ 41%N :: b).
Proof.
  intros Hc Ha Hin Hb rest. apply balanced_true in Hin.
  assert (Hno : ∀ d t, is_paren d = true → starts_with (c :: sep) (d :: t) = false).
  { intros d t Hd. unfold starts_with. cbn [strip_prefix]. destruct (N.eqb_spec c d); congruence. }
  rewrite quiet_app, Ha. change (quiet (c :: sep) 1 (inner ++ 41%N :: b) rest = Some 0%Z). rewrite quiet_app.
  rewrite (quiet_deep _ 0 inner 0 _ 1 ltac:(done) ltac:(done) Hin : quiet _ 1 _ _ = Some 1%Z).
  change (quiet (c :: sep) 1 (41%N :: b) rest = Some 0%Z). cbn [quiet app].
  rewrite Hno by done. apply Hb.
Qed.

Lemma balanced_call a inner b :
  balanced a = true → balanced inner = true → balanced b = true →
  balanced (a ++ 40%N :: inner ++ 41%N :: b) = true.
Proof.
  intros Ha Hi Hb. replace (a ++ 40%N :: inner ++ 41%N :: b) with (a ++ (40%N :: inner ++ [41%N]) ++ b).
  - auto with js.
  - cbn [app]. by rewrite <- app_assoc.
Qed.

Lemma closed_nil sep : closed sep [].
Proof. done. Qed.

(** ** Reading a group *)

Lemma trimmed_ends c s d : is_ws c = false → is_ws d = false → trimmed (c :: s ++ [d]).
Proof. intros Hc Hd. split; [done|]. exists d. split; [|done]. by rewrite app_comm_cons, last_snoc. Qed.

(** [part] is text the reader takes for the condition [n]. *)
Record readable (part : jsstr) (n : ncond) : Prop := {
  rd_trimmed : trimmed part;
  rd_nonempty : part ≠ [];
  rd_closed : closed SEP_AND part;
  rd_balanced : balanced part = true;
  rd_parse : ∃ c, tryParseRequestCondition part = Ok c ∧ normalizeCondition c = n }.

Lemma parse_parts parts ns :
  Forall2 readable parts ns → parts ≠ [] →
  parse_conditions (splitTopLevelAnd (join SEP_AND parts)) = Ok ns.
Proof.
  intros Hr Hne. unfold splitTopLevelAnd, SEP_AND. rewrite split_top_join; [|done|done|].
  - assert (map trim parts = parts) as ->.
    { clear Hne. induction Hr as [|part n parts ns Hp _ IH]; [done|]. cbn [map].
      by rewrite IH, trim_trimmed by apply Hp. }
    rewrite filter_truthy_id.
    + clear Hne. induction Hr as [|part n parts ns Hp _ IH]; [done|]. cbn [parse_conditions].
      rewrite trim_trimmed by apply Hp. destruct Hp as [_ _ _ _ (c & -> & <-)]. by rewrite IH.
    + eapply Forall2_fst; [|exact Hr]. intros ?? Hp. apply Hp.
  - eapply Forall2_fst; [|exact Hr]. intros ?? Hp. apply Hp.
Qed.

(** The condition text ends at the last [ ? ]. *)
Lemma star_any_last (k : pos → option pos) a b l cs x :
  (∀ b1 b2 l', b = b1 ++ b2 → b1 ≠ [] → k (Pos l' b2 cs) = None) →
  k (Pos (rev a ++ l) b cs) = Some x → star_set any_unit k l (a ++ b) cs = Some x.
Proof.
  intros Hlater. assert (Hb : ∀ l', k (Pos l' b cs) = Some x → star_set any_unit k l' b cs = Some x).
  { intros l'. destruct b as [|c b]; cbn [star_set]; [done|]. intros Hx.
    rewrite star_set_None; [done|]. intros b1 b2 -> _. by apply (Hlater (c :: b1)). }
  revert l. induction a as [|c a IH]; intros l Hk; cbn [app star_set].
  - by apply Hb.
  - cbn [any_unit]. rewrite IH; [done|]. cbn [rev] in Hk. by rewrite <- app_assoc in Hk.
Qed.

Lemma m_group_any n (k : pos → option pos) a b l cs x :
  a ≠ [] → (∀ b1 b2 l' cs', b = b1 ++ b2 → b1 ≠ [] → k (Pos l' b2 cs') = None) →
  k (Pos (rev a ++ l) b ((n, Some a) :: cs)) = Some x →
  m (RGroup n (RPlus (RSet any_unit))) k (Pos l (a ++ b) cs) = Some x.
Proof.
  destruct a as [|c a]; [done|]. intros _ Hlater Hk. set (st := Pos l ((c :: a) ++ b) cs).
  change (m (RStar true (RSet any_unit)) (λ st', k (cap_set n (Some (between st st')) st'))
            (Pos (c :: l) (a ++ b) cs) = Some x).
  rewrite m_star_set. apply star_any_last.
  - intros b1 b2 l' Hb Hne. by apply (Hlater b1).
  - cbn [rev] in Hk. rewrite <- app_assoc in Hk. rewrite <- Hk.
    unfold st. by rewrite between_app.
Qed.

Lemma no_later_question b1 b2 r mult :
  forallb num_char mult = true → [32; 63; 32]%N ++ mult ++ [32; 58; 32; 49; 41]%N = b1 ++ b2 → b1 ≠ [] →
  b2 ≠ [32; 63; 32]%N ++ r.
Proof.
  intros Hm Hb Hne ->. destruct b1 as [|x1 [|x2 b1]]; [done|done|]. injection Hb as _ _ Hb.
  assert (H63 : 63%N ∈ 32%N :: mult ++ [32; 58; 32; 49; 41]%N).
  { rewrite Hb, elem_of_app, !elem_of_cons. auto. }
  rewrite elem_of_cons, elem_of_app in H63. destruct H63 as [?|[Hin|Hin]]; [done| |].
  - apply forallb_Forall in Hm. rewrite Forall_forall in Hm. by apply Hm in Hin.
  - by repeat (apply elem_of_cons in Hin as [?|Hin]); try (by apply elem_of_nil in Hin).
Qed.

Lemma factor_match combined mult :
  combined ≠ [] → number mult →
  ∃ f, re_match FACTOR_REGEX (factor_text combined mult) = Some f ∧ grp f 1 = combined ∧ grp f 2 = mult.
Proof.
  intros Hc [Hm1 Hm2]. unfold FACTOR_REGEX, factor_text, re_num. rewrite re_match_bol, m_seq.
  re_lits. change ([40%N] ++ ?t) with (40%N :: t).
  rewrite (m_lit_Some [40%N] _ _ _ _ (combined ++ [32; 63; 32]%N ++ mult ++ [32; 58; 32; 49; 41]%N)) by done.
  rewrite m_seq. erewrite m_group_any; [|done| |re_run; reflexivity].
  - eexists. split; [reflexivity|]. split; reflexivity.
  - intros b1 b2 l' cs' Hb Hne. rewrite m_seq. apply m_lit_None, not_true_is_false.
    rewrite starts_with_true. intros (r & ->). by eapply no_later_question.
Qed.

Lemma trimmed_app a x b : a ≠ [] → b ≠ [] → trimmed a → trimmed b → trimmed (a ++ x ++ b).
Proof.
  destruct a as [|c a]; [done|]. destruct b as [|d b]; [done|]. intros _ _ [Hc _] (_ & e & He & Hw).
  split; [done|]. exists e. split; [|done].
  by rewrite !last_app, He.
Qed.

Lemma trimmed_join sep parts :
  Forall (λ t, trimmed t ∧ t ≠ []) parts → parts ≠ [] → trimmed (join sep parts) ∧ join sep parts ≠ [].
Proof.
  induction 1 as [|a parts [Ha Hne] _ IH]; [done|]. intros _. destruct parts as [|b parts]; [done|].
  rewrite join_cons. destruct IH as [H1 H2]; [done|]. split; [by apply trimmed_app|]. by destruct a.
Qed.

Lemma balanced_join sep parts :
  balanced sep = true → Forall (λ t, balanced t = true) parts → balanced (join sep parts) = true.
Proof.
  intros Hs. induction 1 as [|a parts Ha Hp IH]; [done|]. destruct parts as [|b parts]; [done|].
  rewrite join_cons. auto with js.
Qed.

Lemma parse_factor parts ns mult :
  Forall2 readable parts ns → parts ≠ [] → number mult →
  tryParseRuleGroupFactor (factor_text (join SEP_AND parts) mult) = Ok (NGroup ns mult).
Proof.
  intros Hr Hne Hm. destruct (trimmed_join SEP_AND parts) as [_ Hj]; [|done|].
  { eapply Forall2_fst; [|exact Hr]. intros ?? Hp. split; apply Hp. }
  destruct (factor_match _ mult Hj Hm) as (f & Hf & H1 & H2). unfold tryParseRuleGroupFactor.
  rewrite Hf, H1, H2, (parse_parts parts ns) by done. by destruct Hr.
Qed.

(** A factor stands on its own in a product. *)
Record factor_reads (t : jsstr) (g : ngroup) : Prop := {
  fr_parse : tryParseRuleGroupFactor t = Ok g;
  fr_closed : closed SEP_MUL t;
  fr_trimmed : trimmed t;
  fr_nonempty : t ≠ [];
  fr_balanced : balanced t = true }.

Lemma number_no_parens v : number v → no_parens v = true.
Proof. intros [_ H]. by apply num_chars_all. Qed.

Lemma factor_text_paren combined mult :
  factor_text combined mult = 40%N :: (combined ++ js " ? " ++ mult ++ js " : 1") ++ [41%N].
Proof. unfold factor_text. rewrite <- !app_assoc. reflexivity. Qed.

Lemma factor_reads_text parts ns mult :
  Forall2 readable parts ns → parts ≠ [] → number mult →
  factor_reads (factor_text (join SEP_AND parts) mult) (NGroup ns mult).
Proof.
  intros Hr Hne Hm.
  assert (Hb : balanced (join SEP_AND parts ++ js " ? " ++ mult ++ js " : 1") = true).
  { apply balanced_app; [|apply balanced_app; [|apply balanced_app]]; try done.
    - apply balanced_join; [done|]. eapply Forall2_fst; [|exact Hr]. intros ?? Hp. apply Hp.
    - by apply balanced_plain, number_no_parens. }
  constructor.
  - by apply parse_factor.
  - rewrite factor_text_paren. apply (closed_call _ _ []); done.
  - rewrite factor_text_paren. by apply trimmed_ends.
  - rewrite factor_text_paren. done.
  - rewrite factor_text_paren. by apply balanced_paren.
Qed.

Lemma split_factors ts gs :
  Forall2 factor_reads ts gs → ts ≠ [] → splitTopLevelMultiply (join SEP_MUL ts) = ts.
Proof.
  intros Hf Hne. unfold splitTopLevelMultiply, SEP_MUL.
  rewrite split_top_join; [|done|done|eapply Forall2_fst; [|exact Hf]; intros ?? Hp; apply Hp].
  assert (map trim ts = ts) as ->.
  { clear Hne. induction Hf as [|??? ? Hp _ IH]; [done|]. cbn [map]. by rewrite IH, trim_trimmed by apply Hp. }
  apply filter_truthy_id. eapply Forall2_fst; [|exact Hf]. intros ?? Hp. apply Hp.
Qed.

Lemma join_factors_trimmed ts gs : Forall2 factor_reads ts gs → trimmed (join SEP_MUL ts).
Proof.
  intros Hf. destruct ts as [|t ts]; [done|]. apply trimmed_join; [|done].
  eapply Forall2_fst; [|exact Hf]. intros ?? Hp. split; apply Hp.
Qed.

Lemma parse_factors_reads ts gs : Forall2 factor_reads ts gs → parse_factors ts = Ok gs.
Proof. induction 1 as [|??? ? Hp _ IH]; [done|]. cbn [parse_factors]. by rewrite (fr_parse _ _ Hp), IH. Qed.

Lemma parse_product ts gs :
  Forall2 factor_reads ts gs → tryParseRequestRuleExpr (Some (join SEP_MUL ts)) = Ok gs.
Proof.
  intros Hf. unfold tryParseRequestRuleExpr. cbn [default id].
  rewrite trim_trimmed by (by eapply join_factors_trimmed).
  destruct ts as [|t ts]; [by inversion Hf|].
  destruct (is_empty _) eqn:He.
  - apply is_empty_true in He. exfalso. revert He. apply trimmed_join; [|done].
    eapply Forall2_fst; [|exact Hf]. intros ?? Hp. split; apply Hp.
  - erewrite split_factors by done. by apply parse_factors_reads.
Qed.

(** ** Reading the condition the builder wrote *)

Definition name_ok (s : jsstr) : bool :=
  negb (is_empty s) && streq (quote_body s) s && forallb not_quote s && no_parens s.

Lemma name_ok_spec s : name_ok s = true → name s ∧ quote s = 34%N :: s ++ [34%N] ∧ no_parens s = true.
Proof.
  unfold name_ok, name, quote. intros H. repeat apply andb_true_iff in H as [H ?].
  apply streq_true in H2. rewrite H2. by destruct s.
Qed.

Definition quoted (s : jsstr) : jsstr := 34%N :: s ++ [34%N].

Lemma quoted_balanced s : no_parens s = true → balanced (quoted s) = true.
Proof.
  intros H. apply balanced_plain. unfold quoted, no_parens. cbn [forallb]. rewrite forallb_app. cbn [forallb].
  fold (no_parens s). by rewrite H.
Qed.

Definition ends_ok (b : jsstr) : Prop := match last b with Some e => is_ws e = false | None => True end.

Lemma trimmed_call a inner b :
  a ≠ [] → trimmed a → ends_ok b → trimmed (a ++ 40%N :: inner ++ 41%N :: b).
Proof.
  destruct a as [|d a]; [done|]. intros _ [Hd _] He. split; [done|].
  exists (default 41%N (last b)). unfold ends_ok in He.
  change (40%N :: inner ++ 41%N :: b) with ((40%N :: inner) ++ 41%N :: b).
  rewrite !last_app, last_cons. by destruct (last b).
Qed.

Lemma readable_call a inner b c :
  a ≠ [] → trimmed a → closed SEP_AND a → balanced a = true → balanced inner = true →
  closed SEP_AND b → balanced b = true → ends_ok b →
  tryParseRequestCondition (a ++ 40%N :: inner ++ 41%N :: b) = Ok c →
  readable (a ++ 40%N :: inner ++ 41%N :: b) (normalizeCondition c).
Proof.
  intros Hne Ht Ha Hba Hi Hb Hbb He Hp. constructor.
  - by apply trimmed_call.
  - by destruct a.
  - by apply closed_call.
  - by apply balanced_call.
  - by exists c.
Qed.

(** Text with neither parentheses nor ampersands. *)
Definition plain (s : jsstr) : bool := forallb (λ c, negb (is_paren c) && negb (c =? 38)%N) s.

Lemma plain_app a b : plain a = true → plain b = true → plain (a ++ b) = true.
Proof. unfold plain. rewrite forallb_app. by intros -> ->. Qed.

Lemma plain_no_parens s : plain s = true → no_parens s = true.
Proof. apply forallb_impl. by intros c [? _]%andb_true_iff. Qed.

Lemma plain_balanced s : plain s = true → balanced s = true.
Proof. intros H. by apply balanced_plain, plain_no_parens. Qed.

Lemma plain_includes s : plain s = true → includes SEP_AND s = false.
Proof.
  intros H. apply not_true_is_false. intros (a & b & ->)%includes_true. unfold plain in H.
  rewrite !forallb_app in H. apply andb_true_iff in H as [_ H]. by cbn in H.
Qed.

Lemma plain_number v : number v → plain v = true.
Proof. intros [_ H]. by apply num_chars_all. Qed.

#[local] Hint Resolve plain_app plain_balanced plain_number : js.

(** Plain text that ends in neither a blank nor an ampersand. *)
Lemma closed_plain s e : plain (s ++ [e]) = true → e ∉ SEP_AND → closed SEP_AND (s ++ [e]).
Proof. intros H He. apply closed_flat; [by apply plain_no_parens|by apply plain_includes|done]. Qed.

Lemma last_unit (P : N → bool) s : s ≠ [] → forallb P s = true → ∃ a e, s = a ++ [e] ∧ P e = true.
Proof.
  destruct s as [|e a _] using rev_ind; [done|]. rewrite forallb_app. intros _ [_ H]%andb_true_iff.
  exists a, e. split; [done|]. cbn [forallb] in H. by rewrite andb_true_r in H.
Qed.

Definition not_sep (c : N) : bool := negb (c =? 32)%N && negb (c =? 38)%N.
Lemma not_sep_and c : not_sep c = true → c ∉ SEP_AND.
Proof.
  intros [?%negb_true_iff%N.eqb_neq ?%negb_true_iff%N.eqb_neq]%andb_true_iff. unfold SEP_AND.
  rewrite !elem_of_cons, elem_of_nil. tauto.
Qed.

Lemma closed_word x w :
  plain x = true → plain w = true → w ≠ [] → forallb not_sep w = true → closed SEP_AND (x ++ w).
Proof.
  intros Hx Hw Hne (a & e & -> & He)%last_unit; [|done]. rewrite app_assoc.
  apply closed_plain; [|by apply not_sep_and]. rewrite <- app_assoc. auto with js.
Qed.

Lemma closed_number x v : plain x = true → number v → closed SEP_AND (x ++ v).
Proof. intros Hx Hv. apply closed_word; auto with js; [apply Hv|]. by apply num_chars_all, Hv. Qed.

Lemma ends_number x v : number v → ends_ok (x ++ v).
Proof.
  intros [Hne Hn]. apply (num_chars_all (λ c, negb (is_ws c))) in Hn; [|done].
  apply last_unit in Hn as (a & e & -> & He); [|done]. unfold ends_ok. rewrite app_assoc, last_snoc.
  by apply negb_true_iff.
Qed.

Lemma time_func_facts f : f ∈ TIME_FUNCS → f ≠ [] ∧ trimmed f ∧ plain f = true ∧ forallb not_sep f = true.
Proof.
  intros H. assert (forallb (λ f, negb (is_empty f) && plain f && forallb (λ c, negb (is_ws c)) f
                                  && forallb not_sep f) TIME_FUNCS = true) as Hall by done.
  apply forallb_Forall in Hall. rewrite Forall_forall in Hall. apply Hall in H. clear Hall.
  repeat apply andb_true_iff in H as [H ?]. split; [by destruct f|]. split; [by apply no_ws_trimmed|]. done.
Qed.

Lemma closed_func x f : plain x = true → f ∈ TIME_FUNCS → closed SEP_AND (x ++ f).
Proof. intros Hx (? & ? & ? & ?)%time_func_facts. by apply closed_word. Qed.

Section Readable.
Context (p : jsstr) (Hname : name p) (Hparens : no_parens p = true).

Lemma readable_text t a b c n :
  t = a ++ 40%N :: quoted p ++ 41%N :: b →
  a ≠ [] ∧ trimmed a ∧ closed SEP_AND a ∧ balanced a = true →
  closed SEP_AND b ∧ balanced b = true ∧ ends_ok b →
  tryParseRequestCondition t = Ok c → normalizeCondition c = n → readable t n.
Proof.
  intros -> (?&?&?&?) (?&?&?) Hp <-. apply readable_call; try done. by apply quoted_balanced.
Qed.

Ltac call_text := unfold quoted; cbn [app]; rewrite <- ?app_assoc; reflexivity.
Ltac plain_text := repeat split; try done; eexists; split; reflexivity.

Lemma readable_header_exists :
  readable (jsq "header('" ++ p ++ jsq "') != ''") (NReq SOURCE_HEADER p MATCH_EXISTS []).
Proof.
  eapply (readable_text _ (js "header") (jsq " != ''")); [call_text|plain_text|plain_text| |].
  - by apply parse_header_exists.
  - destruct Hname. by destruct p.
Qed.

Lemma readable_param_exists :
  readable (jsq "param('" ++ p ++ jsq "') != nil") (NReq SOURCE_PARAM p MATCH_EXISTS []).
Proof.
  eapply (readable_text _ (js "param") (js " != nil")); [call_text|plain_text|plain_text| |].
  - by apply parse_param_exists.
  - destruct Hname. by destruct p.
Qed.

Lemma readable_eq src lit v :
  src ∈ [SOURCE_PARAM; SOURCE_HEADER] → forallb dot lit = true → parseExprLiteral lit = JStr v →
  closed SEP_AND (js " == " ++ lit) → no_parens lit = true → ends_ok lit → lit ≠ [] →
  readable (src ++ jsq "('" ++ p ++ jsq "') == " ++ lit) (NReq src p MATCH_EQ v).
Proof.
  intros Hsrc Hdot Hparse Hcl Hlp Hends Hne.
  eapply (readable_text _ src (js " == " ++ lit)); [call_text| | | |].
  - repeat (apply elem_of_cons in Hsrc as [->|Hsrc]); [plain_text|plain_text|by apply elem_of_nil in Hsrc].
  - split; [done|]. split; [apply balanced_app; [done|by apply balanced_plain]|].
    unfold ends_ok in *. rewrite last_app. destruct (last lit) eqn:E; [done|]. by apply last_None in E.
  - apply parse_eq_shape; try done. by rewrite Hparse.
  - rewrite Hparse. destruct Hname.
    repeat (apply elem_of_cons in Hsrc as [->|Hsrc]); [by destruct p|by destruct p|by apply elem_of_nil in Hsrc].
Qed.

Lemma readable_time_simple f op v :
  f ∈ TIME_FUNCS → op ∈ map js ["=="; ">="; "<"] → number v →
  readable (f ++ jsq "('" ++ p ++ jsq "') " ++ op ++ js " " ++ v) (NTime f p (time_mode op) v [] []).
Proof.
  intros Hf Hop Hv. pose proof (time_func_facts f Hf) as (Hne & Ht & Hp & _).
  assert (Hops : plain (js " " ++ op ++ js " ") = true).
  { by repeat (apply elem_of_cons in Hop as [->|Hop]); try (by apply elem_of_nil in Hop). }
  eapply (readable_text _ f ((js " " ++ op ++ js " ") ++ v)); [call_text| | | |].
  - split; [done|]. split; [done|]. split; [by apply (closed_func [])|]. by apply plain_balanced.
  - split; [by apply closed_number|]. split; [auto with js|by apply ends_number].
  - by apply parse_time_simple.
  - apply (normalize_raw (NTime f p (time_mode op) v [] [])). cbn [valid].
    rewrite (proj2 (in_list_elem f TIME_FUNCS) Hf). destruct Hname. destruct p; [done|].
    by repeat (apply elem_of_cons in Hop as [->|Hop]); try (by apply elem_of_nil in Hop).
Qed.

Lemma range_call f v w :
  f ++ jsq "('" ++ p ++ jsq "') >= " ++ v ++ js " || " ++ f ++ jsq "('" ++ p ++ jsq "') < " ++ w =
  f ++ 40%N :: quoted p ++ 41%N ::
    ((js " >= " ++ v ++ js " || ") ++ f) ++ 40%N :: quoted p ++ 41%N :: js " < " ++ w.
Proof. unfold quoted. cbn [app]. rewrite <- !app_assoc. reflexivity. Qed.

Lemma valid_range f v w : f ∈ TIME_FUNCS → valid (NTime f p MATCH_RANGE [] v w) = true.
Proof.
  intros Hf. cbn [valid]. rewrite (proj2 (in_list_elem f TIME_FUNCS) Hf). destruct Hname. by destruct p.
Qed.

Lemma readable_time_range f v w :
  f ∈ TIME_FUNCS → number v → number w →
  readable (f ++ jsq "('" ++ p ++ jsq "') >= " ++ v ++ js " || " ++ f ++ jsq "('" ++ p ++ jsq "') < " ++ w)
           (NTime f p MATCH_RANGE [] v w).
Proof.
  intros Hf Hv Hw. pose proof (time_func_facts f Hf) as (Hne & Ht & Hp & _).
  assert (Hmid : plain (js " >= " ++ v ++ js " || ") = true) by (repeat apply plain_app; auto with js).
  assert (Hlt : plain (js " < ") = true) by done.
  eapply readable_text; [apply range_call| | | |].
  - split; [done|]. split; [done|]. split; [by apply (closed_func [])|]. by apply plain_balanced.
  - split; [|split].
    + apply closed_call; [done|by apply closed_func|by apply quoted_balanced|by apply closed_number].
    + apply balanced_call; [auto with js|by apply quoted_balanced|auto with js].
    + rewrite app_comm_cons, app_comm_cons, !app_assoc. by apply ends_number.
  - by apply parse_time_range.
  - by apply (normalize_raw (NTime f p MATCH_RANGE [] v w)), valid_range.
Qed.

Lemma readable_time_wrapped f v w :
  f ∈ TIME_FUNCS → number v → number w →
  readable (js "(" ++ (f ++ jsq "('" ++ p ++ jsq "') >= " ++ v ++ js " || " ++ f ++ jsq "('" ++ p ++ jsq "') < " ++ w) ++ js ")")
           (NTime f p MATCH_RANGE [] v w).
Proof.
  intros Hf Hv Hw. pose proof (readable_time_range f v w Hf Hv Hw) as [_ _ _ Hb _].
  pose proof (parse_time_wrapped p v w f Hname Hv Hw Hf) as Hp. revert Hp Hb.
  generalize (f ++ jsq "('" ++ p ++ jsq "') >= " ++ v ++ js " || " ++ f ++ jsq "('" ++ p ++ jsq "') < " ++ w) as t.
  intros t Hp Hb. change (js "(" ++ t ++ js ")") with (40%N :: t ++ [41%N]) in *. constructor.
  - by apply trimmed_ends.
  - done.
  - by apply (closed_call _ _ []).
  - by apply balanced_paren.
  - eexists. split; [exact Hp|]. by apply (normalize_raw (NTime f p MATCH_RANGE [] v w)), valid_range.
Qed.

Lemma readable_header_has v :
  wf_str v → no_parens (quote v) = true →
  readable (jsq "has(header('" ++ p ++ jsq "'), " ++ quote v ++ js ")") (NReq SOURCE_HEADER p MATCH_CONTAINS v).
Proof.
  intros Hwf Hq. set (inner := js "header" ++ 40%N :: quoted p ++ 41%N :: js ", " ++ quote v).
  assert (He : jsq "has(header('" ++ p ++ jsq "'), " ++ quote v ++ js ")" = js "has" ++ 40%N :: inner ++ 41%N :: []).
  { unfold inner, quoted. rewrite <- !app_assoc. cbn [app]. rewrite <- !app_assoc. reflexivity. }
  rewrite He. eassert (normalizeCondition _ = _) as <-; [|apply readable_call].
  4: { intros rest. reflexivity. }
  all: try done.
  - by apply (normalize_raw (NReq SOURCE_HEADER p MATCH_CONTAINS v)).
  - by apply no_ws_trimmed.
  - apply balanced_call; [done|by apply quoted_balanced|]. apply balanced_app; [done|by apply balanced_plain].
  - rewrite <- He. by apply parse_header_has.
Qed.
End Readable.

(** ** The builder sees only the normalised condition *)

Definition is_time (n : ncond) : bool := match n with NTime _ _ _ _ _ _ => true | NReq _ _ _ _ => false end.

Lemma source_is_time c : streq (default [] (source c)) SOURCE_TIME = is_time (normalizeCondition c).
Proof.
  unfold normalizeCondition, source_of. destruct (source c) as [s|]; cbn [default id]; [|done].
  destruct (streq s SOURCE_TIME) eqn:E; [done|]. by destruct (streq s SOURCE_HEADER).
Qed.

Lemma build_raw c : buildRequestConditionExpr (raw (normalizeCondition c)) = buildRequestConditionExpr c.
Proof.
  unfold buildRequestConditionExpr, buildTimeConditionExpr.
  by rewrite !source_is_time, !(normalize_raw _ (normalize_valid c)).
Qed.

(** What the form shows after reading: trimmed texts, unused fields blank. *)
Definition view (n : ncond) : ncond :=
  match n with
  | NTime f tz md v s e =>
      if streq md MATCH_RANGE then NTime f tz md [] (trim s) (trim e) else NTime f tz md (trim v) [] []
  | NReq src p md v => NReq src (trim p) md (if streq md MATCH_EXISTS then [] else trim v)
  end.

(** The conditions whose text can be read back. *)
Definition rt_cond (n : ncond) : bool :=
  match n with
  | NTime _ tz _ _ _ _ => name_ok tz
  | NReq src p md v =>
    name_ok (trim p) &&
    (if streq md MATCH_EXISTS then true
     else if streq md MATCH_CONTAINS
     then streq src SOURCE_HEADER && forallb unit_ok (trim v) && no_parens (quote (trim v))
     else if streq md MATCH_EQ
     then let lit := buildExprLiteral md v in
          forallb unit_ok (trim v) && no_parens lit && forallb dot lit && negb (includes SEP_AND (js " == " ++ lit))
     else false)
  end.

Lemma is_numeric_number v : is_numeric v = true → number v.
Proof. intros H. split; [by apply is_numeric_nonempty|by apply is_numeric_units]. Qed.

Lemma quote_not_numeric s : is_numeric (quote s) = false.
Proof. apply not_true_is_false. intros H%is_numeric_units. by cbn in H. Qed.

Lemma quote_not_bool s : is_bool_text (quote s) = false.
Proof. unfold is_bool_text. apply orb_false_iff. split; by apply streq_false. Qed.

Lemma parse_literal v : forallb unit_ok (trim v) = true →
  parseExprLiteral (buildExprLiteral MATCH_EQ v) = JStr (trim v).
Proof.
  intros Hwf. unfold buildExprLiteral. change (streq MATCH_EQ MATCH_CONTAINS) with false. cbn iota.
  unfold parseExprLiteral. destruct (is_bool_text (trim v)) eqn:Eb; [by rewrite trim_idemp, Eb|].
  destruct (is_numeric (trim v)) eqn:En; [by rewrite trim_idemp, Eb, En|].
  rewrite trim_trimmed by by apply trimmed_ends.
  rewrite quote_not_bool, quote_not_numeric, parse_quote; [done|by apply wf_str_forallb].
Qed.

Definition end_unit (c : N) : bool := negb (is_ws c) && not_sep c.

Lemma literal_end v : ∃ a e, buildExprLiteral MATCH_EQ v = a ++ [e] ∧ end_unit e = true.
Proof.
  unfold buildExprLiteral. change (streq MATCH_EQ MATCH_CONTAINS) with false. cbn iota.
  destruct (is_bool_text (trim v)) eqn:Eb.
  - unfold is_bool_text in Eb. apply orb_true_iff in Eb as [->%streq_true| ->%streq_true].
    + by exists (js "tru"), 101%N.
    + by exists (js "fals"), 101%N.
  - destruct (is_numeric (trim v)) eqn:En.
    + apply is_numeric_number in En as [Hne Hn]. apply last_unit; [done|]. by apply num_chars_all.
    + exists (34%N :: quote_body (trim v)), 34%N. done.
Qed.

Lemma readable_eq_built src p v :
  name p → no_parens p = true → src ∈ [SOURCE_PARAM; SOURCE_HEADER] →
  let lit := buildExprLiteral MATCH_EQ v in
  forallb unit_ok (trim v) && no_parens lit && forallb dot lit && negb (includes SEP_AND (js " == " ++ lit)) = true →
  readable (src ++ jsq "('" ++ p ++ jsq "') == " ++ lit) (NReq src p MATCH_EQ (trim v)).
Proof.
  intros Hn Hp Hsrc lit H. repeat apply andb_true_iff in H as [H ?]. apply negb_true_iff in H0.
  destruct (literal_end v) as (a & e & Ha & He). fold lit in Ha. apply andb_true_iff in He as [He1 He2].
  apply readable_eq; try done.
  - by apply parse_literal.
  - rewrite Ha in *. rewrite app_assoc. apply closed_flat; [|by rewrite <- app_assoc|by apply not_sep_and].
    rewrite <- app_assoc. unfold no_parens in *. by rewrite forallb_app, H2.
  - rewrite Ha. unfold ends_ok. rewrite last_snoc. by apply negb_true_iff.
  - rewrite Ha. by destruct a.
Qed.

Lemma time_fn_name f tz : name_ok tz = true → time_fn f tz = f ++ jsq "('" ++ tz ++ jsq "')".
Proof. intros (_ & Hq & _)%name_ok_spec. unfold time_fn. rewrite Hq. cbn [app]. by rewrite <- !app_assoc. Qed.

Definition range_text (f tz s e : jsstr) : jsstr :=
  f ++ jsq "('" ++ tz ++ jsq "') >= " ++ s ++ js " || " ++ f ++ jsq "('" ++ tz ++ jsq "') < " ++ e.

Lemma build_time f tz md v s e :
  valid (NTime f tz md v s e) = true → name_ok tz = true →
  buildRequestConditionExpr (raw (NTime f tz md v s e)) =
  if streq md MATCH_RANGE
  then if negb (is_numeric (trim s)) || negb (is_numeric (trim e)) then [] else range_text f tz (trim s) (trim e)
  else if negb (is_numeric (trim v)) then []
       else f ++ jsq "('" ++ tz ++ jsq "') " ++ time_op md ++ js " " ++ trim v.
Proof.
  intros Hv Hn. unfold buildRequestConditionExpr. rewrite source_is_time, normalize_raw by done. cbn [is_time].
  unfold buildTimeConditionExpr. rewrite normalize_raw, time_fn_name by done.
  unfold range_text. rewrite <- !app_assoc. reflexivity.
Qed.

Lemma time_op_mode md :
  md ∈ getRequestRuleMatchOptions SOURCE_TIME → md ≠ MATCH_RANGE →
  time_op md ∈ map js ["=="; ">="; "<"] ∧ time_mode (time_op md) = md.
Proof.
  intros H Hr. change (getRequestRuleMatchOptions SOURCE_TIME) with [MATCH_EQ; MATCH_GTE; MATCH_LT; MATCH_RANGE] in H.
  repeat (apply elem_of_cons in H as [->|H]); [..|by apply elem_of_nil in H]; try done.
  all: split; [by apply in_list_elem|done].
Qed.

Definition is_range (n : ncond) : bool :=
  match n with NTime _ _ md _ _ _ => streq md MATCH_RANGE | NReq _ _ _ _ => false end.

Lemma build_time_readable f tz md v s e :
  let n := NTime f tz md v s e in
  valid n = true → rt_cond n = true → buildRequestConditionExpr (raw n) ≠ [] →
  readable (buildRequestConditionExpr (raw n)) (view n) ∧
  (is_range n = true → readable (js "(" ++ buildRequestConditionExpr (raw n) ++ js ")") (view n)).
Proof.
  intros n Hv Hrt Hne. unfold n in *. cbn [rt_cond] in Hrt. rewrite build_time in * by done.
  pose proof (name_ok_spec tz Hrt) as (Hn & _ & Hp).
  cbn [valid] in Hv. repeat apply andb_true_iff in Hv as [Hv ?]. apply in_list_elem in Hv.
  cbn [is_range view]. destruct (streq md MATCH_RANGE) eqn:Er.
  - apply streq_true in Er as ->. destruct (is_numeric (trim s)) eqn:Es; [|done].
    destruct (is_numeric (trim e)) eqn:Ee; [|done]. cbn [negb orb] in *.
    apply is_numeric_number in Es, Ee. split; [by apply readable_time_range|]. intros _. by apply readable_time_wrapped.
  - destruct (is_numeric (trim v)) eqn:Ev; [|done]. cbn [negb]. split; [|done].
    apply is_numeric_number in Ev. apply in_list_elem in H. apply streq_false in Er.
    destruct (time_op_mode md H Er) as [Hop Hmode]. rewrite <- Hmode at 2. by apply readable_time_simple.
Qed.

Lemma source_expr_name src p :
  src ∈ [SOURCE_PARAM; SOURCE_HEADER] → name_ok p = true → source_expr src p = src ++ jsq "('" ++ p ++ jsq "')".
Proof.
  intros Hs (_ & Hq & _)%name_ok_spec. unfold source_expr. rewrite Hq.
  repeat (apply elem_of_cons in Hs as [->|Hs]); [..|by apply elem_of_nil in Hs].
  all: cbn [app]; rewrite <- ?app_assoc; reflexivity.
Qed.

Lemma build_req_readable src p md v :
  let n := NReq src p md v in
  valid n = true → rt_cond n = true → readable (buildRequestConditionExpr (raw n)) (view n).
Proof.
  intros n Hv Hrt. unfold buildRequestConditionExpr. rewrite source_is_time, normalize_raw by done.
  unfold n in *. cbn [is_time valid rt_cond view] in *. apply andb_true_iff in Hv as [Hsrc%in_list_elem Hmd].
  apply andb_true_iff in Hrt as [Hok Hrt]. pose proof (name_ok_spec _ Hok) as (Hn & _ & Hp).
  assert (is_empty (trim p) = false) as -> by (destruct Hn; by destruct (trim p)).
  rewrite source_expr_name by done. destruct (streq md MATCH_EXISTS) eqn:E1; [apply streq_true in E1 as ->|].
  { repeat (apply elem_of_cons in Hsrc as [->|Hsrc]); [..|by apply elem_of_nil in Hsrc]; cbn [streq].
    - change (streq SOURCE_PARAM SOURCE_HEADER) with false. rewrite <- !app_assoc. by apply readable_param_exists.
    - change (streq SOURCE_HEADER SOURCE_HEADER) with true. rewrite <- !app_assoc. by apply readable_header_exists. }
  destruct (streq md MATCH_CONTAINS) eqn:E2; [apply streq_true in E2 as ->|].
  { repeat apply andb_true_iff in Hrt as [Hrt ?]. apply streq_true in Hrt as ->.
    change (streq SOURCE_HEADER SOURCE_HEADER) with true. rewrite <- !app_assoc.
    by apply readable_header_has; try done; apply wf_str_forallb. }
  destruct (streq md MATCH_EQ) eqn:E3; [apply streq_true in E3 as ->|done].
  change (in_list MATCH_EQ _) with false. rewrite <- !app_assoc. by apply readable_eq_built.
Qed.

Lemma build_readable c :
  let n := normalizeCondition c in
  rt_cond n = true → buildRequestConditionExpr c ≠ [] →
  readable (buildRequestConditionExpr c) (view n) ∧
  (is_range n = true → readable (js "(" ++ buildRequestConditionExpr c ++ js ")") (view n)).
Proof.
  intros n. rewrite <- build_raw. fold n. pose proof (normalize_valid c) as Hv. fold n in Hv.
  destruct n; intros Hrt Hne; [by apply build_time_readable|]. split; [by apply build_req_readable|done].
Qed.

(** ** Whole rules *)

(** The conditions of a group that are filled in. *)
Definition active (g : group) : list cond :=
  List.filter (λ c, negb (is_empty (buildRequestConditionExpr c))) (conditions g).

(** The groups that can be read back: a text with [ || ] is only safe in a
    range or on its own, because the builder wraps it in parentheses. *)
Definition rt_group (g : group) : bool :=
  forallb (λ c, rt_cond (normalizeCondition c)) (active g) &&
  (Nat.leb (length (active g)) 1 ||
   forallb (λ c, is_range (normalizeCondition c) || negb (includes SEP_OR (buildRequestConditionExpr c))) (active g)).

(** What the form shows of a group after reading; blank groups disappear. *)
Definition view_group (g : group) : option ngroup :=
  let mult := trim (default [] (multiplier g)) in
  if is_numeric mult then
    match map (λ c, view (normalizeCondition c)) (active g) with
    | [] => None
    | ns => Some (NGroup ns mult)
    end
  else None.

Lemma active_texts g :
  filter_truthy (map buildRequestConditionExpr (conditions g)) = map buildRequestConditionExpr (active g).
Proof.
  unfold active, filter_truthy. induction (conditions g) as [|c cs IH]; [done|]. cbn [map List.filter].
  destruct (buildRequestConditionExpr c) eqn:E; cbn [is_empty negb]; [done|]. cbn [map]. by rewrite E, IH.
Qed.

Lemma combined_parts cs :
  Forall (λ c, rt_cond (normalizeCondition c) = true ∧ buildRequestConditionExpr c ≠ []) cs →
  Nat.leb (length cs) 1 ||
    forallb (λ c, is_range (normalizeCondition c) || negb (includes SEP_OR (buildRequestConditionExpr c))) cs = true →
  ∃ parts, combine_conditions (map buildRequestConditionExpr cs) = join SEP_AND parts ∧
           Forall2 readable parts (map (λ c, view (normalizeCondition c)) cs).
Proof.
  intros Hcs Hor. destruct cs as [|c1 [|c2 cs]]; [by exists []| |].
  - inversion_clear Hcs as [|?? [Hrt Hne] _]. exists [buildRequestConditionExpr c1]. split; [done|].
    constructor; [|done]. by apply build_readable.
  - cbn [length Nat.leb orb] in Hor. eexists. split; [reflexivity|]. revert Hcs Hor.
    generalize (c1 :: c2 :: cs) as l. clear. induction l as [|c l IH]; [by constructor|].
    intros [[Hrt Hne] Hcs]%Forall_cons [Hor Hors]%andb_true_iff. constructor; [|by apply IH].
    destruct (build_readable c Hrt Hne) as [Hr Hw]. case_match; [|done].
    rewrite orb_false_r in Hor. by apply Hw.
Qed.

Lemma group_reads g : rt_group g = true →
  match view_group g with
  | Some n => factor_reads (buildRuleGroupFactor g) n
  | None => buildRuleGroupFactor g = []
  end.
Proof.
  intros [Hrt Hor]%andb_true_iff. unfold view_group, buildRuleGroupFactor. rewrite active_texts.
  destruct (is_numeric (trim (default [] (multiplier g)))) eqn:Em; [|done]. cbn [negb].
  assert (Hcs : Forall (λ c, rt_cond (normalizeCondition c) = true ∧ buildRequestConditionExpr c ≠ []) (active g)).
  { apply forallb_Forall in Hrt. rewrite Forall_forall in Hrt. apply Forall_forall. intros c Hc. split; [by apply Hrt|].
    unfold active in Hc. apply list_elem_of_In, filter_In in Hc as [_ Hc]. by destruct (buildRequestConditionExpr c). }
  destruct (combined_parts _ Hcs Hor) as (parts & Hj & Hr).
  destruct (active g) as [|c cs] eqn:Ea; [done|]. cbn [map] in *. rewrite Hj.
  apply factor_reads_text; [done| |by apply is_numeric_number]. by inversion Hr.
Qed.

Lemma groups_read gs : forallb rt_group gs = true →
  Forall2 factor_reads (filter_truthy (map buildRuleGroupFactor gs)) (omap view_group gs).
Proof.
  induction gs as [|g gs IH]; [by constructor|]. intros [Hg Hgs]%andb_true_iff. pose proof (group_reads g Hg) as Hr.
  csimpl. unfold filter_truthy in *. cbn [List.filter]. destruct (view_group g) as [n|].
  - pose proof (fr_nonempty _ _ Hr). destruct (buildRuleGroupFactor g); [done|]. constructor; auto.
  - rewrite Hr. by apply IH.
Qed.

Lemma rules_read gs : forallb rt_group gs = true → tryParseRequestRuleExpr (Some (buildRequestRuleExpr gs)) = Ok (omap view_group gs).
Proof. intros H. apply parse_product. by apply groups_read. Qed.

Definition sample_groups : list group :=
  [Group [Cond (Some SOURCE_HEADER) (Some (js " x-tier ")) (Some MATCH_EQ) (JStr (jsq "R&D 'x' \")) None None JUndef JUndef;
          Cond (Some SOURCE_HEADER) (Some (js "ua")) (Some MATCH_CONTAINS) (JStr (js "bot")) None None JUndef JUndef;
          Cond (Some SOURCE_PARAM) (Some (js "stream")) (Some MATCH_EXISTS) JUndef None None JUndef JUndef;
          Cond (Some SOURCE_TIME) None (Some MATCH_RANGE) JUndef (Some (js "hour")) (Some (js "UTC")) (JStr (js "21")) (JStr (js "6"));
          createEmptyCondition] (Some (js "0.5"));
   createEmptyRuleGroup;
   Group [Cond (Some SOURCE_TIME) None (Some MATCH_LT) (JStr (js "3")) (Some (js "day")) None JUndef JUndef] (Some (js " 2 "))].

(** ** The stored text is stable *)

(** A group as the form gets it from the reader. *)
Definition ungroup (g : ngroup) : group := Group (map raw (nconditions g)) (Some (nmultiplier g)).

Lemma view_valid n : valid n = true → valid (view n) = true.
Proof. destruct n as [f tz md v s e|]; cbn [valid view]; [by destruct (streq md MATCH_RANGE)|done]. Qed.

Lemma build_view n :
  valid n = true → buildRequestConditionExpr (raw (view n)) = buildRequestConditionExpr (raw n).
Proof.
  intros Hv. pose proof (view_valid n Hv) as Hv'. unfold buildRequestConditionExpr, buildTimeConditionExpr.
  rewrite !source_is_time, !normalize_raw by done. destruct n as [f tz md v s e|src p md v]; cbn [view is_time].
  - destruct (streq md MATCH_RANGE) eqn:E; by rewrite E, ?trim_idemp.
  - rewrite trim_idemp. unfold buildExprLiteral. destruct (streq md MATCH_EXISTS); [done|]. by rewrite trim_idemp.
Qed.

Lemma build_view_cond c :
  buildRequestConditionExpr (raw (view (normalizeCondition c))) = buildRequestConditionExpr c.
Proof. rewrite build_view by apply normalize_valid. apply build_raw. Qed.

Lemma build_view_group g n :
  view_group g = Some n → buildRuleGroupFactor (ungroup n) = buildRuleGroupFactor g.
Proof.
  unfold view_group. destruct (is_numeric (trim _)) eqn:Em; [|done].
  intros Hn. assert (n = NGroup (map (λ c, view (normalizeCondition c)) (active g)) (trim (default [] (multiplier g)))) as ->.
  { by destruct (active g); simplify_eq/=. }
  unfold buildRuleGroupFactor, ungroup. cbn [multiplier conditions nconditions nmultiplier default id].
  rewrite trim_idemp, active_texts, !map_map.
  rewrite (map_ext _ buildRequestConditionExpr) by apply build_view_cond.
  assert (filter_truthy (map buildRequestConditionExpr (active g)) = map buildRequestConditionExpr (active g)) as ->; [|done].
  apply filter_truthy_id, Forall_forall. intros t Ht. apply list_elem_of_In, in_map_iff in Ht as (c & <- & Hc).
  unfold active in Hc. apply filter_In in Hc as [_ Hc]. by destruct (buildRequestConditionExpr c).
Qed.

Lemma build_view_groups gs :
  forallb rt_group gs = true → buildRequestRuleExpr (map ungroup (omap view_group gs)) = buildRequestRuleExpr gs.
Proof.
  intros H. unfold buildRequestRuleExpr. f_equal. induction gs as [|g gs IH]; [done|].
  apply andb_true_iff in H as [Hg Hgs]. specialize (IH Hgs). pose proof (group_reads g Hg) as Hr. csimpl.
  destruct (view_group g) as [n|] eqn:E; csimpl.
  - rewrite (build_view_group g n E). unfold filter_truthy in *. cbn [List.filter]. by rewrite IH.
  - rewrite Hr. unfold filter_truthy in *. by cbn [List.filter is_empty negb].
Qed.

(** Loading stored rules into the form and saving them again leaves the
    stored text as it was. *)
Theorem rules_text_stable gs :
  forallb rt_group gs = true →
  ∃ read, tryParseRequestRuleExpr (Some (buildRequestRuleExpr gs)) = Ok read ∧
          buildRequestRuleExpr (map ungroup read) = buildRequestRuleExpr gs.
Proof.
  intros H. exists (omap view_group gs). split; [by apply parse_product, groups_read|by apply build_view_groups].
Qed.

Lemma rules_text_stable_witness :
  ∃ read, tryParseRequestRuleExpr (Some (buildRequestRuleExpr sample_groups)) = Ok read ∧
          buildRequestRuleExpr (map ungroup read) = buildRequestRuleExpr sample_groups.
Proof. apply (rules_text_stable sample_groups). vm_compute. reflexivity. Defined.

(** ** Conditions that are not read back *)

(** Comparisons of a parameter and containment in a parameter. *)
Definition guarded (n : ncond) : bool :=
  match n with
  | NReq src p md v =>
    streq src SOURCE_PARAM && name_ok (trim p) &&
    (in_list md [MATCH_GT; MATCH_GTE; MATCH_LT; MATCH_LTE] && is_numeric (trim v)
     || streq md MATCH_CONTAINS && no_parens (quote (trim v)))
  | NTime _ _ _ _ _ _ => false
  end.

(** The builder guards them with a conjunction of its own. *)
Definition second_half (p md v : jsstr) : jsstr :=
  if streq md MATCH_CONTAINS then jsq "has(param('" ++ p ++ jsq "'), " ++ quote v ++ js ")"
  else jsq "param('" ++ p ++ jsq "') " ++ cmp_op md ++ js " " ++ v.

Lemma build_guarded src p md v :
  let n := NReq src p md v in
  valid n = true → guarded n = true →
  buildRequestConditionExpr (raw n) =
  join SEP_AND [jsq "param('" ++ trim p ++ jsq "') != nil"; second_half (trim p) md (trim v)].
Proof.
  intros n Hv Hg. unfold buildRequestConditionExpr. rewrite source_is_time, normalize_raw by done.
  unfold n in *. cbn [is_time guarded] in *. apply andb_true_iff in Hg as [Hg Hm].
  apply andb_true_iff in Hg as [->%streq_true Hok]. pose proof (name_ok_spec _ Hok) as ([Hne _] & _ & _).
  assert (is_empty (trim p) = false) as -> by (by destruct (trim p)).
  rewrite source_expr_name by (done || by apply in_list_elem). unfold second_half, buildExprLiteral.
  apply orb_true_iff in Hm as [[Hmd Hnum]%andb_true_iff|[->%streq_true _]%andb_true_iff].
  - rewrite Hmd, Hnum. apply in_list_elem in Hmd.
    repeat (apply elem_of_cons in Hmd as [->|Hmd]); [..|by apply elem_of_nil in Hmd].
    all: cbn [streq]; repeat (change (streq ?a ?b) with false); cbn [join negb]; rewrite <- !app_assoc; reflexivity.
  - change (streq MATCH_CONTAINS MATCH_EXISTS) with false. change (streq MATCH_CONTAINS MATCH_CONTAINS) with true.
    change (streq SOURCE_PARAM SOURCE_HEADER) with false. cbn [join]. rewrite <- !app_assoc. reflexivity.
Qed.

Lemma factor_alone combined mult :
  balanced combined = true → number mult →
  splitTopLevelMultiply (trim (factor_text combined mult)) = [factor_text combined mult].
Proof.
  intros Hc Hm. rewrite factor_text_paren. set (inner := combined ++ _).
  assert (Hb : balanced inner = true).
  { unfold inner. apply balanced_app; [done|]. apply balanced_app; [done|]. apply balanced_app; [|done].
    by apply balanced_plain, number_no_parens. }
  rewrite trim_trimmed by by apply trimmed_ends. unfold splitTopLevelMultiply, SEP_MUL.
  pose proof (split_top_join 32%N [42; 32]%N [40%N :: inner ++ [41%N]]) as Hs. cbn [join] in Hs. rewrite Hs; [|done|done|].
  - cbn [map]. rewrite trim_trimmed by by apply trimmed_ends. done.
  - constructor; [|done]. by apply (closed_call _ _ []).
Qed.

Record refused (t : jsstr) : Prop := {
  rf_trimmed : trimmed t; rf_nonempty : t ≠ []; rf_closed : closed SEP_AND t;
  rf_balanced : balanced t = true; rf_parse : tryParseRequestCondition t = Null }.

Lemma factor_rejected a b n mult :
  readable a n → refused b → number mult →
  tryParseRuleGroupFactor (factor_text (join SEP_AND [a; b]) mult) = Null.
Proof.
  intros [Hat Hane Hac _ (c & Hap & _)] [Hbt Hbne Hbc _ Hbp] Hm. unfold tryParseRuleGroupFactor.
  destruct (factor_match (join SEP_AND [a; b]) mult) as (f & Hf & H1 & H2); [by destruct a|done|].
  rewrite Hf, H1. unfold splitTopLevelAnd, SEP_AND. rewrite split_top_join by (repeat constructor; done).
  cbn [map]. rewrite !trim_trimmed, filter_truthy_id by (repeat constructor; done).
  cbn [parse_conditions]. by rewrite !trim_trimmed, Hap, Hbp by done.
Qed.

Lemma second_half_refused p md v :
  name p → no_parens p = true →
  in_list md [MATCH_GT; MATCH_GTE; MATCH_LT; MATCH_LTE] && is_numeric v
  || streq md MATCH_CONTAINS && no_parens (quote v) = true →
  refused (second_half p md v).
Proof.
  intros Hn Hp [[Hmd Hv%is_numeric_number]%andb_true_iff|[->%streq_true Hq]%andb_true_iff]%orb_true_iff.
  - assert (Hop : cmp_op md ∈ map js [">"; ">="; "<"; "<="] ∧ streq md MATCH_CONTAINS = false).
    { apply in_list_elem in Hmd. repeat (apply elem_of_cons in Hmd as [->|Hmd]); [..|by apply elem_of_nil in Hmd].
      all: split; [by apply in_list_elem|done]. }
    unfold second_half. destruct Hop as [Hop ->]. pose proof (parse_param_cmp p Hn (cmp_op md) v Hop) as Hparse.
    assert (Hplain : plain (js " " ++ cmp_op md ++ js " ") = true).
    { by repeat (apply elem_of_cons in Hop as [->|Hop]); try (by apply elem_of_nil in Hop). }
    assert (Ht : jsq "param('" ++ p ++ jsq "') " ++ cmp_op md ++ js " " ++ v =
            js "param" ++ 40%N :: quoted p ++ 41%N :: (js " " ++ cmp_op md ++ js " ") ++ v).
    { unfold quoted. cbn [app]. rewrite <- !app_assoc. reflexivity. }
    rewrite Ht in *. constructor; [|done| | |done].
    + apply trimmed_call; [done|by apply no_ws_trimmed|by apply ends_number].
    + apply closed_call; [done|by intros|by apply quoted_balanced|by apply closed_number].
    + apply balanced_call; [done|by apply quoted_balanced|auto with js].
  - change (second_half p MATCH_CONTAINS v) with (jsq "has(param('" ++ p ++ jsq "'), " ++ quote v ++ js ")").
    pose proof (parse_param_has (p ++ jsq "'), " ++ quote v ++ js ")")) as Hparse.
    set (inner := js "param" ++ 40%N :: quoted p ++ 41%N :: js ", " ++ quote v).
    assert (Ht : jsq "has(param('" ++ p ++ jsq "'), " ++ quote v ++ js ")" = js "has" ++ 40%N :: inner ++ 41%N :: []).
    { unfold inner, quoted. rewrite <- !app_assoc. cbn [app]. rewrite <- !app_assoc. reflexivity. }
    rewrite Ht in *. assert (balanced inner = true).
    { apply balanced_call; [done|by apply quoted_balanced|]. apply balanced_app; [done|by apply balanced_plain]. }
    constructor; [|done| | |done].
    + apply trimmed_call; [done|by apply no_ws_trimmed|done].
    + by apply closed_call.
    + by apply balanced_call.
Qed.

(** The form does not get back what it wrote for a comparison of a
    parameter ([>], [>=], [<], [<=]) or for containment in a parameter: the
    reader splits the guard [param("p") != nil && ...] as two conditions and
    refuses the second, so the two branches written for these shapes never
    run and the stored rule falls out of the form. *)
Theorem guarded_conditions_not_read c mult :
  guarded (normalizeCondition c) = true → is_numeric (trim mult) = true →
  buildRequestRuleExpr [Group [c] (Some mult)] ≠ [] ∧
  tryParseRequestRuleExpr (Some (buildRequestRuleExpr [Group [c] (Some mult)])) = Null.
Proof.
  intros Hg Hm. pose proof (normalize_valid c) as Hv.
  assert (Hb : ∃ a b n, buildRequestConditionExpr c = join SEP_AND [a; b] ∧ readable a n ∧ refused b).
  { rewrite <- build_raw. destruct (normalizeCondition c) as [|src p md v]; [done|]. rewrite build_guarded by done.
    cbn [guarded] in Hg. apply andb_true_iff in Hg as [[_ Hok]%andb_true_iff Hmode].
    pose proof (name_ok_spec _ Hok) as (Hn & _ & Hp). do 3 eexists. split; [reflexivity|].
    split; [by apply readable_param_exists|by apply second_half_refused]. }
  destruct Hb as (a & b & n & Hb & Ha & Hr). pose proof (is_numeric_number _ Hm) as Hnum.
  unfold buildRequestRuleExpr, buildRuleGroupFactor. cbn [map conditions multiplier default id]. rewrite Hm, Hb. cbn [negb].
  assert (filter_truthy [join SEP_AND [a; b]] = [join SEP_AND [a; b]]) as ->.
  { apply filter_truthy_id. constructor; [|done]. destruct Ha. by destruct a. }
  cbn [combine_conditions]. set (t := factor_text _ _). change (filter_truthy [t]) with [t]. cbn [join].
  split; [done|]. unfold tryParseRequestRuleExpr. cbn [default id].
  assert (Hbal : balanced (join SEP_AND [a; b]) = true) by (apply balanced_join; [done|]; repeat constructor; [apply Ha|apply Hr]).
  destruct (is_empty (trim t)) eqn:He.
  - exfalso. apply is_empty_true in He. pose proof (factor_alone _ _ Hbal Hnum) as Hs. fold t in Hs. by rewrite He in Hs.
  - unfold t at 1. rewrite (factor_alone _ _ Hbal Hnum). cbn [parse_factors]. by rewrite (factor_rejected a b n).
Qed.

Lemma guarded_conditions_not_read_witness :
  let c := Cond (Some SOURCE_PARAM) (Some (js "max_tokens")) (Some MATCH_GT) (JStr (js "1000")) None None JUndef JUndef in
  buildRequestRuleExpr [Group [c] (Some (js "2"))] = jsq "(param('max_tokens') != nil && param('max_tokens') > 1000 ? 2 : 1)" ∧
  tryParseRequestRuleExpr (Some (buildRequestRuleExpr [Group [c] (Some (js "2"))])) = Null.
Proof.
  intros c. split; [vm_compute; reflexivity|].
  apply (guarded_conditions_not_read c (js "2")); vm_compute; reflexivity.
Defined.

(** C33. Which rules the form gets back.  Take groups whose filled-in conditions
    are on the time (any comparison or range), on a header or parameter that exists
    or equals a value, or on a value that a header contains; where names of headers,
    parameters and time zones have no quotation mark, backslash, control character
    or parenthesis, the written values no parenthesis and, for equality, no line
    break and no [ && ]; and where, in a group of several conditions, only ranges
    are written with [ || ].  Parsing the text the form writes for these groups gives
    every group with a condition and a numeric multiplier, with trimmed texts, in
    order, without an exception.  The modes left out are not read back: for a rule
    with one condition that a parameter contains a value, or is [>], [>=], [<] or [<=]
    a number, the form writes a text that the reader refuses. *)
Theorem request_rules_roundtrip :
  (∀ gs, forallb rt_group gs = true → tryParseRequestRuleExpr (Some (buildRequestRuleExpr gs)) = Ok (omap view_group gs)) ∧
  ∀ c mult, guarded (normalizeCondition c) = true → is_numeric (trim mult) = true →
    buildRequestRuleExpr [Group [c] (Some mult)] ≠ [] ∧ tryParseRequestRuleExpr (Some (buildRequestRuleExpr [Group [c] (Some mult)])) = Null.
Proof. split; [exact rules_read|exact guarded_conditions_not_read]. Qed.

Lemma request_rules_roundtrip_witness :
  length (omap view_group sample_groups) = 2 ∧
  tryParseRequestRuleExpr (Some (buildRequestRuleExpr sample_groups)) = Ok (omap view_group sample_groups) ∧
  tryParseRequestRuleExpr (Some (buildRequestRuleExpr
    [Group [Cond (Some SOURCE_PARAM) (Some (js "max_tokens")) (Some MATCH_GT) (JStr (js "1000")) None None JUndef JUndef] (Some (js "2"))])) = Null.
Proof.
  destruct request_rules_roundtrip as [H1 H2]. split; [vm_compute; reflexivity|]. split; [apply H1; vm_compute; reflexivity|].
  apply H2; vm_compute; reflexivity.
Defined.

(** ** Unwrapping and splitting a billing expression *)

Lemma full_parens_shape s : hasFullOuterParens s = true → ∃ t, s = 40%N :: t ++ [41%N].
Proof.
  unfold hasFullOuterParens. destruct (starts_with (js "(") s) eqn:E1; [|done].
  destruct (ends_with (js ")") s) eqn:E2; [|done]. intros Hl.
  apply starts_with_true in E1 as (t & ->). apply starts_with_true in E2 as (r & Hr).
  destruct t as [|e t _] using rev_ind; [done|]. exists t. change (js "(") with [40%N] in *.
  cbn [app rev] in Hr. rewrite rev_app_distr in Hr. cbn in Hr. by injection Hr as -> _.
Qed.

Lemma unwrap_step_length t : length (trim (removelast (tail (40%N :: t ++ [41%N])))) < length (40%N :: t ++ [41%N]).
Proof.
  cbn [tail]. rewrite removelast_last. pose proof (trim_length t). cbn [length]. rewrite length_app. lia.
Qed.

Lemma unwrap_loop_done n s : length s ≤ n → hasFullOuterParens (unwrap_loop n s) = false.
Proof.
  revert s. induction n as [|n IH]; intros s Hn; [by destruct s; [|cbn in Hn; lia]|]. cbn [unwrap_loop].
  destruct (hasFullOuterParens s) eqn:E; [|done]. apply IH.
  destruct (full_parens_shape s E) as (t & ->). pose proof (unwrap_step_length t). lia.
Qed.

Lemma unwrap_loop_fuel n k s : length s ≤ n → length s ≤ k → unwrap_loop n s = unwrap_loop k s.
Proof.
  revert k s. induction n as [|n IH]; intros [|k] s Hn Hk; [done| | |].
  - by destruct s; [|cbn in Hn; lia].
  - by destruct s; [|cbn in Hk; lia].
  - cbn [unwrap_loop]. destruct (hasFullOuterParens s) eqn:E; [|done].
    destruct (full_parens_shape s E) as (t & ->). pose proof (unwrap_step_length t). apply IH; lia.
Qed.

Lemma unwrap_loop_trim n s : trim s = s → trim (unwrap_loop n s) = unwrap_loop n s.
Proof.
  revert s. induction n as [|n IH]; intros s Hs; cbn [unwrap_loop]; [done|].
  case_match; [|done]. apply IH, trim_idemp.
Qed.

Lemma unwrap_loop_stop n s : hasFullOuterParens s = false → unwrap_loop n s = s.
Proof. destruct n; [done|]. cbn [unwrap_loop]. by intros ->. Qed.

(** Unwrapping terminates with a text that is trimmed and not itself
    parenthesised as a whole, so unwrapping again changes nothing. *)
Theorem unwrap_normal e :
  let r := unwrapOuterParens e in
  hasFullOuterParens r = false ∧ trim r = r ∧ unwrapOuterParens (Some r) = r.
Proof.
  unfold unwrapOuterParens at 1. set (s := trim (default [] e)). cbn zeta.
  assert (Hd : hasFullOuterParens (unwrap_loop (length s) s) = false) by by apply unwrap_loop_done.
  assert (Ht : trim (unwrap_loop (length s) s) = unwrap_loop (length s) s) by apply unwrap_loop_trim, trim_idemp.
  split; [done|]. split; [done|]. unfold unwrapOuterParens. cbn [default id]. rewrite Ht. by apply unwrap_loop_stop.
Qed.

Lemma parens_loop_balanced b k k' d :
  (1 ≤ d)%Z → (0 ≤ k)%Z → scan k b = Some k' →
  parens_loop (k + d) (b ++ [41%N]) = ((k' + d - 1) =? 0)%Z.
Proof.
  intros Hd. revert k. induction b as [|c b IH]; intros k Hk; cbn [scan app parens_loop].
  - intros [= <-]. unfold depth_step. cbn. by rewrite andb_false_r.
  - rewrite depth_step_shift. destruct (Z.ltb_spec (depth_step c k) 0); [done|].
    destruct (Z.eqb_spec (depth_step c k + d) 0); [lia|]. by apply IH.
Qed.

Lemma full_parens_wrapped b : balanced b = true → hasFullOuterParens (40%N :: b ++ [41%N]) = true.
Proof.
  intros Hb%balanced_true. unfold hasFullOuterParens.
  assert (starts_with (js "(") (40%N :: b ++ [41%N]) = true) as -> by done.
  assert (ends_with (js ")") (40%N :: b ++ [41%N]) = true) as ->.
  { unfold ends_with. cbn [rev]. by rewrite rev_app_distr. }
  cbn [negb orb parens_loop]. change (depth_step 40%N 0) with 1%Z. cbn [Z.eqb andb].
  by rewrite (parens_loop_balanced b 0 0 1 ltac:(done) ltac:(done) Hb : parens_loop 1 _ = _).
Qed.

Lemma unwrap_wrapped b : trimmed b → balanced b = true →
  unwrapOuterParens (Some (40%N :: b ++ [41%N])) = unwrapOuterParens (Some b).
Proof.
  intros Ht Hb. unfold unwrapOuterParens. cbn [default id]. rewrite (trim_trimmed b), trim_trimmed by done || by apply trimmed_ends.
  cbn [length unwrap_loop]. rewrite full_parens_wrapped by done. cbn [tail]. rewrite removelast_last, (trim_trimmed b) by done.
  apply unwrap_loop_fuel; [|done]. rewrite length_app. lia.
Qed.

Lemma is_rule_factor t g : factor_reads t g → is_rule_part t = Some true.
Proof.
  intros H. unfold is_rule_part. pose proof (parse_product [t] [g]) as Hp. cbn [join] in Hp.
  rewrite Hp; [done|]. by constructor.
Qed.

Lemma partition_rules ts gs : Forall2 factor_reads ts gs → partition_parts ts = Some (ts, []).
Proof.
  induction 1 as [|t g ts gs Ht _ IH]; [done|]. cbn [partition_parts]. rewrite (is_rule_factor t g Ht), IH. done.
Qed.

Lemma split_wrapped b ts gs :
  Forall2 factor_reads ts gs → balanced b = true →
  splitTopLevelMultiply (join SEP_MUL ((40%N :: b ++ [41%N]) :: ts)) = (40%N :: b ++ [41%N]) :: ts.
Proof.
  intros Hf Hb. assert (Ht : Forall (λ t, closed SEP_MUL t ∧ trim t = t ∧ t ≠ []) ((40%N :: b ++ [41%N]) :: ts)).
  { constructor.
    - split; [by apply (closed_call _ _ [])|]. split; [by apply trim_trimmed, trimmed_ends|done].
    - eapply Forall2_fst; [|exact Hf]. intros t g Hr. split; [apply Hr|]. split; [apply trim_trimmed, Hr|apply Hr]. }
  unfold splitTopLevelMultiply, SEP_MUL. rewrite split_top_join; [|done|done|].
  - rewrite map_trim_id; [apply filter_truthy_id|]; eapply Forall_impl; try exact Ht; naive_solver.
  - eapply Forall_impl; [exact Ht|]. naive_solver.
Qed.

Lemma split_combine base gs :
  trim base ≠ [] → balanced (trim base) = true →
  is_rule_part (40%N :: trim base ++ [41%N]) = Some false →
  forallb rt_group gs = true → buildRequestRuleExpr gs ≠ [] →
  splitBillingExprAndRequestRules (Some (combineBillingExpr (Some base) (Some (buildRequestRuleExpr gs)))) =
  Some (unwrapOuterParens (Some base), buildRequestRuleExpr gs).
Proof.
  intros Hne Hb Hrule Hrt Hrules. pose proof (groups_read gs Hrt) as Hf.
  unfold buildRequestRuleExpr in *. set (ts := filter_truthy _) in *. set (b := trim base) in *.
  assert (Hts : ts ≠ []) by (by intros E; rewrite E in Hrules). unfold combineBillingExpr. cbn [default id].
  rewrite (trim_trimmed (join _ _)) by (by eapply join_factors_trimmed). fold b.
  destruct (is_empty b) eqn:E1; [by apply is_empty_true in E1|].
  destruct (is_empty (join SEP_MUL ts)) eqn:E2; [by apply is_empty_true in E2|].
  assert (Ht : js "(" ++ b ++ js ") * " ++ join SEP_MUL ts = join SEP_MUL ((40%N :: b ++ [41%N]) :: ts)).
  { destruct ts as [|t ts']; [done|]. rewrite join_cons. cbn [app]. by rewrite <- app_assoc. }
  rewrite Ht. unfold splitBillingExprAndRequestRules. cbn [default id].
  rewrite trim_trimmed.
  2: { apply trimmed_join; [|done]. constructor; [split; [by apply trimmed_ends|done]|].
       eapply Forall2_fst; [|exact Hf]. intros ?? Hr. split; apply Hr. }
  rewrite (split_wrapped b ts _ Hf Hb). rewrite <- Ht. cbn [app is_empty js].
  destruct ts as [|t ts'] eqn:Ets; [done|]. cbn [length Nat.leb]. cbn [partition_parts]. rewrite Hrule.
  pose proof (partition_rules _ _ Hf) as Hpart. cbn [partition_parts] in Hpart. cbn [mbind option_bind].
  rewrite Hpart.
  change (Some (unwrapOuterParens (Some (40%N :: b ++ [41%N])), join SEP_MUL (t :: ts')) =
          Some (unwrapOuterParens (Some base), join SEP_MUL (t :: ts'))).
  rewrite unwrap_wrapped by (apply trimmed_trim || done).
  unfold unwrapOuterParens, b. cbn [default id]. by rewrite trim_idemp.
Qed.

(** A billing expression combined with its request rules comes apart
    again: the rules exactly as they were, the base without needless outer
    parentheses.  The base must have balanced parentheses and not read as a
    rule itself. *)
Theorem split_combined base gs :
  trim base ≠ [] → balanced (trim base) = true →
  is_rule_part (40%N :: trim base ++ [41%N]) = Some false →
  forallb rt_group gs = true → buildRequestRuleExpr gs ≠ [] →
  splitBillingExprAndRequestRules (Some (combineBillingExpr (Some base) (Some (buildRequestRuleExpr gs)))) =
  Some (unwrapOuterParens (Some base), buildRequestRuleExpr gs).
Proof. apply split_combine. Qed.

Lemma split_combined_witness :
  splitBillingExprAndRequestRules
    (Some (combineBillingExpr (Some (jsq " tier('base', p * 2 + c * 8) ")) (Some (buildRequestRuleExpr sample_groups)))) =
  Some (jsq "tier('base', p * 2 + c * 8)", buildRequestRuleExpr sample_groups).
Proof.
  change (jsq "tier('base', p * 2 + c * 8)") with (unwrapOuterParens (Some (jsq " tier('base', p * 2 + c * 8) "))).
  apply (split_combined (jsq " tier('base', p * 2 + c * 8) ") sample_groups).
  all: vm_compute; (reflexivity || discriminate).
Defined.
