(* ===== verification/PricingEditor.v ===== *)
(** * The model-pricing editor
      ([web/src/pages/Setting/Ratio/hooks/useModelPricingEditorState.js])

    The editor holds one record per model and turns the stored option maps
    (ratios and prices per model, as JSON text) into the prices an
    administrator sees, and back.  The React state is a record, every handler
    a function on it, and [settle] the effects that run after a render.
    Translations ([t]), the locale's order of names and the engine's
    [toLowerCase] are arguments. *)

From S2P Require Import Prelude JsString JsRegex JsNumber Json RequestRuleExpr.

(** ** Data *)

Inductive billing_mode := PerToken | PerRequest | TieredExpr.
#[export] Instance billing_mode_eq_dec : EqDecision billing_mode.
Proof. solve_decision. Defined.

Record ratios := Ratios {
  modelRatio : jsstr; completionRatio : jsstr; cacheRatio : jsstr; createCacheRatio : jsstr;
  imageRatio : jsstr; audioRatio : jsstr; audioCompletionRatio : jsstr }.

Record model := Model {
  name : jsstr; billingMode : billing_mode; fixedPrice : jsstr; inputPrice : jsstr;
  completionPrice : jsstr; lockedCompletionRatio : jsstr; completionRatioLocked : bool;
  cachePrice : jsstr; createCachePrice : jsstr; imagePrice : jsstr;
  audioInputPrice : jsstr; audioOutputPrice : jsstr;
  billingExpr : jsstr; requestRuleExpr : jsstr; rawRatios : ratios; hasConflict : bool }.

Definition EMPTY_RATIOS : ratios := Ratios [] [] [] [] [] [] [].
Definition EMPTY_MODEL : model :=
  Model [] PerToken [] [] [] [] false [] [] [] [] [] [] [] EMPTY_RATIOS false.

(** The fields the form writes by name. *)
Inductive field :=
  | FixedPrice | InputPrice | CompletionPrice | CachePrice | CreateCachePrice
  | ImagePrice | AudioInputPrice | AudioOutputPrice.
#[export] Instance field_eq_dec : EqDecision field.
Proof. solve_decision. Defined.

(** [{ ...model, [field]: v }] *)
Definition set_field (f : field) (v : jsstr) (m : model) : model :=
  let '(Model n bm fp ip cp lr lk ca cc im ai ao be rr raw hc) := m in
  match f with
  | FixedPrice => Model n bm v ip cp lr lk ca cc im ai ao be rr raw hc
  | InputPrice => Model n bm fp v cp lr lk ca cc im ai ao be rr raw hc
  | CompletionPrice => Model n bm fp ip v lr lk ca cc im ai ao be rr raw hc
  | CachePrice => Model n bm fp ip cp lr lk v cc im ai ao be rr raw hc
  | CreateCachePrice => Model n bm fp ip cp lr lk ca v im ai ao be rr raw hc
  | ImagePrice => Model n bm fp ip cp lr lk ca cc v ai ao be rr raw hc
  | AudioInputPrice => Model n bm fp ip cp lr lk ca cc im v ao be rr raw hc
  | AudioOutputPrice => Model n bm fp ip cp lr lk ca cc im ai v be rr raw hc
  end.

Open Scope re_scope.
(** Digits with an optional point and more digits, or a point and digits, or nothing. *)
Definition NUMERIC_INPUT_REGEX : regex :=
  RBol +> ROpt (RGroup 1 ((RPlus (RSet is_digit) +> ROpt (RGroup 2 (RLit [46%N] +> RStar true (RSet is_digit))))
                          <|> (RLit [46%N] +> RStar true (RSet is_digit)))) +> REol.
Close Scope re_scope.

(** ** Numbers *)

Definition hasValue (v : jval) : bool :=
  match v with
  | JStr s => negb (is_empty s)
  | JNull | JUndef => false
  | JBool b => b
  | _ => true
  end.
Definition hasText (s : jsstr) : bool := hasValue (JStr s).

(** [!hasValue(value) && value !== 0] *)
Definition is_blank (v : jval) : bool :=
  negb (hasValue v) && negb match v with JNum x => neq x nzero | _ => false end.

Definition toNumericString (v : jval) : jsstr :=
  if is_blank v then []
  else let num := Number_of v in if isFinite num then String_of_num num else [].

Definition toNumberOrNull (v : jval) : option num :=
  if is_blank v then None
  else let num := Number_of v in if isFinite num then Some num else None.

Definition formatNumber (v : jval) : jsstr :=
  match toNumberOrNull v with
  | None => []
  | Some num => String_of_num (parseFloat (toFixed 12 num))
  end.

Definition toNormalizedNumber (v : jval) : option num :=
  let formatted := formatNumber v in
  if is_empty formatted then None else Some (Number_of_string formatted).

Definition parseOptionJSON (rawValue : option jsstr) : jval :=
  match rawValue with
  | None => JObj []
  | Some s => if is_empty (trim s) then JObj []
              else match parse s with
                   | Some v => if truthy v && typeof_object v then v else JObj []
                   | None => JObj []
                   end
  end.

Definition ratioToBasePrice (ratio : jval) : jsstr :=
  match toNumberOrNull ratio with
  | None => []
  | Some num => formatNumber (JNum (nmul num (num_of_Z 2)))
  end.

Definition normalizeCompletionRatioMeta (rawMeta : jval) : bool * jsstr :=
  if negb (truthy rawMeta) || negb (typeof_object rawMeta) || is_array rawMeta then (false, [])
  else (truthy (prop rawMeta (js "locked")), toNumericString (prop rawMeta (js "ratio"))).

(** ** Loading *)

Record source_maps := SourceMaps {
  smModelPrice : jval; smModelRatio : jval; smCompletionRatio : jval; smCompletionRatioMeta : jval;
  smCacheRatio : jval; smCreateCacheRatio : jval; smImageRatio : jval; smAudioRatio : jval;
  smAudioCompletionRatio : jval; smModelBillingMode : jval; smModelBillingExpr : jval }.

(** An option map as entries: an array lists its indices. *)
Fixpoint indexed (i : Z) (l : list jval) : list (jsstr * jval) :=
  match l with
  | [] => []
  | v :: l' => (string_of_Z i, v) :: indexed (i + 1) l'
  end.
Definition map_entries (v : jval) : list (jsstr * jval) :=
  match v with
  | JObj o => o
  | JArr l => indexed 0 l
  | _ => []
  end.
Definition at_name (v : jval) (n : jsstr) : jval := obj_get (map_entries v) n.
Definition map_keys (v : jval) : list jsstr := own_keys (map_entries v).

(** [inputPriceNumber !== null && hasValue(ratio) ? formatNumber(inputPriceNumber * Number(ratio)) : ''] *)
Definition derived (base : option num) (ratio : jsstr) : jsstr :=
  match base with
  | Some b => if hasText ratio then formatNumber (JNum (nmul b (Number_of_string ratio))) else []
  | None => []
  end.

(** [None] is the exception of a value that is not text. *)
Definition text_value (v : jval) : option jsstr :=
  if truthy v then match v with JStr s => Some s | _ => None end else Some [].

Definition buildTieredState (n billingExpr requestRuleExpr : jsstr) : model :=
  Model n TieredExpr [] [] [] [] false [] [] [] [] [] billingExpr requestRuleExpr EMPTY_RATIOS false.

Definition buildRatioState (n : jsstr) (sm : source_maps) : model :=
  let modelRatio := toNumericString (at_name (smModelRatio sm) n) in
  let completionRatio := toNumericString (at_name (smCompletionRatio sm) n) in
  let '(locked, metaRatio) := normalizeCompletionRatioMeta (at_name (smCompletionRatioMeta sm) n) in
  let cacheRatio := toNumericString (at_name (smCacheRatio sm) n) in
  let createCacheRatio := toNumericString (at_name (smCreateCacheRatio sm) n) in
  let imageRatio := toNumericString (at_name (smImageRatio sm) n) in
  let audioRatio := toNumericString (at_name (smAudioRatio sm) n) in
  let audioCompletionRatio := toNumericString (at_name (smAudioCompletionRatio sm) n) in
  let fixedPrice := toNumericString (at_name (smModelPrice sm) n) in
  let inputPrice := ratioToBasePrice (JStr modelRatio) in
  let inputPriceNumber := toNumberOrNull (JStr inputPrice) in
  let audioInputPrice := derived inputPriceNumber audioRatio in
  Model n (if hasText fixedPrice then PerRequest else PerToken) fixedPrice inputPrice
    (derived inputPriceNumber (if locked then metaRatio else completionRatio)) metaRatio locked
    (derived inputPriceNumber cacheRatio) (derived inputPriceNumber createCacheRatio)
    (derived inputPriceNumber imageRatio) audioInputPrice
    (match toNumberOrNull (JStr audioInputPrice) with
     | Some _ => if hasText audioCompletionRatio
                 then formatNumber (JNum (nmul (Number_of_string audioInputPrice) (Number_of_string audioCompletionRatio)))
                 else []
     | None => []
     end)
    [] []
    (Ratios modelRatio completionRatio cacheRatio createCacheRatio imageRatio audioRatio audioCompletionRatio)
    (hasText fixedPrice &&
     existsb hasText [modelRatio; completionRatio; cacheRatio; createCacheRatio; imageRatio; audioRatio; audioCompletionRatio]).

Definition buildModelState (n : jsstr) (sm : source_maps) : option model :=
  match at_name (smModelBillingMode sm) n with
  | JStr bm =>
    if streq bm (js "tiered_expr") then
      full ← text_value (at_name (smModelBillingExpr sm) n);
      '(billingExpr, requestRuleExpr) ← splitBillingExprAndRequestRules (Some full);
      Some (buildTieredState n billingExpr requestRuleExpr)
    else Some (buildRatioState n sm)
  | _ => Some (buildRatioState n sm)
  end.

(** ** Derived views of one model *)

Definition isBasePricingUnset (m : model) : bool :=
  negb (bool_decide (billingMode m = TieredExpr)) && negb (hasText (fixedPrice m)) && negb (hasText (inputPrice m)).

Inductive warning := WConflict | WMissingInputRatio | WInputFirst | WAudioInputFirst.

Definition getModelWarnings (om : option model) : list warning :=
  match om with
  | None => []
  | Some m =>
    if bool_decide (billingMode m = TieredExpr) then []
    else
      let r := rawRatios m in
      let hasDerivedPricing :=
        existsb hasText [inputPrice m; completionPrice m; cachePrice m; createCachePrice m; imagePrice m;
                         audioInputPrice m; audioOutputPrice m] in
      (if hasConflict m then [WConflict] else [])
      ++ (if negb (hasText (inputPrice m)) &&
             existsb hasText [completionRatio r; cacheRatio r; createCacheRatio r; imageRatio r; audioRatio r;
                              audioCompletionRatio r]
          then [WMissingInputRatio] else [])
      ++ (if bool_decide (billingMode m = PerToken) && hasDerivedPricing && negb (hasText (inputPrice m))
          then [WInputFirst] else [])
      ++ (if bool_decide (billingMode m = PerToken) && hasText (audioOutputPrice m) && negb (hasText (audioInputPrice m))
          then [WAudioInputFirst] else [])
  end.

(** [(expr.match(/tier\(/g) || []).length] *)
Definition tierCount (expr : jsstr) : nat := length (re_all (RLit (js "tier(")) expr).

Definition nat_text (n : nat) : jsstr := string_of_Z (Z.of_nat n).

Section Texts.
Context (t : jsstr → jsstr).

Definition buildSummaryText (m : model) : jsstr :=
  let requestRuleSuffix :=
    if bool_decide (billingMode m = TieredExpr) && negb (is_empty (requestRuleExpr m))
    then js "，" ++ t (js "请求规则") else [] in
  if bool_decide (billingMode m = TieredExpr) then
    let expr := billingExpr m in
    if is_empty expr then t (js "表达式计费") ++ requestRuleSuffix
    else if Nat.eqb (tierCount expr) 0 then t (js "表达式计费") ++ requestRuleSuffix
    else t (js "阶梯计费") ++ js " (" ++ nat_text (tierCount expr) ++ js " " ++ t (js "档") ++ js ")" ++ requestRuleSuffix
  else if bool_decide (billingMode m = PerRequest) && hasText (fixedPrice m) then
    t (js "按次") ++ js " $" ++ fixedPrice m ++ js " / " ++ t (js "次") ++ requestRuleSuffix
  else if hasText (inputPrice m) then
    let extraCount := length (List.filter hasText
      [completionPrice m; cachePrice m; createCachePrice m; imagePrice m; audioInputPrice m; audioOutputPrice m]) in
    let extraLabel := if Nat.ltb 0 extraCount then js "，" ++ t (js "额外价格项") ++ js " " ++ nat_text extraCount else [] in
    t (js "输入") ++ js " $" ++ inputPrice m ++ extraLabel ++ requestRuleSuffix
  else t (js "未设置价格") ++ requestRuleSuffix.

(** The [value] of every preview row with its [key]; labels are fixed. *)
Definition ellipsis (s : jsstr) : jsstr := if Nat.ltb 60 (length s) then take 60 s ++ js "..." else s.
Definition raw_or_blank (s : jsstr) : jsstr := if hasText s then s else t (js "空").
Definition quotient_or_blank (a : option num) (b : num) : jsstr :=
  match a with Some a => formatNumber (JNum (ndiv a b)) | None => t (js "空") end.

Definition buildPreviewRows (om : option model) : list (jsstr * jsstr) :=
  match om with
  | None => []
  | Some m =>
    let finalBillingExpr := combineBillingExpr (Some (billingExpr m)) (Some (requestRuleExpr m)) in
    match billingMode m with
    | TieredExpr =>
      (js "BillingMode", js "tiered_expr") ::
      (if is_empty finalBillingExpr then []
       else [(js "BillingExpr",
              if Nat.ltb 0 (tierCount (billingExpr m))
              then nat_text (tierCount (billingExpr m)) ++ js " " ++ t (js "档") ++ js " — " ++ ellipsis finalBillingExpr
              else ellipsis finalBillingExpr)])
    | PerRequest => [(js "ModelPrice", raw_or_blank (fixedPrice m))]
    | PerToken =>
      let r := rawRatios m in
      match toNumberOrNull (JStr (inputPrice m)) with
      | None =>
        [(js "ModelRatio", raw_or_blank (modelRatio r)); (js "CompletionRatio", raw_or_blank (completionRatio r));
         (js "CacheRatio", raw_or_blank (cacheRatio r)); (js "CreateCacheRatio", raw_or_blank (createCacheRatio r));
         (js "ImageRatio", raw_or_blank (imageRatio r)); (js "AudioRatio", raw_or_blank (audioRatio r));
         (js "AudioCompletionRatio", raw_or_blank (audioCompletionRatio r))]
      | Some inputPrice =>
        let price f := toNumberOrNull (JStr (f m)) in
        [(js "ModelRatio", formatNumber (JNum (ndiv inputPrice (num_of_Z 2))));
         (js "CompletionRatio",
          if completionRatioLocked m
          then (if is_empty (lockedCompletionRatio m) then t (js "空") else lockedCompletionRatio m)
               ++ js " (" ++ t (js "后端固定") ++ js ")"
          else quotient_or_blank (price completionPrice) inputPrice);
         (js "CacheRatio", quotient_or_blank (price cachePrice) inputPrice);
         (js "CreateCacheRatio", quotient_or_blank (price createCachePrice) inputPrice);
         (js "ImageRatio", quotient_or_blank (price imagePrice) inputPrice);
         (js "AudioRatio", quotient_or_blank (price audioInputPrice) inputPrice);
         (js "AudioCompletionRatio",
          match price audioOutputPrice, price audioInputPrice with
          | Some ao, Some ai => if neq ai nzero then t (js "空") else formatNumber (JNum (ndiv ao ai))
          | _, _ => t (js "空")
          end)]
      end
    end
  end.
End Texts.

(** The six optional price fields, in the source's order. *)
Definition toggles := list (field * bool).
Definition buildOptionalFieldToggles (m : model) : toggles :=
  [(CompletionPrice, completionRatioLocked m || hasText (completionPrice m));
   (CachePrice, hasText (cachePrice m)); (CreateCachePrice, hasText (createCachePrice m));
   (ImagePrice, hasText (imagePrice m)); (AudioInputPrice, hasText (audioInputPrice m));
   (AudioOutputPrice, hasText (audioOutputPrice m))].

(** ** Saving one model *)

Inductive save_error := MissingInputPrice (name : jsstr) | MissingAudioInputPrice (name : jsstr).

Record saved := Saved {
  sModelPrice : option num; sModelRatio : option num; sCompletionRatio : option num; sCacheRatio : option num;
  sCreateCacheRatio : option num; sImageRatio : option num; sAudioRatio : option num; sAudioCompletionRatio : option num }.
Definition NOTHING_SAVED : saved := Saved None None None None None None None None.

(** [if (hasValue(raw)) result = toNormalizedNumber(raw)] *)
Definition keep_raw (s : jsstr) : option num := if hasText s then toNormalizedNumber (JStr s) else None.
(** [if (price !== null) result = toNormalizedNumber(price / base)] *)
Definition quotient (a : option num) (b : num) : option num :=
  match a with Some a => toNormalizedNumber (JNum (ndiv a b)) | None => None end.

Definition serializeModel (m : model) : saved + save_error :=
  if bool_decide (billingMode m = PerRequest) then
    inl (Saved (keep_raw (fixedPrice m)) None None None None None None None)
  else
    let price f := toNumberOrNull (JStr (f m)) in
    let r := rawRatios m in
    let hasDependentPrice :=
      existsb (λ o : option num, match o with Some _ => true | None => false end)
        [price completionPrice; price cachePrice; price createCachePrice; price imagePrice;
         price audioInputPrice; price audioOutputPrice] in
    match price inputPrice with
    | None =>
      if hasDependentPrice then inr (MissingInputPrice (name m))
      else inl (Saved None (keep_raw (modelRatio r)) (keep_raw (completionRatio r)) (keep_raw (cacheRatio r))
                  (keep_raw (createCacheRatio r)) (keep_raw (imageRatio r)) (keep_raw (audioRatio r))
                  (keep_raw (audioCompletionRatio r)))
    | Some input =>
      let mk ac :=
        inl (Saved None (toNormalizedNumber (JNum (ndiv input (num_of_Z 2))))
               (if completionRatioLocked m then keep_raw (completionRatio r) else quotient (price completionPrice) input)
               (quotient (price cachePrice) input) (quotient (price createCachePrice) input)
               (quotient (price imagePrice) input) (quotient (price audioInputPrice) input) ac) in
      match price audioOutputPrice with
      | None => mk None
      | Some ao =>
        match price audioInputPrice with
        | None => inr (MissingAudioInputPrice (name m))
        | Some ai => if neq ai nzero then inr (MissingAudioInputPrice (name m))
                     else mk (toNormalizedNumber (JNum (ndiv ao ai)))
        end
      end
    end.

(** ** The editor *)

Record options := Options {
  oModelPrice : option jsstr; oModelRatio : option jsstr; oCompletionRatio : option jsstr;
  oCompletionRatioMeta : option jsstr; oCacheRatio : option jsstr; oCreateCacheRatio : option jsstr;
  oImageRatio : option jsstr; oAudioRatio : option jsstr; oAudioCompletionRatio : option jsstr;
  oBillingMode : option jsstr; oBillingExpr : option jsstr }.

Record state := State {
  models : list model; initialVisibleModelNames : list jsstr; selectedModelName : jsstr;
  selectedModelNames : list jsstr; searchText : jsstr; currentPage : Z; conflictOnly : bool;
  optionalFieldToggles : list (jsstr * toggles) }.

Definition initial_state : state := State [] [] [] [] [] 1 false [].

Definition with_models (ms : list model) (st : state) : state :=
  State ms (initialVisibleModelNames st) (selectedModelName st) (selectedModelNames st) (searchText st)
        (currentPage st) (conflictOnly st) (optionalFieldToggles st).
Definition with_toggles (tg : list (jsstr * toggles)) (st : state) : state :=
  State (models st) (initialVisibleModelNames st) (selectedModelName st) (selectedModelNames st) (searchText st)
        (currentPage st) (conflictOnly st) tg.
Definition with_selected (n : jsstr) (st : state) : state :=
  State (models st) (initialVisibleModelNames st) n (selectedModelNames st) (searchText st)
        (currentPage st) (conflictOnly st) (optionalFieldToggles st).
Definition with_checked (ns : list jsstr) (st : state) : state :=
  State (models st) (initialVisibleModelNames st) (selectedModelName st) ns (searchText st)
        (currentPage st) (conflictOnly st) (optionalFieldToggles st).
Definition with_page (p : Z) (st : state) : state :=
  State (models st) (initialVisibleModelNames st) (selectedModelName st) (selectedModelNames st) (searchText st)
        p (conflictOnly st) (optionalFieldToggles st).

Definition PAGE_SIZE : Z := 10.

Definition has_name (n : jsstr) (ms : list model) : bool := existsb (λ m, streq (name m) n) ms.

Section Editor.
Context (toLowerCase : jsstr → jsstr) (localeCompare : jsstr → jsstr → Z).
(** [filterMode === 'unset'] and the names offered by the page. *)
Context (unset : bool) (candidateModelNames : list jsstr).

Definition read_maps (o : options) : source_maps :=
  SourceMaps (parseOptionJSON (oModelPrice o)) (parseOptionJSON (oModelRatio o)) (parseOptionJSON (oCompletionRatio o))
    (parseOptionJSON (oCompletionRatioMeta o)) (parseOptionJSON (oCacheRatio o)) (parseOptionJSON (oCreateCacheRatio o))
    (parseOptionJSON (oImageRatio o)) (parseOptionJSON (oAudioRatio o)) (parseOptionJSON (oAudioCompletionRatio o))
    (parseOptionJSON (oBillingMode o)) (parseOptionJSON (oBillingExpr o)).

Definition all_names (sm : source_maps) : list jsstr :=
  uniq (candidateModelNames ++ map_keys (smModelPrice sm) ++ map_keys (smModelRatio sm)
        ++ map_keys (smCompletionRatio sm) ++ map_keys (smCompletionRatioMeta sm) ++ map_keys (smCacheRatio sm)
        ++ map_keys (smCreateCacheRatio sm) ++ map_keys (smImageRatio sm) ++ map_keys (smAudioRatio sm)
        ++ map_keys (smAudioCompletionRatio sm) ++ map_keys (smModelBillingMode sm) ++ map_keys (smModelBillingExpr sm)).

Definition load_models (o : options) : option (list model) :=
  let sm := read_maps o in
  built ← map_opt (λ n, buildModelState n sm) (all_names sm);
  Some (sort (λ a b, localeCompare (name a) (name b)) built).

(** The first effect; [None] when reading a stored expression throws. *)
Definition load (o : options) (st : state) : option state :=
  nextModels ← load_models o;
  let shown := if unset then List.filter isBasePricingUnset nextModels else nextModels in
  Some (State nextModels (map name shown)
          (if negb (is_empty (selectedModelName st)) && has_name (selectedModelName st) nextModels
           then selectedModelName st
           else match shown with m :: _ => name m | [] => [] end)
          (selectedModelNames st) (searchText st) (currentPage st) (conflictOnly st)
          (fold_left (λ acc m, assoc_set acc (name m) (buildOptionalFieldToggles m)) nextModels [])).

Definition visibleModels (st : state) : list model :=
  if unset then List.filter (λ m, in_list (name m) (initialVisibleModelNames st)) (models st) else models st.

Definition filteredModels (st : state) : list model :=
  let keyword := toLowerCase (trim (searchText st)) in
  List.filter (λ m, (if is_empty keyword then true else includes keyword (toLowerCase (name m)))
                    && (if conflictOnly st then hasConflict m else true)) (visibleModels st).

Definition pagedData (st : state) : list model :=
  let start := ((currentPage st - 1) * PAGE_SIZE)%Z in
  slice_list (filteredModels st) start (start + PAGE_SIZE).

Definition selectedModel (st : state) : option model :=
  List.find (λ m, streq (name m) (selectedModelName st)) (visibleModels st).

(** The effects that keep the selections among the visible models. *)
Definition settle_checked (st : state) : state :=
  with_checked (List.filter (λ n, has_name n (visibleModels st)) (selectedModelNames st)) st.
Definition settle_selected (st : state) : state :=
  match visibleModels st with
  | [] => with_selected [] st
  | m :: _ => if has_name (selectedModelName st) (visibleModels st) then st else with_selected (name m) st
  end.
Definition settle (st : state) : state := settle_selected (settle_checked st).

(** The effect on the search text and the conflict filter: back to page 1. *)
Definition setSearchText (s : jsstr) (st : state) : state :=
  State (models st) (initialVisibleModelNames st) (selectedModelName st) (selectedModelNames st) s
        (if streq s (searchText st) then currentPage st else 1%Z) (conflictOnly st) (optionalFieldToggles st).
Definition setConflictOnly (b : bool) (st : state) : state :=
  State (models st) (initialVisibleModelNames st) (selectedModelName st) (selectedModelNames st) (searchText st)
        (if Bool.eqb b (conflictOnly st) then currentPage st else 1%Z) b (optionalFieldToggles st).

Definition upsertModel (n : jsstr) (updater : model → model) (st : state) : state :=
  with_models (map (λ m, if negb (streq (name m) n) then m else updater m) (models st)) st.

Definition isOptionalFieldEnabled (st : state) (om : option model) (f : field) : bool :=
  match om with
  | None => false
  | Some m =>
    match assoc_get (optionalFieldToggles st) (name m) with
    | Some tg => match assoc_get tg f with
                 | Some b => b
                 | None => default false (assoc_get (buildOptionalFieldToggles m) f)
                 end
    | None => default false (assoc_get (buildOptionalFieldToggles m) f)
    end
  end.

Definition updateOptionalFieldToggle (n : jsstr) (f : field) (checked : bool) (st : state) : state :=
  with_toggles (assoc_set (optionalFieldToggles st) n
                  (assoc_set (default [] (assoc_get (optionalFieldToggles st) n)) f checked)) st.

Definition handleOptionalFieldToggle (f : field) (checked : bool) (st : state) : state :=
  match selectedModel st with
  | None => st
  | Some sm =>
    let st1 := updateOptionalFieldToggle (name sm) f checked st in
    if checked then st1
    else
      let audio := bool_decide (f = AudioInputPrice) in
      let st2 := upsertModel (name sm)
                   (λ m, let m' := set_field f [] m in if audio then set_field AudioOutputPrice [] m' else m') st1 in
      if audio
      then updateOptionalFieldToggle (name sm) AudioOutputPrice false
             (updateOptionalFieldToggle (name sm) AudioInputPrice false st2)
      else st2
  end.

Definition fill (base : num) (current ratio : jsstr) : jsstr :=
  if negb (hasText current) && hasText ratio then formatNumber (JNum (nmul base (Number_of_string ratio))) else current.

Definition fillDerivedPricesFromBase (m : model) (nextInputPrice : jsstr) : model :=
  match toNumberOrNull (JStr nextInputPrice) with
  | None => m
  | Some base =>
    let r := rawRatios m in
    Model (name m) (billingMode m) (fixedPrice m) (inputPrice m)
      (if completionRatioLocked m && hasText (lockedCompletionRatio m)
       then formatNumber (JNum (nmul base (Number_of_string (lockedCompletionRatio m))))
       else fill base (completionPrice m) (completionRatio r))
      (lockedCompletionRatio m) (completionRatioLocked m)
      (fill base (cachePrice m) (cacheRatio r)) (fill base (createCachePrice m) (createCacheRatio r))
      (fill base (imagePrice m) (imageRatio r)) (fill base (audioInputPrice m) (audioRatio r))
      (if negb (hasText (audioOutputPrice m)) && hasText (audioRatio r) && hasText (audioCompletionRatio r)
       then formatNumber (JNum (nmul (nmul base (Number_of_string (audioRatio r))) (Number_of_string (audioCompletionRatio r))))
       else audioOutputPrice m)
      (billingExpr m) (requestRuleExpr m) r (hasConflict m)
  end.

Definition handleNumericFieldChange (f : field) (v : jsstr) (st : state) : state :=
  match selectedModel st with
  | None => st
  | Some sm =>
    if negb (re_test NUMERIC_INPUT_REGEX v) then st
    else upsertModel (name sm)
           (λ m, let updated := set_field f v m in
                 if bool_decide (f = InputPrice) then fillDerivedPricesFromBase updated v else updated) st
  end.

Definition set_mode (bm : billing_mode) (expr : jsstr) (m : model) : model :=
  Model (name m) bm (fixedPrice m) (inputPrice m) (completionPrice m) (lockedCompletionRatio m) (completionRatioLocked m)
    (cachePrice m) (createCachePrice m) (imagePrice m) (audioInputPrice m) (audioOutputPrice m)
    expr (requestRuleExpr m) (rawRatios m) (hasConflict m).
Definition set_rules (expr : jsstr) (m : model) : model :=
  Model (name m) (billingMode m) (fixedPrice m) (inputPrice m) (completionPrice m) (lockedCompletionRatio m)
    (completionRatioLocked m) (cachePrice m) (createCachePrice m) (imagePrice m) (audioInputPrice m) (audioOutputPrice m)
    (billingExpr m) expr (rawRatios m) (hasConflict m).

Definition on_selected (f : model → model) (st : state) : state :=
  match selectedModel st with None => st | Some sm => upsertModel (name sm) f st end.

Definition handleBillingModeChange (bm : billing_mode) : state → state :=
  on_selected (λ m, set_mode bm (if bool_decide (bm = TieredExpr) && is_empty (billingExpr m)
                                 then jsq "tier('base', p * 0 + c * 0)" else billingExpr m) m).
Definition handleBillingExprChange (newExpr : jsstr) : state → state :=
  on_selected (λ m, set_mode (billingMode m) newExpr m).
Definition handleRequestRuleExprChange (newExpr : jsstr) : state → state := on_selected (set_rules newExpr).

Inductive add_result := BlankName | NameExists | Added.

Definition addModel (modelName : jsstr) (st : state) : add_result * state :=
  let trimmedName := trim modelName in
  if is_empty trimmedName then (BlankName, st)
  else if has_name trimmedName (models st) then (NameExists, st)
  else
    let nextModel := Model trimmedName PerToken [] [] [] [] false [] [] [] [] [] [] [] EMPTY_RATIOS false in
    (Added, with_page 1 (with_selected trimmedName
              (with_toggles (assoc_set (optionalFieldToggles st) trimmedName (buildOptionalFieldToggles nextModel))
                 (with_models (nextModel :: models st) st)))).

Definition deleteModel (n : jsstr) (st : state) : state :=
  let nextModels := List.filter (λ m, negb (streq (name m) n)) (models st) in
  let st1 := with_checked (List.filter (λ x, negb (streq x n)) (selectedModelNames st))
               (with_toggles (assoc_delete (optionalFieldToggles st) n) (with_models nextModels st)) in
  if streq (selectedModelName st) n
  then with_selected match nextModels with m :: _ => name m | [] => [] end st1
  else st1.

Inductive apply_result := NoTemplate | NoTargets | Applied (name : jsstr) (count : nat).

Definition apply_template (src m : model) : model :=
  let next := Model (name m) (billingMode src) (fixedPrice src) (inputPrice src) (completionPrice src)
    (lockedCompletionRatio m) (completionRatioLocked m) (cachePrice src) (createCachePrice src) (imagePrice src)
    (audioInputPrice src) (audioOutputPrice src) (billingExpr src) (requestRuleExpr src) (rawRatios m) (hasConflict m) in
  if bool_decide (billingMode next = PerToken) && completionRatioLocked next && hasText (inputPrice next)
     && hasText (lockedCompletionRatio next)
  then set_field CompletionPrice
         (formatNumber (JNum (nmul (Number_of_string (inputPrice next)) (Number_of_string (lockedCompletionRatio next))))) next
  else next.

Definition applied_toggles (locked : bool) (source : toggles) : toggles :=
  let on f := default false (assoc_get source f) in
  [(CompletionPrice, if locked then true else on CompletionPrice); (CachePrice, on CachePrice);
   (CreateCachePrice, on CreateCachePrice); (ImagePrice, on ImagePrice); (AudioInputPrice, on AudioInputPrice);
   (AudioOutputPrice, on AudioInputPrice && on AudioOutputPrice)].

Definition applySelectedModelPricing (st : state) : apply_result * state :=
  match selectedModel st with
  | None => (NoTemplate, st)
  | Some src =>
    match selectedModelNames st with
    | [] => (NoTargets, st)
    | targets =>
      let sourceToggles := default [] (assoc_get (optionalFieldToggles st) (name src)) in
      let st1 := with_models (map (λ m, if in_list (name m) targets then apply_template src m else m) (models st)) st in
      let tg := fold_left (λ acc n,
                  assoc_set acc n (applied_toggles
                    match List.find (λ m, streq (name m) n) (models st) with
                    | Some m => completionRatioLocked m
                    | None => false
                    end sourceToggles)) targets (optionalFieldToggles st) in
      (Applied (name src) (length targets), with_toggles tg st1)
    end
  end.

(** ** Saving everything *)

(** The eight ratio maps in the order of the source, then the two tiered maps. *)
Definition RATIO_KEYS : list jsstr :=
  map js ["ModelPrice"; "ModelRatio"; "CompletionRatio"; "CacheRatio"; "CreateCacheRatio"; "ImageRatio";
          "AudioRatio"; "AudioCompletionRatio"]%string.
Definition saved_values (s : saved) : list (option num) :=
  [sModelPrice s; sModelRatio s; sCompletionRatio s; sCacheRatio s; sCreateCacheRatio s; sImageRatio s;
   sAudioRatio s; sAudioCompletionRatio s].

Definition add_value (n : jsstr) (v : option num) (o : list (jsstr * jval)) : list (jsstr * jval) :=
  match v with Some x => obj_set o n (JNum x) | None => o end.
Definition add_values (n : jsstr) (s : saved) (output : list (list (jsstr * jval))) : list (list (jsstr * jval)) :=
  zip_with (λ v o, add_value n v o) (saved_values s) output.

Record outputs := Outputs {
  out_ratios : list (list (jsstr * jval)); out_mode : list (jsstr * jval); out_expr : list (jsstr * jval) }.
Definition no_outputs : outputs := Outputs [[]; []; []; []; []; []; []; []] [] [].

Definition add_tiered (m : model) (out : outputs) : outputs :=
  if bool_decide (billingMode m = TieredExpr) then
    let finalBillingExpr := combineBillingExpr (Some (billingExpr m)) (Some (requestRuleExpr m)) in
    if is_empty finalBillingExpr then out
    else Outputs (out_ratios out) (obj_set (out_mode out) (name m) (JStr (js "tiered_expr")))
           (obj_set (out_expr out) (name m) (JStr finalBillingExpr))
  else out.

Definition add_model (m : model) (out : outputs) : outputs + save_error :=
  let out := add_tiered m out in
  match serializeModel m with
  | inl s => inl (Outputs (add_values (name m) s (out_ratios out)) (out_mode out) (out_expr out))
  | inr e => if bool_decide (billingMode m = TieredExpr) then inl out else inr e
  end.

Fixpoint collect_outputs (ms : list model) (out : outputs) : outputs + save_error :=
  match ms with
  | [] => inl out
  | m :: ms' => match add_model m out with
                | inl out' => collect_outputs ms' out'
                | inr e => inr e
                end
  end.

(** The [PUT] requests: option key and text. *)
Definition put_text (o : list (jsstr * jval)) : jsstr := default [] (stringify2 (JObj o)).
Definition submit_requests (ms : list model) : list (jsstr * jsstr) + save_error :=
  match collect_outputs ms no_outputs with
  | inl out => inl (zip_with (λ k o, (k, put_text o)) RATIO_KEYS (out_ratios out)
                    ++ [(js "billing_setting.billing_mode", put_text (out_mode out));
                        (js "billing_setting.billing_expr", put_text (out_expr out))])
  | inr e => inr e
  end.

(** The outcome of a submit given what the server answers to every request:
    its success flag and message. *)
Inductive submit_result := SaveRefused (e : save_error) | SaveFailed (message : option jsstr) | SaveDone.
Fixpoint first_failure (rs : list (bool * jsstr)) : submit_result :=
  match rs with
  | [] => SaveDone
  | (ok, msg) :: rs' => if ok : bool then first_failure rs'
                        else SaveFailed (if is_empty msg then None else Some msg)
  end.
Definition handleSubmit (server : list (jsstr * jsstr) → list (bool * jsstr)) (st : state) : submit_result :=
  match submit_requests (models st) with
  | inl reqs => first_failure (server reqs)
  | inr e => SaveRefused e
  end.
End Editor.
