(* ===== verification/PricingEditorTheorems.v ===== *)
(** * Theorems about the model-pricing editor

    The invariant of every reachable editor state, paging, what is saved and
    what the preview shows, and the round trip of a tiered model through the
    stored options. *)

From S2P Require Import Prelude JsString JsRegex JsNumber Json RequestRuleExpr RequestRuleRoundTrip PricingEditor.

Section EditorTheorems.
Context (toLowerCase : jsstr → jsstr) (localeCompare : jsstr → jsstr → Z).
Context (unset : bool) (candidateModelNames : list jsstr).

Abbreviation visible := (visibleModels unset).
Abbreviation load := (load localeCompare unset candidateModelNames).

(** ** Every event of the editor, followed by the effects of the render *)

Inductive event : state → state → Prop :=
  | ev_load o st st' : load o st = Some st' → event st st'
  | ev_search s st : event st (setSearchText s st)
  | ev_conflict b st : event st (setConflictOnly b st)
  | ev_page n st : event st (with_page n st)
  | ev_select n st : event st (with_selected n st)
  | ev_check ns st : event st (with_checked ns st)
  | ev_toggle f b st : event st (handleOptionalFieldToggle unset f b st)
  | ev_number f v st : event st (handleNumericFieldChange unset f v st)
  | ev_mode bm st : event st (handleBillingModeChange unset bm st)
  | ev_expr e st : event st (handleBillingExprChange unset e st)
  | ev_rules e st : event st (handleRequestRuleExprChange unset e st)
  | ev_add n st : event st (addModel n st).2
  | ev_delete n st : event st (deleteModel n st)
  | ev_apply st : event st (applySelectedModelPricing unset st).2.

Inductive reachable : state → Prop :=
  | reach_init : reachable initial_state
  | reach_step st st' : reachable st → event st st' → reachable (settle unset st').

(** ** Names *)

Definition names (st : state) : list jsstr := map name (models st).

Lemma name_set_field f v m : name (set_field f v m) = name m.
Proof. by destruct m, f. Qed.

Lemma map_name_ext (f : model → model) ms : (∀ m, name (f m) = name m) → map name (map f ms) = map name ms.
Proof. intros H. rewrite map_map. by apply map_ext. Qed.

Lemma upsert_names n f st : (∀ m, name (f m) = name m) → names (upsertModel n f st) = names st.
Proof. intros H. apply map_name_ext. intros m. case_match; auto. Qed.

Lemma fill_name m v : name (fillDerivedPricesFromBase m v) = name m.
Proof. unfold fillDerivedPricesFromBase. by case_match. Qed.

Lemma template_name src m : name (apply_template src m) = name m.
Proof. unfold apply_template. case_match; [by rewrite name_set_field|done]. Qed.

Lemma buildRatioState_name n sm : name (buildRatioState n sm) = n.
Proof. unfold buildRatioState. by destruct (normalizeCompletionRatioMeta _). Qed.

(** A model is built from the ratios, or is tiered with nothing but its
    expressions. *)
Lemma buildModelState_cases n sm m : buildModelState n sm = Some m →
  m = buildRatioState n sm ∨
  ∃ full b r, text_value (at_name (smModelBillingExpr sm) n) = Some full ∧
    splitBillingExprAndRequestRules (Some full) = Some (b, r) ∧ m = buildTieredState n b r.
Proof.
  unfold buildModelState. destruct (at_name (smModelBillingMode sm) n) as [| | | |bm| |]; try (intros [= <-]; by left).
  destruct (streq bm _); [|intros [= <-]; by left]. intros H.
  apply bind_Some in H as (full & Hf & H). apply bind_Some in H as ([b r] & Hs & [= <-]). right. eauto 7.
Qed.

Lemma buildModelState_name n sm m : buildModelState n sm = Some m → name m = n.
Proof. intros [->|(? & ? & ? & _ & _ & ->)]%buildModelState_cases; [apply buildRatioState_name|done]. Qed.

Lemma load_models_names o ms :
  load_models localeCompare candidateModelNames o = Some ms → map name ms ≡ₚ all_names candidateModelNames (read_maps o).
Proof.
  unfold load_models. intros H. apply bind_Some in H as (built & Hb & [= <-]).
  rewrite (Permutation_map name (sort_perm _ built)).
  apply map_opt_Forall2 in Hb. assert (map name built = all_names candidateModelNames (read_maps o)) as ->; [|done].
  induction Hb as [|n m ns ms Hm _ IH]; [done|]. cbn [map]. by rewrite IH, (buildModelState_name n _ m Hm).
Qed.

Lemma event_names st st' : event st st' → NoDup (names st) → NoDup (names st').
Proof.
  intros He Hnd. destruct He; try done.
  - unfold PricingEditor.load in H. apply bind_Some in H as (ms & Hl & [= <-]). cbn [models].
    unfold names. cbn [models]. rewrite (load_models_names _ _ Hl). apply uniq_NoDup.
  - unfold handleOptionalFieldToggle. destruct (selectedModel _ _) as [sm|]; [|done]. destruct b; [done|].
    assert (Hn : names (upsertModel (name sm) (λ m, let m' := set_field f [] m in
              if bool_decide (f = AudioInputPrice) then set_field AudioOutputPrice [] m' else m')
              (updateOptionalFieldToggle (name sm) f false st)) = names st).
    { rewrite upsert_names; [done|]. intros m. cbn. case_match; by rewrite ?name_set_field. }
    destruct (bool_decide _); (rewrite <- Hn in Hnd; exact Hnd).
  - unfold handleNumericFieldChange. destruct (selectedModel _ _) as [sm|]; [|done]. case_match; [done|].
    rewrite upsert_names; [done|]. intros m. cbn. case_match; by rewrite ?fill_name, name_set_field.
  - unfold handleBillingModeChange, on_selected. case_match; [|done]. by rewrite upsert_names.
  - unfold handleBillingExprChange, on_selected. case_match; [|done]. by rewrite upsert_names.
  - unfold handleRequestRuleExprChange, on_selected. case_match; [|done]. by rewrite upsert_names.
  - unfold addModel. case_match; [done|]. destruct (has_name (trim n) (models st)) eqn:E; [done|].
    unfold names. cbn [snd models with_page with_selected with_toggles with_models map name]. constructor; [|done].
    intros Hin. apply not_true_iff_false in E. apply E. unfold has_name. apply existsb_exists.
    apply list_elem_of_In, in_map_iff in Hin as (m & Hm & Hin). exists m. split; [done|]. by apply streq_true.
  - unfold deleteModel, names. assert (Hf : NoDup (map name (List.filter (λ m, negb (streq (name m) n)) (models st)))).
    { unfold names in Hnd. induction (models st) as [|m ms IH]; [done|]. cbn [List.filter map] in *.
      apply NoDup_cons in Hnd as [Hnot Hnd]. case_match; [|by apply IH]. cbn [map]. constructor; [|by apply IH].
      contradict Hnot. apply list_elem_of_In, in_map_iff in Hnot as (x & Hx & Hin). apply filter_In in Hin as [Hin _].
      apply list_elem_of_In, in_map_iff. eauto. }
    by case_match.
  - unfold applySelectedModelPricing. case_match; [|done]. case_match; [done|].
    unfold names. cbn [snd models with_toggles with_models]. rewrite map_name_ext; [done|].
    intros m'. case_match; [apply template_name|done].
Qed.

(** ** The invariant *)

Definition selection_ok (st : state) : Prop :=
  match visible st with
  | [] => selectedModelName st = []
  | _ => has_name (selectedModelName st) (visible st) = true
  end.

Record editor_ok (st : state) : Prop := {
  ok_names : NoDup (names st);
  ok_selected : selection_ok st;
  ok_checked : Forall (λ n, has_name n (visible st) = true) (selectedModelNames st) }.

Lemma settle_ok st : NoDup (names st) → editor_ok (settle unset st).
Proof.
  intros Hnd. unfold settle, settle_selected.
  change (visible (settle_checked unset st)) with (visible st). destruct (visible st) as [|m ms] eqn:E.
  - constructor; [done| |].
    + unfold selection_ok. change (visible (with_selected [] (settle_checked unset st))) with (visible st). by rewrite E.
    + change (visible (with_selected [] (settle_checked unset st))) with (visible st).
      unfold settle_checked. cbn [selectedModelNames with_selected with_checked].
      apply Forall_forall. intros n Hn%list_elem_of_In. by apply filter_In in Hn as [_ Hn].
  - assert (Hc : Forall (λ n, has_name n (visible st) = true) (selectedModelNames (settle_checked unset st))).
    { apply Forall_forall. intros n Hn%list_elem_of_In. by apply filter_In in Hn as [_ Hn]. }
    rewrite <- E. case_match; constructor; try done; unfold selection_ok.
    + change (visible (settle_checked unset st)) with (visible st). by rewrite E in *.
    + change (visible (with_selected (name m) (settle_checked unset st))) with (visible st). rewrite E. cbn.
      by rewrite streq_refl.
Qed.

(** C31. In every state the editor can reach, whatever the stored options and
    whatever the administrator does, model names are unique, the selected
    model is a visible one whenever any model is visible, and every ticked
    model is visible. *)
Theorem editor_invariant st : reachable st → editor_ok st.
Proof.
  intros Hr. assert (Hn : ∀ st, reachable st → NoDup (names st)).
  { clear. induction 1 as [|st st' _ IH He]; [constructor|]. apply (event_names _ _ He) in IH.
    by destruct (settle_ok st' IH). }
  destruct Hr as [|st st' Hr He].
  - constructor; [constructor| |constructor]. unfold selection_ok, visibleModels. by destruct unset.
  - apply settle_ok. eapply event_names; [exact He|]. by apply Hn.
Qed.

(** ** Paging *)

Lemma pages_concat {A} (l : list A) n k : 0 < n → length l ≤ n * k →
  concat (map (λ i, take n (drop (i * n) l)) (seq 0 k)) = l.
Proof.
  intros Hn. revert l. induction k as [|k IH]; intros l Hl.
  - destruct l; [done|]. cbn in Hl. lia.
  - cbn [seq map concat]. rewrite drop_0, <- seq_shift, map_map.
    rewrite (map_ext _ (λ i, take n (drop (i * n) (drop n l)))).
    + rewrite IH; [apply take_drop|]. rewrite length_drop. lia.
    + intros i. by rewrite drop_drop.
Qed.

(** The pages of the table partition the filtered models: put together
    in order they are exactly the filtered list, and no page exceeds the page
    size. *)
Theorem pages_partition st k :
  length (filteredModels toLowerCase unset st) ≤ 10 * k →
  concat (map (λ i, pagedData toLowerCase unset (with_page (Z.of_nat i + 1) st)) (seq 0 k)) =
    filteredModels toLowerCase unset st ∧
  ∀ page, length (pagedData toLowerCase unset (with_page (Z.of_nat page + 1) st)) ≤ Z.to_nat PAGE_SIZE.
Proof.
  intros Hk. assert (Hp : ∀ i, pagedData toLowerCase unset (with_page (Z.of_nat i + 1) st) =
                           take 10 (drop (i * 10) (filteredModels toLowerCase unset st))).
  { intros i. unfold pagedData, PAGE_SIZE. cbn [currentPage with_page].
    replace ((Z.of_nat i + 1 - 1) * 10)%Z with (Z.of_nat (i * 10)) by lia.
    apply (slice_list_pos _ _ 10). }
  split.
  - rewrite (map_ext _ _ Hp). by apply pages_concat; [lia|].
  - intros page. rewrite Hp, length_take. change (Z.to_nat PAGE_SIZE) with 10. lia.
Qed.
End EditorTheorems.

(** ** A concrete editor *)

Definition sample_options : options :=
  Options (Some (jsq "{'img':0.04}")) (Some (jsq "{'gpt':1.25,'img':1,'t':2}")) (Some (jsq "{'gpt':4}")) None
    (Some (jsq "{'gpt':0.1}")) None None None None (Some (jsq "{'t':'tiered_expr'}"))
    (Some (jsq "{'t':'(tier(\'base\', p * 2 + c * 8)) * (header(\'x\') == \'y\' ? 0.5 : 1)'}")).

(** Names by length: enough of an order for a sample. *)
Definition by_length (a b : jsstr) : Z := (Z.of_nat (length a) - Z.of_nat (length b))%Z.
Definition sample_loaded : state := default initial_state (load by_length false [] sample_options initial_state).
Definition sample_state : state := settle false (addModel (js " new ") (settle false sample_loaded)).2.

Lemma sample_reachable : reachable by_length false [] sample_state.
Proof.
  eapply reach_step; [|apply ev_add]. eapply reach_step; [apply reach_init|].
  apply (ev_load _ _ _ sample_options). vm_compute. reflexivity.
Qed.

Lemma editor_invariant_witness :
  names sample_state = map js ["new"; "t"; "img"; "gpt"]%string ∧ editor_ok false sample_state.
Proof.
  split; [vm_compute; reflexivity|]. apply (editor_invariant by_length false [] sample_state sample_reachable).
Defined.

Lemma pages_partition_witness :
  length (filteredModels (λ s, s) false sample_state) = 4 ∧
  concat (map (λ i, pagedData (λ s, s) false (with_page (Z.of_nat i + 1) sample_state)) (seq 0 1)) =
    filteredModels (λ s, s) false sample_state.
Proof.
  split; [vm_compute; reflexivity|].
  apply (pages_partition (λ s, s) false sample_state 1). vm_compute. lia.
Defined.

(** ** What is shown and what is saved *)

(** The preview shows what saving writes: for a per-token model with an
    input price and a free completion ratio, the seven preview rows and the
    seven saved ratios are the same optional quotients, once as text and once
    as numbers. *)
Theorem preview_is_saved (t : jsstr → jsstr) m s :
  billingMode m = PerToken → toNumberOrNull (JStr (inputPrice m)) ≠ None → completionRatioLocked m = false →
  serializeModel m = inl s →
  ∃ qs : list (option num),
    map fst (buildPreviewRows t (Some m)) = tail RATIO_KEYS ∧
    map snd (buildPreviewRows t (Some m)) =
      map (λ q, match q with Some x => formatNumber (JNum x) | None => t (js "空") end) qs ∧
    tail (saved_values s) = map (λ q, match q with Some x => toNormalizedNumber (JNum x) | None => None end) qs.
Proof.
  intros Hm Hi Hl Hs. unfold serializeModel in Hs. rewrite Hm, Hl in Hs. cbn [bool_decide] in Hs.
  unfold buildPreviewRows. rewrite Hm, Hl. destruct (toNumberOrNull (JStr (inputPrice m))) as [i|]; [|done].
  set (q f := (λ x, ndiv x i) <$> toNumberOrNull (JStr (f m))).
  exists [Some (ndiv i (num_of_Z 2)); q completionPrice; q cachePrice; q createCachePrice; q imagePrice; q audioInputPrice;
          match toNumberOrNull (JStr (audioOutputPrice m)), toNumberOrNull (JStr (audioInputPrice m)) with
          | Some ao, Some ai => Some (ndiv ao ai) | _, _ => None end].
  unfold q, quotient_or_blank, quotient in *. clear q. split; [done|]. cbn [map snd tail].
  destruct (toNumberOrNull (JStr (audioOutputPrice m))) as [ao|] eqn:Eo.
  - destruct (toNumberOrNull (JStr (audioInputPrice m))) as [ai|] eqn:Ea; [|done].
    destruct (neq ai nzero) eqn:Ez; [done|]. injection Hs as <-.
    split; by destruct (toNumberOrNull (JStr (completionPrice m))), (toNumberOrNull (JStr (cachePrice m))),
      (toNumberOrNull (JStr (createCachePrice m))), (toNumberOrNull (JStr (imagePrice m))).
  - injection Hs as <-.
    split; by destruct (toNumberOrNull (JStr (completionPrice m))), (toNumberOrNull (JStr (cachePrice m))),
      (toNumberOrNull (JStr (createCachePrice m))), (toNumberOrNull (JStr (imagePrice m))),
      (toNumberOrNull (JStr (audioInputPrice m))).
Qed.

Definition sample_model : model :=
  Model (js "gpt") PerToken [] (js "2.5") (js "10") [] false (js "0.25") [] [] (js "5") (js "20") [] [] EMPTY_RATIOS false.

Lemma preview_is_saved_witness :
  map snd (buildPreviewRows (λ s, s) (Some sample_model)) =
    [js "1.25"; js "4"; js "0.1"; js "空"; js "空"; js "2"; js "4"] ∧
  ∃ qs : list (option num),
    map fst (buildPreviewRows (λ s, s) (Some sample_model)) = tail RATIO_KEYS ∧
    map snd (buildPreviewRows (λ s, s) (Some sample_model)) =
      map (λ q, match q with Some x => formatNumber (JNum x) | None => js "空" end) qs ∧
    tail (saved_values match serializeModel sample_model with inl s => s | inr _ => NOTHING_SAVED end) =
      map (λ q, match q with Some x => toNormalizedNumber (JNum x) | None => None end) qs.
Proof.
  split; [vm_compute; reflexivity|].
  apply (preview_is_saved (λ s, s) sample_model); [reflexivity|vm_compute; discriminate|reflexivity|vm_compute; reflexivity].
Defined.

(** A price field of the form: blank, or a number. *)
Definition price_ok (s : jsstr) : bool := is_empty s || bool_decide (toNumberOrNull (JStr s) ≠ None).

Lemma price_ok_value s : price_ok s = true → toNumberOrNull (JStr s) ≠ None ↔ hasText s = true.
Proof.
  unfold price_ok. destruct s as [|c s]; [done|]. cbn [is_empty orb]. intros H%bool_decide_eq_true. by split.
Qed.

(** When the form shows neither of the two warnings about missing input
    prices, saving a per-token model does not fail, provided that its price
    fields are blank or numbers and the audio input price is not zero. *)
Theorem no_warning_saves m :
  billingMode m = PerToken →
  forallb price_ok [inputPrice m; completionPrice m; cachePrice m; createCachePrice m; imagePrice m;
                    audioInputPrice m; audioOutputPrice m] = true →
  match toNumberOrNull (JStr (audioInputPrice m)) with Some x => neq x nzero = false | None => True end →
  WInputFirst ∉ getModelWarnings (Some m) → WAudioInputFirst ∉ getModelWarnings (Some m) →
  ∃ s, serializeModel m = inl s.
Proof.
  intros Hm Hok Hz Hw1 Hw2. cbn [forallb] in Hok. rewrite !andb_true_iff in Hok.
  destruct Hok as (Hi & Hc & Hca & Hcc & Him & Hai & Hao & _). unfold serializeModel. rewrite Hm. cbn [bool_decide].
  assert (Hinput : hasText (inputPrice m) = false →
    existsb hasText [completionPrice m; cachePrice m; createCachePrice m; imagePrice m; audioInputPrice m; audioOutputPrice m] = false).
  { intros Hin. apply not_true_is_false. intros He. apply Hw1. unfold getModelWarnings. rewrite Hm.
    change (bool_decide (PerToken = TieredExpr)) with false. change (bool_decide (PerToken = PerToken)) with true.
    cbn [existsb negb andb orb] in *. rewrite Hin, He. cbn [orb andb]. rewrite !elem_of_app. right; right; left. by left. }
  assert (Haudio : hasText (audioOutputPrice m) = true → hasText (audioInputPrice m) = true).
  { intros Ho. apply not_false_is_true. intros Ha. apply Hw2. unfold getModelWarnings. rewrite Hm, Ho, Ha.
    change (bool_decide (PerToken = TieredExpr)) with false. change (bool_decide (PerToken = PerToken)) with true.
    cbn [negb andb]. rewrite !elem_of_app. right; right; right. by left. }
  assert (Hnull : ∀ s, price_ok s = true → hasText s = false → toNumberOrNull (JStr s) = None).
  { intros s Hs Ht. destruct (toNumberOrNull (JStr s)) eqn:E; [|done].
    assert (hasText s = true) by (apply price_ok_value; [done|by rewrite E]). congruence. }
  destruct (toNumberOrNull (JStr (inputPrice m))) as [i|] eqn:Ei.
  - destruct (toNumberOrNull (JStr (audioOutputPrice m))) as [ao|] eqn:Eo; [|by eexists].
    assert (Ha : hasText (audioInputPrice m) = true).
    { apply Haudio. apply price_ok_value; [done|by rewrite Eo]. }
    apply price_ok_value in Ha; [|done]. destruct (toNumberOrNull (JStr (audioInputPrice m))); [|done].
    rewrite Hz. by eexists.
  - assert (Hin : hasText (inputPrice m) = false).
    { apply not_true_is_false. intros H%price_ok_value; [|done]. by rewrite Ei in H. }
    specialize (Hinput Hin). cbn [existsb] in Hinput. rewrite !orb_false_iff in Hinput.
    destruct Hinput as (? & ? & ? & ? & ? & ? & _). rewrite !Hnull by done. by eexists.
Qed.

Lemma no_warning_saves_witness : ∃ s, serializeModel sample_model = inl s.
Proof.
  apply (no_warning_saves sample_model); try (vm_compute; reflexivity).
  all: intros H; vm_compute in H; by apply elem_of_nil in H.
Defined.

(** ** Tiered models *)

Lemma Forall2_right {A B} (R : A → B → Prop) l k y : Forall2 R l k → y ∈ k → ∃ x, x ∈ l ∧ R x y.
Proof.
  induction 1 as [|a b l k Hab _ IH]; [by intros ?%elem_of_nil|].
  intros [->|Hy]%elem_of_cons; [exists a; split; [by left|done]|]. destruct (IH Hy) as (x & Hx & HR).
  exists x. split; [by right|done].
Qed.

Lemma loaded_from localeCompare candidates o ms m :
  load_models localeCompare candidates o = Some ms → m ∈ ms → buildModelState (name m) (read_maps o) = Some m.
Proof.
  unfold load_models. intros H Hin. apply bind_Some in H as (built & Hb & [= <-]). rewrite sort_perm in Hin.
  apply map_opt_Forall2 in Hb. apply (Forall2_right _ _ _ _ Hb) in Hin as (n & _ & Hn).
  by rewrite (buildModelState_name n _ m Hn).
Qed.

(** A tiered model keeps no fallback ratios: whatever ratios and prices
    the options hold for it, loading forgets them and saving writes none. *)
Theorem tiered_fallback_lost localeCompare candidates o ms m :
  load_models localeCompare candidates o = Some ms → m ∈ ms → billingMode m = TieredExpr →
  serializeModel m = inl NOTHING_SAVED.
Proof.
  intros Hl Hin Hm. apply (loaded_from _ _ _ _ _ Hl), buildModelState_cases in Hin as [He|(? & ? & ? & _ & _ & ->)]; [|done].
  exfalso. rewrite He in Hm. revert Hm. unfold buildRatioState. destruct (normalizeCompletionRatioMeta _). cbn [billingMode].
  by case_match.
Qed.

Lemma tiered_fallback_lost_witness :
  at_name (smModelRatio (read_maps sample_options)) (js "t") = JNum (num_of_Z 2) ∧
  ∃ m, m ∈ models sample_loaded ∧ name m = js "t" ∧ serializeModel m = inl NOTHING_SAVED.
Proof.
  split; [vm_compute; reflexivity|].
  exists (buildTieredState (js "t") (jsq "tier('base', p * 2 + c * 8)") (jsq "(header('x') == 'y' ? 0.5 : 1)")).
  split; [vm_compute; left|]. split; [reflexivity|].
  apply (tiered_fallback_lost by_length [] sample_options (models sample_loaded)); [vm_compute; reflexivity| |reflexivity].
  vm_compute. left.
Defined.

(** What the two tiered maps hold for a name. *)
Definition tiered_entry (out : outputs) (n : jsstr) : jval * jval := (obj_get (out_mode out) n, obj_get (out_expr out) n).
Definition final_expr (m : model) : jsstr := combineBillingExpr (Some (billingExpr m)) (Some (requestRuleExpr m)).

Lemma add_model_tiered m out out' n :
  add_model m out = inl out' →
  tiered_entry out' n =
  if bool_decide (billingMode m = TieredExpr) && negb (is_empty (final_expr m)) && streq (name m) n
  then (JStr (js "tiered_expr"), JStr (final_expr m)) else tiered_entry out n.
Proof.
  intros H. assert (Ht : tiered_entry out' n = tiered_entry (add_tiered m out) n).
  { unfold add_model in H. destruct (serializeModel m); [by injection H as <-|].
    case_bool_decide; [by injection H as <-|done]. }
  rewrite Ht. unfold add_tiered, final_expr. case_bool_decide; [|done]. destruct (is_empty _); [done|].
  unfold tiered_entry. cbn [out_mode out_expr]. rewrite !obj_get_set. by destruct (streq (name m) n).
Qed.

Lemma collect_other ms out out' n :
  collect_outputs ms out = inl out' → n ∉ map name ms → tiered_entry out' n = tiered_entry out n.
Proof.
  revert out. induction ms as [|m ms IH]; intros out; cbn [collect_outputs map]; [by intros [= <-]|].
  destruct (add_model m out) as [o1|] eqn:E; [|done]. intros Hc [Hne Hn]%not_elem_of_cons.
  rewrite (IH o1 Hc Hn), (add_model_tiered _ _ _ n E). assert (streq (name m) n = false) as -> by by apply streq_false.
  by rewrite andb_false_r.
Qed.

Lemma collect_tiered ms out out' m :
  collect_outputs ms out = inl out' → NoDup (map name ms) → m ∈ ms →
  billingMode m = TieredExpr → final_expr m ≠ [] →
  tiered_entry out' (name m) = (JStr (js "tiered_expr"), JStr (final_expr m)).
Proof.
  revert out. induction ms as [|m' ms IH]; intros out; [by intros _ _ ?%elem_of_nil|].
  cbn [collect_outputs map]. destruct (add_model m' out) as [o1|] eqn:E; [|done].
  intros Hc [Hnot Hnd]%NoDup_cons [->|Hin]%elem_of_cons Hm Hne; [|by apply (IH o1)].
  rewrite (collect_other _ _ _ _ Hc Hnot), (add_model_tiered _ _ _ _ E).
  rewrite bool_decide_eq_true_2, streq_refl by done. by destruct (final_expr m').
Qed.

(** The options after every request has been stored. *)
Definition stored (reqs : list (jsstr * jsstr)) (meta : option jsstr) : options :=
  let get k := assoc_get reqs (js k) in
  Options (get "ModelPrice") (get "ModelRatio") (get "CompletionRatio") meta (get "CacheRatio") (get "CreateCacheRatio")
    (get "ImageRatio") (get "AudioRatio") (get "AudioCompletionRatio")
    (get "billing_setting.billing_mode") (get "billing_setting.billing_expr").

Lemma put_text_reads o : json_ok (JObj o) = true → parseOptionJSON (Some (put_text o)) = JObj o.
Proof.
  intros Hok. destruct (parse_stringify_at (js "  ") (JObj o) ltac:(done) Hok) as (t & Ht & Hp).
  unfold parseOptionJSON, put_text, stringify2. rewrite Ht. cbn [default id]. rewrite Hp.
  assert (∃ r, t = 123%N :: r) as (r & ->).
  { cbn [stringify_at] in Ht. injection Ht as <-. unfold wrap. destruct (omap _ _); [by eexists|]. by eexists. }
  destruct (is_empty (trim (123%N :: r))) eqn:E; [|done]. apply is_empty_true in E. by apply trim_cons_nonempty in E.
Qed.

Lemma add_values_length n s l : length l = 8 → length (add_values n s l) = 8.
Proof. intros H. unfold add_values. rewrite length_zip_with. cbn [saved_values length]. lia. Qed.

Lemma collect_length ms out out' :
  collect_outputs ms out = inl out' → length (out_ratios out) = 8 → length (out_ratios out') = 8.
Proof.
  revert out. induction ms as [|m ms IH]; intros out; cbn [collect_outputs]; [by intros [= <-]|].
  destruct (add_model m out) as [o1|] eqn:E; [|done]. intros Hc Hl. apply (IH o1 Hc). clear Hc IH.
  assert (Ht : length (out_ratios (add_tiered m out)) = 8) by (unfold add_tiered; by repeat case_match).
  unfold add_model in E. destruct (serializeModel m).
  - injection E as <-. by apply add_values_length.
  - case_bool_decide; [by injection E as <-|done].
Qed.

(** A tiered model survives saving and loading: the editor writes the
    combined expression into the stored options, and loading them gives the
    request rules exactly and the billing expression without needless outer
    parentheses, whatever the other models are. *)
Theorem tiered_save_load ms out m gs meta :
  NoDup (map name ms) → collect_outputs ms no_outputs = inl out →
  json_ok (JObj (out_mode out)) = true → json_ok (JObj (out_expr out)) = true →
  m ∈ ms → billingMode m = TieredExpr →
  requestRuleExpr m = buildRequestRuleExpr gs → forallb rt_group gs = true → requestRuleExpr m ≠ [] →
  trim (billingExpr m) ≠ [] → balanced (trim (billingExpr m)) = true →
  is_rule_part (40%N :: trim (billingExpr m) ++ [41%N]) = Some false →
  ∃ reqs, submit_requests ms = inl reqs ∧
    buildModelState (name m) (read_maps (stored reqs meta)) =
    Some (buildTieredState (name m) (unwrapOuterParens (Some (billingExpr m))) (requestRuleExpr m)).
Proof.
  intros Hnd Hc Hj1 Hj2 Hin Hm Hrules Hrt Hrne Hne Hbal Hnr. rewrite Hrules in Hrne.
  pose proof (split_combine (billingExpr m) gs Hne Hbal Hnr Hrt Hrne) as Hsplit. rewrite <- Hrules in Hsplit.
  assert (Hf : final_expr m ≠ []).
  { intros E. unfold final_expr in E. rewrite E in Hsplit.
    change (splitBillingExprAndRequestRules (Some [])) with (Some ([] : jsstr, [] : jsstr)) in Hsplit.
    injection Hsplit as _ E'. by rewrite <- Hrules, <- E' in Hrne. }
  unfold submit_requests. rewrite Hc. eexists. split; [reflexivity|].
  pose proof (collect_tiered _ _ _ _ Hc Hnd Hin Hm Hf) as Ht. injection Ht as Ht1 Ht2.
  pose proof (collect_length _ _ _ Hc eq_refl) as Hl.
  destruct (out_ratios out) as [|r0 [|r1 [|r2 [|r3 [|r4 [|r5 [|r6 [|r7 [|? ?]]]]]]]]]; try done.
  unfold buildModelState, read_maps. cbn [smModelBillingMode smModelBillingExpr stored oBillingMode oBillingExpr].
  change (assoc_get _ (js "billing_setting.billing_mode")) with (Some (put_text (out_mode out))).
  change (assoc_get _ (js "billing_setting.billing_expr")) with (Some (put_text (out_expr out))).
  rewrite !put_text_reads by done. unfold at_name. cbn [map_entries]. rewrite Ht1, Ht2.
  change (streq (js "tiered_expr") (js "tiered_expr")) with true. cbn iota.
  assert (text_value (JStr (final_expr m)) = Some (final_expr m)) as -> by (by destruct (final_expr m)).
  cbn [mbind option_bind]. unfold final_expr. by rewrite Hsplit.
Qed.

Definition sample_tiered : model :=
  set_rules (buildRequestRuleExpr sample_groups)
    (set_mode TieredExpr (jsq "tier('base', p * 2 + c * 8)") sample_model).

Lemma tiered_save_load_witness :
  ∃ reqs, submit_requests [Model (js "o1") PerRequest (js "0.1") [] [] [] false [] [] [] [] [] [] [] EMPTY_RATIOS false;
                           sample_tiered] = inl reqs ∧
    buildModelState (js "gpt") (read_maps (stored reqs None)) =
    Some (buildTieredState (js "gpt") (jsq "tier('base', p * 2 + c * 8)") (buildRequestRuleExpr sample_groups)).
Proof.
  eapply (tiered_save_load
    [Model (js "o1") PerRequest (js "0.1") [] [] [] false [] [] [] [] [] [] [] EMPTY_RATIOS false; sample_tiered]
    _ sample_tiered sample_groups None).
  - apply (bool_decide_unpack _). vm_compute. exact I.
  - vm_compute. reflexivity.
  - vm_compute. reflexivity.
  - vm_compute. reflexivity.
  - right. left.
  - reflexivity.
  - reflexivity.
  - vm_compute. reflexivity.
  - vm_compute. discriminate.
  - vm_compute. discriminate.
  - vm_compute. reflexivity.
  - vm_compute. reflexivity.
Defined.
