(* ===== verification/ThinkTags.v ===== *)
(** * Thinking inside replies
      ([web/src/helpers/utils.jsx], [processThinkTags] and
      [processIncompleteThinkTags])

    Some models write their reasoning into the reply between [<think>] and
    [</think>].  The playground takes the reply apart when it is complete or
    when the user stops it. *)

From S2P Require Import Prelude JsString JsRegex.

Definition OPEN := Eval vm_compute in js "<think>".
Definition CLOSE := Eval vm_compute in js "</think>".
Definition SEPARATOR := Eval vm_compute in ([10; 10]%N ++ js "---" ++ [10; 10]%N).

Open Scope re_scope.
(** [/<think>([\s\S]*?)<\/think>/g] *)
Definition THINK_TAG_REGEX : regex := RLit OPEN +> RGroup 1 (RStar false (RSet any_unit)) +> RLit CLOSE.
(** [/<\/?think>/g] *)
Definition STRAY_TAG_REGEX : regex := RLit (js "<") +> ROpt (RLit (js "/")) +> RLit (js "think>").
Close Scope re_scope.

(** The [exec] loop: the texts between the matches and the captured thoughts.
    A match consumes at least the two tags, so the length of the text is
    enough fuel. *)
Fixpoint think_loop (fuel : nat) (l s : jsstr) : list jsstr * list jsstr :=
  match fuel with
  | O => ([s], [])
  | S f =>
    match search THINK_TAG_REGEX l s with
    | None => ([s], [])
    | Some (b, e) =>
      let '(replyParts, thoughts) := think_loop f (lft e) (rgt e) in
      (take (length s - length (rgt b)) s :: replyParts, default [] (cap_get 1 (caps e)) :: thoughts)
    end
  end.

(** [reasoning && thought ? reasoning + separator + thought : reasoning || thought] *)
Definition add_thought (reasoning thought : jsstr) : jsstr :=
  if negb (is_empty reasoning) && negb (is_empty thought) then reasoning ++ SEPARATOR ++ thought
  else if is_empty reasoning then thought else reasoning.

Definition processThinkTags (content reasoningContent : jsstr) : jsstr * jsstr :=
  if is_empty content || negb (includes OPEN content) then (content, reasoningContent)
  else
    let '(replyParts, thoughts) := think_loop (S (length content)) [] content in
    (trim (re_replace_all STRAY_TAG_REGEX [] (join [] replyParts)),
     add_thought reasoningContent (join SEPARATOR thoughts)).

(** [s.lastIndexOf(p)] for a non-empty [p]. *)
Fixpoint lastIndexOf (p s : jsstr) : option nat :=
  match s with
  | [] => None
  | c :: s' => match lastIndexOf p s' with
               | Some i => Some (S i)
               | None => if starts_with p s then Some 0 else None
               end
  end.

Definition processIncompleteThinkTags (content reasoningContent : jsstr) : jsstr * jsstr :=
  if is_empty content then ([], reasoningContent)
  else
    match lastIndexOf OPEN content with
    | None => processThinkTags content reasoningContent
    | Some lastOpenThinkIndex =>
      let fragmentAfterLastOpen := drop lastOpenThinkIndex content in
      if negb (includes CLOSE fragmentAfterLastOpen) then
        let unclosedThought := trim (drop (length OPEN) fragmentAfterLastOpen) in
        let cleanContent := take lastOpenThinkIndex content in
        processThinkTags cleanContent
          (if is_empty unclosedThought then reasoningContent
           else if is_empty reasoningContent then unclosedThought
           else reasoningContent ++ SEPARATOR ++ unclosedThought)
      else processThinkTags content reasoningContent
    end.

(** ** Matching a lazy star over a class *)

Fixpoint lazy_set {A} (p : N → bool) (k : pos → option A) (l s : jsstr) (cs : list (nat * option jsstr)) : option A :=
  match k (Pos l s cs) with
  | Some x => Some x
  | None => match s with
            | c :: s' => if p c then lazy_set p k (c :: l) s' cs else None
            | [] => None
            end
  end.

Lemma m_lazy_set {A} p (k : pos → option A) l s cs :
  m (RStar false (RSet p)) k (Pos l s cs) = lazy_set p k l s cs.
Proof.
  change (star_loop (m (RSet p)) (reset (RSet p)) false k (length s) (Pos l s cs) = lazy_set p k l s cs).
  revert l. induction s as [|c s IH]; intros l; [cbn; by destruct (k _)|].
  change (match k (Pos l (c :: s) cs) with Some x => Some x | None =>
            if p c then if length s <? S (length s)
                 then star_loop (m (RSet p)) (reset (RSet p)) false k (length s) (Pos (c :: l) s cs)
                 else None else None end = lazy_set p k l (c :: s) cs).
  cbn [lazy_set]. destruct (k _); [done|]. destruct (p c); [|done].
  destruct (Nat.ltb_spec (length s) (S (length s))); [|lia]. by rewrite IH.
Qed.

Lemma lazy_set_first {A} p (k : pos → option A) l a b cs x :
  forallb p a = true →
  (∀ a1 c a2 l', a = a1 ++ c :: a2 → k (Pos l' (c :: a2 ++ b) cs) = None) →
  k (Pos (rev a ++ l) b cs) = Some x → lazy_set p k l (a ++ b) cs = Some x.
Proof.
  revert l. induction a as [|c a IH]; intros l Hp Hno Hk.
  - cbn [rev app] in Hk. cbn [app]. destruct b; cbn [lazy_set]; by rewrite Hk.
  - cbn [forallb] in Hp. bool_hyps. cbn [app lazy_set]. rewrite (Hno [] c a l eq_refl), H.
    apply IH; [done| |].
    + intros a1 d a2 l' ->. by apply (Hno (c :: a1)).
    + cbn [rev] in Hk. by rewrite <- app_assoc in Hk.
Qed.

(** ** Texts without angle brackets *)

Definition no_tag (s : jsstr) : bool := forallb (λ c, negb (c =? 60)%N) s.

Lemma no_tag_cons c s : no_tag (c :: s) = true → c ≠ 60%N ∧ no_tag s = true.
Proof. cbn. intros [H%negb_true_iff Hs]%andb_true_iff. split; [by apply N.eqb_neq|done]. Qed.

Lemma no_tag_app a b : no_tag (a ++ b) = no_tag a && no_tag b.
Proof. apply forallb_app. Qed.

Lemma think_not_here {A} (k : pos → option A) l c s : c ≠ 60%N → m THINK_TAG_REGEX k (Pos l (c :: s) []) = None.
Proof. intros H. unfold THINK_TAG_REGEX. rewrite m_seq. by apply m_lit_None_cons. Qed.

Lemma search_no_tag l s : no_tag s = true → search THINK_TAG_REGEX l s = None.
Proof.
  revert l. induction s as [|c s IH]; intros l; [done|]. intros [Hc Hs]%no_tag_cons. cbn [search].
  rewrite think_not_here by done. by apply IH.
Qed.

Lemma stray_no_tag l s : no_tag s = true → search STRAY_TAG_REGEX l s = None.
Proof.
  revert l. induction s as [|c s IH]; intros l; [done|]. intros [Hc Hs]%no_tag_cons. cbn [search].
  unfold STRAY_TAG_REGEX. rewrite m_seq. change (js "<") with [60%N]. rewrite m_lit_None_cons by done. by apply IH.
Qed.

Lemma replace_no_tag s : no_tag s = true → re_replace_all STRAY_TAG_REGEX [] s = s.
Proof. intros H. unfold re_replace_all. cbn [replace_go]. by rewrite stray_no_tag. Qed.

(** The first thought of a text is found where it stands. *)
Lemma search_think l r t rest :
  no_tag r = true → no_tag t = true →
  ∃ l1 l2, search THINK_TAG_REGEX l (r ++ OPEN ++ t ++ CLOSE ++ rest) =
           Some (Pos l1 (OPEN ++ t ++ CLOSE ++ rest) [], Pos l2 rest [(1, Some t)]).
Proof.
  intros Hr Ht. revert l. induction r as [|c r IH]; intros l.
  - assert (Hm : ∃ l2, m THINK_TAG_REGEX Some (Pos l (OPEN ++ t ++ CLOSE ++ rest) []) = Some (Pos l2 rest [(1, Some t)])).
    { unfold THINK_TAG_REGEX. rewrite m_seq, m_lit_app, m_seq. eexists.
      match goal with |- m (RGroup ?n ?r) ?k ?st = ?e =>
        change (m r (λ st', k (cap_set n (Some (between st st')) st')) st = e) end.
      rewrite m_lazy_set. apply lazy_set_first.
      - clear. by induction t.
      - intros a1 c a2 l' ->. rewrite no_tag_app in Ht. apply andb_true_iff in Ht as [_ Ht].
        apply no_tag_cons in Ht as [Hc _]. unfold cap_set. cbn [lft rgt caps]. by apply m_lit_None_cons.
      - unfold cap_set. cbn [lft rgt caps]. rewrite between_app, m_lit_app. reflexivity. }
    destruct Hm as (l2 & Hm). exists l, l2. change (OPEN ++ t ++ CLOSE ++ rest) with (60%N :: (tail OPEN ++ t ++ CLOSE ++ rest)) in *.
    cbn [app search]. by rewrite Hm.
  - apply no_tag_cons in Hr as [Hc Hr]. destruct (IH Hr (c :: l)) as (l1 & l2 & Hs). exists l1, l2.
    cbn [app search]. by rewrite think_not_here.
Qed.

(** A reply with thoughts in it: pairs of text and thought, then text. *)
Fixpoint render (segs : list (jsstr * jsstr)) (last : jsstr) : jsstr :=
  match segs with
  | [] => last
  | (r, t) :: segs' => r ++ OPEN ++ t ++ CLOSE ++ render segs' last
  end.
Definition segs_ok (segs : list (jsstr * jsstr)) : bool := forallb (λ e, no_tag e.1 && no_tag e.2) segs.

Lemma think_loop_render segs last fuel l :
  segs_ok segs = true → no_tag last = true → length segs < fuel →
  think_loop fuel l (render segs last) = (map fst segs ++ [last], map snd segs).
Proof.
  intros Hs Hl. revert fuel l. induction segs as [|[r t] segs IH]; intros [|fuel] l Hf; try (cbn in Hf; lia).
  - cbn [think_loop render]. by rewrite search_no_tag.
  - cbn [segs_ok forallb fst snd] in Hs. bool_hyps. cbn [think_loop render].
    destruct (search_think l r t (render segs last)) as (l1 & l2 & ->); [done|done|]. cbn [lft rgt caps].
    rewrite IH; [|done|cbn in Hf; lia]. cbn [map fst snd app]. f_equal. f_equal.
    rewrite length_app. replace (_ + _ - _) with (length r) by (rewrite !length_app; lia). by apply take_app_length.
Qed.

Lemma join_nil_concat l : join [] l = concat l.
Proof. induction l as [|x [|y l] IH]; [done|cbn; by rewrite app_nil_r|]. rewrite join_cons, IH. done. Qed.

Lemma render_length segs last : length segs ≤ length (render segs last).
Proof. induction segs as [|[r t] segs IH]; cbn [render length]; [lia|]. rewrite !length_app. cbn [length OPEN]. lia. Qed.

Lemma process_render segs last reasoning :
  segs ≠ [] → segs_ok segs = true → no_tag last = true →
  processThinkTags (render segs last) reasoning =
  (trim (concat (map fst segs ++ [last])), add_thought reasoning (join SEPARATOR (map snd segs))).
Proof.
  intros Hne Hs Hl. unfold processThinkTags.
  assert (Hinc : includes OPEN (render segs last) = true).
  { destruct segs as [|[r t] segs]; [done|]. apply includes_true. cbn [render]. by exists r, (t ++ CLOSE ++ render segs last). }
  assert (is_empty (render segs last) = false) as -> by (by destruct (render segs last)).
  rewrite Hinc. cbn [negb orb].
  rewrite think_loop_render; [|done|done|pose proof (render_length segs last); lia].
  rewrite join_nil_concat, replace_no_tag; [done|].
  clear Hinc Hne. induction segs as [|[r t] segs IH]; cbn [map app concat]; [by rewrite app_nil_r|].
  cbn [segs_ok forallb fst snd] in *. bool_hyps. rewrite no_tag_app. apply andb_true_iff. auto.
Qed.

(** A complete reply is taken apart exactly: the texts around the
    thoughts, in order and trimmed, become the visible reply; the thoughts, in
    order, are appended to the reasoning; nothing else is dropped. *)
Theorem think_tags_separate segs last reasoning :
  segs ≠ [] → segs_ok segs = true → no_tag last = true →
  processThinkTags (render segs last) reasoning =
  (trim (concat (map fst segs ++ [last])), add_thought reasoning (join SEPARATOR (map snd segs))).
Proof. apply process_render. Qed.

Lemma think_tags_separate_witness :
  processThinkTags (js "Hi <think>a</think>there<think>b</think>!") (js "r") =
  (js "Hi there!", js "r" ++ SEPARATOR ++ js "a" ++ SEPARATOR ++ js "b").
Proof.
  apply (think_tags_separate [(js "Hi ", js "a"); (js "there", js "b")] (js "!") (js "r")); [discriminate| |]; reflexivity.
Defined.

(** ** Stopped in the middle of a thought *)

Lemma lastIndexOf_last p a b :
  starts_with p b = true → b ≠ [] → (∀ x y, b = x ++ y → x ≠ [] → y ≠ [] → starts_with p y = false) →
  lastIndexOf p (a ++ b) = Some (length a).
Proof.
  intros Hb Hne Hlater. induction a as [|c a IH]; cbn [app lastIndexOf length]; [|by rewrite IH].
  destruct b as [|d b]; [done|]. cbn [lastIndexOf].
  assert (Hn : lastIndexOf p b = None).
  { assert (H : ∀ x y, b = x ++ y → y ≠ [] → starts_with p y = false) by (intros x y -> Hy; by apply (Hlater (d :: x) y)).
    clear -H. induction b as [|e b IH]; [done|]. cbn [lastIndexOf]. rewrite IH; [by rewrite (H [] (e :: b))|].
    intros x y -> Hy. by apply (H (e :: x) y). }
  by rewrite Hn, Hb.
Qed.

Lemma starts_with_no_tag p c s : no_tag (c :: s) = true → starts_with (60%N :: p) (c :: s) = false.
Proof. intros [Hc _]%no_tag_cons. unfold starts_with. cbn [strip_prefix]. destruct (N.eqb_spec 60 c); [congruence|done]. Qed.

Lemma includes_no_tag p s : no_tag s = true → includes (60%N :: p) s = false.
Proof.
  induction s as [|c s IH]; [done|]. intros H. cbn [includes]. rewrite (starts_with_no_tag p c s H).
  apply no_tag_cons in H as [_ H]. by rewrite IH.
Qed.

Lemma open_suffix u x y :
  no_tag u = true → OPEN ++ u = x ++ y → x ≠ [] → y ≠ [] → no_tag y = true.
Proof.
  intros Hu He Hx Hy. destruct x as [|c x]; [done|]. injection He as <- He.
  assert (Ht : no_tag (tail OPEN ++ u) = true) by (rewrite no_tag_app, Hu; done).
  change ([116; 104; 105; 110; 107; 62]%N ++ u) with (tail OPEN ++ u) in He.
  cbn [tail OPEN app] in *. rewrite He, no_tag_app in Ht. by apply andb_true_iff in Ht as [_ ?].
Qed.

(** A reply stopped inside a thought loses nothing either: the finished
    part is taken apart as usual and the unfinished thought goes to the end
    of the given reasoning, before the finished thoughts. *)
Theorem unfinished_thought_kept segs last u reasoning :
  segs ≠ [] → segs_ok segs = true → no_tag last = true → no_tag u = true →
  processIncompleteThinkTags (render segs last ++ OPEN ++ u) reasoning =
  (trim (concat (map fst segs ++ [last])),
   add_thought (add_thought reasoning (trim u)) (join SEPARATOR (map snd segs))).
Proof.
  intros Hne Hs Hl Hu. unfold processIncompleteThinkTags.
  assert (is_empty (render segs last ++ OPEN ++ u) = false) as -> by (by destruct (render segs last)).
  rewrite lastIndexOf_last; [|apply starts_with_app|done|].
  2: { intros x y He Hx Hy. pose proof (open_suffix u x y Hu He Hx Hy). destruct y; [done|]. by apply starts_with_no_tag. }
  rewrite drop_app_length, take_app_length.
  assert (includes CLOSE (OPEN ++ u) = false) as ->.
  { change (includes CLOSE (tail OPEN ++ u) = false). apply (includes_no_tag (tail CLOSE)). by rewrite no_tag_app, Hu. }
  cbn [negb]. rewrite drop_app_length, process_render by done. do 2 f_equal. unfold add_thought.
  by destruct (trim u), reasoning.
Qed.

Lemma unfinished_thought_kept_witness :
  processIncompleteThinkTags (js "Hi <think>a</think>there <think> unfin") (js "") =
  (js "Hi there", js "unfin" ++ SEPARATOR ++ js "a").
Proof.
  apply (unfinished_thought_kept [(js "Hi ", js "a")] (js "there ") (js " unfin") []); [discriminate| | |]; reflexivity.
Defined.
