(* ===== verification/Playground.v ===== *)
(** * The playground's conversation
      ([web/src/hooks/playground/useApiRequest.jsx], [useMessageActions.jsx],
      [useMessageEdit.jsx], [web/src/pages/Playground/index.jsx], and the
      message helpers of [web/src/helpers/utils.jsx] and [api.js])

    A conversation is a list of messages.  Every [setMessage] updater of the
    hooks is a function on it; the events of a streamed answer act on a
    [session], which adds the state the stream handler keeps.  Dates, the
    translation [t] and the text of error reports are arguments. *)

From S2P Require Import Prelude JsString JsRegex JsNumber Json ThinkTags.

(** ** Messages *)

Inductive role := User | Assistant | System.
#[export] Instance role_eq_dec : EqDecision role.
Proof. solve_decision. Defined.

Inductive mstatus := LOADING | INCOMPLETE | COMPLETE | ERROR.
#[export] Instance mstatus_eq_dec : EqDecision mstatus.
Proof. solve_decision. Defined.

(** Content is text, or a list of text and image parts. *)
Inductive part := PText (text : jsstr) | PImage (url : jsstr).
Inductive content := CText (s : jsstr) | CParts (ps : list part).

Record message := Msg {
  role_of : role; body : content; createAt : Z; id : jsstr; reasoningContent : option jsstr;
  isReasoningExpanded : bool; isThinkingComplete : bool; hasAutoCollapsed : bool;
  status : option mstatus; errorCode : jval }.

Definition has_status (s : mstatus) (m : message) : bool := bool_decide (status m = Some s).

(** [getTextContent] *)
Definition getTextContent (m : message) : jsstr :=
  match body m with
  | CText s => s
  | CParts ps => match List.find (λ p, match p with PText _ => true | PImage _ => false end) ps with
                 | Some (PText s) => s
                 | _ => []
                 end
  end.

(** The ids count up from 4 in every page. *)
Definition first_message_id : Z := 4.
Definition generateMessageId (messageId : Z) : jsstr * Z := (string_of_Z messageId, (messageId + 1)%Z).

Definition createMessage (now : Z) (r : role) (c : content) (messageId : Z) : message * Z :=
  let '(i, next) := generateMessageId messageId in
  (Msg r c now i None false false false None JUndef, next).

Definition createLoadingAssistantMessage (now : Z) (messageId : Z) : message * Z :=
  let '(i, next) := generateMessageId messageId in
  (Msg Assistant (CText []) now i (Some []) true false false (Some LOADING) JUndef, next).

Definition buildMessageContent (textContent : jsstr) (imageUrls : list jsstr) (imageEnabled : bool) : content :=
  if is_empty textContent && Nat.eqb (length imageUrls) 0 then CText []
  else
    let validImageUrls := List.filter (λ url, negb (is_empty url) && negb (is_empty (trim url))) imageUrls in
    if imageEnabled && negb (Nat.eqb (length validImageUrls) 0)
    then CParts (PText textContent :: map (λ url, PImage (trim url)) validImageUrls)
    else CText textContent.

Definition hasImageContent (m : message) : bool :=
  match body m with
  | CParts ps => existsb (λ p, match p with PImage _ => true | PText _ => false end) ps
  | CText _ => false
  end.

(** The last message with a role, scanning from the end. *)
Definition last_with_role (r : role) (ms : list message) : option message :=
  List.find (λ m, bool_decide (role_of m = r)) (rev ms).
Definition getLastUserMessage := last_with_role User.
Definition getLastAssistantMessage := last_with_role Assistant.

(** ** The request body *)

Definition role_text (r : role) : jsstr :=
  match r with User => js "user" | Assistant => js "assistant" | System => js "system" end.
Definition part_json (p : part) : jval :=
  match p with
  | PText s => JObj [(js "type", JStr (js "text")); (js "text", JStr s)]
  | PImage u => JObj [(js "type", JStr (js "image_url")); (js "image_url", JObj [(js "url", JStr u)])]
  end.
Definition content_json (c : content) : jval :=
  match c with CText s => JStr s | CParts ps => JArr (map part_json ps) end.
Definition formatMessageForAPI (m : message) : jval :=
  JObj [(js "role", JStr (role_text (role_of m))); (js "content", content_json (body m))].
(** [message && message.role && (message.content || message.content === '')]:
    holds of every message with a role, whatever its content. *)
Definition isValidMessage (m : message) : bool :=
  negb (is_empty (role_text (role_of m))) &&
  (truthy (content_json (body m)) || match body m with CText s => is_empty s | CParts _ => false end).

Record inputs := Inputs {
  in_model : jsstr; in_group : jsstr; in_stream : bool; imageEnabled : bool; imageUrls : list jsstr;
  in_params : list (jsstr * jval) }.

Definition PARAMETERS : list jsstr :=
  map js ["temperature"; "top_p"; "max_tokens"; "frequency_penalty"; "presence_penalty"; "seed"]%string.

(** One turn of the loop over the parameters. *)
Definition add_parameter (inp : inputs) (parameterEnabled : jsstr → bool) (payload : list (jsstr * jval)) (param : jsstr)
    : list (jsstr * jval) :=
  let v := obj_get (in_params inp) param in
  if negb (parameterEnabled param) then payload
  else if streq param (js "max_tokens") then (if is_number v then obj_set payload param v else payload)
  else if negb (is_nullish v) then obj_set payload param v else payload.

Definition buildApiPayload (messages : list message) (systemPrompt : option jsstr) (inp : inputs)
    (parameterEnabled : jsstr → bool) : list (jsstr * jval) :=
  let processed := map formatMessageForAPI (List.filter isValidMessage messages) in
  let prompt := trim (default [] systemPrompt) in
  let processed := if is_empty prompt then processed
                   else JObj [(js "role", JStr (js "system")); (js "content", JStr prompt)] :: processed in
  let payload := [(js "model", JStr (in_model inp)); (js "group", JStr (in_group inp));
                  (js "messages", JArr processed); (js "stream", JBool (in_stream inp))] in
  fold_left (add_parameter inp parameterEnabled) PARAMETERS payload.

(** ** Updating the last message *)

(** [[...prev.slice(0, -1), next]] when the updater gives a next message. *)
Definition update_last (f : message → option message) (ms : list message) : list message :=
  match last ms with
  | Some m => match f m with Some m' => removelast ms ++ [m'] | None => ms end
  | None => ms
  end.

Definition with_flags (m : message) (done collapsed expanded : bool) : message :=
  Msg (role_of m) (body m) (createAt m) (id m) (reasoningContent m) expanded done collapsed (status m) (errorCode m).
Definition with_body (m : message) (c : content) : message :=
  Msg (role_of m) c (createAt m) (id m) (reasoningContent m) (isReasoningExpanded m) (isThinkingComplete m)
      (hasAutoCollapsed m) (status m) (errorCode m).
Definition with_reasoning (m : message) (r : option jsstr) : message :=
  Msg (role_of m) (body m) (createAt m) (id m) r (isReasoningExpanded m) (isThinkingComplete m)
      (hasAutoCollapsed m) (status m) (errorCode m).
Definition with_status (m : message) (s : mstatus) : message :=
  Msg (role_of m) (body m) (createAt m) (id m) (reasoningContent m) (isReasoningExpanded m) (isThinkingComplete m)
      (hasAutoCollapsed m) (Some s) (errorCode m).
Definition with_code (m : message) (c : jval) : message :=
  Msg (role_of m) (body m) (createAt m) (id m) (reasoningContent m) (isReasoningExpanded m) (isThinkingComplete m)
      (hasAutoCollapsed m) (status m) c.
Definition with_role (m : message) (r : role) : message :=
  Msg r (body m) (createAt m) (id m) (reasoningContent m) (isReasoningExpanded m) (isThinkingComplete m)
      (hasAutoCollapsed m) (status m) (errorCode m).

Definition applyAutoCollapseLogic (m : message) (thinkingComplete : bool) : message :=
  let shouldAutoCollapse := thinkingComplete && negb (hasAutoCollapsed m) in
  with_flags m thinkingComplete (shouldAutoCollapse || hasAutoCollapsed m)
    (if shouldAutoCollapse then false else isReasoningExpanded m).

(** [(content || '') + chunk]: parts turn into text the way arrays do. *)
Definition content_string (c : content) : jsstr :=
  match c with CText s => s | CParts ps => join (js ",") (map (λ _, js "[object Object]") ps) end.
Definition reasoning_text (m : message) : jsstr := default [] (reasoningContent m).

Inductive chunk_type := Reasoning | Content.

(** The number of matches of a literal, as [match] with the [g] flag. *)
Definition count_tag (tag s : jsstr) : nat := length (re_all (RLit tag) s).

Definition stream_content (m : message) (chunk : jsstr) : message :=
  let newContent := content_string (body m) ++ chunk in
  let tagsClosed :=
    isReasoningExpanded m && includes CLOSE newContent
    && Nat.ltb 0 (count_tag OPEN newContent) && Nat.ltb 0 (count_tag CLOSE newContent)
    && Nat.leb (count_tag OPEN newContent) (count_tag CLOSE newContent) in
  let thinkingComplete :=
    negb (is_empty (reasoning_text m)) && negb (isThinkingComplete m) || (tagsClosed || isThinkingComplete m) in
  with_status (applyAutoCollapseLogic (with_body m (CText newContent)) thinkingComplete) INCOMPLETE.

Definition stream_reasoning (m : message) (chunk : jsstr) : message :=
  let m' := with_status (with_reasoning m (Some (reasoning_text m ++ chunk))) INCOMPLETE in
  with_flags m' false (hasAutoCollapsed m') (isReasoningExpanded m').

Definition streamMessageUpdate (chunk : jsstr) (ty : chunk_type) (ms : list message) : list message :=
  update_last (λ m,
    if negb (bool_decide (role_of m = Assistant)) then None
    else if has_status ERROR m then None
    else if has_status LOADING m || has_status INCOMPLETE m
         then Some match ty with Reasoning => stream_reasoning m chunk | Content => stream_content m chunk end
         else None) ms.

(** [None] is the exception on an empty conversation.  The second component
    is the list handed to [saveMessages], if any. *)
Definition completeMessage (s : mstatus) (ms : list message) : option (list message * option (list message)) :=
  match last ms with
  | None => None
  | Some m =>
    if has_status COMPLETE m || has_status ERROR m then Some (ms, None)
    else let updated := removelast ms ++ [with_status (applyAutoCollapseLogic m true) s] in
         Some (updated, if bool_decide (s = COMPLETE) || bool_decide (s = ERROR) then Some updated else None)
  end.

Definition onStopGenerator (ms : list message) : list message :=
  update_last (λ m,
    if has_status LOADING m || has_status INCOMPLETE m then
      let '(c, r) := processIncompleteThinkTags (content_string (body m)) (reasoning_text m) in
      Some (with_status (applyAutoCollapseLogic
              (with_body (with_reasoning m (if is_empty r then None else Some r)) (CText c)) true) COMPLETE)
    else None) ms.

(** ** Answers in one piece *)

(** What [fetch] gives: a rejected promise, an error status with its body, or
    a body that is or is not JSON. *)
Inductive fetched :=
  | FetchFailed (errorMessage : jsstr)
  | HttpError (code : Z) (text : option jsstr)
  | HttpOk (data : option jval).

(** [v.choices?.[0]]; [None] when [v] is [null]. *)
Definition first_item (v : jval) : jval :=
  match v with
  | JArr (x :: _) => x
  | JObj o => obj_get o (js "0")
  | JStr (c :: _) => JStr [c]
  | _ => JUndef
  end.
Definition first_choice (v : jval) : option jval :=
  if is_nullish v then None else Some (first_item (prop v (js "choices"))).

Definition js_text (v : jval) : jsstr := if truthy v then String_of v else [].

Definition http_error_text (code : Z) (bodyText : jsstr) : jsstr :=
  js "HTTP error! status: " ++ string_of_Z code ++ js ", body: " ++ bodyText.

(** The message and code of the error thrown for an error status. *)
Definition http_error (code : Z) (text : option jsstr) : jsstr * jval :=
  let bodyText := match text with
                  | Some s => if is_empty s then js "无法读取错误响应体" else s
                  | None => js "无法读取错误响应体"
                  end in
  let parsed := match text with Some s => default JUndef (parse s) | None => JUndef end in
  let err := prop parsed (js "error") in
  if truthy err then
    (let msg := prop err (js "message") in if truthy msg then String_of msg else http_error_text code bodyText,
     js_or (prop err (js "code")) JNull)
  else (http_error_text code bodyText, JNull).

Section Requests.
Context (t : jsstr → jsstr).
(** The engine's message for a body that is not JSON or is [null]. *)
Context (engine_error : jsstr).

Definition if_loading (f : message → message) : list message → list message :=
  update_last (λ m, if has_status LOADING m then Some (applyAutoCollapseLogic (f m) true) else None).

Definition fail_message (errorMessage : jsstr) (code : jval) : list message → list message :=
  if_loading (λ m, with_status (with_code (with_body m (CText (t (js "请求发生错误: ") ++ errorMessage))) code) ERROR).

Definition answer_message (choice : jval) : list message → list message :=
  let msg := prop choice (js "message") in
  let '(c, r) := processThinkTags (js_text (prop msg (js "content")))
                   (js_text (js_or (prop msg (js "reasoning_content")) (prop msg (js "reasoning")))) in
  if_loading (λ m, with_status (with_reasoning (with_body m (CText c)) (Some r)) COMPLETE).

Definition handleNonStreamRequest (res : fetched) (ms : list message) : list message :=
  match res with
  | FetchFailed msg => fail_message msg JNull ms
  | HttpError code text => let '(msg, c) := http_error code text in fail_message msg c ms
  | HttpOk None => fail_message engine_error JNull ms
  | HttpOk (Some data) =>
    match first_choice data with
    | None => fail_message engine_error JNull ms
    | Some choice => if truthy choice then answer_message choice ms else ms
    end
  end.

(** ** Streamed answers *)

Record session := Session {
  messages : list message; isCurrent : bool; isClosed : bool; isStreamComplete : bool;
  responseData : jsstr; sseMessages : list jsstr; isStreaming : bool; savedLists : list (list message) }.

Definition start_session (ms : list message) : session := Session ms true false false [] [] true [].

Inductive sse_event :=
  | SseMessage (data : jsstr)
  | SseError (readyState : Z) (data : jsstr)
  | SseReadyState (readyState : Z) (httpStatus : option Z)
  | StreamFailed
  | Stop.

Definition complete_in (s : mstatus) (ss : session) : option session :=
  '(ms, saved) ← completeMessage s (messages ss);
  Some (Session ms (isCurrent ss) (isClosed ss) (isStreamComplete ss) (responseData ss) (sseMessages ss)
          (isStreaming ss) (match saved with Some l => savedLists ss ++ [l] | None => savedLists ss end)).

Definition with_messages (f : list message → list message) (ss : session) : session :=
  Session (f (messages ss)) (isCurrent ss) (isClosed ss) (isStreamComplete ss) (responseData ss) (sseMessages ss)
    (isStreaming ss) (savedLists ss).

Definition stream_if (v : jval) (ty : chunk_type) (ms : list message) : list message :=
  if truthy v then streamMessageUpdate (String_of v) ty ms else ms.

(** [payload.choices?.[0]?.delta] and the three updates. *)
Definition apply_delta (choice : jval) (ms : list message) : list message :=
  let delta := prop choice (js "delta") in
  if truthy delta
  then stream_if (prop delta (js "content")) Content
         (stream_if (prop delta (js "reasoning")) Reasoning
            (stream_if (prop delta (js "reasoning_content")) Reasoning ms))
  else ms.

Definition on_done (ss : session) : option session :=
  complete_in COMPLETE
    (Session (messages ss) false true true (responseData ss) (sseMessages ss ++ [js "[DONE]"]) false (savedLists ss)).

Definition on_unparsable (data : jsstr) (ss : session) : option session :=
  complete_in ERROR
    (with_messages (streamMessageUpdate (t (js "解析响应数据时发生错误")) Content)
       (Session (messages ss) (isCurrent ss) (isClosed ss) (isStreamComplete ss) (responseData ss)
          (sseMessages ss ++ [data]) false (savedLists ss))).

Definition on_message (data : jsstr) (ss : session) : option session :=
  if streq data (js "[DONE]") then on_done ss
  else
    match parse data with
    | None => on_unparsable data ss
    | Some payload =>
      let received := Session (messages ss) (isCurrent ss) (isClosed ss) (isStreamComplete ss)
                        (responseData ss ++ data ++ [10%N]) (sseMessages ss ++ [data]) (isStreaming ss) (savedLists ss) in
      match first_choice payload with
      | None => on_unparsable data received
      | Some choice => Some (with_messages (apply_delta choice) received)
      end
    end.

(** The text and code shown for an error event. *)
Definition sse_error_text (data : jsstr) : jsstr * jval :=
  let fallback := if is_empty data then t (js "请求发生错误") else data in
  match parse data with
  | Some v => let err := prop v (js "error") in
              if negb (is_empty data) && truthy err
              then (let msg := prop err (js "message") in if truthy msg then String_of msg else fallback,
                    js_or (prop err (js "code")) JNull)
              else (fallback, JNull)
  | None => (fallback, JNull)
  end.

Definition fail_stream (errorMessage : jsstr) (code : jval) : list message → list message :=
  update_last (λ m,
    if negb (has_status COMPLETE m) && negb (has_status ERROR m)
    then Some (with_status (with_code (with_body m (CText (content_string (body m) ++ errorMessage))) code) ERROR)
    else None).

Definition on_error (readyState : Z) (data : jsstr) (ss : session) : option session :=
  if negb (isStreamComplete ss) && negb (readyState =? 2)%Z then
    let '(msg, code) := sse_error_text data in
    Some (Session (fail_stream msg code (messages ss)) false true (isStreamComplete ss) (responseData ss)
            (sseMessages ss) (isStreaming ss) (savedLists ss))
  else Some ss.

Definition on_readystate (readyState : Z) (httpStatus : option Z) (ss : session) : option session :=
  match httpStatus with
  | Some code =>
    if (2 <=? readyState)%Z && negb (code =? 200)%Z && negb (isStreamComplete ss) then
      complete_in ERROR
        (with_messages (streamMessageUpdate (t (js "连接已断开")) Content)
           (Session (messages ss) (isCurrent ss) true (isStreamComplete ss) (responseData ss) (sseMessages ss)
              (isStreaming ss) (savedLists ss)))
    else Some ss
  | None => Some ss
  end.

Definition on_stop (ss : session) : option session :=
  let ms := onStopGenerator (messages ss) in
  Some (Session ms false (isClosed ss || isCurrent ss) (isStreamComplete ss) (responseData ss) (sseMessages ss)
          (isStreaming ss)
          (match last (messages ss) with
           | Some m => if has_status LOADING m || has_status INCOMPLETE m then savedLists ss ++ [ms] else savedLists ss
           | None => savedLists ss
           end)).

Definition sse_step (ss : session) (e : sse_event) : option session :=
  match e with
  | SseMessage data => on_message data ss
  | SseError readyState data => on_error readyState data ss
  | SseReadyState readyState httpStatus => on_readystate readyState httpStatus ss
  | StreamFailed => complete_in ERROR (with_messages (streamMessageUpdate (t (js "建立连接时发生错误")) Content) ss)
  | Stop => on_stop ss
  end.

Fixpoint sse_run (ss : session) (es : list sse_event) : option session :=
  match es with
  | [] => Some ss
  | e :: es' => ss' ← sse_step ss e; sse_run ss' es'
  end.
End Requests.

(** ** Actions on messages *)

(** A message picked in the page: the position where the list holds that very
    object, if it still does, and the object. *)
Record target := Target { ref : option nat; picked : message }.

Definition find_index_id (i : jsstr) (ms : list message) : option nat :=
  find_index (λ m, streq (id m) i) ms.
Definition locate (tg : target) (ms : list message) : option nat :=
  match ref tg with Some i => Some i | None => find_index_id (id (picked tg)) ms end.

(** The nearest user message at or before [i], scanning down. *)
Fixpoint user_before (n : nat) (ms : list message) : option nat :=
  match n with
  | O => None
  | S k => match ms !! k with
           | Some m => if bool_decide (role_of m = User) then Some k else user_before k ms
           | None => user_before k ms
           end
  end.

(** The remaining messages and the text sent again. *)
Definition handleMessageReset (tg : target) (ms : list message) : list message * option jsstr :=
  match locate tg ms with
  | None => (ms, None)
  | Some i =>
    match role_of (picked tg) with
    | User => (take i ms, Some (getTextContent (picked tg)))
    | Assistant | System =>
      match user_before i ms with
      | Some u => match ms !! u with
                  | Some um => (take u ms, Some (getTextContent um))
                  | None => (ms, None)
                  end
      | None => (ms, None)
      end
    end
  end.

(** [filter((_, index) => index !== i && index !== i + 1)] *)
Definition drop_two (i : nat) (ms : list message) : list message := take i ms ++ drop (i + 2) ms.
Definition drop_id (x : jsstr) (ms : list message) : list message := List.filter (λ m, negb (streq (id m) x)) ms.

Definition handleMessageDelete (tg : target) (ms : list message) : list message :=
  match locate tg ms with
  | None => ms
  | Some i =>
    match role_of (picked tg), ms !! (i + 1) with
    | User, Some next => if bool_decide (role_of next = Assistant) then drop_two i ms else drop_id (id (picked tg)) ms
    | _, _ => drop_id (id (picked tg)) ms
    end
  end.

Definition toggled (r : role) : role := match r with Assistant => System | _ => Assistant end.
Definition handleRoleToggle (picked : message) (ms : list message) : list message :=
  if bool_decide (role_of picked = User) then ms
  else map (λ m, if streq (id m) (id picked) && negb (bool_decide (role_of m = User))
                 then with_role m (toggled (role_of picked)) else m) ms.

Definition toggleReasoningExpansion (x : jsstr) (ms : list message) : list message :=
  map (λ m, if streq (id m) x && bool_decide (role_of m = Assistant)
            then with_flags m (isThinkingComplete m) (hasAutoCollapsed m) (negb (isReasoningExpanded m)) else m) ms.

(** ** Editing *)

Record editing := Editing { editingMessageId : jsstr; editingRef : option nat; editValue : jsstr }.

Inductive edit_result :=
  | EditIgnored
  | EditThrows                                   (** the edited message is gone *)
  | EditAsk (regenerate saveOnly : list message) (** a reply follows: the user chooses *)
  | EditDone (ms : list message).

Definition edited_content (v : jsstr) (c : content) : content :=
  match c with
  | CParts ps => CParts (map (λ p, match p with PText _ => PText (trim v) | PImage u => PImage u end) ps)
  | CText _ => CText (trim v)
  end.

Definition handleMessageEdit (tg : target) : editing :=
  Editing (id (picked tg)) (ref tg) (getTextContent (picked tg)).

Definition handleEditSave (ed : editing) (ms : list message) : edit_result :=
  if is_empty (editingMessageId ed) || is_empty (trim (editValue ed)) then EditIgnored
  else
    match match editingRef ed with Some i => Some i | None => find_index_id (editingMessageId ed) ms end with
    | None => EditThrows
    | Some i =>
      match ms !! i with
      | None => EditThrows
      | Some tm =>
        let updated := map (λ m, if streq (id m) (editingMessageId ed)
                                 then with_body m (edited_content (editValue ed) (body tm)) else m) ms in
        match role_of tm, ms !! (i + 1) with
        | User, Some next => if bool_decide (role_of next = Assistant)
                             then EditAsk (take (i + 1) updated) updated else EditDone updated
        | _, _ => EditDone updated
        end
      end
    end.

(** ** The preview of the request *)

(** The images go to the last user message. *)
Fixpoint with_preview_images (valid : list jsstr) (rev_ms : list message) : list message :=
  match rev_ms with
  | [] => []
  | m :: l => if bool_decide (role_of m = User) then
                (if Nat.ltb 0 (length valid) then
                   let text := getTextContent m in
                   with_body m (buildMessageContent (if is_empty text then js "示例消息" else text) valid true)
                 else m) :: l
              else m :: with_preview_images valid l
  end.

Definition constructPreviewPayload (customRequestMode : bool) (customRequestBody : jsstr) (inp : inputs)
    (parameterEnabled : jsstr → bool) (ms : list message) : jval :=
  let standard :=
    let valid := List.filter (λ url, negb (is_empty (trim url))) (imageUrls inp) in
    let messages := if imageEnabled inp then rev (with_preview_images valid (rev ms)) else ms in
    JObj (buildApiPayload messages None inp parameterEnabled) in
  if customRequestMode && negb (is_empty customRequestBody) && negb (is_empty (trim customRequestBody))
  then default standard (parse customRequestBody) else standard.

(** ** Sending *)

(** [SendThrows]: a custom body that is the JSON text [null]. *)
Inductive send_result := BadCustomBody | SendThrows | Sent (ms : list message) (payload : jval) (stream : bool) (nextId : Z).

Definition onMessageSend (now : Z) (text : jsstr) (custom : option jsstr) (inp : inputs) (parameterEnabled : jsstr → bool)
    (messageId : Z) (ms : list message) : send_result :=
  let '(userMessage, n1) := createMessage now User (CText text) messageId in
  let '(loadingMessage, n2) := createLoadingAssistantMessage now n1 in
  match custom with
  | Some b =>
    match parse b with
    | None => BadCustomBody
    | Some payload =>
      if is_nullish payload then SendThrows
      else Sent (ms ++ [userMessage; loadingMessage]) payload
             (match prop payload (js "stream") with JBool false => false | _ => true end) n2
    end
  | None =>
    let valid := List.filter (λ url, negb (is_empty (trim url))) (imageUrls inp) in
    let '(um, n3) := createMessage now User (buildMessageContent text valid (imageEnabled inp)) n2 in
    let newMessages := ms ++ [um] in
    Sent (newMessages ++ [loadingMessage]) (JObj (buildApiPayload newMessages None inp parameterEnabled)) (in_stream inp) n3
  end.
