(* ===== verification/PlaygroundTheorems.v ===== *)
(** * Theorems about the playground's conversation

    Streaming accumulates exactly what arrives, a stream session ends in a
    final message whatever the order of its events, and the actions on
    messages touch what they say they touch. *)

From S2P Require Import Prelude JsString JsRegex JsNumber Json ThinkTags Playground.

(** ** Streaming *)

Definition running (m : message) : bool := has_status LOADING m || has_status INCOMPLETE m.
Definition final (m : message) : bool := has_status COMPLETE m || has_status ERROR m.

Lemma update_last_snoc f ms m :
  update_last f (ms ++ [m]) = match f m with Some m' => ms ++ [m'] | None => ms ++ [m] end.
Proof. unfold update_last. rewrite last_snoc, removelast_last. by destruct (f m). Qed.

Lemma running_not_final m : running m = true → final m = false.
Proof. unfold running, final, has_status. by destruct (status m) as [[]|]. Qed.

Lemma running_not_error m : running m = true → has_status ERROR m = false.
Proof. unfold running, has_status. by destruct (status m) as [[]|]. Qed.

Definition chunks_of (ty : chunk_type) (cs : list (chunk_type * jsstr)) : jsstr :=
  concat (map snd (List.filter (λ e, match e.1, ty with
                                     | Reasoning, Reasoning | Content, Content => true
                                     | _, _ => false end) cs)).

Definition stream_all (cs : list (chunk_type * jsstr)) (ms : list message) : list message :=
  fold_left (λ acc e, streamMessageUpdate e.2 e.1 acc) cs ms.

(** Streaming loses, repeats and reorders nothing: after any interleaving
    of reasoning and content chunks, the running assistant message holds the
    content chunks concatenated and the reasoning chunks concatenated, and no
    other message has changed. *)
Theorem stream_accumulates cs ms m c :
  role_of m = Assistant → running m = true → body m = CText c →
  ∃ m', stream_all cs (ms ++ [m]) = ms ++ [m'] ∧
    body m' = CText (c ++ chunks_of Content cs) ∧
    reasoning_text m' = reasoning_text m ++ chunks_of Reasoning cs ∧
    id m' = id m ∧ role_of m' = Assistant ∧ running m' = true.
Proof.
  intros Hr Hs Hb. revert m c Hr Hs Hb. induction cs as [|[ty ch] cs IH]; intros m c Hr Hs Hb.
  - exists m. unfold chunks_of. cbn. rewrite !app_nil_r. done.
  - unfold stream_all. cbn [fold_left fst snd]. unfold streamMessageUpdate at 2. rewrite update_last_snoc, Hr.
    assert (has_status ERROR m = false) as ->.
    { by apply running_not_error. }
    unfold running in Hs. rewrite Hs. cbn [negb bool_decide]. rewrite bool_decide_eq_true_2 by done. cbn [negb].
    destruct ty.
    + destruct (IH (stream_reasoning m ch) c) as (m' & Hm & Hb' & Hr' & Hid & Hrole & Hrun); [done|done|done|].
      exists m'. split; [exact Hm|]. split; [done|]. split; [|done]. rewrite Hr'. cbn [reasoning_text stream_reasoning].
      unfold reasoning_text, chunks_of. cbn. by rewrite <- app_assoc.
    + destruct (IH (stream_content m ch) (c ++ ch)) as (m' & Hm & Hb' & Hr' & Hid & Hrole & Hrun).
      { done. } { done. } { cbn. by rewrite Hb. }
      exists m'. split; [exact Hm|]. split; [|done]. rewrite Hb'. unfold chunks_of. cbn. by rewrite <- app_assoc.
Qed.

Definition sample_loading : message := (createLoadingAssistantMessage 0 5).1.
Definition sample_user : message := (createMessage 0 User (CText (js "hi")) 4).1.

Lemma stream_accumulates_witness :
  ∃ m', stream_all [(Reasoning, js "a"); (Content, js "x"); (Reasoning, js "b"); (Content, js "y")]
          ([sample_user] ++ [sample_loading]) = [sample_user] ++ [m'] ∧
    body m' = CText (js "xy") ∧ reasoning_text m' = js "ab" ∧
    id m' = js "5" ∧ role_of m' = Assistant ∧ running m' = true.
Proof.
  apply (stream_accumulates [(Reasoning, js "a"); (Content, js "x"); (Reasoning, js "b"); (Content, js "y")]
           [sample_user] sample_loading []); reflexivity.
Defined.

(** ** A stream session *)

Section Sessions.
Context (t : jsstr → jsstr).

(** What a session preserves: the earlier messages, the identity of the
    answer, and that it is saved at most once, in its final form. *)
Record session_ok (ms : list message) (i : jsstr) (ss : session) : Prop := {
  so_shape : ∃ m, messages ss = ms ++ [m] ∧ id m = i ∧ role_of m = Assistant ∧ (running m = true ∨ final m = true);
  so_saved : savedLists ss = [] ∨ savedLists ss = [messages ss] ∧ ∃ m, last (messages ss) = Some m ∧ final m = true }.

(** The answer is final. *)
Definition settled (ss : session) : Prop := ∃ m, last (messages ss) = Some m ∧ final m = true.

Lemma stream_update_final chunk ty ms m :
  final m = true → streamMessageUpdate chunk ty (ms ++ [m]) = ms ++ [m].
Proof.
  intros Hf. unfold streamMessageUpdate. rewrite update_last_snoc. fold (running m).
  assert (running m = false) as ->.
  { apply not_true_is_false. intros Hr%running_not_final. congruence. }
  by repeat case_match.
Qed.

Lemma stream_update_running chunk ty ms m :
  role_of m = Assistant → running m = true →
  ∃ m', streamMessageUpdate chunk ty (ms ++ [m]) = ms ++ [m'] ∧ id m' = id m ∧ role_of m' = Assistant ∧ running m' = true.
Proof.
  intros Hr Hs. unfold streamMessageUpdate. rewrite update_last_snoc, Hr.
  assert (has_status ERROR m = false) as -> by by apply running_not_error.
  unfold running in Hs. rewrite Hs, bool_decide_eq_true_2 by done. cbn [negb].
  destruct ty; eexists; split; try reflexivity; done.
Qed.

Lemma stream_update_shape chunk ty ms i m :
  id m = i → role_of m = Assistant → running m = true ∨ final m = true →
  ∃ m', streamMessageUpdate chunk ty (ms ++ [m]) = ms ++ [m'] ∧ id m' = i ∧ role_of m' = Assistant ∧
        (running m' = true ∨ final m' = true) ∧ (final m = true → m' = m).
Proof.
  intros Hi Hr [Hs|Hf].
  - destruct (stream_update_running chunk ty ms m Hr Hs) as (m' & H1 & H2 & H3 & H4). exists m'.
    split; [done|]. split; [congruence|]. split; [done|]. split; [by left|].
    intros Hf. apply running_not_final in Hs. congruence.
  - exists m. rewrite stream_update_final by done. repeat split; auto.
Qed.

(** Updates that respect a session: they keep its shape and leave a final
    answer alone. *)
Definition respects (f : list message → list message) : Prop :=
  ∀ ms i m, id m = i → role_of m = Assistant → running m = true ∨ final m = true →
  ∃ m', f (ms ++ [m]) = ms ++ [m'] ∧ id m' = i ∧ role_of m' = Assistant ∧
        (running m' = true ∨ final m' = true) ∧ (final m = true → m' = m).

Lemma respects_compose f g : respects f → respects g → respects (λ l, g (f l)).
Proof.
  intros Hf Hg ms i m Hi Hr Hs. destruct (Hf ms i m Hi Hr Hs) as (m1 & -> & Hi1 & Hr1 & Hs1 & He1).
  destruct (Hg ms i m1 Hi1 Hr1 Hs1) as (m2 & -> & Hi2 & Hr2 & Hs2 & He2). exists m2.
  do 4 (split; [done|]). intros H. rewrite (He1 H) in *. auto.
Qed.

Lemma respects_stream chunk ty : respects (streamMessageUpdate chunk ty).
Proof. intros ms i m Hi Hr Hs. by apply stream_update_shape. Qed.

Lemma respects_stream_if v ty : respects (stream_if v ty).
Proof.
  unfold stream_if. destruct (truthy v); [apply respects_stream|]. intros ms i m Hi Hr Hs. exists m. repeat split; auto.
Qed.

Lemma respects_delta choice : respects (apply_delta choice).
Proof.
  unfold apply_delta. destruct (truthy _).
  - apply (respects_compose _ (stream_if _ Content)); [|apply respects_stream_if].
    apply (respects_compose _ (stream_if _ Reasoning)); apply respects_stream_if.
  - intros ms i m Hi Hr Hs. exists m. repeat split; auto.
Qed.

Lemma respects_fail msg code : respects (fail_stream msg code).
Proof.
  intros ms i m Hi Hr Hs. unfold fail_stream. rewrite update_last_snoc.
  rewrite <- negb_orb. fold (final m). destruct (final m) eqn:Hf; cbn [negb].
  - exists m. repeat split; auto.
  - eexists. split; [reflexivity|]. split; [done|]. split; [done|]. split; [by right|]. done.
Qed.

Lemma respects_stop : respects onStopGenerator.
Proof.
  intros ms i m Hi Hr Hs. unfold onStopGenerator. rewrite update_last_snoc. fold (running m).
  destruct (running m) eqn:Hrun.
  - destruct (processIncompleteThinkTags _ _) as [c r]. eexists. split; [reflexivity|].
    split; [done|]. split; [done|]. split; [by right|]. intros Hf. apply running_not_final in Hrun. congruence.
  - destruct Hs as [Hs|Hf]; [congruence|]. exists m. repeat split; auto.
Qed.

(** Completing a session: the answer becomes final and is saved once. *)
Lemma complete_ok ms i s ss :
  s = COMPLETE ∨ s = ERROR → session_ok ms i ss →
  ∃ ss', complete_in s ss = Some ss' ∧ session_ok ms i ss' ∧ settled ss' ∧
         (settled ss → messages ss' = messages ss ∧ savedLists ss' = savedLists ss).
Proof.
  intros Hs [(m & Hm & Hi & Hr & Hst) Hsaved]. unfold complete_in, completeMessage. rewrite Hm, last_snoc. fold (final m).
  assert (Hsett : settled ss ↔ final m = true).
  { unfold settled. rewrite Hm, last_snoc. split; [by intros (? & [= <-] & ?)|by exists m]. }
  destruct (final m) eqn:Hf; cbn [mbind option_bind].
  - eexists. split; [reflexivity|]. split; [|split; [exists m; cbn; by rewrite last_snoc|done]].
    constructor; cbn [messages savedLists]; [by exists m; auto|]. rewrite <- Hm. done.
  - set (m' := with_status (applyAutoCollapseLogic m true) s).
    assert (Hf' : final m' = true) by (by destruct Hs as [-> | ->]).
    assert (bool_decide (s = COMPLETE) || bool_decide (s = ERROR) = true) as -> by (by destruct Hs as [-> | ->]).
    rewrite removelast_last. eexists. split; [reflexivity|]. cbn [savedLists messages].
    assert (Hnone : savedLists ss = []).
    { destruct Hsaved as [|[_ (m0 & Hl & Hm0)]]; [done|]. rewrite Hm, last_snoc in Hl. injection Hl as <-. congruence. }
    split; [|split; [exists m'; cbn; by rewrite last_snoc|intros H%Hsett; congruence]].
    constructor; cbn [messages savedLists].
    + exists m'. repeat split; auto.
    + rewrite Hnone. right. split; [done|]. exists m'. by rewrite last_snoc.
Qed.

(** An update that respects sessions, with the other fields free. *)
Lemma update_ok ms i f ss cur clo com resp sse str :
  respects f → session_ok ms i ss →
  let ss' := Session (f (messages ss)) cur clo com resp sse str (savedLists ss) in
  session_ok ms i ss' ∧ (settled ss → messages ss' = messages ss ∧ settled ss').
Proof.
  intros Hf [(m & Hm & Hi & Hr & Hst) Hsaved] ss'.
  destruct (Hf ms i m Hi Hr Hst) as (m' & He & Hi' & Hr' & Hst' & Hkeep).
  assert (Hmsg : messages ss' = ms ++ [m']) by (unfold ss'; cbn [messages]; by rewrite Hm).
  assert (Hsame : settled ss → messages ss' = messages ss ∧ settled ss').
  { intros (m0 & Hl & Hf0). rewrite Hm, last_snoc in Hl. injection Hl as <-. unfold settled. rewrite Hmsg, Hm.
    rewrite (Hkeep Hf0). split; [done|]. exists m. by rewrite last_snoc. }
  split; [|done]. constructor; [by exists m'; rewrite Hmsg|].
  destruct Hsaved as [Hn|[Hs Hset]]; [by left|]. right. destruct (Hsame Hset) as [Heq Hset'].
  unfold ss' at 1. cbn [savedLists]. by rewrite Heq, Hs.
Qed.

Lemma respects_id : respects (λ l, l).
Proof. intros ms i m Hi Hr Hs. exists m. repeat split; auto. Qed.

(** What one event does to a session. *)
Definition step_ok (ms : list message) (i : jsstr) (ss : session) (o : option session) (ends : Prop) : Prop :=
  ∃ ss', o = Some ss' ∧ session_ok ms i ss' ∧ (ends → settled ss') ∧
         (settled ss → messages ss' = messages ss ∧ savedLists ss' = savedLists ss ∧ settled ss').

(** An update followed by completion. *)
Lemma update_complete_ok ms i ss f cur clo com resp sse str s ends :
  s = COMPLETE ∨ s = ERROR → respects f → session_ok ms i ss →
  step_ok ms i ss (complete_in s (Session (f (messages ss)) cur clo com resp sse str (savedLists ss))) ends.
Proof.
  intros Hs Hf Hok. destruct (update_ok ms i f ss cur clo com resp sse str Hf Hok) as [Hok' Hkeep].
  destruct (complete_ok ms i s _ Hs Hok') as (ss' & He & Hok'' & Hset & Hsame).
  exists ss'. split; [done|]. split; [done|]. split; [done|]. intros Hss. destruct (Hkeep Hss) as [Hm Hss'].
  destruct (Hsame Hss') as [Hm' Hsv]. rewrite Hm', Hsv, Hm. done.
Qed.

Lemma plain_update_ok ms i ss f cur clo com resp sse str :
  respects f → session_ok ms i ss →
  step_ok ms i ss (Some (Session (f (messages ss)) cur clo com resp sse str (savedLists ss))) False.
Proof.
  intros Hf Hok. destruct (update_ok ms i f ss cur clo com resp sse str Hf Hok) as [Hok' Hkeep].
  eexists. split; [reflexivity|]. split; [done|]. split; [done|]. intros Hss. destruct (Hkeep Hss). done.
Qed.

Lemma same_ok ms i ss : session_ok ms i ss → step_ok ms i ss (Some ss) False.
Proof. intros Hok. exists ss. done. Qed.

Lemma weaken_ok ms i ss o (P : Prop) : step_ok ms i ss o False → ¬ P → step_ok ms i ss o P.
Proof. intros (ss' & H1 & H2 & _ & H3) HP. exists ss'. split; [done|]. split; [done|]. split; [done|]. done. Qed.

Lemma stop_ok ms i ss ends : session_ok ms i ss → step_ok ms i ss (on_stop ss) ends.
Proof.
  intros Hok. pose proof Hok as [(m & Hm & Hi & Hr & Hst) Hsaved]. unfold on_stop. rewrite Hm, last_snoc.
  fold (running m). destruct (respects_stop ms i m Hi Hr Hst) as (m' & He & Hi' & Hr' & Hst' & Hkeep). rewrite He.
  assert (Hsett : settled ss ↔ final m = true).
  { unfold settled. rewrite Hm, last_snoc. split; [by intros (? & [= <-] & ?)|by exists m]. }
  assert (Hf' : final m' = true).
  { destruct Hst' as [Hrun|]; [|done]. destruct Hst as [Hrm|Hf]; [|by rewrite Hkeep].
    unfold onStopGenerator in He. rewrite update_last_snoc in He. fold (running m) in He. rewrite Hrm in He.
    destruct (processIncompleteThinkTags _ _). apply app_inj_tail in He as [_ <-]. done. }
  eexists. split; [reflexivity|]. destruct (running m) eqn:Hrun.
  - apply running_not_final in Hrun. assert (Hnone : savedLists ss = []).
    { destruct Hsaved as [|[_ Hset]]; [done|]. apply Hsett in Hset. congruence. }
    split; [|split; [intros _; exists m'; cbn; by rewrite last_snoc|intros Hset%Hsett; congruence]].
    constructor; cbn [messages savedLists]; [by exists m'; auto|].
    rewrite Hnone. right. split; [done|]. exists m'. by rewrite last_snoc.
  - destruct Hst as [|Hf]; [done|]. rewrite (Hkeep Hf) in *. unfold settled. cbn [messages savedLists].
    split; [|split; [intros _; exists m; by rewrite last_snoc|intros _; rewrite Hm, last_snoc; by eauto]].
    constructor; cbn [messages savedLists]; [by exists m; auto|]. by rewrite <- Hm.
Qed.

(** The events after which an answer is final. *)
Definition terminator (e : sse_event) : Prop :=
  match e with
  | SseMessage data => data = js "[DONE]"
  | StreamFailed | Stop => True
  | SseError _ _ | SseReadyState _ _ => False
  end.

Lemma sse_step_ok ms i ss e : session_ok ms i ss → step_ok ms i ss (sse_step t ss e) (terminator e).
Proof.
  intros Hok. destruct e as [data|rs data|rs code| |]; cbn [sse_step terminator].
  - unfold on_message. destruct (streq data (js "[DONE]")) eqn:Ed.
    + apply (update_complete_ok _ _ _ (λ l, l)); [by left|apply respects_id|done].
    + apply streq_false in Ed. apply weaken_ok; [|done]. destruct (parse data) as [payload|].
      * destruct (first_choice payload) as [choice|].
        { apply (plain_update_ok _ _ ss (apply_delta choice)); [apply respects_delta|done]. }
        apply (update_complete_ok _ _ ss); [by right|apply respects_stream|done].
      * apply (update_complete_ok _ _ ss); [by right|apply respects_stream|done].
  - unfold on_error. case_match; [|by apply same_ok]. destruct (sse_error_text t data) as [msg code].
    by apply plain_update_ok; [apply respects_fail|].
  - unfold on_readystate. destruct code as [code|]; [|by apply same_ok]. case_match; [|by apply same_ok].
    apply (update_complete_ok _ _ ss); [by right|apply respects_stream|done].
  - apply (update_complete_ok _ _ ss); [by right|apply respects_stream|done].
  - by apply stop_ok.
Qed.

(** C3. Whatever events a streamed answer sees, in whatever order (chunks,
    unreadable data, connection errors, state changes, the user's stop): no
    event fails, the earlier messages and the identity of the answer stay, the
    conversation is saved at most once and only with a final answer, and once
    a terminating event has occurred the answer is final. *)
Theorem stream_session_settles ms m es :
  role_of m = Assistant → running m = true →
  ∃ ss, sse_run t (start_session (ms ++ [m])) es = Some ss ∧ session_ok ms (id m) ss ∧
        (Exists terminator es → settled ss).
Proof.
  intros Hr Hs.
  assert (H : ∀ ss, session_ok ms (id m) ss →
    ∃ ss', sse_run t ss es = Some ss' ∧ session_ok ms (id m) ss' ∧
      (settled ss → settled ss') ∧ (Exists terminator es → settled ss')).
  { induction es as [|e es IH]; intros ss Hok; cbn [sse_run].
    - exists ss. repeat split; try done; try apply Hok. by intros H%Exists_nil.
    - destruct (sse_step_ok ms (id m) ss e Hok) as (ss1 & -> & Hok1 & Hend & Hkeep). cbn [mbind option_bind].
      destruct (IH ss1 Hok1) as (ss2 & He & Hok2 & Hk2 & Hend2). exists ss2. split; [done|]. split; [done|]. split.
      + intros Hset. apply Hk2. by destruct (Hkeep Hset) as (_ & _ & ?).
      + intros [Ht|Ht]%Exists_cons; auto. }
  destruct (H (start_session (ms ++ [m]))) as (ss & He & Hok & _ & Hend).
  - constructor; [exists m; auto|by left].
  - exists ss. auto.
Qed.

(** A final answer stays as it is: no later event of the stream, not even
    a second completion or a stop, changes a message or saves again. *)
Theorem final_answer_absorbing ms i ss es :
  session_ok ms i ss → settled ss →
  ∃ ss', sse_run t ss es = Some ss' ∧ messages ss' = messages ss ∧ savedLists ss' = savedLists ss.
Proof.
  revert ss. induction es as [|e es IH]; intros ss Hok Hset; cbn [sse_run]; [by exists ss|].
  destruct (sse_step_ok ms i ss e Hok) as (ss1 & -> & Hok1 & _ & Hkeep). cbn [mbind option_bind].
  destruct (Hkeep Hset) as (Hm & Hs & Hset1). destruct (IH ss1 Hok1 Hset1) as (ss2 & He & Hm2 & Hs2).
  exists ss2. by rewrite Hm2, Hs2.
Qed.
End Sessions.

Definition sample_events : list sse_event :=
  [SseMessage (jsq "{'choices':[{'delta':{'reasoning_content':'r'}}]}");
   SseMessage (jsq "{'choices':[{'delta':{'content':'a'}}]}"); SseReadyState 1 (Some 200%Z);
   SseMessage (js "[DONE]"); SseError 1 (js "x"); SseMessage (js "not json"); Stop].

Lemma stream_session_settles_witness :
  ∃ ss, sse_run (λ s, s) (start_session ([sample_user] ++ [sample_loading])) sample_events = Some ss ∧
        session_ok [sample_user] (js "5") ss ∧ settled ss.
Proof.
  destruct (stream_session_settles (λ s, s) [sample_user] sample_loading sample_events eq_refl eq_refl)
    as (ss & H1 & H2 & H3).
  exists ss. split; [exact H1|]. split; [exact H2|]. apply H3. do 3 right. left. reflexivity.
Defined.

Definition sample_done : message := with_status sample_loading COMPLETE.

Lemma final_answer_absorbing_witness :
  ∃ ss', sse_run (λ s, s) (start_session ([sample_user] ++ [sample_done])) sample_events = Some ss' ∧
         messages ss' = [sample_user; sample_done] ∧ savedLists ss' = [].
Proof.
  apply (final_answer_absorbing (λ s, s) [sample_user] (js "5") (start_session ([sample_user] ++ [sample_done]))).
  - constructor; [|by left]. exists sample_done. repeat split; try reflexivity. right. reflexivity.
  - exists sample_done. split; reflexivity.
Defined.

(** ** Actions *)

(** The picked object is in the list where the reference says. *)
Definition picked_at (tg : target) (i : nat) (ms : list message) : Prop :=
  ref tg = Some i ∧ ms !! i = Some (picked tg).

Lemma drop_id_unique ms i m :
  NoDup (map id ms) → ms !! i = Some m → drop_id (id m) ms = delete i ms.
Proof.
  unfold drop_id. revert i. induction ms as [|x ms IH]; intros i Hnd Hi; [done|]. cbn [map] in Hnd.
  apply NoDup_cons in Hnd as [Hx Hnd]. destruct i as [|i]; cbn in Hi.
  - injection Hi as ->. cbn [List.filter]. rewrite streq_refl. cbn [negb delete list_delete]. apply filter_all, forallb_Forall, Forall_forall.
    intros y Hy. apply negb_true_iff, streq_false. intros Heq. apply Hx. rewrite <- Heq.
    apply list_elem_of_In, in_map, list_elem_of_In, Hy.
  - cbn [List.filter]. assert (streq (id x) (id m) = false) as ->.
    { apply streq_false. intros Heq. apply Hx. rewrite Heq. apply list_elem_of_In, in_map, list_elem_of_In.
      by eapply list_elem_of_lookup_2. }
    cbn [negb]. by rewrite (IH i Hnd Hi).
Qed.

(** With distinct ids, deleting a message removes exactly that message,
    and for a user message also the assistant reply right after it. *)
Theorem delete_exact tg i ms :
  NoDup (map id ms) → picked_at tg i ms →
  handleMessageDelete tg ms =
  (if bool_decide (role_of (picked tg) = User) &&
      match ms !! (i + 1) with Some n => bool_decide (role_of n = Assistant) | None => false end
   then take i ms ++ drop (i + 2) ms else delete i ms).
Proof.
  intros Hnd [Hr Hi]. unfold handleMessageDelete, locate. rewrite Hr. unfold drop_two.
  pose proof (drop_id_unique ms i (picked tg) Hnd Hi) as Hd.
  destruct (role_of (picked tg)), (ms !! (i + 1)) as [n|]; cbn [andb bool_decide]; try done.
  by destruct (bool_decide (role_of n = Assistant)).
Qed.

Definition sample_conversation : list message :=
  [sample_user; sample_done; (createMessage 0 User (CText (js "again")) 6).1].

Lemma delete_exact_witness :
  handleMessageDelete (Target (Some 0) sample_user) sample_conversation =
  [(createMessage 0 User (CText (js "again")) 6).1].
Proof.
  apply (delete_exact (Target (Some 0) sample_user) 0 sample_conversation).
  - apply (bool_decide_unpack _). vm_compute. exact I.
  - split; reflexivity.
Defined.

Lemma drop_id_both ms i j mi mj :
  i ≠ j → ms !! i = Some mi → ms !! j = Some mj → id mi = id mj → length (drop_id (id mi) ms) + 2 ≤ length ms.
Proof.
  intros Hij Hi Hj He. unfold drop_id.
  assert (Hlen : ∀ l : list message, length (List.filter (λ m, negb (streq (id m) (id mi))) l) ≤ length l).
  { intros l. induction l as [|x l IH]; cbn; [lia|]. case_match; cbn; lia. }
  assert (Hone : ∀ (l : list message) k m, l !! k = Some m → id m = id mi →
            length (List.filter (λ m, negb (streq (id m) (id mi))) l) + 1 ≤ length l).
  { intros l. induction l as [|x l IH]; intros [|k] m Hk Hm; try done; cbn in Hk; cbn [List.filter length].
    - injection Hk as ->. rewrite Hm, streq_refl. cbn. specialize (Hlen l). lia.
    - specialize (IH k m Hk Hm). case_match; cbn [length]; lia. }
  revert i j Hij Hi Hj. induction ms as [|x ms IH]; intros [|i] [|j] Hij Hi Hj; try done; cbn in Hi, Hj; cbn [List.filter length].
  - injection Hi as ->. rewrite streq_refl. cbn. specialize (Hone ms j mj Hj (eq_sym He)). lia.
  - injection Hj as ->. rewrite <- He, streq_refl. cbn. specialize (Hone ms i mi Hi eq_refl). lia.
  - specialize (IH i j ltac:(lia) Hi Hj). case_match; cbn [length]; lia.
Qed.

(** Ids repeat across pages, and deletion is by id: the counter starts
    again at 4 in every page while conversations are kept, so the first
    answer in a new page gets the id of the first answer of the previous page;
    deleting it then removes the older answer as well, although the picked
    object was found by reference. *)
Theorem delete_takes_namesake now1 now2 text1 text2 inp en ms1 p1 s1 n1 ms2 p2 s2 n2 :
  onMessageSend now1 text1 None inp en first_message_id [] = Sent ms1 p1 s1 n1 →
  onMessageSend now2 text2 None inp en first_message_id ms1 = Sent ms2 p2 s2 n2 →
  ∃ m, ms2 !! 3 = Some m ∧ length (handleMessageDelete (Target (Some 3) m) ms2) + 2 ≤ length ms2.
Proof.
  unfold onMessageSend. cbn [createMessage createLoadingAssistantMessage generateMessageId].
  intros [= <- _ _ _] [= <- _ _ _]. cbn [app]. eexists. split; [reflexivity|].
  unfold handleMessageDelete, locate. cbn [ref picked role_of lookup list_lookup].
  eapply (drop_id_both _ 3 1); [lia|reflexivity|reflexivity|reflexivity].
Qed.

Definition sample_inputs : inputs :=
  Inputs (js "gpt-4o") [] true false [[]] [(js "temperature", JNum (num_of_dec false 7 (-1))); (js "seed", JNull)].

Lemma delete_takes_namesake_witness :
  ∃ ms1 p1 s1 n1 ms2 p2 s2 n2,
    onMessageSend 1 (js "a") None sample_inputs (λ _, true) first_message_id [] = Sent ms1 p1 s1 n1 ∧
    onMessageSend 2 (js "b") None sample_inputs (λ _, true) first_message_id ms1 = Sent ms2 p2 s2 n2 ∧
    ∃ m, ms2 !! 3 = Some m ∧ length (handleMessageDelete (Target (Some 3) m) ms2) + 2 ≤ length ms2.
Proof.
  do 8 eexists. split; [reflexivity|]. split; [reflexivity|].
  apply (delete_takes_namesake 1 2 (js "a") (js "b") sample_inputs (λ _, true) _ _ _ _ _ _ _ _ eq_refl eq_refl).
Defined.

Lemma user_before_spec n ms u : user_before n ms = Some u →
  u < n ∧ ∃ m, ms !! u = Some m ∧ role_of m = User ∧
  ∀ k m', u < k < n → ms !! k = Some m' → role_of m' ≠ User.
Proof.
  induction n as [|n IH]; [done|]. cbn [user_before]. intros H.
  assert (Hstep : user_before n ms = Some u → (∀ m', ms !! n = Some m' → role_of m' ≠ User) →
    u < S n ∧ ∃ m, ms !! u = Some m ∧ role_of m = User ∧ ∀ k m', u < k < S n → ms !! k = Some m' → role_of m' ≠ User).
  { intros Hu Hn. destruct (IH Hu) as (Hlt & m & Hm & Hr & Hno). split; [lia|]. exists m. split; [done|]. split; [done|].
    intros k m' Hk Hkm. destruct (decide (k = n)) as [->|]; [by apply Hn|]. apply (Hno k m'); [lia|done]. }
  destruct (ms !! n) as [m|] eqn:Hm; [|by apply Hstep].
  case_bool_decide as Hr; [|apply Hstep; [done|naive_solver]]. injection H as <-. split; [lia|]. exists m.
  split; [done|]. split; [done|]. intros k m' Hk. lia.
Qed.

(** Regenerating keeps the conversation up to a user message and sends
    exactly that message again: the picked one, or the nearest user message
    before the picked reply. *)
Theorem reset_resends_user tg i ms ms' text :
  picked_at tg i ms → handleMessageReset tg ms = (ms', Some text) →
  ∃ um rest, ms = ms' ++ um :: rest ∧ role_of um = User ∧ text = getTextContent um ∧ length ms' ≤ i ∧
    ∀ k m, length ms' < k < i → ms !! k = Some m → role_of m ≠ User.
Proof.
  intros [Hr Hi]. unfold handleMessageReset, locate. rewrite Hr.
  assert (Hsplit : ∀ u um, ms !! u = Some um → ms = take u ms ++ um :: drop (S u) ms ∧ length (take u ms) = u).
  { intros u um Hu. split; [symmetry; by apply take_drop_middle|]. rewrite length_take. apply lookup_lt_Some in Hu. lia. }
  assert (Hreply : ∀ o, o = match user_before i ms with
            | Some u => match ms !! u with Some um => (take u ms, Some (getTextContent um)) | None => (ms, None) end
            | None => (ms, None) end → o = (ms', Some text) →
    ∃ um rest, ms = ms' ++ um :: rest ∧ role_of um = User ∧ text = getTextContent um ∧ length ms' ≤ i ∧
      ∀ k m, length ms' < k < i → ms !! k = Some m → role_of m ≠ User).
  { intros o -> H. destruct (user_before i ms) as [u|] eqn:Hu; [|done].
    apply user_before_spec in Hu as (Hlt & um & Hum & Hrole & Hno). rewrite Hum in H. injection H as <- <-.
    destruct (Hsplit u um Hum) as [He Hl]. exists um, (drop (S u) ms). rewrite Hl. repeat split; try done; lia. }
  destruct (role_of (picked tg)) eqn:Hrole; [|by apply Hreply|by apply Hreply].
  intros [= <- <-]. destruct (Hsplit i _ Hi) as [He Hl]. exists (picked tg), (drop (S i) ms). rewrite Hl.
  repeat split; try done. intros k m Hk. lia.
Qed.

Lemma reset_resends_user_witness :
  ∃ um rest, sample_conversation = [] ++ um :: rest ∧ role_of um = User ∧ js "hi" = getTextContent um ∧ length (@nil message) ≤ 1 ∧
    ∀ k m, length (@nil message) < k < 1 → sample_conversation !! k = Some m → role_of m ≠ User.
Proof. apply (reset_resends_user (Target (Some 1) sample_done) 1 sample_conversation); [split|]; reflexivity. Defined.

(** Toggling the role of an assistant or system message twice gives the
    conversation back. *)
Theorem role_toggle_involutive ms i m :
  NoDup (map id ms) → ms !! i = Some m → role_of m ≠ User →
  handleRoleToggle (with_role m (toggled (role_of m))) (handleRoleToggle m ms) = ms.
Proof.
  intros Hnd Hi Hr. unfold handleRoleToggle. rewrite (bool_decide_eq_false_2 (role_of m = User)) by done.
  assert (Ht : toggled (toggled (role_of m)) = role_of m) by (revert Hr; by destruct (role_of m)).
  rewrite bool_decide_eq_false_2 by (cbn [role_of with_role]; by destruct (role_of m)).
  cbn [role_of with_role id]. rewrite Ht, map_map. rewrite <- (map_id ms) at 2. apply map_ext_in. intros x Hx.
  destruct (streq (id x) (id m)) eqn:E; cbn [andb]; [|by rewrite E].
  apply streq_true in E. assert (x = m) as ->.
  { apply list_elem_of_In, list_elem_of_lookup_1 in Hx as (j & Hj). assert (i = j) as ->; [|congruence].
    eapply (NoDup_lookup (map id ms)); [done| |].
    - rewrite list_lookup_fmap, Hi. done.
    - rewrite list_lookup_fmap, Hj. cbn. by rewrite E. }
  rewrite (bool_decide_eq_false_2 (role_of m = User)) by done. cbn [negb with_role id role_of]. rewrite streq_refl.
  rewrite bool_decide_eq_false_2 by (by destruct (role_of m)). cbn. by destruct m.
Qed.

Lemma role_toggle_involutive_witness :
  handleRoleToggle (with_role sample_done System) (handleRoleToggle sample_done sample_conversation) = sample_conversation.
Proof.
  apply (role_toggle_involutive sample_conversation 1 sample_done); [|reflexivity|discriminate].
  apply (bool_decide_unpack _). vm_compute. exact I.
Defined.

(** ** Requests *)

(** A request answered in one piece settles the waiting message, as an
    answer or as an error, in every case but one: an accepted answer without a
    first choice leaves it waiting.  Other messages never change. *)
Theorem nonstream_settles t engine_error res ms m :
  status m = Some LOADING →
  ∃ m', handleNonStreamRequest t engine_error res (ms ++ [m]) = ms ++ [m'] ∧ id m' = id m ∧
    final m' = match res with
               | HttpOk (Some data) => match first_choice data with Some c => truthy c | None => true end
               | _ => true
               end.
Proof.
  intros Hs. assert (Hl : has_status LOADING m = true) by (by apply bool_decide_eq_true_2).
  assert (Hif : ∀ f : message → message, if_loading f (ms ++ [m]) = ms ++ [applyAutoCollapseLogic (f m) true]).
  { intros f. unfold if_loading. by rewrite update_last_snoc, Hl. }
  assert (Hfail : ∀ msg c, ∃ m', fail_message t msg c (ms ++ [m]) = ms ++ [m'] ∧ id m' = id m ∧ final m' = true).
  { intros msg c. unfold fail_message. rewrite Hif. by eexists. }
  destruct res as [msg|code text|[data|]]; cbn [handleNonStreamRequest]; [apply Hfail| | |apply Hfail].
  - destruct (http_error code text). apply Hfail.
  - destruct (first_choice data) as [c|]; [|apply Hfail]. destruct (truthy c).
    + unfold answer_message. destruct (processThinkTags _ _). rewrite Hif. by eexists.
    + exists m. split; [done|]. split; [done|]. unfold final, has_status. by rewrite Hs.
Qed.

Lemma nonstream_settles_witness :
  ∃ m', handleNonStreamRequest (λ s, s) [] (HttpOk (Some (JObj [(js "error", JStr (js "x"))]))) ([sample_user] ++ [sample_loading]) =
        [sample_user] ++ [m'] ∧ id m' = js "5" ∧ final m' = false.
Proof. apply (nonstream_settles (λ s, s) [] (HttpOk (Some (JObj [(js "error", JStr (js "x"))]))) [sample_user] sample_loading eq_refl). Defined.

(** A parameter is sent when it is enabled and has a value; the token limit
    only when it is a number. *)
Definition is_sent (inp : inputs) (en : jsstr → bool) (param : jsstr) : bool :=
  let v := obj_get (in_params inp) param in
  en param && (if streq param (js "max_tokens") then is_number v else negb (is_nullish v)).

Lemma add_parameter_get inp en o p k :
  obj_get (add_parameter inp en o p) k =
  if streq p k && is_sent inp en p then obj_get (in_params inp) p else obj_get o k.
Proof.
  unfold add_parameter, is_sent. destruct (en p); cbn [negb andb]; [|by rewrite andb_false_r].
  destruct (streq p (js "max_tokens")).
  - destruct (is_number _); [|by rewrite andb_false_r]. rewrite obj_get_set, andb_true_r. done.
  - destruct (is_nullish _); cbn [negb]; [by rewrite andb_false_r|]. rewrite obj_get_set, andb_true_r. done.
Qed.

Lemma add_parameters_get inp en ps o k :
  obj_get (fold_left (add_parameter inp en) ps o) k =
  if existsb (streq k) ps && is_sent inp en k then obj_get (in_params inp) k else obj_get o k.
Proof.
  revert o. induction ps as [|p ps IH]; intros o; cbn [fold_left existsb]; [done|]. rewrite IH, add_parameter_get.
  destruct (streq p k) eqn:E.
  - apply streq_true in E as ->. rewrite streq_refl. cbn [andb orb]. by destruct (existsb _ _), (is_sent _ _ _).
  - assert (streq k p = false) as ->; [|done]. apply streq_false. apply streq_false in E. congruence.
Qed.

Lemma all_valid ms : List.filter isValidMessage ms = ms.
Proof.
  apply filter_all, forallb_Forall, Forall_forall. intros m _. unfold isValidMessage.
  by destruct (role_of m), (body m) as [[|]|].
Qed.

(** The request body carries the whole conversation in order, behind the
    trimmed system prompt if there is one, and exactly the enabled parameters
    that have a value; no parameter overwrites another field. *)
Theorem payload_exact ms prompt inp en :
  let o := buildApiPayload ms prompt inp en in
  obj_get o (js "model") = JStr (in_model inp) ∧ obj_get o (js "stream") = JBool (in_stream inp) ∧
  obj_get o (js "messages") =
    JArr ((if is_empty (trim (default [] prompt)) then []
           else [JObj [(js "role", JStr (js "system")); (js "content", JStr (trim (default [] prompt)))]])
          ++ map formatMessageForAPI ms) ∧
  ∀ p, p ∈ PARAMETERS → obj_get o p = if is_sent inp en p then obj_get (in_params inp) p else JUndef.
Proof.
  unfold buildApiPayload. rewrite all_valid. cbn zeta. repeat rewrite add_parameters_get.
  split; [done|]. split; [done|]. split.
  - change (existsb (streq (js "messages")) PARAMETERS) with false. cbn [andb].
    by destruct (is_empty (trim (default [] prompt))).
  - intros p Hp. rewrite add_parameters_get.
    repeat (apply elem_of_cons in Hp as [->|Hp]); [..|by apply elem_of_nil in Hp]; done.
Qed.

Lemma formatted_alike ms a b inp en :
  role_of a = role_of b → body a = body b →
  buildApiPayload (ms ++ [a]) None inp en = buildApiPayload (ms ++ [b]) None inp en.
Proof.
  intros Hr Hb. unfold buildApiPayload. rewrite !all_valid, !map_app. cbn [map]. unfold formatMessageForAPI. by rewrite Hr, Hb.
Qed.

Lemma preview_images_last valid ms m text :
  role_of m = User → body m = CText text → text ≠ [] →
  rev (with_preview_images valid (rev (ms ++ [m]))) = ms ++ [with_body m (buildMessageContent text valid true)].
Proof.
  intros Hr Hb Ht. rewrite rev_app_distr. cbn [rev app with_preview_images]. rewrite bool_decide_eq_true_2 by done.
  cbn [rev]. rewrite rev_involutive. unfold getTextContent. rewrite Hb. destruct text as [|c text]; [done|]. cbn [is_empty].
  destruct valid as [|u valid]; [|done]. f_equal. f_equal. destruct m. cbn in *. by subst.
Qed.

Lemma message_content_plain text valid : buildMessageContent text valid false = CText text.
Proof. unfold buildMessageContent. by destruct text, valid. Qed.

(** The preview of a conversation that ends in a typed text is the request that
    sending this text makes, images and custom bodies included. *)
Theorem preview_is_sent now text mode custom inp en n ms ms' payload stream n' :
  text ≠ [] → (mode = true → custom ≠ [] → trim custom ≠ []) →
  onMessageSend now text (if mode && negb (is_empty custom) then Some custom else None) inp en n ms = Sent ms' payload stream n' →
  constructPreviewPayload mode custom inp en (ms ++ [(createMessage now User (CText text) n).1]) = payload.
Proof.
  intros Ht Hc Hs. unfold constructPreviewPayload, onMessageSend in *. cbn [createMessage generateMessageId fst] in *.
  destruct mode, custom as [|c custom]; cbn [andb negb is_empty] in *.
  2: { destruct (parse (c :: custom)) as [v|]; [|done]. destruct (is_nullish v); [done|]. injection Hs as _ <- _ _.
       destruct (trim (c :: custom)); [by destruct Hc|done]. }
  all: injection Hs as _ <- _ _; f_equal; destruct (imageEnabled inp);
    [erewrite preview_images_last by done; by apply formatted_alike|rewrite message_content_plain; by apply formatted_alike].
Qed.
