(* ===== verification/ApiClient.v ===== *)
(** * The HTTP client ([web/src/helpers/api.js])

    The console wraps its HTTP client so that identical [GET] requests in
    flight share one promise.  A client is a record of what it has started and
    what is still pending; calls and settlements are the events of a step
    relation.  The helpers that shape model and group lists are here too. *)

From S2P Require Import Prelude JsString JsNumber Json.

(** ** The patched client *)

Record config := Config { params : jval; disableDuplicate : bool; skipErrorHandler : bool }.

(** [inFlight] is the [Map]; [origin] records for every promise the key under
    which it was stored, if it was. *)
Record client := Client {
  inFlight : list (jsstr * nat); pending : list nat; origin : list (option jsstr); reportsErrors : bool }.

Definition genKey (url : jsstr) (c : config) : jsstr :=
  url ++ js "?" ++ (if truthy (params c) then default (js "undefined") (stringify (params c)) else js "{}").

(** [originalGet]: promises are numbered in the order they are started. *)
Definition start (key : option jsstr) (cl : client) : nat * client :=
  let p := length (origin cl) in
  (p, Client (inFlight cl) (p :: pending cl) (origin cl ++ [key]) (reportsErrors cl)).

Definition get (url : jsstr) (c : config) (cl : client) : nat * client :=
  if disableDuplicate c then start None cl
  else
    let key := genKey url c in
    match assoc_get (inFlight cl) key with
    | Some p => (p, cl)
    | None => let '(p, cl') := start (Some key) cl in
              (p, Client (assoc_set (inFlight cl') key p) (pending cl') (origin cl') (reportsErrors cl'))
    end.

(** A promise settles: the [finally] callback deletes its key. *)
Definition settle (p : nat) (cl : client) : client :=
  let rest := List.filter (λ q, negb (Nat.eqb q p)) (pending cl) in
  match origin cl !! p with
  | Some (Some key) => Client (assoc_delete (inFlight cl) key) rest (origin cl) (reportsErrors cl)
  | _ => Client (inFlight cl) rest (origin cl) (reportsErrors cl)
  end.

(** The client of a fresh page reports errors through a response interceptor;
    [updateAPI] replaces it by a new client that gets the patch but not the
    interceptor. *)
Definition initial_client : client := Client [] [] [] true.
Definition updateAPI (_ : client) : client := Client [] [] [] false.

(** The rejection handler of the interceptor: is the error shown? *)
Definition shows_error (cl : client) (c : config) : bool := reportsErrors cl && negb (skipErrorHandler c).

Inductive step : client → client → Prop :=
  | step_get url c cl : step cl (get url c cl).2
  | step_settle p cl : p ∈ pending cl → step cl (settle p cl).

Inductive reachable : client → Prop :=
  | reach_initial : reachable initial_client
  | reach_update cl : reachable cl → reachable (updateAPI cl)
  | reach_step cl cl' : reachable cl → step cl cl' → reachable cl'.

(** ** The map holds exactly the pending shared requests *)

Record client_ok (cl : client) : Prop := {
  ok_map : ∀ key p, assoc_get (inFlight cl) key = Some p ↔ p ∈ pending cl ∧ origin cl !! p = Some (Some key);
  ok_pending : NoDup (pending cl);
  ok_old : ∀ p, p ∈ pending cl → p < length (origin cl) }.

Lemma start_ok_pending key cl : client_ok cl →
  NoDup (pending (start key cl).2) ∧ ∀ p, p ∈ pending (start key cl).2 → p < length (origin (start key cl).2).
Proof.
  intros [_ Hnd Hold]. cbn. split.
  - constructor; [|done]. intros H%Hold. lia.
  - intros p [->|Hp%Hold]%elem_of_cons; rewrite length_app; cbn; lia.
Qed.

Lemma origin_app (o : list (option jsstr)) k p v : (o ++ [k]) !! p = Some v ↔ o !! p = Some v ∨ p = length o ∧ k = v.
Proof.
  destruct (decide (p < length o)).
  - rewrite lookup_app_l by done. split; [by left|]. intros [|[-> _]]; [done|lia].
  - rewrite lookup_app_r by lia. rewrite (lookup_ge_None_2 o) by lia. split.
    + intros H. right. destruct (p - length o) eqn:E; cbn in H; [|done]. injection H as <-. split; [lia|done].
    + intros [|[-> ->]]; [done|]. by rewrite Nat.sub_diag.
Qed.

Lemma get_ok url c cl : client_ok cl → client_ok (get url c cl).2.
Proof.
  intros Hok. pose proof Hok as [Hmap Hnd Hold]. unfold get. destruct (disableDuplicate c).
  - destruct (start_ok_pending None cl Hok) as [H1 H2]. constructor; [|done|done]. intros key p. cbn.
    rewrite Hmap, elem_of_cons, origin_app. split; [intros []; auto|].
    intros [[->|Hp] [Ho|[He Hn]]]; try done. apply lookup_lt_Some in Ho. lia.
  - destruct (assoc_get (inFlight cl) (genKey url c)) as [p|] eqn:E; [done|].
    destruct (start_ok_pending (Some (genKey url c)) cl Hok) as [H1 H2]. constructor; [|done|done]. intros key p. cbn.
    rewrite assoc_get_set, elem_of_cons, origin_app. case_decide as Hk.
    + subst key. split; [intros [= <-]; auto|]. intros [[->|Hp] [Ho|[He _]]]; subst; try done.
      * assert (assoc_get (inFlight cl) (genKey url c) = Some p) by (by apply Hmap). congruence.
    + rewrite Hmap. split; [intros []; auto|]. intros [[->|Hp] [Ho|[He Hn]]]; try done; try congruence.
      apply lookup_lt_Some in Ho. lia.
Qed.

Lemma settle_client_ok p cl : client_ok cl → p ∈ pending cl → client_ok (settle p cl).
Proof.
  intros [Hmap Hnd Hold] Hp.
  assert (Hin : ∀ q, q ∈ List.filter (λ q, negb (Nat.eqb q p)) (pending cl) ↔ q ∈ pending cl ∧ q ≠ p).
  { intros q. rewrite !list_elem_of_In, filter_In, negb_true_iff, Nat.eqb_neq. done. }
  assert (Hnd' : NoDup (List.filter (λ q, negb (Nat.eqb q p)) (pending cl))).
  { clear -Hnd. induction Hnd as [|q l Hq _ IH]; cbn; [constructor|]. case_match; [|done]. constructor; [|done].
    contradict Hq. apply list_elem_of_In in Hq. apply filter_In in Hq as [Hq _]. by apply list_elem_of_In. }
  unfold settle. destruct (origin cl !! p) as [[key|]|] eqn:Eo; constructor; cbn; try done.
  - intros k q. rewrite assoc_get_delete, Hin. case_decide as Hk.
    + subst k. split; [done|]. intros [[Hq Hne] Ho]. exfalso. apply Hne.
      assert (assoc_get (inFlight cl) key = Some q) by (by apply Hmap).
      assert (assoc_get (inFlight cl) key = Some p) by (by apply Hmap). congruence.
    + rewrite Hmap. split; [intros [Hq Ho]|naive_solver]. split; [|done]. split; [done|]. intros ->. congruence.
  - intros q [Hq _]%Hin. auto.
  - intros k q. rewrite Hin, Hmap. split; [intros [Hq Ho]|naive_solver]. split; [|done]. split; [done|]. intros ->. congruence.
  - intros q [Hq _]%Hin. auto.
  - apply Hold in Hp. apply lookup_ge_None in Eo. lia.
  - intros q [Hq _]%Hin. auto.
Qed.

Lemma reachable_ok cl : reachable cl → client_ok cl.
Proof.
  induction 1 as [|cl _ _|cl cl' _ IH Hs].
  1,2: constructor; cbn; [|constructor|by intros p ?%elem_of_nil]; intros k p; split; [done|]; by intros [?%elem_of_nil _].
  destruct Hs; [by apply get_ok|by apply settle_client_ok].
Qed.

(** C37. Identical requests in flight are shared, and only those.  The requests
    of a client that was replaced by another are not those of the new one.  In every
    reachable client a plain [get] returns a promise that is pending; it
    starts a request exactly when no shared request with the same key is
    pending, and otherwise returns that one.  So a settled answer is never
    served again and two shared requests with one key are never in flight
    together. *)
Theorem get_shares cl url c :
  reachable cl → disableDuplicate c = false →
  let p := (get url c cl).1 in let cl' := (get url c cl).2 in
  p ∈ pending cl' ∧ origin cl' !! p = Some (Some (genKey url c)) ∧
  (∀ q, q ∈ pending cl' → origin cl' !! q = Some (Some (genKey url c)) → q = p) ∧
  (if (length (origin cl') =? length (origin cl))
   then ∃ q, q ∈ pending cl ∧ origin cl !! q = Some (Some (genKey url c))
   else length (origin cl') = S (length (origin cl)) ∧
        ¬ ∃ q, q ∈ pending cl ∧ origin cl !! q = Some (Some (genKey url c))).
Proof.
  intros Hr Hd. pose proof (reachable_ok cl Hr) as Hok. pose proof (get_ok url c cl Hok) as Hok'. cbn zeta.
  assert (Hp : assoc_get (inFlight (get url c cl).2) (genKey url c) = Some (get url c cl).1).
  { unfold get. rewrite Hd. destruct (assoc_get (inFlight cl) (genKey url c)) eqn:E; [done|]. cbn.
    rewrite assoc_get_set. by rewrite decide_True. }
  pose proof (proj1 (ok_map _ Hok' _ _) Hp) as [Hin Ho]. split; [done|]. split; [done|]. split.
  - intros q Hq Hoq. assert (assoc_get (inFlight (get url c cl).2) (genKey url c) = Some q) by (by apply Hok'). congruence.
  - unfold get. rewrite Hd. destruct (assoc_get (inFlight cl) (genKey url c)) as [q|] eqn:E.
    + cbn [snd]. rewrite Nat.eqb_refl. exists q. by apply Hok.
    + cbn [start snd origin]. rewrite length_app. cbn [length].
      destruct (Nat.eqb_spec (length (origin cl) + 1) (length (origin cl))); [lia|]. split; [lia|].
      intros (q & Hq). apply (ok_map _ Hok) in Hq. congruence.
Qed.

Definition plain_config : config := Config JUndef false false.
Definition one_request : client := (get (js "/api/status") plain_config initial_client).2.

Lemma get_shares_witness :
  let p := (get (js "/api/status") plain_config one_request).1 in
  let cl' := (get (js "/api/status") plain_config one_request).2 in
  p ∈ pending cl' ∧ origin cl' !! p = Some (Some (genKey (js "/api/status") plain_config)) ∧
  (∀ q, q ∈ pending cl' → origin cl' !! q = Some (Some (genKey (js "/api/status") plain_config)) → q = p) ∧
  ∃ q, q ∈ pending one_request ∧ origin one_request !! q = Some (Some (genKey (js "/api/status") plain_config)).
Proof.
  apply (get_shares one_request (js "/api/status") plain_config); [|reflexivity].
  eapply reach_step; [apply reach_initial|]. apply step_get.
Defined.

(** ** Model and group lists *)

(** The options (label and value are the model) and the selected one. *)
Definition processModelsData (data : list jsstr) (currentModel : jsstr) : list jsstr * option jsstr :=
  let hasCurrentModel := existsb (λ m, streq m currentModel) data in
  (data, if hasCurrentModel && Nat.ltb 0 (length data) then Some currentModel else head data).

Record group_info := GroupInfo { desc : jsstr; ratio : jval }.
Record group_option := GroupOption { glabel : jsstr; gvalue : jsstr; gratio : jval; fullLabel : option jsstr }.

Definition group_option_of (e : jsstr * group_info) : group_option :=
  let d := desc e.2 in
  GroupOption (if Nat.ltb 20 (length d) then take 20 d ++ js "..." else d) e.1 (ratio e.2) (Some d).

(** The user's own group moves to the front. *)
Definition processGroupsData (data : list (jsstr * group_info)) (userGroup : jsstr) : list group_option :=
  let groupOptions := map group_option_of data in
  match groupOptions with
  | [] => [GroupOption (js "用户分组") [] (JNum (num_of_Z 1)) None]
  | _ => if is_empty userGroup then groupOptions
         else match find_index (λ g, streq (gvalue g) userGroup) groupOptions with
              | Some i => match groupOptions !! i with
                          | Some g => g :: delete i groupOptions
                          | None => groupOptions
                          end
              | None => groupOptions
              end
  end.

(** Moving to the front loses and adds nothing. *)
Lemma processGroupsData_perm data userGroup :
  data ≠ [] → processGroupsData data userGroup ≡ₚ map group_option_of data.
Proof.
  intros Hne. unfold processGroupsData. destruct (map group_option_of data) as [|g gs] eqn:E; [by destruct data|].
  rewrite <- E. case_match; [done|]. destruct (find_index _ _) as [i|]; [|done].
  destruct (map group_option_of data !! i) as [x|] eqn:Ei; [|done]. symmetry. by apply delete_Permutation.
Qed.
