(* ===== verification/Sidebar.v ===== *)
(** * Sidebar visibility ([web/src/hooks/common/useSidebar.js])

    Which entries of the console's sidebar are shown is computed from the
    administrator's option (a JSON text merged over the defaults) and the
    user's own configuration.  The hook's instances keep the user's
    configuration and refresh each other through an event. *)

From S2P Require Import Prelude JsString JsNumber Json JsObject.

(** ** The administrator's configuration *)

Definition switches (names : list string) : jval := JObj (map (λ n, (js n, JBool true)) names).

Definition DEFAULT_ADMIN_CONFIG : list (jsstr * jval) :=
  [(js "chat", switches ["enabled"; "playground"; "chat"]);
   (js "console", switches ["enabled"; "detail"; "token"; "log"; "midjourney"; "task"]);
   (js "personal", switches ["enabled"; "topup"; "personal"]);
   (js "admin", switches ["enabled"; "channel"; "models"; "deployment"; "redemption"; "user"; "subscription"; "setting"])]%string.

Definition section_object (v : jval) : bool := truthy v && typeof_object v.

Definition merge_section (merged : list (jsstr * jval)) (e : jsstr * jval) : list (jsstr * jval) :=
  if negb (section_object e.2) then merged
  else if negb (truthy (obj_get merged e.1)) then obj_set merged e.1 (JObj (spread [] e.2))
  else obj_set merged e.1 (JObj (spread (spread [] (obj_get merged e.1)) e.2)).

(** [JSON.parse(JSON.stringify(value))] *)
Definition deepClone (value : jval) : option jval := text ← stringify value; parse text.

Definition mergeAdminConfig (savedConfig : jval) : list (jsstr * jval) :=
  let merged := match deepClone (JObj DEFAULT_ADMIN_CONFIG) with Some (JObj o) => o | _ => [] end in
  if negb (section_object savedConfig) then merged
  else fold_left merge_section (entries savedConfig) merged.

(** [option] is [statusState?.status?.SidebarModulesAdmin], a text. *)
Definition adminConfig (option : jsstr) : list (jsstr * jval) :=
  if is_empty option then mergeAdminConfig JNull
  else match parse option with
       | Some config => mergeAdminConfig config
       | None => mergeAdminConfig JNull
       end.

(** ** The user's configuration *)

Definition default_section (section : jval) : jval :=
  JObj (fold_left (λ acc moduleKey,
          if negb (streq moduleKey (js "enabled")) && truthy (read section moduleKey)
          then obj_set acc moduleKey (JBool true) else acc)
        (keys section) [(js "enabled", JBool true)]).

Definition defaultUserConfig (admin : list (jsstr * jval)) : list (jsstr * jval) :=
  fold_left (λ acc sectionKey,
    if truthy (prop (obj_get admin sectionKey) (js "enabled"))
    then obj_set acc sectionKey (default_section (obj_get admin sectionKey)) else acc)
  (own_keys admin) [].

(** What the request for the user's configuration leads to; [None] is a
    rejected request, [Some body] an answer. *)
Definition loaded_config (admin : list (jsstr * jval)) (res : option jval) : jval :=
  let fallback := JObj (defaultUserConfig admin) in
  default fallback (
    body ← res;
    success ← read_throw body (js "success");
    if negb (truthy success) then Some fallback
    else data ← read_throw body (js "data");
         modules ← read_throw data (js "sidebar_modules");
         if negb (truthy modules) then Some fallback
         else match modules with JStr text => parse text | _ => Some modules end).

Record instance := Instance { userConfig : jval; loading : bool; hasLoadedOnce : bool }.

Definition mounted : instance := Instance JNull true false.

(** [loadUserConfig] up to its [await] and after it. *)
Definition shouldShowLoader (withLoading : option bool) (i : instance) : bool :=
  default (negb (hasLoadedOnce i)) withLoading.
Definition begin_load (withLoading : option bool) (i : instance) : instance :=
  Instance (userConfig i) (if shouldShowLoader withLoading i then true else loading i) (hasLoadedOnce i).
Definition finish_load (admin : list (jsstr * jval)) (showLoader : bool) (res : option jval) (i : instance) : instance :=
  Instance (loaded_config admin res) (if showLoader then false else loading i) true.

Definition loadUserConfig (admin : list (jsstr * jval)) (withLoading : option bool) (res : option jval) (i : instance) : instance :=
  finish_load admin (shouldShowLoader withLoading i) res (begin_load withLoading i).

(** [refreshUserConfig] of instance [n]: it loads without the loader, then its
    event makes every other instance load; [res] is what each request gives. *)
Definition handleRefresh (admin : list (jsstr * jval)) (source n : nat) (skipLoader : bool) (res : option jval) (i : instance) : instance :=
  if Nat.eqb source n then i
  else if Nat.ltb 0 (length (own_keys admin))
  then loadUserConfig admin (if skipLoader then Some false else None) res i else i.

Definition refreshUserConfig (admin : list (jsstr * jval)) (n : nat) (res : nat → option jval) (insts : list instance) : list instance :=
  let own k i := if Nat.eqb k n && Nat.ltb 0 (length (own_keys admin))
                 then loadUserConfig admin (Some false) (res k) i else i in
  imap (λ k i, handleRefresh admin n k true (res k) (own k i)) insts.

(** ** What is shown *)

Definition final_section (adminSection userSection : jval) : jval :=
  if negb (truthy (prop adminSection (js "enabled"))) then JObj [(js "enabled", JBool false)]
  else
    let sectionEnabled := if truthy userSection then negb (is_false (read userSection (js "enabled"))) else true in
    JObj (fold_left (λ acc moduleKey,
            if streq moduleKey (js "enabled") then acc
            else
              let adminAllowed := read adminSection moduleKey in
              let userAllowed := if truthy userSection then negb (is_false (read userSection moduleKey)) else true in
              obj_set acc moduleKey
                (if negb (truthy adminAllowed) then adminAllowed
                 else if negb userAllowed then JBool false else JBool sectionEnabled))
          (keys adminSection) [(js "enabled", JBool sectionEnabled)]).

Definition finalConfig (admin : list (jsstr * jval)) (user : jval) : list (jsstr * jval) :=
  if Nat.eqb (length (own_keys admin)) 0 then []
  else if negb (truthy user) then []
  else fold_left (λ acc sectionKey,
         obj_set acc sectionKey (final_section (obj_get admin sectionKey) (read user sectionKey)))
       (own_keys admin) [].

Definition isModuleVisible (final : list (jsstr * jval)) (sectionKey moduleKey : jsstr) : bool :=
  if negb (is_empty moduleKey) then is_true (prop (obj_get final sectionKey) moduleKey)
  else is_true (prop (obj_get final sectionKey) (js "enabled")).

Definition getVisibleModules (final : list (jsstr * jval)) (sectionKey : jsstr) : list jsstr :=
  let section := obj_get final sectionKey in
  if negb (truthy (prop section (js "enabled"))) then []
  else List.filter (λ key, negb (streq key (js "enabled")) && is_true (read section key)) (keys section).

Definition hasSectionVisibleModules (final : list (jsstr * jval)) (sectionKey : jsstr) : bool :=
  let section := obj_get final sectionKey in
  if negb (truthy (prop section (js "enabled"))) then false
  else existsb (λ key, negb (streq key (js "enabled")) && is_true (read section key)) (keys section).

(** ** The merged configuration *)

Lemma default_clone : deepClone (JObj DEFAULT_ADMIN_CONFIG) = Some (JObj DEFAULT_ADMIN_CONFIG).
Proof. vm_compute. reflexivity. Qed.

Lemma default_sections s :
  obj_get DEFAULT_ADMIN_CONFIG s = JUndef ∨ ∃ o, obj_get DEFAULT_ADMIN_CONFIG s = JObj o ∧ NoDup (map fst o).
Proof.
  unfold DEFAULT_ADMIN_CONFIG. cbn [obj_get].
  repeat (case_match; [right; eexists; split; [reflexivity|apply (bool_decide_unpack _); vm_compute; exact I]|]).
  by left.
Qed.

(** What the administrator has set: the saved value of a section that is an
    object and has the key, else the default. *)
Definition setting (saved : jval) (s k : jsstr) : jval :=
  let section := if section_object saved then obj_get (entries saved) s else JUndef in
  if section_object section && obj_has (entries section) k then obj_get (entries section) k
  else prop (obj_get DEFAULT_ADMIN_CONFIG s) k.

Definition merged_value (a b : jval) : jval :=
  if negb (truthy a) then JObj (spread [] b) else JObj (spread (spread [] a) b).

Lemma merge_fold_get l m s : NoDup (map fst l) →
  obj_get (fold_left merge_section l m) s =
  if section_object (obj_get l s) then merged_value (obj_get m s) (obj_get l s) else obj_get m s.
Proof.
  revert m. induction l as [|[k v] l IH]; intros m; cbn [fold_left obj_get map fst]; [done|].
  rewrite NoDup_cons. intros [Hni Hnd]. rewrite IH by done. unfold merge_section. cbn [fst snd].
  destruct (streq k s) eqn:E.
  - apply streq_true in E as ->. rewrite (obj_get_absent l) by done. cbn.
    destruct (section_object v); cbn [negb]; [|done]. unfold merged_value.
    destruct (truthy (obj_get m s)); cbn [negb]; by rewrite obj_get_set, streq_refl.
  - assert (Hm : ∀ x, obj_get (obj_set m k x) s = obj_get m s) by (intros x; by rewrite obj_get_set, E).
    destruct (section_object v); cbn [negb]; [|done]. destruct (truthy (obj_get m k)); cbn [negb]; by rewrite !Hm.
Qed.

Lemma merged_value_get a b k : a = JUndef ∨ (∃ o, a = JObj o ∧ NoDup (map fst o)) → unique_keys b = true →
  ∃ o, merged_value a b = JObj o ∧
       obj_get o k = if obj_has (entries b) k then obj_get (entries b) k else prop a k.
Proof.
  intros Ha Hb. pose proof (unique_entries b Hb) as Hnb.
  assert (Hs : ∀ o, obj_get (spread o b) k = if obj_has (entries b) k then obj_get (entries b) k else obj_get o k)
    by (intros o; by apply fold_set_get).
  destruct Ha as [->|(o & -> & Hnd)]; cbn [merged_value truthy negb prop]; eexists; (split; [reflexivity|]).
  - by rewrite Hs.
  - rewrite Hs, spread_get by done. destruct (obj_has o k) eqn:E; [done|].
    by rewrite (obj_get_absent o k) by (rewrite <- obj_has_In; congruence).
Qed.

(** Every section of the merged configuration is an object that holds the
    administrator's settings. *)
Lemma merged_setting saved s k : unique_keys saved = true →
  (obj_get (mergeAdminConfig saved) s = JUndef ∨ ∃ o, obj_get (mergeAdminConfig saved) s = JObj o) ∧
  prop (obj_get (mergeAdminConfig saved) s) k = setting saved s k.
Proof.
  intros Hu. unfold mergeAdminConfig, setting. rewrite default_clone. pose proof (default_sections s) as Hd.
  destruct (section_object saved); cbn [negb].
  - rewrite merge_fold_get by by apply unique_entries.
    destruct (section_object (obj_get (entries saved) s)) eqn:Es; cbn [andb]; [|split; [naive_solver|done]].
    destruct (merged_value_get _ (obj_get (entries saved) s) k Hd) as (o & -> & Ho); [|split; [eauto|exact Ho]].
    destruct (obj_has (entries saved) s) eqn:Eh.
    + apply obj_has_In, list_elem_of_fmap in Eh as ([s' x] & -> & Hin). cbn [fst] in *.
      rewrite (obj_get_In _ s' x) by (done || by apply unique_entries). by eapply unique_entry.
    + rewrite obj_get_absent; [done|]. rewrite <- obj_has_In. congruence.
  - split; [naive_solver|done].
Qed.

(** ** Visibility *)

Definition user_allows (user : jval) (s k : jsstr) : bool :=
  let section := read user s in if truthy section then negb (is_false (read section k)) else true.

(** [fold_keys_get] in the form the two loops of the hook have. *)
Lemma fold_set_keys (F : jsstr → jval) ks o k :
  obj_get (fold_left (λ acc x, obj_set acc x (F x)) ks o) k = if bool_decide (k ∈ ks) then F k else obj_get o k.
Proof. pose proof (fold_keys_get F (λ _, false) ks o k) as H. cbn in H. rewrite H. by rewrite andb_true_r. Qed.

Lemma final_get admin user s : truthy user = true →
  obj_get (finalConfig admin user) s =
  if obj_has admin s then final_section (obj_get admin s) (read user s) else JUndef.
Proof.
  intros Hu. unfold finalConfig. rewrite Hu. cbn [negb].
  assert (Hk : bool_decide (s ∈ own_keys admin) = obj_has admin s).
  { apply eq_true_iff_eq. by rewrite bool_decide_eq_true, obj_has_In, own_keys_In. }
  destruct (Nat.eqb_spec (length (own_keys admin)) 0) as [E|E].
  - apply nil_length_inv in E. rewrite <- Hk, E. done.
  - rewrite fold_set_keys, Hk. by destruct (obj_has admin s).
Qed.

Lemma final_section_enabled a u : is_true (prop (final_section a u) (js "enabled")) =
  truthy (prop a (js "enabled")) && (if truthy u then negb (is_false (read u (js "enabled"))) else true).
Proof.
  unfold final_section. destruct (truthy (prop a (js "enabled"))); cbn [negb andb]; [|done]. cbn [prop].
  rewrite (fold_keys_get _ (λ x, streq x (js "enabled"))). rewrite streq_refl, andb_false_r.
  cbn [obj_get]. rewrite streq_refl. by destruct (truthy u); [destruct (is_false _)|].
Qed.

Lemma final_section_module o u k : k ≠ js "enabled" →
  is_true (prop (final_section (JObj o) u) k) =
  truthy (obj_get o (js "enabled")) && truthy (obj_get o k) &&
  (if truthy u then negb (is_false (read u (js "enabled"))) else true) &&
  (if truthy u then negb (is_false (read u k)) else true).
Proof.
  intros Hk. unfold final_section. cbn [prop read]. 
  destruct (truthy (obj_get o (js "enabled"))); cbn [negb andb].
  2: { cbn [obj_get prop]. by rewrite (proj2 (streq_false (js "enabled") k)) by done. }
  cbn [prop]. rewrite (fold_keys_get _ (λ x, streq x (js "enabled"))), (proj2 (streq_false k (js "enabled"))) by done.
  cbn [negb]. rewrite andb_true_r. case_bool_decide as Hin.
  - destruct (truthy (obj_get o k)) eqn:Et; cbn [negb andb].
    { destruct (truthy u); [|done]. by destruct (is_false (read u k)), (is_false (read u (js "enabled"))). }
    by destruct (obj_get o k) as [| |[]| | | |].
  - rewrite (obj_get_absent o k) by (rewrite <- own_keys_In; exact Hin). cbn [truthy andb obj_get].
    by rewrite (proj2 (streq_false (js "enabled") k)) by done.
Qed.

Lemma obj_get_has_undef o k : obj_has o k = false → obj_get o k = JUndef.
Proof. intros H. apply obj_get_absent. rewrite <- obj_has_In. congruence. Qed.

Lemma visible_module saved user s k : unique_keys saved = true → truthy user = true → k ≠ [] → k ≠ js "enabled" →
  isModuleVisible (finalConfig (mergeAdminConfig saved) user) s k =
  truthy (setting saved s (js "enabled")) && truthy (setting saved s k) &&
  user_allows user s (js "enabled") && user_allows user s k.
Proof.
  intros Hs Hu Hne Hk. destruct (merged_setting saved s k Hs) as [Ho <-].
  destruct (merged_setting saved s (js "enabled") Hs) as [_ <-]. unfold isModuleVisible. destruct k; [done|].
  cbn [is_empty negb]. rewrite final_get by done. unfold user_allows.
  destruct (obj_has (mergeAdminConfig saved) s) eqn:Eh; [|by rewrite obj_get_has_undef].
  destruct Ho as [->|[o ->]].
  { unfold final_section. cbn [prop truthy negb obj_get andb].
    by rewrite (proj2 (streq_false (js "enabled") (_ :: _))) by (intros H; by apply Hk). }
  by apply final_section_module.
Qed.

Lemma visible_section saved user s : unique_keys saved = true → truthy user = true →
  isModuleVisible (finalConfig (mergeAdminConfig saved) user) s [] =
  truthy (setting saved s (js "enabled")) && user_allows user s (js "enabled").
Proof.
  intros Hs Hu. destruct (merged_setting saved s (js "enabled") Hs) as [_ <-]. unfold isModuleVisible.
  cbn [is_empty negb]. rewrite final_get by done. 
  destruct (obj_has (mergeAdminConfig saved) s) eqn:Eh; [|by rewrite obj_get_has_undef].
  apply final_section_enabled.
Qed.

Definition saved_admin (option : jsstr) : jval := default JNull (parse option).

Lemma adminConfig_saved option :
  adminConfig option = mergeAdminConfig (saved_admin option) ∧ unique_keys (saved_admin option) = true.
Proof.
  unfold adminConfig, saved_admin. destruct option as [|c t]; [done|]. cbn [is_empty].
  destruct (parse (c :: t)) as [v|] eqn:E; [|done]. by apply parse_unique in E.
Qed.

(** C36. The sidebar shows what the administrator and the user both allow, and
    nothing else.  For every text of the administrator's option and every
    loaded user configuration, an entry is visible exactly when the
    administrator's settings (the saved ones over the defaults) enable both the
    section and the entry and the user's configuration switches neither off;
    and while no user configuration is loaded nothing is visible. *)
Theorem sidebar_visible_iff option user s k :
  k ≠ [] → k ≠ js "enabled" →
  isModuleVisible (finalConfig (adminConfig option) user) s k = true ↔
  truthy user = true ∧
  truthy (setting (saved_admin option) s (js "enabled")) = true ∧ truthy (setting (saved_admin option) s k) = true ∧
  user_allows user s (js "enabled") = true ∧ user_allows user s k = true.
Proof.
  intros Hne Hk. destruct (adminConfig_saved option) as [-> Hs]. destruct (truthy user) eqn:Hu.
  - rewrite visible_module by done. rewrite !andb_true_iff. naive_solver.
  - unfold finalConfig. rewrite Hu. destruct k; [done|]. split; [|by intros [? _]].
    by destruct (Nat.eqb _ 0).
Qed.

Definition hides_playground : jval := JObj [(js "chat", JObj [(js "playground", JBool false)])].

Lemma sidebar_visible_iff_witness :
  let option := jsq "{'console':{'log':false},'extra':{'enabled':true,'docs':true}}" in
  isModuleVisible (finalConfig (adminConfig option) hides_playground) (js "extra") (js "docs") = true ∧
  isModuleVisible (finalConfig (adminConfig option) hides_playground) (js "console") (js "log") = false.
Proof.
  intros option. split.
  - apply (sidebar_visible_iff option hides_playground (js "extra") (js "docs")); [done|done|]. vm_compute. repeat split.
  - vm_compute. reflexivity.
Defined.

(** ** A user without a configuration *)

Definition all_true (v : jval) : Prop := ∀ k, is_false (read v k) = false.

Lemma default_section_true a : all_true (default_section a).
Proof.
  unfold default_section, all_true. cbn [read]. apply fold_left_inv.
  - intros k. cbn [obj_get]. by destruct (streq (js "enabled") k).
  - intros acc x _ Hacc k. case_match; [|done]. rewrite obj_get_set. by destruct (streq x k).
Qed.

Lemma default_allows admin s k : user_allows (JObj (defaultUserConfig admin)) s k = true.
Proof.
  assert (H : ∀ s, all_true (read (JObj (defaultUserConfig admin)) s)).
  { clear s k. cbn [read]. unfold defaultUserConfig. apply fold_left_inv; [done|].
    intros acc x _ Hacc s. case_match; [|done]. rewrite obj_get_set.
    destruct (streq x s); [apply default_section_true|done]. }
  unfold user_allows. rewrite H. by case_match.
Qed.

(** A user who has no sidebar configuration, or whose configuration cannot
    be fetched or read, sees exactly what the administrator allows: the
    generated default configuration neither hides an allowed entry nor reveals
    a disabled one. *)
Theorem fallback_shows_admin option s k :
  k ≠ [] → k ≠ js "enabled" →
  isModuleVisible (finalConfig (adminConfig option) (loaded_config (adminConfig option) None)) s k =
  truthy (setting (saved_admin option) s (js "enabled")) && truthy (setting (saved_admin option) s k).
Proof.
  intros Hne Hk. cbn [loaded_config mbind option_bind default]. 
  pose proof (default_allows (adminConfig option)) as Ha. destruct (adminConfig_saved option) as [E Hs].
  rewrite E at 1. rewrite visible_module by done. by rewrite !Ha, !andb_true_r.
Qed.

Lemma fallback_shows_admin_witness :
  isModuleVisible (finalConfig (adminConfig (js "{")) (loaded_config (adminConfig (js "{")) None)) (js "admin") (js "user") = true.
Proof.
  rewrite (fallback_shows_admin (js "{") (js "admin") (js "user")); [|done|done]. vm_compute. reflexivity.
Defined.

(** ** Lists of visible modules *)

Lemma visible_lists final s :
  (hasSectionVisibleModules final s = true ↔ ∃ k, k ∈ getVisibleModules final s).
Proof.
  unfold hasSectionVisibleModules, getVisibleModules. case_match.
  - split; [done|]. by intros [k ?%elem_of_nil].
  - rewrite existsb_exists. split; intros [k Hk]; exists k; [by apply list_elem_of_In, filter_In|by apply list_elem_of_In, filter_In in Hk].
Qed.

Lemma visible_module_listed option user s k : k ≠ [] → k ≠ js "enabled" →
  k ∈ getVisibleModules (finalConfig (adminConfig option) user) s ↔
  isModuleVisible (finalConfig (adminConfig option) user) s k = true.
Proof.
  intros Hne Hk. unfold getVisibleModules, isModuleVisible. destruct (is_empty k) eqn:Ek; [by destruct k|]. cbn [negb].
  destruct (adminConfig_saved option) as [-> Hs]. destruct (truthy user) eqn:Hu.
  2: { assert (finalConfig (mergeAdminConfig (saved_admin option)) user = []) as ->
         by (unfold finalConfig; rewrite Hu; by destruct (Nat.eqb _ 0)). cbn. by rewrite elem_of_nil. }
  rewrite final_get by done. destruct (obj_has _ s); [|cbn; by rewrite elem_of_nil].
  destruct (merged_setting (saved_admin option) s k Hs) as [Ho _]. set (u := read user s).
  set (a := obj_get _ s) in *. clearbody a u.
  assert (Hf : ∃ o, final_section a u = JObj o) by (unfold final_section; case_match; eauto).
  assert (He : is_true (prop (final_section a u) k) = true → truthy (prop (final_section a u) (js "enabled")) = true).
  { destruct Ho as [->|[o ->]].
    - cbn [final_section prop truthy negb obj_get]. by rewrite (proj2 (streq_false (js "enabled") k)) by done.
    - rewrite final_section_module by done. rewrite !andb_true_iff. intros [[[H1 _] H2] _].
      pose proof (final_section_enabled (JObj o) u) as H. change (prop (JObj o) (js "enabled")) with (obj_get o (js "enabled")) in H.
      rewrite H1, H2 in H.
      by destruct (prop (final_section (JObj o) u) (js "enabled")) as [| |[]| | | |]. }
  destruct Hf as [o Eo]. rewrite Eo in *. cbn [prop] in *. destruct (truthy (obj_get o (js "enabled"))); cbn [negb].
  - rewrite list_elem_of_In, filter_In, <- list_elem_of_In. cbn [keys entries read].
    rewrite (proj2 (streq_false k (js "enabled"))) by done. cbn [negb andb]. split; [by intros []|]. intros H. split; [|done].
    destruct (decide (k ∈ own_keys o)) as [|Hni]; [done|]. rewrite own_keys_In in Hni. by rewrite obj_get_absent in H.
  - rewrite elem_of_nil. split; [done|]. intros H. by discriminate (He H).
Qed.
