(* ===== verification/ChannelForms.v ===== *)
(** * Guards and helpers of the channel forms

    - [web/src/components/table/channels/modals/statusCodeRiskGuard.js]: which
      status code redirects of a channel need a confirmation;
    - [web/src/hooks/channels/upstreamUpdateUtils.js]: the pending model
      changes stored in a channel's settings;
    - the connection string of [web/src/helpers/token.js], which carries a key
      and an address from one console to another. *)

From S2P Require Import Prelude JsString JsRegex JsNumber Json JsObject.

(** ** Status code redirects *)

Definition NON_REDIRECTABLE_STATUS_CODES : list num := [num_of_Z 504; num_of_Z 524].

Definition one_to_five (c : N) : bool := ((49 <=? c) && (c <=? 53))%N.
(** [^[1-5]\d{2}$] *)
Definition re_status : regex := (RBol +> RSet one_to_five +> RSet is_digit +> RSet is_digit +> REol)%re.

Definition parseStatusCodeKey (rawKey : jsstr) : option num :=
  let normalized := trim rawKey in
  if negb (re_test re_status normalized) then None else Some (parseInt10 normalized).

Definition in_status_range (x : num) : bool := nle (num_of_Z 100) x && nle x (num_of_Z 599).

Definition parseStatusCodeMappingTarget (rawValue : jval) : option num :=
  match rawValue with
  | JNum x => if isInteger x then (if in_status_range x then Some x else None) else None
  | JStr s => let normalized := trim s in
              if negb (re_test re_status normalized) then None
              else let code := parseInt10 normalized in if in_status_range code then Some code else None
  | _ => None
  end.

(** The guards the two collectors share: a text that is not a JSON object has
    no entries. *)
Definition mapping_entries (statusCodeMappingStr : jsstr) : list (jsstr * jval) :=
  if is_empty (trim statusCodeMappingStr) then []
  else match parse statusCodeMappingStr with
       | None => []
       | Some parsed => if negb (truthy parsed) || negb (typeof_object parsed) || is_array parsed then [] else entries parsed
       end.

Definition invalid_entry (e : jsstr * jval) : option jsstr :=
  match parseStatusCodeKey e.1, parseStatusCodeMappingTarget e.2 with
  | Some _, Some _ => None
  | _, _ => Some (e.1 ++ js " → " ++ String_of e.2)
  end.

Definition collectInvalidStatusCodeEntries (s : jsstr) : list jsstr :=
  fold_left (λ invalid e, match invalid_entry e with Some t => invalid ++ [t] | None => invalid end) (mapping_entries s) [].

Definition risky_mapping (e : jsstr * jval) : option jsstr :=
  match parseStatusCodeKey e.1, parseStatusCodeMappingTarget e.2 with
  | Some fromCode, Some toCode =>
    if negb (existsb (neq fromCode) NON_REDIRECTABLE_STATUS_CODES) then None
    else if neq fromCode toCode then None
    else Some (String_of_num fromCode ++ js " -> " ++ String_of_num toCode)
  | _, _ => None
  end.

Definition collectDisallowedStatusCodeRedirects (s : jsstr) : list jsstr :=
  sort unit_order (uniq (fold_left (λ riskyMappings e,
    match risky_mapping e with Some t => riskyMappings ++ [t] | None => riskyMappings end) (mapping_entries s) [])).

Definition collectNewDisallowedStatusCodeRedirects (original current : jsstr) : list jsstr :=
  let currentRisky := collectDisallowedStatusCodeRedirects current in
  if Nat.eqb (length currentRisky) 0 then []
  else let originalRisky := collectDisallowedStatusCodeRedirects original in
       List.filter (λ mapping, negb (existsb (streq mapping) originalRisky)) currentRisky.

(** ** Pending upstream model changes *)

(** [None] is the [TypeError] of [map] on a value that is not an array. *)
Definition normalizeModelList (models : jval) : option (list jsstr) :=
  match js_or models (JArr []) with
  | JArr l => Some (uniq (filter_truthy (map (λ model, trim (String_of (js_or model (JStr [])))) l)))
  | _ => None
  end.

Record update_meta := UpdateMeta { enabled : bool; pendingAddModels : list jsstr; pendingRemoveModels : list jsstr }.

Definition parseUpstreamUpdateMeta (settings : jval) : option update_meta :=
  let parsed := if truthy settings && typeof_object settings then settings
                else match settings with JStr t => default JNull (parse t) | _ => JNull end in
  if negb (truthy parsed) || negb (typeof_object parsed) then Some (UpdateMeta false [] [])
  else add ← normalizeModelList (read parsed (js "upstream_model_update_last_detected_models"));
       rem ← normalizeModelList (read parsed (js "upstream_model_update_last_removed_models"));
       Some (UpdateMeta (is_true (read parsed (js "upstream_model_update_check_enabled"))) add rem).

(** ** Connection strings *)

Definition CHANNEL_CONN_CLIPBOARD_TYPE : jsstr := js "newapi_channel_conn".

Definition encodeChannelConnectionString (key url : jsstr) : option jsstr :=
  stringify (JObj [(js "_type", JStr CHANNEL_CONN_CLIPBOARD_TYPE); (js "key", JStr key); (js "url", JStr url)]).

Definition parseChannelConnectionString (text : jsstr) : option (jsstr * jsstr) :=
  if is_empty text then None
  else match parse (trim text) with
       | None => None
       | Some parsed =>
         if truthy parsed && typeof_object parsed then
           match read parsed (js "_type"), read parsed (js "key"), read parsed (js "url") with
           | JStr ty, JStr key, JStr url => if streq ty CHANNEL_CONN_CLIPBOARD_TYPE then Some (key, url) else None
           | _, _, _ => None
           end
         else None
       end.

(** [status] is the text in [localStorage], [origin] the page's own origin. *)
Definition getServerAddress (status origin : jsstr) : jval :=
  let serverAddress :=
    if is_empty status then JStr []
    else match parse status with
         | Some s => match read_throw s (js "server_address") with Some a => js_or a (JStr []) | None => JStr [] end
         | None => JStr []
         end in
  if truthy serverAddress then serverAddress else JStr origin.

(** ** What the guard reports *)

Definition digits10 : list N := [48; 49; 50; 51; 52; 53; 54; 55; 56; 57]%N.
Definition status_texts : list jsstr :=
  flat_map (λ a, flat_map (λ b, map (λ c, [a; b; c]) digits10) digits10) [49; 50; 51; 52; 53]%N.

Lemma status_text s : re_test re_status s = true → In s status_texts.
Proof.
  unfold re_test, re_status. rewrite search_bol. intros Hr.
  destruct s as [|a [|b [|c [|d s]]]]; cbn in Hr; repeat case_match; try done.
  assert (Hd : ∀ x, is_digit x = true → In x digits10).
  { intros x Hx. unfold is_digit in Hx. bool_hyps. unfold digits10. cbn. lia. }
  apply in_flat_map. exists a. split; [unfold one_to_five in *; bool_hyps; cbn; lia|].
  apply in_flat_map. exists b. split; [auto|]. apply (in_map (λ c, [a; b; c])). auto.
Qed.

(** The two codes among the five hundred. *)
Definition guarded_texts : list jsstr := [js "504"; js "524"].

Lemma status_codes s : In s status_texts →
  re_test re_status s = true ∧ String_of_num (parseInt10 s) = s ∧ in_status_range (parseInt10 s) = true ∧
  (existsb (neq (parseInt10 s)) NON_REDIRECTABLE_STATUS_CODES = bool_decide (s ∈ guarded_texts)).
Proof.
  assert (H : forallb (λ s, re_test re_status s && streq (String_of_num (parseInt10 s)) s && in_status_range (parseInt10 s)
                && Bool.eqb (existsb (neq (parseInt10 s)) NON_REDIRECTABLE_STATUS_CODES) (bool_decide (s ∈ guarded_texts)))
              status_texts = true) by (vm_compute; reflexivity).
  intros Hs. apply (proj1 (forallb_forall _ _) H) in Hs. rewrite !andb_true_iff, streq_true, eqb_true_iff in Hs. tauto.
Qed.

Lemma risky_mapping_Some e t : risky_mapping e = Some t ↔
  ∃ to, trim e.1 ∈ guarded_texts ∧ parseStatusCodeMappingTarget e.2 = Some to ∧
        neq (parseInt10 (trim e.1)) to = false ∧ t = trim e.1 ++ js " -> " ++ String_of_num to.
Proof.
  unfold risky_mapping, parseStatusCodeKey.
  assert (Hg : trim e.1 ∈ guarded_texts → re_test re_status (trim e.1) = true).
  { intros H. repeat (apply elem_of_cons in H as [->|H]; [vm_compute; reflexivity|]). by apply elem_of_nil in H. }
  destruct (re_test re_status (trim e.1)) eqn:Er; cbn [negb].
  2: { split; [done|]. intros (to & H%Hg & _). done. }
  apply status_text in Er. destruct (status_codes _ Er) as (_ & -> & _ & ->).
  clear Hg Er. destruct (parseStatusCodeMappingTarget e.2) as [to|]; [|split; [done|by intros (? & _ & ? & _)]].
  destruct (bool_decide (trim e.1 ∈ guarded_texts)) eqn:Eb; cbn [negb].
  2: { apply bool_decide_eq_false in Eb. split; [done|]. by intros (? & ? & _). }
  apply bool_decide_eq_true in Eb. destruct (neq (parseInt10 (trim e.1)) to) eqn:En.
  - split; [done|]. intros (to' & _ & [= <-] & Hn & _). congruence.
  - split; [intros [= <-]; by exists to|]. by intros (to' & _ & [= <-] & _ & ->).
Qed.

Lemma collect_fold {A} (f : A → option jsstr) l acc x :
  x ∈ fold_left (λ acc e, match f e with Some t => acc ++ [t] | None => acc end) l acc ↔
  x ∈ acc ∨ ∃ e, e ∈ l ∧ f e = Some x.
Proof.
  revert acc. induction l as [|e l IH]; intros acc; cbn [fold_left].
  - split; [by left|]. intros [|(e & ?%elem_of_nil & _)]; done.
  - rewrite IH. setoid_rewrite elem_of_cons. destruct (f e) as [t|] eqn:E; [rewrite elem_of_app, list_elem_of_singleton|]; naive_solver.
Qed.

(** The guard asks for confirmation for every redirect away from a gateway
    time-out and for nothing else: a text is reported exactly when some entry
    of the mapping has a key that trims to [504] or [524] and a valid target
    that is a different code.  The report is sorted and has no repetition, and
    against an earlier mapping exactly the redirects it did not have are
    reported. *)
Theorem risky_redirects_reported original current x :
  (x ∈ collectDisallowedStatusCodeRedirects current ↔
   ∃ k v to, (k, v) ∈ mapping_entries current ∧ trim k ∈ guarded_texts ∧
     parseStatusCodeMappingTarget v = Some to ∧ neq (parseInt10 (trim k)) to = false ∧
     x = trim k ++ js " -> " ++ String_of_num to) ∧
  NoDup (collectDisallowedStatusCodeRedirects current) ∧
  Sorted (λ a b, unit_order a b ≤ 0)%Z (collectDisallowedStatusCodeRedirects current) ∧
  (x ∈ collectNewDisallowedStatusCodeRedirects original current ↔
   x ∈ collectDisallowedStatusCodeRedirects current ∧ x ∉ collectDisallowedStatusCodeRedirects original).
Proof.
  split; [|split; [|split]].
  - unfold collectDisallowedStatusCodeRedirects. rewrite sort_perm, elem_of_uniq, collect_fold. split.
    + intros [?%elem_of_nil|([k v] & Hin & Hr)]; [done|]. apply risky_mapping_Some in Hr as (to & ?). by exists k, v, to.
    + intros (k & v & to & Hin & H). right. exists (k, v). split; [done|]. apply risky_mapping_Some. by exists to.
  - unfold collectDisallowedStatusCodeRedirects. rewrite sort_perm. apply uniq_NoDup.
  - apply sort_sorted, unit_order_total.
  - unfold collectNewDisallowedStatusCodeRedirects. cbn zeta. destruct (Nat.eqb_spec (length (collectDisallowedStatusCodeRedirects current)) 0) as [E|_].
    + apply nil_length_inv in E. rewrite E, elem_of_nil. naive_solver.
    + rewrite list_elem_of_In, filter_In, <- list_elem_of_In, negb_true_iff, <- not_true_iff_false, existsb_exists.
      setoid_rewrite streq_true. setoid_rewrite <- list_elem_of_In. naive_solver.
Qed.

(** Every entry is either reported as invalid or has a code on both sides. *)
Lemma invalid_entries s x : x ∈ collectInvalidStatusCodeEntries s ↔
  ∃ k v, (k, v) ∈ mapping_entries s ∧ (parseStatusCodeKey k = None ∨ parseStatusCodeMappingTarget v = None) ∧
         x = k ++ js " → " ++ String_of v.
Proof.
  unfold collectInvalidStatusCodeEntries. rewrite collect_fold. split.
  - intros [?%elem_of_nil|([k v] & Hin & Hf)]; [done|]. exists k, v. split; [done|]. unfold invalid_entry in Hf. cbn [fst snd] in Hf.
    destruct (parseStatusCodeKey k), (parseStatusCodeMappingTarget v); simplify_eq; auto.
  - intros (k & v & Hin & Hn & ->). right. exists (k, v). split; [done|]. unfold invalid_entry. cbn [fst snd].
    destruct Hn as [->| ->]; [done|]. by destruct (parseStatusCodeKey k).
Qed.

(** ** Model lists *)

(** Pending model lists come out clean and stay so: no empty name, no name
    with blanks around it, none twice, and normalizing again changes
    nothing. *)
Theorem model_list_normal models l :
  normalizeModelList models = Some l →
  NoDup l ∧ Forall (λ t, t ≠ [] ∧ trimmed t) l ∧ normalizeModelList (JArr (map JStr l)) = Some l.
Proof.
  unfold normalizeModelList at 1. destruct (js_or models (JArr [])) as [| | | | |xs|]; try done. intros [= <-].
  set (ys := filter_truthy _). assert (Hy : Forall (λ t, t ≠ [] ∧ trimmed t) (uniq ys)).
  { apply Forall_forall. intros t. rewrite elem_of_uniq. unfold ys, filter_truthy. rewrite list_elem_of_In, filter_In.
    intros [Hin Hne]. apply in_map_iff in Hin as (v & <- & _). split; [|apply trimmed_trim].
    intros Ht. by rewrite Ht in Hne. }
  pose proof (uniq_NoDup ys) as Hnd. split; [done|]. split; [done|]. revert Hy Hnd. generalize (uniq ys). clear. intros l Hl Hnd.
  unfold normalizeModelList. cbn [js_or truthy]. f_equal. rewrite map_map.
  assert (Hm : map (λ x, trim (String_of (js_or (JStr x) (JStr [])))) l = l).
  { rewrite <- (map_id l) at 2. apply map_ext_Forall. eapply Forall_impl; [exact Hl|]. intros t [Hne Ht].
    destruct t; [done|]. by apply trim_trimmed. }
  rewrite Hm, filter_truthy_id by (eapply Forall_impl; [exact Hl|]; by intros t []). by apply uniq_id.
Qed.

(** ** Connection strings *)

Lemma trim_pad a s b : forallb is_ws a = true → forallb is_ws b = true → s ≠ [] → trimmed s → trim (a ++ s ++ b) = s.
Proof.
  intros Ha Hb Hne Hs. unfold trim. rewrite drop_while_app_all by done. destruct s as [|c s]; [done|].
  pose proof Hs as (Hc & _). cbn [app drop_while]. rewrite Hc. rewrite app_comm_cons, rev_app_distr.
  rewrite drop_while_app_all by (apply forallb_forall; intros x Hx%in_rev; by apply (proj1 (forallb_forall _ _) Hb)).
  pose proof (trim_trimmed _ Hs) as H. unfold trim in H. cbn [drop_while] in H. by rewrite Hc in H.
Qed.

Lemma object_text_trimmed o t : stringify (JObj o) = Some t → t ≠ [] ∧ trimmed t.
Proof.
  unfold stringify. cbn [stringify_at]. intros [= <-]. unfold wrap. cbn [is_empty].
  destruct (omap _ _) as [|x l]; (split; [done|]); (split; [done|]); [by exists 125%N|].
  exists 125%N. split; [|done]. rewrite app_comm_cons. apply last_snoc.
Qed.

(** A connection string carries any key and any address: pasted with any
    blanks around it, the text one console copies is read back as the same key
    and address by another. *)
Theorem connection_string_roundtrip key url before after :
  wf_str key → wf_str url → forallb is_ws before = true → forallb is_ws after = true →
  ∃ t, encodeChannelConnectionString key url = Some t ∧
       parseChannelConnectionString (before ++ t ++ after) = Some (key, url).
Proof.
  intros Hk Hu Hb Ha. unfold encodeChannelConnectionString. set (v := JObj _).
  destruct (parse_stringify v) as (t & Ht & Hp).
  { cbn [v json_ok forallb fst snd map]. rewrite (proj2 (forallb_Forall _ _) Hk), (proj2 (forallb_Forall _ _) Hu). 
    rewrite !andb_true_r. vm_compute. reflexivity. }
  exists t. split; [done|]. destruct (object_text_trimmed _ _ Ht) as [Hne Htr].
  unfold parseChannelConnectionString. rewrite trim_pad by done. rewrite Hp.
  assert (E : is_empty (before ++ t ++ after) = false) by (destruct before; [by destruct t|done]). by rewrite E.
Qed.

Lemma connection_string_roundtrip_witness :
  ∃ t, encodeChannelConnectionString (js "sk-1") (js "https://a.b") = Some t ∧
       parseChannelConnectionString ([32; 10]%N ++ t ++ [10]%N) = Some (js "sk-1", js "https://a.b").
Proof.
  apply (connection_string_roundtrip (js "sk-1") (js "https://a.b") [32; 10]%N [10]%N);
    [apply wf_str_forallb; reflexivity|apply wf_str_forallb; reflexivity|reflexivity|reflexivity].
Defined.

Lemma model_list_normal_witness :
  NoDup [js "gpt-4o"; js "o1"] ∧ normalizeModelList (JArr (map JStr [js "gpt-4o"; js "o1"])) = Some [js "gpt-4o"; js "o1"].
Proof.
  destruct (model_list_normal (JArr [JStr (js " gpt-4o"); JNull; JStr (js "o1"); JStr (js "gpt-4o")]) [js "gpt-4o"; js "o1"])
    as (H1 & _ & H2); [vm_compute; reflexivity|]. exact (conj H1 H2).
Defined.
