(* ===== verification/TieredPricing.v ===== *)
(** * Tiered billing expressions and their visual editor

    [web/src/constants/billing.constants.js] lists the variables of a billing
    expression; [web/src/pages/Setting/Ratio/components/TieredPricingEditor.jsx]
    writes an expression from a list of tiers, reads it back with regular
    expressions, and lets the user switch between the two views.  A visual
    configuration is the object the source builds, [{ tiers: [...] }]. *)

From S2P Require Import Prelude JsString JsRegex JsNumber Json JsObject.

(** ** Variables *)

Record billing_var := BillingVar { key : jsstr; field : jsstr; tierField : jsstr; var_label : jsstr; shortLabel : jsstr;
  isBase : bool; isConditionOnly : bool; isCache : bool }.

(** The entry [len] has no field; [isCache] is the group [cache]. *)
Definition BILLING_VARS : list billing_var :=
  [BillingVar (js "p") (js "inputPrice") (js "input_unit_cost") (js "输入价格") (js "输入") true false false;
   BillingVar (js "c") (js "outputPrice") (js "output_unit_cost") (js "补全价格") (js "补全") true false false;
   BillingVar (js "len") [] [] (js "输入长度") (js "长度") false true false;
   BillingVar (js "cr") (js "cacheReadPrice") (js "cache_read_unit_cost") (js "缓存读取价格") (js "缓存读") false false true;
   BillingVar (js "cc") (js "cacheCreatePrice") (js "cache_create_unit_cost") (js "缓存创建价格") (js "缓存创建") false false true;
   BillingVar (js "cc1h") (js "cacheCreate1hPrice") (js "cache_create_1h_unit_cost") (js "1h缓存创建价格") (js "1h缓存创建") false false true;
   BillingVar (js "img") (js "imagePrice") (js "image_unit_cost") (js "图片输入价格") (js "图片输入") false false false;
   BillingVar (js "img_o") (js "imageOutputPrice") (js "image_output_unit_cost") (js "图片输出价格") (js "图片输出") false false false;
   BillingVar (js "ai") (js "audioInputPrice") (js "audio_input_unit_cost") (js "音频输入价格") (js "音频输入") false false false;
   BillingVar (js "ao") (js "audioOutputPrice") (js "audio_output_unit_cost") (js "音频补全价格") (js "音频输出") false false false].

Definition BILLING_PRICING_VARS : list billing_var := List.filter (λ v, negb (isConditionOnly v)) BILLING_VARS.
Definition BILLING_EXTRA_VARS : list billing_var := List.filter (λ v, negb (isBase v) && negb (isConditionOnly v)) BILLING_VARS.
(** [exprVar] and [field] of [BILLING_CACHE_VAR_MAP] *)
Definition CACHE_VAR_MAP : list (jsstr * jsstr) := map (λ v, (key v, tierField v)) BILLING_EXTRA_VARS.
Definition BILLING_VAR_KEY_TO_FIELD : list (jsstr * jsstr) := map (λ v, (key v, field v)) BILLING_PRICING_VARS.

(** ** Writing an expression *)

(** [Number(v) || 0] *)
Definition num_or_zero (v : jval) : num := let x := Number_of v in if num_truthy x then x else nzero.

Definition CACHE_MODE_TIMED : jsstr := js "timed".
Definition CACHE_MODE_GENERIC : jsstr := js "generic".

(** A condition without a variable, an operator or a value is left out.
    [conditions] is an array or absent. *)
Definition condition_set (c : jval) : bool :=
  truthy (prop c (js "var")) && truthy (prop c (js "op")) && negb (is_nullish (prop c (js "value")))
  && negb (match prop c (js "value") with JStr [] => true | _ => false end).
Definition condition_text (c : jval) : jsstr :=
  String_of (prop c (js "var")) ++ js " " ++ String_of (prop c (js "op")) ++ js " " ++ String_of (prop c (js "value")).
Definition elements (v : jval) : list jval := match v with JArr l => l | _ => [] end.
Definition buildConditionStr (conditions : jval) : jsstr :=
  join (js " && ") (map condition_text (List.filter condition_set (elements conditions))).

Definition is_text (v : jval) (t : jsstr) : bool := match v with JStr s => streq s t | _ => false end.

Definition getTierCacheMode (tier : jval) : jsstr :=
  if is_text (prop tier (js "cache_mode")) CACHE_MODE_TIMED then CACHE_MODE_TIMED
  else if is_text (prop tier (js "cache_mode")) CACHE_MODE_GENERIC then CACHE_MODE_GENERIC
  else if nlt nzero (Number_of (prop tier (js "cache_create_1h_unit_cost"))) then CACHE_MODE_TIMED else CACHE_MODE_GENERIC.

Definition normalizeVisualTier (tier : jval) : jval :=
  JObj (obj_set (obj_set (spread [] tier) (js "conditions")
                   (if is_array (prop tier (js "conditions")) then prop tier (js "conditions") else JArr []))
          (js "cache_mode") (JStr (getTierCacheMode tier))).

Definition createDefaultVisualConfig : jval :=
  JObj [(js "tiers", JArr [normalizeVisualTier (JObj
    [(js "conditions", JArr []); (js "input_unit_cost", JNum nzero); (js "output_unit_cost", JNum nzero);
     (js "label", JStr (js "base")); (js "cache_mode", JStr CACHE_MODE_GENERIC)])])].

Definition normalizeVisualConfig (config : jval) : jval :=
  match prop config (js "tiers") with
  | JArr ((_ :: _) as tiers) => JObj (obj_set (spread [] config) (js "tiers") (JArr (map normalizeVisualTier tiers)))
  | _ => createDefaultVisualConfig
  end.

Definition buildTierBodyExpr (tier : jval) : jsstr :=
  let ic := num_or_zero (prop tier (js "input_unit_cost")) in
  let oc := num_or_zero (prop tier (js "output_unit_cost")) in
  let extra (cv : jsstr * jsstr) :=
    let v := num_or_zero (prop tier cv.2) in
    if num_truthy v then Some (cv.1 ++ js " * " ++ String_of_num v) else None in
  join (js " + ") ((js "p * " ++ String_of_num ic) :: (js "c * " ++ String_of_num oc) :: omap extra CACHE_VAR_MAP).

Definition ZERO_EXPR : jsstr := js "p * 0 + c * 0".

Definition tier_call (label : jsstr) (tier : jval) : jsstr :=
  jsq "tier('" ++ label ++ jsq "', " ++ buildTierBodyExpr tier ++ js ")".

Definition label_or (fallback : jsstr) (tier : jval) : jsstr :=
  if truthy (prop tier (js "label")) then String_of (prop tier (js "label")) else fallback.

Definition tier_part (n i : nat) (t : jval) : jsstr :=
  let body := tier_call (label_or (js "第" ++ string_of_Z (Z.of_nat (i + 1)) ++ js "档") t) t in
  let cond := buildConditionStr (prop t (js "conditions")) in
  if Nat.ltb i (n - 1) && negb (is_empty cond) then cond ++ js " ? " ++ body else body.

Definition generateExprFromVisualConfig (config : jval) : jsstr :=
  match elements (prop config (js "tiers")) with
  | [] => ZERO_EXPR
  | [t] => let body := tier_call (label_or (js "default") t) t in
           let cond := buildConditionStr (prop t (js "conditions")) in
           if negb (is_empty cond) then cond ++ js " ? " ++ body ++ js " : p * 0 + c * 0" else body
  | tiers => join (js " : ") (imap (tier_part (length tiers)) tiers)
  end.

(** ** Reading an expression *)

Definition ws_star : regex := RStar true (RSet is_ws).
(** [[\d.eE+-]] is [num_char]; [[\d.eE+]] *)
Definition cond_char (c : N) : bool := (is_digit c || (c =? 46) || (c =? 101) || (c =? 69) || (c =? 43))%N.
Definition not_quote (c : N) : bool := negb (c =? 34)%N.

(** a version prefix and the rest of the text *)
Definition re_version : regex :=
  (RBol +> RLit (js "v") +> RPlus (RSet is_digit) +> RLit (js ":") +> RGroup 1 (RStar true (RSet any_unit)) +> REol)%re.

(** a variable, a star and a number; blanks between them; the group has number [n] *)
Definition re_product (v : jsstr) (n : nat) : regex :=
  (RLit v +> ws_star +> RLit (js "*") +> ws_star +> RGroup n (RPlus (RSet num_char)))%re.
Definition re_optional (v : jsstr) (n : nat) : regex :=
  ROpt (ws_star +> RLit (js "+") +> ws_star +> re_product v n)%re.
Fixpoint re_extras (vs : list jsstr) (n : nat) (r : regex) : regex :=
  match vs with
  | [] => r
  | v :: vs' => (re_optional v n +> re_extras vs' (S n) r)%re
  end.
(** [bodyPat], then [r]; the first group has number [n] *)
Definition re_body (n : nat) (r : regex) : regex :=
  (re_product (js "p") n +> ws_star +> RLit (js "+") +> ws_star +> re_product (js "c") (n + 1) +>
   re_extras (map fst CACHE_VAR_MAP) (n + 2) r)%re.
(** the call of [tier] up to the body, the label in group [n] *)
Definition re_call (n : nat) : regex :=
  (RLit (jsq "tier('") +> RGroup n (RStar true (RSet not_quote)) +> RLit (jsq "',") +> ws_star)%re.

Definition singleRe : regex := (RBol +> re_call 1 +> re_body 2 (RLit (js ")") +> REol))%re.

Definition re_var : regex := (RLit (js "p") <|> RLit (js "c") <|> RLit (js "len"))%re.
Definition re_op : regex := (RLit (js "<") <|> RLit (js "<=") <|> RLit (js ">") <|> RLit (js ">="))%re.
(** one comparison *)
Definition re_condition : regex := (re_var +> ws_star +> re_op +> ws_star +> RPlus (RSet cond_char))%re.
Definition re_and : regex := (ws_star +> RLit (js "&&") +> ws_star)%re.
Definition condGroup : regex := (RGroup 1 (re_condition +> RStar true (re_and +> re_condition)))%re.
Definition re_guard : regex := ROpt (condGroup +> ws_star +> RLit (js "?") +> ws_star)%re.
Definition tierRe : regex := (re_guard +> re_call 2 +> re_body 3 (RLit (js ")")))%re.

(** the same, anchored, with its three parts captured *)
Definition re_condition_parts : regex :=
  (RBol +> RGroup 1 re_var +> ws_star +> RGroup 2 re_op +> ws_star +> RGroup 3 (RPlus (RSet cond_char)) +> REol)%re.

(** [s.split(re)] for an expression without groups: at every position the
    expression is tried; a match that takes something ends the part. *)
Fixpoint re_split_go (r : regex) (skip : nat) (l acc s : jsstr) : list jsstr :=
  match s with
  | [] => [rev acc]
  | c :: s' =>
    match skip with
    | S k => re_split_go r k (c :: l) acc s'
    | O => match m r Some (Pos l s []) with
           | Some e => match length s - length (rgt e) with
                       | O => re_split_go r 0 (c :: l) (c :: acc) s'
                       | S n => rev acc :: re_split_go r n (c :: l) [] s'
                       end
           | None => re_split_go r 0 (c :: l) (c :: acc) s'
           end
    end
  end.
Definition re_split (r : regex) (s : jsstr) : list jsstr := re_split_go r 0 [] [] s.

Definition parse_condition (cp : jsstr) : option jval :=
  match re_match re_condition_parts (trim cp) with
  | Some cm => Some (JObj [(js "var", JStr (default [] (cm 1))); (js "op", JStr (default [] (cm 2)));
                           (js "value", JNum (Number_of_string (default [] (cm 3))))])
  | None => None
  end.
Definition parse_conditions (condStr : jsstr) : list jval :=
  if is_empty condStr then [] else omap parse_condition (re_split re_and condStr).

(** The object of a tier from the captures of its text; the price groups start
    at number [n]. *)
Definition parsed_tier (cm : nat → option jsstr) (conditions : list jval) (label n : nat) : jval :=
  let base := [(js "conditions", JArr conditions);
               (js "input_unit_cost", JNum (Number_of_string (default [] (cm n))));
               (js "output_unit_cost", JNum (Number_of_string (default [] (cm (n + 1)))));
               (js "label", JStr (default [] (cm label)))] in
  JObj (fold_left (λ tier e, match cm (n + 2 + e.1) with
                             | Some val => obj_set tier e.2 (JNum (Number_of_string val))
                             | None => tier
                             end) (imap (λ i cv, (i, snd cv)) CACHE_VAR_MAP) base).

Definition captures (e : pos * pos) (n : nat) : option jsstr := cap_get n (caps e.2).

Definition strip_ws (s : jsstr) : jsstr := re_replace_all (RPlus (RSet is_ws)) [] s.

Definition strip_version (exprStr : jsstr) : jsstr :=
  match re_match re_version exprStr with Some cm => default [] (cm 1) | None => exprStr end.

Definition found_tiers (exprStr : jsstr) : list jval :=
  map (λ e, normalizeVisualTier (parsed_tier (captures e) (parse_conditions (default [] (captures e 1))) 2 3)) (re_all tierRe exprStr).

Definition tryParseVisualConfig (exprStr0 : jsstr) : option jval :=
  if is_empty exprStr0 then None
  else
    let exprStr := strip_version exprStr0 in
    match re_match singleRe exprStr with
    | Some simple =>
      Some (normalizeVisualConfig (JObj [(js "tiers", JArr [normalizeVisualTier (parsed_tier simple [] 1 2)])]))
    | None =>
      match found_tiers exprStr with
      | [] => None
      | tiers =>
        let cfg := normalizeVisualConfig (JObj [(js "tiers", JArr tiers)]) in
        if negb (streq (strip_ws (generateExprFromVisualConfig cfg)) (strip_ws exprStr)) then None else Some cfg
      end
    end.

Definition sample_text : jsstr :=
  jsq "p < 128000 && len >= 5 ? tier('base', p * 2.5 + c * 8 + cc1h * 0.1) : tier('long', p * 3 + c * 1e+21)".
Example tiered_ex1 : (generateExprFromVisualConfig <$> tryParseVisualConfig (js "v1:" ++ sample_text)) = Some sample_text.
Proof. vm_compute. reflexivity. Qed.
