(* ===== verification/TieredPricingTheorems.v ===== *)
(** * Tiered billing expressions: what is written is read back

    The round trip between tiers and text: the expression written from a list
    of tiers is recognised by the regular expressions of the reader, taken
    apart into the same tiers, and accepted by the reader's own check. *)

From S2P Require Import Prelude JsString JsRegex JsNumber Json JsObject TieredPricing.

(** ** Success of a match, quantifier by quantifier

    Greedy quantifiers are tried longest first, so a match succeeds as soon as
    what follows the longest run does. *)

Definition hits (o : option pos) (Q : pos → Prop) : Prop := ∃ e, o = Some e ∧ Q e.

Section Hits.
Context (Q : pos → Prop).
Implicit Types k : pos → option pos.

Lemma hits_some e : Q e → hits (Some e) Q.
Proof. by exists e. Qed.

Lemma hits_lit s k l rest cs : hits (k (Pos (rev s ++ l) rest cs)) Q → hits (m (RLit s) k (Pos l (s ++ rest) cs)) Q.
Proof. by rewrite m_lit_app. Qed.

Lemma hits_star p k l a b cs : forallb p a = true → head_not p b →
  hits (k (Pos (rev a ++ l) b cs)) Q → hits (m (RStar true (RSet p)) k (Pos l (a ++ b) cs)) Q.
Proof. intros Ha Hb (e & He & HQ). exists e. split; [|done]. rewrite m_star_set. by apply star_set_run. Qed.

Lemma hits_plus p k l a b cs : a ≠ [] → forallb p a = true → head_not p b →
  hits (k (Pos (rev a ++ l) b cs)) Q → hits (m (RPlus (RSet p)) k (Pos l (a ++ b) cs)) Q.
Proof.
  destruct a as [|c a]; [done|]. intros _ Ha Hb Hk. cbn [forallb] in Ha. apply andb_true_iff in Ha as [Hc Ha].
  unfold RPlus. rewrite m_seq. change (m (RSet p) ?k0 (Pos l ((c :: a) ++ b) cs)) with (if p c then k0 (Pos (c :: l) (a ++ b) cs) else None).
  rewrite Hc. apply hits_star; [done|done|]. cbn [rev] in Hk. by rewrite <- app_assoc in Hk.
Qed.

Lemma hits_group n r k st :
  hits (m r (λ st', k (cap_set n (Some (between st st')) st')) st) Q → hits (m (RGroup n r) k st) Q.
Proof. done. Qed.

Lemma hits_group_plus n p k l a b cs : a ≠ [] → forallb p a = true → head_not p b →
  hits (k (Pos (rev a ++ l) b ((n, Some a) :: cs))) Q → hits (m (RGroup n (RPlus (RSet p))) k (Pos l (a ++ b) cs)) Q.
Proof. intros Hne Ha Hb Hk. apply hits_group, hits_plus; [done..|]. by rewrite between_app. Qed.

Lemma hits_group_star n p k l a b cs : forallb p a = true → head_not p b →
  hits (k (Pos (rev a ++ l) b ((n, Some a) :: cs))) Q → hits (m (RGroup n (RStar true (RSet p))) k (Pos l (a ++ b) cs)) Q.
Proof. intros Ha Hb Hk. apply hits_group, hits_star; [done..|]. by rewrite between_app. Qed.

Lemma hits_alt_l a b k st : hits (m a k st) Q → hits (m (a <|> b) k st) Q.
Proof. intros (e & He & HQ). exists e. by rewrite m_alt, He. Qed.

Lemma hits_alt_r a b k st : m a k st = None → hits (m b k st) Q → hits (m (a <|> b) k st) Q.
Proof. intros Ha. by rewrite m_alt, Ha. Qed.

Lemma hits_opt_some a k st :
  hits (m a (λ st', if length (rgt st') <? length (rgt st) then k st' else None) (reset a st)) Q → hits (m (ROpt a) k st) Q.
Proof. intros (e & He & HQ). exists e. split; [|done]. cbn [m]. by rewrite He. Qed.

Lemma opt_fails a k st : (∀ k', m a k' (reset a st) = None) → m (ROpt a) k st = k st.
Proof. intros Ha. cbn [m]. by rewrite Ha. Qed.

Lemma hits_opt_none a k st :
  (∀ k', m a k' (reset a st) = None) → hits (k st) Q → hits (m (ROpt a) k st) Q.
Proof. intros Ha Hk. by rewrite opt_fails. Qed.

Lemma hits_shorter o (a b t : jsstr) : t = a ++ b → a ≠ [] → hits o Q → hits (if length b <? length t then o else None) Q.
Proof.
  intros -> Ha Hk. rewrite length_app. destruct a; [done|].
  by destruct (Nat.ltb_spec (length b) (length (n :: a) + length b)); [|cbn in *; lia].
Qed.

(** Blanks before something that does not start with one: the run is never
    given back. *)
Lemma ws_run k l a b cs : blocks is_ws k → forallb is_ws a = true → head_not is_ws b →
  m ws_star k (Pos l (a ++ b) cs) = k (Pos (rev a ++ l) b cs).
Proof. intros Hk Ha Hb. unfold ws_star. rewrite m_star_set. by apply star_set_det. Qed.

Lemma blocks_lit_then p d s r k : p d = false → blocks p (m (RLit (d :: s) +> r) k).
Proof. exact (blocks_lit p d s (m r k)). Qed.
End Hits.

(** ** Numbers and products *)

(** A number whose text consists of the characters the reader accepts and
    reads back as the number. *)
Definition readable (p : N → bool) (x : num) : Prop :=
  String_of_num x ≠ [] ∧ forallb p (String_of_num x) = true ∧ Number_of_string (String_of_num x) = x ∧ isNaN x = false.

Lemma blank_star : js " * " = [32%N] ++ js "*" ++ [32%N].
Proof. reflexivity. Qed.
Lemma blank_plus : js " + " = [32%N] ++ js "+" ++ [32%N].
Proof. reflexivity. Qed.

Lemma num_not_ws x c t : readable num_char x → String_of_num x = c :: t → is_ws c = false.
Proof.
  intros (_ & Hc & _) E. rewrite E in Hc. cbn [forallb] in Hc. apply andb_true_iff in Hc as [Hc _].
  destruct (is_ws c) eqn:Ew; [|done]. exfalso. unfold num_char, is_digit, is_ws in *.
  rewrite ?orb_true_iff, ?andb_true_iff, ?N.leb_le, ?N.eqb_eq in *. lia.
Qed.

Definition product_text (v : jsstr) (x : num) : jsstr := v ++ js " * " ++ String_of_num x.

Lemma hits_product Q v n x k l rest cs : readable num_char x → head_not num_char rest →
  (∀ l', hits (k (Pos l' rest ((n, Some (String_of_num x)) :: cs))) Q) →
  hits (m (re_product v n) k (Pos l (product_text v x ++ rest) cs)) Q.
Proof.
  intros Hx Hr Hk. unfold re_product, product_text. rewrite blank_star, <- !app_assoc. rewrite !m_seq. apply hits_lit.
  apply (hits_star Q is_ws _ _ [32%N]); [done|done|]. apply hits_lit.
  apply (hits_star Q is_ws _ _ [32%N]); [done| |].
  - destruct (String_of_num x) eqn:E; [by destruct Hx|]. by eapply num_not_ws.
  - destruct Hx as (Hne & Hc & _). by apply hits_group_plus.
Qed.

(** ** Optional products *)

(** The literal [v] followed by blanks and a star does not start [w], followed
    by a blank. *)
Fixpoint clash (v w : jsstr) : bool :=
  match v, w with
  | a :: v', b :: w' => if (a =? b)%N then clash v' w' else true
  | [], b :: _ => negb (is_ws b) && negb (b =? 42)%N
  | a :: _, [] => negb (a =? 32)%N
  | [], [] => false
  end.

Lemma clash_strip v w t : clash v w = true →
  strip_prefix v (w ++ 32%N :: t) = None ∨
  ∃ b u, strip_prefix v (w ++ 32%N :: t) = Some (b :: u) ∧ is_ws b = false ∧ b ≠ 42%N.
Proof.
  revert w. induction v as [|a v IH]; intros [|b w]; cbn [clash strip_prefix app]; try done.
  - rewrite andb_true_iff, !negb_true_iff, N.eqb_neq. intros []. right. eauto.
  - intros H%negb_true_iff. left. by rewrite H.
  - destruct (a =? b)%N; [apply IH|by left].
Qed.

Definition word (v : jsstr) : bool := match v with [] => false | d :: _ => negb (is_ws d) end.

Lemma lit_star_none v r k l t cs :
  strip_prefix v t = None ∨ (∃ b u, strip_prefix v t = Some (b :: u) ∧ is_ws b = false ∧ b ≠ 42%N) →
  m (RLit v +> ws_star +> RLit (js "*") +> r) k (Pos l t cs) = None (A:=pos).
Proof.
  rewrite m_seq. intros [H|(b & u & H & Hw & Hb)].
  - apply m_lit_None. unfold starts_with. by rewrite H.
  - rewrite (m_lit_Some _ _ _ _ _ _ H), m_seq. change (js "*") with [42%N].
    rewrite (ws_run _ _ [] (b :: u)); [|by apply blocks_lit_then|done|done]. rewrite m_seq. by apply m_lit_None_cons.
Qed.

Lemma optional_none_key v w n (k : pos → option pos) l t cs : word v = true → word w = true → clash v w = true →
  m (ws_star +> RLit (js "+") +> ws_star +> re_product v n) k (Pos l (js " + " ++ w ++ 32%N :: t) cs) = None.
Proof.
  intros Hv Hw Hc. rewrite blank_plus, <- !app_assoc, m_seq. change (js "+") with [43%N].
  rewrite (ws_run _ _ [32%N]); [|by apply blocks_lit_then|done|done]. rewrite m_seq, (m_lit_app [43%N]), m_seq.
  destruct v as [|d v]; [done|]. apply negb_true_iff in Hv.
  rewrite (ws_run _ _ [32%N]); [|by apply blocks_lit_then|done|by destruct w; [|apply negb_true_iff in Hw]].
  by apply lit_star_none, clash_strip.
Qed.

Lemma optional_none_end v n (k : pos → option pos) l t cs :
  m (ws_star +> RLit (js "+") +> ws_star +> re_product v n) k (Pos l (41%N :: t) cs) = None.
Proof.
  rewrite m_seq. change (js "+") with [43%N]. rewrite (ws_run _ _ [] (41%N :: t)); [|by apply blocks_lit_then|done|done].
  rewrite m_seq. by apply m_lit_None_cons.
Qed.

(** The prices beyond the two every tier has, those that are not zero. *)
Fixpoint extras_text (vs : list jsstr) (xs : list num) : jsstr :=
  match vs, xs with
  | v :: vs', x :: xs' => (if num_truthy x then js " + " ++ product_text v x else []) ++ extras_text vs' xs'
  | _, _ => []
  end.
Fixpoint extras_caps (n : nat) (xs : list num) (cs : list (nat * option jsstr)) : list (nat * option jsstr) :=
  match xs with
  | [] => cs
  | x :: xs' => extras_caps (S n) xs' (if num_truthy x then (n, Some (String_of_num x)) :: (n, None) :: cs else cs)
  end.

Definition keys_ok (vs : list jsstr) : Prop := Forall (λ v, word v = true) vs ∧ ForallOrdPairs (λ v w, clash v w = true) vs.

(** What follows starts with the blank of a later product or with the bracket. *)
Lemma extras_text_head vs xs rest : length vs = length xs → Forall (λ v, word v = true) vs →
  extras_text vs xs = [] ∨
  ∃ w x t, w ∈ vs ∧ num_truthy x = true ∧ extras_text vs xs ++ rest = js " + " ++ w ++ 32%N :: t.
Proof.
  intros Hl Hw. revert xs Hl. induction Hw as [|v vs Hv _ IH]; intros [|x xs] Hl; try done; [by left|].
  cbn [extras_text]. destruct (num_truthy x) eqn:Ex.
  - right. exists v, x, ((js "* ") ++ String_of_num x ++ extras_text vs xs ++ rest). split; [by left|]. split; [done|].
    unfold product_text. by rewrite blank_star, <- !app_assoc.
  - destruct (IH xs) as [->|(w & y & t & Hin & Hy & Ht)]; [by injection Hl|by left|].
    right. exists w, y, t. split; [by right|done].
Qed.

Lemma extras_head_not vs xs rest : length vs = length xs → Forall (λ v, word v = true) vs →
  head_not num_char (extras_text vs xs ++ 41%N :: rest).
Proof.
  intros Hl Hw. destruct (extras_text_head vs xs (41%N :: rest) Hl Hw) as [->|(w & x & t & _ & _ & ->)]; done.
Qed.

Lemma hits_extras Q vs : ∀ xs n r k l rest cs, keys_ok vs → length vs = length xs → Forall (readable num_char) xs →
  (∀ l', hits (m r k (Pos l' (41%N :: rest) (extras_caps n xs cs))) Q) →
  hits (m (re_extras vs n r) k (Pos l (extras_text vs xs ++ 41%N :: rest) cs)) Q.
Proof.
  induction vs as [|v vs IH]; intros [|x xs] n r k l rest cs [Hw Hc] Hl Hx Hk; try done.
  inversion Hw as [|? ? Hv Hw']. inversion Hc as [|? ? Hcv Hc']. inversion Hx as [|? ? Hx1 Hx']. subst.
  injection Hl as Hl. cbn [re_extras extras_text extras_caps] in *. rewrite m_seq. unfold re_optional.
  destruct (num_truthy x) eqn:Ex.
  - rewrite <- !app_assoc. apply hits_opt_some. cbn [reset groups app map re_product ws_star RPlus lft rgt caps].
    rewrite blank_plus, <- !app_assoc, m_seq. apply (hits_star Q is_ws _ _ [32%N]); [done|done|].
    rewrite m_seq. apply hits_lit. rewrite m_seq. apply (hits_star Q is_ws _ _ [32%N]); [done| |].
    { unfold product_text. destruct v; [done|]. by apply negb_true_iff in Hv. }
    apply hits_product; [done|by apply extras_head_not|]. intros l'.
    cbn [rgt]. apply (hits_shorter Q _ (js " + " ++ product_text v x)); [by rewrite blank_plus, <- !app_assoc|done|].
    apply IH; done.
  - cbn [app]. apply hits_opt_none; [|apply IH; done]. intros k'.
    cbn [reset groups app map re_product ws_star RPlus lft rgt caps].
    destruct (extras_text_head vs xs (41%N :: rest) Hl Hw') as [->|(w & y & t & Hin & _ & ->)];
      [apply optional_none_end|apply optional_none_key; [done|by rewrite Forall_forall in Hw'; apply Hw'|by rewrite Forall_forall in Hcv; apply Hcv]].
Qed.

(** ** Tiers *)

Record vcond := VCond { cvar : jsstr; cop : jsstr; cvalue : num }.
(** [vextra] holds the prices of the seven further variables, zero if unset. *)
Record vtier := VTier { vconds : list vcond; vin : num; vout : num; vlabel : jsstr; vextra : list num }.

Definition extra_keys : list jsstr := map fst CACHE_VAR_MAP.
Definition extra_fields : list jsstr := map snd CACHE_VAR_MAP.

Definition cond_ok (c : vcond) : Prop :=
  cvar c ∈ [js "p"; js "c"; js "len"] ∧ cop c ∈ [js "<"; js "<="; js ">"; js ">="] ∧ readable cond_char (cvalue c).
Record tier_ok (v : vtier) : Prop := {
  ok_conds : Forall cond_ok (vconds v);
  ok_in : readable num_char (vin v);
  ok_out : readable num_char (vout v);
  ok_extra : Forall (readable num_char) (vextra v);
  ok_seven : length (vextra v) = 7;
  ok_label : vlabel v ≠ [] ∧ forallb not_quote (vlabel v) = true }.

(** A tier of the form: its label may be empty. *)
Definition draft_ok (v : vtier) : Prop :=
  Forall cond_ok (vconds v) ∧ readable num_char (vin v) ∧ readable num_char (vout v) ∧
  Forall (readable num_char) (vextra v) ∧ length (vextra v) = 7 ∧ forallb not_quote (vlabel v) = true.
Lemma draft_of v : tier_ok v → draft_ok v.
Proof. by intros [? ? ? ? ? [_ ?]]. Qed.

(** The objects and the texts of the source. *)
Definition cond_obj (c : vcond) : jval :=
  JObj [(js "var", JStr (cvar c)); (js "op", JStr (cop c)); (js "value", JNum (cvalue c))].
Fixpoint present (fs : list jsstr) (xs : list num) : list (jsstr * jval) :=
  match fs, xs with
  | f :: fs', x :: xs' => (if num_truthy x then [(f, JNum x)] else []) ++ present fs' xs'
  | _, _ => []
  end.
Definition mode_of (v : vtier) : jsstr := if nlt nzero (default nan (vextra v !! 2)) then CACHE_MODE_TIMED else CACHE_MODE_GENERIC.
Definition base_obj (v : vtier) : list (jsstr * jval) :=
  [(js "conditions", JArr (map cond_obj (vconds v))); (js "input_unit_cost", JNum (vin v));
   (js "output_unit_cost", JNum (vout v)); (js "label", JStr (vlabel v))].
Definition tier_obj (v : vtier) : jval :=
  JObj (base_obj v ++ present extra_fields (vextra v) ++ [(js "cache_mode", JStr (mode_of v))]).
Definition config_obj (vs : list vtier) : jval := JObj [(js "tiers", JArr (map tier_obj vs))].

Definition body_text (v : vtier) : jsstr :=
  product_text (js "p") (vin v) ++ js " + " ++ product_text (js "c") (vout v) ++ extras_text extra_keys (vextra v).
Definition call_text (v : vtier) : jsstr := jsq "tier('" ++ vlabel v ++ jsq "', " ++ body_text v ++ js ")".
Definition cond_text (c : vcond) : jsstr := cvar c ++ js " " ++ cop c ++ js " " ++ String_of_num (cvalue c).
Definition conds_text (cs : list vcond) : jsstr := join (js " && ") (map cond_text cs).

Lemma extra_keys_ok : keys_ok extra_keys.
Proof. split; repeat constructor. Qed.

Definition call_caps (n : nat) (v : vtier) (cs : list (nat * option jsstr)) : list (nat * option jsstr) :=
  extras_caps (n + 3) (vextra v)
    ((n + 2, Some (String_of_num (vout v))) :: (n + 1, Some (String_of_num (vin v))) :: (n, Some (vlabel v)) :: cs).

Lemma hits_call Q n r v k l rest cs : tier_ok v →
  (∀ l', hits (m r k (Pos l' (41%N :: rest) (call_caps n v cs))) Q) →
  hits (m (re_call n +> re_body (n + 1) r) k (Pos l (call_text v ++ rest) cs)) Q.
Proof.
  intros [_ Hin Hout Hex H7 [_ Hlab]] Hk. unfold call_text, re_call. rewrite <- !app_assoc, !m_seq.
  apply hits_lit. rewrite m_seq. change (jsq "', ") with (jsq "'," ++ [32%N]). rewrite <- !app_assoc.
  apply hits_group_star; [done|done|]. rewrite m_seq. apply hits_lit.
  apply (hits_star Q is_ws _ _ [32%N]); [done|done|]. unfold body_text, re_body. rewrite <- !app_assoc, m_seq.
  apply hits_product; [done|done|]. intros l1. rewrite m_seq, blank_plus, <- !app_assoc.
  apply (hits_star Q is_ws _ _ [32%N]); [done|done|]. rewrite m_seq. apply hits_lit. rewrite m_seq.
  apply (hits_star Q is_ws _ _ [32%N]); [done|done|]. rewrite m_seq.
  apply hits_product; [done|apply extras_head_not; [by rewrite H7|apply extra_keys_ok]|]. intros l2.
  change (js ")" ++ rest) with (41%N :: rest). apply hits_extras; [apply extra_keys_ok|by rewrite H7|done|].
  intros l3. replace (n + 1 + 2) with (n + 3) by lia. replace (n + 1 + 1) with (n + 2) by lia. apply Hk.
Qed.

(** ** From captures to the object *)

Lemma cap_get_cons n j v cs : cap_get j ((n, v) :: cs) = if decide (n = j) then v else cap_get j cs.
Proof. unfold cap_get. cbn [List.find fst]. by case_bool_decide; case_decide. Qed.

Lemma extras_caps_below xs : ∀ n cs j, j < n → cap_get j (extras_caps n xs cs) = cap_get j cs.
Proof.
  induction xs as [|x xs IH]; intros n cs j Hj; cbn [extras_caps]; [done|]. rewrite IH by lia.
  destruct (num_truthy x); [|done]. by rewrite !cap_get_cons, !decide_False by lia.
Qed.

Lemma extras_caps_get xs : ∀ n cs i x, xs !! i = Some x → (∀ j, n ≤ j → cap_get j cs = None) →
  cap_get (n + i) (extras_caps n xs cs) = if num_truthy x then Some (String_of_num x) else None.
Proof.
  induction xs as [|y xs IH]; intros n cs i x Hi Hn; [done|]. destruct i as [|i]; cbn [lookup list_lookup] in Hi; cbn [extras_caps].
  - injection Hi as ->. rewrite Nat.add_0_r, extras_caps_below by lia.
    destruct (num_truthy x); [by rewrite cap_get_cons, decide_True|by apply Hn].
  - replace (n + S i) with (S n + i) by lia. apply IH; [done|]. intros j Hj.
    destruct (num_truthy y); [|apply Hn; lia]. rewrite !cap_get_cons, !decide_False by lia. apply Hn. lia.
Qed.

Lemma present_keys fs : ∀ xs f, f ∈ map fst (present fs xs) → f ∈ fs.
Proof.
  induction fs as [|g fs IH]; intros [|x xs] f; cbn [present]; try (by intros ?%elem_of_nil).
  rewrite map_app, elem_of_app. intros [H|H]; [|right; by eapply IH].
  destruct (num_truthy x); [|by apply elem_of_nil in H]. apply list_elem_of_singleton in H as ->. by left.
Qed.

Definition add_field (cm : nat → option jsstr) (N : nat) (tier : list (jsstr * jval)) (e : nat * jsstr) : list (jsstr * jval) :=
  match cm (N + e.1) with Some val => obj_set tier e.2 (JNum (Number_of_string val)) | None => tier end.

Lemma add_fields cm N fs : ∀ xs d base, length fs = length xs → Forall (readable num_char) xs →
  (∀ i x, xs !! i = Some x → cm (N + (d + i)) = if num_truthy x then Some (String_of_num x) else None) →
  NoDup (map fst base ++ fs) →
  fold_left (add_field cm N) (imap (λ i f, (d + i, f)) fs) base = base ++ present fs xs.
Proof.
  induction fs as [|f fs IH]; intros [|x xs] d base Hl Hx Hcm Hnd; try done; [by rewrite app_nil_r|].
  injection Hl as Hl. inversion Hx as [|? ? Hx1 Hx']. subst. cbn [imap fold_left present].
  pose proof (Hcm 0 x eq_refl) as H0. 
  assert (Hf : f ∉ map fst base).
  { intros Hin. apply NoDup_app in Hnd as (_ & Hd & _). apply (Hd f Hin). by left. }
  assert (Hrest : ∀ b, NoDup (map fst b ++ fs) → fold_left (add_field cm N) (imap ((λ i f, (d + i, f)) ∘ S) fs) b = b ++ present fs xs).
  { intros b Hb. rewrite <- (IH xs (S d) b Hl Hx'); [|intros i y Hy; rewrite <- (Hcm (S i) y Hy); f_equal; lia|done].
    f_equal. apply imap_ext. intros i g _. cbn. f_equal. lia. }
  unfold add_field at 2. cbn [fst snd]. rewrite H0. destruct (num_truthy x).
  - destruct Hx1 as (_ & _ & -> & _). rewrite obj_set_fresh by done. rewrite Hrest.
    + by rewrite <- app_assoc.
    + rewrite map_app. cbn [map fst]. by rewrite <- app_assoc.
  - rewrite Hrest; [done|]. rewrite <- Permutation_middle in Hnd. by apply NoDup_cons in Hnd as [_ ?].
Qed.

Definition plain_keys (o : list (jsstr * jval)) : Prop := NoDup (map fst o) ∧ Forall (λ e, array_index e.1 = None) o.

Lemma spread_id o : plain_keys o → spread [] (JObj o) = o.
Proof.
  intros [Hnd Hp]. unfold spread. cbn [entries].
  assert (own_entries o = o) as ->.
  { unfold own_entries. assert (H : index_entries o = []).
    { clear Hnd. induction Hp as [|e o He _ IH]; [done|]. cbn [index_entries]. by rewrite He. }
    rewrite H. cbn [map app]. apply filter_all, forallb_Forall. eapply Forall_impl; [exact Hp|]. intros e He. by rewrite He. }
  assert (H : ∀ acc, NoDup (map fst acc ++ map fst o) → fold_left (λ acc e, obj_set acc e.1 e.2) o acc = acc ++ o).
  { clear. induction o as [|[k v] o IH]; intros acc Hnd; cbn [fold_left fst snd]; [by rewrite app_nil_r|].
    cbn [map fst] in Hnd. rewrite obj_set_fresh.
    - rewrite IH; [by rewrite <- app_assoc|]. rewrite map_app. cbn [map fst]. by rewrite <- app_assoc.
    - intros Hin. apply NoDup_app in Hnd as (_ & Hd & _). apply (Hd k Hin). by left. }
  by apply (H []).
Qed.

Lemma obj_set_same o k v : obj_has o k = true → obj_get o k = v → obj_set o k v = o.
Proof.
  induction o as [|[k' v'] o IH]; cbn [obj_has obj_get obj_set]; [done|]. destruct (streq k' k) eqn:E; cbn [orb].
  - apply streq_true in E as ->. by intros _ ->.
  - intros Hh Hg. by rewrite IH.
Qed.

Lemma present_sublist fs : ∀ xs, map fst (present fs xs) `sublist_of` fs.
Proof.
  induction fs as [|f fs IH]; intros [|x xs]; cbn [present]; try apply sublist_nil_l.
  rewrite map_app. destruct (num_truthy x); cbn [map fst app]; [by apply sublist_skip|by apply sublist_cons].
Qed.

Definition base_keys : list jsstr := [js "conditions"; js "input_unit_cost"; js "output_unit_cost"; js "label"].
Lemma field_names_NoDup : NoDup (base_keys ++ extra_fields ++ [js "cache_mode"]).
Proof. apply (bool_decide_unpack _). vm_compute. exact I. Qed.
Lemma field_names_plain : Forall (λ k, array_index k = None) (base_keys ++ extra_fields ++ [js "cache_mode"]).
Proof. repeat constructor. Qed.

(** The object with or without its last property. *)
Lemma tier_plain v tl : tl `sublist_of` [js "cache_mode"] → ∀ last, map fst last = tl →
  plain_keys (base_obj v ++ present extra_fields (vextra v) ++ last).
Proof.
  intros Htl last Hl. assert (Hs : map fst (base_obj v ++ present extra_fields (vextra v) ++ last) `sublist_of`
                           base_keys ++ extra_fields ++ [js "cache_mode"]).
  { rewrite !map_app, Hl. apply sublist_app; [done|]. apply sublist_app; [apply present_sublist|done]. }
  split; [eapply sublist_NoDup; [exact field_names_NoDup|exact Hs]|].
  apply Forall_forall. intros [k x] Hin. cbn [fst]. apply (proj1 (Forall_forall _ _) field_names_plain k).
  eapply elem_of_submseteq; [|by apply sublist_submseteq, Hs]. apply list_elem_of_fmap. by exists (k, x).
Qed.

Lemma obj_get_app o1 o2 k : obj_get (o1 ++ o2) k = if obj_has o1 k then obj_get o1 k else obj_get o2 k.
Proof. induction o1 as [|[k' v] o1 IH]; cbn [app obj_get obj_has]; [done|]. by destruct (streq k' k). Qed.

Lemma present_get fs : ∀ xs i f x, NoDup fs → fs !! i = Some f → xs !! i = Some x →
  obj_get (present fs xs) f = if num_truthy x then JNum x else JUndef.
Proof.
  induction fs as [|g fs IH]; intros [|y xs] i f x Hnd Hf Hx; try done. apply NoDup_cons in Hnd as [Hg Hnd].
  cbn [present]. rewrite obj_get_app. destruct i as [|i]; cbn [lookup list_lookup] in *.
  - injection Hf as ->. injection Hx as ->. destruct (num_truthy x); cbn [obj_has obj_get]; [by rewrite streq_refl|].
    apply obj_get_absent. intros Hin. by apply Hg, (present_keys fs xs).
  - assert (Hne : streq g f = false).
    { apply streq_false. intros ->. apply Hg. by eapply list_elem_of_lookup_2. }
    destruct (num_truthy y); cbn [obj_has obj_get]; rewrite ?Hne; by eapply IH.
Qed.

(** Reading a price of the object. *)
Lemma tier_price v last i f x : extra_fields !! i = Some f → vextra v !! i = Some x →
  f ∉ map fst last →
  obj_get (base_obj v ++ present extra_fields (vextra v) ++ last) f = if num_truthy x then JNum x else JUndef.
Proof.
  intros Hf Hx Hl. pose proof field_names_NoDup as Hnd. apply NoDup_app in Hnd as (_ & Hb & Hnd).
  apply NoDup_app in Hnd as (Hnd & _ & _). apply list_elem_of_lookup_2 in Hf as Hin.
  rewrite obj_get_app. assert (Hno : obj_has (base_obj v) f = false).
  { apply not_true_is_false. rewrite obj_has_In. intros Hin'. apply (Hb f Hin'). apply elem_of_app. by left. }
  rewrite Hno, obj_get_app. pose proof (present_get _ _ _ _ _ Hnd Hf Hx) as Hp.
  destruct (obj_has (present extra_fields (vextra v)) f) eqn:E; [done|]. rewrite (obj_get_absent last) by done.
  rewrite <- Hp. symmetry. apply obj_get_absent. rewrite <- obj_has_In. congruence.
Qed.

Lemma seventh v : tier_ok v → ∃ x, vextra v !! 2 = Some x.
Proof. intros H. apply lookup_lt_is_Some. rewrite (ok_seven v H). lia. Qed.

Lemma field_1h : extra_fields !! 2 = Some (js "cache_create_1h_unit_cost").
Proof. vm_compute. reflexivity. Qed.

Lemma zero_not_positive x : num_truthy x = false → nlt nzero x = false.
Proof. by destruct x as [[]|[]| |]. Qed.

(** The cache mode of a parsed tier, and of a tier that has its mode. *)
Lemma mode_parsed v : tier_ok v → getTierCacheMode (JObj (base_obj v ++ present extra_fields (vextra v) ++ [])) = mode_of v.
Proof.
  intros Hv. destruct (seventh v Hv) as [x Hx]. unfold getTierCacheMode, mode_of. cbn [prop].
  assert (Hm : obj_get (base_obj v ++ present extra_fields (vextra v) ++ []) (js "cache_mode") = JUndef).
  { apply obj_get_absent. pose proof field_names_NoDup as Hnd. rewrite app_assoc in Hnd. apply NoDup_app in Hnd as (_ & Hd & _).
    intros Hin. apply (Hd (js "cache_mode")); [|by left]. rewrite app_nil_r, map_app in Hin.
    apply elem_of_app in Hin as [Hin|Hin%present_keys]; apply elem_of_app; [by left|by right]. }
  rewrite Hm. cbn [is_text]. rewrite (tier_price v [] 2 _ x field_1h Hx) by apply not_elem_of_nil. rewrite Hx. change (default nan (Some x)) with x.
  destruct (num_truthy x) eqn:Ex; [done|]. cbn [Number_of]. by rewrite (zero_not_positive x Ex).
Qed.

Lemma mode_kept v : getTierCacheMode (tier_obj v) = mode_of v.
Proof.
  unfold getTierCacheMode, tier_obj. cbn [prop].
  assert (Hm : obj_get (base_obj v ++ present extra_fields (vextra v) ++ [(js "cache_mode", JStr (mode_of v))]) (js "cache_mode") = JStr (mode_of v)).
  { apply obj_get_In; [eapply (tier_plain v [js "cache_mode"]); done|]. rewrite !elem_of_app. right. right. by left. }
  rewrite Hm. cbn [is_text]. unfold mode_of. by destruct (nlt nzero _).
Qed.

Lemma prop_conditions v tl : prop (JObj (base_obj v ++ tl)) (js "conditions") = JArr (map cond_obj (vconds v)).
Proof. reflexivity. Qed.

Lemma conditions_kept v tl :
  obj_set (base_obj v ++ tl) (js "conditions") (JArr (map cond_obj (vconds v))) = base_obj v ++ tl.
Proof. by apply obj_set_same. Qed.

Lemma normalize_parsed v : tier_ok v → normalizeVisualTier (JObj (base_obj v ++ present extra_fields (vextra v))) = tier_obj v.
Proof.
  intros Hv. rewrite <- (app_nil_r (present _ _)). unfold normalizeVisualTier.
  rewrite spread_id by by apply (tier_plain v []); [apply sublist_nil_l|]. rewrite mode_parsed by done.
  rewrite !prop_conditions. cbn [is_array].
  rewrite conditions_kept. rewrite obj_set_fresh; [by rewrite !app_nil_r, <- app_assoc|].
  destruct (tier_plain v [js "cache_mode"] ltac:(done) [(js "cache_mode", JNull)] eq_refl) as [Hnd _].
  rewrite app_nil_r. rewrite app_assoc, map_app in Hnd. apply NoDup_app in Hnd as (_ & Hd & _). intros Hin. apply (Hd _ Hin). by left.
Qed.

Lemma normalize_tier_obj v : normalizeVisualTier (tier_obj v) = tier_obj v.
Proof.
  unfold normalizeVisualTier. rewrite mode_kept. unfold tier_obj. rewrite spread_id by by eapply (tier_plain v [js "cache_mode"]).
  rewrite !prop_conditions. cbn [is_array].
  rewrite conditions_kept. f_equal. apply obj_set_same.
  - apply obj_has_In. rewrite !map_app, !elem_of_app. right. right. by left.
  - apply obj_get_In; [eapply (tier_plain v [js "cache_mode"]); done|]. rewrite !elem_of_app. right. right. by left.
Qed.

Lemma normalize_config vs : vs ≠ [] → normalizeVisualConfig (JObj [(js "tiers", JArr (map tier_obj vs))]) = config_obj vs.
Proof.
  destruct vs as [|v vs]; [done|]. intros _. unfold config_obj, normalizeVisualConfig. cbn [prop obj_get]. rewrite streq_refl.
  cbn [map]. rewrite spread_id by by split; [apply (bool_decide_unpack _); vm_compute|repeat constructor]. cbn [obj_set].
  rewrite streq_refl. repeat f_equal; [apply normalize_tier_obj|]. rewrite map_map. apply map_ext, normalize_tier_obj.
Qed.

Lemma fields_indexed : imap (λ i cv, (i, snd cv)) CACHE_VAR_MAP = imap (λ i f, (0 + i, f)) extra_fields.
Proof. vm_compute. reflexivity. Qed.

Lemma parsed_call cm v label n : tier_ok v →
  cm label = Some (vlabel v) → cm n = Some (String_of_num (vin v)) → cm (n + 1) = Some (String_of_num (vout v)) →
  (∀ i x, vextra v !! i = Some x → cm (n + 2 + i) = if num_truthy x then Some (String_of_num x) else None) →
  normalizeVisualTier (parsed_tier cm (map cond_obj (vconds v)) label n) = tier_obj v.
Proof.
  intros Hv Hl Hi Ho He. rewrite <- normalize_parsed by done. f_equal. unfold parsed_tier. rewrite Hl, Hi, Ho. cbn [from_option id].
  destruct (ok_in v Hv) as (_ & _ & -> & _), (ok_out v Hv) as (_ & _ & -> & _). f_equal.
  rewrite fields_indexed.
  apply (add_fields cm (n + 2) extra_fields (vextra v) 0 (base_obj v));
    [by rewrite (ok_seven v Hv)|apply Hv|done|]. pose proof field_names_NoDup as Hnd. rewrite app_assoc in Hnd.
  by apply NoDup_app in Hnd as (? & _ & _).
Qed.

(** ** From the object to the text *)

Lemma num_or_zero_readable p x : readable p x → num_or_zero (JNum x) = x.
Proof.
  intros (_ & _ & Hr & Hn). unfold num_or_zero. cbn [Number_of]. destruct (num_truthy x) eqn:E; [done|].
  destruct x as [[]|[]| |]; try done.
Qed.

Lemma join_concat sep x l : join sep (x :: l) = x ++ concat (map (app sep) l).
Proof.
  revert x. induction l as [|y l IH]; intros x; [by rewrite app_nil_r|]. rewrite join_cons, IH. cbn [map concat]. by rewrite <- app_assoc.
Qed.

Definition extra_text (tier : jval) (cv : jsstr * jsstr) : option jsstr :=
  let v := num_or_zero (prop tier cv.2) in if num_truthy v then Some (cv.1 ++ js " * " ++ String_of_num v) else None.

Lemma extras_omap tier cvs : ∀ xs, length cvs = length xs → Forall (readable num_char) xs →
  (∀ i cv x, cvs !! i = Some cv → xs !! i = Some x → prop tier cv.2 = if num_truthy x then JNum x else JUndef) →
  concat (map (app (js " + ")) (omap (extra_text tier) cvs)) = extras_text (map fst cvs) xs.
Proof.
  induction cvs as [|cv cvs IH]; intros [|x xs] Hl Hx Hp; try done. injection Hl as Hl. inversion Hx as [|? ? Hx1 Hx']. subst.
  cbn [omap list_omap map extras_text]. pose proof (Hp 0 cv x eq_refl eq_refl) as H0.
  assert (He : extra_text tier cv = if num_truthy x then Some (product_text cv.1 x) else None).
  { unfold extra_text. rewrite H0. destruct (num_truthy x) eqn:Ex; [|done].
    by rewrite (num_or_zero_readable num_char x Hx1), Ex. }
  rewrite He. rewrite <- (IH xs Hl Hx') by (intros i; apply (Hp (S i))). by destruct (num_truthy x).
Qed.

Lemma cache_pairs i cv : CACHE_VAR_MAP !! i = Some cv → extra_fields !! i = Some cv.2.
Proof. intros H. unfold extra_fields. change (map snd) with (fmap (M:=list) (@snd jsstr jsstr)). by rewrite list_lookup_fmap, H. Qed.

Lemma cache_mode_not_field f : f ∈ extra_fields → f ∉ [js "cache_mode"].
Proof.
  pose proof field_names_NoDup as Hnd. apply NoDup_app in Hnd as (_ & _ & Hnd). apply NoDup_app in Hnd as (_ & Hd & _).
  intros Hin. by apply Hd.
Qed.

Lemma body_written v : draft_ok v → buildTierBodyExpr (tier_obj v) = body_text v.
Proof.
  intros (_ & Hi & Ho & He & Hl & _). unfold buildTierBodyExpr.
  change (prop (tier_obj v) (js "input_unit_cost")) with (JNum (vin v)).
  change (prop (tier_obj v) (js "output_unit_cost")) with (JNum (vout v)).
  rewrite (num_or_zero_readable num_char _ Hi), (num_or_zero_readable num_char _ Ho).
  rewrite join_cons, join_concat. unfold body_text. do 2 f_equal. f_equal.
  apply (extras_omap (tier_obj v) CACHE_VAR_MAP (vextra v)); [by rewrite Hl|done|].
  intros i cv x Hcv%cache_pairs Hx. apply (tier_price v _ i); [done|done|].
  apply cache_mode_not_field. by eapply list_elem_of_lookup_2.
Qed.

Lemma call_written v fb : tier_ok v → tier_call (label_or fb (tier_obj v)) (tier_obj v) = call_text v.
Proof.
  intros Hv. unfold tier_call, call_text. rewrite body_written by by apply draft_of. do 2 f_equal. unfold label_or.
  change (prop (tier_obj v) (js "label")) with (JStr (vlabel v)). destruct (ok_label v Hv) as [Hne _]. by destruct (vlabel v).
Qed.

Lemma cond_written c : cond_ok c → condition_set (cond_obj c) = true ∧ condition_text (cond_obj c) = cond_text c.
Proof.
  intros (Hv & Ho & _). split; [|done]. unfold condition_set. 
  change (prop (cond_obj c) (js "var")) with (JStr (cvar c)). change (prop (cond_obj c) (js "op")) with (JStr (cop c)).
  change (prop (cond_obj c) (js "value")) with (JNum (cvalue c)). cbn [truthy is_nullish negb andb].
  assert (cvar c ≠ [] ∧ cop c ≠ []) as [H1 H2].
  { split; intros E; [rewrite E in Hv; revert Hv|rewrite E in Ho; revert Ho]; apply (bool_decide_unpack _); vm_compute; exact I. }
  by destruct (cvar c), (cop c).
Qed.

Lemma conds_written v : tier_ok v → buildConditionStr (prop (tier_obj v) (js "conditions")) = conds_text (vconds v).
Proof.
  intros Hv. change (prop (tier_obj v) (js "conditions")) with (JArr (map cond_obj (vconds v))). 
  unfold buildConditionStr, conds_text. cbn [elements]. f_equal. induction (ok_conds v Hv) as [|c l Hc _ IH]; [done|].
  destruct (cond_written c Hc) as [H1 H2]. cbn [map List.filter]. by rewrite H1, <- IH, <- H2.
Qed.

(** ** Conditions *)

Definition var_names : list jsstr := [js "p"; js "c"; js "len"].
Definition op_names : list jsstr := [js "<"; js "<="; js ">"; js ">="].

Lemma hits_var Q v k l rest cs : v ∈ var_names →
  (∀ l', hits (k (Pos l' rest cs)) Q) → hits (m re_var k (Pos l (v ++ rest) cs)) Q.
Proof.
  intros Hv Hk. unfold re_var. repeat (apply elem_of_cons in Hv as [->|Hv]); [..|by apply elem_of_nil in Hv].
  - apply hits_alt_l, hits_lit, Hk.
  - apply hits_alt_r; [by apply m_lit_None|]. apply hits_alt_l, hits_lit, Hk.
  - apply hits_alt_r; [by apply m_lit_None|]. apply hits_alt_r; [by apply m_lit_None|]. apply hits_lit, Hk.
Qed.

(** A shorter operator is tried first; what follows refuses the rest of the
    longer one. *)
Lemma hits_op Q o k l rest cs : o ∈ op_names → (∀ l' t cs', k (Pos l' (61%N :: t) cs') = None) →
  (∀ l', hits (k (Pos l' rest cs)) Q) → hits (m re_op k (Pos l (o ++ rest) cs)) Q.
Proof.
  intros Ho Hn Hk. unfold re_op. repeat (apply elem_of_cons in Ho as [->|Ho]); [..|by apply elem_of_nil in Ho].
  - apply hits_alt_l, hits_lit, Hk.
  - apply hits_alt_r; [|apply hits_alt_l, hits_lit, Hk]. by rewrite (m_lit_Some _ _ _ _ _ (61%N :: rest)) by done.
  - do 2 (apply hits_alt_r; [by apply m_lit_None|]). apply hits_alt_l, hits_lit, Hk.
  - do 2 (apply hits_alt_r; [by apply m_lit_None|]). apply hits_alt_r; [|apply hits_lit, Hk].
    by rewrite (m_lit_Some _ _ _ _ _ (61%N :: rest)) by done.
Qed.

Lemma cond_not_ws c : cond_char c = true → is_ws c = false.
Proof.
  intros Hc. destruct (is_ws c) eqn:Ew; [|done]. exfalso. unfold cond_char, is_digit, is_ws in *.
  rewrite ?orb_true_iff, ?andb_true_iff, ?N.leb_le, ?N.eqb_eq in *. lia.
Qed.

Lemma value_head x c t : readable cond_char x → String_of_num x = c :: t → is_ws c = false.
Proof.
  intros (_ & Hc & _) E. rewrite E in Hc. cbn [forallb] in Hc. apply andb_true_iff in Hc as [Hc _]. by apply cond_not_ws.
Qed.

(** Blanks and a number cannot start at an equals sign. *)
Lemma number_not_at_eq (r : regex) (k : pos → option pos) l t cs : (∀ (k' : pos → option pos) l' cs', m r k' (Pos l' (61%N :: t) cs') = None) →
  blocks is_ws (m r k) → m (ws_star +> r) k (Pos l (61%N :: t) cs) = None.
Proof. intros Hr Hb. rewrite m_seq, (ws_run _ _ [] (61%N :: t)) by done. apply Hr. Qed.

Lemma plus_none p (k : pos → option pos) l c t cs : p c = false → m (RPlus (RSet p)) k (Pos l (c :: t) cs) = None.
Proof. intros H. unfold RPlus. rewrite m_seq. cbn [m rgt]. by rewrite H. Qed.

Lemma hits_condition Q c k l rest cs : cond_ok c → head_not cond_char rest →
  (∀ l', hits (k (Pos l' rest cs)) Q) → hits (m re_condition k (Pos l (cond_text c ++ rest) cs)) Q.
Proof.
  intros (Hv & Ho & Hx) Hr Hk. unfold re_condition, cond_text. rewrite <- !app_assoc, m_seq.
  apply hits_var; [done|]. intros l1. rewrite m_seq. 
  apply (hits_star Q is_ws _ _ [32%N]); [done|by repeat (apply elem_of_cons in Ho as [->|Ho]); [..|apply elem_of_nil in Ho]|].
  rewrite m_seq. apply hits_op; [done| |].
  - intros l' t cs'. apply number_not_at_eq; [intros; by apply plus_none|]. intros l2 d u cs2 Hd. apply plus_none.
    destruct (cond_char d) eqn:E; [|done]. apply cond_not_ws in E. congruence.
  - intros l2. rewrite m_seq. apply (hits_star Q is_ws _ _ [32%N]); [done| |].
    + destruct (String_of_num (cvalue c)) eqn:E; [by destruct Hx|]. by eapply value_head.
    + destruct Hx as (Hne & Hc & _). apply hits_plus; [done|done|done|]. apply Hk.
Qed.

(** The text of a condition: no blank at either end, no ampersand. *)
Lemma cond_text_ends c : cond_ok c →
  (∃ d u, cond_text c = d :: u ∧ is_ws d = false) ∧ (∃ u d, cond_text c = u ++ [d] ∧ is_ws d = false) ∧ 38%N ∉ cond_text c.
Proof.
  intros (Hv & Ho & Hx & Hc & _). split; [|split].
  - unfold cond_text. repeat (apply elem_of_cons in Hv as [->|Hv]); [eexists; eexists; split; [reflexivity|done]..|by apply elem_of_nil in Hv].
  - destruct (last (String_of_num (cvalue c))) as [d|] eqn:El; [|by apply last_None in El].
    rewrite forallb_forall in Hc. assert (Hd : cond_char d = true) by (apply Hc, list_elem_of_In; by apply last_Some_elem_of).
    apply last_split in El. unfold cond_text. rewrite El. eexists _, d. rewrite !app_assoc. split; [reflexivity|by apply cond_not_ws].
  - unfold cond_text. rewrite !elem_of_app. rewrite forallb_forall in Hc.
    assert (H : 38%N ∉ String_of_num (cvalue c)) by (intros Hin; by assert (cond_char 38 = true) by (apply Hc; by apply list_elem_of_In)).
    assert (Hv' : 38%N ∉ cvar c) by (repeat (apply elem_of_cons in Hv as [->|Hv]); [..|by apply elem_of_nil in Hv]; apply (bool_decide_unpack _); vm_compute; exact I).
    assert (Ho' : 38%N ∉ cop c) by (repeat (apply elem_of_cons in Ho as [->|Ho]); [..|by apply elem_of_nil in Ho]; apply (bool_decide_unpack _); vm_compute; exact I).
    assert (Hb : 38%N ∉ js " ") by (apply (bool_decide_unpack _); vm_compute; exact I). tauto.
Qed.

Lemma cond_text_trim c : cond_ok c → trim (cond_text c) = cond_text c.
Proof.
  intros Hc. destruct (cond_text_ends c Hc) as ((d & u & E & Hd) & (u' & d' & E' & Hd') & _). apply trim_trimmed. rewrite E. split; [done|].
  exists d'. rewrite <- E, E'. by rewrite last_snoc.
Qed.

Lemma parse_condition_text c : cond_ok c → parse_condition (cond_text c) = Some (cond_obj c).
Proof.
  intros Hc. pose proof Hc as (Hv & Ho & Hx). unfold parse_condition. rewrite cond_text_trim by done.
  unfold re_condition_parts. rewrite re_match_bol.
  set (Q := λ e : pos, caps e = [(3, Some (String_of_num (cvalue c))); (2, Some (cop c)); (1, Some (cvar c))]).
  assert (H : hits (m (RGroup 1 re_var +> ws_star +> RGroup 2 re_op +> ws_star +> RGroup 3 (RPlus (RSet cond_char)) +> REol)
                      Some (Pos [] (cond_text c) [])) Q).
  { unfold cond_text. rewrite m_seq. apply hits_group, hits_var; [done|]. intros l1. rewrite between_app. cbn [cap_set lft rgt caps].
    rewrite m_seq. apply (hits_star Q is_ws _ _ [32%N]); [done|by repeat (apply elem_of_cons in Ho as [->|Ho]); [..|apply elem_of_nil in Ho]|].
    rewrite m_seq. apply hits_group, hits_op; [done| |].
    - intros l' t cs'. cbn [cap_set lft rgt caps]. apply number_not_at_eq; [intros; rewrite m_seq; by apply m_group_run_None|].
      intros l2 d u cs2 Hd. rewrite m_seq. apply m_group_run_None. cbn [head_not]. 
      destruct (cond_char d) eqn:E; [|done]. apply cond_not_ws in E. congruence.
    - intros l2. rewrite between_app. cbn [cap_set lft rgt caps]. rewrite m_seq.
      apply (hits_star Q is_ws _ _ [32%N]); [done| |].
      + destruct (String_of_num (cvalue c)) eqn:E; [by destruct Hx|]. by eapply value_head.
      + destruct Hx as (Hne & Hcc & _). rewrite m_seq. rewrite <- (app_nil_r (String_of_num (cvalue c))).
        apply hits_group_plus; [done|done|done|]. rewrite app_nil_r. by eexists. }
  destruct H as (e & -> & Hq). unfold Q in Hq. rewrite Hq. destruct Hx as (_ & _ & Hn & _).
  transitivity (Some (JObj [(js "var", JStr (cvar c)); (js "op", JStr (cop c)); (js "value", JNum (Number_of_string (String_of_num (cvalue c))))]));
    [reflexivity|by rewrite Hn].
Qed.

(** ** Taking a conjunction apart *)

Definition part (t : jsstr) : Prop :=
  (∃ d u, t = d :: u ∧ is_ws d = false) ∧ (∃ u d, t = u ++ [d] ∧ is_ws d = false) ∧ 38%N ∉ t.

Lemma and_none (k : pos → option pos) l a b cs : forallb is_ws a = true →
  match b with [] => True | c :: _ => is_ws c = false ∧ c ≠ 38%N end → m re_and k (Pos l (a ++ b) cs) = None.
Proof.
  intros Ha Hb. unfold re_and. rewrite m_seq. change (js "&&") with [38%N; 38%N].
  rewrite ws_run; [|by apply blocks_lit_then|done|by destruct b as [|c b]; [|destruct Hb]].
  rewrite m_seq. destruct b as [|c b]; [done|]. destruct Hb. by apply m_lit_None_cons.
Qed.

Lemma split_walk t : ∀ l acc rest, 38%N ∉ t → (t = [] ∨ ∃ u d, t = u ++ [d] ∧ is_ws d = false) →
  re_split_go re_and 0 l acc (t ++ rest) = re_split_go re_and 0 (rev t ++ l) (rev t ++ acc) rest.
Proof.
  induction t as [|c t IH]; intros l acc rest Hn Hend; [done|].
  apply not_elem_of_cons in Hn as [Hc Hn]. destruct Hend as [|(u & d & E & Hd)]; [done|].
  assert (Hm : m re_and Some (Pos l ((c :: t) ++ rest) []) = None).
  { destruct (drop_while_suffix is_ws (c :: t)) as (a & Ea & Ha). destruct (drop_while is_ws (c :: t)) as [|b r] eqn:Eb.
    - exfalso. rewrite app_nil_r in Ea. rewrite <- Ea, E, forallb_app in Ha. cbn [forallb] in Ha. rewrite Hd in Ha.
      by rewrite andb_false_r in Ha.
    - rewrite Ea, <- app_assoc. apply and_none; [done|]. split; [by eapply drop_while_head|]. intros ->.
      assert (38%N ∈ c :: t) as [?|?]%elem_of_cons; [|done..]. rewrite Ea. apply elem_of_app. right. by left. }
  cbn [app re_split_go]. cbn [app] in Hm. rewrite Hm. rewrite IH; [|done|].
  - cbn [rev]. by rewrite <- !app_assoc.
  - destruct u as [|c' u]; cbn [app] in E; injection E as -> ->; [by left|]. right. by exists u, d.
Qed.

Lemma split_sep l acc rest : head_not is_ws rest → rest ≠ [] →
  ∃ l', re_split_go re_and 0 l acc (js " && " ++ rest) = rev acc :: re_split_go re_and 0 l' [] rest.
Proof.
  intros Hr Hne. assert (Hm : hits (m re_and Some (Pos l (js " && " ++ rest) [])) (λ e, rgt e = rest)).
  { unfold re_and. change (js " && " ++ rest) with ([32%N] ++ js "&&" ++ [32%N] ++ rest). rewrite m_seq.
    apply (hits_star _ is_ws _ _ [32%N]); [done|done|]. rewrite m_seq. apply hits_lit.
    apply (hits_star _ is_ws _ _ [32%N]); [done|done|]. by eexists. }
  destruct Hm as (e & Hm & He). change (js " && " ++ rest) with (32%N :: 38%N :: 38%N :: 32%N :: rest) in *.
  cbn [re_split_go]. rewrite Hm, He. cbn [length].
  replace (S (S (S (S (length rest)))) - length rest) with 4 by lia. by eexists.
Qed.

Lemma split_parts ts : ∀ l, ts ≠ [] → Forall part ts → re_split_go re_and 0 l [] (join (js " && ") ts) = ts.
Proof.
  induction ts as [|t ts IH]; intros l Hne Hts; [done|]. inversion Hts as [|? ? (_ & He & Hn) Hts']. subst.
  destruct ts as [|t2 ts].
  - cbn [join]. rewrite <- (app_nil_r t) at 1. rewrite split_walk by auto. cbn [re_split_go].
    by rewrite app_nil_r, rev_involutive.
  - rewrite join_cons, split_walk by auto. inversion Hts' as [|? ? ((d & u & Ed & Hd) & _) _]. subst.
    destruct (split_sep (rev t ++ l) (rev t ++ []) (join (js " && ") ((d :: u) :: ts))) as [l' ->].
    + by destruct ts.
    + by destruct ts.
    + by rewrite app_nil_r, rev_involutive, IH.
Qed.

Lemma conds_parse cs : Forall cond_ok cs → parse_conditions (conds_text cs) = map cond_obj cs.
Proof.
  intros Hc. unfold parse_conditions. destruct cs as [|c cs]; [done|].
  assert (Hp : Forall part (map cond_text (c :: cs))).
  { apply Forall_forall. intros t (x & <- & Hx)%list_elem_of_In%in_map_iff. apply cond_text_ends.
    rewrite Forall_forall in Hc. by apply Hc, list_elem_of_In. }
  destruct (is_empty (conds_text (c :: cs))) eqn:E.
  { apply is_empty_true in E. inversion Hp as [|? ? ((d & u & Ed & _) & _) _]. subst. unfold conds_text in E.
    cbn [map] in E. rewrite join_concat, Ed in E. done. }
  unfold re_split, conds_text. rewrite split_parts by done. clear E Hp. induction Hc as [|x l Hx _ IH]; [done|].
  cbn [map omap list_omap]. by rewrite parse_condition_text, IH.
Qed.

(** ** Guards *)

(** The expression takes the chunk, whatever is wanted of what follows, when a
    blank follows. *)
Definition takes_chunk (r : regex) (ch : jsstr) : Prop :=
  ch ≠ [] ∧ ∀ Q k l cs t, (∀ l', hits (k (Pos l' (32%N :: t) cs)) Q) → hits (m r k (Pos l (ch ++ 32%N :: t) cs)) Q.

Lemma hits_star_chunks Q r k b cs : groups r = [] → (∀ (k' : pos → option pos) l' cs', m r k' (Pos l' (32%N :: b) cs') = None) →
  (∀ l', hits (k (Pos l' (32%N :: b) cs)) Q) →
  ∀ chunks l, Forall (λ ch, takes_chunk r (32%N :: ch)) chunks →
    hits (m (RStar true r) k (Pos l (concat (map (cons 32%N) chunks) ++ 32%N :: b) cs)) Q.
Proof.
  intros Hg Hb Hk chunks l Hch.
  change (m (RStar true r) k ?st) with (star_loop (m r) (reset r) true k (length (rgt st)) st). cbn [rgt].
  assert (Hr : ∀ st, reset r st = st) by (intros []; unfold reset; by rewrite Hg).
  assert (Hn : length (concat (map (cons 32%N) chunks) ++ 32%N :: b) ≤ length (concat (map (cons 32%N) chunks) ++ 32%N :: b)) by done.
  revert Hn. generalize (length (concat (map (cons 32%N) chunks) ++ 32%N :: b)) at 2 3 as n. revert l.
  induction Hch as [|ch chunks [_ Hch] _ IH]; intros l n Hn.
  - destruct n; [apply Hk|]. cbn [star_loop map concat app]. rewrite Hr, Hb. apply Hk.
  - cbn [map concat] in *. rewrite <- app_assoc in *. destruct n as [|n]; [cbn in Hn; lia|]. cbn [star_loop]. rewrite Hr.
    assert (Hnext : ∃ t, concat (map (cons 32%N) chunks) ++ 32%N :: b = 32%N :: t) by (destruct chunks; by eexists).
    destruct Hnext as [t Ht]. rewrite Ht in *.
    match goal with |- hits (match ?o with Some _ => _ | None => _ end) Q => enough (H : hits o Q) by (destruct H as (e & -> & He); by exists e) end.
    apply Hch. intros l'. cbn [rgt]. apply (hits_shorter Q _ (32%N :: ch)); [done|done|]. apply IH.
    rewrite length_app in Hn. cbn [length] in *. lia.
Qed.

Lemma takes_and c : cond_ok c → takes_chunk (re_and +> re_condition) (32%N :: js "&& " ++ cond_text c).
Proof.
  intros Hc. split; [done|]. intros Q k l cs t Hk. destruct (cond_text_ends c Hc) as ((d & u & Ed & Hd) & _).
  change ((32%N :: js "&& " ++ cond_text c) ++ 32%N :: t) with ([32%N] ++ js "&&" ++ [32%N] ++ cond_text c ++ 32%N :: t).
  unfold re_and. rewrite !m_seq. apply (hits_star Q is_ws _ _ [32%N]); [done|done|]. rewrite m_seq. apply hits_lit.
  apply (hits_star Q is_ws _ _ [32%N]); [done|by rewrite Ed|]. by apply hits_condition.
Qed.

Definition guard_caps (v : vtier) : list (nat * option jsstr) :=
  match vconds v with [] => [] | cs => [(1, Some (conds_text cs)); (1, None)] end.
Definition guard_text (v : vtier) : jsstr := match vconds v with [] => [] | cs => conds_text cs ++ js " ? " end.

Lemma conds_chunks c cs : conds_text (c :: cs) = cond_text c ++ concat (map (cons 32%N) (map (λ c, js "&& " ++ cond_text c) cs)).
Proof. unfold conds_text. cbn [map]. rewrite join_concat. f_equal. rewrite !map_map. done. Qed.

Lemma hits_conds Q c cs k l t cs0 : Forall cond_ok (c :: cs) →
  (∀ l', hits (k (Pos l' (js " ?" ++ t) ((1, Some (conds_text (c :: cs))) :: cs0))) Q) →
  hits (m condGroup k (Pos l (conds_text (c :: cs) ++ js " ?" ++ t) cs0)) Q.
Proof.
  intros Hc Hk. inversion Hc as [|? ? Hc1 Hc']. subst. unfold condGroup. apply hits_group.
  set (st := Pos l (conds_text (c :: cs) ++ js " ?" ++ t) cs0).
  assert (Hst : st = Pos l (cond_text c ++ concat (map (cons 32%N) (map (λ c, js "&& " ++ cond_text c) cs)) ++ 32%N :: 63%N :: t) cs0).
  { unfold st. by rewrite conds_chunks, <- app_assoc. }
  set (k1 := λ st', k (cap_set 1 (Some (between st st')) st')). rewrite Hst, m_seq.
  apply hits_condition; [done|by destruct cs|]. intros l1. apply hits_star_chunks; [done| | |].
  - intros k' l' cs'. rewrite m_seq. apply (and_none _ _ [32%N]); [done|]. by split.
  - intros l'. change (32%N :: 63%N :: t) with (js " ?" ++ t). unfold k1, st. rewrite between_app. apply Hk.
  - apply Forall_forall. intros ch (x & <- & Hx)%list_elem_of_In%in_map_iff. apply takes_and. rewrite Forall_forall in Hc'.
    by apply Hc', list_elem_of_In.
Qed.

Lemma lit_none d s c t (k : pos → option pos) l cs : (d =? c)%N = false → m (RLit (d :: s)) k (Pos l (c :: t) cs) = None.
Proof. intros H. apply m_lit_None_cons. intros ->. by rewrite N.eqb_refl in H. Qed.

Definition starts_condition (c : N) : bool := ((112 =? c) || (99 =? c) || (108 =? c))%N.

Lemma guard_none r (k : pos → option pos) l c t cs : starts_condition c = false → m (condGroup +> r) k (Pos l (c :: t) cs) = None.
Proof.
  unfold starts_condition. rewrite !orb_false_iff. intros [[H1 H2] H3].
  assert (H : ∀ k' : pos → option pos, m re_var k' (Pos l (c :: t) cs) = None).
  { intros k'. unfold re_var. rewrite !m_alt. change (js "p") with [112%N]. change (js "c") with [99%N].
    change (js "len") with (108%N :: js "en"). by rewrite !lit_none. }
  rewrite m_seq. unfold condGroup, re_condition. apply H.
Qed.

Lemma hits_guard Q v k l t : tier_ok v → head_not is_ws t → (∃ u, t = 116%N :: u) →
  (∀ l', hits (k (Pos l' t (guard_caps v))) Q) → hits (m re_guard k (Pos l (guard_text v ++ t) [])) Q.
Proof.
  intros Hv Ht [u Hu] Hk. unfold re_guard, guard_text, guard_caps in *. pose proof (ok_conds v Hv) as Hc. 
  destruct (vconds v) as [|c cs].
  - cbn [app]. apply hits_opt_none; [|apply Hk]. intros k'. subst t. by apply guard_none.
  - apply hits_opt_some. rewrite <- app_assoc. change (js " ? " ++ t) with (js " ?" ++ 32%N :: t).
    cbn [reset groups app map condGroup re_condition re_var re_op re_and ws_star RPlus lft rgt caps].
    rewrite m_seq. apply hits_conds; [done|]. intros l1. rewrite m_seq.
    change (js " ?" ++ 32%N :: t) with ([32%N] ++ js "?" ++ [32%N] ++ t).
    apply (hits_star Q is_ws _ _ [32%N]); [done|done|]. rewrite m_seq. apply hits_lit.
    apply (hits_star Q is_ws _ _ [32%N]); [done|done|]. cbn [rgt].
    apply (hits_shorter Q _ (conds_text (c :: cs) ++ js " ? ")); [by rewrite <- app_assoc| |apply Hk].
    by destruct (conds_text (c :: cs)).
Qed.

Definition part_text (v : vtier) : jsstr := guard_text v ++ call_text v.

Lemma hits_tier v l rest : tier_ok v →
  hits (m tierRe Some (Pos l (part_text v ++ rest) [])) (λ e, rgt e = rest ∧ caps e = call_caps 2 v (guard_caps v)).
Proof.
  intros Hv. unfold tierRe, part_text. rewrite <- app_assoc, m_seq.
  apply hits_guard; [done|done|by eexists|]. intros l1. apply (hits_call _ 2 (RLit (js ")"))); [done|]. intros l2.
  change (41%N :: rest) with (js ")" ++ rest). apply hits_lit. by eexists.
Qed.

Lemma tier_none c (k : pos → option pos) l t cs : starts_condition c = false → (116 =? c)%N = false → m tierRe k (Pos l (c :: t) cs) = None.
Proof.
  intros Hc Ht. unfold tierRe, re_guard. rewrite m_seq. 
  rewrite opt_fails by (intros; by apply guard_none). unfold re_call. rewrite !m_seq. by apply lit_none.
Qed.

(** ** All the tiers of an expression *)

Definition matches (e : pos * pos) (v : vtier) : Prop := caps e.2 = call_caps 2 v (guard_caps v).

Lemma search_tier v l rest : tier_ok v →
  ∃ b e, search tierRe l (part_text v ++ rest) = Some (b, e) ∧ rgt e = rest ∧ matches (b, e) v.
Proof.
  intros Hv. destruct (hits_tier v l rest Hv) as (e & Hm & Hr & Hc). exists (Pos l (part_text v ++ rest) []), e.
  split; [|done]. destruct (part_text v ++ rest); cbn [search]; by rewrite Hm.
Qed.

Lemma search_sep l rest : ∃ l', search tierRe l (js " : " ++ rest) = search tierRe l' rest.
Proof.
  change (js " : " ++ rest) with (32%N :: 58%N :: 32%N :: rest).
  assert (H : ∀ c t l, starts_condition c = false → (116 =? c)%N = false → search tierRe l (c :: t) = search tierRe (c :: l) t).
  { intros c t l0 Hc Ht. cbn [search]. by rewrite tier_none. }
  rewrite !H by done. by eexists.
Qed.

(** A loop of matches over the parts of an expression finds them one by one. *)
Section Parts.
Context (r : regex) (mt : pos * pos → vtier → Prop).
Hypothesis find_part : ∀ v l rest, tier_ok v →
  ∃ b e, search r l (part_text v ++ rest) = Some (b, e) ∧ rgt e = rest ∧ mt (b, e) v.
Hypothesis skip_sep : ∀ l rest, ∃ l', search r l (js " : " ++ rest) = search r l' rest.

Lemma exec_parts tail vs : (∀ l, search r l tail = None) → Forall tier_ok vs → vs ≠ [] →
  ∀ fuel l, length vs < fuel →
  Forall2 mt (exec_all fuel r l (join (js " : ") (map part_text vs) ++ tail)) vs.
Proof using find_part skip_sep.
  intros Htail Hvs Hne. induction Hvs as [|v vs Hv Hvs IH]; [done|]. intros [|fuel] l Hf; [lia|].
  cbn [map]. rewrite join_concat, <- app_assoc. cbn [exec_all].
  destruct (find_part v l (concat (map (app (js " : ")) (map part_text vs)) ++ tail) Hv) as (b & e & -> & Hr & Hm).
  constructor; [done|]. rewrite Hr. destruct vs as [|v2 vs].
  - cbn [map concat app]. destruct fuel; cbn [exec_all]; [constructor|]. rewrite Htail. constructor.
  - cbn [map concat] in *. rewrite <- !app_assoc. destruct fuel as [|fuel]; [cbn in Hf; lia|].
    specialize (IH ltac:(done) (S fuel)). cbn [length] in Hf.
    destruct (skip_sep (lft e) (part_text v2 ++ concat (map (app (js " : ")) (map part_text vs)) ++ tail)) as [l' Hs].
    specialize (IH l' ltac:(cbn [length]; lia)). rewrite join_concat, <- app_assoc in IH. cbn [exec_all] in *. by rewrite Hs.
Qed.
End Parts.

Lemma parts_fuel vs tail : vs ≠ [] → length vs < S (length (join (js " : ") (map part_text vs) ++ tail)).
Proof.
  intros Hne. rewrite length_app. enough (length vs ≤ length (join (js " : ") (map part_text vs))) by lia. clear Hne.
  destruct vs as [|v vs]; [done|]. cbn [map]. rewrite join_concat, length_app. cbn [length].
  assert (Hp : 1 ≤ length (part_text v)) by (unfold part_text, call_text; rewrite !length_app; change (length (jsq "tier('")) with 6; lia).
  enough (length vs ≤ length (concat (map (app (js " : ")) (map part_text vs)))) by lia. clear.
  induction vs as [|v vs IH]; [done|]. cbn [map concat length]. rewrite !length_app. change (length (js " : ")) with 3. lia.
Qed.

Lemma call_caps_get v : tier_ok v →
  cap_get 1 (call_caps 2 v (guard_caps v)) = (match vconds v with [] => None | cs => Some (conds_text cs) end) ∧
  cap_get 2 (call_caps 2 v (guard_caps v)) = Some (vlabel v) ∧
  cap_get 3 (call_caps 2 v (guard_caps v)) = Some (String_of_num (vin v)) ∧
  cap_get 4 (call_caps 2 v (guard_caps v)) = Some (String_of_num (vout v)) ∧
  (∀ i x, vextra v !! i = Some x → cap_get (3 + 2 + i) (call_caps 2 v (guard_caps v)) = if num_truthy x then Some (String_of_num x) else None).
Proof.
  intros Hv. unfold call_caps. split; [|split; [|split; [|split]]]; try (rewrite extras_caps_below by lia; try reflexivity).
  - rewrite !cap_get_cons, !decide_False by lia. unfold guard_caps. by destruct (vconds v).
  - intros i x Hx. apply extras_caps_get; [done|]. intros j Hj. rewrite !cap_get_cons, !decide_False by lia.
    unfold guard_caps. destruct (vconds v); [done|]. by rewrite !cap_get_cons, !decide_False by lia.
Qed.

Lemma matched_tier e v : tier_ok v → matches e v →
  normalizeVisualTier (parsed_tier (captures e) (parse_conditions (default [] (captures e 1))) 2 3) = tier_obj v.
Proof.
  intros Hv Hm. destruct (call_caps_get v Hv) as (H1 & H2 & H3 & H4 & H5). unfold captures. rewrite Hm, H1.
  assert (Hc : parse_conditions (default [] (match vconds v with [] => None | cs => Some (conds_text cs) end)) = map cond_obj (vconds v)).
  { pose proof (conds_parse (vconds v) (ok_conds v Hv)) as H. by destruct (vconds v). }
  rewrite Hc. apply parsed_call; [done|by rewrite Hm..|]. intros i x Hx. rewrite Hm. by apply H5.
Qed.

Lemma found_all tail vs : (∀ l, search tierRe l tail = None) → Forall tier_ok vs → vs ≠ [] →
  found_tiers (join (js " : ") (map part_text vs) ++ tail) = map tier_obj vs.
Proof.
  intros Ht Hvs Hne. unfold found_tiers, re_all.
  pose proof (exec_parts tierRe matches search_tier search_sep tail vs Ht Hvs Hne _ [] (parts_fuel vs tail Hne)) as H. clear Hne. revert H.
  generalize (exec_all (S (length (join (js " : ") (map part_text vs) ++ tail))) tierRe [] (join (js " : ") (map part_text vs) ++ tail)).
  intros es H. clear Ht. induction H as [|e v es vs Hm _ IH]; [done|]. inversion Hvs as [|? ? Hv Hvs']. subst.
  cbn [map]. by rewrite (matched_tier e v Hv Hm), IH.
Qed.

(** ** The round trip *)

(** Every tier but the last has a condition; the last has none, unless it is
    the only one. *)
Fixpoint conditional (vs : list vtier) : Prop :=
  match vs with
  | [] => False
  | [v] => True
  | v :: vs' => vconds v ≠ [] ∧ conditional vs'
  end.
Definition config_ok (vs : list vtier) : Prop :=
  Forall tier_ok vs ∧ conditional vs ∧ (length vs = 1 ∨ ∃ v, last vs = Some v ∧ vconds v = []).

Definition zero_tail (vs : list vtier) : jsstr :=
  match vs with [v] => match vconds v with [] => [] | _ => js " : p * 0 + c * 0" end | _ => [] end.

Definition config_text (vs : list vtier) : jsstr := join (js " : ") (map part_text vs) ++ zero_tail vs.

Lemma conds_text_nonempty c cs : cond_ok c → is_empty (conds_text (c :: cs)) = false.
Proof.
  intros Hc. destruct (cond_text_ends c Hc) as ((d & u & Ed & _) & _). rewrite conds_chunks, Ed. done.
Qed.

Lemma part_written n i v : tier_ok v → vconds v = [] ∨ i < n - 1 → tier_part n i (tier_obj v) = part_text v.
Proof.
  intros Hv Hi. unfold tier_part. rewrite call_written, conds_written by done. unfold part_text, guard_text.
  pose proof (ok_conds v Hv) as Hc. destruct (vconds v) as [|c cs]; [by rewrite andb_false_r|].
  destruct Hi as [?|Hi]; [done|]. inversion Hc as [|? ? Hc1 _]. subst. rewrite conds_text_nonempty by done.
  rewrite (proj2 (Nat.ltb_lt _ _) Hi). cbn [negb andb]. by rewrite <- !app_assoc.
Qed.

Lemma config_written vs : config_ok vs → generateExprFromVisualConfig (config_obj vs) = config_text vs.
Proof.
  intros (Hvs & Hcond & Hlast). unfold generateExprFromVisualConfig.
  change (elements (prop (config_obj vs) (js "tiers"))) with (map tier_obj vs). destruct vs as [|v [|v2 vs]]; [done| |].
  - inversion Hvs as [|? ? Hv _]. subst. cbn [map]. rewrite call_written, conds_written by done.
    unfold config_text, zero_tail, part_text, guard_text. cbn [map join]. pose proof (ok_conds v Hv) as Hc.
    destruct (vconds v) as [|c cs]; [by rewrite app_nil_r|]. inversion Hc as [|? ? Hc1 _]. subst.
    rewrite conds_text_nonempty by done. cbn [negb]. by rewrite <- !app_assoc.
  - cbn [map]. unfold config_text, zero_tail. rewrite app_nil_r. f_equal.
    change (tier_obj v :: tier_obj v2 :: map tier_obj vs) with (map tier_obj (v :: v2 :: vs)).
    destruct Hlast as [?|(z & Hz & Hzc)]; [done|]. rewrite length_map. apply list_eq. intros i.
    change (map tier_obj) with (fmap (M:=list) tier_obj). change (map part_text) with (fmap (M:=list) part_text).
    rewrite list_lookup_imap, !list_lookup_fmap. destruct ((v :: v2 :: vs) !! i) as [w|] eqn:Ei; [|done]. cbn [fmap option_fmap option_map]. f_equal.
    apply part_written; [by eapply Forall_lookup_1|]. destruct (decide (i < length (v :: v2 :: vs) - 1)); [by right|left].
    assert (i = pred (length (v :: v2 :: vs))) by (apply lookup_lt_Some in Ei; lia). subst i. rewrite <- last_lookup in Ei. congruence.
Qed.

Lemma var_head v : v ∈ var_names → ∃ c u, v = c :: u ∧ starts_condition c = true.
Proof.
  intros Hv. repeat (apply elem_of_cons in Hv as [->|Hv]; [by eexists _, _|]). by apply elem_of_nil in Hv.
Qed.

(** A tier with a condition starts with its variable, one without with its call. *)
Lemma part_head v : tier_ok v →
  ∃ c u, part_text v = c :: u ∧ match vconds v with [] => c = 116%N | _ => starts_condition c = true end.
Proof.
  intros Hv. unfold part_text, guard_text. pose proof (ok_conds v Hv) as Hc. destruct (vconds v) as [|c cs]; [by eexists _, _|].
  inversion Hc as [|? ? (Hvar & _) _]. subst. destruct (var_head _ Hvar) as (d & u & Ed & Hd).
  rewrite conds_chunks. unfold cond_text. rewrite Ed. by eexists _, _.
Qed.

Lemma no_version c t : (118 =? c)%N = false → strip_version (c :: t) = c :: t.
Proof. intros Hc. unfold strip_version, re_version. rewrite re_match_bol. by rewrite (lit_none 118%N [] c t _ _ _ Hc : m (RLit (js "v") +> _) _ _ = None). Qed.

Lemma no_single c t : (116 =? c)%N = false → re_match singleRe (c :: t) = None.
Proof. intros Hc. unfold singleRe, re_call. rewrite re_match_bol. by rewrite (lit_none 116%N (tl (jsq "tier('")) c t _ _ _ Hc : m ((RLit (jsq "tier('") +> _) +> _) _ _ = None). Qed.

Lemma single_match v : tier_ok v →
  ∃ cm, re_match singleRe (call_text v) = Some cm ∧ ∀ n, cm (S n) = cap_get (S n) (call_caps 1 v []).
Proof.
  intros Hv. unfold singleRe. rewrite re_match_bol.
  destruct (hits_call (λ e, caps e = call_caps 1 v []) 1 (RLit (js ")") +> REol) v Some [] [] [] Hv) as (e & He & Hc).
  { intros l'. rewrite m_seq. change [41%N] with (js ")" ++ []). apply hits_lit. by eexists. }
  rewrite app_nil_r in He. rewrite (He : m (re_call 1 +> re_body 2 _) _ _ = Some e). eexists. split; [reflexivity|]. intros n. cbn. by rewrite Hc.
Qed.

Lemma single_tier cm v : tier_ok v → vconds v = [] → (∀ n, cm (S n) = cap_get (S n) (call_caps 1 v [])) →
  normalizeVisualTier (parsed_tier cm [] 1 2) = tier_obj v.
Proof.
  intros Hv Hc Hcm. change [] with (map cond_obj []). rewrite <- Hc. 
  assert (Hlow : ∀ n, n < 3 → cm (S n) = cap_get (S n) [(3, Some (String_of_num (vout v))); (2, Some (String_of_num (vin v))); (1, Some (vlabel v))]).
  { intros n Hn. rewrite Hcm. unfold call_caps. by rewrite extras_caps_below by lia. }
  apply parsed_call; [done|by rewrite Hlow by lia|by rewrite Hlow by lia|by change (2 + 1) with 3; rewrite Hlow by lia|].
  intros i x Hx. change (2 + 2 + i) with (S (3 + i)). rewrite Hcm. apply (extras_caps_get (vextra v) 4); [done|].
  intros j Hj. by rewrite !cap_get_cons, !decide_False by lia.
Qed.

Lemma tail_silent vs l : search tierRe l (zero_tail vs) = None.
Proof. destruct vs as [|v [|]]; try reflexivity. cbn [zero_tail]. destruct (vconds v); vm_compute; reflexivity. Qed.

Lemma visual_reads vs :
  config_ok vs → tryParseVisualConfig (generateExprFromVisualConfig (config_obj vs)) = Some (config_obj vs).
Proof.
  intros Hok. pose proof (config_written vs Hok) as Hw. rewrite Hw. destruct Hok as (Hvs & Hcond & Hlast).
  destruct vs as [|v vs]; [done|]. inversion Hvs as [|? ? Hv Hvs']. subst.
  destruct (part_head v Hv) as (c & u & Hp & Hc).
  assert (Ht : ∃ t, config_text (v :: vs) = c :: t).
  { unfold config_text. cbn [map]. rewrite join_concat, Hp. by eexists. }
  destruct Ht as [t Ht]. unfold tryParseVisualConfig. rewrite Ht. cbn [is_empty].
  assert (Hc118 : (118 =? c)%N = false).
  { destruct (vconds v); [by subst|]. unfold starts_condition in Hc. rewrite !orb_true_iff, !N.eqb_eq in Hc. by destruct Hc as [[<-|<-]|<-]. }
  rewrite no_version by done. destruct (vconds v) as [|c0 cs] eqn:Ev; [destruct vs as [|v2 vs]|].
  - assert (Hs : c :: t = call_text v).
    { rewrite <- Ht. unfold config_text, zero_tail, part_text, guard_text. rewrite Ev. cbn [map join app]. rewrite Ev. by rewrite app_nil_r. }
    rewrite Hs. destruct (single_match v Hv) as (cm & -> & Hcm). rewrite (single_tier cm v) by done.
    f_equal. by apply (normalize_config [v]).
  - by destruct Hcond.
  - rewrite no_single.
    2: { unfold starts_condition in Hc. rewrite !orb_true_iff, !N.eqb_eq in Hc. by destruct Hc as [[<-|<-]|<-]. }
    rewrite <- Ht. unfold config_text at 1. rewrite found_all by (done || apply tail_silent). cbn [map].
    change (tier_obj v :: map tier_obj vs) with (map tier_obj (v :: vs)). rewrite normalize_config by done.
    by rewrite Hw, streq_refl.
Qed.

(** What the editor makes of the tiers when it writes them: an empty label
    gets the name of its place, and of several tiers the last loses its
    conditions. *)
Definition place_name (n i : nat) : jsstr :=
  if Nat.eqb n 1 then js "default" else js "第" ++ string_of_Z (Z.of_nat (i + 1)) ++ js "档".
Definition as_written (n i : nat) (v : vtier) : vtier :=
  VTier (if Nat.eqb n 1 || Nat.ltb i (n - 1) then vconds v else []) (vin v) (vout v)
    (if is_empty (vlabel v) then place_name n i else vlabel v) (vextra v).
Definition written_tiers (vs : list vtier) : list vtier := imap (as_written (length vs)) vs.

Definition drafts_ok (vs : list vtier) : Prop := Forall draft_ok vs ∧ conditional vs.

Lemma place_name_ok n i : place_name n i ≠ [] ∧ forallb not_quote (place_name n i) = true.
Proof.
  unfold place_name. destruct (Nat.eqb n 1); [done|]. split; [done|].
  rewrite !forallb_app. apply andb_true_iff. split; [reflexivity|]. apply andb_true_iff. split; [|reflexivity].
  unfold string_of_Z. rewrite (proj2 (Z.ltb_ge _ _)) by lia.
  destruct (string_of_nonneg_spec (Z.of_nat (i + 1))) as (_ & Hd & _); [lia|].
  apply (forallb_impl is_digit not_quote); [|done]. intros c Hc. unfold is_digit, not_quote in *. bool_hyps.
  apply negb_true_iff, N.eqb_neq. lia.
Qed.

Lemma as_written_ok n i v : draft_ok v → tier_ok (as_written n i v).
Proof.
  intros (Hc & Hi & Ho & He & Hl & Hq). constructor; cbn [as_written vconds vin vout vextra vlabel]; try done.
  - by destruct (Nat.eqb n 1 || Nat.ltb i (n - 1)).
  - pose proof (place_name_ok n i). by destruct (vlabel v).
Qed.

Lemma as_written_call n i v : draft_ok v →
  tier_call (label_or (place_name n i) (tier_obj v)) (tier_obj v) =
  tier_call (label_or (place_name n i) (tier_obj (as_written n i v))) (tier_obj (as_written n i v)).
Proof.
  intros Hv. assert (Hb : buildTierBodyExpr (tier_obj (as_written n i v)) = buildTierBodyExpr (tier_obj v)).
  { by rewrite !body_written by (done || by apply draft_of, as_written_ok). }
  assert (Hl : label_or (place_name n i) (tier_obj (as_written n i v)) = label_or (place_name n i) (tier_obj v)).
  { unfold label_or. change (prop (tier_obj v) (js "label")) with (JStr (vlabel v)).
    change (prop (tier_obj (as_written n i v)) (js "label")) with (JStr (vlabel (as_written n i v))).
    cbn [as_written vlabel]. destruct (vlabel v); [|done]. cbn [is_empty]. by destruct (place_name n i). }
  unfold tier_call. by rewrite Hb, Hl.
Qed.

Lemma written_part n i v : draft_ok v → n ≠ 1 → tier_part n i (tier_obj v) = tier_part n i (tier_obj (as_written n i v)).
Proof.
  intros Hv Hn. pose proof (as_written_call n i v Hv) as H. unfold place_name in H. rewrite (proj2 (Nat.eqb_neq n 1)) in H by done.
  unfold tier_part. rewrite H. destruct (Nat.ltb i (n - 1)) eqn:E; [|reflexivity].
  change (prop (tier_obj v) (js "conditions")) with (JArr (map cond_obj (vconds v))).
  change (prop (tier_obj (as_written n i v)) (js "conditions")) with (JArr (map cond_obj (vconds (as_written n i v)))).
  assert (Hc : vconds (as_written n i v) = vconds v) by (cbn [as_written vconds]; by rewrite E, orb_true_r).
  rewrite Hc. reflexivity.
Qed.

(** Writing the form's tiers is writing the tiers made of them. *)
Lemma drafts_written vs : Forall draft_ok vs →
  generateExprFromVisualConfig (config_obj vs) = generateExprFromVisualConfig (config_obj (written_tiers vs)).
Proof.
  intros Hvs. unfold generateExprFromVisualConfig.
  change (elements (prop (config_obj vs) (js "tiers"))) with (map tier_obj vs).
  change (elements (prop (config_obj (written_tiers vs)) (js "tiers"))) with (map tier_obj (written_tiers vs)).
  destruct vs as [|v [|w vs]]; [done| |].
  - cbn [written_tiers imap map length]. inversion Hvs as [|? ? Hv _]. subst. pose proof (as_written_call 1 0 v Hv) as H.
    cbn [place_name Nat.eqb] in H. by rewrite H.
  - set (us := v :: w :: vs). assert (Hn : length us ≠ 1) by done.
    change (join (js " : ") (imap (tier_part (length (map tier_obj us))) (map tier_obj us)) =
            join (js " : ") (imap (tier_part (length (map tier_obj (written_tiers us)))) (map tier_obj (written_tiers us)))).
    f_equal. unfold written_tiers. rewrite !length_map, length_imap. fold us in Hvs. clearbody us. apply list_eq. intros i.
    change (map tier_obj) with (fmap (M:=list) tier_obj). rewrite !list_lookup_imap, !list_lookup_fmap, list_lookup_imap.
    destruct (us !! i) as [u|] eqn:E; [|reflexivity]. cbn [fmap option_fmap option_map]. apply (f_equal Some), written_part; [|exact Hn].
    by eapply Forall_lookup_1.
Qed.

Lemma conditional_lookup vs : conditional vs ↔ vs ≠ [] ∧ ∀ i v, vs !! i = Some v → S i < length vs → vconds v ≠ [].
Proof.
  induction vs as [|v vs IH]; cbn [conditional]; [naive_solver|]. destruct vs as [|w vs].
  - split; [|done]. intros _. split; [done|]. intros i u _ Hi. cbn in Hi. lia.
  - rewrite IH. split.
    + intros [Hv [_ H]]. split; [done|]. intros [|i] u Hu Hi; [by injection Hu as <-|]. apply (H i u); [done|cbn in *; lia].
    + intros [_ H]. split; [apply (H 0 v); [done|cbn; lia]|]. split; [done|]. intros i u Hu Hi.
      apply (H (S i) u); [done|cbn in *; lia].
Qed.

Lemma written_tiers_ok vs : drafts_ok vs → config_ok (written_tiers vs).
Proof.
  intros [Hvs Hc]. assert (Hlen : length (written_tiers vs) = length vs) by apply length_imap.
  apply conditional_lookup in Hc as [Hne Hc]. split; [|split].
  - apply Forall_lookup. intros i u. unfold written_tiers. rewrite list_lookup_imap.
    destruct (vs !! i) as [v|] eqn:E; [|done]. intros [= <-]. apply as_written_ok. by eapply Forall_lookup_1.
  - apply conditional_lookup. split; [intros E; apply Hne, nil_length_inv; by rewrite <- Hlen, E|]. rewrite Hlen.
    intros i u. unfold written_tiers. rewrite list_lookup_imap. destruct (vs !! i) as [v|] eqn:E; [|done]. intros [= <-] Hi.
    cbn [as_written vconds]. rewrite (proj2 (Nat.ltb_lt i (length vs - 1))), orb_true_r by lia. by apply (Hc i).
  - destruct (decide (length vs = 1)); [left; lia|right]. rewrite last_lookup, Hlen. unfold written_tiers. rewrite list_lookup_imap.
    destruct (vs !! pred (length vs)) as [v|] eqn:E.
    + eexists. split; [reflexivity|]. cbn [as_written vconds]. rewrite (proj2 (Nat.eqb_neq _ _)) by done.
      by rewrite (proj2 (Nat.ltb_ge _ _)) by lia.
    + exfalso. apply lookup_ge_None in E. destruct vs; cbn in *; [done|lia].
Qed.

Lemma written_tiers_id vs : config_ok vs → written_tiers vs = vs.
Proof.
  intros (Hvs & _ & Hlast). apply list_eq. intros i. unfold written_tiers. rewrite list_lookup_imap.
  destruct (vs !! i) as [v|] eqn:E; [|done]. cbn [fmap option_fmap option_map]. f_equal.
  assert (Hl : vlabel v ≠ []) by (by apply (ok_label v), (Forall_lookup_1 _ _ _ _ Hvs E)).
  unfold as_written. assert (Hc : (if Nat.eqb (length vs) 1 || Nat.ltb i (length vs - 1) then vconds v else []) = vconds v).
  { destruct (Nat.eqb_spec (length vs) 1); [done|]. destruct (Nat.ltb_spec i (length vs - 1)); [done|]. cbn [orb].
    destruct Hlast as [?|(z & Hz & Hzc)]; [done|]. apply lookup_lt_Some in E as Hlt. rewrite last_lookup in Hz.
    assert (i = pred (length vs)) by lia. subst i. congruence. }
  rewrite Hc. by destruct v as [? ? ? [|]].
Qed.

(** C1. Tiers survive the text.  A tier is given by complete conditions, its nine
    prices and its label; a price of zero is left out, and the kind of its cache
    prices is that of its one-hour price.  Take at least one tier, where every tier
    but the last has a condition, no label contains a quotation mark, every price
    prints in digits, points, signs and exponents, every threshold does so
    without a minus sign, and each number is read back as itself.  The
    expression the visual editor writes for these tiers is read back by the
    editor as exactly these tiers, but for what the writer itself changes: an
    empty label becomes the name of the tier's place, and of several tiers the
    last loses its conditions.  If no label is empty and the last of several
    tiers has no condition, nothing changes. *)
Theorem visual_roundtrip vs :
  drafts_ok vs →
  tryParseVisualConfig (generateExprFromVisualConfig (config_obj vs)) = Some (config_obj (written_tiers vs)) ∧
  (config_ok vs → written_tiers vs = vs).
Proof.
  intros Hvs. split; [|apply written_tiers_id]. rewrite drafts_written by apply Hvs. by apply visual_reads, written_tiers_ok.
Qed.

Definition num_lit (s : string) : num := Number_of_string (js s).
Definition sample_tiers : list vtier :=
  [VTier [VCond (js "p") (js "<") (num_lit "128000"); VCond (js "len") (js ">=") (num_lit "5")]
     (num_lit "2.5") (num_lit "8") (js "base") [nzero; nzero; num_lit "0.1"; nzero; nzero; nzero; num_lit "40"];
   VTier [] (num_lit "3") (num_lit "1e21") (js "long") (repeat nzero 7)].

(** The conditions can be decided. *)
Definition readableb (p : N → bool) (x : num) : bool :=
  negb (is_empty (String_of_num x)) && forallb p (String_of_num x) &&
  bool_decide (Number_of_string (String_of_num x) = x) && negb (isNaN x).
Definition tier_okb (v : vtier) : bool :=
  forallb (λ c, bool_decide (cvar c ∈ var_names) && bool_decide (cop c ∈ op_names) && readableb cond_char (cvalue c)) (vconds v)
  && readableb num_char (vin v) && readableb num_char (vout v) && forallb (readableb num_char) (vextra v)
  && Nat.eqb (length (vextra v)) 7 && negb (is_empty (vlabel v)) && forallb not_quote (vlabel v).

Lemma readableb_ok p x : readableb p x = true → readable p x.
Proof.
  unfold readableb. rewrite !andb_true_iff, bool_decide_eq_true, !negb_true_iff. intros [[[H1 H2] H3] H4].
  split; [by intros E; rewrite E in H1|done].
Qed.

Lemma tier_okb_ok v : tier_okb v = true → tier_ok v.
Proof.
  unfold tier_okb. rewrite !andb_true_iff, !forallb_forall, negb_true_iff, Nat.eqb_eq.
  intros [[[[[[Hc Hi] Ho] He] H7] Hl] Hq]. constructor; try (by apply readableb_ok); [| |done|].
  - apply Forall_forall. intros c Hin%list_elem_of_In. apply Hc in Hin.
    rewrite !andb_true_iff, !bool_decide_eq_true in Hin. destruct Hin as [[]]. split; [done|]. split; [done|by apply readableb_ok].
  - apply Forall_forall. intros x Hin%list_elem_of_In. by apply readableb_ok, He.
  - split; [by intros E; rewrite E in Hl|by apply forallb_forall].
Qed.

Lemma sample_tiers_ok : config_ok sample_tiers.
Proof.
  split; [|split; [by split|right; by eexists]].
  apply Forall_forall. intros v Hv. apply tier_okb_ok. 
  assert (H : forallb tier_okb sample_tiers = true) by (vm_compute; reflexivity).
  apply (proj1 (forallb_forall _ _) H). by apply list_elem_of_In.
Qed.

(** The same tiers without a label and with a condition on the last. *)
Definition sample_drafts : list vtier :=
  [VTier [VCond (js "p") (js "<") (num_lit "128000"); VCond (js "len") (js ">=") (num_lit "5")]
     (num_lit "2.5") (num_lit "8") [] [nzero; nzero; num_lit "0.1"; nzero; nzero; nzero; num_lit "40"];
   VTier [VCond (js "c") (js "<") (num_lit "7")] (num_lit "3") (num_lit "1e21") (js "long") (repeat nzero 7)].

Lemma sample_drafts_ok : drafts_ok sample_drafts.
Proof.
  assert (H : ∀ l cs a b xs, tier_okb (VTier cs a b (js "x") xs) = true → forallb not_quote l = true → draft_ok (VTier cs a b l xs)).
  { intros l cs a b xs Hb Hq. apply tier_okb_ok, draft_of in Hb as (H1 & H2 & H3 & H4 & H5 & _). exact (conj H1 (conj H2 (conj H3 (conj H4 (conj H5 Hq))))). }
  split; [|by split]. repeat (apply Forall_cons; split; [apply H; vm_compute; reflexivity|]). constructor.
Qed.

Lemma visual_roundtrip_witness :
  tryParseVisualConfig (generateExprFromVisualConfig (config_obj sample_drafts)) =
  Some (config_obj [VTier [VCond (js "p") (js "<") (num_lit "128000"); VCond (js "len") (js ">=") (num_lit "5")]
     (num_lit "2.5") (num_lit "8") (js "第1档") [nzero; nzero; num_lit "0.1"; nzero; nzero; nzero; num_lit "40"];
   VTier [] (num_lit "3") (num_lit "1e21") (js "long") (repeat nzero 7)]) ∧ written_tiers sample_tiers = sample_tiers.
Proof.
  split; [exact (proj1 (visual_roundtrip sample_drafts sample_drafts_ok))|].
  apply (visual_roundtrip sample_tiers); [|exact sample_tiers_ok].
  destruct sample_tiers_ok as (H & Hc & _). split; [|exact Hc]. eapply Forall_impl; [exact H|exact draft_of].
Defined.
