(* ===== verification/TieredEditor.v ===== *)
(** * The tiered price editor

    The component of
    [web/src/pages/Setting/Ratio/components/TieredPricingEditor.jsx]: it holds
    the tiers as a form and as text, lets the user switch between the two, and
    writes the expression and the request rules of the model behind it.  A
    handler changes the state; then the effects of the component run. *)

From S2P Require Import Prelude JsString JsRegex JsNumber Json JsObject RequestRuleExpr RequestRuleRoundTrip.
From S2P Require Import TieredPricing TieredPricingTheorems.

(** ** The list of tiers in the form *)

Definition set_tiers (config : jval) (tiers : list jval) : jval := JObj (obj_set (spread [] config) (js "tiers") (JArr tiers)).
Definition tiers_of (config : jval) : list jval := elements (prop (normalizeVisualConfig config) (js "tiers")).

Definition updateTier (config : jval) (index : nat) (patch : jval) : jval :=
  set_tiers (normalizeVisualConfig config)
    (imap (λ i tier, if Nat.eqb i index then normalizeVisualTier (JObj (spread (spread [] tier) patch)) else tier) (tiers_of config)).

Definition default_condition : jval :=
  JObj [(js "var", JStr (js "len")); (js "op", JStr (js "<")); (js "value", JNum (num_of_Z 200000))].
Definition new_tier (n : nat) : jval :=
  JObj [(js "conditions", JArr []); (js "input_unit_cost", JNum nzero); (js "output_unit_cost", JNum nzero);
        (js "label", JStr (js "第" ++ string_of_Z (Z.of_nat (n + 1)) ++ js "档")); (js "cache_mode", JStr CACHE_MODE_GENERIC)].
Definition with_conditions (tier : jval) (conditions : list jval) : jval :=
  JObj (obj_set (spread [] tier) (js "conditions") (JArr conditions)).

(** The last tier gets a condition if it has none, then a tier is added. *)
Definition addTier (config : jval) : jval :=
  let newTiers := tiers_of config in
  let guarded := match last newTiers with
                 | Some t => if Nat.eqb (length (elements (prop t (js "conditions")))) 0
                             then removelast newTiers ++ [with_conditions t [default_condition]] else newTiers
                 | None => newTiers
                 end in
  set_tiers (normalizeVisualConfig config) (guarded ++ [new_tier (length guarded)]).

(** The tier that becomes the last loses its conditions. *)
Definition removeTier (config : jval) (index : nat) : jval :=
  let tiers := tiers_of config in
  if Nat.leb (length tiers) 1 then config
  else
    let next := delete index tiers in
    set_tiers (normalizeVisualConfig config)
      (match last next with Some t => removelast next ++ [with_conditions t []] | None => next end).

(** The rows of a tier's card; each is an update of the tier's conditions. *)
Definition conditions_of (tier : jval) : list jval := elements (prop tier (js "conditions")).
Definition conditions_patch (l : list jval) : jval := JObj [(js "conditions", JArr l)].
Definition updateCondition (tier : jval) (ci : nat) (newCond : jval) : jval :=
  conditions_patch (imap (λ i c, if Nat.eqb i ci then newCond else c) (conditions_of tier)).
Definition removeCondition (tier : jval) (ci : nat) : jval := conditions_patch (delete ci (conditions_of tier)).
(** [None]: there are two conditions already. *)
Definition addCondition (tier : jval) : option jval :=
  let conditions := conditions_of tier in
  if Nat.leb 2 (length conditions) then None
  else let nextVar := if existsb (λ c, is_text (prop c (js "var")) (js "len")) conditions then js "c" else js "len" in
       Some (conditions_patch (conditions ++ [JObj [(js "var", JStr nextVar); (js "op", JStr (js "<")); (js "value", JNum (num_of_Z 200000))]])).

(** A price field: [None] when the text is not a number. *)
Definition price_change (val : jsstr) : option num :=
  if is_empty val then Some nzero
  else let x := Number_of_string val in if isNaN x then None else Some (num_or_zero (JNum x)).
Definition cache_mode_patch (mode : jsstr) : jval :=
  JObj ((js "cache_mode", JStr mode) ::
        (if streq mode CACHE_MODE_GENERIC then [(js "cache_create_1h_unit_cost", JNum nzero)] else [])).

(** ** The component *)

(** [billing] and [rules] belong to the model that is edited. *)
Record editor := Editor {
  visual : bool; visualConfig : jval; rawExpr : jsstr; ruleGroups : list group; billing : jsstr; rules : jsstr }.

(** The groups the form shows for a rule text; [None] is an exception. *)
Definition form_groups (text : jsstr) : option (list group) :=
  match tryParseRequestRuleExpr (Some text) with Ok gs => Some (map ungroup gs) | Null => Some [] | Throw => None end.

Definition effectiveExpr (ed : editor) : option jsstr :=
  if visual ed then Some (generateExprFromVisualConfig (visualConfig ed))
  else fst <$> splitBillingExprAndRequestRules (Some (rawExpr ed)).

Definition write_expr (e : jsstr) (ed : editor) : editor :=
  if streq e (billing ed) then ed
  else Editor (visual ed) (visualConfig ed) (rawExpr ed) (ruleGroups ed) e (rules ed).

(** The effects after a handler: the groups follow the rule text, the model's
    expression follows the effective expression. *)
Definition commit (before after : editor) : option editor :=
  gs ← (if streq (rules before) (rules after) then Some (ruleGroups after) else form_groups (rules after));
  e0 ← effectiveExpr before;
  let after := Editor (visual after) (visualConfig after) (rawExpr after) gs (billing after) (rules after) in
  e1 ← effectiveExpr after;
  Some (if streq e0 e1 then after else write_expr e1 after).

(** The effect that follows the model's name. *)
Definition open_model (ed : editor) : editor :=
  match tryParseVisualConfig (billing ed) with
  | Some parsed => Editor true parsed (billing ed) (ruleGroups ed) (billing ed) (rules ed)
  | None => if is_empty (billing ed) then Editor true createDefaultVisualConfig [] (ruleGroups ed) (billing ed) (rules ed)
            else Editor false JNull (billing ed) (ruleGroups ed) (billing ed) (rules ed)
  end.

(** The first render has no configuration yet; its effective expression is
    written before the state set by [open_model] is rendered. *)
Definition mount (billingExpr requestRuleExpr : jsstr) : option editor :=
  gs ← form_groups requestRuleExpr;
  let first := Editor true JNull [] gs billingExpr requestRuleExpr in
  e0 ← effectiveExpr first;
  commit first (write_expr e0 (open_model first)).

(** Another model is selected; the component stays, with the new model's
    expression and rules. *)
Definition select_model (billingExpr requestRuleExpr : jsstr) (ed : editor) : option editor :=
  gs ← (if streq (rules ed) requestRuleExpr then Some (ruleGroups ed) else form_groups requestRuleExpr);
  let before := Editor (visual ed) (visualConfig ed) (rawExpr ed) gs billingExpr requestRuleExpr in
  commit before (open_model before).

Definition visual_change (newConfig : jval) (ed : editor) : option editor :=
  commit ed (Editor (visual ed) newConfig (rawExpr ed) (ruleGroups ed) (billing ed) (rules ed)).

Definition raw_change (val : jsstr) (ed : editor) : option editor :=
  '(_, ruleStr) ← splitBillingExprAndRequestRules (Some val);
  commit ed (Editor (visual ed) (visualConfig ed) val (ruleGroups ed) (billing ed) ruleStr).

Definition groups_change (gs : list group) (ed : editor) : option editor :=
  commit ed (Editor (visual ed) (visualConfig ed) (rawExpr ed) gs (billing ed) (buildRequestRuleExpr gs)).

Definition str_or (a b : jsstr) : jsstr := if is_empty a then b else a.

Definition mode_switch (to_visual : bool) (ed : editor) : option editor :=
  if to_visual then
    '(billingExpr, ruleStr) ← splitBillingExprAndRequestRules (Some (rawExpr ed));
    gs ← form_groups ruleStr;
    commit ed (Editor true (default createDefaultVisualConfig (tryParseVisualConfig billingExpr))
                 (rawExpr ed) gs (billing ed) ruleStr)
  else
    let expr := generateExprFromVisualConfig (visualConfig ed) in
    let ruleExpr := buildRequestRuleExpr (ruleGroups ed) in
    commit ed (Editor false (visualConfig ed) (str_or (combineBillingExpr (Some expr) (Some ruleExpr)) expr)
                 (ruleGroups ed) (billing ed) (rules ed)).

Definition apply_preset (expr : jsstr) (presetGroups : list group) (ed : editor) : option editor :=
  let ruleExpr := buildRequestRuleExpr presetGroups in
  let combined := str_or (combineBillingExpr (Some expr) (Some ruleExpr)) expr in
  commit ed (match tryParseVisualConfig expr with
             | Some parsed => Editor (visual ed) parsed combined presetGroups (billing ed) ruleExpr
             | None => Editor false JNull combined presetGroups (billing ed) ruleExpr
             end).

(** ** Adding, removing, renaming, repricing and conditioning of readable tiers *)

Lemma normal_config vs : vs ≠ [] → normalizeVisualConfig (config_obj vs) = config_obj vs.
Proof. apply normalize_config. Qed.

Lemma tiers_of_config vs : vs ≠ [] → tiers_of (config_obj vs) = map tier_obj vs.
Proof. intros H. unfold tiers_of. by rewrite normal_config. Qed.

Lemma set_tiers_config vs l : set_tiers (config_obj vs) l = JObj [(js "tiers", JArr l)].
Proof.
  unfold set_tiers, config_obj. rewrite spread_id; [done|]. split; [apply NoDup_singleton|by repeat constructor].
Qed.

(** The last tier changed. *)
Definition on_last (f : vtier → vtier) (vs : list vtier) : list vtier :=
  match last vs with Some v => removelast vs ++ [f v] | None => vs end.
Definition set_conds (cs : list vcond) (v : vtier) : vtier := VTier cs (vin v) (vout v) (vlabel v) (vextra v).
Definition set_in (x : num) (v : vtier) : vtier := VTier (vconds v) x (vout v) (vlabel v) (vextra v).
Definition set_out (x : num) (v : vtier) : vtier := VTier (vconds v) (vin v) x (vlabel v) (vextra v).
Definition set_label (l : jsstr) (v : vtier) : vtier := VTier (vconds v) (vin v) (vout v) l (vextra v).

Definition default_cond : vcond := VCond (js "len") (js "<") (num_of_Z 200000).
Definition fresh_tier (n : nat) : vtier :=
  VTier [] nzero nzero (js "第" ++ string_of_Z (Z.of_nat (n + 1)) ++ js "档") (repeat nzero 7).

Inductive form_op :=
  | AddTier
  | RemoveTier (i : nat)
  | SetInput (i : nat) (x : num)
  | SetOutput (i : nat) (x : num)
  | SetLabel (i : nat) (l : jsstr)
  | SetConditions (i : nat) (cs : list vcond).

(** What the form means by an operation. *)
Definition apply_op (op : form_op) (vs : list vtier) : list vtier :=
  match op with
  | AddTier => on_last (λ v, match vconds v with [] => set_conds [default_cond] v | _ => v end) vs ++ [fresh_tier (length vs)]
  | RemoveTier i => if Nat.leb (length vs) 1 then vs else on_last (set_conds []) (delete i vs)
  | SetInput i x => alter (set_in x) i vs
  | SetOutput i x => alter (set_out x) i vs
  | SetLabel i l => alter (set_label l) i vs
  | SetConditions i cs => alter (set_conds cs) i vs
  end.

(** What the component does. *)
Definition form_step (op : form_op) (config : jval) : jval :=
  match op with
  | AddTier => addTier config
  | RemoveTier i => removeTier config i
  | SetInput i x => updateTier config i (JObj [(js "input_unit_cost", JNum x)])
  | SetOutput i x => updateTier config i (JObj [(js "output_unit_cost", JNum x)])
  | SetLabel i l => updateTier config i (JObj [(js "label", JStr l)])
  | SetConditions i cs => updateTier config i (conditions_patch (map cond_obj cs))
  end.

Lemma removelast_map {A B} (f : A → B) l : removelast (map f l) = map f (removelast l).
Proof. induction l as [|x [|y l] IH]; [done..|]. cbn [map removelast] in *. by rewrite IH. Qed.

Lemma spread_tier v : spread [] (tier_obj v) = base_obj v ++ present extra_fields (vextra v) ++ [(js "cache_mode", JStr (mode_of v))].
Proof. unfold tier_obj. apply spread_id. by eapply (tier_plain v [js "cache_mode"]). Qed.

Lemma with_conditions_tier v cs : with_conditions (tier_obj v) (map cond_obj cs) = tier_obj (set_conds cs v).
Proof. unfold with_conditions. rewrite spread_tier. reflexivity. Qed.

Lemma new_tier_obj n : new_tier n = tier_obj (fresh_tier n).
Proof. reflexivity. Qed.

(** A patch of one property the object has in a fixed place. *)
Lemma patch_tier v k x v' : array_index k = None →
  JObj (obj_set (base_obj v ++ present extra_fields (vextra v) ++ [(js "cache_mode", JStr (mode_of v))]) k x) = tier_obj v' →
  normalizeVisualTier (JObj (spread (spread [] (tier_obj v)) (JObj [(k, x)]))) = tier_obj v'.
Proof.
  intros Hk H. rewrite spread_tier. unfold spread. cbn [entries]. unfold own_entries. cbn [index_entries fst]. rewrite Hk.
  cbn [map app List.filter fst]. rewrite Hk. cbn [fold_left fst snd]. rewrite H. apply normalize_tier_obj.
Qed.

Lemma update_config vs i k x f : vs ≠ [] → array_index k = None →
  (∀ v, JObj (obj_set (base_obj v ++ present extra_fields (vextra v) ++ [(js "cache_mode", JStr (mode_of v))]) k x) = tier_obj (f v)) →
  updateTier (config_obj vs) i (JObj [(k, x)]) = config_obj (alter f i vs).
Proof.
  intros Hne Hk Hf. unfold updateTier. rewrite normal_config, tiers_of_config, set_tiers_config by done. unfold config_obj.
  do 4 f_equal. change (map tier_obj) with (fmap (M:=list) tier_obj). apply list_eq. intros j.
  rewrite list_lookup_imap, !list_lookup_fmap. destruct (Nat.eqb_spec j i) as [->|Hj].
  - rewrite list_lookup_alter, decide_True by done. destruct (vs !! i) as [v|]; [|done]. cbn [fmap option_fmap option_map]. f_equal. by apply patch_tier.
  - rewrite list_lookup_alter, decide_False by done. by destruct (vs !! j).
Qed.

Lemma length_delete_le {A} i (l : list A) : length l ≤ S (length (delete i l)) ∧ length (delete i l) ≤ length l.
Proof. revert i. induction l as [|x l IH]; intros [|i]; cbn; [lia..|].
  destruct (IH i). split; by apply le_n_S. Qed.

Lemma apply_op_nonempty op vs : vs ≠ [] → apply_op op vs ≠ [].
Proof.
  intros Hne. assert (Ha : ∀ f i, alter f i vs ≠ []).
  { intros f i H. apply Hne. apply nil_length_inv. by rewrite <- (length_alter f vs i), H. }
  destruct op; cbn [apply_op]; try apply Ha.
  - by intros [_ ?]%app_nil.
  - destruct (Nat.leb_spec (length vs) 1); [done|]. unfold on_last. destruct (last (delete i vs)) eqn:El; [by intros [_ ?]%app_nil|].
    apply last_None in El. destruct (length_delete_le i vs) as [Hl _]. rewrite El in Hl. cbn in Hl. lia.
Qed.

Lemma on_last_map vs (f : jval → jval) (g : vtier → vtier) : (∀ v, f (tier_obj v) = tier_obj (g v)) →
  (match last (map tier_obj vs) with Some t => removelast (map tier_obj vs) ++ [f t] | None => map tier_obj vs end) =
  map tier_obj (on_last g vs).
Proof.
  intros Hf. unfold on_last. change (map tier_obj vs) with (tier_obj <$> vs). rewrite fmap_last. destruct (last vs) as [v|]; [|done].
  cbn [fmap option_fmap option_map]. change (tier_obj <$> vs) with (map tier_obj vs). by rewrite removelast_map, map_app, Hf.
Qed.

Lemma map_delete_tiers i vs : delete i (map tier_obj vs) = map tier_obj (delete i vs).
Proof. symmetry. apply list_fmap_delete. Qed.

Lemma form_step_refines op vs : vs ≠ [] → form_step op (config_obj vs) = config_obj (apply_op op vs).
Proof.
  intros Hne. destruct op as [|i|i x|i x|i l|i cs]; cbn [form_step apply_op]; try (apply update_config; [done|reflexivity|reflexivity]).
  - unfold addTier. rewrite normal_config, tiers_of_config, set_tiers_config by done. unfold config_obj.
    set (g := λ v, match vconds v with [] => set_conds [default_cond] v | _ => v end).
    set (l := match last (map tier_obj vs) with Some t => _ | None => _ end).
    assert (Hl : l = map tier_obj (on_last g vs)).
    { rewrite <- (on_last_map vs (λ t, if Nat.eqb (length (elements (prop t (js "conditions")))) 0 then with_conditions t [default_condition] else t)).
      - unfold l. destruct (last (map tier_obj vs)) as [t|] eqn:El; [|done]. case_match; [done|]. by apply last_split.
      - intros v. unfold tier_obj at 1. rewrite prop_conditions. unfold g. cbn [elements]. rewrite length_map.
        destruct (vconds v); [|done]. apply (with_conditions_tier v [default_cond]). }
    rewrite Hl, length_map, map_app. do 5 f_equal. cbn [map]. rewrite new_tier_obj. do 3 f_equal.
    unfold on_last. destruct (last vs) eqn:El; [|done]. rewrite (last_split _ _ El) at 2. by rewrite !length_app.
  - unfold removeTier. rewrite tiers_of_config, length_map by done. destruct (Nat.leb (length vs) 1); [done|].
    rewrite normal_config, set_tiers_config, map_delete_tiers by done. unfold config_obj. do 4 f_equal.
    apply on_last_map. intros v. apply (with_conditions_tier v []).
Qed.

Lemma form_run ops : ∀ vs, vs ≠ [] →
  fold_left (λ c op, form_step op c) ops (config_obj vs) = config_obj (fold_left (λ l op, apply_op op l) ops vs).
Proof.
  induction ops as [|op ops IH]; intros vs Hne; cbn [fold_left]; [done|].
  rewrite form_step_refines by done. by apply IH, apply_op_nonempty.
Qed.

(** ** The form as operations on the cards it shows *)

(** What the card of a tier shows: its conditions, its nine prices, its label
    and its kind of cache prices. *)
Record card := Card { card_conditions : list jval; card_prices : list num; card_label : jval; card_mode : jsstr }.

Definition price_fields : list jsstr := [js "input_unit_cost"; js "output_unit_cost"] ++ extra_fields.
Definition card_of (t : jval) : card :=
  Card (conditions_of t) (map (λ f, num_or_zero (prop t f)) price_fields) (prop t (js "label")) (getTierCacheMode t).
Definition shows (config : jval) : list card := map card_of (tiers_of config).

(** The controls of the form.  A price is named by its place in [price_fields]
    and set by the text typed. *)
Inductive card_op :=
  | NewTier
  | DropTier (i : nat)
  | TypePrice (i k : nat) (text : jsstr)
  | Rename (i : nat) (l : jsstr)
  | SwitchCache (i : nat) (timed : bool)
  | ChangeCondition (i ci : nat) (c : jval)
  | DropCondition (i ci : nat)
  | NewCondition (i : nat).

(** The update of a tier, from the tier of that place. *)
Definition update_from (config : jval) (i : nat) (patch : jval → option jval) : jval :=
  match tiers_of config !! i ≫= patch with Some p => updateTier config i p | None => config end.

(** What the component does. *)
Definition card_step (op : card_op) (config : jval) : jval :=
  match op with
  | NewTier => addTier config
  | DropTier i => removeTier config i
  | TypePrice i k text =>
    match price_fields !! k, price_change text with
    | Some f, Some x => updateTier config i (JObj [(f, JNum x)])
    | _, _ => config
    end
  | Rename i l => updateTier config i (JObj [(js "label", JStr l)])
  | SwitchCache i timed => updateTier config i (cache_mode_patch (if timed then CACHE_MODE_TIMED else CACHE_MODE_GENERIC))
  | ChangeCondition i ci c => update_from config i (λ tier, Some (updateCondition tier ci c))
  | DropCondition i ci => update_from config i (λ tier, Some (removeCondition tier ci))
  | NewCondition i => update_from config i addCondition
  end.

Definition put_conditions (l : list jval) (c : card) : card := Card l (card_prices c) (card_label c) (card_mode c).
Definition put_price (k : nat) (x : num) (c : card) : card :=
  Card (card_conditions c) (<[k := x]> (card_prices c)) (card_label c) (card_mode c).
Definition put_label (l : jsstr) (c : card) : card := Card (card_conditions c) (card_prices c) (JStr l) (card_mode c).
Definition put_mode (m : jsstr) (c : card) : card := Card (card_conditions c) (card_prices c) (card_label c) m.
Definition end_card (f : card → card) (cs : list card) : list card :=
  match last cs with Some c => removelast cs ++ [f c] | None => cs end.
Definition fresh_card (n : nat) : card :=
  Card [] (repeat nzero 9) (JStr (js "第" ++ string_of_Z (Z.of_nat (n + 1)) ++ js "档")) CACHE_MODE_GENERIC.

(** The condition a card proposes: on the length, or on the output if the
    length is taken. *)
Definition proposed (l : list jval) : jval :=
  JObj [(js "var", JStr (if existsb (λ c, is_text (prop c (js "var")) (js "len")) l then js "c" else js "len"));
        (js "op", JStr (js "<")); (js "value", JNum (num_of_Z 200000))].

(** What the form means by its controls. *)
Definition apply_card (op : card_op) (cs : list card) : list card :=
  match op with
  | NewTier => end_card (λ c, match card_conditions c with [] => put_conditions [default_condition] c | _ => c end) cs
                 ++ [fresh_card (length cs)]
  | DropTier i => if Nat.leb (length cs) 1 then cs else end_card (put_conditions []) (delete i cs)
  | TypePrice i k text => match price_change text with Some x => alter (put_price k x) i cs | None => cs end
  | Rename i l => alter (put_label l) i cs
  | SwitchCache i timed => alter (if timed then put_mode CACHE_MODE_TIMED else λ c, put_mode CACHE_MODE_GENERIC (put_price 4 nzero c)) i cs
  | ChangeCondition i ci c => alter (λ d, put_conditions (alter (λ _, c) ci (card_conditions d)) d) i cs
  | DropCondition i ci => alter (λ d, put_conditions (delete ci (card_conditions d)) d) i cs
  | NewCondition i => alter (λ d, if Nat.leb 2 (length (card_conditions d)) then d
                                  else put_conditions (card_conditions d ++ [proposed (card_conditions d)]) d) i cs
  end.

(** A tier is an object without a repeated name, as every object is. *)
Definition object_tier (t : jval) : Prop := ∃ o, t = JObj o ∧ NoDup (map fst o).
Definition object_tiers (config : jval) : Prop := Forall object_tier (elements (prop config (js "tiers"))).

Lemma object_set o k v : NoDup (map fst o) → object_tier (JObj (obj_set o k v)).
Proof. intros Ho. eexists. split; [done|]. by apply obj_set_keys. Qed.

Lemma copy_names t : NoDup (map fst (spread [] t)).
Proof. apply spread_keys. constructor. Qed.

Lemma copy_prop t k : object_tier t → obj_get (spread [] t) k = prop t k.
Proof. intros (o & -> & Ho). by apply copy_get. Qed.

Lemma object_normal t : object_tier (normalizeVisualTier t).
Proof. unfold normalizeVisualTier. apply object_set, obj_set_keys, copy_names. Qed.

Lemma fields_plain : Forall (λ f, f ≠ js "conditions" ∧ f ≠ js "cache_mode" ∧ f ≠ js "label") price_fields.
Proof. apply (bool_decide_unpack _). vm_compute. exact I. Qed.

Lemma field_plain f : f ∈ price_fields → streq (js "conditions") f = false ∧ streq (js "cache_mode") f = false ∧ streq (js "label") f = false.
Proof.
  intros Hf. pose proof fields_plain as H. rewrite Forall_forall in H. destruct (H f Hf) as (H1 & H2 & H3).
  repeat split; apply streq_false; congruence.
Qed.

Lemma normal_prop t k : object_tier t → streq (js "conditions") k = false → streq (js "cache_mode") k = false →
  prop (normalizeVisualTier t) k = prop t k.
Proof. intros Ht H1 H2. unfold normalizeVisualTier. cbn [prop]. by rewrite !obj_get_set, H1, H2, copy_prop. Qed.

Lemma normal_mode t : prop (normalizeVisualTier t) (js "cache_mode") = JStr (getTierCacheMode t).
Proof. unfold normalizeVisualTier. cbn [prop]. by rewrite obj_get_set, streq_refl. Qed.

Lemma mode_decided t : prop t (js "cache_mode") = JStr CACHE_MODE_TIMED ∨ prop t (js "cache_mode") = JStr CACHE_MODE_GENERIC →
  prop t (js "cache_mode") = JStr (getTierCacheMode t).
Proof. unfold getTierCacheMode. by intros [-> | ->]. Qed.

Lemma mode_either t : getTierCacheMode t = CACHE_MODE_TIMED ∨ getTierCacheMode t = CACHE_MODE_GENERIC.
Proof. unfold getTierCacheMode. repeat case_match; auto. Qed.

Lemma mode_known t : JStr (getTierCacheMode t) = prop t (js "cache_mode") → ∀ t', prop t' (js "cache_mode") = prop t (js "cache_mode") →
  getTierCacheMode t' = getTierCacheMode t.
Proof.
  intros H t' Ht'. rewrite <- H in Ht'. unfold getTierCacheMode at 1. rewrite Ht'. cbn [is_text].
  by destruct (mode_either t) as [-> | ->].
Qed.

Lemma prices_ext t t' : (∀ f, f ∈ price_fields → prop t' f = prop t f) →
  map (λ f, num_or_zero (prop t' f)) price_fields = map (λ f, num_or_zero (prop t f)) price_fields.
Proof. intros H. apply map_ext_in. intros f Hf%list_elem_of_In. by rewrite H. Qed.

(** The card of a tier does not change when the tier is normalised. *)
Lemma card_normal t : object_tier t → card_of (normalizeVisualTier t) = card_of t.
Proof.
  intros Ht. unfold card_of. f_equal.
  - unfold conditions_of, normalizeVisualTier. cbn [prop]. rewrite obj_get_set.
    change (streq (js "cache_mode") (js "conditions")) with false. cbn match. rewrite obj_get_set, streq_refl.
    by destruct (prop t (js "conditions")).
  - apply prices_ext. intros f Hf. destruct (field_plain f Hf) as (H1 & H2 & _). by apply normal_prop.
  - by apply normal_prop.
  - unfold getTierCacheMode at 1. rewrite normal_mode. cbn [is_text]. by destruct (mode_either t) as [-> | ->].
Qed.

Definition normal_tier (t : jval) : Prop := object_tier t ∧ prop t (js "cache_mode") = JStr (getTierCacheMode t) ∧ ∃ l, prop t (js "conditions") = JArr l.

Lemma normal_normal t : normal_tier (normalizeVisualTier t).
Proof.
  split; [apply object_normal|]. split.
  - apply mode_decided. rewrite normal_mode. destruct (mode_either t) as [-> | ->]; auto.
  - unfold normalizeVisualTier. cbn [prop]. rewrite obj_get_set. change (streq (js "cache_mode") (js "conditions")) with false.
    cbn match. rewrite obj_get_set, streq_refl. destruct (prop t (js "conditions")); by eexists.
Qed.

Lemma tiers_normal config : Forall normal_tier (tiers_of config) ∧ tiers_of config ≠ [].
Proof.
  assert (Hd : Forall normal_tier (elements (prop createDefaultVisualConfig (js "tiers")))) by (constructor; [apply normal_normal|constructor]).
  unfold tiers_of, normalizeVisualConfig. destruct (prop config (js "tiers")) as [| | | | |[|t l]|] eqn:E; try (split; [exact Hd|done]).
  cbn [prop]. rewrite obj_get_set, streq_refl. cbn [elements]. split; [|done]. apply Forall_forall.
  intros x (y & -> & _)%list_elem_of_fmap. apply normal_normal.
Qed.

Lemma shows_set config l : Forall object_tier l → l ≠ [] →
  shows (set_tiers config l) = map card_of l ∧ object_tiers (set_tiers config l).
Proof.
  intros Hl Hne. assert (Hp : prop (set_tiers config l) (js "tiers") = JArr l).
  { unfold set_tiers. cbn [prop]. by rewrite obj_get_set, streq_refl. }
  split; [|unfold object_tiers; by rewrite Hp]. unfold shows, tiers_of, normalizeVisualConfig. rewrite Hp. destruct l as [|t l]; [done|].
  cbn [prop]. rewrite obj_get_set, streq_refl. cbn [elements]. rewrite map_map. apply map_ext_in.
  intros x Hx%list_elem_of_In. apply card_normal. rewrite Forall_forall in Hl. by apply Hl.
Qed.

Lemma patched t m k : object_tier t → NoDup (map fst m) →
  prop (JObj (spread (spread [] t) (JObj m))) k = if obj_has m k then obj_get m k else prop t k.
Proof. intros Ht Hm. rewrite <- (copy_prop t k Ht). by apply spread_get. Qed.

Lemma update_shows config i m f : NoDup (map fst m) →
  (∀ t, normal_tier t → tiers_of config !! i = Some t → card_of (JObj (spread (spread [] t) (JObj m))) = f (card_of t)) →
  shows (updateTier config i (JObj m)) = alter f i (shows config) ∧ object_tiers (updateTier config i (JObj m)).
Proof.
  intros Hm Hf. destruct (tiers_normal config) as [Hn Hne]. unfold updateTier.
  set (l := imap _ (tiers_of config)). destruct (shows_set (normalizeVisualConfig config) l) as [Hs Ho].
  - apply Forall_lookup. intros j x. unfold l. rewrite list_lookup_imap. destruct (tiers_of config !! j) as [t|] eqn:E; [|done].
    intros [= <-]. destruct (Nat.eqb j i); [apply object_normal|]. by apply (Forall_lookup_1 _ _ _ _ Hn E).
  - intros E. apply Hne, nil_length_inv. by rewrite <- (length_imap (λ j tier, if Nat.eqb j i then normalizeVisualTier (JObj (spread (spread [] tier) (JObj m))) else tier)); fold l; rewrite E.
  - split; [|done]. rewrite Hs. apply list_eq. intros j. unfold shows. change (map card_of) with (fmap (M:=list) card_of).
    rewrite list_lookup_alter, !list_lookup_fmap. unfold l. rewrite list_lookup_imap. destruct (Nat.eqb_spec j i) as [->|Hj].
    + rewrite decide_True by done. destruct (tiers_of config !! i) as [t|] eqn:E; [|done]. cbn [fmap option_fmap option_map]. f_equal.
      rewrite card_normal by (by eexists; split; [done|apply spread_keys, copy_names]). apply Hf; [|done]. by eapply Forall_lookup_1.
    + rewrite decide_False by done. by destruct (tiers_of config !! j).
Qed.

(** A patch of something else leaves the conditions, the prices or the kind. *)
Section patch.
Context (t : jval) (m : list (jsstr * jval)).
Hypothesis Ht : normal_tier t.
Hypothesis Hm : NoDup (map fst m).
Abbreviation t' := (JObj (spread (spread [] t) (JObj m))).

Lemma patch_conditions : obj_has m (js "conditions") = false → conditions_of t' = conditions_of t.
Proof. intros H. unfold conditions_of. by rewrite patched, H by (done || apply Ht). Qed.
Lemma patch_prices : forallb (λ f, negb (obj_has m f)) price_fields = true →
  map (λ f, num_or_zero (prop t' f)) price_fields = map (λ f, num_or_zero (prop t f)) price_fields.
Proof.
  rewrite forallb_forall. intros H. apply prices_ext. intros f Hf%list_elem_of_In%H. apply negb_true_iff in Hf.
  by rewrite patched, Hf by (done || apply Ht).
Qed.
Lemma patch_label : obj_has m (js "label") = false → prop t' (js "label") = prop t (js "label").
Proof. intros H. by rewrite patched, H by (done || apply Ht). Qed.
Lemma patch_mode : obj_has m (js "cache_mode") = false → getTierCacheMode t' = getTierCacheMode t.
Proof. intros H. apply mode_known; [symmetry; apply Ht|]. by rewrite patched, H by (done || apply Ht). Qed.
(** One price. *)
Lemma patch_price k f x : price_fields !! k = Some f → num_or_zero (JNum x) = x →
  (∀ g, g ∈ price_fields → obj_has m g = streq f g) → obj_get m f = JNum x →
  map (λ g, num_or_zero (prop t' g)) price_fields = <[k := x]> (map (λ g, num_or_zero (prop t g)) price_fields).
Proof.
  intros Hk Hx Hh Hg. apply list_eq. intros j. change (map (λ g, num_or_zero (prop t' g))) with (fmap (M:=list) (λ g, num_or_zero (prop t' g))).
  change (map (λ g, num_or_zero (prop t g))) with (fmap (M:=list) (λ g, num_or_zero (prop t g))).
  assert (Hnd : NoDup price_fields) by (apply (bool_decide_unpack _); vm_compute; exact I).
  destruct (decide (j = k)) as [->|Hj].
  - rewrite list_lookup_insert_eq by (rewrite length_fmap; by eapply lookup_lt_Some). rewrite list_lookup_fmap, Hk. cbn [fmap option_fmap option_map].
    rewrite patched, (Hh f), streq_refl, Hg by (done || apply Ht || by eapply list_elem_of_lookup_2). by rewrite Hx.
  - rewrite list_lookup_insert_ne, !list_lookup_fmap by done. destruct (price_fields !! j) as [g|] eqn:Eg; [|done].
    cbn [fmap option_fmap option_map]. rewrite patched, (Hh g) by (done || apply Ht || by eapply list_elem_of_lookup_2).
    replace (streq f g) with false; [done|]. symmetry. apply streq_false. intros ->. by destruct Hj; eapply NoDup_lookup.
Qed.
End patch.

Lemma with_conditions_card t l : normal_tier t →
  card_of (with_conditions t l) = put_conditions l (card_of t) ∧ object_tier (with_conditions t l).
Proof.
  intros (Ht & Hm & _). assert (Hp : ∀ k, prop (with_conditions t l) k = if streq (js "conditions") k then JArr l else prop t k).
  { intros k. unfold with_conditions. rewrite <- (copy_prop t k Ht). apply obj_get_set. }
  split; [|by apply object_set, copy_names]. unfold card_of, put_conditions. f_equal.
  - unfold conditions_of. by rewrite Hp, streq_refl.
  - apply prices_ext. intros f Hf. destruct (field_plain f Hf) as (H1 & _). by rewrite Hp, H1.
  - by rewrite Hp.
  - apply mode_known; [done|]. by rewrite Hp.
Qed.

Lemma last_card (f : jval → jval) (g : card → card) : (∀ t, normal_tier t → card_of (f t) = g (card_of t) ∧ object_tier (f t)) →
  ∀ ts, Forall normal_tier ts →
  let l := match last ts with Some t => removelast ts ++ [f t] | None => ts end in
  map card_of l = end_card g (map card_of ts) ∧ Forall object_tier l ∧ length l = length ts.
Proof.
  intros Hf ts Hts. unfold end_card. change (map card_of ts) with (card_of <$> ts). rewrite fmap_last.
  destruct (last ts) as [t|] eqn:El; cbn zeta; cbn [fmap option_fmap option_map].
  - pose proof (last_split _ _ El) as Es. rewrite Es in Hts. apply Forall_app in Hts as [Hr Ht].
    inversion Ht as [|? ? Ht' _]. subst. destruct (Hf t Ht') as [H1 H2].
    change (card_of <$> ts) with (map card_of ts). rewrite removelast_map, map_app. cbn [map]. rewrite H1. split; [done|]. split.
    + apply Forall_app. split; [|by constructor]. eapply Forall_impl; [exact Hr|]. by intros x [].
    + rewrite Es at 2. by rewrite !length_app.
  - apply last_None in El. by subst.
Qed.

Lemma add_shows config : shows (addTier config) = apply_card NewTier (shows config) ∧ object_tiers (addTier config).
Proof.
  destruct (tiers_normal config) as [Hn Hne]. unfold addTier. cbn [apply_card].
  set (f := λ t, if Nat.eqb (length (elements (prop t (js "conditions")))) 0 then with_conditions t [default_condition] else t).
  set (g := λ c, match card_conditions c with [] => put_conditions [default_condition] c | _ => c end).
  assert (Hf : ∀ t, normal_tier t → card_of (f t) = g (card_of t) ∧ object_tier (f t)).
  { intros t Ht. unfold f, g. destruct (with_conditions_card t [default_condition] Ht) as [H1 H2].
    cbn [card_of card_conditions]. unfold conditions_of. destruct (elements (prop t (js "conditions"))); [done|]. by destruct Ht. }
  destruct (last_card f g Hf (tiers_of config) Hn) as (Hc & Ho & Hl). set (l := match last (tiers_of config) with Some t => _ | None => _ end) in *.
  set (l' := match last (tiers_of config) with Some t => _ | None => _ end). assert (E : l' = l).
  { unfold l, l', f. destruct (last (tiers_of config)) as [t|] eqn:El; [|done]. case_match; [done|]. by apply last_split. }
  rewrite E. destruct (shows_set (normalizeVisualConfig config) (l ++ [new_tier (length l)])) as [Hs Hs'].
  - apply Forall_app. split; [done|]. constructor; [|constructor]. eexists. split; [reflexivity|].
    apply (bool_decide_unpack _). vm_compute. exact I.
  - by intros [_ ?]%app_nil.
  - split; [|done]. rewrite Hs, map_app, Hc. unfold shows. rewrite length_map, Hl. reflexivity.
Qed.

Lemma remove_shows i config : object_tiers config →
  shows (removeTier config i) = apply_card (DropTier i) (shows config) ∧ object_tiers (removeTier config i).
Proof.
  intros Hc. destruct (tiers_normal config) as [Hn Hne]. unfold removeTier. cbn [apply_card]. unfold shows at 2. rewrite length_map.
  destruct (Nat.leb_spec (length (tiers_of config)) 1); [done|].
  assert (Hd : Forall normal_tier (delete i (tiers_of config))) by by apply Forall_delete.
  destruct (last_card (λ t, with_conditions t []) (put_conditions []) (λ t, with_conditions_card t []) _ Hd) as (H1 & H2 & H3).
  destruct (shows_set (normalizeVisualConfig config) _ H2) as [Hs Ho].
  { intros E. rewrite E in H3. cbn in H3. destruct (length_delete_le i (tiers_of config)). lia. }
  split; [|done]. rewrite Hs, H1. unfold shows. f_equal. apply list_fmap_delete.
Qed.

Lemma streq_sym a b : streq a b = streq b a.
Proof. apply eq_true_iff_eq. by rewrite !streq_true. Qed.

Lemma alter_fixed {A} (f : A → A) (i : nat) (l : list A) : (∀ x, l !! i = Some x → f x = x) → alter f i l = l.
Proof.
  intros H. apply list_eq. intros j. rewrite list_lookup_alter. case_decide as E; [|done]. subst j.
  destruct (l !! i) as [x|] eqn:Ex; [|done]. cbn [fmap option_fmap option_map]. by rewrite H.
Qed.

Lemma price_fixed text x : price_change text = Some x → num_or_zero (JNum x) = x.
Proof.
  unfold price_change. assert (H : ∀ v, num_or_zero (JNum (num_or_zero v)) = num_or_zero v).
  { intros v. unfold num_or_zero. change (Number_of (JNum ?x)) with x. destruct (num_truthy (Number_of v)) eqn:E; [by rewrite E|done]. }
  destruct (is_empty text); [by intros [= <-]|]. destruct (isNaN _); [done|]. intros [= <-]. apply H.
Qed.

Lemma price_shows config i k f text x : price_fields !! k = Some f → price_change text = Some x →
  shows (updateTier config i (JObj [(f, JNum x)])) = alter (put_price k x) i (shows config) ∧
  object_tiers (updateTier config i (JObj [(f, JNum x)])).
Proof.
  intros Hk Hx%price_fixed. apply list_elem_of_lookup_2 in Hk as Hin. destruct (field_plain f Hin) as (H1 & H2 & H3).
  assert (Hnd : NoDup (map fst [(f, JNum x)])) by apply NoDup_singleton.
  apply update_shows; [done|]. intros t Ht _. unfold card_of, put_price. f_equal.
  - apply patch_conditions; [done..|]. cbn [obj_has]. by rewrite streq_sym, H1.
  - apply patch_price with f; [done..| |].
    + intros g _. cbn [obj_has]. by rewrite orb_false_r.
    + cbn [obj_get]. by rewrite streq_refl.
  - apply patch_label; [done..|]. cbn [obj_has]. by rewrite streq_sym, H3.
  - apply patch_mode; [done..|]. cbn [obj_has]. by rewrite streq_sym, H2.
Qed.

Lemma label_shows config i l :
  shows (updateTier config i (JObj [(js "label", JStr l)])) = alter (put_label l) i (shows config) ∧
  object_tiers (updateTier config i (JObj [(js "label", JStr l)])).
Proof.
  apply update_shows; [apply NoDup_singleton|]. intros t Ht _. unfold card_of, put_label. f_equal.
  - by apply patch_conditions; [|apply NoDup_singleton|].
  - by apply patch_prices; [|apply NoDup_singleton|].
  - by rewrite patched by (apply Ht || apply NoDup_singleton).
  - by apply patch_mode; [|apply NoDup_singleton|].
Qed.

Lemma mode_shows config i (timed : bool) :
  let patch := cache_mode_patch (if timed then CACHE_MODE_TIMED else CACHE_MODE_GENERIC) in
  shows (updateTier config i patch) = apply_card (SwitchCache i timed) (shows config) ∧ object_tiers (updateTier config i patch).
Proof.
  cbn zeta. cbn [apply_card]. unfold cache_mode_patch. apply update_shows; [destruct timed; apply (bool_decide_unpack _); vm_compute; exact I|].
  intros t Ht _. assert (Hnd : ∀ m : list (jsstr * jval), bool_decide (NoDup (map fst m)) = true → NoDup (map fst m)) by (intros m; apply bool_decide_eq_true).
  destruct timed; unfold card_of, put_mode, put_price; cbn [card_conditions card_prices card_label]; f_equal.
  1: by apply patch_conditions; [|apply Hnd|].
  1: by apply patch_prices; [|apply Hnd|].
  1: by apply patch_label; [|apply Hnd|].
  1: unfold getTierCacheMode; by rewrite patched by (apply Ht || by apply Hnd).
  1: by apply patch_conditions; [|apply Hnd|].
  - apply patch_price with (js "cache_create_1h_unit_cost"); [done|by apply Hnd|done|done| |done]. intros g Hg.
    destruct (field_plain g Hg) as (_ & H & _). change (streq CACHE_MODE_GENERIC CACHE_MODE_GENERIC) with true. cbn match.
    cbn [obj_has]. by rewrite H, orb_false_r.
  - by apply patch_label; [|apply Hnd|].
  - unfold getTierCacheMode. by rewrite patched by (apply Ht || by apply Hnd).
Qed.

Lemma conditions_shows config i (f : jval → option jval) g : object_tiers config →
  (∀ t, f t = match g (conditions_of t) with Some l => Some (conditions_patch l) | None => None end) →
  shows (update_from config i f) =
    alter (λ d, match g (card_conditions d) with Some l => put_conditions l d | None => d end) i (shows config) ∧
  object_tiers (update_from config i f).
Proof.
  intros Hc Hf. unfold update_from.
  assert (Hs : ∀ h, tiers_of config !! i = None ∨ (∃ t, tiers_of config !! i = Some t ∧ h (card_of t) = card_of t) → shows config = alter h i (shows config)).
  { intros h Hh. symmetry. apply alter_fixed. intros c. unfold shows. change (map card_of) with (fmap (M:=list) card_of).
    rewrite list_lookup_fmap. destruct Hh as [-> |(t & -> & Ht)]; [done|]. by intros [= <-]. }
  destruct (tiers_of config !! i) as [t|] eqn:E; cbn [mbind option_bind]; [|by split; [apply Hs; left|]].
  rewrite Hf. destruct (g (conditions_of t)) as [l|] eqn:Eg.
  - apply update_shows; [apply NoDup_singleton|]. intros u Hu Eu. assert (u = t) by congruence. subst u.
    change (card_conditions (card_of t)) with (conditions_of t). rewrite Eg. unfold card_of, put_conditions. f_equal.
    + unfold conditions_of. by rewrite patched by (apply Hu || apply NoDup_singleton).
    + by apply patch_prices; [|apply NoDup_singleton|].
    + by apply patch_label; [|apply NoDup_singleton|].
    + by apply patch_mode; [|apply NoDup_singleton|].
  - split; [|done]. apply Hs. right. exists t. split; [done|]. change (card_conditions (card_of t)) with (conditions_of t). by rewrite Eg.
Qed.

Lemma change_map {A} (l : list A) ci c : imap (λ i x, if Nat.eqb i ci then c else x) l = alter (λ _, c) ci l.
Proof.
  apply list_eq. intros j. rewrite list_lookup_imap, list_lookup_alter. destruct (Nat.eqb_spec j ci) as [->|].
  - by rewrite decide_True by done.
  - rewrite decide_False by done. by destruct (l !! j).
Qed.

Lemma short_prices k x config : price_fields !! k = None → ∀ i, alter (put_price k x) i (shows config) = shows config.
Proof.
  intros Hk i. apply alter_fixed. intros c Hc. unfold shows in Hc. apply list_lookup_fmap_Some in Hc as (t & -> & _).
  unfold card_of, put_price. cbn [card_conditions card_prices card_label card_mode]. f_equal. apply list_insert_ge. rewrite length_map.
  by apply lookup_ge_None.
Qed.

Lemma card_step_shows op config : object_tiers config →
  shows (card_step op config) = apply_card op (shows config) ∧ object_tiers (card_step op config).
Proof.
  intros Hc. destruct op as [|i|i k text|i l|i timed|i ci c|i ci|i].
  - apply add_shows.
  - by apply remove_shows.
  - cbn [card_step apply_card]. destruct (price_fields !! k) as [f|] eqn:Ek, (price_change text) as [x|] eqn:Ex; try done.
    + by eapply price_shows.
    + by rewrite short_prices.
  - apply label_shows.
  - apply mode_shows.
  - apply (conditions_shows config i _ (λ l, Some (alter (λ _, c) ci l)) Hc). intros t. unfold updateCondition. by rewrite change_map.
  - by apply (conditions_shows config i _ (λ l, Some (delete ci l)) Hc).
  - destruct (conditions_shows config i addCondition (λ l, if Nat.leb 2 (length l) then None else Some (l ++ [proposed l])) Hc) as [H Ho].
    + intros t. unfold addCondition. by destruct (Nat.leb 2 (length (conditions_of t))).
    + split; [|done]. cbn [card_step apply_card]. rewrite H. apply list_alter_ext; [|done]. intros d _.
      by destruct (Nat.leb 2 (length (card_conditions d))).
Qed.

(** C5. The form shows what its controls mean.  Start from any configuration
    whose tiers are objects, and use the controls of the form in any order: add
    and remove tiers, type a price (any of the nine), rename a tier, switch its
    kind of cache prices, and change, remove and add conditions.  The cards
    then shown are those an abstract list of cards has after the same
    operations: a price changes only if the text is a number, and then alone;
    the general kind of cache prices clears the one-hour price; a card has no
    third condition added; adding a tier gives the one before it a condition if
    it has none, removing one takes the conditions of the tier that becomes the
    last, the only tier is never removed, and nothing else changes. *)
Theorem form_refines ops config :
  object_tiers config →
  shows (fold_left (λ c op, card_step op c) ops config) = fold_left (λ cs op, apply_card op cs) ops (shows config).
Proof.
  revert config. induction ops as [|op ops IH]; intros config Hc; cbn [fold_left]; [done|].
  destruct (card_step_shows op config Hc) as [H Ho]. by rewrite IH, H.
Qed.

Definition sample_controls : list card_op :=
  [NewTier; TypePrice 2 4 (js "0.5"); TypePrice 2 0 (js "x"); SwitchCache 2 true; Rename 1 (js "mid"); NewCondition 1;
   ChangeCondition 1 0 (cond_obj (VCond (js "c") (js ">") (num_of_Z 10))); DropCondition 1 1; SwitchCache 0 false; DropTier 2].

Lemma form_refines_witness :
  shows (fold_left (λ c op, card_step op c) sample_controls (config_obj sample_tiers)) =
  fold_left (λ cs op, apply_card op cs) sample_controls (shows (config_obj sample_tiers)) ∧
  length (shows (fold_left (λ c op, card_step op c) sample_controls (config_obj sample_tiers))) = 2.
Proof.
  assert (H := form_refines sample_controls (config_obj sample_tiers)). split; [|rewrite H; [vm_compute; reflexivity|]];
    [apply H|]; (constructor; [|constructor; [|constructor]]);
    (eexists; split; [reflexivity|apply (bool_decide_unpack _); vm_compute; exact I]).
Defined.

Definition sample_ops : list form_op :=
  [AddTier; SetInput 2 (num_lit "0.5"); SetLabel 1 (js "mid"); SetConditions 1 [VCond (js "c") (js ">") (num_lit "10")]; RemoveTier 0].

(** ** Expressions the form writes can be read *)

(** The shape of a list of tiers, position by position. *)
Definition shape (vs : list vtier) : Prop :=
  vs ≠ [] ∧ ∀ i v, vs !! i = Some v → length vs ≠ 1 → (vconds v = [] ↔ S i = length vs).

Lemma config_ok_shape vs : config_ok vs ↔ Forall tier_ok vs ∧ shape vs.
Proof.
  unfold config_ok, shape. rewrite conditional_lookup. split.
  - intros (Hok & (Hne & Hc) & Hlast). split; [done|]. split; [done|]. intros i v Hi Hn.
    destruct Hlast as [?|(z & Hz & Hzc)]; [done|]. apply lookup_lt_Some in Hi as Hlt. split.
    + intros Hv. destruct (decide (S i = length vs)); [done|]. exfalso. apply (Hc i v Hi); [lia|done].
    + intros Hl. rewrite last_lookup, <- Hl in Hz. cbn in Hz. congruence.
  - intros (Hok & Hne & H). split; [done|]. split; [split; [done|]|].
    + intros i v Hi Hlt Hv. apply (H i v Hi) in Hv; lia.
    + destruct (decide (length vs = 1)) as [|Hn]; [by left|right]. destruct (last vs) as [z|] eqn:Ez.
      * exists z. split; [done|]. rewrite last_lookup in Ez. apply (H _ z Ez Hn). destruct vs; [done|]. cbn. lia.
      * by apply last_None in Ez.
Qed.

Lemma on_last_alter f vs : on_last f vs = alter f (pred (length vs)) vs.
Proof.
  unfold on_last. destruct (last vs) as [v|] eqn:El; [|by apply last_None in El as ->].
  rewrite (last_split _ _ El) at 2 3. rewrite length_app. cbn [length]. rewrite Nat.add_1_r. cbn [pred].
  apply list_eq. intros j. rewrite list_lookup_alter. case_decide as Hj.
  - subst j. by rewrite !lookup_app_r, Nat.sub_diag by done.
  - destruct (decide (j < length (removelast vs))); [by rewrite !lookup_app_l by done|].
    rewrite !lookup_app_r by lia. by destruct (j - length (removelast vs)) eqn:E; [lia|].
Qed.

(** What an operation must respect: numbers and labels that can be read, and
    conditions exactly on the tiers before the last. *)
Definition op_ok (vs : list vtier) (op : form_op) : Prop :=
  match op with
  | AddTier | RemoveTier _ => True
  | SetInput _ x | SetOutput _ x => readable num_char x
  | SetLabel _ l => l ≠ [] ∧ forallb not_quote l = true
  | SetConditions i cs => Forall cond_ok cs ∧ (length vs = 1 ∨ (cs = [] ↔ S i = length vs))
  end.

Lemma alter_lookup {A} (f : A → A) (i : nat) (l : list A) (j : nat) v :
  alter f i l !! j = Some v ↔ ∃ u, l !! j = Some u ∧ v = if decide (i = j) then f u else u.
Proof.
  rewrite list_lookup_alter. destruct (decide (i = j)) as [->|]; [rewrite fmap_Some; naive_solver|].
  split; [by exists v|]. by intros (u & Hu & ->).
Qed.

Lemma alter_ok f i vs : Forall tier_ok vs → shape vs → (∀ v, tier_ok v → tier_ok (f v)) →
  (∀ v, vs !! i = Some v → length vs ≠ 1 → (vconds (f v) = [] ↔ S i = length vs)) →
  Forall tier_ok (alter f i vs) ∧ shape (alter f i vs).
Proof.
  intros Hok [Hne Hs] Hf Hc. split; [|split].
  - apply Forall_lookup. intros j v (u & Hu & ->)%alter_lookup. pose proof (Forall_lookup_1 _ _ j _ Hok Hu). case_decide; auto.
  - intros E. apply Hne, nil_length_inv. by rewrite <- (length_alter f vs i), E.
  - intros j v (u & Hu & ->)%alter_lookup. rewrite length_alter. case_decide as Hj; [subst j; by apply Hc|by apply Hs].
Qed.

Lemma default_cond_ok : cond_ok default_cond.
Proof. split; [|split]; [right; right; by left|by left|]. apply readableb_ok. vm_compute. reflexivity. Qed.

Lemma fresh_tier_ok n : tier_ok (fresh_tier n).
Proof.
  assert (Hz : readable num_char nzero) by (apply readableb_ok; vm_compute; reflexivity).
  constructor; cbn [fresh_tier vconds vin vout vextra vlabel]; [constructor|done|done| |done|].
  - by repeat constructor.
  - split; [done|]. rewrite !forallb_app. apply andb_true_iff. split; [reflexivity|]. apply andb_true_iff. split; [|reflexivity].
    unfold string_of_Z. rewrite (proj2 (Z.ltb_ge _ _)) by lia.
    destruct (string_of_nonneg_spec (Z.of_nat (n + 1))) as (_ & Hd & _); [lia|].
    apply (forallb_impl is_digit not_quote); [|done]. intros c Hc. unfold is_digit, not_quote in *. bool_hyps. 
    apply negb_true_iff, N.eqb_neq. lia.
Qed.

Lemma set_conds_ok cs v : Forall cond_ok cs → tier_ok v → tier_ok (set_conds cs v).
Proof. intros Hcs []. by constructor. Qed.

Lemma add_tier_ok vs : Forall tier_ok vs → shape vs → Forall tier_ok (apply_op AddTier vs) ∧ shape (apply_op AddTier vs).
Proof.
  intros Hok [Hne Hs]. cbn [apply_op]. rewrite on_last_alter. set (g := λ v, _). set (ws := alter g _ vs).
  assert (Hl : length ws = length vs) by apply length_alter.
  assert (Hg : ∀ v, tier_ok v → tier_ok (g v) ∧ vconds (g v) ≠ []).
  { intros v Hv. unfold g. destruct (vconds v) eqn:E; [|by rewrite E]. split; [|done].
    apply set_conds_ok; [|done]. constructor; [apply default_cond_ok|constructor]. }
  split; [|split; [by intros [_ ?]%app_nil|]].
  - apply Forall_app. split; [|constructor; [apply fresh_tier_ok|constructor]]. apply Forall_lookup.
    intros j v (u & Hu & ->)%alter_lookup. pose proof (Forall_lookup_1 _ _ j _ Hok Hu). case_decide; [by apply Hg|done].
  - intros i v Hi _. rewrite length_app, Hl. cbn [length]. destruct (decide (i < length vs)) as [Hlt|Hge].
    + rewrite lookup_app_l in Hi by lia. split; [|lia]. intros Hv. exfalso. revert Hv.
      apply alter_lookup in Hi as (u & Hu & ->). case_decide as Hj; [by apply Hg, (Forall_lookup_1 _ _ i _ Hok)|].
      intros Hv. apply (Hs i u Hu) in Hv; lia.
    + rewrite lookup_app_r in Hi by lia. apply lookup_lt_Some in Hi as Hb. cbn in Hb.
      assert (i = length vs) by lia. subst i. rewrite Hl, Nat.sub_diag in Hi. injection Hi as <-. cbn. split; [lia|done].
Qed.

Lemma remove_tier_ok i vs : Forall tier_ok vs → shape vs →
  Forall tier_ok (apply_op (RemoveTier i) vs) ∧ shape (apply_op (RemoveTier i) vs).
Proof.
  intros Hok Hs. pose proof (apply_op_nonempty (RemoveTier i) vs (proj1 Hs)) as Hne'. cbn [apply_op] in *.
  destruct (Nat.leb_spec (length vs) 1); [done|]. destruct Hs as [Hne Hs]. rewrite on_last_alter in *. set (ws := delete i vs) in *.
  destruct (length_delete_le i vs) as [Hl Hl']. fold ws in Hl, Hl'.
  assert (Hws : ∀ j v, ws !! j = Some v → ∃ j', vs !! j' = Some v ∧ j' ≤ S j ∧ (j' = S j → S (length ws) = length vs)).
  { intros j v. unfold ws. rewrite list_lookup_delete. intros Hj. eexists; split; [exact Hj|]. case_decide; [lia|]. split; [lia|]. intros _.
    apply lookup_lt_Some in Hj. rewrite length_delete by (apply lookup_lt_is_Some; lia). lia. }
  split; [|split; [done|]].
  - apply Forall_lookup. intros j v (u & Hu & ->)%alter_lookup. destruct (Hws j u Hu) as (j' & Hj' & _).
    pose proof (Forall_lookup_1 _ _ j' _ Hok Hj'). case_decide; [apply set_conds_ok; [constructor|done]|done].
  - intros j v (u & Hu & ->)%alter_lookup Hn. rewrite length_alter in *. apply lookup_lt_Some in Hu as Hlt. case_decide as Hjl.
    + cbn. split; [lia|done].
    + destruct (Hws j u Hu) as (j' & Hj' & Hle & He). split; [|lia]. intros Hv. apply (Hs j' u Hj') in Hv; lia.
Qed.

Lemma op_keeps_config op vs : config_ok vs → op_ok vs op → config_ok (apply_op op vs).
Proof.
  rewrite !config_ok_shape. intros [Hok Hs] Ho. pose proof Hs as [Hne Hs'].
  destruct op as [|i|i x|i x|i l|i cs]; [by apply add_tier_ok|by apply remove_tier_ok|..]; cbn [op_ok apply_op] in *;
    apply alter_ok; try done; try (intros v; destruct 1; by constructor); try (intros v Hv; by apply (Hs' i v Hv)).
  - intros v. destruct Ho as [Hcs _]. by apply set_conds_ok.
  - intros v _ Hn. by destruct Ho as [_ [?|?]].
Qed.

(** A sequence of operations each of which respects [op_ok] where it is made. *)
Fixpoint ops_ok (vs : list vtier) (ops : list form_op) : Prop :=
  match ops with
  | [] => True
  | op :: ops' => op_ok vs op ∧ ops_ok (apply_op op vs) ops'
  end.

Lemma ops_keep_config ops : ∀ vs, config_ok vs → ops_ok vs ops → config_ok (fold_left (λ l op, apply_op op l) ops vs).
Proof.
  induction ops as [|op ops IH]; intros vs Hvs Hops; cbn [fold_left]; [done|]. destruct Hops as [Ho Hops].
  apply IH; [by apply op_keeps_config|done].
Qed.

(** ** Opening and switching *)

Lemma config_nonempty vs : config_ok vs → vs ≠ [].
Proof. intros (_ & Hc & _). by destruct vs. Qed.


(** The form never leaves the text behind: starting from tiers that can be
    read, any sequence of form operations with readable numbers and labels and
    conditions on every tier but the last gives a configuration whose written
    expression is read back as that configuration. *)
Theorem form_stays_readable ops vs :
  config_ok vs → ops_ok vs ops →
  let config := fold_left (λ c op, form_step op c) ops (config_obj vs) in
  tryParseVisualConfig (generateExprFromVisualConfig config) = Some config.
Proof.
  intros Hvs Hops. cbn zeta. rewrite form_run by by apply config_nonempty. by apply visual_reads, ops_keep_config.
Qed.

Lemma sample_ops_ok : ops_ok sample_tiers sample_ops.
Proof.
  cbn [ops_ok sample_ops op_ok]. split; [done|]. split; [apply readableb_ok; vm_compute; reflexivity|].
  split; [split; [discriminate|reflexivity]|]. split; [|done]. split.
  - constructor; [|constructor]. split; [right; by left|]. split; [right; right; by left|].
    apply readableb_ok. vm_compute. reflexivity.
  - right. split; [discriminate|]. vm_compute. discriminate.
Qed.

Lemma form_stays_readable_witness :
  let config := fold_left (λ c op, form_step op c) sample_ops (config_obj sample_tiers) in
  tryParseVisualConfig (generateExprFromVisualConfig config) = Some config.
Proof. apply (form_stays_readable sample_ops sample_tiers); [exact sample_tiers_ok|exact sample_ops_ok]. Defined.

Lemma join_ends vs : vs ≠ [] → ∃ u, join (js " : ") (map part_text vs) = u ++ [41%N].
Proof.
  induction vs as [|v [|w vs] IH]; intros Hne; [done| |].
  - cbn [map join]. unfold part_text, call_text. eexists. by rewrite !app_assoc.
  - destruct IH as [u Hu]; [done|]. cbn [map] in *. rewrite join_cons, Hu. eexists. by rewrite !app_assoc.
Qed.

(** The written expression: no blank at either end, no outer parentheses. *)
Lemma written_ends vs : config_ok vs →
  let t := generateExprFromVisualConfig (config_obj vs) in t ≠ [] ∧ trim t = t ∧ unwrapOuterParens (Some t) = t.
Proof.
  intros Hok. cbn zeta. rewrite config_written by done. pose proof (config_nonempty vs Hok) as Hne.
  destruct (join_ends vs Hne) as [u Hu].
  assert (Hend : ∃ u d, config_text vs = u ++ [d] ∧ is_ws d = false).
  { unfold config_text, zero_tail. rewrite Hu. destruct vs as [|v [|w vs]]; [done| |by exists u, 41%N; rewrite app_nil_r].
    destruct (vconds v); [by exists u, 41%N; rewrite app_nil_r|]. exists ((u ++ [41%N]) ++ js " : p * 0 + c * "), 48%N.
    split; [|done]. rewrite <- (app_assoc (u ++ [41%N])). reflexivity. }
  assert (Hhead : ∃ c t, config_text vs = c :: t ∧ is_ws c = false ∧ c ≠ 40%N).
  { destruct Hok as (Hvs & _). destruct vs as [|v vs]; [done|]. inversion Hvs as [|? ? Hv _]. subst.
    destruct (part_head v Hv) as (c & x & Hp & Hc). unfold config_text. cbn [map]. rewrite join_concat, Hp. eexists _, _. split; [reflexivity|].
    destruct (vconds v); [by subst|]. unfold starts_condition in Hc. rewrite !orb_true_iff, !N.eqb_eq in Hc. by destruct Hc as [[<-|<-]|<-]. }
  destruct Hend as (u' & d & Hd & Hdw), Hhead as (c & t & Hc & Hcw & Hp).
  assert (Ht : trim (config_text vs) = config_text vs).
  { apply trim_trimmed. rewrite Hc. split; [done|]. exists d. split; [|done]. by rewrite <- Hc, Hd, last_snoc. }
  split; [by rewrite Hc|]. split; [done|]. unfold unwrapOuterParens. cbn [from_option id]. rewrite Ht.
  apply unwrap_loop_stop. unfold hasFullOuterParens. rewrite Hc. change (js "(") with [40%N]. unfold starts_with. cbn [strip_prefix].
  destruct (N.eqb_spec 40 c); [congruence|done].
Qed.

(** ** The model's expression follows the editor *)

(** What the user does with the model that is open. *)
Inductive handled (ed ed' : editor) : Prop :=
  | handled_visual c : visual_change c ed = Some ed' → handled ed ed'
  | handled_raw t : raw_change t ed = Some ed' → handled ed ed'
  | handled_groups gs : groups_change gs ed = Some ed' → handled ed ed'
  | handled_switch b : mode_switch b ed = Some ed' → handled ed ed'
  | handled_preset e gs : apply_preset e gs ed = Some ed' → handled ed ed'.

Inductive reached : editor → Prop :=
  | reached_mount b r ed : mount b r = Some ed → reached ed
  | reached_select b r ed ed' : reached ed → select_model b r ed = Some ed' → reached ed'
  | reached_handled ed ed' : reached ed → handled ed ed' → reached ed'.

(** Every handler ends with the effects, and leaves the saved expression to them. *)
Lemma handled_commits ed ed' : handled ed ed' → ∃ after, billing after = billing ed ∧ commit ed after = Some ed'.
Proof.
  intros [c H|t H|gs H|b H|e gs H].
  - by eexists; split; [|exact H].
  - unfold raw_change in H. destruct (splitBillingExprAndRequestRules (Some t)) as [[? ?]|]; [|done]. by eexists; split; [|exact H].
  - by eexists; split; [|exact H].
  - unfold mode_switch in H. destruct b; [|by eexists; split; [|exact H]].
    destruct (splitBillingExprAndRequestRules _) as [[? r]|]; [|done]. cbn [mbind option_bind] in H.
    destruct (form_groups r); [|done]. by eexists; split; [|exact H].
  - unfold apply_preset in H. by destruct (tryParseVisualConfig e); (eexists; split; [|exact H]).
Qed.

(** The model has the expression of the view, or the view has the expression
    that opening the model's expression would give it. *)
Definition synced (ed : editor) : Prop :=
  effectiveExpr ed = Some (billing ed) ∨ effectiveExpr ed = effectiveExpr (open_model ed).

(** What opening gives depends on the expression only. *)
Lemma open_model_billing ed ed' : billing ed = billing ed' → effectiveExpr (open_model ed) = effectiveExpr (open_model ed').
Proof. intros H. unfold open_model. rewrite H. by destruct (tryParseVisualConfig _); [|destruct (is_empty _)]. Qed.

Lemma write_expr_synced e ed : effectiveExpr ed = Some e → synced (write_expr e ed).
Proof.
  intros He. left. unfold write_expr. destruct (streq e (billing ed)) eqn:E; [apply streq_true in E as ->; exact He|exact He].
Qed.

Lemma commit_synced before after ed :
  effectiveExpr before = Some (billing after) ∨ effectiveExpr before = effectiveExpr (open_model after) →
  commit before after = Some ed → synced ed.
Proof.
  intros Hb. unfold commit. destruct (if streq _ _ then _ else _) as [gs|]; [|done]. cbn [mbind option_bind].
  destruct (effectiveExpr before) as [e0|]; [|done].
  cbn [mbind option_bind]. set (a := Editor _ _ _ gs _ _). destruct (effectiveExpr a) as [e1|] eqn:E1; [|done].
  cbn [mbind option_bind]. intros [= <-]. destruct (streq e0 e1) eqn:Es; [|by apply write_expr_synced].
  apply streq_true in Es as <-. unfold synced. rewrite E1. destruct Hb as [Hb|Hb]; [by left|right].
  rewrite Hb. by apply open_model_billing.
Qed.

Lemma handler_synced ed after ed' : synced ed → billing after = billing ed → commit ed after = Some ed' → synced ed'.
Proof.
  intros Hs Hb. apply commit_synced. rewrite Hb. destruct Hs as [Hs|Hs]; [by left|right]. rewrite Hs. by apply open_model_billing.
Qed.

Lemma select_synced before ed : commit before (open_model before) = Some ed → synced ed.
Proof.
  unfold commit. destruct (if streq _ _ then _ else _) as [gs|]; [|done]. cbn [mbind option_bind].
  destruct (effectiveExpr before) as [e0|]; [|done]. cbn [mbind option_bind]. set (a := Editor _ _ _ gs _ _).
  destruct (effectiveExpr a) as [e1|] eqn:E1; [|done]. cbn [mbind option_bind]. intros [= <-].
  destruct (streq e0 e1); [|by apply write_expr_synced]. right.
  assert (Ha : effectiveExpr a = effectiveExpr (open_model before)) by done. rewrite Ha. apply open_model_billing.
  unfold a, open_model. by destruct (tryParseVisualConfig _); [|destruct (is_empty _)].
Qed.

(** A commit that changes the expression of the view writes it. *)
Lemma commit_writes before after ed : commit before after = Some ed → effectiveExpr ed ≠ effectiveExpr before →
  effectiveExpr ed = Some (billing ed).
Proof.
  unfold commit. destruct (if streq _ _ then _ else _) as [gs|]; [|done]. cbn [mbind option_bind].
  destruct (effectiveExpr before) as [e0|]; [|done]. cbn [mbind option_bind]. set (a := Editor _ _ _ gs _ _).
  destruct (effectiveExpr a) as [e1|] eqn:E1; [|done]. cbn [mbind option_bind]. intros [= <-] Hne.
  destruct (streq e0 e1) eqn:Es; [apply streq_true in Es; congruence|].
  unfold write_expr in *. destruct (streq e1 (billing a)) eqn:Eb; [apply streq_true in Eb; congruence|exact E1].
Qed.

(** C6. The saved expression follows the view.  The expression of a view is
    the one written from the tiers of the form, or the billing part of the text.
    In every state the editor can reach, through opening and selecting models,
    editing the form, the text or the rules, switching views and applying
    presets: the model's saved expression is that of the view, or the view has
    the expression that opening the saved one would give it, as after a model
    with a differently spaced text was selected.  And whenever such an edit,
    switch or preset changes the expression of the view, the new expression is
    saved. *)
Theorem editor_synced ed :
  reached ed →
  (effectiveExpr ed = Some (billing ed) ∨ effectiveExpr ed = effectiveExpr (open_model ed)) ∧
  ∀ ed', handled ed ed' → effectiveExpr ed' ≠ effectiveExpr ed → effectiveExpr ed' = Some (billing ed').
Proof.
  intros Hr. split; [change (synced ed)|].
  - induction Hr as [b r ed H|b r ed ed' _ IH H|ed ed' _ IH (after & Hb & H)%handled_commits].
    + unfold mount in H. destruct (form_groups r) as [gs|]; [|done]. cbn [mbind option_bind] in H.
      eapply commit_synced; [|exact H]. left. cbn [effectiveExpr visual]. unfold write_expr.
      destruct (streq _ _) eqn:E; [apply streq_true in E; by f_equal|done].
    + unfold select_model in H. destruct (if streq _ _ then _ else _) as [gs|]; [|done]. cbn [mbind option_bind] in H.
      by eapply select_synced.
    + by eapply handler_synced.
  - intros ed' (after & _ & H)%handled_commits. by eapply commit_writes.
Qed.

Definition fresh_editor : editor := Editor true createDefaultVisualConfig [] [] (jsq "tier('base', p * 0 + c * 0)") [].

Lemma editor_synced_witness :
  (effectiveExpr fresh_editor = Some (billing fresh_editor) ∨ effectiveExpr fresh_editor = effectiveExpr (open_model fresh_editor)) ∧
  ∃ ed', visual_change (config_obj sample_tiers) fresh_editor = Some ed' ∧ effectiveExpr ed' = Some (billing ed').
Proof.
  assert (Hr : reached fresh_editor) by (apply (reached_mount [] []); vm_compute; reflexivity).
  destruct (editor_synced fresh_editor Hr) as [H1 H2]. split; [exact H1|].
  destruct (visual_change (config_obj sample_tiers) fresh_editor) as [ed'|] eqn:E; [|vm_compute in E; discriminate].
  exists ed'. split; [reflexivity|]. apply H2; [exact (handled_visual _ _ _ E)|].
  vm_compute in E. injection E as <-. vm_compute. discriminate.
Defined.

(** ** Switching views *)

(** Text and rules the other view can take apart again: without rules no
    product at the top level of the text, with rules balanced parentheses and
    a text that does not read as a rule. *)
Definition separable (t : jsstr) (gs : list group) : Prop :=
  forallb rt_group gs = true ∧
  if is_empty (buildRequestRuleExpr gs) then length (splitTopLevelMultiply t) ≤ 1
  else balanced t = true ∧ is_rule_part (40%N :: t ++ [41%N]) = Some false.

Lemma split_raw vs gs : config_ok vs →
  let t := generateExprFromVisualConfig (config_obj vs) in separable t gs →
  splitBillingExprAndRequestRules (Some (str_or (combineBillingExpr (Some t) (Some (buildRequestRuleExpr gs))) t)) =
  Some (t, buildRequestRuleExpr gs).
Proof.
  intros Hok. cbn zeta. destruct (written_ends vs Hok) as (Hne & Htrim & Hun). set (t := generateExprFromVisualConfig _) in *.
  intros [Hrt Hsep]. destruct (is_empty (buildRequestRuleExpr gs)) eqn:Er.
  - apply is_empty_true in Er. rewrite Er. unfold combineBillingExpr. cbn [from_option id]. rewrite Htrim.
    assert (E : is_empty t = false) by (by destruct t). rewrite E. change (trim []) with (@nil N). cbn [is_empty]. unfold str_or. rewrite E.
    unfold splitBillingExprAndRequestRules. cbn [from_option id]. rewrite Htrim, E. by rewrite (proj2 (Nat.leb_le _ _) Hsep).
  - assert (Hr : buildRequestRuleExpr gs ≠ []) by (intros E; by rewrite E in Er). destruct Hsep as [Hb Hp].
    pose proof (split_combine t gs) as H. rewrite Htrim in H. specialize (H Hne Hb Hp Hrt Hr). rewrite Hun in H.
    unfold str_or. destruct (is_empty (combineBillingExpr _ _)) eqn:E; [|done]. exfalso. apply is_empty_true in E.
    rewrite E in H. injection H as H _. done.
Qed.

Lemma form_groups_built gs : forallb rt_group gs = true →
  form_groups (buildRequestRuleExpr gs) = Some (map ungroup (omap view_group gs)).
Proof. intros H. unfold form_groups, buildRequestRuleExpr. by rewrite (parse_product _ _ (groups_read gs H)). Qed.

(** Switching views loses nothing: from the form to the text and back, the
    tiers are the same, the model's expression and its rules never change on
    the way, and the rules shown are the ones their text stands for.  The text
    must be one the rules can be told apart from. *)
Theorem switch_views vs gs raw :
  config_ok vs →
  let t := generateExprFromVisualConfig (config_obj vs) in let r := buildRequestRuleExpr gs in
  separable t gs →
  ∃ ed1 ed2, mode_switch false (Editor true (config_obj vs) raw gs t r) = Some ed1 ∧ billing ed1 = t ∧ rules ed1 = r ∧
             mode_switch true ed1 = Some ed2 ∧ visual ed2 = true ∧ visualConfig ed2 = config_obj vs ∧
             billing ed2 = t ∧ rules ed2 = r ∧ ruleGroups ed2 = map ungroup (omap view_group gs).
Proof.
  intros Hok t r Hsep. pose proof (split_raw vs gs Hok Hsep) as Hsplit. fold t r in Hsplit. destruct Hsep as [Hrt _].
  set (raw1 := str_or _ t) in Hsplit. exists (Editor false (config_obj vs) raw1 gs t r), (Editor true (config_obj vs) raw1 (map ungroup (omap view_group gs)) t r).
  assert (H1 : mode_switch false (Editor true (config_obj vs) raw gs t r) = Some (Editor false (config_obj vs) raw1 gs t r)).
  { unfold mode_switch, commit. cbn [visualConfig ruleGroups rules billing visual rawExpr]. fold t r raw1. rewrite streq_refl. cbn [mbind option_bind].
    cbn [effectiveExpr visual visualConfig rawExpr mbind option_bind]. fold t. rewrite Hsplit. cbn. by rewrite streq_refl. }
  assert (H2 : mode_switch true (Editor false (config_obj vs) raw1 gs t r) = Some (Editor true (config_obj vs) raw1 (map ungroup (omap view_group gs)) t r)).
  { unfold mode_switch, commit. cbn [visualConfig ruleGroups rules billing visual rawExpr]. rewrite Hsplit. cbn [mbind option_bind].
    unfold r. rewrite form_groups_built by done. cbn [mbind option_bind]. fold r. rewrite streq_refl. cbn [mbind option_bind].
    assert (Hp : tryParseVisualConfig t = Some (config_obj vs)) by by apply visual_reads. rewrite !Hp. cbn [from_option id]. cbn [effectiveExpr visual visualConfig rawExpr]. rewrite Hsplit.
    cbn [fmap option_fmap option_map fst mbind option_bind]. fold t. by rewrite streq_refl. }
  rewrite H1, H2. done.
Qed.

Lemma switch_views_witness :
  let t := generateExprFromVisualConfig (config_obj sample_tiers) in let r := buildRequestRuleExpr sample_groups in
  ∃ ed1 ed2, mode_switch false (Editor true (config_obj sample_tiers) [] sample_groups t r) = Some ed1 ∧ billing ed1 = t ∧ rules ed1 = r ∧
             mode_switch true ed1 = Some ed2 ∧ visual ed2 = true ∧ visualConfig ed2 = config_obj sample_tiers ∧
             billing ed2 = t ∧ rules ed2 = r ∧ ruleGroups ed2 = map ungroup (omap view_group sample_groups).
Proof.
  apply (switch_views sample_tiers sample_groups []); [exact sample_tiers_ok|]. split; vm_compute; [reflexivity|split; reflexivity].
Defined.

(** ** What is lost *)

(** A single tier is read without the check several tiers get.  A price
    written as a difference is accepted by the reader's pattern, is not a
    number, and becomes zero: only opening the model rewrites its
    expression. *)
Theorem single_tier_price_lost :
  let stored := jsq "tier('base', p * 5-2 + c * 3)" in
  ∃ ed, mount stored [] = Some ed ∧ visual ed = true ∧ billing ed = jsq "tier('base', p * 0 + c * 3)".
Proof. exists (default fresh_editor (mount (jsq "tier('base', p * 5-2 + c * 3)") [])). split_and!; vm_compute; reflexivity. Qed.

(** A tier before the last whose conditions were removed in the form gives
    a text that is no expression: two calls joined by a colon. *)
Theorem cleared_condition_breaks :
  generateExprFromVisualConfig (form_step (SetConditions 0 []) (config_obj
    [VTier [default_cond] (num_lit "1") (num_lit "2") (js "a") (repeat nzero 7);
     VTier [] (num_lit "3") (num_lit "4") (js "b") (repeat nzero 7)])) =
  jsq "tier('a', p * 1 + c * 2) : tier('b', p * 3 + c * 4)".
Proof. vm_compute. reflexivity. Qed.

(** Switching to the form replaces an expression the form cannot show by
    the default one, whose prices are zero; the text is gone when the user
    switches back. *)
Theorem switch_resets_price :
  ∃ ed1 ed2 ed3, mount (js "max(p, c) * 2") [] = Some ed1 ∧ billing ed1 = js "max(p, c) * 2" ∧
    mode_switch true ed1 = Some ed2 ∧ billing ed2 = jsq "tier('base', p * 0 + c * 0)" ∧
    mode_switch false ed2 = Some ed3 ∧ rawExpr ed3 = jsq "tier('base', p * 0 + c * 0)".
Proof.
  set (ed1 := default fresh_editor (mount (js "max(p, c) * 2") [])). set (ed2 := default fresh_editor (mode_switch true ed1)).
  exists ed1, ed2, (default fresh_editor (mode_switch false ed2)). split_and!; vm_compute; reflexivity.
Qed.
