(* ===== verification/Render.v ===== *)
(** * Amounts, currencies and colours

    The display helpers of [web/src/helpers/render.jsx] that other components
    build on: abbreviated numbers, quota in the currency chosen in the browser's
    local storage, the group ratio in force, and the colour a model name is
    given.  [getItem] is [localStorage.getItem]; [t] is the translation
    function.  A value that is read from the stored status object stays a JSON
    value until the code uses it as a number or as a text. *)

From S2P Require Import Prelude JsString JsNumber Json JsObject.

(** ** Colours *)

Module Colors.

Definition colors : list jsstr :=
  map js ["amber"; "blue"; "cyan"; "green"; "grey"; "indigo"; "light-blue"; "lime"; "orange"; "pink"; "purple"; "red";
          "teal"; "violet"; "yellow"]%string.

Definition baseColors : list jsstr :=
  map js ["#1664FF"; "#1AC6FF"; "#FF8A00"; "#3CC780"; "#7442D4"; "#FFC400"; "#304D77"; "#B48DEB"; "#009488"; "#FF7DDA"]%string.

Definition extendedColors : list jsstr :=
  map js ["#1664FF"; "#B2CFFF"; "#1AC6FF"; "#94EFFF"; "#FF8A00"; "#FFCE7A"; "#3CC780"; "#B9EDCD"; "#7442D4"; "#DDC5FA";
          "#FFC400"; "#FAE878"; "#304D77"; "#8B959E"; "#B48DEB"; "#EFE3FF"; "#009488"; "#59BAA8"; "#FF7DDA"; "#FFCFEE"]%string.

Definition modelColorMap : list (jsstr * jsstr) :=
  map (λ e, (js e.1, js e.2))
   [("dall-e", "rgb(147,112,219)"); ("dall-e-3", "rgb(153,50,204)"); ("gpt-3.5-turbo", "rgb(184,227,167)");
    ("gpt-3.5-turbo-0613", "rgb(60,179,113)"); ("gpt-3.5-turbo-1106", "rgb(32,178,170)");
    ("gpt-3.5-turbo-16k", "rgb(149,252,206)"); ("gpt-3.5-turbo-16k-0613", "rgb(119,255,214)");
    ("gpt-3.5-turbo-instruct", "rgb(175,238,238)"); ("gpt-4", "rgb(135,206,235)"); ("gpt-4-0613", "rgb(100,149,237)");
    ("gpt-4-1106-preview", "rgb(30,144,255)"); ("gpt-4-0125-preview", "rgb(2,177,236)");
    ("gpt-4-turbo-preview", "rgb(2,177,255)"); ("gpt-4-32k", "rgb(104,111,238)"); ("gpt-4-32k-0613", "rgb(61,71,139)");
    ("gpt-4-all", "rgb(65,105,225)"); ("gpt-4-gizmo-*", "rgb(0,0,255)"); ("gpt-4-vision-preview", "rgb(25,25,112)");
    ("text-ada-001", "rgb(255,192,203)"); ("text-babbage-001", "rgb(255,160,122)"); ("text-curie-001", "rgb(219,112,147)");
    ("text-davinci-003", "rgb(219,112,147)"); ("text-davinci-edit-001", "rgb(255,105,180)");
    ("text-embedding-ada-002", "rgb(255,182,193)"); ("text-embedding-v1", "rgb(255,174,185)");
    ("text-moderation-latest", "rgb(255,130,171)"); ("text-moderation-stable", "rgb(255,160,122)");
    ("tts-1", "rgb(255,140,0)"); ("tts-1-1106", "rgb(255,165,0)"); ("tts-1-hd", "rgb(255,215,0)");
    ("tts-1-hd-1106", "rgb(255,223,0)"); ("whisper-1", "rgb(245,245,220)"); ("claude-3-opus-20240229", "rgb(255,132,31)");
    ("claude-3-sonnet-20240229", "rgb(253,135,93)"); ("claude-3-haiku-20240307", "rgb(255,175,146)")]%string.

(** The 32-bit integer an operand of [<<] or [&] is converted to. *)
Definition to_int32 (z : Z) : Z :=
  let u := (z mod 2 ^ 32)%Z in if (u <? 2 ^ 31)%Z then u else (u - 2 ^ 32)%Z.

(** One round of the loop: [hash = (hash << 5) - hash + code; hash = hash & hash]. *)
Definition hash_step (hash : Z) (c : N) : Z :=
  to_int32 (to_int32 (hash * 32) - hash + Z.of_N c).
Definition name_hash (modelName : jsstr) : Z := Z.abs (fold_left hash_step modelName 0%Z).

(** [None] is a read past the end of the palette. *)
Definition modelToColor (modelName : jsstr) : option jsstr :=
  match assoc_get modelColorMap modelName with
  | Some c => Some c
  | None =>
    let colorPalette := if (10 <? length modelName) then extendedColors else baseColors in
    colorPalette !! Z.to_nat (name_hash modelName mod Z.of_nat (length colorPalette))
  end.

Definition stringToColor (str : jsstr) : option jsstr :=
  let sum := fold_left (λ a c, a + Z.of_N c)%Z str 0%Z in
  colors !! Z.to_nat (sum mod Z.of_nat (length colors)).

Lemma palette_hit (l : list jsstr) (z : Z) : l ≠ [] → is_Some (l !! Z.to_nat (z mod Z.of_nat (length l))).
Proof.
  intros Hl. apply lookup_lt_is_Some. destruct l as [|x l]; [done|].
  pose proof (Z.mod_pos_bound z (Z.of_nat (length (x :: l)))). cbn [length] in *. lia.
Qed.

Lemma to_int32_range z : (- 2 ^ 31 ≤ to_int32 z < 2 ^ 31)%Z.
Proof.
  unfold to_int32. pose proof (Z.mod_pos_bound z (2 ^ 32)).
  destruct (Z.ltb_spec (z mod 2 ^ 32) (2 ^ 31)); lia.
Qed.

Lemma hash_range s h : (- 2 ^ 31 ≤ h < 2 ^ 31)%Z → (- 2 ^ 31 ≤ fold_left hash_step s h < 2 ^ 31)%Z.
Proof. intros H. apply fold_left_inv; [done|]. intros. apply to_int32_range. Qed.
End Colors.

(** ** Amounts *)

Section Money.
Context (getItem : jsstr → option jsstr) (t : jsstr → list (jsstr * jval) → jsstr).

Definition renderNumber (num : num) : jval :=
  if nle (num_of_Z 1000000000) num then JStr (toFixed 1 (ndiv num (num_of_Z 1000000000)) ++ js "B")
  else if nle (num_of_Z 1000000) num then JStr (toFixed 1 (ndiv num (num_of_Z 1000000)) ++ js "M")
  else if nle (num_of_Z 10000) num then JStr (toFixed 1 (ndiv num (num_of_Z 1000)) ++ js "k")
  else JNum num.

(** [localStorage.getItem('quota_display_type') || 'USD'] *)
Definition getQuotaDisplayType : jsstr :=
  match getItem (js "quota_display_type") with
  | Some (c :: s) => c :: s
  | _ => js "USD"
  end.
Definition display_type_is (s : string) : bool := streq getQuotaDisplayType (js s).

(** The stored status object: [None] when it is missing or does not parse, the
    cases in which the surrounding [try] keeps the defaults. *)
Definition stored_status : option jval :=
  match getItem (js "status") with
  | Some (c :: s) => parse (c :: s)
  | _ => None
  end.
(** [s?.field || d] inside such a [try] *)
Definition status_or (field : string) (d : jval) : jval :=
  match stored_status with
  | Some s => js_or (read s (js field)) d
  | None => d
  end.

Definition renderQuotaNumberWithDigit (v : jval) (digits : nat) : jval :=
  match v with
  | JNum x =>
    if isNaN x then JNum nzero
    else
      let num := toFixed digits x in
      if display_type_is "CNY" then JStr (js "¥" ++ num)
      else if display_type_is "USD" then JStr (js "$" ++ num)
      else if display_type_is "CUSTOM" then
        JStr (String_of (status_or "custom_currency_symbol" (JStr (js "¤"))) ++ num)
      else JStr num
  | _ => JNum nzero
  end.

(** [-1] of [indexOf] is [None] here. *)
Definition renderNumberWithPoint (v : option num) : jsstr :=
  match v with
  | None => []
  | Some x =>
    let num := toFixed 2 x in
    if nle (num_of_Z 100000) (Number_of_string num) then
      let '(wholePart, decimalPart) :=
        match find_index (N.eqb 46) num with
        | Some i => (take i num, drop i num)
        | None => (num, [])
        end in
      slice_list wholePart 0 2 ++ js ".." ++ slice_list wholePart (-2) (Z.of_nat (length wholePart)) ++ decimalPart
    else num
  end.

(** [parseFloat] of the stored unit; a missing entry is read as the text [null]. *)
Definition getQuotaPerUnit : num := parseFloat (default (js "null") (getItem (js "quota_per_unit"))).

Definition renderUnitWithQuota (quota : jval) : num := nmul getQuotaPerUnit (parseFloat (String_of quota)).

Definition getQuotaWithUnit (quota : num) (digits : nat) : jsstr := toFixed digits (ndiv quota getQuotaPerUnit).

Definition renderQuotaWithAmount (amount : jval) : jval :=
  if display_type_is "TOKENS" then renderNumber (renderUnitWithQuota amount)
  else
    let numericAmount := Number_of amount in
    let formattedAmount := if isFinite numericAmount then toFixed 2 numericAmount else String_of amount in
    if display_type_is "CNY" then JStr (js "¥" ++ formattedAmount)
    else if display_type_is "CUSTOM" then
      JStr (String_of (status_or "custom_currency_symbol" (JStr (js "¤"))) ++ formattedAmount)
    else JStr (js "$" ++ formattedAmount).

(** [{ symbol, rate, type }] *)
Definition getCurrencyConfig : jval * jval * jsstr :=
  if display_type_is "CNY" then
    (JStr (js "¥"),
     match stored_status with Some s => js_or (read s (js "usd_exchange_rate")) (JNum (num_of_Z 7)) | None => JNum (num_of_Z 1) end,
     getQuotaDisplayType)
  else if display_type_is "CUSTOM" then
    (match stored_status with Some s => js_or (read s (js "custom_currency_symbol")) (JStr (js "¤")) | None => JStr (js "$") end,
     status_or "custom_currency_exchange_rate" (JNum (num_of_Z 1)),
     getQuotaDisplayType)
  else (JStr (js "$"), JNum (num_of_Z 1), getQuotaDisplayType).

Definition convertUSDToCurrency (usdAmount : num) (digits : nat) : jsstr :=
  let '(symbol, rate, _) := getCurrencyConfig in
  String_of symbol ++ toFixed digits (nmul usdAmount (Number_of rate)).

(** The symbol and the value [renderQuota] shows. *)
Definition quota_value (quota : num) : jsstr * num :=
  let resultUSD := ndiv quota getQuotaPerUnit in
  if display_type_is "CNY" then
    (js "¥", nmul resultUSD (Number_of (status_or "usd_exchange_rate" (JNum (num_of_Z 1)))))
  else if display_type_is "CUSTOM" then
    (String_of (status_or "custom_currency_symbol" (JStr (js "¤"))),
     nmul resultUSD (Number_of (status_or "custom_currency_exchange_rate" (JNum (num_of_Z 1)))))
  else (js "$", resultUSD).

(** [Math.pow(10, -digits)] *)
Definition min_value (digits : nat) : num := num_of_dec false 1 (- Z.of_nat digits).

Definition renderQuota (quota : num) (digits : nat) : jval :=
  if display_type_is "TOKENS" then renderNumber quota
  else
    let '(symbol, value) := quota_value quota in
    let fixedResult := toFixed digits value in
    if neq (parseFloat fixedResult) nzero && nlt nzero quota && nlt nzero value
    then JStr (symbol ++ toFixed digits (min_value digits))
    else JStr (symbol ++ fixedResult).

Definition renderQuotaWithPrompt (quota : num) (digits : nat) : jsstr :=
  if negb (display_type_is "TOKENS") then t (js "等价金额：") [] ++ String_of (renderQuota quota digits) else [].

(** ** Ratios and billing texts *)

Definition isValidGroupRatio (ratio : jval) : bool :=
  match ratio with
  | JNum x => isFinite x && negb (neq x (num_of_Z (-1)))
  | _ => false
  end.

(** [{ ratio, label, useUserGroupRatio }] *)
Definition getEffectiveRatio (groupRatio user_group_ratio : jval) : jval * jsstr * bool :=
  let useUserGroupRatio := isValidGroupRatio user_group_ratio in
  let ratioLabel := if useUserGroupRatio then t (js "专属倍率") [] else t (js "分组倍率") [] in
  let effectiveRatio := if useUserGroupRatio then user_group_ratio else groupRatio in
  (effectiveRatio, ratioLabel, useUserGroupRatio).

(** [modelPrice !== -1], with [-1] for an argument that is not given. *)
Definition has_price (modelPrice : jval) : bool :=
  match modelPrice with
  | JUndef => false
  | JNum x => negb (neq x (num_of_Z (-1)))
  | _ => true
  end.

Definition resolveBillingDisplayMode (displayMode modelPrice : jval) : jsstr :=
  if has_price modelPrice then js "price"
  else if display_type_is "TOKENS" then js "ratio"
  else match displayMode with
       | JStr s => if streq s (js "ratio") then js "ratio" else js "price"
       | _ => js "price"
       end.

Definition isPriceDisplayMode (displayMode modelPrice : jval) : bool :=
  streq (resolveBillingDisplayMode displayMode modelPrice) (js "price").

Definition shouldUseRatioBillingProcess (modelPrice : jval) : bool :=
  negb (has_price modelPrice) && display_type_is "TOKENS".

Definition formatCompactDisplayPrice (usdAmount : num) : jsstr :=
  let '(symbol, rate, _) := getCurrencyConfig in
  let amount := Number_of_string (toFixed 6 (nmul usdAmount (Number_of rate))) in
  String_of symbol ++ String_of_num amount.

Definition joinBillingSummary (parts : list jsstr) : jsstr := join (js "，") (filter_truthy parts).

Definition getGroupRatioText (groupRatio user_group_ratio : jval) : jsstr :=
  let '(ratio, label, _) := getEffectiveRatio groupRatio user_group_ratio in
  t (js "{{ratioType}} {{ratio}}x") [(js "ratioType", JStr label); (js "ratio", ratio)].

Definition formatRatioValue (value : jval) : num :=
  let num := Number_of value in
  if isFinite num then Number_of_string (toFixed 6 num) else nzero.

Definition renderDisplayAmountFromUsd (usdAmount : num) : jval :=
  let x := if num_truthy usdAmount then usdAmount else nzero in
  renderQuotaWithAmount (JNum (Number_of_string (toFixed 6 x))).

Definition formatBillingDisplayPrice (usdAmount : num) (rate : jval) : jsstr :=
  toFixed 6 (nmul usdAmount (Number_of rate)).

(** [buildBillingPriceText(key, { symbol, usdAmount, rate, amountKey, ...vars })] *)
Definition buildBillingPriceText (key : jsstr) (symbol : jval) (usdAmount : num) (rate : jval) (amountKey : string)
    (vars : list (jsstr * jval)) : jsstr :=
  t key (spread [(js "symbol", symbol); (js amountKey, JStr (formatBillingDisplayPrice usdAmount rate))] (JObj vars)).

(** The paragraphs of the article: the lines that are not empty, and the note. *)
Definition renderBillingArticle (lines : list jsstr) (showReferenceNote : bool) : list jsstr :=
  filter_truthy lines ++ (if showReferenceNote then [t (js "仅供参考，以实际扣费为准") []] else []).

(** ** What a user sees of a small amount *)

(** The text of the smallest amount a number of decimals can show is not zero;
    checked for every number of decimals a page can ask for. *)
Lemma min_value_visible digits : digits ≤ 20 → neq (parseFloat (toFixed digits (min_value digits))) nzero = false.
Proof.
  assert (H : forallb (λ d, negb (neq (parseFloat (toFixed d (min_value d))) nzero)) (seq 0 21) = true) by (vm_compute; reflexivity).
  intros Hd. rewrite forallb_forall in H. apply negb_true_iff, H, in_seq. lia.
Qed.

(** A positive amount of quota is never shown as nothing: in every currency
    the text after the symbol reads as a number other than zero, however small
    the amount, provided the converted amount is positive at all. *)
Theorem positive_quota_visible quota digits :
  digits ≤ 20 → display_type_is "TOKENS" = false → nlt nzero quota = true → nlt nzero (quota_value quota).2 = true →
  ∃ text, renderQuota quota digits = JStr ((quota_value quota).1 ++ text) ∧ neq (parseFloat text) nzero = false.
Proof.
  intros Hd Ht Hq Hv. unfold renderQuota. rewrite Ht. destruct (quota_value quota) as [symbol value]. cbn [fst snd] in *.
  destruct (neq (parseFloat (toFixed digits value)) nzero) eqn:E; rewrite ?Hq, ?Hv; cbn [andb].
  - eexists. split; [done|]. by apply min_value_visible.
  - by eexists.
Qed.
End Money.

(** A browser that shows yuan at 7.3 to the dollar. *)
Definition yuan_storage (k : jsstr) : option jsstr :=
  if streq k (js "quota_per_unit") then Some (js "500000")
  else if streq k (js "quota_display_type") then Some (js "CNY")
  else if streq k (js "status") then Some (jsq "{'usd_exchange_rate':7.3}")
  else None.

Lemma positive_quota_visible_witness :
  renderQuota yuan_storage (num_of_Z 1) 2 = JStr (js "¥0.01") ∧
  ∃ text, renderQuota yuan_storage (num_of_Z 1) 2 = JStr ((quota_value yuan_storage (num_of_Z 1)).1 ++ text) ∧
          neq (parseFloat text) nzero = false.
Proof.
  split; [vm_compute; reflexivity|].
  apply positive_quota_visible; [lia|vm_compute; reflexivity..].
Defined.

(** Without a rate in the status object the two conversions disagree: amounts
    of quota are shown one to one, prices at seven to one. *)
Example yuan_default_rates :
  let getItem k := if streq k (js "status") then Some (js "{}") else yuan_storage k in
  renderQuota getItem (num_of_Z 500000) 2 = JStr (js "¥1.00") ∧
  convertUSDToCurrency getItem (num_of_Z 1) 2 = js "¥7.00".
Proof. split; vm_compute; reflexivity. Qed.

(** The names that have no colour of their own are hashed into a palette. *)
Example model_colors :
  map Colors.modelToColor [js "gpt-4"; js "o3"; js "deepseek-reasoner"] =
  [Some (js "rgb(135,206,235)"); Some (js "#FF8A00"); Some (js "#FF7DDA")].
Proof. vm_compute. reflexivity. Qed.
