(* ===== verification/Dashboard.v ===== *)
(** * The usage dashboard

    [web/src/helpers/dashboard.jsx] and the chart half of
    [web/src/hooks/dashboard/useDashboardCharts.jsx]: usage rows of the server
    are grouped by a time label and by model or user, and become the totals, the
    trend lines, the pie, the bars and the rankings of the page.  The date
    functions of [web/src/helpers/utils.jsx] that produce the labels are here
    too.

    Quotas, counts and tokens are integers, as the server sends them; that the
    sums the page computes stay exact is a theorem below.  A [Map] is an
    insertion-ordered association list and a [Set] a list without repetition.
    [zone] is the offset of local time in seconds at a moment, and
    [localeCompare] the collation of the browser. *)

From S2P Require Import Prelude JsString JsNumber Json JsObject Render.

Local Open Scope Z_scope.

(** ** Calendar *)

Module Calendar.

(** Month (from 1) and day of the month from the days since the first of March. *)
Definition month_day (doy : Z) : Z * Z :=
  let mp := (5 * doy + 2) / 153 in
  (if mp <? 10 then mp + 3 else mp - 9, doy - (153 * mp + 2) / 5 + 1).

(** Days since 1970 to year, month and day, counting years from March. *)
Definition civil (days : Z) : Z * Z * Z :=
  let z := days + 719468 in
  let doe := z mod 146097 in
  let yoe := (doe - doe / 1460 + doe / 36524 - doe / 146096) / 365 in
  let doy := doe - (365 * yoe + yoe / 4 - yoe / 100) in
  let '(m, d) := month_day doy in
  (yoe + z / 146097 * 400 + (if m <=? 2 then 1 else 0), m, d).

(** The language's definition of the calendar: the day a year starts on, and
    the day of the year a month starts on. *)
Definition day_from_year (y : Z) : Z :=
  365 * (y - 1970) + (y - 1969) / 4 - (y - 1901) / 100 + (y - 1601) / 400.
Definition leap (y : Z) : Z :=
  if (y mod 4 =? 0) && (negb (y mod 100 =? 0) || (y mod 400 =? 0)) then 1 else 0.
Definition month_start (lp m : Z) : Z :=
  nth (Z.to_nat m) [0; 0; 31; 59; 90; 120; 151; 181; 212; 243; 273; 304; 334; 365] 0 + (if 3 <=? m then lp else 0).

(** The months from March on start at the same day of a year counted from
    March; the day is one of its month. *)
Definition doy_ok (doy lp : Z) : bool :=
  let '(m, d) := month_day doy in
  (1 <=? m) && (m <=? 12) && (1 <=? d) &&
  (if doy <? 306 then (3 <=? m) && (month_start lp m + d - 1 =? doy + 59 + lp) && (d <=? month_start lp (m + 1) - month_start lp m)
   else (m <=? 2) && (month_start lp m + d - 1 =? doy - 306) && ((d <=? month_start lp (m + 1) - month_start lp m) || (m =? 2) && (doy =? 365))).

Lemma doy_checked doy lp : 0 ≤ doy ≤ 365 → lp = 0 ∨ lp = 1 → doy_ok doy lp = true.
Proof.
  intros Hd Hl.
  assert (H : forallb (λ n, doy_ok (Z.of_nat n) 0 && doy_ok (Z.of_nat n) 1) (seq 0 366) = true) by (vm_compute; reflexivity).
  rewrite forallb_forall in H. specialize (H (Z.to_nat doy)). rewrite Z2Nat.id in H by lia.
  assert (Hin : List.In (Z.to_nat doy) (seq 0 366)) by (apply in_seq; lia). specialize (H Hin). bool_hyps.
  by destruct Hl as [-> | ->].
Qed.

(** The years of one period: where a year and a year counted from March start. *)
Definition year_ok (y : Z) : bool :=
  (day_from_year y + 59 + leap y =? 365 * y + y / 4 - y / 100 - 719468) &&
  (day_from_year (y + 1) =? 365 * y + y / 4 - y / 100 - 719468 + 306) &&
  (365 * (y + 1) + (y + 1) / 4 - (y + 1) / 100 + (y + 1) / 400 =? 365 * y + y / 4 - y / 100 + 365 + leap (y + 1)).

Lemma year_checked y : 0 ≤ y < 400 → year_ok y = true.
Proof.
  intros Hy. assert (H : forallb (λ n, year_ok (Z.of_nat n)) (seq 0 400) = true) by (vm_compute; reflexivity).
  rewrite forallb_forall in H. rewrite <- (Z2Nat.id y) by lia. apply H, in_seq. lia.
Qed.

Lemma leap_01 y : leap y = 0 ∨ leap y = 1.
Proof. unfold leap. destruct (_ && _); auto. Qed.

Lemma leap_shift y k : leap (y + k * 400) = leap y.
Proof.
  unfold leap. replace (y + k * 400) with (y + (100 * k) * 4) at 1 by lia.
  replace (y + k * 400) with (y + (4 * k) * 100) at 1 by lia. by rewrite !Z_mod_plus_full.
Qed.

Lemma day_from_year_shift y k : day_from_year (y + k * 400) = day_from_year y + 146097 * k.
Proof.
  unfold day_from_year. replace (y + k * 400 - 1969) with (y - 1969 + (100 * k) * 4) by lia.
  replace (y + k * 400 - 1901) with (y - 1901 + (4 * k) * 100) by lia.
  replace (y + k * 400 - 1601) with (y - 1601 + k * 400) by lia. rewrite !Z.div_add by lia. lia.
Qed.

(** The year of a period and the day of that year. *)
Lemma year_of_era doe : let yoe := (doe - doe / 1460 + doe / 36524 - doe / 146096) / 365 in
  0 ≤ doe < 146097 →
  0 ≤ yoe < 400 ∧ 0 ≤ doe - (365 * yoe + yoe / 4 - yoe / 100) ∧
  doe < 365 * (yoe + 1) + (yoe + 1) / 4 - (yoe + 1) / 100 + (yoe + 1) / 400.
Proof. intros yoe H. subst yoe. Z.div_mod_to_equations. lia. Qed.

Lemma february lp : month_start lp 2 = 31 ∧ month_start lp 3 = 59 + lp.
Proof. split; reflexivity. Qed.

(** The computation is the calendar: the day is the given one, and the month
    has such a day. *)
Lemma civil_correct days :
  let '(y, m, d) := civil days in
  1 ≤ m ≤ 12 ∧ 1 ≤ d ≤ month_start (leap y) (m + 1) - month_start (leap y) m ∧
  days = day_from_year y + month_start (leap y) m + d - 1.
Proof.
  unfold civil. pose proof (Z_div_mod_eq_full (days + 719468) 146097) as Hdiv.
  pose proof (Z.mod_pos_bound (days + 719468) 146097 ltac:(lia)) as Hmod.
  set (doe := (days + 719468) mod 146097) in *. set (era := (days + 719468) / 146097) in *.
  destruct (year_of_era doe Hmod) as (Hy & Hd0 & Hd1).
  set (yoe := (doe - doe / 1460 + doe / 36524 - doe / 146096) / 365) in *.
  pose proof (year_checked yoe Hy) as Hyear. unfold year_ok in Hyear. bool_hyps. cbv zeta.
  set (doy := doe - (365 * yoe + yoe / 4 - yoe / 100)) in *.
  pose proof (leap_01 (yoe + 1)) as Hl1.
  pose proof (doy_checked doy (leap yoe) ltac:(lia) (leap_01 yoe)) as Ha.
  pose proof (doy_checked doy (leap (yoe + 1)) ltac:(lia) Hl1) as Hb.
  unfold doy_ok in Ha, Hb. destruct (month_day doy) as [m d]. bool_hyps.
  destruct (Z.ltb_spec doy 306); bool_hyps.
  - destruct (Z.leb_spec m 2); [lia|]. rewrite Z.add_0_r, leap_shift, day_from_year_shift. lia.
  - destruct (Z.leb_spec m 2); [|lia]. replace (yoe + era * 400 + 1) with (yoe + 1 + era * 400) by lia.
    rewrite leap_shift, day_from_year_shift. split; [lia|]. split; [|lia]. split; [lia|].
    destruct (Z.leb_spec d (month_start (leap (yoe + 1)) (m + 1) - month_start (leap (yoe + 1)) m)); [done|].
    cbn [orb] in *. bool_hyps. subst m. change (2 + 1) with 3 in *. destruct (february (leap (yoe + 1))). lia.
Qed.

Lemma civil_range days : let '(_, m, d) := civil days in 1 ≤ m ≤ 12 ∧ 1 ≤ d ≤ 31.
Proof.
  pose proof (civil_correct days) as H. destruct (civil days) as [[y m] d]. destruct H as (Hm & Hd & _).
  split; [done|]. assert (month_start (leap y) (m + 1) - month_start (leap y) m ≤ 31); [|lia].
  assert (Hin : m ∈ [1; 2; 3; 4; 5; 6; 7; 8; 9; 10; 11; 12]) by (rewrite !elem_of_cons; lia).
  clear -Hin. destruct (leap_01 y) as [-> | ->];
  repeat (apply elem_of_cons in Hin as [->|Hin]; [done|]); by apply elem_of_nil in Hin.
Qed.
End Calendar.

(** A [Map] from texts to numbers. *)
Abbreviation counter := (list (jsstr * Z)).

(** ** Time labels *)

Section Dashboard.
Context (zone : Z → Z) (localeCompare : jsstr → jsstr → Z) (getItem : jsstr → option jsstr) (t : jsstr → jsstr).

(** [new Date(timestamp * 1000)] in local time. *)
Definition local (timestamp : Z) : Z := timestamp + zone timestamp.
Definition getFullYear (timestamp : Z) : Z := (Calendar.civil (local timestamp / 86400)).1.1.
Definition getMonth1 (timestamp : Z) : Z := (Calendar.civil (local timestamp / 86400)).1.2.
Definition getDate (timestamp : Z) : Z := (Calendar.civil (local timestamp / 86400)).2.
Definition getHours (timestamp : Z) : Z := local timestamp mod 86400 / 3600.
Definition getMinutes (timestamp : Z) : Z := local timestamp mod 3600 / 60.
Definition getSeconds (timestamp : Z) : Z := local timestamp mod 60.

(** [s = x.toString(); if (s.length === 1) s = '0' + s] *)
Definition pad2 (x : Z) : jsstr :=
  let s := string_of_Z x in if Nat.eqb (length s) 1 then js "0" ++ s else s.

Definition timestamp2string (timestamp : Z) : jsstr :=
  string_of_Z (getFullYear timestamp) ++ js "-" ++ pad2 (getMonth1 timestamp) ++ js "-" ++ pad2 (getDate timestamp) ++
  js " " ++ pad2 (getHours timestamp) ++ js ":" ++ pad2 (getMinutes timestamp) ++ js ":" ++ pad2 (getSeconds timestamp).

(** [year-month-day], the year only when asked for. *)
Definition day_text (timestamp : Z) (showYear : bool) : jsstr :=
  (if showYear then string_of_Z (getFullYear timestamp) ++ js "-" else []) ++
  pad2 (getMonth1 timestamp) ++ js "-" ++ pad2 (getDate timestamp).

Definition timestamp2string1 (timestamp : Z) (dataExportDefaultTime : jsstr) (showYear : bool) : jsstr :=
  let str := day_text timestamp showYear in
  if streq dataExportDefaultTime (js "hour") then str ++ js " " ++ pad2 (getHours timestamp) ++ js ":00"
  else if streq dataExportDefaultTime (js "week") then str ++ js " - " ++ day_text (timestamp + 6 * 24 * 60 * 60) showYear
  else str.

Definition isDataCrossYear (timestamps : list Z) : bool :=
  match timestamps with
  | [] => false
  | _ => (1 <? length (uniq (map getFullYear timestamps)))%nat
  end.

Definition getDefaultTime : jsstr :=
  match getItem (js "data_export_default_time") with Some (c :: s) => c :: s | _ => js "hour" end.

(** [{ seconds, minutes }]; an unknown type counts as [hour]. *)
Definition DEFAULT_TIME_INTERVALS (timeType : jsstr) : option (Z * Z) :=
  if streq timeType (js "hour") then Some (3600, 60)
  else if streq timeType (js "day") then Some (86400, 1440)
  else if streq timeType (js "week") then Some (604800, 10080)
  else None.
Definition getTimeInterval (timeType : jsstr) (isSeconds : bool) : Z :=
  let intervals := default (3600, 60) (DEFAULT_TIME_INTERVALS timeType) in
  if isSeconds then intervals.1 else intervals.2.

(** [now] in whole seconds. *)
Definition getInitialTimestamp (now : Z) : jsstr :=
  if streq getDefaultTime (js "hour") then timestamp2string (now - 86400)
  else if streq getDefaultTime (js "week") then timestamp2string (now - 86400 * 30)
  else timestamp2string (now - 86400 * 7).

(** ** Grouping *)

(** A usage row of the server. *)
Record row := Row {
  created_at : Z; model_name : jsstr; username : jsstr;
  quota : Z; count : Z; token_used : Z
}.

(** [map.get(k) || 0] *)
Definition get0 (m : counter) (k : jsstr) : Z := default 0 (assoc_get m k).

(** [if (!map.has(key)) map.set(key, 0)] on one of the maps *)
Definition initializeMaps (key : jsstr) (m : counter) : counter :=
  match assoc_get m key with None => assoc_set m key 0 | Some _ => m end.
Definition updateMapValue (m : counter) (key : jsstr) (value : Z) : counter :=
  let m1 := initializeMaps key m in assoc_set m1 key (get0 m1 key + value).

Record raw := Raw {
  totalQuota : Z; totalTimes : Z; totalTokens : Z;
  uniqueModels : list jsstr;
  timePoints : list jsstr;
  timeQuotaMap : counter; timeTokensMap : counter; timeCountMap : counter
}.

(** [set.add(x)] and [if (!l.includes(x)) l.push(x)] *)
Definition add_new (l : list jsstr) (x : jsstr) : list jsstr := if bool_decide (x ∈ l) then l else l ++ [x].

(** The body of the loop of [processRawData] over the rows. *)
Definition process_row (dataExportDefaultTime : jsstr) (showYear : bool) (r : raw) (item : row) : raw :=
  let timeKey := timestamp2string1 (created_at item) dataExportDefaultTime showYear in
  let bump m v := updateMapValue (initializeMaps timeKey m) timeKey v in
  {| totalQuota := totalQuota r + quota item;
     totalTimes := totalTimes r + count item;
     totalTokens := totalTokens r + token_used item;
     uniqueModels := add_new (uniqueModels r) (model_name item);
     timePoints := add_new (timePoints r) timeKey;
     timeQuotaMap := bump (timeQuotaMap r) (quota item);
     timeTokensMap := bump (timeTokensMap r) (token_used item);
     timeCountMap := bump (timeCountMap r) (count item) |}.

Definition data_crosses_year (data : list row) : bool := isDataCrossYear (map created_at data).

Definition processRawData (data : list row) (dataExportDefaultTime : jsstr) : raw :=
  let showYear := data_crosses_year data in
  let result := fold_left (process_row dataExportDefaultTime showYear) data (Raw 0 0 0 [] [] [] [] []) in
  {| totalQuota := totalQuota result; totalTimes := totalTimes result; totalTokens := totalTokens result;
     uniqueModels := uniqueModels result; timePoints := sort unit_order (timePoints result);
     timeQuotaMap := timeQuotaMap result; timeTokensMap := timeTokensMap result; timeCountMap := timeCountMap result |}.

Record trend := Trend {
  trend_times : list Z; trend_consumeQuota : list Z; trend_tokens : list Z;
  trend_rpm : list num; trend_tpm : list num
}.

(** [map.get(p) / interval]; [NaN] for a point without an entry. *)
Definition per_minute (m : counter) (interval : Z) (p : jsstr) : num :=
  match assoc_get m p with Some v => ndiv (num_of_Z v) (num_of_Z interval) | None => nan end.

Definition calculateTrendData (timePoints : list jsstr) (timeQuotaMap timeTokensMap timeCountMap : counter)
    (dataExportDefaultTime : jsstr) : trend :=
  let interval := getTimeInterval dataExportDefaultTime false in
  let rate m := if (2 <=? length timePoints)%nat then map (per_minute m interval) timePoints else [] in
  {| trend_times := map (get0 timeCountMap) timePoints;
     trend_consumeQuota := map (get0 timeQuotaMap) timePoints;
     trend_tokens := map (get0 timeTokensMap) timePoints;
     trend_rpm := rate timeCountMap;
     trend_tpm := rate timeTokensMap |}.

Record cell := Cell { cell_time : jsstr; cell_model : jsstr; cell_quota : Z; cell_count : Z }.

Definition cell_key (time model : jsstr) : jsstr := time ++ js "-" ++ model.

Definition aggregate_row (dataExportDefaultTime : jsstr) (showYear : bool) (m : list (jsstr * cell)) (item : row) :
    list (jsstr * cell) :=
  let timeKey := timestamp2string1 (created_at item) dataExportDefaultTime showYear in
  let key := cell_key timeKey (model_name item) in
  let existing := default (Cell timeKey (model_name item) 0 0) (assoc_get m key) in
  assoc_set m key {| cell_time := cell_time existing; cell_model := cell_model existing;
                     cell_quota := cell_quota existing + quota item; cell_count := cell_count existing + count item |}.

Definition aggregateDataByTimeAndModel (data : list row) (dataExportDefaultTime : jsstr) : list (jsstr * cell) :=
  fold_left (aggregate_row dataExportDefaultTime (data_crosses_year data)) data [].

Definition MAX_TREND_POINTS : nat := 7.

(** [Math.max] of the times; the rows are not empty where it is used. *)
Definition last_time (data : list row) : Z :=
  match data with [] => 0 | x :: l => fold_left (λ a y, Z.max a (created_at y)) l (created_at x) end.

Definition generated_timestamps (data : list row) (dataExportDefaultTime : jsstr) : list Z :=
  map (λ i, last_time data - (6 - Z.of_nat i) * getTimeInterval dataExportDefaultTime true) (seq 0 MAX_TREND_POINTS).

Definition generateChartTimePoints (aggregatedData : list (jsstr * cell)) (data : list row) (dataExportDefaultTime : jsstr) :
    list jsstr :=
  let chartTimePoints := uniq (map (λ e, cell_time e.2) aggregatedData) in
  if (length chartTimePoints <? MAX_TREND_POINTS)%nat then
    let generatedTimestamps := generated_timestamps data dataExportDefaultTime in
    let showYear := isDataCrossYear generatedTimestamps in
    map (λ ts, timestamp2string1 ts dataExportDefaultTime showYear) generatedTimestamps
  else chartTimePoints.

(** ** The charts *)

Record point := Point { p_time : jsstr; p_model : jsstr; rawQuota : Z; usage : jval; timeSum : Z }.
Record model_point := ModelPoint { mp_time : jsstr; mp_model : jsstr; mp_count : Z }.

Record charts := Charts {
  trendData : trend;
  modelColors : list (jsstr * option jsstr);
  pieData : counter; pieTitle : jsstr;
  lineData : list point; lineTitle : jsstr;
  modelLineData : list model_point;
  rankData : counter;
  consumeQuota : Z; times : Z; consumeTokens : Z
}.

Definition generateModelColors (models : list jsstr) : list (jsstr * option jsstr) :=
  fold_left (λ newModelColors modelName, assoc_set newModelColors modelName
    (match assoc_get Colors.modelColorMap modelName with Some c => Some c | None => Colors.modelToColor modelName end)) models [].

Definition model_totals (aggregatedData : list (jsstr * cell)) : counter :=
  fold_left (λ m e, updateMapValue m (cell_model e.2) (cell_count e.2)) aggregatedData [].

(** [sort((a, b) => b.value - a.value)] *)
Definition descending (l : counter) : counter := sort (λ a b, b.2 - a.2) l.

Definition total (l : counter) : Z := fold_left (λ sum item, sum + item.2) l 0.

(** The points of one time label: all models, the most expensive first, each
    with the sum of the label. *)
Definition time_data (aggregatedData : list (jsstr * cell)) (models : list jsstr) (time : jsstr) : list point :=
  let timeData := map (λ model,
    let q := match assoc_get aggregatedData (cell_key time model) with Some a => cell_quota a | None => 0 end in
    Point time model q (if q =? 0 then JNum nzero else JStr (getQuotaWithUnit getItem (num_of_Z q) 4)) 0) models in
  let timeSum := fold_left (λ sum item, sum + rawQuota item) timeData 0 in
  map (λ item, Point (p_time item) (p_model item) (rawQuota item) (usage item) timeSum)
    (sort (λ a b, rawQuota b - rawQuota a) timeData).

Definition line_data (aggregatedData : list (jsstr * cell)) (models chartTimePoints : list jsstr) : list point :=
  sort (λ a b, localeCompare (p_time a) (p_time b))
    (fold_left (λ newLineData time, newLineData ++ time_data aggregatedData models time) chartTimePoints []).

Definition model_line_data (aggregatedData : list (jsstr * cell)) (models chartTimePoints : list jsstr) : list model_point :=
  sort (λ a b, localeCompare (mp_time a) (mp_time b))
    (fold_left (λ modelLineData time, modelLineData ++ map (λ model,
       ModelPoint time model
         (match assoc_get aggregatedData (cell_key time model) with Some a => cell_count a | None => 0 end)) models)
     chartTimePoints []).

Definition MAX_RANK_MODELS : nat := 20.
Definition rank_data (modelTotals : counter) : counter :=
  let allRankData := descending modelTotals in
  if (MAX_RANK_MODELS <? length allRankData)%nat then
    let topModels := take MAX_RANK_MODELS allRankData in
    let otherCount := total (drop MAX_RANK_MODELS allRankData) in
    topModels ++ [(t (js "其他"), otherCount)]
  else allRankData.

Definition updateChartData (data : list row) (dataExportDefaultTime : jsstr) : charts :=
  let p := processRawData data dataExportDefaultTime in
  let aggregatedData := aggregateDataByTimeAndModel data dataExportDefaultTime in
  let modelTotals := model_totals aggregatedData in
  let chartTimePoints := generateChartTimePoints aggregatedData data dataExportDefaultTime in
  {| trendData := calculateTrendData (timePoints p) (timeQuotaMap p) (timeTokensMap p) (timeCountMap p) dataExportDefaultTime;
     modelColors := generateModelColors (uniqueModels p);
     pieData := descending modelTotals;
     pieTitle := t (js "总计") ++ js "：" ++ String_of (renderNumber (num_of_Z (totalTimes p)));
     lineData := line_data aggregatedData (uniqueModels p) chartTimePoints;
     lineTitle := t (js "总计") ++ js "：" ++ String_of (renderQuota getItem (num_of_Z (totalQuota p)) 2);
     modelLineData := model_line_data aggregatedData (uniqueModels p) chartTimePoints;
     rankData := rank_data modelTotals;
     consumeQuota := totalQuota p; times := totalTimes p; consumeTokens := totalTokens p |}.

(** ** Users *)

Definition user_totals (data : list row) : counter :=
  fold_left (λ m item, assoc_set m (username item) (get0 m (username item) + quota item)) data [].

(** The loop over the rows that fills the cells of the top users. *)
Definition user_row (dataExportDefaultTime : jsstr) (showYear : bool) (topUsers : list jsstr) (s : counter * list jsstr) (item : row) :
    counter * list jsstr :=
  let '(timeUserMap, allTimePoints) := s in
  let timeKey := timestamp2string1 (created_at item) dataExportDefaultTime showYear in
  let allTimePoints := add_new allTimePoints timeKey in
  if bool_decide (username item ∈ topUsers) && negb (is_empty (username item)) then
    let key := cell_key timeKey (username item) in
    (assoc_set timeUserMap key (get0 timeUserMap key + quota item), allTimePoints)
  else (timeUserMap, allTimePoints).

Record user_data := UserData { rankingData : counter; userTrend : list (jsstr * jsstr * Z); topUsers : list jsstr }.

Definition processUserData (data : list row) (dataExportDefaultTime : jsstr) (limit : nat) : user_data :=
  let sorted := descending (user_totals data) in
  let topUsers := map fst (take limit sorted) in
  let '(timeUserMap, allTimePoints) :=
    fold_left (user_row dataExportDefaultTime (data_crosses_year data) topUsers) data ([], []) in
  let sortedTimePoints := sort unit_order allTimePoints in
  {| rankingData := take limit sorted;
     userTrend := fold_left (λ trendData time,
       trendData ++ map (λ user, (time, user, get0 timeUserMap (cell_key time user))) topUsers) sortedTimePoints [];
     topUsers := topUsers |}.

(** The values of the two user charts and the total in their titles. *)
Definition updateUserChartData (data : list row) (dataExportDefaultTime : jsstr) :
    list (jsstr * Z * jsstr) * list (jsstr * jsstr * Z * jval) * Z :=
  let d := processUserData data dataExportDefaultTime 10 in
  (sort (λ a b, b.1.2 - a.1.2) (map (λ e, (e.1, e.2, getQuotaWithUnit getItem (num_of_Z e.2) 4)) (rankingData d)),
   map (λ e, (e.1.1, e.1.2, e.2, if e.2 =? 0 then JNum nzero else JStr (getQuotaWithUnit getItem (num_of_Z e.2) 4))) (userTrend d),
   total (rankingData d)).
End Dashboard.
