(* ===== verification/DashboardTheorems.v ===== *)
(** * The usage dashboard: theorems

    What the charts show adds up: totals, trends, the pie and the ranking all
    distribute the same sums; every point of the cost chart is the exact sum of
    its rows when the labels of the axis are written like the labels of the
    rows; when they are not, the chart is blank.  The sums stay below the
    largest exact integer, and the user ranking is the true one. *)

From stdpp Require Import sorting.
From S2P Require Import Prelude JsString JsNumber Json JsObject Render Dashboard.

Local Open Scope Z_scope.
Set Default Proof Using "Type".

(** ** Sums and counters *)

Definition zsum (l : list Z) : Z := fold_right Z.add 0 l.

Lemma zsum_cons x l : zsum (x :: l) = x + zsum l.
Proof. done. Qed.

Lemma zsum_app l k : zsum (l ++ k) = zsum l + zsum k.
Proof. unfold zsum. induction l as [|x l IH]; cbn; lia. Qed.

#[global] Instance zsum_proper : Proper ((≡ₚ) ==> eq) zsum.
Proof. intros l k. unfold zsum. induction 1; cbn; lia. Qed.

Lemma fold_sum {A} (f : A → Z) l a : fold_left (λ s x, s + f x) l a = a + zsum (map f l).
Proof. revert a. unfold zsum. induction l as [|x l IH]; intros a; cbn; [lia|]. rewrite IH. cbn. lia. Qed.

Lemma zsum_zero {A} (f : A → Z) l : Forall (λ x, f x = 0) l → zsum (map f l) = 0.
Proof. unfold zsum. induction 1; cbn; lia. Qed.

Lemma zsum_flat {A B} (f : A → list B) (g : B → Z) l acc :
  zsum (map g (fold_left (λ acc x, acc ++ f x) l acc)) = zsum (map g acc) + zsum (map (λ x, zsum (map g (f x))) l).
Proof.
  revert acc. induction l as [|x l IH]; intros acc; cbn [fold_left map]; [cbn [zsum fold_right]; lia|].
  rewrite IH, map_app, zsum_app, zsum_cons. lia.
Qed.

Lemma assoc_get_None {V} (m : list (jsstr * V)) k : assoc_get m k = None ↔ k ∉ map fst m.
Proof.
  induction m as [|[k' v] m IH]; cbn [assoc_get map fst]; [split; [intros _ ?%elem_of_nil|]; done|].
  rewrite elem_of_cons. case_decide; [naive_solver|]. rewrite IH. naive_solver.
Qed.

Lemma assoc_set_keys {V} (m : list (jsstr * V)) k v : map fst (assoc_set m k v) = add_new (map fst m) k.
Proof.
  unfold add_new. induction m as [|[k' v'] m IH]; cbn [assoc_set map fst]; [done|].
  destruct (decide (k' = k)) as [->|Hne]; cbn [map fst].
  - by rewrite bool_decide_eq_true_2 by (by left).
  - rewrite IH. destruct (decide (k ∈ map fst m)) as [Hin|Hin].
    + rewrite !bool_decide_eq_true_2 by (rewrite ?elem_of_cons; auto). done.
    + rewrite !bool_decide_eq_false_2 by (rewrite ?elem_of_cons; naive_solver). done.
Qed.

Section Counters.
Context {V : Type} (f : V → Z).
Implicit Types (m : list (jsstr * V)).

(** The value a map holds for a key, zero for a missing key, and the sum of all. *)
Definition at_key m k : Z := from_option f 0 (assoc_get m k).
Definition values m : Z := zsum (map (λ e, f e.2) m).

Lemma assoc_set_values m k v : values (assoc_set m k v) = values m + f v - at_key m k.
Proof.
  unfold values, at_key, zsum. induction m as [|[k' v'] m IH]; cbn [assoc_set assoc_get map fold_right fst snd from_option]; [lia|].
  case_decide; cbn [map fold_right from_option fst snd]; [lia|]. rewrite IH. lia.
Qed.

Lemma at_key_set m k v k' : at_key (assoc_set m k v) k' = if decide (k = k') then f v else at_key m k'.
Proof. unfold at_key. rewrite assoc_get_set. by case_decide. Qed.

(** Reading a map at every key of a list that has its keys gives its sum. *)
Lemma values_lookup m ks : NoDup ks → NoDup (map fst m) → (∀ k, k ∈ map fst m → k ∈ ks) →
  zsum (map (at_key m) ks) = values m.
Proof.
  revert ks. induction m as [|[k v] m IH]; intros ks Hks Hm Hsub; cbn [map fst] in *.
  - apply zsum_zero. by apply Forall_forall.
  - apply NoDup_cons in Hm as [Hk Hm]. destruct (list_elem_of_split _ _ (Hsub k ltac:(by left))) as (l1 & l2 & ->).
    rewrite <- Permutation_middle in Hks |- *. apply NoDup_cons in Hks as [Hkl Hl].
    assert (Hk0 : at_key m k = 0) by (unfold at_key; by rewrite (proj2 (assoc_get_None m k) Hk)).
    assert (Hext : map (at_key ((k, v) :: m)) (l1 ++ l2) = map (at_key m) (l1 ++ l2)).
    { apply map_ext_in. intros x Hx%list_elem_of_In. unfold at_key. cbn [assoc_get]. by rewrite decide_False by congruence. }
    cbn [map]. rewrite Hext, zsum_cons.
    change (values ((k, v) :: m)) with (f v + values m).
    rewrite <- (IH (k :: l1 ++ l2)); [|by apply NoDup_cons|done|].
    + cbn [map]. rewrite zsum_cons, Hk0.
      unfold at_key at 1. cbn [assoc_get]. rewrite decide_True by done. cbn [from_option]. lia.
    + intros x Hx. specialize (Hsub x). rewrite Permutation_middle. apply Hsub. by right.
Qed.
End Counters.

Lemma add_new_NoDup l x : NoDup l → NoDup (add_new l x).
Proof.
  intros H. unfold add_new. case_bool_decide; [done|]. apply NoDup_app. split_and!; [done| |apply NoDup_singleton].
  intros y Hy ->%list_elem_of_singleton. done.
Qed.

Lemma elem_of_add_new l x y : y ∈ add_new l x ↔ y ∈ l ∨ y = x.
Proof.
  unfold add_new. case_bool_decide; [|rewrite elem_of_app, list_elem_of_singleton; done]. naive_solver.
Qed.

Lemma fold_add_new {A} (g : A → jsstr) l acc :
  NoDup acc → NoDup (fold_left (λ s x, add_new s (g x)) l acc) ∧
  ∀ y, y ∈ fold_left (λ s x, add_new s (g x)) l acc ↔ y ∈ acc ∨ y ∈ map g l.
Proof.
  revert acc. induction l as [|x l IH]; intros acc Hacc; cbn [fold_left map].
  - split; [done|]. intros y. rewrite elem_of_nil. tauto.
  - destruct (IH (add_new acc (g x)) (add_new_NoDup _ _ Hacc)) as [H1 H2]. split; [done|].
    intros y. rewrite H2, elem_of_add_new, elem_of_cons. tauto.
Qed.

Lemma fold_add_new_nil {A} (g : A → jsstr) l :
  NoDup (fold_left (λ s x, add_new s (g x)) l []) ∧ ∀ y, y ∈ fold_left (λ s x, add_new s (g x)) l [] ↔ y ∈ map g l.
Proof.
  destruct (fold_add_new g l [] (NoDup_nil_2)) as [H1 H2]. split; [done|]. intros y. rewrite H2, elem_of_nil. tauto.
Qed.

(** A component of the state of a loop is computed by its own loop. *)
Lemma fold_left_proj {A B C} (g : A → B) (f : A → C → A) (h : B → C → B) l a :
  (∀ a x, g (f a x) = h (g a) x) → g (fold_left f l a) = fold_left h l (g a).
Proof. intros H. revert a. induction l as [|x l IH]; intros a; cbn [fold_left]; [done|]. by rewrite IH, H. Qed.

Lemma add_new_idemp l x : add_new (add_new l x) x = add_new l x.
Proof. unfold add_new at 1. rewrite bool_decide_eq_true_2; [done|]. apply elem_of_add_new. auto. Qed.

Lemma add_new_in l x : x ∈ l → add_new l x = l.
Proof. intros H. unfold add_new. by rewrite bool_decide_eq_true_2. Qed.

(** ** Counting by a key

    A loop that adds [v r] to the entry [k r] of a map, for every row [r]. *)

Section Counting.
Context {R V : Type} (f : V → Z) (k : R → jsstr) (v : R → Z).

(** The sum of the rows with a key. *)
Definition sum_at (data : list R) (key : jsstr) : Z :=
  zsum (map (λ r, if decide (k r = key) then v r else 0) data).

Definition counts (step : list (jsstr * V) → R → list (jsstr * V)) : Prop :=
  ∀ m r, map fst (step m r) = add_new (map fst m) (k r) ∧
         values f (step m r) = values f m + v r ∧
         ∀ key, at_key f (step m r) key = at_key f m key + if decide (k r = key) then v r else 0.

Lemma counting step data m : counts step →
  let m' := fold_left step data m in
  map fst m' = fold_left (λ l r, add_new l (k r)) data (map fst m) ∧
  values f m' = values f m + zsum (map v data) ∧
  ∀ key, at_key f m' key = at_key f m key + sum_at data key.
Proof.
  intros Hstep. revert m. induction data as [|r data IH]; intros m; cbn [fold_left map].
  - unfold sum_at. cbn. split_and!; [done|lia|intros; lia].
  - destruct (IH (step m r)) as (IHk & IHv & IHa). destruct (Hstep m r) as (Sk & Sv & Sa). cbv zeta.
    rewrite IHk, Sk, IHv, Sv, zsum_cons. split_and!; [done|lia|].
    intros key. rewrite IHa, Sa. unfold sum_at. cbn [map]. rewrite zsum_cons. lia.
Qed.

Lemma counting_nil step data : counts step →
  let m := fold_left step data [] in
  NoDup (map fst m) ∧ (∀ key, key ∈ map fst m ↔ key ∈ map k data) ∧
  values f m = zsum (map v data) ∧ ∀ key, at_key f m key = sum_at data key.
Proof.
  intros H. destruct (counting step data [] H) as (Hk & Hv & Ha). cbv zeta in *.
  destruct (fold_add_new_nil k data) as [Hnd Hin]. rewrite Hk. split_and!; [done|done| |].
  - rewrite Hv. done.
  - intros key. rewrite Ha. done.
Qed.
End Counting.

Lemma values_id_init m key : values id (initializeMaps key m) = values id m ∧
  map fst (initializeMaps key m) = add_new (map fst m) key ∧
  ∀ k, at_key id (initializeMaps key m) k = at_key id m k.
Proof.
  unfold initializeMaps. destruct (assoc_get m key) as [z|] eqn:E.
  - split_and!; [done| |done]. symmetry. apply add_new_in.
    destruct (decide (key ∈ map fst m)) as [|H]; [done|]. apply assoc_get_None in H. congruence.
  - rewrite assoc_set_values, assoc_set_keys. unfold at_key at 1. rewrite E. cbn [from_option].
    split_and!; [cbn [id]; lia|done|]. intros k. rewrite at_key_set. case_decide as Hk; [|done].
    subst. unfold at_key. by rewrite E.
Qed.

Lemma update_counts {R} (k : R → jsstr) (v : R → Z) : counts id k v (λ m r, updateMapValue m (k r) (v r)).
Proof.
  intros m r. unfold updateMapValue. destruct (values_id_init m (k r)) as (Hv & Hk & Ha).
  rewrite assoc_set_keys, Hk, add_new_idemp, assoc_set_values, Hv. change (get0 ?m ?k) with (at_key id m k).
  rewrite Ha. cbn [id]. split_and!; [done|lia|].
  intros key. rewrite at_key_set, Ha. case_decide; [subst; cbn [id]|]; lia.
Qed.

Lemma bump_counts {R} (k : R → jsstr) (v : R → Z) :
  counts id k v (λ m r, updateMapValue (initializeMaps (k r) m) (k r) (v r)).
Proof.
  intros m r. destruct (values_id_init m (k r)) as (Hv & Hk & Ha).
  destruct (update_counts k v (initializeMaps (k r) m) r) as (Uk & Uv & Ua). rewrite Uk, Uv, Hk, Hv, add_new_idemp.
  split_and!; [done|done|]. intros key. by rewrite Ua, Ha.
Qed.

Lemma set_counts {R} (k : R → jsstr) (v : R → Z) :
  counts id k v (λ m r, assoc_set m (k r) (get0 m (k r) + v r)).
Proof.
  intros m r. change (get0 ?m ?k) with (at_key id m k). rewrite assoc_set_keys, assoc_set_values. cbn [id].
  split_and!; [done|lia|]. intros key. rewrite at_key_set. case_decide; [subst; cbn [id]|]; lia.
Qed.

Lemma indicator {A} `{EqDecision A} (x : A) (v : Z) ks : NoDup ks → x ∈ ks → zsum (map (λ key, if decide (x = key) then v else 0) ks) = v.
Proof.
  intros Hnd (l1 & l2 & ->)%list_elem_of_split. rewrite <- Permutation_middle in Hnd |- *. apply NoDup_cons in Hnd as [Hx _].
  cbn [map]. rewrite zsum_cons, decide_True by done. rewrite zsum_zero; [lia|].
  apply Forall_forall. intros y Hy. by rewrite decide_False by congruence.
Qed.

Lemma zsum_plus {A} (f g : A → Z) l : zsum (map (λ x, f x + g x) l) = zsum (map f l) + zsum (map g l).
Proof. induction l as [|x l IH]; cbn [map]; rewrite ?zsum_cons; [done|]. lia. Qed.

Lemma partition_sum {R} (k : R → jsstr) (v : R → Z) ks data :
  NoDup ks → (∀ r, r ∈ data → k r ∈ ks) → zsum (map (sum_at k v data) ks) = zsum (map v data).
Proof.
  intros Hks. induction data as [|r data IH]; intros Hin; cbn [map].
  - apply zsum_zero. by apply Forall_forall.
  - rewrite zsum_cons, <- IH by (intros; apply Hin; by right). rewrite <- (indicator (k r) (v r) ks) by (auto; apply Hin; by left).
    rewrite <- zsum_plus. f_equal.
Qed.

Lemma elem_of_flat {A B} (f : A → list B) l acc y :
  y ∈ fold_left (λ acc x, acc ++ f x) l acc ↔ y ∈ acc ∨ ∃ x, x ∈ l ∧ y ∈ f x.
Proof.
  revert acc. induction l as [|x l IH]; intros acc; cbn [fold_left].
  - split; [by left|]. intros [|(x & ?%elem_of_nil & _)]; done.
  - rewrite IH, elem_of_app. setoid_rewrite elem_of_cons. naive_solver.
Qed.

Lemma assoc_set_Forall {K V} `{EqDecision K} (P : K * V → Prop) m k v : P (k, v) → Forall P m → Forall P (assoc_set m k v).
Proof.
  intros Hkv. induction 1 as [|[k' v'] m H Hm IH]; cbn [assoc_set]; [by repeat constructor|].
  case_decide; by constructor.
Qed.

(** Where a label starts with the year, and where with the month. *)
Lemma digits_third n : 1000 ≤ n ≤ 9999 → ∃ c, string_of_Z n !! 2%nat = Some c ∧ is_digit c = true.
Proof.
  intros Hn. destruct (string_of_nonneg_spec n ltac:(lia)) as (_ & Hall & _).
  assert (Hl : length (string_of_Z n) = 4%nat) by (apply (string_of_Z_length 3); [lia|right|]; simpl; lia).
  unfold string_of_Z in *. destruct (Z.ltb_spec n 0); [lia|].
  destruct (lookup_lt_is_Some_2 (string_of_nonneg n) 2) as [c Hc]; [lia|]. exists c. split; [done|].
  apply forallb_Forall in Hall. by eapply Forall_lookup_1 in Hall.
Qed.

Lemma zsum_nonneg {A} (f : A → Z) l : Forall (λ x, 0 ≤ f x) l → 0 ≤ zsum (map f l).
Proof. induction 1; cbn [map]; rewrite ?zsum_cons; [done|lia]. Qed.

Lemma sum_at_bounds {R} (k : R → jsstr) (v : R → Z) data key : Forall (λ r, 0 ≤ v r) data → 0 ≤ sum_at k v data key ≤ zsum (map v data).
Proof.
  unfold sum_at. induction 1 as [|r data H Hall IH]; cbn [map]; rewrite ?zsum_cons; [done|]. case_decide; lia.
Qed.

Lemma assoc_get_NoDup {V} (m : list (jsstr * V)) e : NoDup (map fst m) → e ∈ m → assoc_get m e.1 = Some e.2.
Proof.
  induction m as [|[k v] m IH]; cbn [map fst assoc_get]; intros Hnd Hin; [by apply elem_of_nil in Hin|].
  apply NoDup_cons in Hnd as [Hk Hnd]. apply elem_of_cons in Hin as [->|Hin]; [by rewrite decide_True|].
  rewrite decide_False; [auto|]. intros ->. apply Hk, list_elem_of_fmap. eauto.
Qed.

(** Every entry of a counting map is between zero and the sum of the rows. *)
Lemma counting_bounds {R V} (f : V → Z) (k : R → jsstr) (v : R → Z) step data :
  counts f k v step → Forall (λ r, 0 ≤ v r) data →
  Forall (λ e, 0 ≤ f e.2 ≤ zsum (map v data)) (fold_left step data []).
Proof.
  intros Hc Hv. destruct (counting_nil f k v step data Hc) as (Hnd & _ & _ & Ha). apply Forall_forall. intros e He.
  specialize (Ha e.1). unfold at_key in Ha. rewrite (assoc_get_NoDup _ e Hnd He) in Ha. cbn [from_option] in Ha.
  rewrite Ha. by apply sum_at_bounds.
Qed.

Lemma Forall_map_snd (P : Z → Prop) (m : counter) : Forall (λ e, P e.2) m → Forall P (map snd m).
Proof. induction 1; constructor; auto. Qed.

Lemma filter_sum {R} (keep : R → bool) (f g : R → Z) data :
  (∀ r, r ∈ data → keep r = true → f r = g r) → (∀ r, r ∈ data → keep r = false → g r = 0) →
  zsum (map f (List.filter keep data)) = zsum (map g data).
Proof.
  induction data as [|r data IH]; intros Ht Hf; cbn [List.filter map]; [done|].
  assert (Hr : r ∈ r :: data) by left. specialize (Ht r Hr) as Htr. specialize (Hf r Hr) as Hfr.
  assert (IH' : zsum (map f (List.filter keep data)) = zsum (map g data)) by (apply IH; intros; [apply Ht|apply Hf]; auto; by right).
  destruct (keep r); cbn [map]; rewrite ?zsum_cons, IH'; [by rewrite Htr|rewrite Hfr by done; lia].
Qed.

Definition raw_numbers (r : raw) : list Z :=
  [totalQuota r; totalTimes r; totalTokens r] ++ map snd (timeQuotaMap r) ++ map snd (timeTokensMap r) ++ map snd (timeCountMap r).

Definition nonneg (r : row) : Prop := 0 ≤ quota r ∧ 0 ≤ count r ∧ 0 ≤ token_used r.
Definition small (data : list row) (bound : Z) : Prop :=
  zsum (map quota data) ≤ bound ∧ zsum (map count data) ≤ bound ∧ zsum (map token_used data) ≤ bound.

Lemma nonneg_field data f : Forall nonneg data → f ∈ [quota; count; token_used] → Forall (λ r, 0 ≤ f r) data.
Proof.
  intros Hnn Hf. eapply Forall_impl; [exact Hnn|]. intros r (? & ? & ?). rewrite !elem_of_cons, elem_of_nil in Hf. naive_solver.
Qed.

(** The sums of a part of the rows stay below those of all. *)
Lemma small_prefix d1 d2 bound : Forall nonneg (d1 ++ d2) → small (d1 ++ d2) bound → small d1 bound ∧ Forall nonneg d1.
Proof.
  intros [H1 H2]%Forall_app (Hq & Hc & Ht). split; [|done]. unfold small. rewrite !map_app, !zsum_app in *.
  pose proof (zsum_nonneg quota d2 (nonneg_field d2 quota H2 ltac:(by left))).
  pose proof (zsum_nonneg count d2 (nonneg_field d2 count H2 ltac:(by right; left))).
  pose proof (zsum_nonneg token_used d2 (nonneg_field d2 token_used H2 ltac:(by right; right; left))). lia.
Qed.

(** ** The totals *)

Section Totals.
Context (zone : Z → Z) (localeCompare : jsstr → jsstr → Z) (getItem : jsstr → option jsstr) (t : jsstr → jsstr).
Context (ty : jsstr).

(** The time label of a row among the rows it is shown with. *)
Definition label (data : list row) (r : row) : jsstr :=
  timestamp2string1 zone (created_at r) ty (data_crosses_year zone data).

Lemma processed_maps sy data r0 :
  let r := fold_left (process_row zone ty sy) data r0 in
  let lab r := timestamp2string1 zone (created_at r) ty sy in
  let bump v m r := updateMapValue (initializeMaps (lab r) m) (lab r) (v r) in
  timeQuotaMap r = fold_left (bump quota) data (timeQuotaMap r0) ∧
  timeTokensMap r = fold_left (bump token_used) data (timeTokensMap r0) ∧
  timeCountMap r = fold_left (bump count) data (timeCountMap r0) ∧
  timePoints r = fold_left (λ l r, add_new l (lab r)) data (timePoints r0) ∧
  uniqueModels r = fold_left (λ l r, add_new l (model_name r)) data (uniqueModels r0) ∧
  totalQuota r = totalQuota r0 + zsum (map quota data) ∧
  totalTimes r = totalTimes r0 + zsum (map count data) ∧
  totalTokens r = totalTokens r0 + zsum (map token_used data).
Proof. cbv zeta. rewrite <- !fold_sum. split_and!; by apply fold_left_proj. Qed.

(** The maps of [processRawData] count the rows by their label, and the time
    points are exactly the labels. *)
Lemma processed data :
  let p := processRawData zone data ty in
  ((totalQuota p = zsum (map quota data) ∧ totalTimes p = zsum (map count data) ∧ totalTokens p = zsum (map token_used data)) ∧
   (∀ f m, (f, m) ∈ [(quota, timeQuotaMap p); (token_used, timeTokensMap p); (count, timeCountMap p)] →
      NoDup (map fst m) ∧ (∀ key, key ∈ map fst m ↔ key ∈ map (label data) data) ∧
      values id m = zsum (map f data) ∧ ∀ key, at_key id m key = sum_at (label data) f data key)) ∧
  (NoDup (timePoints p) ∧ (∀ x, x ∈ timePoints p ↔ x ∈ map (label data) data)) ∧
  (NoDup (uniqueModels p) ∧ (∀ x, x ∈ uniqueModels p ↔ x ∈ map model_name data)).
Proof.
  unfold processRawData. cbv zeta. cbn [totalQuota totalTimes totalTokens timeQuotaMap timeTokensMap timeCountMap timePoints uniqueModels].
  destruct (processed_maps (data_crosses_year zone data) data (Raw 0 0 0 [] [] [] [] [])) as (Hq & Hk & Hc & Hp & Hm & H1 & H2 & H3).
  cbn [totalQuota totalTimes totalTokens timeQuotaMap timeTokensMap timeCountMap timePoints uniqueModels] in *.
  rewrite Hq, Hk, Hc, Hp, Hm, H1, H2, H3. split_and!; try done.
  - intros f m Hin. rewrite !elem_of_cons, elem_of_nil in Hin.
    destruct Hin as [[= -> ->]|[[= -> ->]|[[= -> ->]|[]]]]; apply (counting_nil id (label data)), bump_counts.
  - rewrite sort_perm. apply (fold_add_new_nil (label data)).
  - intros x. rewrite sort_perm. apply (fold_add_new_nil (label data)).
  - apply (fold_add_new_nil model_name).
  - apply (fold_add_new_nil model_name).
Qed.

(** A trend line sums to the total of its map. *)
Lemma trend_sum data f m :
  (f, m) ∈ [(quota, timeQuotaMap (processRawData zone data ty)); (token_used, timeTokensMap (processRawData zone data ty));
            (count, timeCountMap (processRawData zone data ty))] →
  zsum (map (get0 m) (timePoints (processRawData zone data ty))) = zsum (map f data).
Proof.
  intros Hin. destruct (processed data) as ((_ & Hmaps) & (Hnd & Hp) & _).
  destruct (Hmaps f m Hin) as (Hm & Hk & Hv & _). rewrite <- Hv.
  apply (values_lookup id); [done|done|]. intros k Hkk. by apply Hp, Hk.
Qed.

(** *** The cells *)

Lemma aggregate_counts sy (f : cell → Z) (g : row → Z) :
  (∀ c q n, f (Cell (cell_time c) (cell_model c) (cell_quota c + q) (cell_count c + n)) =
            f c + f (Cell [] [] q n)) →
  (∀ tm md, f (Cell tm md 0 0) = 0) → (∀ r, g r = f (Cell [] [] (quota r) (count r))) →
  counts f (λ r, cell_key (timestamp2string1 zone (created_at r) ty sy) (model_name r)) g (aggregate_row zone ty sy).
Proof.
  intros Hadd Hzero Hg m r. unfold aggregate_row. cbv zeta. rewrite assoc_set_keys, assoc_set_values.
  set (key := cell_key _ _). rewrite Hadd, <- Hg.
  assert (He : f (default (Cell (timestamp2string1 zone (created_at r) ty sy) (model_name r) 0 0) (assoc_get m key)) = at_key f m key).
  { unfold at_key. destruct (assoc_get m key); [done|apply Hzero]. }
  rewrite He. split_and!; [done|lia|]. intros k. rewrite at_key_set, Hadd, <- Hg, He. case_decide; [subst|]; lia.
Qed.

Lemma aggregated data :
  let agg := aggregateDataByTimeAndModel zone data ty in
  let key r := cell_key (label data r) (model_name r) in
  NoDup (map fst agg) ∧ (∀ k, k ∈ map fst agg ↔ k ∈ map key data) ∧
  (values cell_quota agg = zsum (map quota data) ∧ values cell_count agg = zsum (map count data)) ∧
  (∀ k, at_key cell_quota agg k = sum_at key quota data k ∧ at_key cell_count agg k = sum_at key count data k).
Proof.
  unfold aggregateDataByTimeAndModel.
  destruct (counting_nil cell_quota _ quota _ data (aggregate_counts (data_crosses_year zone data) cell_quota quota ltac:(done) ltac:(done) ltac:(done)))
    as (Hnd & Hin & Hvq & Haq).
  destruct (counting_nil cell_count _ count _ data (aggregate_counts (data_crosses_year zone data) cell_count count ltac:(done) ltac:(done) ltac:(done)))
    as (_ & _ & Hvc & Hac).
  by split_and!.
Qed.

Lemma model_totals_values agg : values id (model_totals agg) = values cell_count agg.
Proof.
  unfold model_totals.
  by destruct (counting_nil id (λ e : jsstr * cell, cell_model e.2) (λ e, cell_count e.2) _ agg (update_counts _ _)) as (_ & _ & -> & _).
Qed.

(** *** What is shown *)

Lemma total_zsum (l : counter) : total l = values id l.
Proof. unfold total. rewrite fold_sum. done. Qed.

Lemma descending_values (l : counter) : values id (descending l) = values id l.
Proof. unfold values, descending. by rewrite sort_perm. Qed.

Lemma rank_values (m : counter) : values id (rank_data t m) = values id m.
Proof.
  unfold rank_data. rewrite <- (descending_values m). destruct (_ <? _)%nat; [|done].
  rewrite <- (take_drop MAX_RANK_MODELS (descending m)) at 3. unfold values at 1 2. rewrite !map_app, !zsum_app.
  cbn [map snd]. rewrite total_zsum, zsum_cons. unfold values, zsum at 2. cbn. lia.
Qed.

(** Every view of the dashboard distributes the same totals.  The totals
    are the sums over the rows; the three trend lines, the pie and the model
    ranking, with its rest bar when there are more than twenty models, add up
    to them, whatever the time zone, the time unit and the rows. *)
Theorem totals_conserved data :
  let c := updateChartData zone localeCompare getItem t data ty in
  (consumeQuota c = zsum (map quota data) ∧ times c = zsum (map count data) ∧ consumeTokens c = zsum (map token_used data)) ∧
  (zsum (trend_consumeQuota (trendData c)) = consumeQuota c ∧ zsum (trend_times (trendData c)) = times c ∧
   zsum (trend_tokens (trendData c)) = consumeTokens c) ∧
  zsum (map snd (pieData c)) = times c ∧ zsum (map snd (rankData c)) = times c.
Proof.
  cbv zeta. unfold updateChartData, calculateTrendData.
  cbn [consumeQuota times consumeTokens trendData trend_consumeQuota trend_times trend_tokens pieData rankData].
  destruct (processed data) as (((H1 & H2 & H3) & _) & _). destruct (aggregated data) as (_ & _ & (_ & Hc) & _).
  rewrite H1, H2, H3. split_and!; try done.
  - apply trend_sum. by left.
  - apply trend_sum. by right; right; left.
  - apply trend_sum. by right; left.
  - change (values id (descending (model_totals (aggregateDataByTimeAndModel zone data ty))) = zsum (map count data)).
    by rewrite descending_values, model_totals_values.
  - change (values id (rank_data t (model_totals (aggregateDataByTimeAndModel zone data ty))) = zsum (map count data)).
    by rewrite rank_values, model_totals_values.
Qed.

(** *** Labels of one width *)

(** The years around a moment have four digits. *)
Definition dated (ts : Z) : Prop :=
  1000 ≤ getFullYear zone ts ≤ 9999 ∧ 1000 ≤ getFullYear zone (ts + 6 * 24 * 60 * 60) ≤ 9999.

Lemma pad2_length x : 0 ≤ x < 100 → length (pad2 x) = 2%nat.
Proof.
  intros Hx. unfold pad2. cbv zeta. destruct (decide (x < 10)).
  - assert (Hl : length (string_of_Z x) = 1%nat) by (apply (string_of_Z_length 0); [lia|by left|simpl; lia]).
    rewrite Hl. cbn [Nat.eqb]. by rewrite length_app, Hl.
  - assert (Hl : length (string_of_Z x) = 2%nat) by (apply (string_of_Z_length 1); [lia|right; simpl; lia|simpl; lia]).
    by rewrite Hl.
Qed.

Lemma year_length ts : 1000 ≤ getFullYear zone ts ≤ 9999 → length (string_of_Z (getFullYear zone ts)) = 4%nat.
Proof. intros H. apply (string_of_Z_length 3); [lia|right|]; simpl; lia. Qed.

Lemma date_ranges ts : 1 ≤ getMonth1 zone ts ≤ 12 ∧ 1 ≤ getDate zone ts ≤ 31 ∧ 0 ≤ getHours zone ts < 24.
Proof.
  unfold getMonth1, getDate, getHours. pose proof (Calendar.civil_range (local zone ts / 86400)) as H.
  destruct (Calendar.civil _) as [[y m] d]. cbn [fst snd]. destruct H. split_and!; try lia.
  - apply Z.div_pos; [|lia]. apply Z.mod_pos_bound. lia.
  - apply Z.div_lt_upper_bound; [lia|]. pose proof (Z.mod_pos_bound (local zone ts) 86400). lia.
Qed.

Definition day_width (sy : bool) : nat := if sy then 10 else 5.
Definition width (sy : bool) : nat :=
  if streq ty (js "hour") then day_width sy + 6 else if streq ty (js "week") then day_width sy + 3 + day_width sy else day_width sy.

Lemma day_text_length ts sy : 1000 ≤ getFullYear zone ts ≤ 9999 → length (day_text zone ts sy) = day_width sy.
Proof.
  intros Hy. destruct (date_ranges ts) as (Hm & Hd & _). unfold day_text. rewrite !length_app, !pad2_length by lia.
  destruct sy; [rewrite length_app, year_length by done|]; reflexivity.
Qed.

Lemma label_length ts sy : dated ts → length (timestamp2string1 zone ts ty sy) = width sy.
Proof.
  intros [H1 H2]. unfold timestamp2string1, width. destruct (date_ranges ts) as (_ & _ & Hh).
  destruct (streq ty (js "hour")); [|destruct (streq ty (js "week"))]; rewrite ?length_app, !day_text_length by done.
  - rewrite pad2_length by lia. reflexivity.
  - destruct sy; reflexivity.
  - done.
Qed.

Lemma cell_key_inj a b m n : length a = length b → cell_key a m = cell_key b n → a = b ∧ m = n.
Proof. intros Hl H. apply app_inj_1 in H as [-> H]; [|done]. split; [done|]. by injection H. Qed.

(** *** Sums over a partition of the rows *)

(** The rows of a label and a model. *)
Definition cell_sum (data : list row) (g : row → Z) (time model : jsstr) : Z :=
  sum_at model_name (λ r, if decide (label data r = time) then g r else 0) data model.

Lemma cell_sum_key data g time model :
  Forall (λ r, dated (created_at r)) data → length time = width (data_crosses_year zone data) →
  sum_at (λ r, cell_key (label data r) (model_name r)) g data (cell_key time model) = cell_sum data g time model.
Proof.
  intros Hd Ht. unfold cell_sum, sum_at. f_equal. apply map_ext_in. intros r Hr%list_elem_of_In.
  rewrite Forall_forall in Hd. assert (Hl : length (label data r) = length time) by (rewrite Ht; by apply label_length, Hd).
  destruct (decide (model_name r = model)) as [->|]; destruct (decide (label data r = time)) as [->|].
  - by rewrite decide_True.
  - rewrite decide_False; [done|]. intros []%cell_key_inj; done.
  - rewrite decide_False; [done|]. intros []%cell_key_inj; done.
  - rewrite decide_False; [done|]. intros []%cell_key_inj; done.
Qed.

Lemma models_sum data g time :
  zsum (map (cell_sum data g time) (uniqueModels (processRawData zone data ty))) = sum_at (label data) g data time.
Proof.
  destruct (processed data) as (_ & _ & (Hnd & Hin)). unfold cell_sum. rewrite partition_sum; [done|done|].
  intros r Hr. apply Hin. apply list_elem_of_fmap. eauto.
Qed.

(** *** The points of the charts *)

(** A point carries the cell of its label and model, and the sum of its label. *)
Lemma time_data_points agg models time p : p ∈ time_data getItem agg models time →
  p_time p = time ∧ p_model p ∈ models ∧ rawQuota p = at_key cell_quota agg (cell_key time (p_model p)) ∧
  timeSum p = zsum (map (λ model, at_key cell_quota agg (cell_key time model)) models).
Proof.
  unfold time_data. cbv zeta. set (pts := map _ models). rewrite list_elem_of_fmap. intros (p' & -> & Hp').
  rewrite sort_perm in Hp'. apply list_elem_of_fmap in Hp' as (model & -> & Hm).
  cbn [p_time p_model rawQuota timeSum]. split_and!; [done|done|unfold at_key; by destruct (assoc_get _ _)|].
  rewrite fold_sum, Z.add_0_l. unfold pts. by rewrite map_map.
Qed.

Lemma time_data_sum agg models time :
  zsum (map rawQuota (time_data getItem agg models time)) = zsum (map (λ model, at_key cell_quota agg (cell_key time model)) models).
Proof.
  unfold time_data. cbv zeta. rewrite map_map. cbn [rawQuota]. by rewrite sort_perm, map_map.
Qed.

Lemma line_points agg models axis p : p ∈ line_data localeCompare getItem agg models axis →
  p_time p ∈ axis ∧ rawQuota p = at_key cell_quota agg (cell_key (p_time p) (p_model p)) ∧
  timeSum p = zsum (map (λ model, at_key cell_quota agg (cell_key (p_time p) model)) models).
Proof.
  unfold line_data. rewrite sort_perm, elem_of_flat, elem_of_nil. intros [[]|(time & Ht & Hp)].
  destruct (time_data_points _ _ _ _ Hp) as (-> & _ & Hq & Hs). done.
Qed.

Lemma model_line_points agg models axis p : p ∈ model_line_data localeCompare agg models axis →
  mp_time p ∈ axis ∧ mp_count p = at_key cell_count agg (cell_key (mp_time p) (mp_model p)).
Proof.
  unfold model_line_data. rewrite sort_perm, elem_of_flat, elem_of_nil. intros [[]|(time & Ht & Hp)].
  apply list_elem_of_fmap in Hp as (m & -> & _). cbn. split; [done|]. unfold at_key. by destruct (assoc_get _ _).
Qed.

(** *** The axis *)

(** A cell is named after one of the rows. *)
Lemma cell_origin data :
  Forall (λ e, ∃ r, r ∈ data ∧ e.1 = cell_key (label data r) (model_name r) ∧ cell_time e.2 = label data r ∧ cell_model e.2 = model_name r)
    (aggregateDataByTimeAndModel zone data ty).
Proof.
  unfold aggregateDataByTimeAndModel. apply fold_left_inv; [constructor|]. intros m r Hr Hm. unfold aggregate_row. cbv zeta.
  fold (label data r). apply assoc_set_Forall; [|done].
  destruct (assoc_get m _) as [c|] eqn:E; cbn [default from_option id fst snd cell_time cell_model]; [|by exists r].
  apply assoc_get_In in E. rewrite Forall_forall in Hm. destruct (Hm _ E) as (r' & Hr' & Hk & Ht & Hmd).
  cbn [fst snd] in *. exists r'. auto.
Qed.

Definition labels (data : list row) : list jsstr := uniq (map (label data) data).
Definition axis (data : list row) : list jsstr :=
  generateChartTimePoints zone (aggregateDataByTimeAndModel zone data ty) data ty.

Lemma cell_times data : Forall (λ r, dated (created_at r)) data →
  uniq (map (λ e, cell_time e.2) (aggregateDataByTimeAndModel zone data ty)) ≡ₚ labels data.
Proof.
  intros Hd. apply NoDup_Permutation; [apply uniq_NoDup..|]. intros x. unfold labels. rewrite !elem_of_uniq, !list_elem_of_fmap.
  pose proof (cell_origin data) as Ho. rewrite Forall_forall in Ho. rewrite Forall_forall in Hd. split.
  - intros (e & -> & He). destruct (Ho e He) as (r & Hr & _ & -> & _). eauto.
  - intros (r & -> & Hr). destruct (aggregated data) as (_ & Hk & _).
    destruct (proj1 (list_elem_of_fmap _ _ _) (proj2 (Hk (cell_key (label data r) (model_name r))) ltac:(apply list_elem_of_fmap; eauto)))
      as (e & Hkey & He).
    exists e. split; [|done]. destruct (Ho e He) as (r' & Hr' & Hke & Ht & _).
    rewrite Ht. rewrite Hke in Hkey. apply cell_key_inj in Hkey as [-> _]; [done|].
    unfold label. by rewrite !label_length by auto.
Qed.

(** With seven labels or more the axis has exactly the labels of the rows. *)
Lemma axis_full data : Forall (λ r, dated (created_at r)) data → (7 ≤ length (labels data))%nat → axis data ≡ₚ labels data.
Proof.
  intros Hd Hl. unfold axis, generateChartTimePoints. pose proof (cell_times data Hd) as Hp. cbv zeta.
  rewrite (Permutation_length Hp). unfold MAX_TREND_POINTS. destruct (Nat.ltb_spec (length (labels data)) 7); [lia|]. done.
Qed.

Definition written_alike (data : list row) : Prop :=
  (7 ≤ length (labels data))%nat ∨
  Forall dated (generated_timestamps data ty) ∧ isDataCrossYear zone (generated_timestamps data ty) = data_crosses_year zone data.

Lemma axis_width data time : Forall (λ r, dated (created_at r)) data → written_alike data → time ∈ axis data →
  length time = width (data_crosses_year zone data).
Proof.
  intros Hd Hw. assert (Hlab : ∀ x, x ∈ labels data → length x = width (data_crosses_year zone data)).
  { intros x. unfold labels. rewrite elem_of_uniq, list_elem_of_fmap. intros (r & -> & Hr).
    rewrite Forall_forall in Hd. by apply label_length, Hd. }
  destruct (decide (7 ≤ length (labels data))%nat) as [Hl|Hl].
  { intros H. apply Hlab. by rewrite <- axis_full. }
  destruct Hw as [|[Hg Hsy]]; [done|]. unfold axis, generateChartTimePoints. cbv zeta.
  rewrite (Permutation_length (cell_times data Hd)). unfold MAX_TREND_POINTS.
  destruct (Nat.ltb_spec (length (labels data)) 7); [|lia]. rewrite list_elem_of_fmap. intros (ts & -> & Hts).
  rewrite Hsy. rewrite Forall_forall in Hg. by apply label_length, Hg.
Qed.

Lemma cells_exact data g (f : cell → Z) time model :
  Forall (λ r, dated (created_at r)) data → length time = width (data_crosses_year zone data) →
  (f, g) ∈ [(cell_quota, quota); (cell_count, count)] →
  at_key f (aggregateDataByTimeAndModel zone data ty) (cell_key time model) = cell_sum data g time model.
Proof.
  intros Hd Ht Hfg. destruct (aggregated data) as (_ & _ & _ & Ha). destruct (Ha (cell_key time model)) as [Hq Hc].
  rewrite !elem_of_cons, elem_of_nil in Hfg. rewrite <- cell_sum_key by done.
  by destruct Hfg as [[= -> ->]|[[= -> ->]|[]]].
Qed.

Lemma axis_sum data (f : cell → Z) g : Forall (λ r, dated (created_at r)) data → (7 ≤ length (labels data))%nat →
  (f, g) ∈ [(cell_quota, quota); (cell_count, count)] →
  zsum (map (λ time, zsum (map (λ model, at_key f (aggregateDataByTimeAndModel zone data ty) (cell_key time model))
    (uniqueModels (processRawData zone data ty)))) (axis data)) = zsum (map g data).
Proof.
  intros Hd Hl Hfg. rewrite <- (partition_sum (label data) g (axis data) data).
  - f_equal. apply map_ext_in. intros time Ht%list_elem_of_In. rewrite <- models_sum. f_equal. apply map_ext. intros model.
    apply cells_exact; [done| |done]. apply axis_width; [done|by left|done].
  - rewrite axis_full by done. apply uniq_NoDup.
  - intros r Hr. rewrite axis_full by done. apply elem_of_uniq, list_elem_of_fmap. eauto.
Qed.

(** C30. The cost chart and the call chart are exact.  When the labels of the
    axis are written like those of the rows (both with the year or both
    without), every point is the sum of the rows with its label and model and
    carries the sum of its label; and when the rows have seven labels or more,
    so that the axis is made of them, nothing is left out: the points add up to
    the totals in the titles. *)
Theorem points_exact data :
  Forall (λ r, dated (created_at r)) data → written_alike data →
  let c := updateChartData zone localeCompare getItem t data ty in
  (∀ p, p ∈ lineData c → rawQuota p = cell_sum data quota (p_time p) (p_model p) ∧
                         timeSum p = sum_at (label data) quota data (p_time p)) ∧
  (∀ p, p ∈ modelLineData c → mp_count p = cell_sum data count (mp_time p) (mp_model p)) ∧
  ((7 ≤ length (labels data))%nat →
   zsum (map rawQuota (lineData c)) = consumeQuota c ∧ zsum (map mp_count (modelLineData c)) = times c).
Proof.
  intros Hd Hw. cbv zeta. unfold updateChartData. cbn [lineData modelLineData consumeQuota times]. fold (axis data).
  destruct (processed data) as (((H1 & H2 & _) & _) & _). rewrite H1, H2. split_and!.
  - intros p Hp. destruct (line_points _ _ _ _ Hp) as (Ht & -> & ->). pose proof (axis_width data _ Hd Hw Ht) as Hlen. split.
    + apply cells_exact; [done..|by left].
    + rewrite <- models_sum. f_equal. apply map_ext. intros m. apply cells_exact; [done..|by left].
  - intros p Hp. destruct (model_line_points _ _ _ _ Hp) as (Ht & ->). apply cells_exact; [done|by apply axis_width|by right; left].
  - intros Hl. unfold line_data, model_line_data. rewrite !sort_perm, !zsum_flat. cbn [map].
    rewrite <- (axis_sum data cell_quota quota), <- (axis_sum data cell_count count) by (done || by left || by right; left).
    split; cbn [zsum fold_right]; rewrite Z.add_0_l; f_equal; apply map_ext; intros time; [apply time_data_sum|].
    rewrite map_map. done.
Qed.

Lemma label_third ts sy : dated ts →
  ∃ c, timestamp2string1 zone ts ty sy !! 2%nat = Some c ∧ is_digit c = sy.
Proof.
  intros [Hy _]. assert (H : ∃ c, day_text zone ts sy !! 2%nat = Some c ∧ is_digit c = sy).
  { unfold day_text. destruct (date_ranges ts) as (Hm & _ & _). destruct sy.
    - destruct (digits_third _ Hy) as (c & Hc & Hd). exists c. split; [|done].
      rewrite <- app_assoc. by apply lookup_app_l_Some.
    - exists 45%N. split; [|done]. rewrite app_nil_l, lookup_app_r by (rewrite pad2_length by lia; lia).
      rewrite pad2_length by lia. done. }
  destruct H as (c & Hc & Hd). exists c. split; [|done]. unfold timestamp2string1.
  destruct (streq ty (js "hour")); [|destruct (streq ty (js "week"))]; [by apply lookup_app_l_Some..|done].
Qed.

(** With fewer than seven labels the axis is computed backwards from the
    last row, and whether its labels show the year is decided from the axis
    alone.  If the rows span a new year and the axis does not, no label of the
    axis matches a row: every point of both charts is zero, whatever was used. *)
Theorem crossing_year_chart_blank data :
  Forall (λ r, dated (created_at r)) data → Forall dated (generated_timestamps data ty) →
  (length (labels data) < 7)%nat → data_crosses_year zone data = true → isDataCrossYear zone (generated_timestamps data ty) = false →
  let c := updateChartData zone localeCompare getItem t data ty in
  (∀ p, p ∈ lineData c → rawQuota p = 0) ∧ (∀ p, p ∈ modelLineData c → mp_count p = 0).
Proof.
  intros Hd Hg Hl Hdy Hgy. cbv zeta. unfold updateChartData. cbn [lineData modelLineData]. fold (axis data).
  assert (Hzero : ∀ (f : cell → Z) time model, time ∈ axis data →
    at_key f (aggregateDataByTimeAndModel zone data ty) (cell_key time model) = 0).
  { intros f time model Ht. unfold at_key. destruct (aggregated data) as (_ & Hk & _).
    rewrite (proj2 (assoc_get_None _ _)); [done|]. rewrite Hk, list_elem_of_fmap. intros (r & Hkey & Hr).
    unfold axis, generateChartTimePoints in Ht. cbv zeta in Ht. rewrite (Permutation_length (cell_times data Hd)) in Ht.
    unfold MAX_TREND_POINTS in Ht. destruct (Nat.ltb_spec (length (labels data)) 7) as [_|]; [|lia].
    rewrite Hgy in Ht. apply list_elem_of_fmap in Ht as (ts & -> & Hts). rewrite Forall_forall in Hg. rewrite Forall_forall in Hd.
    destruct (label_third ts false (Hg _ Hts)) as (c & Hc & Hcd). destruct (label_third (created_at r) true (Hd _ Hr)) as (d & Hd' & Hdd).
    unfold label in Hkey. rewrite Hdy in Hkey. unfold cell_key in Hkey.
    apply (f_equal (lookup 2%nat)) in Hkey. rewrite (lookup_app_l_Some _ _ _ _ Hc), (lookup_app_l_Some _ _ _ _ Hd') in Hkey. congruence. }
  split; intros p Hp.
  - destruct (line_points _ _ _ _ Hp) as (Ht & -> & _). by apply Hzero.
  - destruct (model_line_points _ _ _ _ Hp) as (Ht & ->). by apply Hzero.
Qed.

(** *** Sizes *)

Lemma raw_bounds sy data bound : Forall nonneg data → small data bound →
  Forall (λ z, 0 ≤ z ≤ bound) (raw_numbers (fold_left (process_row zone ty sy) data (Raw 0 0 0 [] [] [] [] []))).
Proof.
  intros Hnn (Hq & Hc & Ht). unfold raw_numbers.
  destruct (processed_maps sy data (Raw 0 0 0 [] [] [] [] [])) as (-> & -> & -> & _ & _ & -> & -> & ->).
  pose proof (λ f, nonneg_field data f Hnn) as Hf.
  assert (Hmap : ∀ f, f ∈ [quota; count; token_used] → zsum (map f data) ≤ bound → Forall (λ z, 0 ≤ z ≤ bound)
    (map snd (fold_left (λ m r, let lab := timestamp2string1 zone (created_at r) ty sy in
                                updateMapValue (initializeMaps lab m) lab (f r)) data []))).
  { intros f Hin Hb. apply Forall_map_snd. 
    pose proof (counting_bounds id _ f _ data (bump_counts (λ r, timestamp2string1 zone (created_at r) ty sy) f) (Hf f Hin)) as Hm.
    eapply Forall_impl; [exact Hm|cbn; lia]. }
  pose proof (zsum_nonneg quota data (Hf quota ltac:(by left))). pose proof (zsum_nonneg count data (Hf count ltac:(by right; left))).
  pose proof (zsum_nonneg token_used data (Hf token_used ltac:(by right; right; left))).
  cbn [totalQuota totalTimes totalTokens]. apply Forall_app. split; [|rewrite !Forall_app; split_and!].
  - apply Forall_cons. split; [lia|]. apply Forall_cons. split; [lia|]. apply Forall_singleton. lia.
  - apply Hmap; [by left|done].
  - apply Hmap; [by right; right; left|done].
  - apply Hmap; [by right; left|done].
Qed.

Lemma cell_bounds sy data bound : Forall nonneg data → small data bound →
  Forall (λ e, 0 ≤ cell_quota e.2 ≤ bound ∧ 0 ≤ cell_count e.2 ≤ bound) (fold_left (aggregate_row zone ty sy) data []).
Proof.
  intros Hnn (Hq & Hc & _).
  pose proof (nonneg_field data quota Hnn ltac:(by left)) as Hq0.
  pose proof (nonneg_field data count Hnn ltac:(by right; left)) as Hc0.
  pose proof (counting_bounds cell_quota _ quota _ data (aggregate_counts sy cell_quota quota ltac:(done) ltac:(done) ltac:(done)) Hq0) as Hb1.
  pose proof (counting_bounds cell_count _ count _ data (aggregate_counts sy cell_count count ltac:(done) ltac:(done) ltac:(done)) Hc0) as Hb2.
  rewrite Forall_forall in Hb1. rewrite Forall_forall in Hb2. apply Forall_forall. intros e He.
  specialize (Hb1 e He). specialize (Hb2 e He). cbn in *. lia.
Qed.

Lemma model_bounds data c1 c2 bound : Forall nonneg data → small data bound →
  aggregateDataByTimeAndModel zone data ty = c1 ++ c2 → Forall (λ e, 0 ≤ e.2 ≤ bound) (model_totals c1).
Proof.
  intros Hnn Hs Hagg. pose proof (cell_bounds (data_crosses_year zone data) data bound Hnn Hs) as Hcells.
  fold (aggregateDataByTimeAndModel zone data ty) in Hcells. rewrite Hagg in Hcells. apply Forall_app in Hcells as [H1 H2].
  assert (Hpos : ∀ l, Forall (λ e : jsstr * cell, 0 ≤ cell_quota e.2 ≤ bound ∧ 0 ≤ cell_count e.2 ≤ bound) l →
    Forall (λ e : jsstr * cell, 0 ≤ cell_count e.2) l) by (intros l Hl; eapply Forall_impl; [exact Hl|cbn; lia]).
  destruct (aggregated data) as (_ & _ & (_ & Hv) & _). rewrite Hagg in Hv. unfold values in Hv. rewrite map_app, zsum_app in Hv.
  pose proof (zsum_nonneg _ c2 (Hpos c2 H2)). destruct Hs as (_ & Hc & _).
  eapply Forall_impl; [apply (counting_bounds id (λ e : jsstr * cell, cell_model e.2) (λ e, cell_count e.2)); [apply update_counts|by apply Hpos]|].
  cbn. lia.
Qed.

(** The sums over the rows stay in the range in which numbers are exact
    integers, if no row is negative and the grand totals are in that range: at
    every moment of both loops over the rows, each total, each entry of the three
    time maps and each cell lies between zero and the bound, and so does each count
    of a model while the cells are added up. *)
Theorem sums_exact d1 d2 c1 c2 sy : let bound := 2 ^ 53 in
  Forall nonneg (d1 ++ d2) → small (d1 ++ d2) bound →
  aggregateDataByTimeAndModel zone (d1 ++ d2) ty = c1 ++ c2 →
  Forall (λ z, 0 ≤ z ≤ bound) (raw_numbers (fold_left (process_row zone ty sy) d1 (Raw 0 0 0 [] [] [] [] []))) ∧
  Forall (λ e, 0 ≤ cell_quota e.2 ≤ bound ∧ 0 ≤ cell_count e.2 ≤ bound) (fold_left (aggregate_row zone ty sy) d1 []) ∧
  Forall (λ e, 0 ≤ e.2 ≤ bound) (model_totals c1).
Proof.
  intros bound Hnn Hs Hagg. destruct (small_prefix d1 d2 bound Hnn Hs) as [Hs1 Hnn1].
  split_and!; [by apply raw_bounds|by apply cell_bounds|exact (model_bounds _ _ _ bound Hnn Hs Hagg)].
Qed.

(** *** Users *)

Lemma user_totals_spec data :
  NoDup (map fst (user_totals data)) ∧ (∀ u, u ∈ map fst (user_totals data) ↔ u ∈ map username data) ∧
  ∀ u, at_key id (user_totals data) u = sum_at username quota data u.
Proof.
  unfold user_totals. destruct (counting_nil id username quota _ data (set_counts username quota)) as (H1 & H2 & _ & H3). done.
Qed.

Lemma descending_strong (l : counter) : StronglySorted (λ a b : jsstr * Z, b.2 ≤ a.2) (descending l).
Proof.
  apply Sorted_StronglySorted; [intros a b c; cbn; lia|].
  assert (Hs : Sorted (λ a b : jsstr * Z, b.2 - a.2 ≤ 0) (descending l)) by (apply sort_sorted; intros; lia).
  induction Hs as [|a l' Hs IH Hr]; constructor; [done|]. destruct Hr; constructor. lia.
Qed.

(** The loop over the rows, as a loop over the rows of the top users. *)
Lemma user_rows sy top data s :
  let lab r := timestamp2string1 zone (created_at r) ty sy in
  let mine := List.filter (λ r, bool_decide (username r ∈ top) && negb (is_empty (username r))) data in
  fold_left (user_row zone ty sy top) data s =
  (fold_left (λ m r, assoc_set m (cell_key (lab r) (username r)) (get0 m (cell_key (lab r) (username r)) + quota r)) mine s.1,
   fold_left (λ l r, add_new l (lab r)) data s.2).
Proof.
  cbv zeta. revert s. induction data as [|r data IH]; intros [m l]; cbn [fold_left List.filter fst snd]; [done|].
  rewrite IH. unfold user_row. by destruct (_ && _).
Qed.

(** The rows of a label and a user. *)
Definition user_sum (data : list row) (time user : jsstr) : Z :=
  sum_at (label data) (λ r, if decide (username r = user) then quota r else 0) data time.

Lemma user_cell data top time user :
  Forall (λ r, dated (created_at r)) data → length time = width (data_crosses_year zone data) → user ∈ top → user ≠ [] →
  get0 (fold_left (user_row zone ty (data_crosses_year zone data) top) data ([], [])).1 (cell_key time user) = user_sum data time user.
Proof.
  intros Hd Ht Hu Hne. rewrite user_rows. cbn [fst snd]. change (get0 ?m ?k) with (at_key id m k).
  set (mine := List.filter _ data). fold (label data).
  destruct (counting_nil id _ quota _ mine (set_counts (λ r, cell_key (label data r) (username r)) quota)) as (_ & _ & _ & Ha).
  cbv zeta in Ha. unfold label in Ha at 1 2. rewrite Ha. unfold sum_at, user_sum, mine. rewrite Forall_forall in Hd.
  assert (Hl : ∀ r, r ∈ data → length (label data r) = length time) by (intros r Hr; rewrite Ht; by apply label_length, Hd).
  apply filter_sum; intros r Hr Hk.
  - destruct (decide (label data r = time)) as [He|]; [destruct (decide (username r = user)) as [He'|]|].
    + rewrite decide_True; [done|]. by rewrite He, He'.
    + rewrite decide_False; [done|]. intros []%cell_key_inj; auto.
    + rewrite decide_False; [done|]. intros []%cell_key_inj; auto.
  - destruct (decide (label data r = time)); [|done]. destruct (decide (username r = user)) as [He|]; [|done].
    rewrite He, bool_decide_eq_true_2 in Hk by done. by destruct user.
Qed.

Lemma ranking_exact data limit e : e ∈ take limit (descending (user_totals data)) →
  e.2 = sum_at username quota data e.1 ∧ e.1 ∈ map username data.
Proof.
  intros He. assert (Hin : e ∈ user_totals data).
  { unfold descending in He. rewrite <- (sort_perm (λ a b, b.2 - a.2)). eapply subseteq_take, He. }
  destruct (user_totals_spec data) as (Hnd & Hk & Ha). split.
  - rewrite <- Ha. unfold at_key. by rewrite (assoc_get_NoDup _ _ Hnd Hin).
  - apply Hk, list_elem_of_fmap. eauto.
Qed.

Lemma ranked_names data limit : NoDup (map fst (take limit (descending (user_totals data)))).
Proof.
  destruct (user_totals_spec data) as (Hnd & _). rewrite <- firstn_map. eapply sublist_NoDup; [|apply sublist_take].
  unfold descending. by rewrite sort_perm.
Qed.

Lemma ranked_above data limit u e : u ∈ map username data → u ∉ map fst (take limit (descending (user_totals data))) →
  e ∈ take limit (descending (user_totals data)) → sum_at username quota data u ≤ e.2.
Proof.
  intros Hu Hnot He. destruct (user_totals_spec data) as (Hnd & Hk & Ha).
  apply Hk, list_elem_of_fmap in Hu as (x & -> & Hx).
  assert (Hin : x ∈ descending (user_totals data)) by (unfold descending; by rewrite sort_perm).
  rewrite <- (take_drop limit (descending (user_totals data))) in Hin. apply elem_of_app in Hin as [Hin|Hin].
  { destruct Hnot. apply list_elem_of_fmap. eauto. }
  pose proof (descending_strong (user_totals data)) as Hs. rewrite <- (take_drop limit (descending (user_totals data))) in Hs.
  rewrite <- Ha. unfold at_key. rewrite (assoc_get_NoDup _ _ Hnd Hx). cbn [from_option id].
  apply (StronglySorted_app_1_elem_of _ _ _ e x Hs He Hin).
Qed.

Lemma ranked_count data limit :
  length (take limit (descending (user_totals data))) = Nat.min limit (length (uniq (map username data))).
Proof.
  rewrite length_take. f_equal. destruct (user_totals_spec data) as (Hnd & Hk & _). unfold descending. rewrite sort_perm.
  rewrite <- (length_map fst). apply Permutation_length, NoDup_Permutation; [done|apply uniq_NoDup|].
  intros u. by rewrite Hk, elem_of_uniq.
Qed.

(** The columns of one user add up to the user's total. *)
Lemma user_trend_sum data limit u :
  Forall (λ r, dated (created_at r)) data → u ∈ topUsers (processUserData zone data ty limit) → u ≠ [] →
  zsum (map (λ e, if decide (u = e.1.2) then e.2 else 0) (userTrend (processUserData zone data ty limit))) =
  sum_at username quota data u.
Proof.
  intros Hd. unfold processUserData. cbv zeta. set (top := map fst _).
  pose proof (ranked_names data limit) as Hnd. fold top in Hnd. intros Hu Hne.
  pose proof (user_rows (data_crosses_year zone data) top data ([], [])) as Hrows. cbv zeta in Hrows. cbn [fst snd] in Hrows.
  fold (label data) in Hrows.
  assert (Htimes : ∀ x, x ∈ fold_left (λ l r, add_new l (label data r)) data [] ↔ x ∈ map (label data) data).
  { apply fold_add_new_nil. }
  pose proof (user_cell data top) as Hcell. destruct (fold_left (user_row _ _ _ _) _ _) as [m pts] eqn:E. cbn [fst] in Hcell.
  assert (Hpts : pts = fold_left (λ l r, add_new l (label data r)) data []) by (by injection Hrows).
  cbn [userTrend topUsers] in *. rewrite zsum_flat. cbn [map]. rewrite sort_perm. cbn [zsum fold_right]. rewrite Z.add_0_l.
  transitivity (zsum (map (λ time, user_sum data time u) pts)).
  - f_equal. apply map_ext_in. intros time Ht%list_elem_of_In. rewrite map_map. cbn [fst snd].
    rewrite <- (Hcell time u Hd); [|rewrite Hpts in Ht; apply Htimes, list_elem_of_fmap in Ht as (r & -> & Hr)|done|done].
    + rewrite <- (indicator u (get0 m (cell_key time u)) top Hnd Hu) at 1. f_equal. apply map_ext. intros x.
      by destruct (decide (u = x)) as [->|].
    + rewrite Forall_forall in Hd. by apply label_length, Hd.
  - unfold user_sum. rewrite partition_sum; [done| |].
    + rewrite Hpts. apply (fold_add_new_nil (label data)).
    + intros r Hr. rewrite Hpts. apply Htimes, list_elem_of_fmap. eauto.
Qed.

(** C40. The user ranking is the true one, and the user trend belongs to it.
    Let the rows be dated, in local time and six days later too, in years of four
    digits.  The ranking has as many users as there are, up to the limit, each once
    and with the exact sum of the user's rows, in descending order; a user who is
    left out used no more than any user who is in; and the columns of a ranked
    user with a name in the trend chart add up to the user's place in the ranking. *)
Theorem user_ranking_true data limit :
  Forall (λ r, dated (created_at r)) data →
  let d := processUserData zone data ty limit in
  length (rankingData d) = Nat.min limit (length (uniq (map username data))) ∧
  (∀ u q, (u, q) ∈ rankingData d → q = sum_at username quota data u) ∧
  (StronglySorted (λ a b : jsstr * Z, b.2 ≤ a.2) (rankingData d) ∧ NoDup (map fst (rankingData d))) ∧
  (∀ u v q, u ∈ map username data → u ∉ map fst (rankingData d) → (v, q) ∈ rankingData d → sum_at username quota data u ≤ q) ∧
  (∀ u q, (u, q) ∈ rankingData d → u ≠ [] → zsum (map (λ e, if decide (u = e.1.2) then e.2 else 0) (userTrend d)) = q).
Proof.
  intros Hd d. assert (Hr : rankingData d = take limit (descending (user_totals data))).
  { unfold d, processUserData. cbv zeta. by destruct (fold_left _ _ _). }
  assert (Ht : topUsers d = map fst (take limit (descending (user_totals data)))).
  { unfold d, processUserData. cbv zeta. by destruct (fold_left _ _ _). }
  rewrite Hr. split_and!.
  - apply ranked_count.
  - intros u q He. apply (ranking_exact data limit (u, q) He).
  - pose proof (descending_strong (user_totals data)) as Hs. rewrite <- (take_drop limit (descending (user_totals data))) in Hs.
    by apply StronglySorted_app_1_l in Hs.
  - apply ranked_names.
  - intros u v q Hu Hn He. by apply (ranked_above data limit u (v, q)).
  - intros u q He Hne. destruct (ranking_exact data limit (u, q) He) as [Hq _]. cbn [fst snd] in Hq. rewrite Hq.
    apply user_trend_sum; [done| |done]. change (u ∈ topUsers d). rewrite Ht. apply list_elem_of_fmap. by exists (u, q).
Qed.
End Totals.

(** ** Examples *)

Definition china (ts : Z) : Z := 28800.
Definition by_units (a b : jsstr) : Z := unit_order a b.
Definition plain (s : jsstr) : jsstr := s.
Definition dollars (k : jsstr) : option jsstr := if streq k (js "quota_per_unit") then Some (js "500000") else None.

(** One row a day from 31 December 2024, 8 pm. *)
Definition week_rows : list row :=
  map (λ i, Row (1735646400 + 86400 * Z.of_nat i) (if Nat.even i then js "gpt-4o" else js "o3") (js "ann") (100 + Z.of_nat i) 1 10)
    (seq 0 8).

(** Two rows on both sides of a new year, months apart. *)
Definition year_rows : list row :=
  [Row 1735646400 (js "gpt-4o") (js "ann") 700 7 70; Row 1748779200 (js "gpt-4o") (js "bob") 300 3 30].

Ltac all_dated := repeat (apply Forall_cons; split; [split; split; vm_compute; discriminate|]); apply Forall_nil; exact I.

Lemma points_exact_witness :
  let c := updateChartData china by_units dollars plain week_rows (js "day") in
  (∀ p, p ∈ lineData c → rawQuota p = cell_sum china (js "day") week_rows quota (p_time p) (p_model p) ∧
                         timeSum p = sum_at (label china (js "day") week_rows) quota week_rows (p_time p)) ∧
  (∀ p, p ∈ modelLineData c → mp_count p = cell_sum china (js "day") week_rows count (mp_time p) (mp_model p)) ∧
  ((7 ≤ length (labels china (js "day") week_rows))%nat →
   zsum (map rawQuota (lineData c)) = consumeQuota c ∧ zsum (map mp_count (modelLineData c)) = times c).
Proof.
  apply points_exact; [all_dated|]. left. apply Nat.leb_le. vm_compute. reflexivity.
Defined.

Lemma crossing_year_chart_blank_witness :
  let c := updateChartData china by_units dollars plain year_rows (js "day") in
  (consumeQuota c = 1000 ∧ length (lineData c) = 7%nat) ∧
  (∀ p, p ∈ lineData c → rawQuota p = 0) ∧ (∀ p, p ∈ modelLineData c → mp_count p = 0).
Proof.
  split; [split; vm_compute; reflexivity|].
  apply crossing_year_chart_blank; [all_dated|all_dated|apply Nat.ltb_lt; vm_compute; reflexivity|vm_compute; reflexivity..].
Defined.

Lemma sums_exact_witness :
  let bound := 2 ^ 53 in
  Forall (λ z, 0 ≤ z ≤ bound) (raw_numbers (fold_left (process_row china (js "day") true) (take 5 week_rows) (Raw 0 0 0 [] [] [] [] []))) ∧
  Forall (λ e, 0 ≤ cell_quota e.2 ≤ bound ∧ 0 ≤ cell_count e.2 ≤ bound) (fold_left (aggregate_row china (js "day") true) (take 5 week_rows) []) ∧
  Forall (λ e, 0 ≤ e.2 ≤ bound) (model_totals (aggregateDataByTimeAndModel china week_rows (js "day"))).
Proof.
  apply (sums_exact china (js "day") (take 5 week_rows) (drop 5 week_rows) _ []).
  - rewrite take_drop. repeat (apply Forall_cons; split; [split_and!; vm_compute; discriminate|]). apply Forall_nil; exact I.
  - rewrite take_drop. split_and!; vm_compute; discriminate.
  - by rewrite take_drop, app_nil_r.
Defined.

Lemma user_ranking_true_witness :
  let d := processUserData china year_rows (js "day") 1 in
  rankingData d = [(js "ann", 700)] ∧
  length (rankingData d) = Nat.min 1 (length (uniq (map username year_rows))) ∧
  (∀ u q, (u, q) ∈ rankingData d → q = sum_at username quota year_rows u) ∧
  (StronglySorted (λ a b : jsstr * Z, b.2 ≤ a.2) (rankingData d) ∧ NoDup (map fst (rankingData d))) ∧
  (∀ u v q, u ∈ map username year_rows → u ∉ map fst (rankingData d) → (v, q) ∈ rankingData d → sum_at username quota year_rows u ≤ q) ∧
  (∀ u q, (u, q) ∈ rankingData d → u ≠ [] → zsum (map (λ e, if decide (u = e.1.2) then e.2 else 0) (userTrend d)) = q).
Proof.
  split; [vm_compute; reflexivity|]. apply user_ranking_true. all_dated.
Defined.

(** Within one year the axis of seven days still leaves older rows out. *)
Example sparse_rows_dropped :
  let c := updateChartData china by_units dollars plain
    [Row 1748779200 (js "o3") (js "ann") 700 7 70; Row (1748779200 + 10 * 86400) (js "o3") (js "ann") 300 3 30] (js "day") in
  consumeQuota c = 1000 ∧ zsum (map rawQuota (lineData c)) = 300.
Proof. split; vm_compute; reflexivity. Qed.
