(* ===== verification/TierLog.v ===== *)
(** * Tiers in the usage log

    [web/src/helpers/render.jsx]: a log entry of a request billed by a tiered
    expression carries the expression in base64 and the label of the tier that
    applied; the page decodes it, takes the tiers apart with regular expressions
    of its own and shows the prices of the tier.  The same reader shows the
    tiers on the model page.  [atob] is the browser's decoder, [utf8] and
    [base64] what the server does to the expression.  [t] is the translation
    function and [getItem] the local storage. *)

From S2P Require Import Prelude JsString JsRegex JsNumber Json JsObject Render TieredPricing TieredPricingTheorems.

(** ** Bytes and base64 *)

Module Base64.

(** The UTF-8 bytes of a text; a code unit that is half of no pair is written
    as the replacement character. *)
Definition utf8_point (cp : N) : list N :=
  if (cp <? 128)%N then [cp]
  else if (cp <? 2048)%N then [(192 + cp / 64)%N; (128 + cp mod 64)%N]
  else if (cp <? 65536)%N then [(224 + cp / 4096)%N; (128 + cp / 64 mod 64)%N; (128 + cp mod 64)%N]
  else [(240 + cp / 262144)%N; (128 + cp / 4096 mod 64)%N; (128 + cp / 64 mod 64)%N; (128 + cp mod 64)%N].
Fixpoint utf8 (s : jsstr) : list N :=
  match s with
  | [] => []
  | c :: s' =>
    if is_high c then
      match s' with
      | d :: s'' => if is_low d then utf8_point (65536 + (c - 55296) * 1024 + (d - 56320))%N ++ utf8 s''
                    else utf8_point 65533 ++ utf8 s'
      | [] => utf8_point 65533
      end
    else if is_low c then utf8_point 65533 ++ utf8 s'
    else utf8_point c ++ utf8 s'
  end.

Definition digit64 (n : N) : N :=
  if (n <? 26)%N then (65 + n)%N else if (n <? 52)%N then (71 + n)%N else if (n <? 62)%N then (n - 4)%N
  else if (n =? 62)%N then 43%N else 47%N.
Definition value64 (c : N) : option N :=
  if ((65 <=? c) && (c <=? 90))%N then Some (c - 65)%N
  else if ((97 <=? c) && (c <=? 122))%N then Some (c - 71)%N
  else if ((48 <=? c) && (c <=? 57))%N then Some (c + 4)%N
  else if (c =? 43)%N then Some 62%N else if (c =? 47)%N then Some 63%N else None.

(** Three bytes to four digits, padded at the end. *)
Fixpoint base64 (bs : list N) : jsstr :=
  match bs with
  | [] => []
  | [a] => [digit64 (a / 4); digit64 (a mod 4 * 16); 61; 61]%N
  | [a; b] => [digit64 (a / 4); digit64 (a mod 4 * 16 + b / 16); digit64 (b mod 16 * 4); 61]%N
  | a :: b :: c :: bs' =>
    [digit64 (a / 4); digit64 (a mod 4 * 16 + b / 16); digit64 (b mod 16 * 4 + c / 64); digit64 (c mod 64)]%N ++ base64 bs'
  end.

(** Four digits to three bytes; what is left of two or three digits gives one
    or two, a single digit is an error. *)
Fixpoint decode64 (s : jsstr) : option (list N) :=
  match s with
  | [] => Some []
  | [_] => None
  | [a; b] => match value64 a, value64 b with Some x, Some y => Some [x * 4 + y / 16]%N | _, _ => None end
  | [a; b; c] => match value64 a, value64 b, value64 c with
                 | Some x, Some y, Some z => Some [x * 4 + y / 16; y mod 16 * 16 + z / 4]%N
                 | _, _, _ => None
                 end
  | a :: b :: c :: d :: s' =>
    match value64 a, value64 b, value64 c, value64 d, decode64 s' with
    | Some x, Some y, Some z, Some w, Some bs =>
      Some ([x * 4 + y / 16; y mod 16 * 16 + z / 4; z mod 4 * 64 + w]%N ++ bs)
    | _, _, _, _, _ => None
    end
  end.

Definition ascii_ws (c : N) : bool := ((c =? 9) || (c =? 10) || (c =? 12) || (c =? 13) || (c =? 32))%N.
Definition strip_pad (s : jsstr) : jsstr :=
  if Nat.eqb (length s mod 4) 0 then
    if ends_with (js "==") s then take (length s - 2) s else if ends_with (js "=") s then take (length s - 1) s else s
  else s.

(** [atob(s)]: [None] is the exception.  The result is one code unit per byte. *)
Definition atob (s : jsstr) : option jsstr := decode64 (strip_pad (List.filter (λ c, negb (ascii_ws c)) s)).
End Base64.

Example base64_ex : Base64.base64 (Base64.utf8 (js "第2档 ok")) = js "56ysMuahoyBvaw==" ∧ Base64.atob (js "b2s=") = Some (js "ok").
Proof. split; vm_compute; reflexivity. Qed.

(** ** Reading tiers *)

(** [{ version, body }] *)
Definition re_versioned : regex :=
  (RBol +> RLit (js "v") +> RGroup 1 (RPlus (RSet is_digit)) +> RLit (js ":") +> RGroup 2 (RStar true (RSet any_unit)) +> REol)%re.
Definition stripExprVersion (exprStr : jsstr) : num * jsstr :=
  if is_empty exprStr then (num_of_Z 1, [])
  else match re_match re_versioned exprStr with
       | Some mt => (Number_of_string (default [] (mt 1)), default [] (mt 2))
       | None => (num_of_Z 1, exprStr)
       end.

(** [p|c|cr|...] *)
Fixpoint re_keys (vs : list jsstr) : regex :=
  match vs with
  | [] => RSet (λ _, false)
  | [v] => RLit v
  | v :: vs' => (RLit v <|> re_keys vs')%re
  end.
Definition pricing_keys : list jsstr := map key BILLING_PRICING_VARS.
Definition BILLING_VAR_REGEX : regex :=
  (RWordB +> RGroup 1 (re_keys pricing_keys) +> ws_star +> RLit (js "*") +> ws_star +> RGroup 2 (RPlus (RSet num_char)))%re.

(** A tier as the log shows it: its prices by field, its label, its conditions. *)
Record log_tier := LogTier { prices : list (jsstr * num); tier_label : jsstr; tier_conditions : list jval }.

Definition body_coeffs (bodyStr : jsstr) : list (jsstr * num) :=
  fold_left (λ coeffs e,
    let k := default [] (captures e 1) in
    match assoc_get coeffs k with
    | Some _ => coeffs
    | None => assoc_set coeffs k (Number_of_string (default [] (captures e 2)))
    end) (re_all BILLING_VAR_REGEX bodyStr) [].

(** [coeffs[varName] || 0] *)
Definition coeff_or_zero (coeffs : list (jsstr * num)) (varName : jsstr) : num :=
  match assoc_get coeffs varName with Some x => if num_truthy x then x else nzero | None => nzero end.

Definition parseTierBody (bodyStr : jsstr) : list (jsstr * num) :=
  map (λ e, (e.2, coeff_or_zero (body_coeffs bodyStr) e.1)) BILLING_VAR_KEY_TO_FIELD.

Definition not_close (c : N) : bool := negb (c =? 41)%N.
Definition logTierRe : regex :=
  (re_guard +> re_call 2 +> RGroup 3 (RPlus (RSet not_close)) +> RLit (js ")"))%re.

Definition parseTiersFromExpr (exprStr : jsstr) : list log_tier :=
  if is_empty exprStr then []
  else
    let body := (stripExprVersion exprStr).2 in
    map (λ e, LogTier (parseTierBody (default [] (captures e 3))) (default [] (captures e 2))
                (parse_conditions (default [] (captures e 1)))) (re_all logTierRe body).

(** ** Showing a tier *)

Section Show.
Context (getItem : jsstr → option jsstr) (t : jsstr → list (jsstr * jval) → jsstr).

(** [let exprStr = ''; try { exprStr = atob(exprB64); } catch {}] *)
Definition decoded_expr (exprB64 : jval) : jsstr := default [] (Base64.atob (String_of exprB64)).

(** [tiers.find((t) => t.label === matchedTier) || tiers[0]] *)
Definition shown_tier (tiers : list log_tier) (matchedTier : jval) : option log_tier :=
  match List.find (λ x, is_text matchedTier (tier_label x)) tiers with
  | Some x => Some x
  | None => head tiers
  end.

Definition positive (v : jval) : bool := nlt nzero (Number_of v).
Definition hasAnyCacheTokens (opts : jval) : bool :=
  existsb (λ k, positive (prop opts (js k)))
    ["cache_tokens"; "cache_creation_tokens"; "cache_creation_tokens_5m"; "cache_creation_tokens_1h"]%string.

Definition price_of (tier : log_tier) (f : jsstr) : num := default nan (assoc_get (prices tier) f).

(** The variables whose price is shown: cache prices only when cache tokens were used. *)
Definition shown_vars (opts : jval) (tier : log_tier) : list billing_var :=
  List.filter (λ v, nlt nzero (price_of tier (field v)))
    (List.filter (λ v, negb (isCache v) || hasAnyCacheTokens opts) BILLING_PRICING_VARS).

(** The paragraphs of the article, or the text of a failure. *)
Definition renderTieredModelPrice (opts : jval) : list jsstr :=
  let tiers := parseTiersFromExpr (decoded_expr (prop opts (js "expr_b64"))) in
  let matchedTier := prop opts (js "matched_tier") in
  match shown_tier tiers matchedTier with
  | None => [t (js "阶梯计费（表达式解析失败）") []]
  | Some tier =>
    let '(symbol, rate, _) := getCurrencyConfig getItem in
    renderBillingArticle t
      (t (js "命中档位：{{tier}}") [(js "tier", js_or matchedTier (JStr (tier_label tier)))] ::
       map (λ v, buildBillingPriceText t (var_label v ++ js "：{{symbol}}{{price}} / 1M tokens") symbol (price_of tier (field v)) rate "price" [])
         (shown_vars opts tier)) true
  end.

(** A segment is a tone and a text. *)
Definition renderTieredModelPriceSimple (opts : jval) : list (jsstr * jsstr) :=
  let tier := shown_tier (parseTiersFromExpr (decoded_expr (prop opts (js "expr_b64")))) (prop opts (js "matched_tier")) in
  let outputMode := match prop opts (js "outputMode") with JUndef => JStr (js "segments") | v => v end in
  if is_text outputMode (js "segments") then
    (js "primary", getGroupRatioText t (prop opts (js "group_ratio")) (prop opts (js "user_group_ratio"))) ::
    match tier with
    | Some tier =>
      if isPriceDisplayMode getItem (prop opts (js "displayMode")) JUndef then
        map (λ v, (js "secondary", t (js "{{label}} {{price}} / 1M tokens")
          [(js "label", JStr (t (shortLabel v) [])); (js "price", JStr (formatCompactDisplayPrice getItem (price_of tier (field v))))]))
          (shown_vars opts tier)
      else []
    | None => []
    end
  else [].
End Show.
