(* ===== verification/TierLogTheorems.v ===== *)
(** * Tiers in the usage log: theorems

    The reader of the log and the reader of the editor see the same tiers in
    every expression the editor writes; through the encoding of the log this
    holds for the prices always, and for the labels as long as they are ASCII. *)

From S2P Require Import Prelude JsString JsRegex JsNumber Json JsObject Render TieredPricing TieredPricingTheorems TierLog.

(** ** The products of a body *)

(** The products of a tier: two always, the others when they are not zero. *)
Fixpoint truthy_pairs (vs : list jsstr) (xs : list num) : list (jsstr * num) :=
  match vs, xs with
  | v :: vs', x :: xs' => (if num_truthy x then [(v, x)] else []) ++ truthy_pairs vs' xs'
  | _, _ => []
  end.
Definition products (v : vtier) : list (jsstr * num) :=
  (js "p", vin v) :: (js "c", vout v) :: truthy_pairs extra_keys (vextra v).
Definition pair_text (p : jsstr * num) : jsstr := product_text p.1 p.2.

Lemma extras_pairs vs : ∀ xs, extras_text vs xs = concat (map (app (js " + ")) (map pair_text (truthy_pairs vs xs))).
Proof.
  induction vs as [|v vs IH]; intros [|x xs]; try done. cbn [extras_text truthy_pairs]. rewrite !map_app, concat_app, IH.
  destruct (num_truthy x); [|done]. cbn [map concat]. by rewrite app_nil_r.
Qed.

Lemma body_products v : body_text v = join (js " + ") (map pair_text (products v)).
Proof. unfold body_text, products. cbn [map]. rewrite join_concat, extras_pairs. cbn [map concat]. by rewrite <- !app_assoc. Qed.

Lemma pricing_keys_eq : pricing_keys = js "p" :: js "c" :: extra_keys.
Proof. vm_compute. reflexivity. Qed.

Lemma truthy_pairs_keys vs : ∀ xs, map fst (truthy_pairs vs xs) `sublist_of` vs.
Proof.
  induction vs as [|v vs IH]; intros [|x xs]; cbn [truthy_pairs]; try apply sublist_nil_l.
  rewrite map_app. destruct (num_truthy x); cbn [map fst app]; [by apply sublist_skip|by apply sublist_cons].
Qed.

Lemma products_keys v : map fst (products v) `sublist_of` pricing_keys.
Proof.
  rewrite pricing_keys_eq. unfold products. cbn [map fst]. do 2 apply sublist_skip. apply truthy_pairs_keys.
Qed.

Lemma truthy_pairs_readable vs : ∀ xs, Forall (readable num_char) xs → Forall (λ p, readable num_char p.2) (truthy_pairs vs xs).
Proof.
  induction vs as [|v vs IH]; intros [|x xs] Hx; cbn [truthy_pairs]; try by apply Forall_nil.
  inversion Hx. subst. apply Forall_app. split; [|by apply IH]. destruct (num_truthy x); [by apply Forall_singleton|by apply Forall_nil].
Qed.

Lemma products_readable v : tier_ok v → Forall (λ p, readable num_char p.2) (products v).
Proof. intros Hv. unfold products. do 2 (apply Forall_cons; split; [apply Hv|]). apply truthy_pairs_readable, Hv. Qed.

(** ** Matching a product *)

Definition clash_free (vs : list jsstr) (k : jsstr) : Prop := Forall (λ v, v = k ∨ clash v k = true) vs.

Lemma pricing_clash : Forall (clash_free pricing_keys) pricing_keys.
Proof.
  assert (H : forallb (λ k, forallb (λ v, streq v k || clash v k) pricing_keys) pricing_keys = true) by (vm_compute; reflexivity).
  apply Forall_forall. intros k Hk%list_elem_of_In. rewrite forallb_forall in H. specialize (H k Hk). rewrite forallb_forall in H.
  apply Forall_forall. intros v Hv%list_elem_of_In. specialize (H v Hv). apply orb_true_iff in H as [->%streq_true|]; auto.
Qed.

(** What follows the variable refuses anything but a blank or a star. *)
Definition refuses (k : pos → option pos) : Prop :=
  ∀ l b u cs, is_ws b = false → b ≠ 42%N → k (Pos l (b :: u) cs) = None.

Lemma hits_keys Q vs v k l t cs : clash_free vs v → v ∈ vs → refuses k →
  hits (k (Pos (rev v ++ l) (32%N :: t) cs)) Q → hits (m (re_keys vs) k (Pos l (v ++ 32%N :: t) cs)) Q.
Proof.
  intros Hc Hin Hk Hq. induction vs as [|w vs IH]; [by apply elem_of_nil in Hin|].
  inversion Hc as [|? ? Hw Hc']. subst. destruct vs as [|w2 vs].
  - apply list_elem_of_singleton in Hin as ->. by apply hits_lit.
  - change (re_keys (w :: w2 :: vs)) with (RLit w <|> re_keys (w2 :: vs))%re.
    destruct (decide (w = v)) as [->|Hne]; [by apply hits_alt_l, hits_lit|].
    apply hits_alt_r; [|apply IH; [done|by apply elem_of_cons in Hin as [->|]]].
    destruct Hw as [|Hw]; [done|]. cbn [m rgt]. destruct (clash_strip w v t Hw) as [->|(b & u & -> & Hb & Hs)]; [done|]. by apply Hk.
Qed.

Lemma keys_none vs (k : pos → option pos) l c t cs : Forall (λ v, v ≠ [] ∧ head v ≠ Some c) vs → vs ≠ [] →
  m (re_keys vs) k (Pos l (c :: t) cs) = None.
Proof.
  intros Hv Hne. induction Hv as [|w vs [Hw Hc] Hv IH]; [done|].
  assert (Hlit : m (RLit w) k (Pos l (c :: t) cs) = None).
  { destruct w as [|d w]; [done|]. apply m_lit_None_cons. intros ->. by apply Hc. }
  destruct vs as [|w2 vs]; [done|]. change (re_keys (w :: w2 :: vs)) with (RLit w <|> re_keys (w2 :: vs))%re.
  rewrite m_alt, Hlit. by apply IH.
Qed.

Definition after_key : regex := (ws_star +> RLit (js "*") +> ws_star +> RGroup 2 (RPlus (RSet num_char)))%re.

Lemma after_key_refuses st : refuses (λ st', m after_key Some (cap_set 1 (Some (between st st')) st')).
Proof.
  intros l b u cs Hb Hs. unfold cap_set, after_key. cbn [lft rgt caps]. rewrite m_seq. change (js "*") with [42%N].
  rewrite (ws_run _ _ [] (b :: u)); [|by apply blocks_lit_then|done|done]. rewrite m_seq. by apply m_lit_None_cons.
Qed.

Lemma word_keys : Forall (λ v, word_at v = true) pricing_keys.
Proof. repeat constructor. Qed.

Lemma hits_var_product k x l rest : k ∈ pricing_keys → readable num_char x → head_not num_char rest → word_at l = false →
  hits (m BILLING_VAR_REGEX Some (Pos l (product_text k x ++ rest) []))
    (λ e, rgt e = rest ∧ caps e = [(2, Some (String_of_num x)); (1, Some k)]).
Proof.
  intros Hk Hx Hr Hl. pose proof (proj1 (Forall_forall _ _) word_keys k Hk) as Hw.
  assert (Htext : product_text k x ++ rest = k ++ 32%N :: js "* " ++ String_of_num x ++ rest).
  { unfold product_text. by rewrite blank_star, <- !app_assoc. }
  unfold BILLING_VAR_REGEX. fold after_key. rewrite m_seq, Htext. cbn [m lft rgt].
  assert (Hwb : xorb (word_at l) (word_at (k ++ 32%N :: js "* " ++ String_of_num x ++ rest)) = true).
  { rewrite Hl. by destruct k. }
  rewrite Hwb. set (st := Pos l (k ++ 32%N :: js "* " ++ String_of_num x ++ rest) []).
  apply hits_keys; [by apply (proj1 (Forall_forall _ _) pricing_clash)|done|apply after_key_refuses|].
  unfold st. rewrite between_app. cbn [cap_set lft rgt caps]. unfold after_key.
  change (32%N :: js "* " ++ String_of_num x ++ rest) with ([32%N] ++ js "*" ++ [32%N] ++ String_of_num x ++ rest).
  rewrite m_seq. apply (hits_star _ is_ws _ _ [32%N]); [done|done|]. rewrite m_seq. apply hits_lit. rewrite m_seq.
  apply (hits_star _ is_ws _ _ [32%N]); [done| |].
  - destruct (String_of_num x) eqn:E; [by destruct Hx|]. by eapply num_not_ws.
  - destruct Hx as (Hne & Hc & _). apply hits_group_plus; [done|done|done|]. by apply hits_some.
Qed.

Lemma keys_heads c : c ∈ [32%N; 43%N] → Forall (λ v, v ≠ [] ∧ head v ≠ Some c) pricing_keys.
Proof.
  intros Hc. assert (H : forallb (λ v, negb (is_empty v) && forallb (λ c, negb (bool_decide (head v = Some c))) [32%N; 43%N]) pricing_keys = true)
    by (vm_compute; reflexivity).
  apply Forall_forall. intros v Hv%list_elem_of_In. rewrite forallb_forall in H. specialize (H v Hv). bool_hyps.
  split; [by intros ->|]. rewrite forallb_forall in H0. specialize (H0 c (proj1 (list_elem_of_In _ _) Hc)). by bool_hyps.
Qed.

Lemma search_skip l c t : c ∈ [32%N; 43%N] → search BILLING_VAR_REGEX l (c :: t) = search BILLING_VAR_REGEX (c :: l) t.
Proof.
  intros Hc. cbn [search]. assert (H : m BILLING_VAR_REGEX Some (Pos l (c :: t) []) = None); [|by rewrite H].
  unfold BILLING_VAR_REGEX. fold after_key. rewrite m_seq. cbn [m lft rgt]. destruct (xorb _ _); [|done].
  apply keys_none; [by apply keys_heads|done].
Qed.

Lemma search_end l : search BILLING_VAR_REGEX l [] = None.
Proof.
  cbn [search]. unfold BILLING_VAR_REGEX. rewrite m_seq. cbn [m lft rgt]. destruct (xorb _ _); [|done]. reflexivity.
Qed.

(** ** All the products of a body *)

Definition reads_product (e : pos * pos) (p : jsstr * num) : Prop :=
  captures e 1 = Some p.1 ∧ captures e 2 = Some (String_of_num p.2).

Lemma search_product p l rest : p.1 ∈ pricing_keys → readable num_char p.2 → head_not num_char rest → word_at l = false →
  ∃ b e, search BILLING_VAR_REGEX l (pair_text p ++ rest) = Some (b, e) ∧ rgt e = rest ∧ reads_product (b, e) p.
Proof.
  intros Hk Hx Hr Hl. destruct (hits_var_product p.1 p.2 l rest Hk Hx Hr Hl) as (e & Hm & He & Hc).
  exists (Pos l (pair_text p ++ rest) []), e. split.
  - unfold pair_text. destruct (product_text p.1 p.2 ++ rest); cbn [search]; by rewrite Hm.
  - split; [done|]. unfold reads_product, captures. cbn [snd]. by rewrite Hc.
Qed.

Lemma exec_products ps : Forall (λ p, p.1 ∈ pricing_keys ∧ readable num_char p.2) ps → ps ≠ [] →
  ∀ fuel l, length ps < fuel → word_at l = false →
  Forall2 reads_product (exec_all fuel BILLING_VAR_REGEX l (join (js " + ") (map pair_text ps))) ps.
Proof.
  intros Hps Hne. induction Hps as [|p ps [Hk Hx] Hps IH]; [done|]. intros [|fuel] l Hf Hl; [lia|].
  cbn [map]. rewrite join_concat. cbn [exec_all].
  destruct (search_product p l (concat (map (app (js " + ")) (map pair_text ps))) Hk Hx) as (b & e & -> & Hr & Hm);
    [by destruct ps|done|]. constructor; [done|]. rewrite Hr. destruct ps as [|p2 ps].
  - cbn [map concat]. destruct fuel; cbn [exec_all]; [constructor|]. rewrite search_end. constructor.
  - cbn [map concat] in *. rewrite <- !app_assoc. destruct fuel as [|fuel]; [cbn in Hf; lia|].
    specialize (IH ltac:(done) (S fuel)). cbn [length] in Hf.
    change (js " + " ++ ?r) with (32%N :: 43%N :: 32%N :: r). cbn [exec_all].
    rewrite !search_skip by (rewrite !elem_of_cons; auto).
    specialize (IH (32%N :: 43%N :: 32%N :: lft e) ltac:(cbn [length]; lia) eq_refl). rewrite join_concat in IH. exact IH.
Qed.

(** The coefficients are the products. *)
Lemma coeffs_products es ps : Forall2 reads_product es ps → Forall (λ p, readable num_char p.2) ps →
  ∀ acc, NoDup (map fst acc ++ map fst ps) →
  fold_left (λ coeffs e, let k := default [] (captures e 1) in
    match assoc_get coeffs k with Some _ => coeffs | None => assoc_set coeffs k (Number_of_string (default [] (captures e 2))) end) es acc = acc ++ ps.
Proof.
  induction 1 as [|e p es ps [H1 H2] _ IH]; intros Hx acc Hnd; cbn [fold_left]; [by rewrite app_nil_r|].
  inversion Hx as [|? ? (_ & _ & Hn & _) Hx']. subst. cbv zeta. rewrite H1, H2. cbn [default from_option id].
  cbn [map] in Hnd. assert (Hp : p.1 ∉ map fst acc).
  { intros Hin. apply NoDup_app in Hnd as (_ & Hd & _). apply (Hd _ Hin). by left. }
  assert (Hset : assoc_get acc p.1 = None ∧ assoc_set acc p.1 p.2 = acc ++ [p]).
  { clear -Hp. induction acc as [|[k v] acc IH]; [by destruct p|]. cbn [map fst] in Hp. apply not_elem_of_cons in Hp as [Hk Hp].
    cbn [assoc_get assoc_set]. rewrite !decide_False by done. destruct (IH Hp) as [-> ->]. done. }
  destruct Hset as [Hg Hs]. rewrite Hg, Hn, Hs. rewrite IH; [by rewrite <- app_assoc|done|].
  rewrite map_app. cbn [map]. by rewrite <- app_assoc.
Qed.

Lemma products_fuel ps : length ps < S (length (join (js " + ") (map pair_text ps))).
Proof.
  destruct ps as [|p ps]; [cbn; lia|]. cbn [map]. rewrite join_concat, length_app. cbn [length].
  assert (Hp : ∀ q, 1 ≤ length (pair_text q)) by (intros q; unfold pair_text, product_text; rewrite !length_app; change (length (js " * ")) with 3; lia).
  enough (length ps ≤ length (concat (map (app (js " + ")) (map pair_text ps)))) by (specialize (Hp p); lia).
  induction ps as [|q ps IH]; [done|]. cbn [map concat length]. rewrite !length_app. specialize (Hp q). lia.
Qed.

Lemma pricing_keys_NoDup : NoDup pricing_keys.
Proof. apply (bool_decide_unpack _). vm_compute. exact I. Qed.

Lemma body_read v : tier_ok v → body_coeffs (body_text v) = products v.
Proof.
  intros Hv. unfold body_coeffs, re_all. rewrite body_products.
  apply (coeffs_products _ (products v)); [|by apply products_readable|].
  - apply exec_products; [|done|apply products_fuel|done]. pose proof (products_readable v Hv) as Hr.
    apply Forall_forall. intros p Hp. rewrite Forall_forall in Hr. split; [|by apply Hr].
    eapply elem_of_submseteq; [|apply sublist_submseteq, products_keys]. apply list_elem_of_fmap. eauto.
  - eapply sublist_NoDup; [exact pricing_keys_NoDup|apply products_keys].
Qed.

(** ** A tier of the log *)

Definition or_zero (x : num) : num := if num_truthy x then x else nzero.
(** What the log should show of a tier. *)
Definition log_of (v : vtier) : log_tier :=
  LogTier (zip (map field BILLING_PRICING_VARS) (map or_zero (vin v :: vout v :: vextra v))) (vlabel v) (map cond_obj (vconds v)).

Lemma truthy_pairs_get vs : ∀ xs i k x, NoDup vs → vs !! i = Some k → xs !! i = Some x →
  coeff_or_zero (truthy_pairs vs xs) k = or_zero x.
Proof.
  unfold coeff_or_zero, or_zero. induction vs as [|w vs IH]; intros [|y xs] i k x Hnd Hk Hx; try done.
  apply NoDup_cons in Hnd as [Hw Hnd]. cbn [truthy_pairs]. destruct i as [|i]; cbn [lookup list_lookup] in *.
  - injection Hk as ->. injection Hx as ->. destruct (num_truthy x) eqn:E; cbn [app assoc_get]; [rewrite decide_True by done; by rewrite E|].
    destruct (assoc_get (truthy_pairs vs xs) k) eqn:Ea; [|done]. exfalso. apply Hw.
    eapply elem_of_submseteq; [|apply sublist_submseteq, (truthy_pairs_keys vs xs)]. revert Ea. generalize (truthy_pairs vs xs) as ps.
    induction ps as [|[k' v'] ps IHp]; cbn [assoc_get map fst]; [done|]. case_decide; [subst; by left|]. right. auto.
  - assert (w ≠ k) by (intros ->; apply Hw; by eapply list_elem_of_lookup_2).
    destruct (num_truthy y); cbn [app assoc_get]; [rewrite decide_False by done|]; by eapply IH.
Qed.

Lemma products_get v i k x : pricing_keys !! i = Some k → (vin v :: vout v :: vextra v) !! i = Some x →
  coeff_or_zero (products v) k = or_zero x.
Proof.
  pose proof pricing_keys_NoDup as Hnd. rewrite pricing_keys_eq in *. intros Hk Hx.
  apply NoDup_cons in Hnd as [Hp Hnd]. apply NoDup_cons in Hnd as [Hc Hnd]. unfold products.
  destruct i as [|[|i]]; cbn [lookup list_lookup] in Hk, Hx.
  - injection Hk as <-. injection Hx as <-. reflexivity.
  - injection Hk as <-. injection Hx as <-. reflexivity.
  - rewrite <- (truthy_pairs_get extra_keys (vextra v) i k x) by done. unfold coeff_or_zero. cbn [assoc_get].
    apply list_elem_of_lookup_2 in Hk. rewrite !decide_False; [done|by intros <-|intros <-; apply Hp; by right].
Qed.

Lemma key_field_zip : BILLING_VAR_KEY_TO_FIELD = zip pricing_keys (map field BILLING_PRICING_VARS).
Proof. vm_compute. reflexivity. Qed.

Lemma body_parsed v : tier_ok v → parseTierBody (body_text v) = prices (log_of v).
Proof.
  intros Hv. unfold parseTierBody. rewrite body_read by done. cbn [prices log_of]. rewrite key_field_zip.
  assert (Hlen : length pricing_keys = length (vin v :: vout v :: vextra v)) by (cbn [length]; rewrite (ok_seven v Hv); reflexivity).
  pose proof (products_get v) as Hget. revert Hlen Hget. generalize pricing_keys as ks. generalize (vin v :: vout v :: vextra v) as xs.
  generalize (map field BILLING_PRICING_VARS) as fs. intros fs xs ks. revert fs xs.
  induction ks as [|k ks IH]; intros [|f fs] [|x xs] Hlen Hget; try done. cbn [zip zip_with map fst snd]. f_equal.
  - f_equal. by apply (Hget 0).
  - apply IH; [by injection Hlen|]. intros i k' x' Hk Hx. by apply (Hget (S i)).
Qed.

(** ** The tiers of an expression *)

Definition open_char (c : N) : bool := (c <? 128)%N && not_close c.

Lemma num_open s : forallb num_char s = true → forallb open_char s = true.
Proof.
  apply forallb_impl. intros c. unfold num_char, open_char, not_close, is_digit.
  rewrite ?andb_true_iff, ?orb_true_iff, ?andb_true_iff, ?negb_true_iff, ?N.leb_le, ?N.eqb_eq, ?N.eqb_neq, ?N.ltb_lt. lia.
Qed.

Lemma pair_text_open p : forallb open_char p.1 = true → readable num_char p.2 → forallb open_char (pair_text p) = true.
Proof.
  intros Hk (_ & Hn & _). unfold pair_text, product_text. rewrite !forallb_app, Hk, (num_open _ Hn). reflexivity.
Qed.

Lemma body_open v : tier_ok v → forallb open_char (body_text v) = true.
Proof.
  intros Hv. rewrite body_products. apply forallb_join; [reflexivity|]. apply Forall_forall.
  intros s (p & -> & Hp)%list_elem_of_fmap. pose proof (products_readable v Hv) as Hr. rewrite Forall_forall in Hr.
  apply pair_text_open; [|by apply Hr]. assert (H : forallb (forallb open_char) pricing_keys = true) by (vm_compute; reflexivity).
  rewrite forallb_forall in H. apply H, list_elem_of_In.
  eapply elem_of_submseteq; [|apply sublist_submseteq, products_keys]. apply list_elem_of_fmap. eauto.
Qed.

Lemma open_not_close s : forallb open_char s = true → forallb not_close s = true.
Proof. apply forallb_impl. intros c Hc. by apply andb_true_iff in Hc as [_ ?]. Qed.

Definition log_caps (v : vtier) : list (nat * option jsstr) := (3, Some (body_text v)) :: (2, Some (vlabel v)) :: guard_caps v.

Lemma hits_log_tier v l rest : tier_ok v →
  hits (m logTierRe Some (Pos l (part_text v ++ rest) [])) (λ e, rgt e = rest ∧ caps e = log_caps v).
Proof.
  intros Hv. unfold logTierRe, part_text. rewrite <- app_assoc, m_seq. apply hits_guard; [done|done|by eexists|]. intros l1.
  destruct (ok_label v Hv) as [_ Hlab]. unfold call_text, re_call. rewrite <- !app_assoc, !m_seq.
  apply hits_lit. rewrite m_seq. change (jsq "', ") with (jsq "'," ++ [32%N]). rewrite <- !app_assoc.
  apply hits_group_star; [done|done|]. rewrite m_seq. apply hits_lit.
  apply (hits_star _ is_ws _ _ [32%N]); [done|by rewrite body_products|]. rewrite m_seq.
  apply hits_group_plus; [by rewrite body_products|by apply open_not_close, body_open|done|].
  apply hits_lit. by apply hits_some.
Qed.

Lemma log_none c (k : pos → option pos) l t cs : starts_condition c = false → (116 =? c)%N = false → m logTierRe k (Pos l (c :: t) cs) = None.
Proof.
  intros Hc Ht. unfold logTierRe, re_guard. rewrite m_seq.
  rewrite opt_fails by (intros; by apply guard_none). unfold re_call. rewrite !m_seq. by apply lit_none.
Qed.

Definition log_matches (e : pos * pos) (v : vtier) : Prop := caps e.2 = log_caps v.

Lemma search_log_tier v l rest : tier_ok v →
  ∃ b e, search logTierRe l (part_text v ++ rest) = Some (b, e) ∧ rgt e = rest ∧ log_matches (b, e) v.
Proof.
  intros Hv. destruct (hits_log_tier v l rest Hv) as (e & Hm & Hr & Hc). exists (Pos l (part_text v ++ rest) []), e.
  split; [|done]. destruct (part_text v ++ rest); cbn [search]; by rewrite Hm.
Qed.

Lemma search_log_sep l rest : ∃ l', search logTierRe l (js " : " ++ rest) = search logTierRe l' rest.
Proof.
  change (js " : " ++ rest) with (32%N :: 58%N :: 32%N :: rest).
  assert (H : ∀ c t l, starts_condition c = false → (116 =? c)%N = false → search logTierRe l (c :: t) = search logTierRe (c :: l) t).
  { intros c t l0 Hc Ht. cbn [search]. by rewrite log_none. }
  rewrite !H by done. by eexists.
Qed.

Lemma log_tail_silent vs l : search logTierRe l (zero_tail vs) = None.
Proof. destruct vs as [|v [|]]; try reflexivity. cbn [zero_tail]. destruct (vconds v); vm_compute; reflexivity. Qed.

Lemma log_matched e v : tier_ok v → log_matches e v →
  LogTier (parseTierBody (default [] (captures e 3))) (default [] (captures e 2)) (parse_conditions (default [] (captures e 1))) = log_of v.
Proof.
  intros Hv Hm. unfold captures. rewrite Hm.
  assert (H3 : cap_get 3 (log_caps v) = Some (body_text v)) by reflexivity.
  assert (H2 : cap_get 2 (log_caps v) = Some (vlabel v)) by reflexivity.
  assert (H1 : cap_get 1 (log_caps v) = cap_get 1 (guard_caps v)) by reflexivity.
  rewrite H1, H2, H3. cbn [default from_option id]. rewrite body_parsed by done. unfold log_of. cbn [prices]. f_equal.
  pose proof (conds_parse (vconds v) (ok_conds v Hv)) as Hc. unfold guard_caps. by destruct (vconds v).
Qed.

Lemma no_log_version c t : (118 =? c)%N = false → stripExprVersion (c :: t) = (num_of_Z 1, c :: t).
Proof.
  intros Hc. unfold stripExprVersion, re_versioned. cbn [is_empty]. rewrite re_match_bol.
  by rewrite (lit_none 118%N [] c t _ _ _ Hc : m (RLit (js "v") +> _) _ _ = None).
Qed.

(** The tiers of a written expression, with or without the zero branch. *)
Lemma log_reads vs : Forall tier_ok vs → vs ≠ [] → parseTiersFromExpr (config_text vs) = map log_of vs.
Proof.
  intros Hvs Hne. assert (Ht : ∃ c u, config_text vs = c :: u ∧ (118 =? c)%N = false).
  { destruct vs as [|v vs]; [done|]. inversion Hvs as [|? ? Hv _]. subst. destruct (part_head v Hv) as (c & u & Hp & Hc).
    unfold config_text. cbn [map]. rewrite join_concat, Hp. exists c. eexists. split; [reflexivity|].
    destruct (vconds v); [by subst|]. unfold starts_condition in Hc. rewrite !orb_true_iff, !N.eqb_eq in Hc. by destruct Hc as [[<-|<-]|<-]. }
  destruct Ht as (c & u & Ht & Hc). unfold parseTiersFromExpr. rewrite Ht. cbn [is_empty]. rewrite no_log_version by done.
  cbn [snd]. rewrite <- Ht. clear c u Ht Hc. unfold re_all, config_text.
  pose proof (exec_parts logTierRe log_matches search_log_tier search_log_sep (zero_tail vs) vs (log_tail_silent vs) Hvs Hne _ []
    (parts_fuel vs (zero_tail vs) Hne)) as H. revert H.
  generalize (exec_all (S (length (join (js " : ") (map part_text vs) ++ zero_tail vs))) logTierRe [] (join (js " : ") (map part_text vs) ++ zero_tail vs)).
  intros es H. clear Hne. induction H as [|e v es vs Hm _ IH]; [done|]. inversion Hvs as [|? ? Hv Hvs']. subst.
  cbn [map]. by rewrite (log_matched e v Hv Hm), IH.
Qed.

(** ** The encoding *)

Module Encoding.
Import Base64.

Definition byte (b : N) : bool := (b <? 256)%N.

Lemma digit64_check n : (n < 64)%N → value64 (digit64 n) = Some n ∧ ascii_ws (digit64 n) = false ∧ digit64 n ≠ 61%N.
Proof.
  intros Hn.
  assert (H : forallb (λ i, let d := digit64 (N.of_nat i) in bool_decide (value64 d = Some (N.of_nat i)) && negb (ascii_ws d) && negb (d =? 61)%N) (seq 0 64) = true)
    by (vm_compute; reflexivity).
  rewrite forallb_forall in H. specialize (H (N.to_nat n)). rewrite N2Nat.id in H.
  assert (Hin : List.In (N.to_nat n) (seq 0 64)) by (apply in_seq; lia). specialize (H Hin). cbv zeta in H. bool_hyps. done.
Qed.

(** The digits without the padding, and the padding. *)
Fixpoint digits64 (bs : list N) : jsstr :=
  match bs with
  | [] => []
  | [a] => [digit64 (a / 4); digit64 (a mod 4 * 16)]%N
  | [a; b] => [digit64 (a / 4); digit64 (a mod 4 * 16 + b / 16); digit64 (b mod 16 * 4)]%N
  | a :: b :: c :: bs' =>
    [digit64 (a / 4); digit64 (a mod 4 * 16 + b / 16); digit64 (b mod 16 * 4 + c / 64); digit64 (c mod 64)]%N ++ digits64 bs'
  end.
Fixpoint pad64 (bs : list N) : jsstr :=
  match bs with [] => [] | [_] => [61; 61]%N | [_; _] => [61%N] | _ :: _ :: _ :: bs' => pad64 bs' end.

Lemma by_threes (P : list N → Prop) :
  P [] → (∀ a, P [a]) → (∀ a b, P [a; b]) → (∀ a b c l, P l → P (a :: b :: c :: l)) → ∀ l, P l.
Proof.
  intros H0 H1 H2 H3 l. enough (P l ∧ (∀ a, P (a :: l)) ∧ (∀ a b, P (a :: b :: l))) by tauto.
  induction l as [|x l (IH0 & IH1 & IH2)]; [auto|]. auto.
Qed.

Lemma base64_split bs : base64 bs = digits64 bs ++ pad64 bs.
Proof. induction bs as [|a|a b|a b c l IH] using by_threes; [done..|]. cbn [base64 digits64 pad64]. by rewrite IH, app_assoc. Qed.

Lemma small_quotients a b : (a < 256 → b < 256 → a / 4 < 64 ∧ a mod 4 * 16 < 64 ∧ a mod 4 * 16 + b / 16 < 64 ∧ b mod 16 * 4 < 64 ∧
  b mod 16 * 4 + a / 64 < 64 ∧ a mod 64 < 64)%N.
Proof.
  intros Ha Hb. pose proof (N.mod_lt a 4). pose proof (N.mod_lt b 16). pose proof (N.mod_lt a 64).
  assert (a / 4 < 64 ∧ b / 16 < 16 ∧ a / 64 < 4)%N by (split_and!; apply N.Div0.div_lt_upper_bound; lia). lia.
Qed.

Lemma first_byte a y : (a < 256 → y < 16 → a / 4 * 4 + (a mod 4 * 16 + y) / 16 = a)%N.
Proof.
  intros Ha Hy. rewrite N.div_add_l by lia. rewrite (N.div_small y 16) by lia. pose proof (N.Div0.div_mod a 4). lia.
Qed.
Lemma second_byte x b z : (b < 256 → z < 4 → x < 4 → (x * 16 + b / 16) mod 16 * 16 + (b mod 16 * 4 + z) / 4 = b)%N.
Proof.
  intros Hb Hz Hx. assert (b / 16 < 16)%N by (apply N.Div0.div_lt_upper_bound; lia).
  rewrite (N.add_comm (x * 16)), N.Div0.mod_add, N.mod_small by lia.
  rewrite N.div_add_l by lia. rewrite (N.div_small z 4) by lia. pose proof (N.Div0.div_mod b 16). lia.
Qed.
Lemma third_byte x c : (c < 256 → x < 16 → (x * 4 + c / 64) mod 4 * 64 + c mod 64 = c)%N.
Proof.
  intros Hc Hx. assert (c / 64 < 4)%N by (apply N.Div0.div_lt_upper_bound; lia).
  rewrite (N.add_comm (x * 4)), N.Div0.mod_add, N.mod_small by lia. pose proof (N.Div0.div_mod c 64). lia.
Qed.

Lemma decode_digits bs : forallb byte bs = true → decode64 (digits64 bs) = Some bs.
Proof.
  unfold byte. induction bs as [|a|a b|a b c l IH] using by_threes; cbn [forallb]; intros H; [done|..];
    rewrite ?andb_true_iff, ?N.ltb_lt in H.
  - destruct H as [Ha _]. destruct (small_quotients a 0 Ha eq_refl) as (H1 & H2 & _). cbn [digits64 decode64].
    rewrite (proj1 (digit64_check _ H1)), (proj1 (digit64_check _ H2)). do 2 f_equal.
    rewrite <- (N.add_0_r (a mod 4 * 16)). by apply first_byte.
  - destruct H as (Ha & Hb & _). destruct (small_quotients a b Ha Hb) as (H1 & _ & H3 & H4 & _). cbn [digits64 decode64].
    rewrite (proj1 (digit64_check _ H1)), (proj1 (digit64_check _ H3)), (proj1 (digit64_check _ H4)).
    rewrite first_byte by (try done; apply N.Div0.div_lt_upper_bound; lia).
    rewrite <- (N.add_0_r (b mod 16 * 4)), second_byte; [done|done|lia|]. apply N.mod_lt. lia.
  - destruct H as (Ha & Hb & Hc & Hl). destruct (small_quotients a b Ha Hb) as (H1 & _ & H3 & _).
    destruct (small_quotients c b Hc Hb) as (_ & _ & _ & _ & H5 & H6). cbn [digits64 app decode64].
    rewrite (proj1 (digit64_check _ H1)), (proj1 (digit64_check _ H3)), (proj1 (digit64_check _ H5)), (proj1 (digit64_check _ H6)), IH by done.
    rewrite first_byte by (try done; apply N.Div0.div_lt_upper_bound; lia).
    rewrite second_byte; [|done|apply N.Div0.div_lt_upper_bound; lia|apply N.mod_lt; lia].
    rewrite third_byte; [done|done|apply N.mod_lt; lia].
Qed.

Lemma digits_plain bs : forallb byte bs = true → Forall (λ d, ascii_ws d = false ∧ d ≠ 61%N) (digits64 bs).
Proof.
  unfold byte. induction bs as [|a|a b|a b c l IH] using by_threes; cbn [forallb digits64]; intros H; [constructor|..];
    rewrite ?andb_true_iff, ?N.ltb_lt in H.
  - destruct H as [Ha _]. destruct (small_quotients a 0 Ha eq_refl) as (H1 & H2 & _).
    repeat (apply Forall_cons; split; [by apply digit64_check|]). by apply Forall_nil.
  - destruct H as (Ha & Hb & _). destruct (small_quotients a b Ha Hb) as (H1 & _ & H3 & H4 & _).
    repeat (apply Forall_cons; split; [by apply digit64_check|]). by apply Forall_nil.
  - destruct H as (Ha & Hb & Hc & Hl). destruct (small_quotients a b Ha Hb) as (H1 & _ & H3 & _).
    destruct (small_quotients c b Hc Hb) as (_ & _ & _ & _ & H5 & H6). cbn [app].
    repeat (apply Forall_cons; split; [by apply digit64_check|]). by apply IH.
Qed.

Lemma pad_cases bs : (pad64 bs = [] ∨ pad64 bs = [61%N] ∨ pad64 bs = [61; 61]%N) ∧ length (digits64 bs ++ pad64 bs) mod 4 = 0.
Proof.
  induction bs as [|a|a b|a b c l [IH1 IH2]] using by_threes; [cbn; auto..|]. split; [exact IH1|].
  cbn [digits64 pad64 app length]. rewrite <- IH2 at 2. set (n := length (digits64 l ++ pad64 l)).
  replace (S (S (S (S n)))) with (n + 1 * 4) by lia. apply Nat.Div0.mod_add.
Qed.

Lemma ends_with_units c p s : ends_with (p ++ [c]) s = match rev s with [] => false | d :: r => (c =? d)%N && starts_with (rev p) r end.
Proof.
  unfold ends_with. rewrite rev_app_distr. cbn [rev app]. unfold starts_with. destruct (rev s) as [|d r]; [done|].
  cbn [strip_prefix]. by destruct (c =? d)%N.
Qed.

Lemma strip_padding bs : forallb byte bs = true → strip_pad (digits64 bs ++ pad64 bs) = digits64 bs.
Proof.
  intros Hb. pose proof (digits_plain bs Hb) as Hp. destruct (pad_cases bs) as [Hpad Hmod]. unfold strip_pad. rewrite Hmod. cbn [Nat.eqb].
  assert (Hend : ∀ d r, rev (digits64 bs) = d :: r → (61 =? d)%N = false).
  { intros d r Hr. rewrite Forall_forall in Hp. destruct (Hp d) as [_ Hd]; [|apply N.eqb_neq; congruence].
    rewrite <- (rev_involutive (digits64 bs)), Hr. cbn [rev]. apply elem_of_app. right. by left. }
  change (js "==") with ([61%N] ++ [61%N]). change (js "=") with ([] ++ [61%N]). rewrite !ends_with_units, rev_app_distr, length_app.
  destruct Hpad as [->|[->| ->]]; cbn [rev app length].
  - rewrite app_nil_r. destruct (rev (digits64 bs)) as [|d r] eqn:E; [done|]. by rewrite (Hend d r eq_refl).
  - rewrite N.eqb_refl. cbn [andb]. unfold starts_with at 1. destruct (rev (digits64 bs)) as [|d r] eqn:E; cbn [strip_prefix].
    + cbn [starts_with strip_prefix]. rewrite take_app_le by lia. by rewrite take_ge by lia.
    + rewrite (Hend d r eq_refl). cbn [starts_with strip_prefix]. rewrite take_app_le by lia. by rewrite take_ge by lia.
  - rewrite N.eqb_refl. cbn [andb starts_with strip_prefix]. rewrite take_app_le by lia. by rewrite take_ge by lia.
Qed.

(** What the server encodes the browser decodes. *)
Lemma atob_base64 bs : forallb byte bs = true → atob (base64 bs) = Some bs.
Proof.
  intros Hb. unfold atob. rewrite base64_split, filter_all.
  - rewrite strip_padding by done. by apply decode_digits.
  - rewrite forallb_app. apply andb_true_iff. split.
    + apply forallb_Forall. eapply Forall_impl; [by apply digits_plain|]. intros d [-> _]. done.
    + by destruct (pad_cases bs) as [[->|[->| ->]] _].
Qed.

(** *** UTF-8 *)

Definition ascii (c : N) : bool := (c <? 128)%N.

Lemma ascii_not_surrogate c : ascii c = true → is_high c = false ∧ is_low c = false.
Proof.
  unfold ascii, is_high, is_low. rewrite N.ltb_lt. intros H. split; apply andb_false_iff; left; apply N.leb_gt; lia.
Qed.

Lemma utf8_ascii_app a s : forallb ascii a = true → utf8 (a ++ s) = a ++ utf8 s.
Proof.
  induction a as [|c a IH]; cbn [forallb app utf8]; [done|]. intros [Hc Ha]%andb_true_iff.
  destruct (ascii_not_surrogate c Hc) as [-> ->]. rewrite IH by done. unfold utf8_point. unfold ascii in Hc. by rewrite Hc.
Qed.

Lemma utf8_ascii a : forallb ascii a = true → utf8 a = a.
Proof. intros H. rewrite <- (app_nil_r a), utf8_ascii_app by done. done. Qed.

(** A text before something that does not start in the middle of a pair. *)
Lemma utf8_app a r : match r with [] => True | c :: _ => is_low c = false end → utf8 (a ++ r) = utf8 a ++ utf8 r.
Proof.
  intros Hr. induction a as [a IH] using (induction_ltof1 _ (@length N)); unfold ltof in IH.
  destruct a as [|x a]; [done|]. cbn [app utf8]. destruct (is_high x).
  - destruct a as [|y a]; cbn [app].
    + destruct r as [|c r]; [by rewrite app_nil_r|]. by rewrite Hr.
    + destruct (is_low y).
      * rewrite (IH a) by (cbn [length]; lia). by rewrite app_assoc.
      * change (y :: a ++ r) with ((y :: a) ++ r). rewrite (IH (y :: a)) by (cbn [length]; lia). by rewrite app_assoc.
  - destruct (is_low x); rewrite (IH a) by (cbn [length]; lia); by rewrite app_assoc.
Qed.

Lemma utf8_point_bytes cp : (cp < 1114112)%N → utf8_point cp ≠ [] ∧ forallb byte (utf8_point cp) = true ∧
  ((cp <? 128)%N = false → forallb (λ b, negb (ascii b)) (utf8_point cp) = true).
Proof.
  intros Hcp. unfold utf8_point, byte, ascii.
  assert (cp / 262144 < 5 ∧ cp mod 64 < 64 ∧ cp / 64 mod 64 < 64 ∧ cp / 4096 mod 64 < 64)%N as (H1 & H2 & H3 & H4)
    by (split_and!; [apply N.Div0.div_lt_upper_bound; lia|apply N.mod_lt; lia..]).
  pose proof (N.le_0_l (cp / 64)). pose proof (N.le_0_l (cp / 4096)). pose proof (N.le_0_l (cp / 262144)). pose proof (N.le_0_l (cp mod 64)).
  pose proof (N.le_0_l (cp / 64 mod 64)). pose proof (N.le_0_l (cp / 4096 mod 64)).
  destruct (N.ltb_spec cp 128); [|destruct (N.ltb_spec cp 2048); [|destruct (N.ltb_spec cp 65536)]];
    (split; [done|split]); cbn [forallb]; rewrite ?andb_true_iff, ?negb_true_iff, ?N.ltb_lt, ?N.ltb_ge.
  - split_and!; [lia|done].
  - done.
  - assert (cp / 64 < 32)%N by (apply N.Div0.div_lt_upper_bound; lia). split_and!; [lia..|done].
  - intros _. split_and!; [lia..|done].
  - assert (cp / 4096 < 16)%N by (apply N.Div0.div_lt_upper_bound; lia). split_and!; [lia..|done].
  - intros _. split_and!; [lia..|done].
  - split_and!; [lia..|done].
  - intros _. split_and!; [lia..|done].
Qed.

(** Any property of the ASCII units of a text and of all other bytes holds of
    its encoding. *)
Lemma utf8_forall (P : N → bool) s : wf_str s → (∀ c, c ∈ s → ascii c = true → P c = true) →
  (∀ b, (128 ≤ b < 256)%N → P b = true) → forallb P (utf8 s) = true.
Proof.
  intros Hwf HP Hhigh.
  assert (Hpt : ∀ cp, (cp < 1114112)%N → ascii cp = false → forallb P (utf8_point cp) = true).
  { intros cp Hcp Ha. destruct (utf8_point_bytes cp Hcp) as (_ & Hb & Hn). specialize (Hn Ha).
    rewrite forallb_forall in *. intros b Hin. apply Hhigh. specialize (Hb b Hin). specialize (Hn b Hin).
    unfold byte, ascii in *. rewrite negb_true_iff, N.ltb_ge in Hn. rewrite N.ltb_lt in Hb. done. }
  induction s as [s IH] using (induction_ltof1 _ (@length N)); unfold ltof in IH.
  destruct s as [|c s]; [done|]. inversion Hwf as [|? ? Hc Hs]. subst. unfold unit_ok in Hc. apply N.ltb_lt in Hc.
  assert (IHs : forallb P (utf8 s) = true) by (apply IH; [cbn [length]; lia|done|intros; apply HP; [by right|done]]).
  assert (Hrep : forallb P (utf8_point 65533) = true) by (apply Hpt; done).
  cbn [utf8]. destruct (is_high c) eqn:Eh; [destruct s as [|d s]; [done|destruct (is_low d) eqn:El]|destruct (is_low c)].
  - rewrite forallb_app. apply andb_true_iff. unfold is_high, is_low in *. bool_hyps. split.
    + apply Hpt; [lia|]. apply N.ltb_ge. lia.
    + inversion Hs. subst. apply IH; [cbn [length]; lia|done|intros; apply HP; [by do 2 right|done]].
  - by rewrite forallb_app, Hrep, IHs.
  - by rewrite forallb_app, Hrep, IHs.
  - rewrite forallb_app, IHs, andb_true_r. destruct (ascii c) eqn:Ea; [|apply Hpt; [lia|done]].
    pose proof (HP c ltac:(by left) Ea) as Hp. unfold utf8_point. unfold ascii in Ea. rewrite Ea. cbn [forallb]. by rewrite Hp.
Qed.

Lemma utf8_nonempty s : s ≠ [] → utf8 s ≠ [].
Proof.
  assert (H : ∀ cp l, utf8_point cp ++ l ≠ []) by (intros cp l; unfold utf8_point; by repeat case_match).
  destruct s as [|c s]; [done|]. intros _. cbn [utf8]. repeat case_match; try apply H. rewrite <- (app_nil_r (utf8_point 65533)). apply H.
Qed.

(** An encoding that is ASCII is that of an ASCII text, itself. *)
Lemma utf8_ascii_inv s : wf_str s → forallb ascii (utf8 s) = true → utf8 s = s.
Proof.
  intros Hwf H. apply utf8_ascii. 
  assert (Hpt : ∀ cp l, (cp < 1114112)%N → ascii cp = false → forallb ascii (utf8_point cp ++ l) = true → False).
  { intros cp l Hcp Ha. destruct (utf8_point_bytes cp Hcp) as (Hne & _ & Hn). specialize (Hn Ha).
    destruct (utf8_point cp) as [|b bs]; [done|]. cbn [forallb app] in *. bool_hyps. intros ?. bool_hyps. congruence. }
  induction s as [|c s IH]; [done|]. inversion Hwf as [|? ? Hc Hs]. subst. unfold unit_ok in Hc. apply N.ltb_lt in Hc. cbn [utf8] in H.
  destruct (is_high c) eqn:Eh; [destruct s as [|d s]; [|destruct (is_low d) eqn:El]|destruct (is_low c) eqn:El].
  - exfalso. rewrite <- (app_nil_r (utf8_point 65533)) in H. by apply Hpt in H.
  - exfalso. unfold is_high, is_low in *. bool_hyps. apply Hpt in H; [done|lia|]. apply N.ltb_ge. lia.
  - exfalso. by apply Hpt in H.
  - exfalso. by apply Hpt in H.
  - destruct (ascii c) eqn:Ea; [|exfalso; apply Hpt in H; [done|lia|done]]. cbn [forallb]. rewrite Ea. apply IH; [done|].
    rewrite forallb_app in H. by bool_hyps.
Qed.
End Encoding.

(** ** Through the log *)

Section Log.
Import Base64 Encoding.

(** A tier whose label is replaced by the bytes of its label. *)
Definition relabel (v : vtier) : vtier := VTier (vconds v) (vin v) (vout v) (utf8 (vlabel v)) (vextra v).

Lemma relabel_ok v : tier_ok v → wf_str (vlabel v) → tier_ok (relabel v).
Proof.
  intros Hv Hwf. destruct (ok_label v Hv) as [Hne Hq]. constructor; try apply Hv. split; [by apply utf8_nonempty|].
  apply utf8_forall; [done| |].
  - intros c Hc _. rewrite forallb_forall in Hq. apply Hq. by apply list_elem_of_In.
  - intros b Hb. unfold not_quote. apply negb_true_iff, N.eqb_neq. lia.
Qed.

Lemma body_ascii v : tier_ok v → forallb ascii (body_text v) = true.
Proof. intros Hv. eapply forallb_impl; [|by apply body_open]. intros c [H _]%andb_true_iff. done. Qed.

Lemma conds_ascii cs : Forall cond_ok cs → forallb ascii (conds_text cs) = true.
Proof.
  intros Hc. unfold conds_text. apply forallb_join; [reflexivity|]. apply Forall_forall. intros s (c & -> & Hin)%list_elem_of_fmap.
  rewrite Forall_forall in Hc. destruct (Hc c Hin) as (Hv & Ho & (_ & Hn & _)). unfold cond_text. rewrite !forallb_app.
  assert (Ha : forallb ascii (cvar c) = true) by (by repeat (apply elem_of_cons in Hv as [->|Hv]); [..|apply elem_of_nil in Hv]).
  assert (Hb : forallb ascii (cop c) = true) by (by repeat (apply elem_of_cons in Ho as [->|Ho]); [..|apply elem_of_nil in Ho]).
  assert (Hd : forallb ascii (String_of_num (cvalue c)) = true).
  { eapply forallb_impl; [|exact Hn]. intros x. unfold cond_char, ascii, is_digit.
    rewrite ?orb_true_iff, ?andb_true_iff, ?N.leb_le, ?N.eqb_eq, ?N.ltb_lt. lia. }
  by rewrite Ha, Hb, Hd.
Qed.

Lemma guard_ascii v : tier_ok v → forallb ascii (guard_text v) = true.
Proof.
  intros Hv. pose proof (conds_ascii _ (ok_conds v Hv)) as H. unfold guard_text. destruct (vconds v); [done|]. by rewrite forallb_app, H.
Qed.

Lemma part_encoded v rest : tier_ok v → utf8 (part_text v ++ rest) = part_text (relabel v) ++ utf8 rest.
Proof.
  intros Hv. unfold part_text, call_text. change (guard_text (relabel v)) with (guard_text v).
  change (body_text (relabel v)) with (body_text v). cbn [relabel vlabel]. rewrite <- !app_assoc.
  rewrite !utf8_ascii_app by (by apply guard_ascii || reflexivity). do 2 f_equal.
  rewrite utf8_app by reflexivity. f_equal.
  by rewrite (utf8_ascii_app (jsq "', ")), (utf8_ascii_app (body_text v)), (utf8_ascii_app (js ")")) by (by apply body_ascii || reflexivity).
Qed.

Lemma config_encoded vs : Forall tier_ok vs → utf8 (config_text vs) = config_text (map relabel vs).
Proof.
  intros Hvs. assert (Hz : zero_tail (map relabel vs) = zero_tail vs ∧ forallb ascii (zero_tail vs) = true).
  { destruct vs as [|v [|]]; [done| |done]. cbn [map zero_tail]. change (vconds (relabel v)) with (vconds v). by destruct (vconds v). }
  unfold config_text. destruct Hz as [-> Hz]. generalize (zero_tail vs) Hz. clear Hz. intros tail Ht.
  destruct Hvs as [|v vs Hv Hvs]; [by apply utf8_ascii|]. cbn [map]. rewrite !join_concat, <- !app_assoc, part_encoded by done. f_equal.
  induction Hvs as [|w vs Hw Hvs IH]; cbn [map concat app]; [by apply utf8_ascii|].
  rewrite <- !app_assoc, utf8_ascii_app by reflexivity. f_equal. by rewrite part_encoded, IH.
Qed.

(** A property of all ASCII units and of the labels holds of the expression. *)
Lemma config_forall (P : N → bool) vs : Forall tier_ok vs → (∀ c, ascii c = true → P c = true) →
  Forall (λ v, forallb P (vlabel v) = true) vs → forallb P (config_text vs) = true.
Proof.
  intros Hvs HP Hl. unfold config_text. rewrite forallb_app. apply andb_true_iff. split.
  - apply forallb_join; [by apply (forallb_impl ascii)|]. apply Forall_forall. intros s (v & -> & Hin)%list_elem_of_fmap.
    rewrite Forall_forall in Hvs. rewrite Forall_forall in Hl. specialize (Hvs v Hin). specialize (Hl v Hin).
    unfold part_text, call_text. rewrite !forallb_app. rewrite Hl.
    rewrite (forallb_impl ascii P _ HP (guard_ascii v Hvs)), (forallb_impl ascii P _ HP (body_ascii v Hvs)).
    rewrite (forallb_impl ascii P (jsq "tier('") HP eq_refl), (forallb_impl ascii P (jsq "', ") HP eq_refl),
      (forallb_impl ascii P (js ")") HP eq_refl). done.
  - apply (forallb_impl ascii P _ HP). destruct vs as [|v [|]]; try done. cbn [zero_tail]. by destruct (vconds v).
Qed.

(** The expression of a log entry, as the server sends it. *)
Definition logged (vs : list vtier) : jval := JStr (base64 (utf8 (generateExprFromVisualConfig (config_obj vs)))).

Lemma logged_decoded vs : config_ok vs → Forall (λ v, wf_str (vlabel v)) vs →
  decoded_expr (logged vs) = config_text (map relabel vs).
Proof.
  intros Hok Hwf. unfold decoded_expr, logged. cbn [String_of]. rewrite config_written by done. destruct Hok as (Hvs & _).
  rewrite atob_base64; [by apply config_encoded|]. apply utf8_forall; [|intros c _ Hc|intros b Hb].
  - apply wf_str_forallb, config_forall; [done| |].
    + intros c Hc. unfold ascii, unit_ok in *. rewrite N.ltb_lt in *. lia.
    + eapply Forall_impl; [exact Hwf|]. intros v Hv. by apply forallb_Forall.
  - unfold ascii, byte in *. rewrite N.ltb_lt in *. lia.
  - unfold byte. rewrite N.ltb_lt. lia.
Qed.

Lemma log_tiers vs : config_ok vs → Forall (λ v, wf_str (vlabel v)) vs →
  parseTiersFromExpr (decoded_expr (logged vs)) = map (λ v, log_of (relabel v)) vs.
Proof.
  intros Hok Hwf. rewrite logged_decoded by done. destruct Hok as (Hvs & Hcond & _). rewrite log_reads; [by rewrite map_map| |].
  - apply Forall_forall. intros x (v & -> & Hv)%list_elem_of_fmap. rewrite Forall_forall in Hvs. rewrite Forall_forall in Hwf.
    apply relabel_ok; auto.
  - by destruct vs.
Qed.

Lemma shows_tier vs v :
  config_ok vs → Forall (λ w, wf_str (vlabel w)) vs → NoDup (map vlabel vs) → v ∈ vs → forallb ascii (vlabel v) = true →
  parseTiersFromExpr (generateExprFromVisualConfig (config_obj vs)) = map log_of vs ∧
  shown_tier (parseTiersFromExpr (decoded_expr (logged vs))) (JStr (vlabel v)) = Some (log_of v).
Proof.
  intros Hok Hwf Hnd Hv Ha. split.
  { rewrite config_written by done. destruct Hok as (Hvs & Hcond & _). apply log_reads; [done|by destruct vs]. }
  rewrite log_tiers by done. unfold shown_tier. clear Hok.
  induction Hwf as [|w vs Hw Hwf IH]; [by apply elem_of_nil in Hv|]. cbn [map List.find is_text tier_label log_of relabel vlabel].
  cbn [map] in Hnd. apply NoDup_cons in Hnd as [Hnw Hnd]. destruct (streq (vlabel v) (utf8 (vlabel w))) eqn:E.
  - apply streq_true in E. assert (Hu : utf8 (vlabel w) = vlabel w) by (apply utf8_ascii_inv; [done|by rewrite <- E]).
    rewrite Hu in E. apply elem_of_cons in Hv as [->|Hv].
    + unfold relabel. rewrite Hu. by destruct w.
    + destruct Hnw. apply list_elem_of_fmap. exists v. split; [congruence|done].
  - apply elem_of_cons in Hv as [->|Hv]; [by rewrite (utf8_ascii _ Ha), streq_refl in E|].
    specialize (IH Hnd Hv). cbn [is_text] in IH.
    destruct (List.find _ (map (λ v, log_of (relabel v)) vs)) eqn:Ef; [done|]. exfalso.
    assert (Hin : List.In (log_of (relabel v)) (map (λ v, log_of (relabel v)) vs)) by (apply (in_map (λ v, log_of (relabel v))), list_elem_of_In, Hv).
    pose proof (find_none _ _ Ef _ Hin) as Hno. cbn [tier_label log_of relabel vlabel] in Hno.
    by rewrite (utf8_ascii _ Ha), streq_refl in Hno.
Qed.

Lemma written_wf vs : Forall (λ w, wf_str (vlabel w)) vs → Forall (λ w, wf_str (vlabel w)) (written_tiers vs).
Proof.
  intros Hwf. apply Forall_lookup. intros i u. unfold written_tiers. rewrite list_lookup_imap.
  destruct (vs !! i) as [v|] eqn:E; [|done]. intros [= <-]. cbn [as_written vlabel]. apply (Forall_lookup_1 _ _ _ _ Hwf) in E.
  destruct (vlabel v); [|done]. cbn [is_empty]. unfold place_name. destruct (Nat.eqb (length vs) 1); [by repeat constructor|].
  repeat (apply Forall_cons; split; [reflexivity|]). apply Forall_app. split; [|by repeat constructor].
  unfold string_of_Z. rewrite (proj2 (Z.ltb_ge _ _)) by lia. destruct (string_of_nonneg_spec (Z.of_nat (i + 1))) as (_ & Hd & _); [lia|].
  apply wf_str_forallb, (forallb_impl is_digit unit_ok); [|done]. intros c Hc. unfold is_digit, unit_ok in *. bool_hyps.
  rewrite N.ltb_lt. lia.
Qed.

(** C2. The log shows what the editor wrote.  Take at least one tier, given by
    complete conditions, prices and a label: every tier but the last has a
    condition, no label contains a quotation mark, the labels are sequences of
    16-bit units, and prices and thresholds print in the notation the patterns
    accept.  In the expression the editor writes for them, the reader of the log
    finds the tiers as written (an empty label as the name of its place, no
    condition on the last of several): the same prices (unset prices as zero), the
    same labels and the same conditions.  And if these labels are all different,
    then for a request billed by a tier with an ASCII label, the log entry, through
    UTF-8 and base64, shows exactly that tier. *)
Theorem log_shows_matched_tier vs :
  drafts_ok vs → Forall (λ w, wf_str (vlabel w)) vs →
  let tiers := written_tiers vs in
  parseTiersFromExpr (generateExprFromVisualConfig (config_obj vs)) = map log_of tiers ∧
  ∀ v, NoDup (map vlabel tiers) → v ∈ tiers → forallb ascii (vlabel v) = true →
       shown_tier (parseTiersFromExpr (decoded_expr (logged vs))) (JStr (vlabel v)) = Some (log_of v).
Proof.
  intros Hvs Hwf tiers. pose proof (written_tiers_ok vs Hvs) as Hok. pose proof (written_wf vs Hwf) as Hwf'.
  assert (Hl : logged vs = logged tiers) by (unfold logged; by rewrite drafts_written by apply Hvs). split.
  - rewrite drafts_written, config_written by (done || apply Hvs). destruct Hok as (Ht & Hcond & _).
    apply log_reads; [done|]. by destruct (written_tiers vs).
  - intros v Hnd Hv Ha. rewrite Hl. by apply shows_tier.
Qed.

(** A label beyond one byte is never found.  The log decodes the expression
    to bytes but not to text, so a tier whose label has a character outside
    Latin-1, as every label the editor proposes has, matches none of the tiers:
    the log shows the prices of the first tier, whichever tier applied. *)
Theorem log_shows_first_tier v0 vs label :
  config_ok (v0 :: vs) → Forall (λ w, wf_str (vlabel w)) (v0 :: vs) → existsb (λ c, 256 <=? c)%N label = true →
  shown_tier (parseTiersFromExpr (decoded_expr (logged (v0 :: vs)))) (JStr label) = Some (log_of (relabel v0)).
Proof.
  intros Hok Hwf Hlab. rewrite log_tiers by done. unfold shown_tier.
  destruct (List.find _ (map (λ v, log_of (relabel v)) (v0 :: vs))) as [x|] eqn:E; [|done]. exfalso.
  apply List.find_some in E as [(w & <- & Hw)%in_map_iff Hx]. cbn [is_text tier_label log_of relabel vlabel] in Hx.
  apply streq_true in Hx. subst label. apply existsb_exists in Hlab as (c & Hc & Hbig). rewrite Forall_forall in Hwf.
  assert (Hb : forallb byte (utf8 (vlabel w)) = true).
  { apply utf8_forall; [by apply Hwf, list_elem_of_In| |].
    - intros d _ Hd. unfold ascii, byte in *. rewrite N.ltb_lt in *. lia.
    - intros b Hb. unfold byte. rewrite N.ltb_lt. lia. }
  rewrite forallb_forall in Hb. specialize (Hb c Hc). unfold byte in Hb. rewrite N.ltb_lt in Hb. rewrite N.leb_le in Hbig. lia.
Qed.
End Log.

Lemma sample_labels_wf : Forall (λ w, wf_str (vlabel w)) sample_tiers.
Proof. repeat constructor. Qed.

Lemma sample_drafts_of : drafts_ok sample_tiers.
Proof. destruct sample_tiers_ok as (H & Hc & _). split; [|exact Hc]. eapply Forall_impl; [exact H|exact draft_of]. Qed.

Lemma log_shows_matched_tier_witness :
  parseTiersFromExpr (generateExprFromVisualConfig (config_obj sample_tiers)) = map log_of (written_tiers sample_tiers) ∧
  shown_tier (parseTiersFromExpr (decoded_expr (logged sample_tiers))) (JStr (js "long")) =
  Some (log_of (VTier [] (num_lit "3") (num_lit "1e21") (js "long") (repeat nzero 7))).
Proof.
  destruct (log_shows_matched_tier sample_tiers sample_drafts_of sample_labels_wf) as [H1 H2]. split; [exact H1|].
  apply (H2 (VTier [] (num_lit "3") (num_lit "1e21") (js "long") (repeat nzero 7))); [| |reflexivity].
  - rewrite (written_tiers_id _ sample_tiers_ok). apply (bool_decide_unpack _). vm_compute. exact I.
  - rewrite (written_tiers_id _ sample_tiers_ok). by right; left.
Defined.

(** Two tiers with the labels the editor proposes. *)
Definition default_tiers : list vtier :=
  [VTier [VCond (js "p") (js "<") (num_lit "128000")] (num_lit "2") (num_lit "8") (js "第1档") (repeat nzero 7);
   VTier [] (num_lit "4") (num_lit "16") (js "第2档") (repeat nzero 7)].

Lemma default_tiers_ok : config_ok default_tiers.
Proof.
  split; [|split; [by split|right; by eexists]].
  apply Forall_forall. intros v Hv. apply tier_okb_ok.
  assert (H : forallb tier_okb default_tiers = true) by (vm_compute; reflexivity).
  apply (proj1 (forallb_forall _ _) H). by apply list_elem_of_In.
Qed.

(** A request of the second tier, at 4 and 16, is shown at 2 and 8. *)
Lemma log_shows_first_tier_witness :
  shown_tier (parseTiersFromExpr (decoded_expr (logged default_tiers))) (JStr (js "第2档")) =
  Some (log_of (relabel (VTier [VCond (js "p") (js "<") (num_lit "128000")] (num_lit "2") (num_lit "8") (js "第1档") (repeat nzero 7)))) .
Proof.
  apply log_shows_first_tier; [exact default_tiers_ok|repeat constructor|vm_compute; reflexivity].
Defined.

Example second_tier_misshown :
  map snd (take 2 (prices (log_of (relabel (VTier [VCond (js "p") (js "<") (num_lit "128000")] (num_lit "2") (num_lit "8") (js "第1档") (repeat nzero 7))))))
  = [num_of_Z 2; num_of_Z 8].
Proof. vm_compute. reflexivity. Qed.
