(* ===== verification/PlaygroundConfig.v ===== *)
(** * The playground's settings, their storage and the custom request body
      ([web/src/components/playground/configStorage.js], [ConfigManager.jsx],
      [web/src/hooks/playground/usePlaygroundState.js],
      [useSyncMessageAndCustomBody.js] and the effects of
      [web/src/pages/Playground/index.jsx])

    Settings and messages come out of [JSON.parse], so they are JSON values
    here.  The browser's storage holds the two texts the page uses.  [iso] is
    the text of the current date, [now] the current time in milliseconds, [t]
    the translation.  Timers that only delay an action are left out; the order
    of the two effects of a render and the values they see are not. *)

From S2P Require Import Prelude JsString JsRegex JsNumber Json JsObject ThinkTags.

(** ** Defaults *)

Definition DEFAULT_INPUTS : list (jsstr * jval) :=
  [(js "model", JStr (js "gpt-4o")); (js "group", JStr []); (js "temperature", JNum (Number_of_string (js "0.7")));
   (js "top_p", JNum (num_of_Z 1)); (js "max_tokens", JNum (num_of_Z 4096)); (js "frequency_penalty", JNum nzero);
   (js "presence_penalty", JNum nzero); (js "seed", JNull); (js "stream", JBool true); (js "imageEnabled", JBool false);
   (js "imageUrls", JArr [JStr []])].
Definition DEFAULT_PARAMETERS : list (jsstr * jval) :=
  [(js "temperature", JBool true); (js "top_p", JBool true); (js "max_tokens", JBool false);
   (js "frequency_penalty", JBool true); (js "presence_penalty", JBool true); (js "seed", JBool false)].

(** The part of [DEFAULT_CONFIG] that is used. *)
Record playground_config := Config {
  c_inputs : jval; c_parameterEnabled : jval; c_showDebugPanel : jval; c_customRequestMode : jval; c_customRequestBody : jval
}.
Definition DEFAULT_CONFIG : playground_config :=
  Config (JObj DEFAULT_INPUTS) (JObj DEFAULT_PARAMETERS) (JBool false) (JBool false) (JStr []).

(** ** Storage *)

Record storage := Storage { CONFIG : option jsstr; MESSAGES : option jsstr }.

Section Config.
Context (iso : jsstr) (now : num) (t : jsstr → jsstr).

Definition config_entries (c : playground_config) : list (jsstr * jval) :=
  [(js "inputs", c_inputs c); (js "parameterEnabled", c_parameterEnabled c); (js "showDebugPanel", c_showDebugPanel c);
   (js "customRequestMode", c_customRequestMode c); (js "customRequestBody", c_customRequestBody c)].

Definition saveConfig (c : playground_config) (s : storage) : storage :=
  Storage (stringify (JObj (config_entries c ++ [(js "timestamp", JStr iso)]))) (MESSAGES s).

Definition saveMessages (messages : jval) (s : storage) : storage :=
  Storage (CONFIG s) (stringify (JObj [(js "messages", messages); (js "timestamp", JStr iso)])).

(** [localStorage.getItem(k)] if it is not empty, parsed; [None] when the
    surrounding [try] ends in its default. *)
Definition stored_json (text : option jsstr) : option jval :=
  match text with Some (c :: s) => parse (c :: s) | _ => None end.

(** [v?.k] *)
Definition opt_read (v : jval) (k : string) : jval := if is_nullish v then JUndef else read v (js k).

(** [Number.isNaN(parseInt(v, 10)) ? v : parseInt(v, 10)] *)
Definition max_tokens_of (v : jval) : jval :=
  let parsedMaxTokens := parseInt10 (String_of v) in if isNaN parsedMaxTokens then v else JNum parsedMaxTokens.

Definition merged_config (parsed : jval) : playground_config :=
  {| c_inputs := JObj (obj_set (spread DEFAULT_INPUTS (read parsed (js "inputs"))) (js "max_tokens")
                        (max_tokens_of (opt_read (read parsed (js "inputs")) "max_tokens")));
     c_parameterEnabled := JObj (spread DEFAULT_PARAMETERS (read parsed (js "parameterEnabled")));
     c_showDebugPanel := js_or (read parsed (js "showDebugPanel")) (c_showDebugPanel DEFAULT_CONFIG);
     c_customRequestMode := js_or (read parsed (js "customRequestMode")) (c_customRequestMode DEFAULT_CONFIG);
     c_customRequestBody := js_or (read parsed (js "customRequestBody")) (c_customRequestBody DEFAULT_CONFIG) |}.

Definition loadConfig (s : storage) : playground_config :=
  match stored_json (CONFIG s) with
  | Some parsed => if is_nullish parsed then DEFAULT_CONFIG else merged_config parsed
  | None => DEFAULT_CONFIG
  end.

(** [JNull] is the result without messages. *)
Definition loadMessages (s : storage) : jval :=
  match stored_json (MESSAGES s) with
  | Some parsed => if is_nullish parsed then JNull else js_or (read parsed (js "messages")) JNull
  | None => JNull
  end.

Definition clearConfig (s : storage) : storage := Storage None None.
Definition clearMessages (s : storage) : storage := Storage (CONFIG s) None.
Definition hasStoredConfig (s : storage) : bool := match CONFIG s with Some _ => true | None => false end.
Definition getConfigTimestamp (s : storage) : jval :=
  match stored_json (CONFIG s) with
  | Some parsed => if is_nullish parsed then JNull else js_or (read parsed (js "timestamp")) JNull
  | None => JNull
  end.

(** The text of the exported file. *)
Definition exportConfig (c : playground_config) (messages : jval) (s : storage) : option jsstr :=
  stringify2 (JObj (config_entries c ++
    [(js "messages", js_or messages (loadMessages s)); (js "exportTime", JStr iso); (js "version", JStr (js "1.0"))])).

(** Reading a file: [None] is a rejected promise.  Messages of the file are
    saved before the page asks whether to import. *)
Definition importConfig (file : jsstr) (s : storage) : option jval * storage :=
  match parse file with
  | Some imported =>
    if is_nullish imported then (None, s)
    else if truthy (read imported (js "inputs")) && truthy (read imported (js "parameterEnabled")) then
      (Some imported,
       if is_array (read imported (js "messages")) then saveMessages (read imported (js "messages")) s else s)
    else (None, s)
  | None => (None, s)
  end.

(** ** The state of the page *)

Record page := Page { settings : playground_config; messages : list jval }.

Definition handleInputChange (name : jsstr) (value : jval) (c : playground_config) : playground_config :=
  Config (JObj (obj_set (spread [] (c_inputs c)) name value)) (c_parameterEnabled c) (c_showDebugPanel c)
    (c_customRequestMode c) (c_customRequestBody c).

Definition handleParameterToggle (paramName : jsstr) (c : playground_config) : playground_config :=
  Config (c_inputs c)
    (JObj (obj_set (spread [] (c_parameterEnabled c)) paramName (JBool (negb (truthy (read (c_parameterEnabled c) paramName))))))
    (c_showDebugPanel c) (c_customRequestMode c) (c_customRequestBody c).

Definition is_bool (v : jval) : bool := match v with JBool _ => true | _ => false end.

(** The imported value has [inputs] and [parameterEnabled]. *)
Definition handleConfigImport (imported : jval) (p : page) : page :=
  let c := settings p in
  let i := read imported (js "inputs") in
  let pe := read imported (js "parameterEnabled") in
  {| settings :=
       {| c_inputs := if truthy i then
            JObj (obj_set (spread (spread [] (c_inputs c)) i) (js "max_tokens") (max_tokens_of (read i (js "max_tokens"))))
          else c_inputs c;
          c_parameterEnabled := if truthy pe then JObj (spread (spread [] (c_parameterEnabled c)) pe) else c_parameterEnabled c;
          c_showDebugPanel := if is_bool (read imported (js "showDebugPanel")) then read imported (js "showDebugPanel") else c_showDebugPanel c;
          c_customRequestMode := js_or (read imported (js "customRequestMode")) (c_customRequestMode c);
          c_customRequestBody := js_or (read imported (js "customRequestBody")) (c_customRequestBody c) |};
     messages := match read imported (js "messages") with JArr l => l | _ => messages p end |}.

Definition getDefaultMessages : list jval :=
  [JObj [(js "role", JStr (js "user")); (js "id", JStr (js "2")); (js "createAt", JNum (num_of_Z 1715676751919));
         (js "content", JStr (t (js "默认用户消息")))];
   JObj [(js "role", JStr (js "assistant")); (js "id", JStr (js "3")); (js "createAt", JNum (num_of_Z 1715676751919));
         (js "content", JStr (t (js "默认助手消息"))); (js "reasoningContent", JStr []); (js "isReasoningExpanded", JBool false)]].

(** With the messages reset, an empty conversation is shown first. *)
Definition handleConfigReset (resetMessages : bool) (p : page) : page :=
  Page DEFAULT_CONFIG (if resetMessages then getDefaultMessages else messages p).

Definition is_text_value (v : jval) (s : string) : bool := match v with JStr x => streq x (js s) | _ => false end.

(** The examples of an older version; [None] is the exception for a [null] message. *)
Definition old_examples (loaded : jval) : option bool :=
  match loaded with
  | JArr [a; b] =>
    ida ← read_throw a (js "id");
    if negb (is_text_value ida "2") then Some false
    else
      idb ← read_throw b (js "id");
      if negb (is_text_value idb "3") then Some false
      else Some (is_text_value (read a (js "content")) "你好"
                 || is_text_value (read b (js "content")) "你好，请问有什么可以帮助您的吗？"
                 || is_text_value (read b (js "content")) "你好！很高兴见到你。有什么我可以帮助你的吗？")
  | _ => Some false
  end.

Definition initialMessages (s : storage) : option (jval * storage) :=
  let loaded := loadMessages s in
  old ← old_examples loaded;
  Some (if old : bool then (JNull, clearMessages s) else (loaded, s)).

(** A last message that was still being written when the page was left; its
    content is text. *)
Definition waiting (m : jval) : bool :=
  is_text_value (read m (js "status")) "loading" || is_text_value (read m (js "status")) "incomplete".
Definition text_of (v : jval) : jsstr := match v with JStr s => s | _ => [] end.
Definition repaired (m : jval) : jval :=
  let '(c, r) := processIncompleteThinkTags (text_of (read m (js "content"))) (text_of (read m (js "reasoningContent"))) in
  JObj (obj_set (obj_set (obj_set (obj_set (spread [] m) (js "status") (JStr (js "complete"))) (js "content") (JStr c))
          (js "reasoningContent") (if is_empty r then JNull else JStr r)) (js "isThinkingComplete") (JBool true)).

(** The effect of the first render: the repaired conversation is shown and
    saved; [None] is the exception for a [null] message. *)
Definition repair_last (p : page) (s : storage) : option (page * storage) :=
  match last (messages p) with
  | Some lastMsg =>
    if is_nullish lastMsg then None
    else Some (if waiting lastMsg then
                 let updatedMessages := removelast (messages p) ++ [repaired lastMsg] in
                 (Page (settings p) updatedMessages, saveMessages (JArr updatedMessages) s)
               else (p, s))
  | None => Some (p, s)
  end.

(** Opening the page; [None] when the stored messages are no list. *)
Definition open_page (s : storage) : option (page * storage) :=
  let saved := loadConfig s in
  '(initial, s1) ← initialMessages s;
  ms ← match initial with
       | JArr l => Some l
       | v => if truthy v then None else Some getDefaultMessages
       end;
  repair_last {| settings := {| c_inputs := js_or (c_inputs saved) (JObj DEFAULT_INPUTS);
                                      c_parameterEnabled := js_or (c_parameterEnabled saved) (JObj DEFAULT_PARAMETERS);
                                      c_showDebugPanel := js_or (c_showDebugPanel saved) (JBool false);
                                      c_customRequestMode := js_or (c_customRequestMode saved) (JBool false);
                                      c_customRequestBody := js_or (c_customRequestBody saved) (JStr []) |};
                       messages := ms |} s1.

(** ** The conversation and the custom request body *)

(** What the hook remembers besides its two arguments.  The flags that mark an
    update in progress are set and cleared within one call. *)
Record sync := Sync { s_messages : list jval; s_body : jsstr; lastMessageHash : jsstr; lastCustomBodyHash : jsstr }.

Definition hash_entry (msg : jval) : option jval :=
  if is_nullish msg then None
  else Some (JObj [(js "id", read msg (js "id")); (js "role", read msg (js "role")); (js "content", read msg (js "content"))]).

(** [None] is the exception for a [null] message. *)
Definition getMessageHash (ms : list jval) : option jsstr :=
  l ← map_opt hash_entry ms; stringify (JArr l).

Definition getCustomBodyHash (customBody : jsstr) : jsstr :=
  match parse customBody with
  | Some parsed => if is_nullish parsed then [] else default [] (stringify (js_or (read parsed (js "messages")) (JArr [])))
  | None => []
  end.

Definition role_content (msg : jval) : jval :=
  JObj [(js "role", read msg (js "role")); (js "content", read msg (js "content"))].

(** [customRequestBody || '{}'] *)
Definition body_or_empty (body : jsstr) : jsstr := if is_empty body then js "{}" else body.

Definition fallback_payload (inp : jval) : jval :=
  JObj [(js "model", js_or (read inp (js "model")) (JStr (js "gpt-4o"))); (js "messages", JArr []);
        (js "temperature", js_or (read inp (js "temperature")) (JNum (Number_of_string (js "0.7"))));
        (js "stream", JBool (negb (is_false (read inp (js "stream")))))].

(** [customPayload.messages = l]: a property of an array is not written out, and
    a property of [null] or of a primitive cannot be set. *)
Definition set_messages (payload : jval) (l : list jval) : option jval :=
  match payload with
  | JObj o => Some (JObj (obj_set o (js "messages") (JArr l)))
  | JArr a => Some (JArr a)
  | _ => None
  end.

(** The new body and hashes, if the conversation changed; [None] is an exception. *)
Definition syncMessageToCustomBody (customRequestMode : bool) (inp : jval) (s : sync) : option (option (jsstr * jsstr * jsstr)) :=
  if negb customRequestMode then Some None else
  currentMessageHash ← getMessageHash (s_messages s);
  if streq currentMessageHash (lastMessageHash s) then Some None
  else
    let customPayload := default (fallback_payload inp) (parse (body_or_empty (s_body s))) in
    payload ← set_messages customPayload (map role_content (s_messages s));
    newCustomBody ← stringify2 payload;
    Some (Some (newCustomBody, currentMessageHash, getCustomBodyHash newCustomBody)).

Definition new_message (e : nat * jval) : option jval :=
  let '(index, msg) := e in
  if is_nullish msg then None
  else Some (JObj ([(js "id", js_or (read msg (js "id")) (JStr (string_of_Z (Z.of_nat index + 1))));
                    (js "role", js_or (read msg (js "role")) (JStr (js "user")));
                    (js "content", js_or (read msg (js "content")) (JStr []));
                    (js "createAt", JNum now)] ++
                   (if is_text_value (read msg (js "role")) "assistant"
                    then [(js "reasoningContent", js_or (read msg (js "reasoningContent")) (JStr []));
                          (js "isReasoningExpanded", JBool false)] else []))).

(** The new conversation and hashes, if the body changed and has messages; what
    is thrown inside is caught. *)
Definition syncCustomBodyToMessage (customRequestMode : bool) (s : sync) : option (list jval * jsstr * jsstr) :=
  if negb customRequestMode then None else
  let currentCustomBodyHash := getCustomBodyHash (s_body s) in
  if streq currentCustomBodyHash (lastCustomBodyHash s) then None
  else
    customPayload ← parse (body_or_empty (s_body s));
    match read customPayload (js "messages") with
    | JArr l =>
      newMessages ← map_opt new_message (imap pair l);
      hash ← getMessageHash newMessages;
      Some (newMessages, hash, currentCustomBodyHash)
    | _ => None
    end.

(** What changed in the render: with [message_dep] the first effect runs, with
    [body_dep] the second. *)
Record deps := Deps { message_dep : bool; body_dep : bool }.

(** The two effects of one render see the conversation and the body of that
    render; what they set is there in the next.  A new conversation is a new
    array, so it always counts as changed; a new body does if it differs.
    [None] is an exception. *)
Definition render_effects (customRequestMode : bool) (inp : jval) (d : deps) (s : sync) : option (sync * deps) :=
  r1 ← (if message_dep d then syncMessageToCustomBody customRequestMode inp s else Some None);
  let '(body, s1) := match r1 with
                     | Some (body, mh, bh) => (body, Sync (s_messages s) (s_body s) mh bh)
                     | None => (s_body s, s)
                     end in
  let r2 := if body_dep d then syncCustomBodyToMessage customRequestMode s1 else None in
  let body_changed := negb (streq body (s_body s)) in
  Some (match r2 with
        | Some (ms, mh, bh) => (Sync ms body mh bh, Deps true body_changed)
        | None => (Sync (s_messages s1) body (lastMessageHash s1) (lastCustomBodyHash s1), Deps body_changed body_changed)
        end).

(** The renders that follow, until one changes nothing; [None] when one throws
    or [fuel] renders were not enough. *)
Fixpoint settle_sync (customRequestMode : bool) (inp : jval) (fuel : nat) (d : deps) (s : sync) : option sync :=
  if negb (message_dep d || body_dep d) then Some s
  else match fuel with
       | O => None
       | S fuel' => match render_effects customRequestMode inp d s with
                    | Some (s', d') => settle_sync customRequestMode inp fuel' d' s'
                    | None => None
                    end
       end.
End Config.
