(* ===== verification/PlaygroundConfigTheorems.v ===== *)
(** * The playground's settings: theorems

    Settings keep their shape whatever is loaded, imported or edited; what the
    page saves is what it shows after a reload; the effects that keep the
    conversation and the custom request body in step come to rest, with the
    conversation in the body. *)

From stdpp Require Import relations.
From S2P Require Import Prelude JsString JsRegex JsNumber Json JsObject ThinkTags PlaygroundConfig.

(** ** The effects come to rest *)

Section Sync.
Context (now : num) (mode : bool) (inp : jval).
Implicit Types s : sync.

(** The first effect has nothing to do, and so has the second. *)
Definition message_synced s : Prop := getMessageHash (s_messages s) = Some (lastMessageHash s).
Definition body_synced s : Prop := getCustomBodyHash (s_body s) = lastCustomBodyHash s.

Lemma first_rests s : message_synced s → syncMessageToCustomBody mode inp s = Some None.
Proof.
  unfold syncMessageToCustomBody. intros ->. destruct mode; [|done]. cbn [negb mbind option_bind]. by rewrite streq_refl.
Qed.

Lemma second_rests s : body_synced s → syncCustomBodyToMessage now mode s = None.
Proof. unfold syncCustomBodyToMessage. intros ->. destruct mode; [|done]. cbn [negb]. by rewrite streq_refl. Qed.

(** What the first effect leaves is in step with the conversation. *)
Lemma first_syncs s b mh bh : syncMessageToCustomBody mode inp s = Some (Some (b, mh, bh)) →
  getMessageHash (s_messages s) = Some mh ∧ getCustomBodyHash b = bh.
Proof.
  unfold syncMessageToCustomBody. destruct mode; [|done]. cbn [negb].
  destruct (getMessageHash (s_messages s)) as [h|] eqn:E; [|done]. cbn [mbind option_bind].
  destruct (streq h (lastMessageHash s)); [done|].
  destruct (set_messages _ _) as [v|]; [|done]. cbn [mbind option_bind].
  destruct (stringify2 v); [|done]. cbn [mbind option_bind]. by intros [= <- <- <-].
Qed.

(** What the second effect leaves is in step with the body. *)
Lemma second_syncs s ms mh bh : syncCustomBodyToMessage now mode s = Some (ms, mh, bh) →
  getMessageHash ms = Some mh ∧ getCustomBodyHash (s_body s) = bh ∧ bh ≠ lastCustomBodyHash s.
Proof.
  unfold syncCustomBodyToMessage. destruct mode; [|done]. cbn [negb].
  destruct (streq _ _) eqn:Es; [done|]. destruct (parse _) as [v|]; [|done]. cbn [mbind option_bind].
  destruct (read v _); try done. destruct (map_opt _ _) as [l'|]; [|done]. cbn [mbind option_bind].
  destruct (getMessageHash l') eqn:E; [|done]. cbn [mbind option_bind]. intros [= <- <- <-].
  split_and!; [done..|]. intros H. rewrite H, streq_refl in Es. done.
Qed.

(** The state after a render whose first effect has nothing to do. *)
Definition after_second (d : deps) s : sync :=
  match (if body_dep d then syncCustomBodyToMessage now mode s else None) with
  | Some (ms, mh, bh) => Sync ms (s_body s) mh bh
  | None => s
  end.

Lemma render_synced d s : message_synced s → ∃ b,
  render_effects now mode inp d s = Some (after_second d s, Deps b false) ∧
  (b = true → body_dep d = true) ∧ message_synced (after_second d s).
Proof.
  intros Hs. unfold render_effects, after_second.
  assert ((if message_dep d then syncMessageToCustomBody mode inp s else Some None) = Some None) as ->.
  { destruct (message_dep d); [by apply first_rests|done]. }
  cbn [mbind option_bind]. rewrite streq_refl. cbn [negb].
  destruct (if body_dep d then _ else _) as [[[ms mh] bh]|] eqn:E.
  - exists true. destruct (body_dep d); [|done]. split_and!; [done..|]. by apply second_syncs in E as [? _].
  - exists false. destruct s. done.
Qed.

(** Two renders are enough once the conversation is in step. *)
Lemma settle_synced fuel d s : message_synced s → settle_sync now mode inp (2 + fuel) d s = Some (after_second d s).
Proof.
  intros Hs. cbn [settle_sync Nat.add]. destruct (message_dep d || body_dep d) eqn:Ed; cbn [negb].
  - destruct (render_synced d s Hs) as (b & -> & _ & Hs'). cbn [settle_sync message_dep body_dep]. destruct b; [|done].
    cbn [orb negb]. destruct (render_synced (Deps true false) _ Hs') as (b' & -> & Hb' & _).
    destruct b'; [by specialize (Hb' eq_refl)|]. by destruct fuel.
  - apply orb_false_iff in Ed as [_ Ed]. unfold after_second. by rewrite Ed.
Qed.

Lemma settle_idle fuel d s : message_dep d = false → body_dep d = false → settle_sync now mode inp fuel d s = Some s.
Proof. intros H1 H2. destruct fuel; cbn [settle_sync]; by rewrite H1, H2. Qed.

(** After one render the conversation is in step, or nothing is left to do. *)
Lemma render_syncs d s s1 d1 : render_effects now mode inp d s = Some (s1, d1) →
  message_synced s1 ∨ message_dep d1 = false ∧ body_dep d1 = false.
Proof.
  unfold render_effects. destruct (if message_dep d then _ else _) as [r1|] eqn:E1; [|done]. cbn [mbind option_bind].
  destruct r1 as [[[b mh] bh]|].
  - destruct (message_dep d); [|done]. apply first_syncs in E1 as [Hm _].
    destruct (if body_dep d then _ else _) as [[[ms' mh'] bh']|] eqn:E2; intros [= <- <-]; left; [|done].
    destruct (body_dep d); [|done]. by apply second_syncs in E2 as [? _].
  - rewrite streq_refl. destruct (if body_dep d then _ else _) as [[[ms' mh'] bh']|] eqn:E2; intros [= <- <-]; [left|by right].
    destruct (body_dep d); [|done]. by apply second_syncs in E2 as [? _].
Qed.

(** A render throws only in its first effect. *)
Lemma render_throws d s : render_effects now mode inp d s = None ↔
  message_dep d = true ∧ syncMessageToCustomBody mode inp s = None.
Proof.
  unfold render_effects. destruct (message_dep d); [|by split; [|intros [??]]].
  destruct (syncMessageToCustomBody mode inp s) as [[[[b mh] bh]|]|]; cbn [mbind option_bind];
    [split; [by repeat case_match|by intros [??]]..|done].
Qed.

Lemma settle_total fuel d s :
  is_Some (settle_sync now mode inp (3 + fuel) d s) ↔ ¬ (message_dep d = true ∧ syncMessageToCustomBody mode inp s = None).
Proof.
  rewrite <- render_throws. change (3 + fuel) with (S (2 + fuel)). cbn [settle_sync].
  destruct (message_dep d || body_dep d) eqn:Ed; cbn [negb].
  - destruct (render_effects now mode inp d s) as [[s1 d1]|] eqn:E; [|split; [by intros []|done]].
    split; [done|]. intros _. destruct (render_syncs d s s1 d1 E) as [H|[H1 H2]].
    + rewrite settle_synced by done. done.
    + by rewrite settle_idle.
  - split; [|done]. intros _. rewrite render_throws. intros [H _]. by rewrite H in Ed.
Qed.

End Sync.

(** ** The conversation reaches the body *)

Definition is_empty_text (v : jval) : bool := match v with JStr s => is_empty s | _ => false end.

(** A message with a role, and a content that [||] does not replace; both fit for JSON. *)
Definition syncable (m : jval) : bool :=
  negb (is_nullish m) && truthy (read m (js "role"))
  && (truthy (read m (js "content")) || is_empty_text (read m (js "content")))
  && json_ok (role_content m).

Lemma read_role r c : read (JObj [(js "role", r); (js "content", c)]) (js "role") = r.
Proof. reflexivity. Qed.
Lemma read_content r c : read (JObj [(js "role", r); (js "content", c)]) (js "content") = c.
Proof. reflexivity. Qed.

(** Role and content of the message an entry of the body becomes. *)
Definition read_back (e : jval) : jval :=
  JObj [(js "role", js_or (read e (js "role")) (JStr (js "user"))); (js "content", js_or (read e (js "content")) (JStr []))].

Lemma read_back_syncable m : syncable m = true → read_back (role_content m) = role_content m.
Proof.
  unfold syncable. rewrite !andb_true_iff, orb_true_iff. intros [[[_ Hr] Hc] _].
  unfold read_back, role_content. rewrite read_role, read_content. unfold js_or. rewrite Hr.
  destruct Hc as [Hc|Hc]; [by rewrite Hc|]. destruct (read m (js "content")) as [| | | |x| |]; try done. by destruct x.
Qed.

Lemma snd_imap_pair {A} (l : list A) : map snd (imap pair l) = l.
Proof. apply list_eq. intros i. rewrite list_lookup_fmap, list_lookup_imap. by destruct (l !! i). Qed.

Lemma new_messages_of now il : Forall (λ e, is_nullish e.2 = false) il →
  ∃ ms, map_opt (new_message now) il = Some ms ∧ Forall (λ m, is_nullish m = false) ms ∧
        map role_content ms = map read_back (map snd il).
Proof.
  induction 1 as [|[i e] il He _ (ms & E & Hn & Hr)]; [by exists []|]. eexists (_ :: ms). cbn [map_opt map snd] in *.
  unfold new_message at 1. rewrite He, E, Hr. split_and!; [reflexivity|by constructor|]. by f_equal.
Qed.

Lemma new_messages now l : Forall (λ e, is_nullish e = false) l →
  ∃ ms, map_opt (new_message now) (imap pair l) = Some ms ∧ Forall (λ m, is_nullish m = false) ms ∧
        map role_content ms = map read_back l.
Proof.
  intros Hl. rewrite <- (snd_imap_pair l) in Hl. destruct (new_messages_of now (imap pair l)) as (ms & ? & ? & Hr).
  { by apply Forall_map in Hl. }
  exists ms. by rewrite snd_imap_pair in Hr.
Qed.

Lemma message_hash ms : Forall (λ m, is_nullish m = false) ms → ∃ h, getMessageHash ms = Some h.
Proof.
  intros Hall. unfold getMessageHash.
  assert (∃ l, map_opt hash_entry ms = Some l) as [l ->]; [|eexists; reflexivity].
  induction Hall as [|m ms Hm _ [l IH]]; [by exists []|]. eexists. cbn [map_opt]. unfold hash_entry at 1. by rewrite Hm, IH.
Qed.

Lemma entries_json ms : Forall (λ m, syncable m = true) ms → json_ok (JArr (map role_content ms)) = true.
Proof.
  cbn [json_ok]. induction 1 as [|m ms Hm _ IH]; cbn [map forallb]; [done|]. rewrite IH, andb_true_r.
  unfold syncable in Hm. rewrite !andb_true_iff in Hm. tauto.
Qed.

(** The body the first effect writes. *)
Lemma first_writes inp s o h :
  Forall (λ m, syncable m = true) (s_messages s) →
  getMessageHash (s_messages s) = Some h → h ≠ lastMessageHash s →
  default (fallback_payload inp) (parse (body_or_empty (s_body s))) = JObj o → json_ok (JObj o) = true →
  ∃ b, syncMessageToCustomBody true inp s = Some (Some (b, h, getCustomBodyHash b)) ∧ b ≠ [] ∧
       parse b = Some (JObj (obj_set o (js "messages") (JArr (map role_content (s_messages s))))).
Proof.
  intros Hall Hh Hne Ho Hok. set (l := map role_content (s_messages s)).
  assert (Hj : json_ok (JObj (obj_set o (js "messages") (JArr l))) = true).
  { apply json_ok_set; [reflexivity..|done|]. by apply entries_json. }
  destruct (parse_stringify_at (js "  ") (JObj (obj_set o (js "messages") (JArr l))) eq_refl Hj) as (b & Hb & Hp).
  exists b. split; [|split; [by intros ->|done]]. unfold syncMessageToCustomBody. cbn [negb]. rewrite Hh.
  cbn [mbind option_bind]. destruct (streq h (lastMessageHash s)) eqn:E; [by apply streq_true in E|].
  rewrite Ho. cbn [set_messages mbind option_bind]. fold l. unfold stringify2. by rewrite Hb.
Qed.

(** The second effect on a body with messages. *)
Lemma second_reads now s v l :
  parse (body_or_empty (s_body s)) = Some v → read v (js "messages") = JArr l → Forall (λ e, is_nullish e = false) l →
  getCustomBodyHash (s_body s) ≠ lastCustomBodyHash s →
  ∃ ms h, syncCustomBodyToMessage now true s = Some (ms, h, getCustomBodyHash (s_body s)) ∧
          getMessageHash ms = Some h ∧ map role_content ms = map read_back l.
Proof.
  intros Hp Hr Hl Hne. unfold syncCustomBodyToMessage. cbn [negb].
  destruct (streq _ (lastCustomBodyHash s)) eqn:E; [by apply streq_true in E|]. rewrite Hp. cbn [mbind option_bind]. rewrite Hr.
  destruct (new_messages now l Hl) as (ms & -> & Hn & Hb). destruct (message_hash ms Hn) as (h & Hh).
  exists ms, h. cbn [mbind option_bind]. by rewrite Hh.
Qed.

Lemma read_back_messages ms : Forall (λ m, syncable m = true) ms → map read_back (map role_content ms) = map role_content ms.
Proof. induction 1; cbn [map]; [done|]. rewrite read_back_syncable by done. congruence. Qed.

(** C7. The effects that keep the conversation and the custom request body in
    step never chase each other: three renders are enough whatever the state,
    the edit and the order of dependencies, and they fail only if the first
    effect throws in the first render. *)
Theorem sync_settles now mode inp d s fuel : 3 ≤ fuel →
  is_Some (settle_sync now mode inp fuel d s) ↔ ¬ (message_dep d = true ∧ syncMessageToCustomBody mode inp s = None).
Proof. intros H. replace fuel with (3 + (fuel - 3)) by lia. apply settle_total. Qed.

Definition user_says (s : string) : jval := JObj [(js "role", JStr (js "user")); (js "content", JStr (js s)); (js "id", JStr (js "4"))].
Definition sync_example : sync := Sync [user_says "hi"] (jsq "{'model':'m','messages':[{'role':'user','content':'old'}]}") [] [].

Lemma sync_settles_witness :
  is_Some (settle_sync nzero true (JObj []) 3 (Deps true true) sync_example) ∧ 3 ≤ 3.
Proof.
  split; [|lia]. apply (sync_settles nzero true (JObj []) (Deps true true) sync_example 3); [lia|].
  intros [_ H]. vm_compute in H. discriminate H.
Defined.

(** C10. A changed conversation ends up in the custom request body, and stays:
    the settled body is the old one, or the fallback, with [messages] replaced by
    the role and content of every message, and the settled conversation has the
    same roles and contents, also when the mode is switched on over a body with
    other messages and both effects run. *)
Theorem conversation_reaches_body now inp d s o h :
  message_dep d = true →
  Forall (λ m, syncable m = true) (s_messages s) →
  getMessageHash (s_messages s) = Some h → h ≠ lastMessageHash s →
  default (fallback_payload inp) (parse (body_or_empty (s_body s))) = JObj o → json_ok (JObj o) = true →
  ∃ s' o', settle_sync now true inp 3 d s = Some s' ∧
    map role_content (s_messages s') = map role_content (s_messages s) ∧
    parse (s_body s') = Some (JObj o') ∧
    ∀ k, obj_get o' k = if streq (js "messages") k then JArr (map role_content (s_messages s)) else obj_get o k.
Proof.
  intros Hd Hall Hh Hne Ho Hok. destruct (first_writes inp s o h Hall Hh Hne Ho Hok) as (b & E1 & Hb & Hp).
  set (o' := obj_set o (js "messages") (JArr (map role_content (s_messages s)))) in *.
  assert (Hget : ∀ k, obj_get o' k = if streq (js "messages") k then JArr (map role_content (s_messages s)) else obj_get o k)
    by (intros k; apply obj_get_set).
  change 3 with (S (2 + 0)). cbn [settle_sync]. rewrite Hd. cbn [orb negb]. unfold render_effects. rewrite Hd, E1.
  cbn [mbind option_bind s_messages s_body lastMessageHash lastCustomBodyHash].
  destruct (if body_dep d then _ else _) as [[[ms' mh'] bh']|] eqn:E2.
  - destruct (body_dep d); [|done]. apply second_syncs in E2 as (Hm' & Hb' & Hne'). cbn [s_body lastCustomBodyHash] in Hb', Hne'.
    rewrite settle_synced by done. unfold after_second. cbn [body_dep].
    assert (streq b (s_body s) = false) as ->. { destruct (streq b (s_body s)) eqn:E; [|done]. apply streq_true in E as ->. congruence. }
    cbn [negb]. destruct (second_reads now (Sync ms' b mh' bh') (JObj o') (map role_content (s_messages s)))
      as (ms2 & h2 & -> & _ & Hr); cbn [s_body lastCustomBodyHash read]; [by destruct b| | |congruence|].
    { by rewrite Hget, streq_refl. }
    { by apply Forall_map, Forall_true. }
    rewrite read_back_messages in Hr by done. eexists _, o'. split_and!; [reflexivity|done..].
  - rewrite settle_synced by done. unfold after_second. rewrite second_rests by done.
    destruct (negb _); cbn [body_dep]; eexists _, o'; split_and!; [reflexivity|done..].
Qed.

Lemma conversation_reaches_body_witness :
  let s := sync_example in
  ∃ s' o', settle_sync nzero true (JObj []) 3 (Deps true true) s = Some s' ∧
    map role_content (s_messages s') = map role_content (s_messages s) ∧
    parse (s_body s') = Some (JObj o') ∧
    ∀ k, obj_get o' k = if streq (js "messages") k then JArr (map role_content (s_messages s))
                        else obj_get [(js "model", JStr (js "m")); (js "messages", JArr [role_content (user_says "old")])] k.
Proof.
  intros s. eapply (conversation_reaches_body nzero (JObj []) (Deps true true) s).
  - reflexivity.
  - apply Forall_cons. split; [vm_compute; reflexivity|]. apply Forall_nil. exact I.
  - vm_compute. reflexivity.
  - vm_compute. discriminate.
  - vm_compute. reflexivity.
  - vm_compute. reflexivity.
Defined.

(** A body that is [null] makes the first effect throw. *)
Example null_body_throws : settle_sync nzero true (JObj []) 3 (Deps true true) (Sync [user_says "hi"] (js "null") [] []) = None.
Proof. vm_compute. reflexivity. Qed.

(** An edited body ends up in the conversation and is left as it is: two
    renders are enough, and every message has the role and the content of its
    entry, with [user] and the empty text for missing ones. *)
Theorem body_reaches_conversation now inp d s v l :
  message_synced s → body_dep d = true → getCustomBodyHash (s_body s) ≠ lastCustomBodyHash s →
  parse (body_or_empty (s_body s)) = Some v → read v (js "messages") = JArr l → Forall (λ e, is_nullish e = false) l →
  ∃ s', settle_sync now true inp 2 d s = Some s' ∧ s_body s' = s_body s ∧ message_synced s' ∧ body_synced s' ∧
        map role_content (s_messages s') = map read_back l.
Proof.
  intros Hs Hd Hne Hp Hr Hall. change 2 with (2 + 0). rewrite settle_synced by done. unfold after_second. rewrite Hd.
  destruct (second_reads now s v l Hp Hr Hall Hne) as (ms & h & -> & Hh & Hrc). by eexists.
Qed.

Definition edited_example : sync :=
  Sync [user_says "hi"] (jsq "{'messages':[{'role':'system','content':'be brief'},{'content':'go'}]}")
    (default [] (getMessageHash [user_says "hi"])) [].

Lemma body_reaches_conversation_witness :
  ∃ s', settle_sync nzero true (JObj []) 2 (Deps true true) edited_example = Some s' ∧ s_body s' = s_body edited_example ∧
        message_synced s' ∧ body_synced s' ∧
        map role_content (s_messages s') =
        map read_back [JObj [(js "role", JStr (js "system")); (js "content", JStr (js "be brief"))]; JObj [(js "content", JStr (js "go"))]].
Proof.
  eapply (body_reaches_conversation nzero (JObj []) (Deps true true) edited_example).
  - vm_compute. reflexivity.
  - reflexivity.
  - vm_compute. discriminate.
  - vm_compute. reflexivity.
  - vm_compute. reflexivity.
  - apply Forall_cons. split; [reflexivity|]. apply Forall_cons. split; [reflexivity|]. apply Forall_nil. exact I.
Defined.

(** ** The shape of the settings *)

(** An object with each key once, among them those of the defaults. *)
Definition shaped (v : jval) (defaults : list (jsstr * jval)) : Prop :=
  ∃ o, v = JObj o ∧ NoDup (map fst o) ∧ ∀ k, k ∈ map fst defaults → k ∈ map fst o.
Definition settings_shaped (c : playground_config) : Prop :=
  shaped (c_inputs c) DEFAULT_INPUTS ∧ shaped (c_parameterEnabled c) DEFAULT_PARAMETERS.

Lemma shaped_set o ds k v : shaped (JObj o) ds → shaped (JObj (obj_set o k v)) ds.
Proof.
  intros (o' & [= <-] & Hn & Hk). eexists. split; [reflexivity|]. split; [by apply obj_set_keys|].
  intros k' H%Hk. apply obj_set_keys_In. by right.
Qed.

Lemma shaped_spread o ds v : shaped (JObj o) ds → shaped (JObj (spread o v)) ds.
Proof. unfold spread. generalize (entries v). intros l. revert o. induction l; intros o Ho; cbn [fold_left]; auto using shaped_set. Qed.

Lemma shaped_copy v ds : shaped v ds → shaped (JObj (spread [] v)) ds.
Proof.
  intros (o & -> & Hn & Hk).
  assert (H : shaped (JObj (spread [] (JObj o))) []).
  { apply shaped_spread. exists []. split_and!; [done|constructor|done]. }
  destruct H as (o' & [= <-] & Hn' & _). eexists. split; [reflexivity|]. split; [done|].
  intros k H%Hk. apply obj_has_In. rewrite spread_has. apply orb_true_iff. left. by apply obj_has_In.
Qed.

Lemma DEFAULT_INPUTS_shaped : shaped (JObj DEFAULT_INPUTS) DEFAULT_INPUTS.
Proof. exists DEFAULT_INPUTS. split_and!; [done|by apply (bool_decide_eq_true_1 _); vm_compute|done]. Qed.
Lemma DEFAULT_PARAMETERS_shaped : shaped (JObj DEFAULT_PARAMETERS) DEFAULT_PARAMETERS.
Proof. exists DEFAULT_PARAMETERS. split_and!; [done|by apply (bool_decide_eq_true_1 _); vm_compute|done]. Qed.

#[local] Hint Resolve shaped_set shaped_spread shaped_copy DEFAULT_INPUTS_shaped DEFAULT_PARAMETERS_shaped : core.

Lemma loadConfig_shaped s : settings_shaped (loadConfig s).
Proof.
  unfold loadConfig, settings_shaped. destruct (stored_json (CONFIG s)) as [v|]; [destruct (is_nullish v)|]; cbn [merged_config DEFAULT_CONFIG c_inputs c_parameterEnabled]; auto.
Qed.

(** ** The page's life *)

Section Page.
Context (iso : jsstr) (t : jsstr → jsstr).

(** What the page does to its state and to the storage, in any order.  Setters
    of the other settings and all work on messages are [Touch]; other tabs may
    write anything to the storage between two openings. *)
Inductive page_step : page * storage → page * storage → Prop :=
| Open p s s0 p' s' : open_page iso t s0 = Some (p', s') → page_step (p, s) (p', s')
| InputChange name v p s : page_step (p, s) (Page (handleInputChange name v (settings p)) (messages p), s)
| ParameterToggle name p s : page_step (p, s) (Page (handleParameterToggle name (settings p)) (messages p), s)
| Touch dbg mode body ms p s :
    page_step (p, s) (Page (Config (c_inputs (settings p)) (c_parameterEnabled (settings p)) dbg mode body) ms, s)
| Import file v p s s' : importConfig iso file s = (Some v, s') → page_step (p, s) (handleConfigImport v p, s')
| Rejected file p s s' : importConfig iso file s = (None, s') → page_step (p, s) (p, s')
| ConfigReset b p s : page_step (p, s) (handleConfigReset t b p, s)
| SaveConfig p s : page_step (p, s) (p, saveConfig iso (settings p) s)
| SaveMessages p s : page_step (p, s) (p, saveMessages iso (JArr (messages p)) s).

Lemma open_page_shaped s p s' : open_page iso t s = Some (p, s') → settings_shaped (settings p).
Proof.
  unfold open_page. destruct (initialMessages s) as [[v s1]|]; [|done]. cbn [mbind option_bind].
  destruct (match v with JArr l => Some l | _ => _ end) as [ms|]; [|done]. cbn [mbind option_bind].
  destruct (loadConfig_shaped s) as [(i & Hi & H1) (pe & Hpe & H2)].
  unfold repair_last. rewrite Hi, Hpe. cbn [messages settings].
  assert (∀ a b c ms', settings_shaped (settings (Page (Config (JObj i) (JObj pe) a b c) ms'))).
  { intros. split; [by exists i|by exists pe]. }
  destruct (last ms) as [m|]; [destruct (is_nullish m); [done|]; destruct (waiting m)|]; intros [= <- <-]; auto.
Qed.

Lemma import_shaped v p : settings_shaped (settings p) → settings_shaped (settings (handleConfigImport v p)).
Proof.
  intros [H1 H2]. unfold handleConfigImport, settings_shaped. cbn [settings c_inputs c_parameterEnabled].
  destruct (truthy (read v (js "inputs"))), (truthy (read v (js "parameterEnabled"))); auto 10.
Qed.

Lemma step_shaped a b : page_step a b → settings_shaped (settings a.1) → settings_shaped (settings b.1).
Proof.
  destruct 1; cbn [fst settings]; intros [H1 H2]; try done.
  - by eapply open_page_shaped.
  - split; cbn [handleInputChange c_inputs c_parameterEnabled]; auto.
  - split; cbn [handleParameterToggle c_inputs c_parameterEnabled]; auto.
  - by apply import_shaped.
Qed.

(** C39. Whatever the storage holds and whatever files are imported, the
    page's inputs and parameter switches are objects with every key of the
    defaults, each once: opening the page establishes this and every operation
    on the settings, in any order, keeps it. *)
Theorem settings_keep_shape s0 p0 s p s' : open_page iso t s0 = Some (p0, s) →
  rtc page_step (p0, s) (p, s') → settings_shaped (settings p).
Proof.
  intros H0%open_page_shaped Hr. remember (p0, s) as a eqn:Ea. remember (p, s') as b eqn:Eb.
  assert (Ha : settings_shaped (settings a.1)) by by subst. clear Ea H0.
  assert (settings_shaped (settings b.1)) by (induction Hr; eauto using step_shaped). by subst.
Qed.
End Page.

Lemma settings_keep_shape_witness :
  let p0 := Page DEFAULT_CONFIG (getDefaultMessages (λ x, x)) in
  settings_shaped (settings (Page (handleParameterToggle (js "seed") (settings p0)) (messages p0))).
Proof.
  intros p0. apply (settings_keep_shape [] (λ x, x) (Storage None None) p0 (Storage None None) _ (Storage None None)).
  - vm_compute. reflexivity.
  - eapply rtc_l; [apply ParameterToggle|apply rtc_refl].
Defined.

(** ** What is saved is what is loaded *)

(** The same values under the keys of the inputs and switches, and the same rest. *)
Definition same_settings (a b : playground_config) : Prop :=
  (∀ k, read (c_inputs a) k = read (c_inputs b) k) ∧ (∀ k, read (c_parameterEnabled a) k = read (c_parameterEnabled b) k) ∧
  c_showDebugPanel a = c_showDebugPanel b ∧ c_customRequestMode a = c_customRequestMode b ∧
  c_customRequestBody a = c_customRequestBody b.

Section Saved.
Context (iso : jsstr) (t : jsstr → jsstr).
Context (i pe : list (jsstr * jval)) (dbg mode : bool) (body : jsstr).
Let c : playground_config := Config (JObj i) (JObj pe) (JBool dbg) (JBool mode) (JStr body).

(** Settings of the page as its controls leave them: values fit for JSON, and a
    [max_tokens] that [parseInt] does not change. *)
Definition saveable : Prop :=
  settings_shaped c ∧ json_ok (JObj i) = true ∧ json_ok (JObj pe) = true ∧ forallb unit_ok body = true ∧
  max_tokens_of (obj_get i (js "max_tokens")) = obj_get i (js "max_tokens").

Lemma read_inputs rest : read (JObj (config_entries c ++ rest)) (js "inputs") = JObj i.
Proof. reflexivity. Qed.
Lemma read_parameterEnabled rest : read (JObj (config_entries c ++ rest)) (js "parameterEnabled") = JObj pe.
Proof. reflexivity. Qed.
Lemma read_showDebugPanel rest : read (JObj (config_entries c ++ rest)) (js "showDebugPanel") = JBool dbg.
Proof. reflexivity. Qed.
Lemma read_customRequestMode rest : read (JObj (config_entries c ++ rest)) (js "customRequestMode") = JBool mode.
Proof. reflexivity. Qed.
Lemma read_customRequestBody rest : read (JObj (config_entries c ++ rest)) (js "customRequestBody") = JStr body.
Proof. reflexivity. Qed.

Lemma spread_over ds o k : shaped (JObj o) ds → obj_get (spread ds (JObj o)) k = obj_get o k.
Proof.
  intros (o' & [= <-] & Hn & Hk). rewrite spread_get by done. destruct (obj_has o k) eqn:E; [done|].
  assert (Hni : k ∉ map fst o) by (intros H%obj_has_In; congruence).
  rewrite !obj_get_absent; auto.
Qed.

Lemma merged_same v : saveable → read v (js "inputs") = JObj i → read v (js "parameterEnabled") = JObj pe →
  read v (js "showDebugPanel") = JBool dbg → read v (js "customRequestMode") = JBool mode →
  read v (js "customRequestBody") = JStr body → same_settings (merged_config v) c.
Proof.
  intros ((Hi & Hpe) & _ & _ & _ & Hm) E1 E2 E3 E4 E5. unfold merged_config. rewrite E1, E2, E3, E4, E5.
  unfold opt_read. cbn [is_nullish read]. rewrite Hm.
  split_and!; cbn [c c_inputs c_parameterEnabled c_showDebugPanel c_customRequestMode c_customRequestBody read].
  - intros k. rewrite obj_get_set, spread_over by done. destruct (streq _ k) eqn:E; [|done]. by apply streq_true in E as <-.
  - intros k. by apply spread_over.
  - by destruct dbg.
  - by destruct mode.
  - by destruct body.
Qed.

Lemma saved_text gap rest : forallb json_ws gap = true → saveable → fields_ok (map fst (config_entries c ++ rest)) = true →
  Forall (λ v, json_ok v = true) (map snd rest) →
  ∃ text, stringify_at gap [] (JObj (config_entries c ++ rest)) = Some text ∧ parse text = Some (JObj (config_entries c ++ rest)).
Proof.
  intros Hg (_ & Hi & Hpe & Hb & _) Hk Hr. apply parse_stringify_at; [done|]. apply json_ok_fields; [done|].
  rewrite map_app. apply Forall_app. split; [|done]. repeat (apply Forall_cons; split; [done|]). by apply Forall_nil.
Qed.

Lemma parse_stored text v : parse text = Some v → stored_json (Some text) = Some v.
Proof. destruct text; [done|]. done. Qed.

Lemma load_saved s : saveable → forallb unit_ok iso = true → same_settings (loadConfig (saveConfig iso c s)) c.
Proof.
  intros Hs Hu. destruct (saved_text [] [(js "timestamp", JStr iso)]) as (text & Ht & Hp); [done|done|vm_compute; reflexivity| |].
  { apply Forall_cons. split; [done|by apply Forall_nil]. }
  unfold loadConfig, saveConfig. cbn [CONFIG]. unfold stringify. rewrite Ht, (parse_stored _ _ Hp). cbn [is_nullish].
  by apply merged_same.
Qed.

Lemma load_saved_messages ms s : json_ok (JArr ms) = true → forallb unit_ok iso = true →
  loadMessages (saveMessages iso (JArr ms) s) = JArr ms.
Proof.
  intros Hm Hu. unfold loadMessages, saveMessages. cbn [MESSAGES].
  destruct (parse_stringify (JObj [(js "messages", JArr ms); (js "timestamp", JStr iso)])) as (text & -> & Hp).
  { apply json_ok_fields; [vm_compute; reflexivity|]. repeat (apply Forall_cons; split; [done|]). by apply Forall_nil. }
  by rewrite (parse_stored _ _ Hp).
Qed.

Lemma load_beside_messages v s : loadConfig (saveMessages iso v s) = loadConfig s.
Proof. done. Qed.

(** The conversation after the first render. *)
Definition shown (ms : list jval) : list jval :=
  match last ms with
  | Some m => if waiting m then removelast ms ++ [repaired m] else ms
  | None => ms
  end.

Lemma open_page_restores s ms : same_settings (loadConfig s) c → loadMessages s = JArr ms → old_examples (JArr ms) = Some false →
  Forall (λ m, is_nullish m = false) ms →
  ∃ p s', open_page iso t s = Some (p, s') ∧ same_settings (settings p) c ∧ messages p = shown ms.
Proof.
  intros (H1 & H2 & H3 & H4 & H5) Hm Ho Hall. unfold open_page, initialMessages. rewrite Hm, Ho. cbn [mbind option_bind].
  destruct (loadConfig_shaped s) as [(i' & Ei & _) (pe' & Ep & _)]. rewrite Ei, Ep, H3, H4, H5. rewrite Ei in H1. rewrite Ep in H2.
  unfold repair_last, shown. cbn [messages settings].
  assert (Hs : ∀ ms', same_settings (settings (Page (Config (js_or (JObj i') (JObj DEFAULT_INPUTS)) (js_or (JObj pe') (JObj DEFAULT_PARAMETERS))
    (js_or (JBool dbg) (JBool false)) (js_or (JBool mode) (JBool false)) (js_or (JStr body) (JStr []))) ms')) c).
  { intros ms'. split_and!; [done|done|by destruct dbg|by destruct mode|by destruct body]. }
  destruct (last ms) as [m|] eqn:El; [|by eexists _, s].
  rewrite (proj1 (Forall_forall _ _) Hall m); [|by apply last_Some_elem_of].
  destruct (waiting m); by eexists _, _.
Qed.
End Saved.

(** What the page saved is what it shows after a reload: the settings
    under every key, and the conversation, in which only a last message that was
    still being written is completed. *)
Theorem reload_restores iso t i pe dbg mode body ms s :
  forallb unit_ok iso = true → saveable i pe dbg mode body →
  json_ok (JArr ms) = true → Forall (λ m, is_nullish m = false) ms → old_examples (JArr ms) = Some false →
  let c := Config (JObj i) (JObj pe) (JBool dbg) (JBool mode) (JStr body) in
  ∃ p s', open_page iso t (saveMessages iso (JArr ms) (saveConfig iso c s)) = Some (p, s') ∧
          same_settings (settings p) c ∧ messages p = shown ms.
Proof.
  intros Hu Hs Hm Hn Ho c. apply open_page_restores; [|by apply load_saved_messages|done|done].
  rewrite load_beside_messages. by apply (load_saved iso).
Qed.

Lemma default_saveable : saveable DEFAULT_INPUTS DEFAULT_PARAMETERS false false [].
Proof. split_and!; [apply (loadConfig_shaped (Storage None None))|vm_compute; reflexivity..]. Qed.

Lemma reload_restores_witness :
  let c := DEFAULT_CONFIG in
  ∃ p s', open_page (js "2025") (λ x, x) (saveMessages (js "2025") (JArr [user_says "hi"]) (saveConfig (js "2025") c (Storage None None)))
            = Some (p, s') ∧ same_settings (settings p) c ∧ messages p = shown [user_says "hi"].
Proof.
  intros c. apply (reload_restores (js "2025") (λ x, x) DEFAULT_INPUTS DEFAULT_PARAMETERS false false [] [user_says "hi"]).
  - vm_compute. reflexivity.
  - apply default_saveable.
  - vm_compute. reflexivity.
  - apply Forall_cons. split; [reflexivity|]. apply Forall_nil. exact I.
  - reflexivity.
Defined.

(** ** Export and import *)

Lemma spread_copy ip o k : NoDup (map fst ip) → NoDup (map fst o) →
  obj_get (spread (spread [] (JObj ip)) (JObj o)) k = if obj_has o k then obj_get o k else obj_get ip k.
Proof.
  intros Hp Ho. rewrite !spread_get by done. destruct (obj_has o k); [done|]. destruct (obj_has ip k) eqn:E; [done|].
  symmetry. apply obj_get_absent. intros H%obj_has_In. congruence.
Qed.

Lemma spread_copy_shaped v o ds k : shaped v ds → shaped (JObj o) ds → k ∈ map fst o →
  obj_get (spread (spread [] v) (JObj o)) k = obj_get o k.
Proof.
  intros (ip & -> & Hp & _) (o' & [= <-] & Ho & _) Hk%obj_has_In. rewrite spread_copy by done. by rewrite Hk.
Qed.

(** The exported file, and what [importConfig] makes of it. *)
Lemma import_export iso i pe dbg mode body ms s :
  forallb unit_ok iso = true → saveable i pe dbg mode body → json_ok (JArr ms) = true →
  let c := Config (JObj i) (JObj pe) (JBool dbg) (JBool mode) (JStr body) in
  let v := JObj (config_entries c ++ [(js "messages", JArr ms); (js "exportTime", JStr iso); (js "version", JStr (js "1.0"))]) in
  ∃ file, exportConfig iso c (JArr ms) s = Some file ∧ importConfig iso file s = (Some v, saveMessages iso (JArr ms) s).
Proof.
  intros Hu Hs Hm c v.
  destruct (saved_text i pe dbg mode body (js "  ") [(js "messages", JArr ms); (js "exportTime", JStr iso); (js "version", JStr (js "1.0"))])
    as (file & Hf & Hp); [reflexivity|done|vm_compute; reflexivity| |].
  { repeat (apply Forall_cons; split; [done|]). by apply Forall_nil. }
  exists file. split; [exact Hf|]. unfold importConfig. rewrite Hp. reflexivity.
Qed.

(** Importing an exported file into any page brings back the exported
    inputs, switches and messages and the debug panel; custom mode and custom
    body come back only if they were set: an import never turns custom mode off
    nor empties the body, and the messages are in the storage before the page
    asks whether to import. *)
Theorem import_restores iso i pe dbg mode body ms s p :
  forallb unit_ok iso = true → saveable i pe dbg mode body → json_ok (JArr ms) = true → settings_shaped (settings p) →
  let c := Config (JObj i) (JObj pe) (JBool dbg) (JBool mode) (JStr body) in
  ∃ file v s', exportConfig iso c (JArr ms) s = Some file ∧ importConfig iso file s = (Some v, s') ∧
    loadMessages s' = JArr ms ∧
    let p' := handleConfigImport v p in
    messages p' = ms ∧
    (∀ k, k ∈ map fst i → read (c_inputs (settings p')) k = obj_get i k) ∧
    (∀ k, k ∈ map fst pe → read (c_parameterEnabled (settings p')) k = obj_get pe k) ∧
    c_showDebugPanel (settings p') = JBool dbg ∧
    c_customRequestMode (settings p') = (if mode then JBool true else c_customRequestMode (settings p)) ∧
    c_customRequestBody (settings p') = (if is_empty body then c_customRequestBody (settings p) else JStr body).
Proof.
  intros Hu Hs Hm [Hi Hpe] c. destruct (import_export iso i pe dbg mode body ms s Hu Hs Hm) as (file & He & Hf).
  eexists file, _, _. split; [exact He|]. split; [exact Hf|]. split; [by apply load_saved_messages|].
  destruct Hs as ((Si & Spe) & _ & _ & _ & Hmt). fold c in Si, Spe |- *.
  unfold handleConfigImport.
  rewrite (read_inputs i pe dbg mode body), (read_parameterEnabled i pe dbg mode body), (read_showDebugPanel i pe dbg mode body),
    (read_customRequestMode i pe dbg mode body), (read_customRequestBody i pe dbg mode body).
  cbn [truthy is_bool settings messages c_inputs c_parameterEnabled c_showDebugPanel c_customRequestMode c_customRequestBody].
  split_and!.
  - reflexivity.
  - intros k Hk. cbn [read]. rewrite Hmt, obj_get_set. destruct (streq _ k) eqn:E; [by apply streq_true in E as <-|].
    by eapply spread_copy_shaped.
  - intros k Hk. cbn [read]. by eapply spread_copy_shaped.
  - reflexivity.
  - by destruct mode.
  - by destruct body.
Qed.

Lemma import_restores_witness :
  let c := DEFAULT_CONFIG in
  let p := Page (Config (JObj DEFAULT_INPUTS) (JObj DEFAULT_PARAMETERS) (JBool true) (JBool true) (JStr (js "{}"))) [] in
  ∃ file v s', exportConfig (js "2025") c (JArr [user_says "hi"]) (Storage None None) = Some file ∧
    importConfig (js "2025") file (Storage None None) = (Some v, s') ∧ loadMessages s' = JArr [user_says "hi"] ∧
    let p' := handleConfigImport v p in
    messages p' = [user_says "hi"] ∧
    (∀ k, k ∈ map fst DEFAULT_INPUTS → read (c_inputs (settings p')) k = obj_get DEFAULT_INPUTS k) ∧
    (∀ k, k ∈ map fst DEFAULT_PARAMETERS → read (c_parameterEnabled (settings p')) k = obj_get DEFAULT_PARAMETERS k) ∧
    c_showDebugPanel (settings p') = JBool false ∧
    c_customRequestMode (settings p') = JBool true ∧ c_customRequestBody (settings p') = JStr (js "{}").
Proof.
  intros c p. apply (import_restores (js "2025") DEFAULT_INPUTS DEFAULT_PARAMETERS false false [] [user_says "hi"] (Storage None None) p).
  - vm_compute. reflexivity.
  - apply default_saveable.
  - vm_compute. reflexivity.
  - apply (loadConfig_shaped (Storage None None)).
Defined.
