(* ===== verification/PricingPage.v ===== *)
(** * The page of models and prices

    [web/src/hooks/model-pricing/useModelPricingData.jsx] (loading, filters,
    prices), [usePricingFilterCounts.js] (the models behind each filter), the
    filter lists of [web/src/components/table/model-pricing/filter/] and the
    price functions of [web/src/helpers/utils.jsx].

    Texts the server leaves out are empty here, which every use treats alike.
    [lower] is [toLowerCase], [localeCompare] the browser's collation, [getItem]
    the local storage, [t] the translation function. *)

From S2P Require Import Prelude JsString JsRegex JsNumber Json JsObject Render TieredPricing TieredPricingTheorems TierLog.

(** ** Models *)

Record vendor := Vendor { vendor_key : Z; v_name : jsstr; v_icon : jsstr; v_description : jsstr }.

Record pmodel := PModel {
  model_name : jsstr; description : jsstr; tags : jsstr; vendor_id : Z;
  vendor_name : jsstr; vendor_icon : jsstr; vendor_description : jsstr; group_ratio : option num;
  quota_type : Z; enable_groups : list jsstr; supported_endpoint_types : option (list jsstr);
  billing_mode : jsstr; billing_expr : jsstr;
  model_ratio : num; model_price : jval; completion_ratio : jval; cache_ratio : jval; create_cache_ratio : jval;
  image_ratio : jval; audio_ratio : jval; audio_completion_ratio : jval }.

Section Load.
Context (localeCompare : jsstr → jsstr → Z).

(** [vendorMap[v.id] = v] for every vendor *)
Definition vendor_map (vendors : list vendor) : list (Z * vendor) :=
  fold_left (λ vendorMap v, assoc_set vendorMap (vendor_key v) v) vendors [].

Definition format_model (groupRatio : list (jsstr * num)) (vendorMap : list (Z * vendor)) (m : pmodel) : pmodel :=
  let found := if (vendor_id m =? 0)%Z then None else assoc_get vendorMap (vendor_id m) in
  PModel (model_name m) (description m) (tags m) (vendor_id m)
    (match found with Some v => v_name v | None => vendor_name m end)
    (match found with Some v => v_icon v | None => vendor_icon m end)
    (match found with Some v => v_description v | None => vendor_description m end)
    (assoc_get groupRatio (model_name m)) (quota_type m) (enable_groups m) (supported_endpoint_types m)
    (billing_mode m) (billing_expr m) (model_ratio m) (model_price m) (completion_ratio m) (cache_ratio m)
    (create_cache_ratio m) (image_ratio m) (audio_ratio m) (audio_completion_ratio m).

Definition by_name (a b : pmodel) : Z :=
  let gpt m := starts_with (js "gpt") (model_name m) in
  if gpt a && negb (gpt b) then (-1)%Z
  else if negb (gpt a) && gpt b then 1%Z
  else localeCompare (model_name a) (model_name b).

Definition setModelsFormat (models : list pmodel) (groupRatio : list (jsstr * num)) (vendorMap : list (Z * vendor)) : list pmodel :=
  sort by_name (sort (λ a b, quota_type a - quota_type b)%Z (map (format_model groupRatio vendorMap) models)).
End Load.

(** ** The state of the page *)

(** [None] of [filterQuotaType] is [all]. *)
Record pricing_view := View {
  searchValue : jsstr; selectedGroup : jsstr; filterGroup : jsstr; filterQuotaType : option Z; filterEndpointType : jsstr;
  filterVendor : jsstr; filterTag : jsstr; currentPage : Z; currency : jsstr; showWithRecharge : bool; tokenUnit : jsstr;
  showRatio : bool; viewMode : jsstr }.

Definition ALL : jsstr := js "all".
Definition initial_view : pricing_view :=
  View [] ALL ALL None ALL ALL ALL 1 (js "USD") false (js "M") false (js "card").

(** [resetPricingFilters] with the setters of the page; [DEFAULT_PRICING_FILTERS]. *)
Definition resetPricingFilters (v : pricing_view) : pricing_view :=
  View [] (selectedGroup v) ALL None ALL ALL ALL 1 (js "USD") false (js "M") false (js "card").

(** The group list of the sidebar, and that of the filter dialog of small screens. *)
Definition handleGroupClick (g : jsstr) (v : pricing_view) : pricing_view :=
  View (searchValue v) g g (filterQuotaType v) (filterEndpointType v) (filterVendor v) (filterTag v) (currentPage v)
    (currency v) (showWithRecharge v) (tokenUnit v) (showRatio v) (viewMode v).
Definition setFilterGroup (g : jsstr) (v : pricing_view) : pricing_view :=
  View (searchValue v) (selectedGroup v) g (filterQuotaType v) (filterEndpointType v) (filterVendor v) (filterTag v) (currentPage v)
    (currency v) (showWithRecharge v) (tokenUnit v) (showRatio v) (viewMode v).
Definition handleChange (s : jsstr) (v : pricing_view) : pricing_view :=
  View s (selectedGroup v) (filterGroup v) (filterQuotaType v) (filterEndpointType v) (filterVendor v) (filterTag v) (currentPage v)
    (currency v) (showWithRecharge v) (tokenUnit v) (showRatio v) (viewMode v).
Definition setFilterQuotaType (q : option Z) (v : pricing_view) : pricing_view :=
  View (searchValue v) (selectedGroup v) (filterGroup v) q (filterEndpointType v) (filterVendor v) (filterTag v) (currentPage v)
    (currency v) (showWithRecharge v) (tokenUnit v) (showRatio v) (viewMode v).
Definition setFilterEndpointType (e : jsstr) (v : pricing_view) : pricing_view :=
  View (searchValue v) (selectedGroup v) (filterGroup v) (filterQuotaType v) e (filterVendor v) (filterTag v) (currentPage v)
    (currency v) (showWithRecharge v) (tokenUnit v) (showRatio v) (viewMode v).
Definition setFilterVendor (x : jsstr) (v : pricing_view) : pricing_view :=
  View (searchValue v) (selectedGroup v) (filterGroup v) (filterQuotaType v) (filterEndpointType v) x (filterTag v) (currentPage v)
    (currency v) (showWithRecharge v) (tokenUnit v) (showRatio v) (viewMode v).
Definition setFilterTag (x : jsstr) (v : pricing_view) : pricing_view :=
  View (searchValue v) (selectedGroup v) (filterGroup v) (filterQuotaType v) (filterEndpointType v) (filterVendor v) x (currentPage v)
    (currency v) (showWithRecharge v) (tokenUnit v) (showRatio v) (viewMode v).
Definition setCurrentPage (n : Z) (v : pricing_view) : pricing_view :=
  View (searchValue v) (selectedGroup v) (filterGroup v) (filterQuotaType v) (filterEndpointType v) (filterVendor v) (filterTag v) n
    (currency v) (showWithRecharge v) (tokenUnit v) (showRatio v) (viewMode v).
Definition set_display (c : jsstr) (recharge : bool) (v : pricing_view) : pricing_view :=
  View (searchValue v) (selectedGroup v) (filterGroup v) (filterQuotaType v) (filterEndpointType v) (filterVendor v) (filterTag v)
    (currentPage v) c recharge (tokenUnit v) (showRatio v) (viewMode v).

(** What the effect that goes back to the first page watches. *)
Definition filter_key (v : pricing_view) : jsstr * option Z * jsstr * jsstr * jsstr * jsstr :=
  (filterGroup v, filterQuotaType v, filterEndpointType v, filterVendor v, filterTag v, searchValue v).

(** An operation and the effect of the render after it. *)
Definition after_render (op : pricing_view → pricing_view) (v : pricing_view) : pricing_view :=
  let v' := op v in if bool_decide (filter_key v' = filter_key v) then v' else setCurrentPage 1 v'.

(** The two effects on the display type of the site. *)
Definition siteDisplayType (status : jval) : jval := js_or (prop status (js "quota_display_type")) (JStr (js "USD")).
Definition sync_currency (status : jval) (v : pricing_view) : pricing_view :=
  match siteDisplayType status with
  | JStr s => if streq s (js "USD") || streq s (js "CNY") || streq s (js "CUSTOM") then set_display s (showWithRecharge v) v
              else if streq s (js "TOKENS") then set_display (js "USD") false v else v
  | _ => v
  end.

(** ** Filters *)

Section Filters.
Context (lower : jsstr → jsstr) (localeCompare : jsstr → jsstr → Z).

(** [/[,;|]+/] *)
Definition tag_separator : regex := RPlus (RSet (unit_in (js ",;|"))).

Definition normalizeTags (tags : jsstr) : list jsstr := filter_truthy (map trim (re_split tag_separator (lower tags))).

Definition is_member (x : jsstr) (l : list jsstr) : bool := bool_decide (x ∈ l).
Definition supports (m : pmodel) (e : jsstr) : bool :=
  match supported_endpoint_types m with Some l => is_member e l | None => false end.
Definition from_vendor (m : pmodel) (x : jsstr) : bool :=
  if streq x (js "unknown") then is_empty (vendor_name m) else streq (vendor_name m) x.
(** [text && text.toLowerCase().includes(term)] *)
Definition mentions (term text : jsstr) : bool := negb (is_empty text) && includes term (lower text).

(** The models the page shows. *)
Definition filteredModels (v : pricing_view) (models : list pmodel) : list pmodel :=
  let result := models in
  let result := if streq (filterGroup v) ALL then result else List.filter (λ m, is_member (filterGroup v) (enable_groups m)) result in
  let result := match filterQuotaType v with None => result | Some q => List.filter (λ m, quota_type m =? q)%Z result end in
  let result := if streq (filterEndpointType v) ALL then result else List.filter (λ m, supports m (filterEndpointType v)) result in
  let result := if streq (filterVendor v) ALL then result else List.filter (λ m, from_vendor m (filterVendor v)) result in
  let result := if streq (filterTag v) ALL then result
                else List.filter (λ m, negb (is_empty (tags m)) && is_member (lower (filterTag v)) (normalizeTags (tags m))) result in
  if Nat.ltb 0 (length (searchValue v)) then
    let searchTerm := lower (searchValue v) in
    List.filter (λ m, mentions searchTerm (model_name m) || mentions searchTerm (description m)
                      || mentions searchTerm (tags m) || mentions searchTerm (vendor_name m)) result
  else result.

(** The filters [usePricingFilterCounts] can leave out. *)
Inductive dimension := DGroup | DQuota | DEndpoint | DVendor | DTag | DSearch.
#[export] Instance dimension_eq_dec : EqDecision dimension.
Proof. solve_decision. Defined.

Definition matchesFilters (v : pricing_view) (ignore : list dimension) (m : pmodel) : bool :=
  let used d := negb (bool_decide (d ∈ ignore)) in
  if used DGroup && negb (streq (filterGroup v) ALL) && negb (is_member (filterGroup v) (enable_groups m)) then false
  else if used DQuota && match filterQuotaType v with None => false | Some q => negb (quota_type m =? q)%Z end then false
  else if used DEndpoint && negb (streq (filterEndpointType v) ALL) && negb (supports m (filterEndpointType v)) then false
  else if used DVendor && negb (streq (filterVendor v) ALL) && negb (from_vendor m (filterVendor v)) then false
  else if used DTag && negb (streq (filterTag v) ALL) && negb (is_member (lower (filterTag v)) (normalizeTags (tags m))) then false
  else if used DSearch && negb (is_empty (searchValue v)) &&
          negb (let term := lower (searchValue v) in
                includes term (lower (model_name m)) || mentions term (description m)
                || includes term (if is_empty (tags m) then [] else lower (tags m)) || mentions term (vendor_name m)) then false
  else true.

Definition models_without (d : dimension) (v : pricing_view) (models : list pmodel) : list pmodel :=
  List.filter (matchesFilters v [d]) models.
Definition quotaTypeModels := models_without DQuota.
Definition endpointTypeModels := models_without DEndpoint.
Definition vendorModels := models_without DVendor.
Definition tagModels := models_without DTag.
Definition groupCountModels := models_without DGroup.

(** *** The lists of options, each with its count *)

(** [(allModels.length > 0 ? allModels : models)] *)
Definition all_or (allModels models : list pmodel) : list pmodel := match allModels with [] => models | _ => allModels end.

Definition getAllEndpointTypes (allModels models : list pmodel) : list jsstr :=
  sort unit_order (uniq (flat_map (λ m, default [] (supported_endpoint_types m)) (all_or allModels models))).
Definition getEndpointTypeCount (models : list pmodel) (e : jsstr) : nat :=
  if streq e ALL then length models else length (List.filter (λ m, supports m e) models).
Definition endpoint_items (allModels models : list pmodel) : list (jsstr * nat) :=
  map (λ e, (e, getEndpointTypeCount models e)) (ALL :: getAllEndpointTypes allModels models).

Definition getAllVendors (allModels models : list pmodel) : list jsstr :=
  sort unit_order (uniq (filter_truthy (map vendor_name (all_or allModels models)))).
Definition hasUnknownVendor (allModels models : list pmodel) : bool :=
  existsb (λ m, is_empty (vendor_name m)) (all_or allModels models).
Definition getVendorCount (models : list pmodel) (x : jsstr) : nat :=
  if streq x ALL then length models
  else if streq x (js "unknown") then length (List.filter (λ m, is_empty (vendor_name m)) models)
  else length (List.filter (λ m, streq (vendor_name m) x) models).
Definition vendor_items (allModels models : list pmodel) : list (jsstr * nat) :=
  map (λ x, (x, getVendorCount models x))
    (ALL :: getAllVendors allModels models ++ (if hasUnknownVendor allModels models then [js "unknown"] else [])).

Definition getAllTags (allModels models : list pmodel) : list jsstr :=
  sort localeCompare (uniq (flat_map (λ m,
    map lower (filter_truthy (map trim (re_split tag_separator (tags m))))) (List.filter (λ m, negb (is_empty (tags m))) (all_or allModels models)))).
Definition getTagCount (models : list pmodel) (tag : jsstr) : nat :=
  if streq tag ALL then length models
  else length (List.filter (λ m, negb (is_empty (tags m)) && is_member (lower tag) (map trim (re_split tag_separator (lower (tags m))))) models).
Definition tag_items (allModels models : list pmodel) : list (jsstr * nat) :=
  map (λ x, (x, getTagCount models x)) (ALL :: getAllTags allModels models).

Definition qtyCount (models : list pmodel) (type : option Z) : nat :=
  length (List.filter (λ m, match type with None => true | Some q => (quota_type m =? q)%Z end) models).
Definition quota_items (models : list pmodel) : list (option Z * nat) :=
  map (λ q, (q, qtyCount models q)) [None; Some 0%Z; Some 1%Z].

(** The group list shows ratios instead of counts. *)
Definition group_items (usableGroup : list jsstr) (groupRatio : list (jsstr * num)) : list (jsstr * jsstr) :=
  map (λ g, (g, if streq g ALL then []
                else match assoc_get groupRatio g with Some r => String_of_num r | None => js "1" end ++ js "x"))
    (ALL :: List.filter (λ k, negb (is_empty k)) usableGroup).
End Filters.

(** ** Prices *)

Section Prices.
Context (getItem : jsstr → option jsstr) (t : jsstr → jsstr).

(** *** The text of an amount in dollars *)

Definition priceRate (status : jval) : num := Number_of (js_nullish (prop status (js "price")) (JNum (num_of_Z 1))).
Definition usdExchangeRate (status : jval) : num :=
  match prop status (js "usd_exchange_rate") with JUndef | JNull => priceRate status | v => Number_of v end.
Definition customExchangeRate (status : jval) : num :=
  Number_of (js_nullish (prop status (js "custom_currency_exchange_rate")) (JNum (num_of_Z 1))).
Definition customCurrencySymbol (status : jval) : jsstr :=
  String_of (js_nullish (prop status (js "custom_currency_symbol")) (JStr (js "¤"))).

(** The symbol and the amount in the chosen currency. *)
Definition display_amount (status : jval) (v : pricing_view) (usdPrice : num) : jsstr * num :=
  let priceInUSD := if showWithRecharge v then ndiv (nmul usdPrice (priceRate status)) (usdExchangeRate status) else usdPrice in
  if streq (currency v) (js "CNY") then (js "¥", nmul priceInUSD (usdExchangeRate status))
  else if streq (currency v) (js "CUSTOM") then (customCurrencySymbol status, nmul priceInUSD (customExchangeRate status))
  else (js "$", priceInUSD).
Definition displayPrice (status : jval) (v : pricing_view) (usdPrice : num) : jsstr :=
  let '(symbol, amount) := display_amount status v usdPrice in symbol ++ toFixed 3 amount.

(** *** The price of a model *)

(** One turn of the loop for the cheapest group: the best ratio so far, and the
    group and ratio in use. *)
Definition cheapest_step (groupRatio : list (jsstr * num)) (acc : num * jsstr * option num) (g : jsstr) : num * jsstr * option num :=
  let '(minRatio, usedGroup, usedGroupRatio) := acc in
  match assoc_get groupRatio g with
  | Some r => if nlt r minRatio then (r, g, Some r) else acc
  | None => acc
  end.

Definition used_group (groupRatio : list (jsstr * num)) (selected : jsstr) (record : pmodel) : jsstr * num :=
  match assoc_get groupRatio selected with
  | Some r => if streq selected ALL then
                let '(_, g, r') := fold_left (cheapest_step groupRatio) (enable_groups record) (S754_infinity false, selected, Some r) in
                (g, default (num_of_Z 1) r')
              else (selected, r)
  | None => let '(_, g, r') := fold_left (cheapest_step groupRatio) (enable_groups record) (S754_infinity false, selected, None) in
            (g, default (num_of_Z 1) r')
  end.

Definition hasRatioValue (value : jval) : bool :=
  negb (is_nullish value) && negb (match value with JStr s => is_empty s | _ => false end) && isFinite (Number_of value).
Definition formatRatio (value : jval) : option num :=
  if hasRatioValue value then Some (Number_of_string (toFixed 6 (Number_of value))) else None.

(** [symbol] of the chosen currency *)
Definition currency_symbol (currency : jsstr) : jsstr :=
  if streq currency (js "CNY") then js "¥"
  else if streq currency (js "CUSTOM") then String_of (status_or getItem "custom_currency_symbol" (JStr (js "¤")))
  else js "$".

(** [/[^0-9.]/g] *)
Definition not_numeral (c : N) : bool := negb (is_digit c || (c =? 46)%N).

Definition formatTokenPrice (display : num → jsstr) (symbol : jsstr) (unitDivisor : num) (precision : nat) (priceUSD : num) : jsstr :=
  let rawDisplayPrice := display priceUSD in
  let numericPrice := ndiv (parseFloat (re_replace_all (RSet not_numeral) [] rawDisplayPrice)) unitDivisor in
  symbol ++ toFixed precision numericPrice.

(** The five shapes of the result; every one carries the group and its ratio. *)
Inductive price_shape :=
  | Dynamic (billingExpr : jsstr)
  | TokenRatios (input completion cache createCache image audioInput audioOutput : option num)
  | TokenPrices (input completion : jsstr) (cache createCache image audioInput audioOutput : option jsstr) (unitLabel : jsstr)
  | PerCall (price : jsstr)
  | NoPrice.
Record price_data := PriceData { shape : price_shape; usedGroup : jsstr; usedGroupRatio : num }.

Definition calculateModelPrice (record : pmodel) (selected : jsstr) (groupRatio : list (jsstr * num)) (tokenUnit : jsstr)
    (display : num → jsstr) (currency : jsstr) (quotaDisplayType : jsstr) (precision : nat) : price_data :=
  let '(group, ratio) := used_group groupRatio selected record in
  let result s := PriceData s group ratio in
  if streq (billing_mode record) (js "tiered_expr") && negb (is_empty (billing_expr record)) then result (Dynamic (billing_expr record))
  else if (quota_type record =? 0)%Z then
    if streq quotaDisplayType (js "TOKENS") then
      result (TokenRatios (formatRatio (JNum (model_ratio record))) (formatRatio (completion_ratio record)) (formatRatio (cache_ratio record))
                (formatRatio (create_cache_ratio record)) (formatRatio (image_ratio record)) (formatRatio (audio_ratio record))
                (formatRatio (audio_completion_ratio record)))
    else
      let inputRatioPriceUSD := nmul (nmul (model_ratio record) (num_of_Z 2)) ratio in
      let isK := streq tokenUnit (js "K") in
      let price := formatTokenPrice display (currency_symbol currency) (num_of_Z (if isK then 1000 else 1)) precision in
      let scaled v := if hasRatioValue v then Some (price (nmul inputRatioPriceUSD (Number_of v))) else None in
      let audioInputPrice := scaled (audio_ratio record) in
      result (TokenPrices (price inputRatioPriceUSD) (price (nmul inputRatioPriceUSD (Number_of (completion_ratio record))))
                (scaled (cache_ratio record)) (scaled (create_cache_ratio record)) (scaled (image_ratio record)) audioInputPrice
                (match audioInputPrice with
                 | Some (_ :: _) =>
                   if hasRatioValue (audio_completion_ratio record) then
                     Some (price (nmul (nmul inputRatioPriceUSD (Number_of (audio_ratio record))) (Number_of (audio_completion_ratio record))))
                   else None
                 | _ => None
                 end) (if isK then js "K" else js "M"))
  else if (quota_type record =? 1)%Z then
    result (PerCall (display (nmul (parseFloat (String_of (model_price record))) ratio)))
  else result NoPrice.

(** *** The lines of a price *)

Record price_item := PriceItem { item_key : jsstr; item_label : jsstr; item_value : jsstr; item_suffix : jsstr }.

Definition opt_item (key label : string) (value : option jsstr) (suffix : jsstr) : list price_item :=
  match value with Some (c :: s) => [PriceItem (js key) (t (js label)) (c :: s) suffix] | _ => [] end.

(** Prices shown as ratios have none of the ratios. *)
Definition getModelPriceItems (d : price_data) (quotaDisplayType : jsstr) : list price_item :=
  match shape d with
  | Dynamic _ => [PriceItem (js "dynamic") (t (js "动态计费")) [] []]
  | TokenRatios i c r w g a b =>
    let item key label value := opt_item key label (String_of_num <$> value) (js "x") in
    item "input-ratio" "输入倍率" i ++ item "completion-ratio" "补全倍率" c ++ item "cache-ratio" "缓存读取倍率" r ++
    item "create-cache-ratio" "缓存创建倍率" w ++ item "image-ratio" "图片输入倍率" g ++
    item "audio-input-ratio" "音频输入倍率" a ++ item "audio-output-ratio" "音频补全倍率" b
  | TokenPrices i c r w g a b unitLabel =>
    let unitSuffix := js " / 1" ++ unitLabel ++ js " Tokens" in
    if streq quotaDisplayType (js "TOKENS") then [] else
    opt_item "input" "输入价格" (Some i) unitSuffix ++ opt_item "completion" "补全价格" (Some c) unitSuffix ++
    opt_item "cache" "缓存读取价格" r unitSuffix ++ opt_item "create-cache" "缓存创建价格" w unitSuffix ++
    opt_item "image" "图片输入价格" g unitSuffix ++ opt_item "audio-input" "音频输入价格" a unitSuffix ++
    opt_item "audio-output" "音频补全价格" b unitSuffix
  | PerCall price => opt_item "fixed" "模型价格" (Some price) (js " / " ++ t (js "次"))
  | NoPrice => opt_item "fixed" "模型价格" (Some (js "-")) (js " / " ++ t (js "次"))
  end.

(** *** The summary of a dynamic price *)

(** [JSON.parse(localStorage.getItem('status') || '{}')] *)
Definition status_or_empty : option jval :=
  match getItem (js "status") with Some (c :: s) => parse (c :: s) | _ => Some (JObj []) end.

(** The symbol and the rate; an unreadable status leaves the dollar. *)
Definition summary_currency : jsstr * num :=
  let quotaDisplayType := match getItem (js "quota_display_type") with Some (c :: s) => c :: s | _ => js "USD" end in
  match status_or_empty with
  | Some s =>
    if streq quotaDisplayType (js "CNY") then
      (js "¥", Number_of (js_or (read s (js "usd_exchange_rate")) (JNum (num_of_Z 7))))
    else if streq quotaDisplayType (js "CUSTOM") then
      (String_of (js_or (read s (js "custom_currency_symbol")) (JStr (js "¤"))),
       Number_of (js_or (read s (js "custom_currency_exchange_rate")) (JNum (num_of_Z 1))))
    else (js "$", num_of_Z 1)
  | None => (js "$", num_of_Z 1)
  end.

Definition re_words (ws : list string) : regex :=
  (RWordB +> re_keys (map js ws) +> RLit (js "("))%re.
Definition hasTimeCondition (exprBody : jsstr) : bool := re_test (re_words ["hour"; "minute"; "weekday"; "month"; "day"]%string) exprBody.
Definition hasRequestCondition (exprBody : jsstr) : bool := re_test (re_words ["param"; "header"]%string) exprBody.
Definition tier_count (exprBody : jsstr) : nat := length (re_all (RLit (js "tier(")) exprBody).

(** The price lines, and the tags if there are any; [None] is the plain label.
    Removing the version as a prefix leaves what [strip_version] captures. *)
Definition formatDynamicPriceSummary (billingExpr : jsstr) (groupRatio : num) : option (list jsstr * list jsstr) :=
  if is_empty billingExpr then None
  else
    let '(symbol, rate) := summary_currency in
    let gr := if num_truthy groupRatio then groupRatio else num_of_Z 1 in
    let exprBody := strip_version billingExpr in
    let varCoeffs := body_coeffs exprBody in
    let has k := match assoc_get varCoeffs k with Some _ => true | None => false end in
    let lines := if has (js "p") || has (js "c") then
                   omap (λ v, (λ x, t (var_label v) ++ js " " ++ symbol ++ toFixed 4 (nmul (nmul x gr) rate) ++ js " / 1M Tokens")
                                <$> assoc_get varCoeffs (key v)) BILLING_PRICING_VARS
                 else [] in
    let tags := (if Nat.ltb 1 (tier_count exprBody) then [string_of_Z (Z.of_nat (tier_count exprBody)) ++ t (js "档")] else []) ++
                (if hasTimeCondition exprBody then [t (js "含时间条件")] else []) ++
                (if hasRequestCondition exprBody then [t (js "含请求条件")] else []) in
    Some (lines, match tags with [] => [] | _ => t (js "动态计费") :: tags end).
End Prices.
