(* ===== verification/PricingPageTheorems.v ===== *)
(** * The page of models and prices: theorems

    The count beside every filter option is the number of models the page shows
    once the option is picked; the price of a model is that of its cheapest group
    unless a group is selected; the text of a price carries its amount, if the
    currency symbol has neither digits nor dots. *)

From S2P Require Import Prelude JsString JsRegex JsNumber Json JsObject Render TieredPricing TieredPricingTheorems TierLog PricingPage.

(** ** Counts *)

Lemma filter_filter {A} (p q : A → bool) l : List.filter q (List.filter p l) = List.filter (λ x, p x && q x) l.
Proof.
  induction l as [|x l IH]; cbn [List.filter]; [done|]. destruct (p x); cbn [List.filter andb]; [|done].
  destruct (q x); by rewrite IH.
Qed.

Lemma filter_unless {A} (b : bool) (p : A → bool) l : (if b then l else List.filter p l) = List.filter (λ x, b || p x) l.
Proof. destruct b; cbn [orb]; [|done]. induction l; cbn [List.filter]; congruence. Qed.

Lemma forallb_ext {A} (f g : A → bool) l : (∀ x, f x = g x) → forallb f l = forallb g l.
Proof. intros H. induction l; cbn [forallb]; [done|]. by rewrite H, IHl. Qed.

Section Counts.
Context (lower : jsstr → jsstr) (localeCompare : jsstr → jsstr → Z).
Hypothesis lower_empty : ∀ s, lower s = [] ↔ s = [].

(** One filter on a model. *)
Definition holds (v : pricing_view) (d : dimension) (m : pmodel) : bool :=
  match d with
  | DGroup => streq (filterGroup v) ALL || is_member (filterGroup v) (enable_groups m)
  | DQuota => match filterQuotaType v with None => true | Some q => (quota_type m =? q)%Z end
  | DEndpoint => streq (filterEndpointType v) ALL || supports m (filterEndpointType v)
  | DVendor => streq (filterVendor v) ALL || from_vendor m (filterVendor v)
  | DTag => streq (filterTag v) ALL || is_member (lower (filterTag v)) (normalizeTags lower (tags m))
  | DSearch => is_empty (searchValue v) ||
               (mentions lower (lower (searchValue v)) (model_name m) || mentions lower (lower (searchValue v)) (description m)
                || mentions lower (lower (searchValue v)) (tags m) || mentions lower (lower (searchValue v)) (vendor_name m))
  end.
Definition dimensions : list dimension := [DGroup; DQuota; DEndpoint; DVendor; DTag; DSearch].

Lemma mentions_plain term text : term ≠ [] → mentions lower term text = includes term (lower text).
Proof.
  intros Ht. unfold mentions. destruct text as [|c s]; [|done]. cbn [is_empty negb andb].
  rewrite (proj2 (lower_empty []) eq_refl). by destruct term.
Qed.

Lemma no_tags : normalizeTags lower [] = [].
Proof. unfold normalizeTags. rewrite (proj2 (lower_empty []) eq_refl). reflexivity. Qed.

Lemma guard_step (ig all p c : bool) : (if negb ig && negb all && negb p then false else c) = (ig || (all || p)) && c.
Proof. by destruct ig, all, p. Qed.

Lemma search_alike v m : is_empty (searchValue v) = false →
  (let term := lower (searchValue v) in
   includes term (lower (model_name m)) || mentions lower term (description m)
   || includes term (if is_empty (tags m) then [] else lower (tags m)) || mentions lower term (vendor_name m)) =
  mentions lower (lower (searchValue v)) (model_name m) || mentions lower (lower (searchValue v)) (description m)
  || mentions lower (lower (searchValue v)) (tags m) || mentions lower (lower (searchValue v)) (vendor_name m).
Proof.
  intros He. assert (Ht : lower (searchValue v) ≠ []) by (rewrite lower_empty; by destruct (searchValue v)).
  rewrite (mentions_plain _ (model_name m)), (mentions_plain _ (tags m)) by done.
  destruct (tags m); [|done]. cbn [is_empty]. by rewrite (proj2 (lower_empty []) eq_refl).
Qed.

Lemma matchesFilters_all v ignore m :
  matchesFilters lower v ignore m = forallb (λ d, bool_decide (d ∈ ignore) || holds v d m) dimensions.
Proof.
  unfold matchesFilters. cbn [forallb dimensions holds]. rewrite !guard_step. f_equal.
  assert (Hq : ∀ c, (if negb (bool_decide (DQuota ∈ ignore)) && match filterQuotaType v with None => false | Some q => negb (quota_type m =? q)%Z end
    then false else c) = (bool_decide (DQuota ∈ ignore) || match filterQuotaType v with None => true | Some q => (quota_type m =? q)%Z end) && c).
  { intros c. destruct (bool_decide _), (filterQuotaType v) as [q|]; try done. by destruct (quota_type m =? q)%Z. }
  rewrite Hq. destruct (is_empty (searchValue v)) eqn:E; [done|]. by rewrite <- (search_alike v m E).
Qed.

Lemma filteredModels_all v models :
  filteredModels lower v models = List.filter (λ m, forallb (λ d, holds v d m) dimensions) models.
Proof.
  unfold filteredModels. rewrite !filter_unless.
  assert (Hs : ∀ l, (if Nat.ltb 0 (length (searchValue v)) then
     List.filter (λ m, mentions lower (lower (searchValue v)) (model_name m) || mentions lower (lower (searchValue v)) (description m)
       || mentions lower (lower (searchValue v)) (tags m) || mentions lower (lower (searchValue v)) (vendor_name m)) l else l)
     = List.filter (holds v DSearch) l).
  { intros l. unfold holds. rewrite <- filter_unless. by destruct (searchValue v). }
  cbv zeta. rewrite Hs.
  assert (Hq : ∀ l, match filterQuotaType v with None => l | Some q => List.filter (λ m, quota_type m =? q)%Z l end = List.filter (holds v DQuota) l).
  { intros l. unfold holds. destruct (filterQuotaType v); [done|]. symmetry. apply filter_all. by induction l. }
  rewrite Hq, !filter_filter. apply filter_ext. intros m. cbn [forallb dimensions holds]. rewrite andb_true_r.
  destruct (tags m); [|done]. by rewrite no_tags.
Qed.

Lemma models_without_all d v models :
  models_without lower d v models = List.filter (λ m, forallb (λ d', bool_decide (d' = d) || holds v d' m) dimensions) models.
Proof.
  apply filter_ext. intros m. rewrite matchesFilters_all. apply forallb_ext. intros d'. f_equal.
  apply bool_decide_ext. by rewrite list_elem_of_singleton.
Qed.

(** The models behind one dimension, restricted to a choice in it, are those
    shown after making the choice. *)
Lemma choice_count d v v' models (p : pmodel → bool) :
  (∀ d' m, d' ≠ d → holds v' d' m = holds v d' m) → (∀ m, holds v' d m = p m) →
  length (List.filter p (models_without lower d v models)) = length (filteredModels lower v' models).
Proof.
  intros Ho Hp. rewrite models_without_all, filteredModels_all, filter_filter. f_equal. apply filter_ext. intros m.
  assert (E : ∀ ds, forallb (λ d', bool_decide (d' = d) || holds v d' m) ds && (negb (bool_decide (d ∈ ds)) || p m)
    = forallb (λ d', holds v' d' m) ds).
  { induction ds as [|d' ds IH]; [done|]. cbn [forallb]. rewrite <- IH. destruct (decide (d' = d)) as [->|Hne].
    - rewrite !(bool_decide_eq_true_2 (d = d)) by done. rewrite bool_decide_eq_true_2 by by left. rewrite Hp.
      destruct (p m), (forallb _ ds), (bool_decide (d ∈ ds)); done.
    - rewrite (bool_decide_eq_false_2 (d' = d)) by done. rewrite (Ho d' m Hne). cbn [orb].
      rewrite (bool_decide_ext (d ∈ d' :: ds) (d ∈ ds)) by (rewrite elem_of_cons; naive_solver).
      by rewrite andb_assoc. }
  rewrite <- (E dimensions). f_equal. by destruct d.
Qed.

Lemma length_unless {A} (b : bool) (p : A → bool) l :
  (if b then length l else length (List.filter p l)) = length (List.filter (λ x, b || p x) l).
Proof. rewrite <- filter_unless. by destruct b. Qed.

Lemma vendor_count ms x : getVendorCount ms x = length (List.filter (λ m, streq x ALL || from_vendor m x) ms).
Proof. unfold getVendorCount. rewrite <- length_unless. unfold from_vendor. by destruct (streq x (js "unknown")). Qed.

Lemma tag_count ms x : x ≠ [] →
  getTagCount lower ms x = length (List.filter (λ m, streq x ALL || is_member (lower x) (normalizeTags lower (tags m))) ms).
Proof.
  intros Hx. unfold getTagCount. rewrite <- length_unless. destruct (streq x ALL); [done|]. f_equal. apply filter_ext. intros m.
  destruct (tags m) as [|c s]; [by rewrite no_tags|]. cbn [is_empty negb andb]. unfold normalizeTags, is_member, filter_truthy.
  apply bool_decide_ext. rewrite !list_elem_of_In, filter_In. rewrite <- lower_empty in Hx. destruct (lower x); naive_solver.
Qed.

Lemma offered_tags_nonempty all ms x : x ∈ ALL :: getAllTags lower localeCompare all ms → x ≠ [].
Proof.
  rewrite elem_of_cons. unfold getAllTags. rewrite sort_perm, elem_of_uniq. intros [->|H]; [done|].
  apply list_elem_of_In, in_flat_map in H as (m & _ & H). apply in_map_iff in H as (y & <- & H). apply filter_In in H as [_ H].
  rewrite lower_empty. by intros ->.
Qed.
End Counts.

Lemma counted {A} (f : A → nat) l x n : (x, n) ∈ map (λ x, (x, f x)) l → n = f x ∧ x ∈ l.
Proof. intros (y & [= <- <-] & Hy)%list_elem_of_fmap. done. Qed.

(** C15. The count beside every option of the vendor, billing type, tag and
    endpoint lists is the number of models the page shows once the option is
    picked, under the other filters and the search of the moment.  [toLowerCase]
    gives the empty text of the empty text only. *)
Theorem counts_true lower localeCompare v models :
  (∀ s, lower s = [] ↔ s = []) →
  (∀ x n, (x, n) ∈ vendor_items models (vendorModels lower v models) → n = length (filteredModels lower (setFilterVendor x v) models)) ∧
  (∀ x n, (x, n) ∈ endpoint_items models (endpointTypeModels lower v models) →
          n = length (filteredModels lower (setFilterEndpointType x v) models)) ∧
  (∀ x n, (x, n) ∈ tag_items lower localeCompare models (tagModels lower v models) →
          n = length (filteredModels lower (setFilterTag x v) models)) ∧
  (∀ q n, (q, n) ∈ quota_items (quotaTypeModels lower v models) → n = length (filteredModels lower (setFilterQuotaType q v) models)).
Proof.
  intros Hl. split_and!.
  - intros x n [-> _]%counted. rewrite vendor_count. apply choice_count; [done|by intros []|done].
  - intros x n [-> _]%counted. unfold getEndpointTypeCount. rewrite length_unless. apply choice_count; [done|by intros []|done].
  - intros x n [-> Hx]%counted. apply offered_tags_nonempty in Hx; [|done]. rewrite tag_count by done.
    apply choice_count; [done|by intros []|done].
  - intros q n [-> _]%counted. apply choice_count; [done|by intros []|done].
Qed.

Definition a_model (name vendor : string) (q : Z) (gs : list jsstr) : pmodel :=
  PModel (js name) [] (js "Fast, open weights") 0 (js vendor) [] [] None q gs (Some [js "openai"]) [] [] (num_of_Z 1) JNull JNull JNull
    JNull JNull JNull JNull.

Lemma counts_true_witness :
  let models := [a_model "gpt-4o" "OpenAI" 0 [js "default"]; a_model "sora" "OpenAI" 1 []; a_model "x" " " 0 []] in
  (js "OpenAI", 2) ∈ vendor_items models (vendorModels (λ s, s) initial_view models) ∧
  2 = length (filteredModels (λ s, s) (setFilterVendor (js "OpenAI") initial_view) models).
Proof.
  intros models. assert (H : (js "OpenAI", 2) ∈ vendor_items models (vendorModels (λ s, s) initial_view models)).
  { apply (bool_decide_eq_true_1 _). vm_compute. reflexivity. }
  split; [exact H|]. revert H. apply (counts_true (λ s, s) unit_order initial_view models). intros s. split; intros H; exact H.
Defined.

(** ** The cheapest group *)

(** Finite numbers are compared by sign, exponent and mantissa. *)
Definition rank (x : num) : option (Z * Z * Z) :=
  match x with
  | S754_nan => None
  | S754_infinity s => Some (if s then -2 else 2, 0, 0)%Z
  | S754_zero _ => Some (0, 0, 0)%Z
  | S754_finite s m e => Some (if s then (-1, - e, - Zpos m) else (1, e, Zpos m))%Z
  end.
Definition rank_lt (a b : Z * Z * Z) : Prop :=
  let '(a1, a2, a3) := a in let '(b1, b2, b3) := b in (a1 < b1 ∨ a1 = b1 ∧ (a2 < b2 ∨ a2 = b2 ∧ a3 < b3))%Z.

Lemma nlt_rank x y : nlt x y = true ↔ ∃ a b, rank x = Some a ∧ rank y = Some b ∧ rank_lt a b.
Proof.
  unfold nlt, SFltb, SFcompare.
  destruct x as [[]|[]| |[] mx ex], y as [[]|[]| |[] my ey]; cbn [rank rank_lt];
    try (split; [intros H; first [discriminate H|eexists _, _; split; [reflexivity|split; [reflexivity|cbn; lia]]]
                |intros (a & b & H1 & H2 & H); simplify_eq; cbn in H; first [reflexivity|lia]]).
  all: split; [intros H; eexists _, _; split; [reflexivity|split; [reflexivity|]]; revert H
              |intros (a & b & [= <-] & [= <-] & H); revert H];
    cbn [rank_lt]; destruct (Z.compare_spec ex ey); try done; try lia;
    change (Pos.compare_cont Eq mx my) with (Pos.compare mx my); destruct (Pos.compare_spec mx my); try done; lia.
Qed.

Lemma nlt_trans x y z : nlt x y = true → nlt y z = true → nlt x z = true.
Proof.
  rewrite !nlt_rank. intros (a & b & Ha & Hb & H1) (b' & c & Hb' & Hc & H2). simplify_eq. exists a, c. split_and!; [done..|].
  destruct a as [[??]?], b as [[??]?], c as [[??]?]. cbn [rank_lt] in *. lia.
Qed.

Lemma cheapest_fold groupRatio l g0 r0 :
  let '(mn, g, r) := fold_left (cheapest_step groupRatio) l (S754_infinity false, g0, r0) in
  (∀ g' r', g' ∈ l → assoc_get groupRatio g' = Some r' → nlt r' mn = false) ∧
  (mn = S754_infinity false ∧ g = g0 ∧ r = r0 ∨ g ∈ l ∧ assoc_get groupRatio g = Some mn ∧ r = Some mn).
Proof.
  induction l as [|x l IH] using rev_ind; cbn [fold_left].
  { split; [by intros ?? ?%elem_of_nil|by left]. }
  rewrite fold_left_app. cbn [fold_left].
  destruct (fold_left _ l _) as [[mn g] r]. destruct IH as [Hmin Hcur]. cbn [cheapest_step].
  assert (Hkeep : (mn = S754_infinity false ∧ g = g0 ∧ r = r0 ∨ g ∈ l ++ [x] ∧ assoc_get groupRatio g = Some mn ∧ r = Some mn)).
  { destruct Hcur as [?|(? & ?)]; [by left|right]. split; [|done]. apply elem_of_app. by left. }
  destruct (assoc_get groupRatio x) as [rx|] eqn:Ex; [destruct (nlt rx mn) eqn:El|].
  - split.
    + intros g' r' [Hg|Hg]%elem_of_app Hr'.
      * destruct (nlt r' rx) eqn:E; [|done]. rewrite <- (Hmin g' r' Hg Hr'). symmetry. by eapply nlt_trans.
      * apply list_elem_of_singleton in Hg as ->. rewrite Ex in Hr'. injection Hr' as <-.
        destruct (nlt rx rx) eqn:E; [|done]. apply nlt_rank in E as (a & b & Ha & Hb & H). simplify_eq.
        destruct a as [[??]?]. cbn [rank_lt] in H. lia.
    + right. split_and!; [|done..]. apply elem_of_app. right. by left.
  - split; [|done]. intros g' r' [Hg|Hg]%elem_of_app Hr'; [by eapply Hmin|].
    apply list_elem_of_singleton in Hg as ->. congruence.
  - split; [|done]. intros g' r' [Hg|Hg]%elem_of_app Hr'; [by eapply Hmin|].
    apply list_elem_of_singleton in Hg as ->. congruence.
Qed.

(** With all groups selected, or a group without a ratio, the price of a
    model uses one of the model's own groups, and none of its groups has a smaller
    ratio; this holds as soon as one of them has a ratio that is a number. *)
Theorem cheapest_group_used groupRatio selected record g0 r0 :
  selected = ALL ∨ assoc_get groupRatio selected = None →
  g0 ∈ enable_groups record → assoc_get groupRatio g0 = Some r0 → nlt r0 (S754_infinity false) = true →
  let '(g, r) := used_group groupRatio selected record in
  g ∈ enable_groups record ∧ assoc_get groupRatio g = Some r ∧
  ∀ g' r', g' ∈ enable_groups record → assoc_get groupRatio g' = Some r' → nlt r' r = false.
Proof.
  intros Hsel Hg0 Hr0 Hlt.
  assert (H : ∀ ri, let '(_, g, r') := fold_left (cheapest_step groupRatio) (enable_groups record) (S754_infinity false, selected, ri) in
    g ∈ enable_groups record ∧ assoc_get groupRatio g = Some (default (num_of_Z 1) r') ∧
    ∀ g' r'', g' ∈ enable_groups record → assoc_get groupRatio g' = Some r'' → nlt r'' (default (num_of_Z 1) r') = false).
  { intros ri. pose proof (cheapest_fold groupRatio (enable_groups record) selected ri) as H.
    destruct (fold_left _ _ _) as [[mn g] r]. destruct H as [Hmin [(-> & _)|(Hin & Hget & ->)]].
    - by rewrite (Hmin g0 r0 Hg0 Hr0) in Hlt.
    - done. }
  unfold used_group. destruct (assoc_get groupRatio selected) as [rs|] eqn:Es.
  - destruct Hsel as [->|]; [|done]. rewrite streq_refl. specialize (H (Some rs)).
    destruct (fold_left _ _ _) as [[mn g] r]. exact H.
  - specialize (H None). destruct (fold_left _ _ _) as [[mn g] r]. exact H.
Qed.

Lemma cheapest_group_used_witness :
  let ratios := [(js "default", num_of_Z 2); (js "vip", num_of_Z 1)] in
  let '(g, r) := used_group ratios ALL (a_model "gpt-4o" "OpenAI" 0 [js "default"; js "vip"]) in
  g ∈ [js "default"; js "vip"] ∧ assoc_get ratios g = Some r ∧
  ∀ g' r', g' ∈ [js "default"; js "vip"] → assoc_get ratios g' = Some r' → nlt r' r = false.
Proof.
  intros ratios. apply (cheapest_group_used ratios ALL (a_model "gpt-4o" "OpenAI" 0 [js "default"; js "vip"]) (js "default") (num_of_Z 2)).
  - left. reflexivity.
  - apply elem_of_cons. left. reflexivity.
  - vm_compute. reflexivity.
  - vm_compute. reflexivity.
Defined.

(** ** The text of a price *)

Lemma search_set p l u c t : forallb (λ d, negb (p d)) u = true → p c = true →
  search (RSet p) l (u ++ c :: t) = Some (Pos (rev u ++ l) (c :: t) [], Pos (c :: rev u ++ l) t []).
Proof.
  revert l. induction u as [|d u IH]; intros l Hu Hc; cbn [app search m rgt].
  - by rewrite Hc.
  - cbn [forallb] in Hu. apply andb_true_iff in Hu as [Hd%negb_true_iff Hu]. rewrite Hd, IH by done.
    cbn [rev]. by rewrite <- app_assoc.
Qed.

Lemma search_set_none p l s : forallb (λ d, negb (p d)) s = true → search (RSet p) l s = None.
Proof.
  revert l. induction s as [|d s IH]; intros l Hs; cbn [search m rgt]; [done|].
  cbn [forallb] in Hs. apply andb_true_iff in Hs as [Hd%negb_true_iff Hs]. by rewrite Hd, IH.
Qed.

(** Deleting a class of code units keeps the others. *)
Lemma replace_set p l s n : (length s < n)%nat → replace_go n (RSet p) [] l s = List.filter (λ c, negb (p c)) s.
Proof.
  revert l s. induction n as [|n IH]; intros l s Hn; [lia|]. cbn [replace_go].
  destruct (forallb (λ d, negb (p d)) s) eqn:E.
  { rewrite search_set_none by done. symmetry. by apply filter_all. }
  assert (∃ u c t, s = u ++ c :: t ∧ forallb (λ d, negb (p d)) u = true ∧ p c = true) as (u & c & t & -> & Hu & Hc).
  { clear -E. induction s as [|d s IH]; cbn [forallb] in E; [done|]. destruct (p d) eqn:Ed; [by exists [], d, s|].
    cbn [negb andb] in E. destruct (IH E) as (u & c & t & -> & Hu & Hc). exists (d :: u), c, t. cbn [forallb]. by rewrite Ed, Hu. }
  rewrite search_set by done. cbn [rgt lft length app]. rewrite length_app in *. cbn [length] in *.
  replace (length u + S (length t) - S (length t))%nat with (length u) by lia. rewrite take_app_length, IH by lia.
  rewrite List.filter_app. cbn [List.filter]. by rewrite Hc, (filter_all _ u).
Qed.

Lemma strip_symbol symbol text :
  re_replace_all (RSet not_numeral) [] (symbol ++ text) =
  List.filter (λ c, negb (not_numeral c)) symbol ++ List.filter (λ c, negb (not_numeral c)) text.
Proof. unfold re_replace_all. rewrite replace_set by lia. by rewrite List.filter_app. Qed.

Lemma numeral_text ip fp : forallb is_digit ip = true → forallb is_digit fp = true →
  List.filter (λ c, negb (not_numeral c)) (ip ++ 46%N :: fp) = ip ++ 46%N :: fp.
Proof.
  intros Hi Hf. apply filter_all. rewrite forallb_app. cbn [forallb].
  assert (H : ∀ s, forallb is_digit s = true → forallb (λ c, negb (not_numeral c)) s = true).
  { induction s as [|c s IH]; cbn [forallb]; [done|]. intros [Hc Hs]%andb_true_iff. rewrite IH by done. unfold not_numeral. by rewrite Hc. }
  by rewrite !H.
Qed.

Lemma no_numerals s : forallb not_numeral s = true → List.filter (λ c, negb (not_numeral c)) s = [].
Proof. induction s as [|c s IH]; cbn [forallb List.filter]; [done|]. intros [-> Hs]%andb_true_iff. auto. Qed.

(** The text of a token price carries the price: if the symbol of the
    currency has neither digits nor dots, and the amount is below 10^21, the number
    shown is the amount rounded to the nearest thousandth, divided by the unit. *)
Theorem token_price_exact getItem status v usdPrice unitDivisor precision a b :
  forallb not_numeral (display_amount status v usdPrice).1 = true → amount (display_amount status v usdPrice).2 = Some (a, b) →
  ∃ n, nearest 3 a b n ∧
  formatTokenPrice (displayPrice status v) (currency_symbol getItem (currency v)) unitDivisor precision usdPrice =
  currency_symbol getItem (currency v) ++ toFixed precision (ndiv (num_of_dec false n (-3)) unitDivisor).
Proof.
  unfold formatTokenPrice, displayPrice. destruct (display_amount status v usdPrice) as [symbol x]. cbn [fst snd]. intros Hs Hx.
  destruct (toFixed_text 3 x a b) as (ip & fp & -> & Hi & Hf & Hne & Hl & Hn); [lia|done|].
  exists (digits_val (ip ++ fp)). split; [done|]. rewrite strip_symbol, numeral_text by done.
  rewrite no_numerals by done. cbn [app]. rewrite <- (app_nil_r fp) at 1. rewrite parseFloat_fixed by done. by rewrite Hl.
Qed.

Lemma token_price_exact_witness :
  ∃ n, nearest 3 5 2 n ∧
  formatTokenPrice (displayPrice (JObj []) initial_view) (currency_symbol (λ _, None) (currency initial_view)) (num_of_Z 1) 4
    (Number_of_string (js "2.5")) = js "$2.5000".
Proof.
  destruct (token_price_exact (λ _, None) (JObj []) initial_view (Number_of_string (js "2.5")) (num_of_Z 1) 4 5629499534213120 2251799813685248)
    as (n & Hn & H).
  - vm_compute. reflexivity.
  - vm_compute. reflexivity.
  - exists 2500%Z. split; [vm_compute; discriminate|]. vm_compute. reflexivity.
Defined.

(** A currency symbol that ends in a dot, such as the one of the rupee,
    makes every price smaller than one: the dot joins the amount, and the price
    shown is its whole part behind the decimal point. *)
Theorem dotted_symbol_hides_price getItem status v usdPrice unitDivisor precision a b s :
  (display_amount status v usdPrice).1 = s ++ [46%N] → forallb not_numeral s = true →
  amount (display_amount status v usdPrice).2 = Some (a, b) →
  ∃ n k, nearest 3 a b n ∧ (0 ≤ n / 1000 < 10 ^ k)%Z ∧
  formatTokenPrice (displayPrice status v) (currency_symbol getItem (currency v)) unitDivisor precision usdPrice =
  currency_symbol getItem (currency v) ++ toFixed precision (ndiv (num_of_dec false (n / 1000) (- k)) unitDivisor).
Proof.
  unfold formatTokenPrice, displayPrice. destruct (display_amount status v usdPrice) as [symbol x]. cbn [fst snd]. intros -> Hs Hx.
  destruct (toFixed_text 3 x a b) as (ip & fp & -> & Hi & Hf & Hne & Hl & Hn); [lia|done|].
  exists (digits_val (ip ++ fp)), (Z.of_nat (length ip)). split; [done|].
  assert (Hdiv : (digits_val (ip ++ fp) / 1000 = digits_val ip)%Z).
  { rewrite digits_val_app, Hl. pose proof (digits_val_bounds fp Hf) as Hb. rewrite Hl in Hb.
    change (10 ^ Z.of_nat 3)%Z with 1000%Z in *. rewrite Z.div_add_l by lia. rewrite Z.div_small by lia. lia. }
  rewrite Hdiv. split; [by apply digits_val_bounds|]. rewrite strip_symbol, (numeral_text ip fp), List.filter_app by done.
  rewrite no_numerals by done. change (List.filter (λ c, negb (not_numeral c)) [46%N]) with [46%N]. cbn [app].
  by rewrite parseFloat_point.
Qed.

Definition rupees : jval := JObj [(js "custom_currency_symbol", JStr (js "Rs.")); (js "custom_currency_exchange_rate", JNum (num_of_Z 80))].

Lemma dotted_symbol_hides_price_witness :
  formatTokenPrice (displayPrice rupees (set_display (js "CUSTOM") false initial_view)) (js "Rs.") (num_of_Z 1) 4 (num_of_Z 2) = js "Rs.0.1600" ∧
  ∃ n k, nearest 3 160 1 n ∧ (0 ≤ n / 1000 < 10 ^ k)%Z.
Proof.
  split; [vm_compute; reflexivity|].
  destruct (dotted_symbol_hides_price (λ _, None) rupees (set_display (js "CUSTOM") false initial_view) (num_of_Z 2) (num_of_Z 1) 4
              5629499534213120 35184372088832 (js "Rs")) as (n & k & Hn & Hk & _).
  - vm_compute. reflexivity.
  - vm_compute. reflexivity.
  - vm_compute. reflexivity.
  - exists n, k. split; [|exact Hk]. revert Hn. unfold nearest. lia.
Defined.

(** ** The selected group *)

(** What the sidebar offers besides its reset button. *)
Inductive sidebar_op : pricing_view → pricing_view → Prop :=
| OpSearch s v : sidebar_op v (after_render (handleChange s) v)
| OpGroup g v : sidebar_op v (after_render (handleGroupClick g) v)
| OpQuota q v : sidebar_op v (after_render (setFilterQuotaType q) v)
| OpEndpoint e v : sidebar_op v (after_render (setFilterEndpointType e) v)
| OpVendor x v : sidebar_op v (after_render (setFilterVendor x) v)
| OpTag x v : sidebar_op v (after_render (setFilterTag x) v)
| OpPage n v : sidebar_op v (after_render (setCurrentPage n) v)
| OpDisplay c b v : sidebar_op v (after_render (set_display c b) v)
| OpSite status v : sidebar_op v (sync_currency status v).

Lemma after_render_groups op v : selectedGroup (after_render op v) = selectedGroup (op v) ∧ filterGroup (after_render op v) = filterGroup (op v).
Proof. unfold after_render. by destruct (bool_decide _). Qed.

(** These keep the group whose prices are shown the group that is filtered by. *)
Lemma sidebar_groups v v' : sidebar_op v v' → selectedGroup v = filterGroup v → selectedGroup v' = filterGroup v'.
Proof.
  destruct 1 as [s v|g v|q v|e v|x v|x v|n v|c b v|status v]; intros H;
    try (rewrite !(proj1 (after_render_groups _ v)), !(proj2 (after_render_groups _ v)); done).
  unfold sync_currency. destruct (siteDisplayType status); try done. by repeat case_match.
Qed.

(** The reset button does not: no group is filtered by any more, and the prices
    are still those of the group that was clicked. *)
Theorem reset_keeps_group groupRatio record v g r : g ≠ ALL → assoc_get groupRatio g = Some r →
  let v' := after_render resetPricingFilters (after_render (handleGroupClick g) v) in
  filterGroup v' = ALL ∧ used_group groupRatio (selectedGroup v') record = (g, r).
Proof.
  intros Hg Hr v'. unfold v'. destruct (after_render_groups resetPricingFilters (after_render (handleGroupClick g) v)) as [-> ->].
  split; [done|]. cbn [resetPricingFilters selectedGroup]. destruct (after_render_groups (handleGroupClick g) v) as [-> _].
  cbn [handleGroupClick selectedGroup]. unfold used_group. rewrite Hr. by rewrite (proj2 (streq_false g ALL) Hg).
Qed.

(** ** The order of the models *)

Lemma setModelsFormat_order localeCompare models groupRatio vendorMap :
  (∀ a b, (localeCompare a b < 0 ∨ localeCompare b a ≤ 0)%Z) →
  let l := setModelsFormat localeCompare models groupRatio vendorMap in
  l ≡ₚ map (format_model groupRatio vendorMap) models ∧ Sorted (λ a b, by_name localeCompare a b ≤ 0)%Z l.
Proof.
  intros Htot l. unfold l, setModelsFormat. split; [by rewrite !sort_perm|]. apply sort_sorted. intros a b. unfold by_name.
  destruct (starts_with (js "gpt") (model_name a)), (starts_with (js "gpt") (model_name b)); cbn [andb negb]; try lia; apply Htot.
Qed.
