(* ===== verification/Billing.v ===== *)
(** * Billing texts of the usage log

    [web/src/helpers/render.jsx]: how the price of a logged request is explained.
    Every function comes in two modes: prices in a currency, and ratios where the
    site shows tokens.  A log entry is a JSON value; its numeric fields are
    numbers and its flags booleans.  [t] is [i18next.t], [getItem] the local
    storage; an article is the list of its paragraphs. *)

From S2P Require Import Prelude JsString JsRegex JsNumber Json JsObject Render.

Section Billing.
Context (getItem : jsstr → option jsstr) (t : jsstr → list (jsstr * jval) → jsstr).

(** ** Fields of a log entry *)

(** Destructuring with a default, which replaces [undefined] only. *)
Definition num_field (o : jval) (k : string) (d : num) : num := match read o (js k) with JUndef => d | v => Number_of v end.
Definition one : num := num_of_Z 1.
Definition count_field (o : jval) (k : string) : num := num_field o k nzero.
Definition ratio_field (o : jval) (k : string) : num := num_field o k one.
Definition flag_field (o : jval) (k : string) : bool := truthy (read o (js k)).
(** [v ?? 0] *)
Definition or_zero (o : jval) (k : string) : num := Number_of (js_nullish (read o (js k)) (JNum nzero)).
Definition price_field (o : jval) : jval := read o (js "model_price").
Definition has (x : num) : bool := nlt nzero x.

(** A named value of a text. *)
Local Notation "k ~> v" := ((k%string, v) : string * jval) (at level 60).

Definition billing_text (key : string) (vars : list (string * jval)) : jsstr := t (js key) (map (λ e, (js e.1, e.2)) vars).
Definition price_text (key : string) (symbol : jval) (usdAmount : num) (rate : jval) (amountKey : string) (vars : list (string * jval)) : jsstr :=
  buildBillingPriceText t (js key) symbol usdAmount rate amountKey (map (λ e, (js e.1, e.2)) vars).
Definition when (b : bool) (s : jsstr) : jsstr := if b then s else [].
Definition part (b : bool) (s : jsstr) : list jsstr := if b then [s] else [].

(** [modelRatio * 2.0 * ratio] *)
Definition unit_price (modelRatio ratio : num) : num := nmul (nmul modelRatio (num_of_Z 2)) ratio.
Definition million : num := num_of_Z 1000000.
Definition thousand : num := num_of_Z 1000.
(** [(tokens / 1000000) * price * groupRatio] *)
Definition token_amount (tokens price groupRatio : num) : num := nmul (nmul (ndiv tokens million) price) groupRatio.
Definition fixed6 (x : num) : jval := JStr (toFixed 6 x).

(** ** The short text of a request *)

Record simple := Simple {
  s_modelRatio : num; s_modelPrice : jval; s_groupRatio : jval; s_user_group_ratio : jval;
  s_cacheTokens : num; s_cacheRatio : num; s_cacheCreationTokens : num; s_cacheCreationRatio : num;
  s_cacheCreationTokens5m : num; s_cacheCreationRatio5m : num; s_cacheCreationTokens1h : num; s_cacheCreationRatio1h : num;
  s_image : bool; s_imageRatio : num; s_isSystemPromptOverride : bool; s_displayMode : jval }.

Definition split_creation (o : simple) : bool := has (s_cacheCreationTokens5m o) || has (s_cacheCreationTokens1h o).
Definition legacy_creation (o : simple) : bool := negb (split_creation o) && negb (neq (s_cacheCreationTokens o) nzero).
Definition shows_cache (o : simple) : bool := negb (neq (s_cacheTokens o) nzero).
Definition shows_5m (o : simple) : bool := split_creation o && has (s_cacheCreationTokens5m o).
Definition shows_1h (o : simple) : bool := split_creation o && has (s_cacheCreationTokens1h o).

Definition per_million (key : string) (o : simple) (ratio : option num) : jsstr :=
  let base := nmul (s_modelRatio o) (num_of_Z 2) in
  let price := match ratio with Some r => nmul base r | None => base end in
  billing_text key [("price" ~> JStr (formatCompactDisplayPrice getItem price))].

(** The prices per million tokens, shared by both outputs. *)
Definition simple_prices (o : simple) : list jsstr :=
  [per_million "输入 {{price}} / 1M tokens" o None] ++
  part (shows_cache o) (per_million "缓存读 {{price}} / 1M tokens" o (Some (s_cacheRatio o))) ++
  part (shows_5m o) (per_million "5m缓存创建 {{price}} / 1M tokens" o (Some (s_cacheCreationRatio5m o))) ++
  part (shows_1h o) (per_million "1h缓存创建 {{price}} / 1M tokens" o (Some (s_cacheCreationRatio1h o))) ++
  part (legacy_creation o) (per_million "缓存创建 {{price}} / 1M tokens" o (Some (s_cacheCreationRatio o))) ++
  part (s_image o) (per_million "图片输入 {{price}} / 1M tokens" o (Some (s_imageRatio o))).

(** The ratios as separate segments. *)
Definition simple_ratios (o : simple) : list jsstr :=
  [billing_text "模型: {{ratio}}" [("ratio" ~> JNum (s_modelRatio o))]] ++
  part (shows_cache o) (billing_text "缓存: {{cacheRatio}}" [("cacheRatio" ~> JNum (s_cacheRatio o))]) ++
  (if split_creation o then
     if shows_5m o && shows_1h o then
       [billing_text "缓存创建: 5m {{cacheCreationRatio5m}} / 1h {{cacheCreationRatio1h}}"
          [("cacheCreationRatio5m" ~> JNum (s_cacheCreationRatio5m o)); ("cacheCreationRatio1h" ~> JNum (s_cacheCreationRatio1h o))]]
     else if shows_5m o then
       [billing_text "缓存创建: 5m {{cacheCreationRatio5m}}" [("cacheCreationRatio5m" ~> JNum (s_cacheCreationRatio5m o))]]
     else part (shows_1h o) (billing_text "缓存创建: 1h {{cacheCreationRatio1h}}" [("cacheCreationRatio1h" ~> JNum (s_cacheCreationRatio1h o))])
   else part (legacy_creation o) (billing_text "缓存创建: {{cacheCreationRatio}}" [("cacheCreationRatio" ~> JNum (s_cacheCreationRatio o))])) ++
  part (s_image o) (billing_text "图片输入: {{imageRatio}}" [("imageRatio" ~> JNum (s_imageRatio o))]).

(** [outputMode === 'segments']: texts with their tone. *)
Definition simple_segments (o : simple) : list (jsstr * jsstr) :=
  let secondary := map (λ s, (js "secondary", s)) in
  [(js "primary", getGroupRatioText t (s_groupRatio o) (s_user_group_ratio o))] ++
  (if has_price (s_modelPrice o) then
     secondary [if isPriceDisplayMode getItem (s_displayMode o) (s_modelPrice o)
                then billing_text "模型价格 {{price}}" [("price" ~> JStr (formatCompactDisplayPrice getItem (Number_of (s_modelPrice o))))]
                else billing_text "按次" []]
   else if isPriceDisplayMode getItem (s_displayMode o) (s_modelPrice o) then secondary (simple_prices o)
   else secondary (simple_ratios o)) ++
  (if s_isSystemPromptOverride o then [(js "primary", billing_text "系统提示覆盖" [])] else []).

(** The template of the ratios, translated piece by piece and then as a whole. *)
Definition simple_template (o : simple) : jsstr :=
  join (js " * ")
    ([billing_text "模型: {{ratio}}" []] ++
     part (shows_cache o) (billing_text "缓存: {{cacheRatio}}" []) ++
     (if split_creation o then
        if shows_5m o && shows_1h o then [billing_text "缓存创建: 5m {{cacheCreationRatio5m}} / 1h {{cacheCreationRatio1h}}" []]
        else if shows_5m o then [billing_text "缓存创建: 5m {{cacheCreationRatio5m}}" []]
        else part (shows_1h o) (billing_text "缓存创建: 1h {{cacheCreationRatio1h}}" [])
      else part (legacy_creation o) (billing_text "缓存创建: {{cacheCreationRatio}}" [])) ++
     part (s_image o) (billing_text "图片输入: {{imageRatio}}" []) ++
     [js "{{ratioType}}: {{groupRatio}}"]).

Definition override_note (o : simple) (result : jsstr) : jsstr :=
  if s_isSystemPromptOverride o then result ++ [10; 13]%N ++ billing_text "系统提示覆盖" [] else result.

(** [outputMode === 'text'] *)
Definition simple_text (o : simple) : jsstr :=
  let '(ratio, ratioLabel, _) := getEffectiveRatio t (s_groupRatio o) (s_user_group_ratio o) in
  let '(symbol, rate, _) := getCurrencyConfig getItem in
  let groupText := getGroupRatioText t (s_groupRatio o) (s_user_group_ratio o) in
  if has_price (s_modelPrice o) then
    let price := fixed6 (nmul (Number_of (s_modelPrice o)) (Number_of rate)) in
    if isPriceDisplayMode getItem (s_displayMode o) (s_modelPrice o) then
      joinBillingSummary [billing_text "模型价格：{{symbol}}{{price}}" [("symbol" ~> symbol); ("price" ~> price)]; groupText]
    else billing_text "价格：{{symbol}}{{price}} * {{ratioType}}：{{ratio}}"
           [("symbol" ~> symbol); ("price" ~> price); ("ratioType" ~> JStr ratioLabel); ("ratio" ~> ratio)]
  else if isPriceDisplayMode getItem (s_displayMode o) (s_modelPrice o) then
    override_note o (joinBillingSummary (simple_prices o ++ [groupText]))
  else
    override_note o (t (simple_template o)
      [(js "ratio", JNum (s_modelRatio o)); (js "ratioType", JStr ratioLabel); (js "groupRatio", ratio);
       (js "cacheRatio", JNum (s_cacheRatio o)); (js "cacheCreationRatio", JNum (s_cacheCreationRatio o));
       (js "cacheCreationRatio5m", JNum (s_cacheCreationRatio5m o)); (js "cacheCreationRatio1h", JNum (s_cacheCreationRatio1h o));
       (js "imageRatio", JNum (s_imageRatio o))]).

Definition renderPriceSimpleCore (o : simple) (segments : bool) : list (jsstr * jsstr) + jsstr :=
  if segments then inl (simple_segments o) else inr (simple_text o).

Definition renderModelPriceSimple (opts : jval) : list (jsstr * jsstr) + jsstr :=
  renderPriceSimpleCore
    {| s_modelRatio := Number_of (read opts (js "model_ratio")); s_modelPrice := price_field opts;
       s_groupRatio := read opts (js "group_ratio"); s_user_group_ratio := read opts (js "user_group_ratio");
       s_cacheTokens := count_field opts "cache_tokens"; s_cacheRatio := ratio_field opts "cache_ratio";
       s_cacheCreationTokens := count_field opts "cache_creation_tokens"; s_cacheCreationRatio := ratio_field opts "cache_creation_ratio";
       s_cacheCreationTokens5m := count_field opts "cache_creation_tokens_5m"; s_cacheCreationRatio5m := ratio_field opts "cache_creation_ratio_5m";
       s_cacheCreationTokens1h := count_field opts "cache_creation_tokens_1h"; s_cacheCreationRatio1h := ratio_field opts "cache_creation_ratio_1h";
       s_image := flag_field opts "image"; s_imageRatio := ratio_field opts "image_ratio";
       s_isSystemPromptOverride := flag_field opts "is_system_prompt_overwritten"; s_displayMode := read opts (js "displayMode") |}
    (match read opts (js "outputMode") with JStr m => streq m (js "segments") | _ => false end).

(** Tasks: the settled text, or a note that it is still to come. *)
Definition renderTaskBillingProcess (other : jval) (content : jsstr) : list jsstr :=
  if negb (is_nullish other) && negb (is_nullish (read other (js "task_id"))) then renderBillingArticle t [content] false
  else renderBillingArticle t [billing_text "任务预扣费（将在任务完成后按实际token重算）" []] true.

(** ** The full explanation: chat models *)

(** The group ratio, its label, the currency. *)
Definition group_of (o : jval) : jval * jsstr :=
  let '(ratio, label, _) := getEffectiveRatio t (read o (js "group_ratio")) (read o (js "user_group_ratio")) in (ratio, label).

Definition model_input_tokens (o : jval) : num :=
  let inputTokens := count_field o "prompt_tokens" in
  let cacheTokens := count_field o "cache_tokens" in
  let imageOutputTokens := count_field o "image_output" in
  let audioInputTokens := count_field o "audio_input_token_count" in
  let effective := nadd (nsub inputTokens cacheTokens) (nmul cacheTokens (ratio_field o "cache_ratio")) in
  let effective := if flag_field o "image" && has imageOutputTokens
                   then nadd (nsub inputTokens imageOutputTokens) (nmul imageOutputTokens (ratio_field o "image_ratio")) else effective in
  if has audioInputTokens then nsub effective audioInputTokens else effective.

(** The total of the price mode. *)
Definition model_total (o : jval) : num :=
  let modelRatio := count_field o "model_ratio" in
  let groupRatio := Number_of (group_of o).1 in
  let calls k p := nmul (nmul (ndiv (count_field o k) thousand) (count_field o p)) groupRatio in
  nadd (nadd (nadd (nadd (nadd
    (token_amount (model_input_tokens o) (nmul modelRatio (num_of_Z 2)) groupRatio)
    (token_amount (count_field o "audio_input_token_count") (count_field o "audio_input_price") groupRatio))
    (token_amount (count_field o "completion_tokens") (unit_price modelRatio (or_zero o "completion_ratio")) groupRatio))
    (calls "web_search_call_count" "web_search_price"))
    (calls "file_search_call_count" "file_search_price"))
    (nmul (count_field o "image_generation_call_price") groupRatio).

(** A request with a fixed price. *)
Definition per_call_lines (first second : string) (o : jval) : list jsstr :=
  let '(ratio, ratioLabel) := group_of o in
  let '(symbol, rate, _) := getCurrencyConfig getItem in
  let modelPrice := Number_of (price_field o) in
  renderBillingArticle t
    [price_text first symbol modelPrice rate "price" [];
     price_text second symbol modelPrice rate "price"
       ["ratioType" ~> JStr ratioLabel; "ratio" ~> ratio;
        "total" ~> JStr (formatBillingDisplayPrice (nmul modelPrice (Number_of ratio)) rate)]] true.

Definition web_searched (o : jval) : bool := flag_field o "web_search" && has (count_field o "web_search_call_count").
Definition file_searched (o : jval) : bool := flag_field o "file_search" && has (count_field o "file_search_call_count").
Definition image_generated (o : jval) : bool := flag_field o "image_generation_call" && has (count_field o "image_generation_call_price").
Definition with_image (o : jval) : bool := flag_field o "image" && has (count_field o "image_output").

Definition model_input_desc (o : jval) : jsstr :=
  let '(symbol, rate, _) := getCurrencyConfig getItem in
  let modelRatio := count_field o "model_ratio" in
  let inputTokens := count_field o "prompt_tokens" in
  let cacheTokens := count_field o "cache_tokens" in
  let imageOutputTokens := count_field o "image_output" in
  let audioInputTokens := count_field o "audio_input_token_count" in
  let inputRatioPrice := nmul modelRatio (num_of_Z 2) in
  let show x := JStr (formatBillingDisplayPrice x rate) in
  if with_image o then
    price_text "(输入 {{nonImageInput}} tokens + 图片输入 {{imageInput}} tokens / 1M tokens * {{symbol}}{{price}}" symbol inputRatioPrice rate "price"
      ["nonImageInput" ~> JNum (nsub inputTokens imageOutputTokens); "imageInput" ~> JNum imageOutputTokens]
  else if has cacheTokens then
    billing_text "(输入 {{nonCacheInput}} tokens / 1M tokens * {{symbol}}{{price}} + 缓存 {{cacheInput}} tokens / 1M tokens * {{symbol}}{{cachePrice}}"
      ["nonCacheInput" ~> JNum (nsub inputTokens cacheTokens); "cacheInput" ~> JNum cacheTokens; "symbol" ~> symbol;
       "price" ~> show inputRatioPrice; "cachePrice" ~> show (unit_price modelRatio (ratio_field o "cache_ratio"))]
  else if flag_field o "audio_input_seperate_price" && has audioInputTokens then
    billing_text "(输入 {{nonAudioInput}} tokens / 1M tokens * {{symbol}}{{price}} + 音频输入 {{audioInput}} tokens / 1M tokens * {{symbol}}{{audioPrice}}"
      ["nonAudioInput" ~> JNum (nsub inputTokens audioInputTokens); "audioInput" ~> JNum audioInputTokens; "symbol" ~> symbol;
       "price" ~> show inputRatioPrice; "audioPrice" ~> show (count_field o "audio_input_price")]
  else
    price_text "(输入 {{input}} tokens / 1M tokens * {{symbol}}{{price}}" symbol inputRatioPrice rate "price" ["input" ~> JNum inputTokens].

Definition model_extra_services (o : jval) : jsstr :=
  let '(ratio, ratioLabel) := group_of o in
  let '(symbol, rate, _) := getCurrencyConfig getItem in
  let group := ["ratio" ~> ratio; "ratioType" ~> JStr ratioLabel] in
  when (web_searched o)
    (price_text " + Web搜索 {{count}}次 / 1K 次 * {{symbol}}{{price}} * {{ratioType}} {{ratio}}" symbol (count_field o "web_search_price") rate "price"
       (("count" ~> JNum (count_field o "web_search_call_count")) :: group)) ++
  when (file_searched o)
    (price_text " + 文件搜索 {{count}}次 / 1K 次 * {{symbol}}{{price}} * {{ratioType}} {{ratio}}" symbol (count_field o "file_search_price") rate "price"
       (("count" ~> JNum (count_field o "file_search_call_count")) :: group)) ++
  when (image_generated o)
    (price_text " + 图片生成调用 {{symbol}}{{price}} / 1次 * {{ratioType}} {{ratio}}" symbol (count_field o "image_generation_call_price") rate "price" group).

Definition model_price_lines (o : jval) : list jsstr :=
  let '(ratio, ratioLabel) := group_of o in
  let '(symbol, rate, _) := getCurrencyConfig getItem in
  let modelRatio := count_field o "model_ratio" in
  let inputRatioPrice := nmul modelRatio (num_of_Z 2) in
  let completionRatioPrice := unit_price modelRatio (or_zero o "completion_ratio") in
  let show x := JStr (formatBillingDisplayPrice x rate) in
  let outputDesc := billing_text "输出 {{completion}} tokens / 1M tokens * {{symbol}}{{compPrice}}) * {{ratioType}} {{ratio}}"
    ["completion" ~> JNum (count_field o "completion_tokens"); "symbol" ~> symbol; "compPrice" ~> show completionRatioPrice;
     "ratio" ~> ratio; "ratioType" ~> JStr ratioLabel] in
  let audioPrice := when (flag_field o "audio_input_seperate_price")
    (js "，" ++ billing_text "音频输入价格" [] ++ js " " ++ String_of symbol ++
     formatBillingDisplayPrice (count_field o "audio_input_price") rate ++ js " / 1M tokens") in
  renderBillingArticle t
    [price_text "输入价格：{{symbol}}{{price}} / 1M tokens{{audioPrice}}" symbol inputRatioPrice rate "price" ["audioPrice" ~> JStr audioPrice];
     price_text "输出价格：{{symbol}}{{total}} / 1M tokens" symbol completionRatioPrice rate "total" [];
     when (has (count_field o "cache_tokens"))
       (price_text "缓存读取价格：{{symbol}}{{total}} / 1M tokens" symbol (nmul inputRatioPrice (ratio_field o "cache_ratio")) rate "total" []);
     when (with_image o)
       (price_text "图片输入价格：{{symbol}}{{total}} / 1M tokens" symbol (unit_price modelRatio (ratio_field o "image_ratio")) rate "total" []);
     when (web_searched o) (price_text "Web搜索价格：{{symbol}}{{price}} / 1K 次" symbol (count_field o "web_search_price") rate "price" []);
     when (file_searched o) (price_text "文件搜索价格：{{symbol}}{{price}} / 1K 次" symbol (count_field o "file_search_price") rate "price" []);
     when (image_generated o) (price_text "图片生成调用：{{symbol}}{{price}} / 1次" symbol (count_field o "image_generation_call_price") rate "price" []);
     billing_text "{{inputDesc}} + {{outputDesc}}{{extraServices}} = {{symbol}}{{total}}"
       ["inputDesc" ~> JStr (model_input_desc o); "outputDesc" ~> JStr outputDesc; "extraServices" ~> JStr (model_extra_services o);
        "symbol" ~> symbol; "total" ~> show (model_total o)]] true.

(** *** The ratio mode *)

Definition ratio_value (o : jval) (k : string) : num := formatRatioValue (JNum (ratio_field o k)).
Definition model_ratio_value (o : jval) : num := formatRatioValue (JNum (count_field o "model_ratio")).
Definition completion_ratio_value (o : jval) : num := formatRatioValue (JNum (or_zero o "completion_ratio")).
Definition model_audio_ratio (o : jval) : option num :=
  let audioInputPrice := count_field o "audio_input_price" in
  if flag_field o "audio_input_seperate_price" && has audioInputPrice
  then Some (formatRatioValue (JNum (ndiv audioInputPrice (nmul (count_field o "model_ratio") (num_of_Z 2))))) else None.

(** [Math.max(x, 0)] of a number *)
Definition max_zero (x : num) : num := if isNaN x then nan else if nlt x nzero then nzero else if neq x nzero then nzero else x.

Definition text_input_tokens (o : jval) : num :=
  max_zero (nsub (nsub (count_field o "prompt_tokens") (count_field o "cache_tokens")) (count_field o "audio_input_token_count")).
Definition image_input_tokens (o : jval) : num := if with_image o then count_field o "image_output" else nzero.

(** The eight amounts in the order they are added. *)
Definition model_amounts (o : jval) : list num :=
  let groupRatio := Number_of (group_of o).1 in
  let inputRatioPrice := nmul (count_field o "model_ratio") (num_of_Z 2) in
  let scaled tokens ratio := nmul (nmul (nmul (ndiv tokens million) inputRatioPrice) ratio) groupRatio in
  let calls k p := nmul (nmul (ndiv (count_field o k) thousand) (count_field o p)) groupRatio in
  [token_amount (text_input_tokens o) inputRatioPrice groupRatio;
   scaled (count_field o "cache_tokens") (ratio_value o "cache_ratio");
   scaled (image_input_tokens o) (ratio_value o "image_ratio");
   token_amount (count_field o "audio_input_token_count") (count_field o "audio_input_price") groupRatio;
   token_amount (count_field o "completion_tokens") (unit_price (count_field o "model_ratio") (completion_ratio_value o)) groupRatio;
   calls "web_search_call_count" "web_search_price"; calls "file_search_call_count" "file_search_price";
   nmul (count_field o "image_generation_call_price") groupRatio].

(** Which of them have a line. *)
Definition model_shown (o : jval) : list bool :=
  [has (text_input_tokens o); has (count_field o "cache_tokens"); has (image_input_tokens o);
   has (count_field o "audio_input_token_count") && (match model_audio_ratio o with Some _ => true | None => false end);
   true; web_searched o; file_searched o; image_generated o].

(** [a + b + ...] from the left *)
Definition sum_of (l : list num) : num := match l with [] => nzero | x :: l' => fold_left nadd l' x end.
Definition model_ratio_total (o : jval) : num := sum_of (model_amounts o).

Definition model_ratio_head (o : jval) : jsstr :=
  let '(ratio, ratioLabel) := group_of o in
  joinBillingSummary
    [billing_text "模型倍率 {{modelRatio}}" ["modelRatio" ~> JNum (model_ratio_value o)];
     billing_text "补全倍率 {{completionRatio}}" ["completionRatio" ~> JNum (completion_ratio_value o)];
     when (has (count_field o "cache_tokens")) (billing_text "缓存倍率 {{cacheRatio}}" ["cacheRatio" ~> JNum (ratio_value o "cache_ratio")]);
     when (has (image_input_tokens o)) (billing_text "图片倍率 {{imageRatio}}" ["imageRatio" ~> JNum (ratio_value o "image_ratio")]);
     match model_audio_ratio o with Some r => billing_text "音频倍率 {{audioRatio}}" ["audioRatio" ~> JNum r] | None => [] end;
     billing_text "{{ratioType}} {{ratio}}" ["ratioType" ~> JStr ratioLabel; "ratio" ~> ratio]].

(** The line of each amount. *)
Definition model_ratio_texts (o : jval) : list (num → jsstr) :=
  let '(ratio, ratioLabel) := group_of o in
  let amount x := "amount" ~> renderDisplayAmountFromUsd getItem x in
  let group := ["ratioType" ~> JStr ratioLabel; "ratio" ~> ratio] in
  let m := "modelRatio" ~> JNum (model_ratio_value o) in
  let tokens x := "tokens" ~> JNum x in
  [λ x, billing_text "普通输入：{{tokens}} / 1M * 模型倍率 {{modelRatio}} * {{ratioType}} {{ratio}} = {{amount}}"
          ([tokens (text_input_tokens o); m] ++ group ++ [amount x]);
   λ x, billing_text "缓存输入：{{tokens}} / 1M * 模型倍率 {{modelRatio}} * 缓存倍率 {{cacheRatio}} * {{ratioType}} {{ratio}} = {{amount}}"
          ([tokens (count_field o "cache_tokens"); m; "cacheRatio" ~> JNum (ratio_value o "cache_ratio")] ++ group ++ [amount x]);
   λ x, billing_text "图片输入：{{tokens}} / 1M * 模型倍率 {{modelRatio}} * 图片倍率 {{imageRatio}} * {{ratioType}} {{ratio}} = {{amount}}"
          ([tokens (image_input_tokens o); m; "imageRatio" ~> JNum (ratio_value o "image_ratio")] ++ group ++ [amount x]);
   λ x, billing_text "音频输入：{{tokens}} / 1M * 模型倍率 {{modelRatio}} * 音频倍率 {{audioRatio}} * {{ratioType}} {{ratio}} = {{amount}}"
          ([tokens (count_field o "audio_input_token_count"); m; "audioRatio" ~> match model_audio_ratio o with Some r => JNum r | None => JNull end]
           ++ group ++ [amount x]);
   λ x, billing_text "输出：{{tokens}} / 1M * 模型倍率 {{modelRatio}} * 补全倍率 {{completionRatio}} * {{ratioType}} {{ratio}} = {{amount}}"
          ([tokens (count_field o "completion_tokens"); m; "completionRatio" ~> JNum (completion_ratio_value o)] ++ group ++ [amount x]);
   λ x, billing_text "Web 搜索：{{count}} / 1K * 单价 {{price}} * {{ratioType}} {{ratio}} = {{amount}}"
          (["count" ~> JNum (count_field o "web_search_call_count");
            "price" ~> renderDisplayAmountFromUsd getItem (count_field o "web_search_price")] ++ group ++ [amount x]);
   λ x, billing_text "文件搜索：{{count}} / 1K * 单价 {{price}} * {{ratioType}} {{ratio}} = {{amount}}"
          (["count" ~> JNum (count_field o "file_search_call_count");
            "price" ~> renderDisplayAmountFromUsd getItem (count_field o "file_search_price")] ++ group ++ [amount x]);
   λ x, billing_text "图片生成：1 次 * 单价 {{price}} * {{ratioType}} {{ratio}} = {{amount}}"
          (["price" ~> renderDisplayAmountFromUsd getItem (count_field o "image_generation_call_price")] ++ group ++ [amount x])].

Definition model_ratio_lines (o : jval) : list jsstr :=
  renderBillingArticle t
    ([model_ratio_head o] ++
     zip_with (λ bx text, when bx.1 (text bx.2)) (zip (model_shown o) (model_amounts o)) (model_ratio_texts o) ++
     [billing_text "合计：{{total}}" ["total" ~> renderDisplayAmountFromUsd getItem (model_ratio_total o)]]) true.

(** The ratio process is used for requests without a price only, so the text
    for a price behind it is never reached. *)
Definition renderModelPrice (opts : jval) : list jsstr :=
  if negb (shouldUseRatioBillingProcess getItem (price_field opts)) then
    if has_price (price_field opts) then
      per_call_lines "按次：{{symbol}}{{price}}" "按次 {{symbol}}{{price}} * {{ratioType}} {{ratio}} = {{symbol}}{{total}}" opts
    else model_price_lines opts
  else model_ratio_lines opts.

(** ** The one-line text of a log entry *)

(** [appendPricePart] *)
Definition price_part (b : bool) (key : string) (symbol : jval) (x : num) (rate : jval) : list jsstr :=
  part b (billing_text key ["symbol" ~> symbol; "price" ~> fixed6 (nmul x (Number_of rate))]).

Definition plain_ratio (o : jval) (k : string) : num := Number_of (read o (js k)).

Definition fixed_price_summary (o : jval) : jsstr :=
  let '(symbol, rate, _) := getCurrencyConfig getItem in
  joinBillingSummary
    [billing_text "模型价格 {{symbol}}{{price}} / 次" ["symbol" ~> symbol; "price" ~> fixed6 (nmul (Number_of (price_field o)) (Number_of rate))];
     getGroupRatioText t (read o (js "group_ratio")) (read o (js "user_group_ratio"))].

(** [modelRatio * 2.0 * ratio * rate] *)
Definition log_price_parts (o : jval) : list jsstr :=
  let '(symbol, rate, _) := getCurrencyConfig getItem in
  let modelRatio := plain_ratio o "model_ratio" in
  let cacheRatio := ratio_field o "cache_ratio" in
  price_part true "输入价格 {{symbol}}{{price}} / 1M tokens" symbol (nmul modelRatio (num_of_Z 2)) rate ++
  price_part true "输出价格 {{symbol}}{{price}} / 1M tokens" symbol (unit_price modelRatio (plain_ratio o "completion_ratio")) rate ++
  price_part (negb (neq cacheRatio one)) "缓存读取价格 {{symbol}}{{price}} / 1M tokens" symbol (unit_price modelRatio cacheRatio) rate ++
  price_part (flag_field o "image") "图片输入价格 {{symbol}}{{price}} / 1M tokens" symbol (unit_price modelRatio (ratio_field o "image_ratio")) rate ++
  part (flag_field o "web_search") (billing_text "Web 搜索调用 {{webSearchCallCount}} 次" ["webSearchCallCount" ~> JNum (count_field o "web_search_call_count")]) ++
  part (flag_field o "file_search") (billing_text "文件搜索调用 {{fileSearchCallCount}} 次" ["fileSearchCallCount" ~> JNum (count_field o "file_search_call_count")]).

(** In the ratio mode there is no price, so that branch ends here too. *)
Definition renderLogContent (opts : jval) : jsstr :=
  let '(ratio, ratioLabel) := group_of opts in
  let base := ["modelRatio" ~> read opts (js "model_ratio"); "cacheRatio" ~> JNum (ratio_field opts "cache_ratio");
               "completionRatio" ~> read opts (js "completion_ratio")] in
  let group := ["ratioType" ~> JStr ratioLabel; "ratio" ~> ratio] in
  if isPriceDisplayMode getItem (read opts (js "displayMode")) (price_field opts) then
    if has_price (price_field opts) then fixed_price_summary opts
    else joinBillingSummary (log_price_parts opts ++ [getGroupRatioText t (read opts (js "group_ratio")) (read opts (js "user_group_ratio"))])
  else if flag_field opts "image" then
    billing_text "模型倍率 {{modelRatio}}，缓存倍率 {{cacheRatio}}，输出倍率 {{completionRatio}}，图片输入倍率 {{imageRatio}}，{{ratioType}} {{ratio}}"
      (base ++ ["imageRatio" ~> JNum (ratio_field opts "image_ratio")] ++ group)
  else if flag_field opts "web_search" then
    billing_text "模型倍率 {{modelRatio}}，缓存倍率 {{cacheRatio}}，输出倍率 {{completionRatio}}，{{ratioType}} {{ratio}}，Web 搜索调用 {{webSearchCallCount}} 次"
      (base ++ group ++ ["webSearchCallCount" ~> JNum (count_field opts "web_search_call_count")])
  else billing_text "模型倍率 {{modelRatio}}，缓存倍率 {{cacheRatio}}，输出倍率 {{completionRatio}}，{{ratioType}} {{ratio}}" (base ++ group).

(** ** The full explanation: audio models *)

(** The ratios of a request, as logged or rounded to six decimals. *)
Record audio_ratios := AudioRatios { ar_completion : num; ar_cache : num; ar_audio : num; ar_audioCompletion : num }.

(** [parseFloat(_audioRatio ?? 0).toFixed(6)], a text *)
Definition audio_ratio_text (o : jval) : jsstr := toFixed 6 (parseFloat (String_of (js_nullish (read o (js "audio_ratio")) (JNum nzero)))).
Definition logged_audio_ratios (o : jval) : audio_ratios :=
  AudioRatios (or_zero o "completion_ratio") (ratio_field o "cache_ratio") (Number_of_string (audio_ratio_text o)) (or_zero o "audio_completion_ratio").
Definition rounded_audio_ratios (o : jval) : audio_ratios :=
  AudioRatios (completion_ratio_value o) (ratio_value o "cache_ratio") (formatRatioValue (JStr (audio_ratio_text o)))
    (formatRatioValue (JNum (or_zero o "audio_completion_ratio"))).

(** [textPrice] and [audioPrice] *)
Definition audio_totals (o : jval) (r : audio_ratios) : num * num :=
  let groupRatio := Number_of (group_of o).1 in
  let modelRatio := count_field o "model_ratio" in
  let inputRatioPrice := nmul modelRatio (num_of_Z 2) in
  let inputTokens := count_field o "prompt_tokens" in
  let cacheTokens := count_field o "cache_tokens" in
  (nadd (token_amount (nadd (nsub inputTokens cacheTokens) (nmul cacheTokens (ar_cache r))) inputRatioPrice groupRatio)
        (token_amount (count_field o "completion_tokens") (unit_price modelRatio (ar_completion r)) groupRatio),
   nadd (nmul (nmul (nmul (ndiv (count_field o "audio_input") million) inputRatioPrice) (ar_audio r)) groupRatio)
        (nmul (nmul (nmul (nmul (ndiv (count_field o "audio_output") million) inputRatioPrice) (ar_audio r)) (ar_audioCompletion r)) groupRatio)).
Definition audio_total (o : jval) (r : audio_ratios) : num := let '(textPrice, audioPrice) := audio_totals o r in nadd textPrice audioPrice.

Definition audio_price_lines (o : jval) : list jsstr :=
  let '(ratio, ratioLabel) := group_of o in
  let '(symbol, rate, _) := getCurrencyConfig getItem in
  let r := logged_audio_ratios o in
  let modelRatio := count_field o "model_ratio" in
  let inputRatioPrice := nmul modelRatio (num_of_Z 2) in
  let completionRatioPrice := unit_price modelRatio (ar_completion r) in
  let show x := JStr (formatBillingDisplayPrice x rate) in
  let line key x := price_text key symbol x rate "price" [] in
  renderBillingArticle t
    [line "输入价格：{{symbol}}{{price}} / 1M tokens" inputRatioPrice;
     line "输出价格：{{symbol}}{{price}} / 1M tokens" completionRatioPrice;
     when (has (count_field o "cache_tokens")) (line "缓存读取价格：{{symbol}}{{price}} / 1M tokens" (nmul inputRatioPrice (ar_cache r)));
     line "音频输入价格：{{symbol}}{{price}} / 1M tokens" (nmul inputRatioPrice (ar_audio r));
     line "音频补全价格：{{symbol}}{{price}} / 1M tokens" (nmul (nmul inputRatioPrice (ar_audio r)) (ar_audioCompletion r));
     billing_text "文字提示 {{input}} tokens / 1M tokens * {{symbol}}{{textInputPrice}} + 文字补全 {{completion}} tokens / 1M tokens * {{symbol}}{{textCompPrice}} + 音频提示 {{audioInput}} tokens / 1M tokens * {{symbol}}{{audioInputPrice}} + 音频补全 {{audioCompletion}} tokens / 1M tokens * {{symbol}}{{audioCompPrice}} * {{ratioType}} {{ratio}} = {{symbol}}{{total}}"
       ["input" ~> JNum (count_field o "prompt_tokens"); "completion" ~> JNum (count_field o "completion_tokens");
        "audioInput" ~> JNum (count_field o "audio_input"); "audioCompletion" ~> JNum (count_field o "audio_output");
        "textInputPrice" ~> show inputRatioPrice; "textCompPrice" ~> show completionRatioPrice;
        "audioInputPrice" ~> show (nmul (ar_audio r) inputRatioPrice);
        "audioCompPrice" ~> show (nmul (nmul (ar_audio r) (ar_audioCompletion r)) inputRatioPrice);
        "ratioType" ~> JStr ratioLabel; "ratio" ~> ratio; "symbol" ~> symbol; "total" ~> show (audio_total o r)]] true.

Definition audio_ratio_lines (o : jval) : list jsstr :=
  let '(ratio, ratioLabel) := group_of o in
  let r := rounded_audio_ratios o in
  let groupRatio := Number_of ratio in
  let inputRatioPrice := nmul (count_field o "model_ratio") (num_of_Z 2) in
  let cacheTokens := count_field o "cache_tokens" in
  let plain := max_zero (nsub (count_field o "prompt_tokens") cacheTokens) in
  let scaled tokens x := nmul (nmul (nmul (ndiv tokens million) inputRatioPrice) x) groupRatio in
  let shown x := renderDisplayAmountFromUsd getItem x in
  let group := ["ratioType" ~> JStr ratioLabel; "ratio" ~> ratio] in
  let m := "modelRatio" ~> JNum (model_ratio_value o) in
  let c := "completionRatio" ~> JNum (ar_completion r) in
  let a := "audioRatio" ~> JNum (ar_audio r) in
  let ac := "audioCompletionRatio" ~> JNum (ar_audioCompletion r) in
  let line key tokens vars x := billing_text key (["tokens" ~> JNum tokens; m] ++ vars ++ group ++ ["amount" ~> shown x]) in
  let '(textPrice, audioPrice) := audio_totals o r in
  renderBillingArticle t
    [billing_text "模型倍率 {{modelRatio}}，补全倍率 {{completionRatio}}，音频倍率 {{audioRatio}}，音频补全倍率 {{audioCompletionRatio}}，{{cachePart}}{{ratioType}} {{ratio}}"
       ([m; c; a; ac; "cachePart" ~> JStr (when (has cacheTokens) (billing_text "缓存倍率" [] ++ js " " ++ String_of_num (ar_cache r) ++ js "，"))] ++ group);
     line "普通输入：{{tokens}} / 1M * 模型倍率 {{modelRatio}} * {{ratioType}} {{ratio}} = {{amount}}" plain [] (token_amount plain inputRatioPrice groupRatio);
     when (has cacheTokens)
       (line "缓存输入：{{tokens}} / 1M * 模型倍率 {{modelRatio}} * 缓存倍率 {{cacheRatio}} * {{ratioType}} {{ratio}} = {{amount}}" cacheTokens
          ["cacheRatio" ~> JNum (ar_cache r)] (scaled cacheTokens (ar_cache r)));
     line "文字输出：{{tokens}} / 1M * 模型倍率 {{modelRatio}} * 补全倍率 {{completionRatio}} * {{ratioType}} {{ratio}} = {{amount}}"
       (count_field o "completion_tokens") [c] (scaled (count_field o "completion_tokens") (ar_completion r));
     line "音频输入：{{tokens}} / 1M * 模型倍率 {{modelRatio}} * 音频倍率 {{audioRatio}} * {{ratioType}} {{ratio}} = {{amount}}"
       (count_field o "audio_input") [a] (scaled (count_field o "audio_input") (ar_audio r));
     line "音频输出：{{tokens}} / 1M * 模型倍率 {{modelRatio}} * 音频倍率 {{audioRatio}} * 音频补全倍率 {{audioCompletionRatio}} * {{ratioType}} {{ratio}} = {{amount}}"
       (count_field o "audio_output") [a; ac]
       (nmul (nmul (nmul (nmul (ndiv (count_field o "audio_output") million) inputRatioPrice) (ar_audio r)) (ar_audioCompletion r)) groupRatio);
     billing_text "合计：文字部分 {{textTotal}} + 音频部分 {{audioTotal}} = {{total}}"
       ["textTotal" ~> shown textPrice; "audioTotal" ~> shown audioPrice; "total" ~> shown (audio_total o r)]] true.

Definition renderAudioModelPrice (opts : jval) : list jsstr :=
  if negb (shouldUseRatioBillingProcess getItem (price_field opts)) then
    if has_price (price_field opts) then
      per_call_lines "模型价格：{{symbol}}{{price}} / 次" "模型价格 {{symbol}}{{price}} / 次 * {{ratioType}} {{ratio}} = {{symbol}}{{total}}" opts
    else audio_price_lines opts
  else audio_ratio_lines opts.

(** ** The full explanation: Claude models *)

Record claude_ratios := ClaudeRatios { cl_completion : num; cl_cache : num; cl_creation : num; cl_creation5m : num; cl_creation1h : num }.
Definition logged_claude_ratios (o : jval) : claude_ratios :=
  ClaudeRatios (or_zero o "completion_ratio") (ratio_field o "cache_ratio") (ratio_field o "cache_creation_ratio")
    (ratio_field o "cache_creation_ratio_5m") (ratio_field o "cache_creation_ratio_1h").
Definition rounded_claude_ratios (o : jval) : claude_ratios :=
  ClaudeRatios (completion_ratio_value o) (ratio_value o "cache_ratio") (ratio_value o "cache_creation_ratio")
    (ratio_value o "cache_creation_ratio_5m") (ratio_value o "cache_creation_ratio_1h").

Definition claude_split (o : jval) : bool := has (count_field o "cache_creation_tokens_5m") || has (count_field o "cache_creation_tokens_1h").
Definition claude_legacy (o : jval) : bool := negb (claude_split o) && has (count_field o "cache_creation_tokens").
Definition claude_5m (o : jval) : bool := claude_split o && has (count_field o "cache_creation_tokens_5m").
Definition claude_1h (o : jval) : bool := claude_split o && has (count_field o "cache_creation_tokens_1h").

(** The total of both modes. *)
Definition claude_total (o : jval) (r : claude_ratios) : num :=
  let groupRatio := Number_of (group_of o).1 in
  let modelRatio := count_field o "model_ratio" in
  let inputRatioPrice := nmul modelRatio (num_of_Z 2) in
  let legacyCacheCreationTokens := if claude_split o then nzero else count_field o "cache_creation_tokens" in
  let effectiveInputTokens :=
    nadd (nadd (nadd (nadd (count_field o "prompt_tokens") (nmul (count_field o "cache_tokens") (cl_cache r)))
      (nmul legacyCacheCreationTokens (cl_creation r)))
      (nmul (count_field o "cache_creation_tokens_5m") (cl_creation5m r)))
      (nmul (count_field o "cache_creation_tokens_1h") (cl_creation1h r)) in
  nadd (token_amount effectiveInputTokens inputRatioPrice groupRatio)
       (token_amount (count_field o "completion_tokens") (unit_price modelRatio (cl_completion r)) groupRatio).

Definition claude_breakdown (o : jval) : jsstr :=
  let '(symbol, rate, _) := getCurrencyConfig getItem in
  let r := logged_claude_ratios o in
  let modelRatio := count_field o "model_ratio" in
  let priced key name tokens x := billing_text key [name ~> JNum tokens; "symbol" ~> symbol; "price" ~> fixed6 (nmul x (Number_of rate))] in
  join (js " + ")
    ([priced "提示 {{input}} tokens / 1M tokens * {{symbol}}{{price}}" "input" (count_field o "prompt_tokens") (nmul modelRatio (num_of_Z 2))] ++
     part (has (count_field o "cache_tokens"))
       (priced "缓存 {{tokens}} tokens / 1M tokens * {{symbol}}{{price}}" "tokens" (count_field o "cache_tokens") (unit_price modelRatio (cl_cache r))) ++
     part (claude_legacy o)
       (priced "缓存创建 {{tokens}} tokens / 1M tokens * {{symbol}}{{price}}" "tokens" (count_field o "cache_creation_tokens") (unit_price modelRatio (cl_creation r))) ++
     part (claude_5m o)
       (priced "5m缓存创建 {{tokens}} tokens / 1M tokens * {{symbol}}{{price}}" "tokens" (count_field o "cache_creation_tokens_5m") (unit_price modelRatio (cl_creation5m r))) ++
     part (claude_1h o)
       (priced "1h缓存创建 {{tokens}} tokens / 1M tokens * {{symbol}}{{price}}" "tokens" (count_field o "cache_creation_tokens_1h") (unit_price modelRatio (cl_creation1h r))) ++
     [priced "补全 {{completion}} tokens / 1M tokens * {{symbol}}{{price}}" "completion" (count_field o "completion_tokens") (unit_price modelRatio (cl_completion r))]).

Definition claude_price_lines (o : jval) : list jsstr :=
  let '(ratio, ratioLabel) := group_of o in
  let '(symbol, rate, _) := getCurrencyConfig getItem in
  let r := logged_claude_ratios o in
  let modelRatio := count_field o "model_ratio" in
  let line key x := price_text key symbol x rate "price" [] in
  renderBillingArticle t
    [line "输入价格：{{symbol}}{{price}} / 1M tokens" (nmul modelRatio (num_of_Z 2));
     line "输出价格：{{symbol}}{{price}} / 1M tokens" (unit_price modelRatio (cl_completion r));
     when (has (count_field o "cache_tokens")) (line "缓存读取价格：{{symbol}}{{price}} / 1M tokens" (unit_price modelRatio (cl_cache r)));
     when (claude_legacy o) (line "缓存创建价格：{{symbol}}{{price}} / 1M tokens" (unit_price modelRatio (cl_creation r)));
     when (claude_5m o) (line "5m缓存创建价格：{{symbol}}{{price}} / 1M tokens" (unit_price modelRatio (cl_creation5m r)));
     when (claude_1h o) (line "1h缓存创建价格：{{symbol}}{{price}} / 1M tokens" (unit_price modelRatio (cl_creation1h r)));
     billing_text "{{breakdown}} * {{ratioType}} {{ratio}} = {{symbol}}{{total}}"
       ["breakdown" ~> JStr (claude_breakdown o); "ratioType" ~> JStr ratioLabel; "ratio" ~> ratio; "symbol" ~> symbol;
        "total" ~> JStr (formatBillingDisplayPrice (claude_total o r) rate)]] true.

Definition claude_ratio_lines (o : jval) : list jsstr :=
  let '(ratio, ratioLabel) := group_of o in
  let r := rounded_claude_ratios o in
  let groupRatio := Number_of ratio in
  let inputRatioPrice := nmul (count_field o "model_ratio") (num_of_Z 2) in
  let scaled tokens x := nmul (nmul (nmul (ndiv tokens million) inputRatioPrice) x) groupRatio in
  let shown x := renderDisplayAmountFromUsd getItem x in
  let group := ["ratioType" ~> JStr ratioLabel; "ratio" ~> ratio] in
  let m := "modelRatio" ~> JNum (model_ratio_value o) in
  let c := "completionRatio" ~> JNum (cl_completion r) in
  let five := "cacheCreationRatio5m" ~> JNum (cl_creation5m r) in
  let hour := "cacheCreationRatio1h" ~> JNum (cl_creation1h r) in
  let line key k vars x := billing_text key (["tokens" ~> JNum (count_field o k); m] ++ vars ++ group ++ ["amount" ~> shown x]) in
  renderBillingArticle t
    [billing_text "模型倍率 {{modelRatio}}，输出倍率 {{completionRatio}}，缓存倍率 {{cacheRatio}}，{{ratioType}} {{ratio}}"
       ([m; c; "cacheRatio" ~> JNum (cl_cache r)] ++ group);
     (if claude_split o then billing_text "缓存创建倍率 5m {{cacheCreationRatio5m}} / 1h {{cacheCreationRatio1h}}" [five; hour]
      else billing_text "缓存创建倍率 {{cacheCreationRatio}}" ["cacheCreationRatio" ~> JNum (cl_creation r)]);
     line "普通输入：{{tokens}} / 1M * 模型倍率 {{modelRatio}} * {{ratioType}} {{ratio}} = {{amount}}" "prompt_tokens" []
       (token_amount (count_field o "prompt_tokens") inputRatioPrice groupRatio);
     when (has (count_field o "cache_tokens"))
       (line "缓存读取：{{tokens}} / 1M * 模型倍率 {{modelRatio}} * 缓存倍率 {{cacheRatio}} * {{ratioType}} {{ratio}} = {{amount}}" "cache_tokens"
          ["cacheRatio" ~> JNum (cl_cache r)] (scaled (count_field o "cache_tokens") (cl_cache r)));
     when (claude_legacy o)
       (line "缓存创建：{{tokens}} / 1M * 模型倍率 {{modelRatio}} * 缓存创建倍率 {{cacheCreationRatio}} * {{ratioType}} {{ratio}} = {{amount}}" "cache_creation_tokens"
          ["cacheCreationRatio" ~> JNum (cl_creation r)] (scaled (count_field o "cache_creation_tokens") (cl_creation r)));
     when (claude_5m o)
       (line "5m缓存创建：{{tokens}} / 1M * 模型倍率 {{modelRatio}} * 5m缓存创建倍率 {{cacheCreationRatio5m}} * {{ratioType}} {{ratio}} = {{amount}}"
          "cache_creation_tokens_5m" [five] (scaled (count_field o "cache_creation_tokens_5m") (cl_creation5m r)));
     when (claude_1h o)
       (line "1h缓存创建：{{tokens}} / 1M * 模型倍率 {{modelRatio}} * 1h缓存创建倍率 {{cacheCreationRatio1h}} * {{ratioType}} {{ratio}} = {{amount}}"
          "cache_creation_tokens_1h" [hour] (scaled (count_field o "cache_creation_tokens_1h") (cl_creation1h r)));
     billing_text "补全 {{completion}} tokens * 输出倍率 {{completionRatio}}" ["completion" ~> JNum (count_field o "completion_tokens"); c];
     line "输出：{{tokens}} / 1M * 模型倍率 {{modelRatio}} * 输出倍率 {{completionRatio}} * {{ratioType}} {{ratio}} = {{amount}}" "completion_tokens" [c]
       (scaled (count_field o "completion_tokens") (cl_completion r));
     billing_text "合计：{{total}}" ["total" ~> shown (claude_total o r)]] true.

Definition renderClaudeModelPrice (opts : jval) : list jsstr :=
  if negb (shouldUseRatioBillingProcess getItem (price_field opts)) then
    if has_price (price_field opts) then
      per_call_lines "模型价格：{{symbol}}{{price}} / 次" "模型价格 {{symbol}}{{price}} / 次 * {{ratioType}} {{ratio}} = {{symbol}}{{total}}" opts
    else claude_price_lines opts
  else claude_ratio_lines opts.

Definition claude_price_parts (o : jval) : list jsstr :=
  let '(symbol, rate, _) := getCurrencyConfig getItem in
  let modelRatio := plain_ratio o "model_ratio" in
  price_part true "输入价格 {{symbol}}{{price}} / 1M tokens" symbol (nmul modelRatio (num_of_Z 2)) rate ++
  price_part true "输出价格 {{symbol}}{{price}} / 1M tokens" symbol (unit_price modelRatio (plain_ratio o "completion_ratio")) rate ++
  price_part true "缓存读取价格 {{symbol}}{{price}} / 1M tokens" symbol (unit_price modelRatio (ratio_field o "cache_ratio")) rate ++
  price_part (claude_5m o) "5m缓存创建价格 {{symbol}}{{price}} / 1M tokens" symbol (unit_price modelRatio (ratio_field o "cache_creation_ratio_5m")) rate ++
  price_part (claude_1h o) "1h缓存创建价格 {{symbol}}{{price}} / 1M tokens" symbol (unit_price modelRatio (ratio_field o "cache_creation_ratio_1h")) rate ++
  price_part (negb (claude_split o)) "缓存创建价格 {{symbol}}{{price}} / 1M tokens" symbol (unit_price modelRatio (ratio_field o "cache_creation_ratio")) rate.

Definition claude_creation_part (o : jval) : jsstr :=
  let five := "cacheCreationRatio5m" ~> JNum (ratio_field o "cache_creation_ratio_5m") in
  let hour := "cacheCreationRatio1h" ~> JNum (ratio_field o "cache_creation_ratio_1h") in
  let split := if claude_5m o && claude_1h o then billing_text "缓存创建倍率 5m {{cacheCreationRatio5m}} / 1h {{cacheCreationRatio1h}}" [five; hour]
               else if claude_5m o then billing_text "缓存创建倍率 5m {{cacheCreationRatio5m}}" [five]
               else when (claude_1h o) (billing_text "缓存创建倍率 1h {{cacheCreationRatio1h}}" [hour]) in
  if is_empty split then billing_text "缓存创建倍率 {{cacheCreationRatio}}" ["cacheCreationRatio" ~> JNum (ratio_field o "cache_creation_ratio")]
  else split.

Definition renderClaudeLogContent (opts : jval) : jsstr :=
  let '(ratio, ratioLabel) := group_of opts in
  if isPriceDisplayMode getItem (read opts (js "displayMode")) (price_field opts) then
    if has_price (price_field opts) then fixed_price_summary opts
    else joinBillingSummary (claude_price_parts opts ++ [getGroupRatioText t (read opts (js "group_ratio")) (read opts (js "user_group_ratio"))])
  else
    join (js "，")
      [billing_text "模型倍率 {{modelRatio}}" ["modelRatio" ~> read opts (js "model_ratio")];
       billing_text "输出倍率 {{completionRatio}}" ["completionRatio" ~> read opts (js "completion_ratio")];
       billing_text "缓存倍率 {{cacheRatio}}" ["cacheRatio" ~> JNum (ratio_field opts "cache_ratio")];
       claude_creation_part opts;
       billing_text "{{ratioType}} {{ratio}}" ["ratioType" ~> JStr ratioLabel; "ratio" ~> ratio]].
End Billing.
