(* ===== verification/BillingTheorems.v ===== *)
(** * Billing texts of the usage log: theorems

    The lines of a breakdown add up to its total, to the last bit of the
    floating-point sum; tokens of images are counted twice where the site shows
    tokens. *)

From S2P Require Import Prelude JsString JsRegex JsNumber Json JsObject Render Billing.

(** ** Sums of amounts *)

(** Not negative, or not a number. *)
Definition unsigned (x : num) : bool :=
  match x with S754_zero s | S754_infinity s | S754_finite s _ _ => negb s | S754_nan => true end.
(** A finite number that is not negative. *)
Definition sane (x : num) : bool := isFinite x && unsigned x.

Lemma round_unsigned mx ex lx : unsigned (binary_round_aux prec emax false mx ex lx) = true.
Proof. unfold binary_round_aux. repeat case_match; try done; simplify_eq. Qed.

Lemma mul_unsigned x y : unsigned x = true → unsigned y = true → unsigned (nmul x y) = true.
Proof.
  destruct x as [[]|[]| |[] mx ex], y as [[]|[]| |[] my ey]; try done. intros _ _. unfold nmul, SFmul. apply round_unsigned.
Qed.

Lemma div_unsigned x y : unsigned x = true → unsigned y = true → unsigned (ndiv x y) = true.
Proof.
  destruct x as [[]|[]| |[] mx ex], y as [[]|[]| |[] my ey]; try done. intros _ _. unfold ndiv, SFdiv.
  destruct (SFdiv_core_binary _ _ _ _ _ _) as [[m e] l]. apply round_unsigned.
Qed.

Lemma add_unsigned x y : unsigned x = true → unsigned y = true → unsigned (nadd x y) = true.
Proof.
  destruct x as [[]|[]| |[] mx ex], y as [[]|[]| |[] my ey]; try done. intros _ _. unfold nadd, SFadd. cbn [cond_Zopp].
  unfold binary_normalize. set (z := (_ + _)%Z). assert (Hz : (0 < z)%Z) by (subst z; lia). destruct z as [|p|p]; [done| |lia].
  unfold binary_round. destruct (shl_align _ _ _). apply round_unsigned.
Qed.

Lemma add_zero x : unsigned x = true → nadd x nzero = x ∧ nadd nzero x = x.
Proof. by destruct x as [[]|[]| |[] mx ex]. Qed.

Lemma sum_from_zero l : Forall (λ x, unsigned x = true) l → sum_of l = fold_left nadd l nzero.
Proof. destruct l as [|x l]; [done|]. intros [H _]%Forall_cons. cbn [sum_of fold_left]. by rewrite (proj2 (add_zero x H)). Qed.

(** Amounts of zero may be left out of a sum. *)
Lemma sum_shown (bs : list bool) l :
  length bs = length l → Forall (λ x, unsigned x = true) l → (∀ x, (false, x) ∈ zip bs l → x = nzero) →
  sum_of l = sum_of (map snd (List.filter fst (zip bs l))).
Proof.
  intros Hlen Hl Hz. rewrite !sum_from_zero; [| |done].
  - assert (H : ∀ acc, unsigned acc = true → fold_left nadd l acc = fold_left nadd (map snd (List.filter fst (zip bs l))) acc); [|by apply H].
    revert bs Hlen Hz. induction Hl as [|x l Hx Hl IH]; intros [|b bs] Hlen Hz acc Ha; try done.
    cbn [zip zip_with List.filter fst map]. cbn [length] in Hlen. injection Hlen as Hlen.
    assert (Hz' : ∀ y, (false, y) ∈ zip bs l → y = nzero) by (intros y Hy; apply Hz; by right).
    destruct b; cbn [map snd fold_left].
    + apply IH; [done|done|by apply add_unsigned].
    + rewrite (Hz x) by (by left). rewrite (proj1 (add_zero acc Ha)). by apply IH.
  - rewrite Forall_forall in Hl |- *. intros x Hx. apply Hl. apply list_elem_of_fmap in Hx as ([b y] & -> & Hy).
    apply list_elem_of_In, filter_In in Hy as [Hy _]. apply list_elem_of_In in Hy. by eapply elem_of_zip_r.
Qed.

(** ** The breakdown of a chat request *)

Lemma sane_hidden x : sane x = true → has x = false → x = nzero.
Proof. by destruct x as [[]|[]| |[] m e]. Qed.

Lemma zero_times x : sane x = true → nmul nzero x = nzero ∧ nmul x nzero = nzero.
Proof. by destruct x as [[]|[]| |[] m e]. Qed.

Lemma zero_tokens : ndiv nzero million = nzero.
Proof. vm_compute. reflexivity. Qed.
Lemma zero_calls : ndiv nzero thousand = nzero.
Proof. vm_compute. reflexivity. Qed.

Lemma million_unsigned : unsigned million = true.
Proof. vm_compute. reflexivity. Qed.
Lemma thousand_unsigned : unsigned thousand = true.
Proof. vm_compute. reflexivity. Qed.

Lemma no_tokens p g : sane p = true → sane g = true → token_amount nzero p g = nzero.
Proof.
  intros Hp Hg. unfold token_amount. rewrite zero_tokens.
  by rewrite (proj1 (zero_times p Hp)), (proj1 (zero_times g Hg)).
Qed.

Lemma no_scaled p r g : sane p = true → sane r = true → sane g = true → nmul (nmul (nmul (ndiv nzero million) p) r) g = nzero.
Proof.
  intros Hp Hr Hg. rewrite zero_tokens.
  by rewrite (proj1 (zero_times p Hp)), (proj1 (zero_times r Hr)), (proj1 (zero_times g Hg)).
Qed.

Lemma sane_unsigned x : sane x = true → unsigned x = true.
Proof. by intros [_ Hx]%andb_true_iff. Qed.

Lemma product3 x d p g : unsigned x = true → unsigned d = true → unsigned p = true → unsigned g = true →
  unsigned (nmul (nmul (ndiv x d) p) g) = true.
Proof. auto using mul_unsigned, div_unsigned. Qed.
Lemma product4 x d p r g : unsigned x = true → unsigned d = true → unsigned p = true → unsigned r = true → unsigned g = true →
  unsigned (nmul (nmul (nmul (ndiv x d) p) r) g) = true.
Proof. auto using mul_unsigned, div_unsigned. Qed.

Lemma hidden_audio x p g : sane x = true → sane (ndiv x million) = true → sane p = true → sane g = true →
  has x = false ∨ has p = false → token_amount x p g = nzero.
Proof.
  intros Hx Hd Hp Hg [H|H]; [rewrite (sane_hidden x Hx H); by apply no_tokens|].
  rewrite (sane_hidden p Hp H). unfold token_amount. by rewrite (proj2 (zero_times _ Hd)), (proj1 (zero_times g Hg)).
Qed.

Lemma hidden_calls x p g : sane x = true → sane p = true → sane g = true → has x = false →
  nmul (nmul (ndiv x thousand) p) g = nzero.
Proof.
  intros Hx Hp Hg H. rewrite (sane_hidden x Hx H), zero_calls. by rewrite (proj1 (zero_times p Hp)), (proj1 (zero_times g Hg)).
Qed.

#[local] Opaque count_field ratio_field or_zero flag_field text_input_tokens image_input_tokens ratio_value completion_ratio_value
  unit_price million thousand group_of model_audio_ratio nmul ndiv sane.

Section Breakdown.
Context (t : jsstr → list (jsstr * jval) → jsstr) (o : jval).
Let groupRatio : num := Number_of (group_of t o).1.
Let inputRatioPrice : num := nmul (count_field o "model_ratio") (num_of_Z 2).

(** The numbers of the entry are finite and not negative. *)
Definition well_priced : bool :=
  forallb sane
    [text_input_tokens o; count_field o "cache_tokens"; image_input_tokens o; count_field o "audio_input_token_count";
     ndiv (count_field o "audio_input_token_count") million; count_field o "audio_input_price"; count_field o "completion_tokens";
     count_field o "web_search_call_count"; count_field o "web_search_price"; count_field o "file_search_call_count";
     count_field o "file_search_price"; count_field o "image_generation_call_price"; groupRatio; inputRatioPrice;
     ratio_value o "cache_ratio"; ratio_value o "image_ratio"; unit_price (count_field o "model_ratio") (completion_ratio_value o)].

(** Searches, separately priced audio and generated images are flagged as such. *)
Definition flagged : bool :=
  (flag_field o "web_search" || negb (has (count_field o "web_search_call_count")))
  && (flag_field o "file_search" || negb (has (count_field o "file_search_call_count")))
  && (flag_field o "image_generation_call" || negb (has (count_field o "image_generation_call_price")))
  && (flag_field o "audio_input_seperate_price" || negb (has (count_field o "audio_input_price"))).

Lemma model_amounts_unsigned : well_priced = true → Forall (λ x, unsigned x = true) (model_amounts t o).
Proof.
  intros H. unfold well_priced in H. rewrite forallb_Forall in H. repeat (apply Forall_cons in H as [? H]).
  unfold model_amounts. fold groupRatio inputRatioPrice.
  repeat (apply Forall_cons; split); [apply product3|apply product4|apply product4|apply product3|apply product3|apply product3|apply product3|apply mul_unsigned|];
    first [exact million_unsigned|exact thousand_unsigned|apply sane_unsigned; assumption|apply Forall_nil; exact I].
Qed.

Lemma hidden_amounts x : well_priced = true → flagged = true → (false, x) ∈ zip (model_shown o) (model_amounts t o) → x = nzero.
Proof.
  intros H Hf. unfold well_priced in H. rewrite forallb_Forall in H. repeat (apply Forall_cons in H as [? H]).
  unfold flagged in Hf. rewrite !andb_true_iff, !orb_true_iff, !negb_true_iff in Hf. destruct Hf as [[[Hw Hfs] Hg] Ha].
  unfold model_shown, model_amounts. fold groupRatio inputRatioPrice. cbn [zip zip_with]. rewrite !elem_of_cons, elem_of_nil.
  intros Hx. repeat destruct Hx as [Hx|Hx]; [..|destruct Hx]; injection Hx as Hb ->.
  - rewrite (sane_hidden (text_input_tokens o)) by congruence. apply no_tokens; assumption.
  - rewrite (sane_hidden (count_field o "cache_tokens")) by congruence. apply no_scaled; assumption.
  - rewrite (sane_hidden (image_input_tokens o)) by congruence. apply no_scaled; assumption.
  - apply (hidden_audio (count_field o "audio_input_token_count") (count_field o "audio_input_price")); [assumption..|].
    symmetry in Hb. apply andb_false_iff in Hb as [Hb|Hb]; [by left|right]. destruct Ha as [Ha|Ha]; [|exact Ha].
    revert Hb. with_strategy transparent [model_audio_ratio] unfold model_audio_ratio. rewrite Ha. cbn [andb].
    destruct (has (count_field o "audio_input_price")); [discriminate|reflexivity].
  - discriminate Hb.
  - apply hidden_calls; [assumption..|]. symmetry in Hb. apply andb_false_iff in Hb as [Hb|Hb]; [|exact Hb].
    destruct Hw as [Hw|Hw]; [congruence|exact Hw].
  - apply hidden_calls; [assumption..|]. symmetry in Hb. apply andb_false_iff in Hb as [Hb|Hb]; [|exact Hb].
    destruct Hfs as [Hfs|Hfs]; [congruence|exact Hfs].
  - rewrite (sane_hidden (count_field o "image_generation_call_price")); [apply zero_times; assumption|assumption|].
    symmetry in Hb. apply andb_false_iff in Hb as [Hb|Hb]; [|exact Hb]. destruct Hg as [Hg|Hg]; [congruence|exact Hg].
Qed.
End Breakdown.

(** The lines of the explanation: the amount of each and its text as a function of
    the amount *)
Definition lines_shown (getItem : jsstr → option jsstr) (t : jsstr → list (jsstr * jval) → jsstr) (o : jval) : list (num * (num → jsstr)) :=
  map (λ e, (e.1.2, e.2)) (List.filter (λ e, e.1.1) (zip (zip (model_shown o) (model_amounts t o)) (model_ratio_texts getItem t o))).

(** A line that is left out is as good as one that is empty. *)
Lemma lines_filtered (l : list (bool * num)) (fs : list (num → jsstr)) : length l = length fs →
  filter_truthy (zip_with (λ bx text, when bx.1 (text bx.2)) l fs) =
    filter_truthy (map (λ e, e.2 e.1) (map (λ e, (e.1.2, e.2)) (List.filter (λ e, e.1.1) (zip l fs)))) ∧
  map fst (map (λ e, (e.1.2, e.2)) (List.filter (λ e, e.1.1) (zip l fs))) = map snd (List.filter fst l).
Proof.
  revert fs. induction l as [|[b x] l IH]; intros [|f fs] Hl; try done. injection Hl as Hl. destruct (IH fs Hl) as [H1 H2].
  change (zip ((b, x) :: l) (f :: fs)) with ((b, x, f) :: zip l fs). cbn [zip_with List.filter fst snd]. unfold filter_truthy in *.
  destruct b; cbn [when map fst snd List.filter]; [|by rewrite H1, H2]. by rewrite H1, H2.
Qed.

Lemma texts_count getItem t o : length (model_ratio_texts getItem t o) = 8.
Proof. unfold model_ratio_texts. by destruct (group_of t o). Qed.

(** C34. Where the site shows tokens, the explanation of a request billed by
    tokens (its price is not fixed) is a head, a line for some amounts, a line with
    the total and a note; each line shows its amount in dollars converted and
    rounded for display, and the total shown is, converted and rounded alike, the
    floating-point sum of exactly the amounts that have a line: an amount without
    one is zero, though the code adds it.  This is for entries whose numbers are
    finite and not negative and whose searches, separately priced audio and
    generated images carry their flags. *)
Theorem breakdown_adds_up getItem t o :
  shouldUseRatioBillingProcess getItem (price_field o) = true → well_priced t o = true → flagged o = true →
  let lines := lines_shown getItem t o in
  renderModelPrice getItem t o =
  renderBillingArticle t
    (model_ratio_head t o :: map (λ l, l.2 l.1) lines ++
     [billing_text t "合计：{{total}}" [("total"%string, renderDisplayAmountFromUsd getItem (sum_of (map fst lines)))]]) true.
Proof.
  intros Hr Hp Hf. cbv zeta. unfold renderModelPrice. rewrite Hr. cbn [negb]. unfold model_ratio_lines, renderBillingArticle. f_equal.
  destruct (lines_filtered (zip (model_shown o) (model_amounts t o)) (model_ratio_texts getItem t o)) as [H1 H2].
  { rewrite texts_count. reflexivity. }
  unfold lines_shown. rewrite H2. assert (Hs : model_ratio_total t o = sum_of (map snd (List.filter fst (zip (model_shown o) (model_amounts t o))))).
  { apply sum_shown; [reflexivity|by apply model_amounts_unsigned|]. intros x. by apply hidden_amounts. }
  rewrite Hs. unfold filter_truthy in *. cbn [app]. cbn [List.filter]. rewrite !List.filter_app, H1. reflexivity.
Qed.

(** An entry with cached tokens, an image and a search. *)
Definition entry (fields : list (string * Z)) (flags : list string) : jval :=
  JObj (map (λ e, (js e.1, JNum (num_of_Z e.2))) fields ++ map (λ k, (js k, JBool true)) flags).
Definition chat_entry : jval :=
  entry [("prompt_tokens", 1000%Z); ("completion_tokens", 500%Z); ("model_ratio", 1%Z); ("completion_ratio", 3%Z); ("group_ratio", 1%Z);
         ("cache_tokens", 200%Z); ("web_search_call_count", 2%Z); ("web_search_price", 10%Z)]%string ["web_search"]%string.

Definition tokens_site (k : jsstr) : option jsstr := if streq k (js "quota_display_type") then Some (js "TOKENS") else None.

Lemma breakdown_adds_up_witness :
  renderModelPrice tokens_site (λ k _, k) chat_entry =
  renderBillingArticle (λ k _, k)
    (model_ratio_head (λ k _, k) chat_entry :: map (λ l, l.2 l.1) (lines_shown tokens_site (λ k _, k) chat_entry) ++
     [billing_text (λ k _, k) "合计：{{total}}"
        [("total"%string, renderDisplayAmountFromUsd tokens_site (sum_of (map fst (lines_shown tokens_site (λ k _, k) chat_entry))))]]) true ∧
  length (lines_shown tokens_site (λ k _, k) chat_entry) = 4.
Proof. split; [apply (breakdown_adds_up tokens_site (λ k _, k) chat_entry)|]; vm_compute; reflexivity. Defined.

(** The two modes disagree on images: a million input tokens that are all
    image tokens of ratio one cost 2 dollars at model ratio one, and the ratio mode
    shows 4, because the text tokens still contain the image tokens. *)
Theorem image_counted_twice t :
  let o := entry [("prompt_tokens", 1000000%Z); ("image_output", 1000000%Z); ("model_ratio", 1%Z); ("group_ratio", 1%Z)]%string ["image"]%string in
  model_total t o = num_of_Z 2 ∧ model_ratio_total t o = num_of_Z 4 ∧
  text_input_tokens o = num_of_Z 1000000 ∧ image_input_tokens o = num_of_Z 1000000.
Proof. split_and!; vm_compute; reflexivity. Qed.
