(* ===== verification/ParamOverride.v ===== *)
(** * Parameter override rules: reading, checking and writing them
      ([web/src/components/table/channels/modals/ParamOverrideEditorModal.jsx],
      the functions above the component, and the templates it offers)

    A rule is an [operation]; the editor holds its value as text.  Every rule
    and condition gets a local id, [param_override_<time>_<n>], from a counter
    that all calls share, so the functions that make ids run in [ids]: the
    counter goes through, and [None] is a thrown [TypeError].  [clock n] is the
    time at which the [n]-th id is made.  [t] translates a message, with the
    number of the rule it is about. *)

From S2P Require Import Prelude JsString JsNumber Json JsObject.

(** ** Modes *)

Definition OPERATION_MODE_OPTIONS : list (jsstr * jsstr) :=
  [(js "设置字段", js "set"); (js "删除字段", js "delete"); (js "追加到末尾", js "append"); (js "追加到开头", js "prepend");
   (js "复制字段", js "copy"); (js "移动字段", js "move"); (js "字符串替换", js "replace"); (js "正则替换", js "regex_replace");
   (js "裁剪前缀", js "trim_prefix"); (js "裁剪后缀", js "trim_suffix"); (js "确保前缀", js "ensure_prefix");
   (js "确保后缀", js "ensure_suffix"); (js "去掉空白", js "trim_space"); (js "转小写", js "to_lower"); (js "转大写", js "to_upper");
   (js "返回自定义错误", js "return_error"); (js "清理对象项", js "prune_objects"); (js "参数映射", js "map_param");
   (js "请求头透传", js "pass_headers"); (js "字段同步", js "sync_fields"); (js "媒体转换组件", js "transform_media");
   (js "设置请求头", js "set_header"); (js "删除请求头", js "delete_header"); (js "复制请求头", js "copy_header");
   (js "移动请求头", js "move_header")].
Definition OPERATION_MODE_VALUES : list jsstr := map snd OPERATION_MODE_OPTIONS.

Definition CONDITION_MODE_VALUES : list jsstr :=
  [js "full"; js "prefix"; js "suffix"; js "contains"; js "gt"; js "gte"; js "lt"; js "lte"].

(** The fields of an entry of [MODE_META]; an absent field is false, as
    [to: false] is wherever the functions below read it. *)
Record mode_meta := Meta {
  m_path : bool; m_pathOptional : bool; m_pathAlias : bool; m_value : bool; m_keepOrigin : bool; m_from : bool; m_to : bool
}.
Definition meta_path := Meta true false false false false false false.
Definition meta_set := Meta true false false true true false false.
Definition meta_copy := Meta false false false false false true true.
Definition meta_replace := Meta true false false false false true false.
Definition meta_affix := Meta true false false true false false false.
Definition meta_header := Meta false false true false true true true.

Definition MODE_META : list (jsstr * mode_meta) :=
  [(js "delete", meta_path); (js "set", meta_set); (js "append", meta_set); (js "prepend", meta_set);
   (js "copy", meta_copy); (js "move", meta_copy); (js "replace", meta_replace); (js "regex_replace", meta_replace);
   (js "trim_prefix", meta_affix); (js "trim_suffix", meta_affix); (js "ensure_prefix", meta_affix);
   (js "ensure_suffix", meta_affix); (js "trim_space", meta_path); (js "to_lower", meta_path); (js "to_upper", meta_path);
   (js "return_error", Meta false false false true false false false);
   (js "prune_objects", Meta false true false true false false false);
   (js "map_param", Meta false true false true true false true);
   (js "pass_headers", Meta false false false true true false false); (js "sync_fields", meta_copy);
   (js "transform_media", Meta false false false true false true true); (js "set_header", meta_set);
   (js "delete_header", meta_path); (js "copy_header", meta_header); (js "move_header", meta_header)].

Definition VALUE_REQUIRED_MODES : list jsstr :=
  [js "trim_prefix"; js "trim_suffix"; js "ensure_prefix"; js "ensure_suffix"; js "set_header"; js "return_error";
   js "prune_objects"; js "map_param"; js "pass_headers"; js "transform_media"].
Definition FROM_REQUIRED_MODES : list jsstr :=
  [js "copy"; js "move"; js "replace"; js "regex_replace"; js "copy_header"; js "move_header"; js "sync_fields"].
Definition TO_REQUIRED_MODES : list jsstr := [js "copy"; js "move"; js "copy_header"; js "move_header"; js "sync_fields"].

(** [set.has(s)] *)
Definition has (l : list jsstr) (s : jsstr) : bool := existsb (streq s) l.
(** [a || b] on texts *)
Definition or_text (a b : jsstr) : jsstr := if is_empty a then b else a.

(** [MODE_META[mode] || MODE_META.set] *)
Definition meta_of (mode : jsstr) : mode_meta := default meta_set (assoc_get MODE_META mode).

Definition OPERATION_MODE_LABEL_MAP (mode : jsstr) : jsstr :=
  default [] (assoc_get (map (λ e, (e.2, e.1)) OPERATION_MODE_OPTIONS) mode).

(** ** Texts and values *)

Definition verifyJSON (str : jsstr) : bool := match parse str with Some _ => true | None => false end.

Definition toValueText (value : jval) : jsstr :=
  match value with
  | JUndef => []
  | JStr s => s
  | v => default [] (stringify v)
  end.

Definition parseLooseValue (raw : jsstr) : jval :=
  if is_empty (trim raw) then JStr [] else
  match parse raw with Some v => v | None => JStr raw end.

(** [String(item ?? '').trim()] *)
Definition nullish_text (v : jval) : jsstr := trim (String_of (js_nullish v (JStr []))).
(** [String(v || '').trim()] *)
Definition or_empty (v : jval) : jsstr := trim (String_of (js_or v (JStr []))).

Definition parsePassHeaderNames (rawValue : jval) : list jsstr :=
  match rawValue with
  | JArr l => filter_truthy (map nullish_text l)
  | JObj _ =>
    match read rawValue (js "headers") with
    | JArr l => filter_truthy (map nullish_text l)
    | _ =>
      match read rawValue (js "header") with
      | JUndef => []
      | h => filter_truthy [nullish_text h]
      end
    end
  | JStr s => filter_truthy (map trim (split (js ",") s))
  | _ => []
  end.

(** [parsed && typeof parsed === 'object' && !Array.isArray(parsed)] *)
Definition is_object (v : jval) : bool := match v with JObj _ => true | _ => false end.

(** [s.toUpperCase()] up to the comparison with an ASCII text without [I] or
    [S]: only ASCII letters have such a capital. *)
Definition ascii_upper (s : jsstr) : jsstr := map (λ c, if ((97 <=? c) && (c <=? 122))%N then (c - 32)%N else c) s.
(** [s.toLowerCase()] up to the comparison with an ASCII text without [k] *)
Definition ascii_lower (s : jsstr) : jsstr := map (λ c, if ((65 <=? c) && (c <=? 90))%N then (c + 32)%N else c) s.

(** ** The form of a [return_error] value *)

Record return_error_draft := ReturnError {
  re_message : jsstr; re_statusCode : num; re_code : jsstr; re_type : jsstr; re_skipRetry : bool; re_simpleMode : bool
}.

(** [Number.isInteger(n) && n >= 100 && n <= 599 ? n : 400] *)
Definition status_or_400 (n : num) : num :=
  if isInteger n && nle (num_of_Z 100) n && nle n (num_of_Z 599) then n else num_of_Z 400.

Definition parseReturnErrorDraft (valueText : jsstr) : return_error_draft :=
  let raw := trim valueText in
  if is_empty raw then ReturnError [] (num_of_Z 400) [] [] true true else
  let plain := ReturnError raw (num_of_Z 400) [] [] true true in
  match parse raw with
  | Some parsed =>
    if is_object parsed then
      let statusRaw := match read parsed (js "status_code") with JUndef => read parsed (js "status") | v => v end in
      {| re_message := or_empty (js_or (read parsed (js "message")) (read parsed (js "msg")));
         re_statusCode := status_or_400 (Number_of statusRaw);
         re_code := or_empty (read parsed (js "code"));
         re_type := or_empty (read parsed (js "type"));
         re_skipRetry := negb (is_false (read parsed (js "skip_retry")));
         re_simpleMode := false |}
    else plain
  | None => plain
  end.

(** [if (b) payload[k] = v] *)
Definition set_if (b : bool) (k : string) (v : jval) (o : list (jsstr * jval)) : list (jsstr * jval) :=
  if b then obj_set o (js k) v else o.

Definition buildReturnErrorValueText (draft : return_error_draft) : jsstr :=
  let message := trim (re_message draft) in
  if re_simpleMode draft then message else
  let code := trim (re_code draft) in
  let type := trim (re_type draft) in
  let payload := [(js "message", JStr message); (js "status_code", JNum (status_or_400 (re_statusCode draft)))] in
  let payload := set_if (negb (is_empty code)) "code" (JStr code) payload in
  let payload := set_if (negb (is_empty type)) "type" (JStr type) payload in
  let payload := set_if (negb (re_skipRetry draft)) "skip_retry" (JBool false) payload in
  default [] (stringify (JObj payload)).

(** ** Targets of [sync_fields] *)

Definition parseSyncTargetSpec (spec : jsstr) : jsstr * jsstr :=
  let raw := trim spec in
  if is_empty raw then (js "json", []) else
  match find_index (N.eqb 58) raw with
  | None => (js "json", raw)
  | Some idx =>
    let prefix := ascii_lower (trim (slice 0 idx raw)) in
    let key := trim (slice_from (idx + 1) raw) in
    if streq prefix (js "header") then (js "header", key) else (js "json", key)
  end.

Definition buildSyncTargetSpec (type key : jsstr) : jsstr :=
  let normalizedType := if streq type (js "header") then js "header" else js "json" in
  let normalizedKey := trim key in
  if is_empty normalizedKey then [] else normalizedType ++ js ":" ++ normalizedKey.

(** ** Local ids *)

Definition ids (A : Type) : Type := nat → option (A * nat).
Definition ids_ret {A} (a : A) : ids A := λ n, Some (a, n).
Definition ids_throw {A} : ids A := λ n, None.
Definition ids_bind {A B} (m : ids A) (f : A → ids B) : ids B :=
  λ n, match m n with Some (a, n') => f a n' | None => None end.
Notation "'let*' x := m 'in' k" := (ids_bind m (λ x, k)) (at level 10, x pattern, m at level 100, k at level 200).

(** [l.map(f)] for an [f] that makes ids *)
Fixpoint ids_map {A B} (f : A → ids B) (l : list A) : ids (list B) :=
  match l with
  | [] => ids_ret []
  | x :: l' => let* y := f x in let* ys := ids_map f l' in ids_ret (y :: ys)
  end.

(** ** Conditions and rules of [prune_objects]: both have the same fields *)

Record condition := Condition {
  cond_id : jsstr; cond_path : jsstr; cond_mode : jsstr; cond_value_text : jsstr; cond_invert : bool; cond_pass_missing_key : bool
}.

Record operation := Operation {
  id : jsstr; description : jsstr; path : jsstr; mode : jsstr; value_text : jsstr; keep_origin : bool;
  from : jsstr; to : jsstr; logic : jsstr; conditions : list condition
}.

Record prune_draft := Prune {
  simpleMode : bool; typeText : jsstr; pr_logic : jsstr; recursive : bool; rules : list condition
}.

(** [typeof v === 'string' ? v : ''] *)
Definition text_or_empty (v : jval) : jsstr := match v with JStr s => s | _ => [] end.
(** [SET.has(v) ? v : d] *)
Definition mode_or (values : list jsstr) (d : string) (v : jval) : jsstr :=
  match v with JStr s => if has values s then s else js d | _ => js d end.

Section Ids.
Context (clock : nat → Z).

Definition local_id (n : nat) : jsstr :=
  js "param_override_" ++ string_of_Z (clock n) ++ js "_" ++ string_of_Z (Z.of_nat n).
Definition nextLocalId : ids jsstr := λ n, Some (local_id n, S n).

(** A parameter default stands in for [undefined] only: reading a property of
    [null] throws. *)
Definition normalizeCondition (condition : jval) : ids ParamOverride.condition :=
  let* cid := nextLocalId in
  match condition with
  | JNull => ids_throw
  | _ => ids_ret {|
      cond_id := cid;
      cond_path := text_or_empty (read condition (js "path"));
      cond_mode := mode_or CONDITION_MODE_VALUES "full" (read condition (js "mode"));
      cond_value_text := toValueText (read condition (js "value"));
      cond_invert := is_true (read condition (js "invert"));
      cond_pass_missing_key := is_true (read condition (js "pass_missing_key")) |}
  end.
Definition createDefaultCondition : ids condition := normalizeCondition (JObj []).

(** The source has the same function twice, under two names. *)
Definition normalizePruneRule (rule : jval) : ids condition :=
  let* rid := nextLocalId in
  match rule with
  | JNull => ids_throw
  | _ => ids_ret {|
      cond_id := rid;
      cond_path := text_or_empty (read rule (js "path"));
      cond_mode := mode_or CONDITION_MODE_VALUES "full" (read rule (js "mode"));
      cond_value_text := toValueText (read rule (js "value"));
      cond_invert := is_true (read rule (js "invert"));
      cond_pass_missing_key := is_true (read rule (js "pass_missing_key")) |}
  end.

(** [Array.isArray(v) ? v.map(normalizeCondition) : []] *)
Definition read_conditions (v : jval) : ids (list condition) :=
  match v with JArr l => ids_map normalizeCondition l | _ => ids_ret [] end.

Definition normalizeOperation (operation : jval) : ids ParamOverride.operation :=
  let* oid := nextLocalId in
  match operation with
  | JNull => ids_throw
  | _ =>
    let* conds := read_conditions (read operation (js "conditions")) in
    ids_ret {|
      id := oid;
      description := text_or_empty (read operation (js "description"));
      path := text_or_empty (read operation (js "path"));
      mode := mode_or OPERATION_MODE_VALUES "set" (read operation (js "mode"));
      value_text := toValueText (read operation (js "value"));
      keep_origin := is_true (read operation (js "keep_origin"));
      from := text_or_empty (read operation (js "from"));
      to := text_or_empty (read operation (js "to"));
      logic := if streq (ascii_upper (String_of (js_or (read operation (js "logic")) (JStr (js "OR"))))) (js "AND")
               then js "AND" else js "OR";
      conditions := conds |}
  end.
Definition createDefaultOperation : ids operation := normalizeOperation (JObj [(js "mode", JStr (js "set"))]).

(** [Object.entries(v).forEach(...)] over a record of exact matches *)
Definition exact_rules (v : jval) : ids (list condition) :=
  ids_map (λ e, normalizePruneRule (JObj [(js "path", JStr e.1); (js "mode", JStr (js "full")); (js "value", e.2)])) (entries v).

Definition parsePruneObjectsDraft (valueText : jsstr) : ids prune_draft :=
  let raw := trim valueText in
  if is_empty raw then ids_ret (Prune true [] (js "AND") true []) else
  match parse raw with
  | Some (JStr s) => ids_ret (Prune true (trim s) (js "AND") true [])
  | Some (JObj o) =>
    let parsed := JObj o in
    let where_ := read parsed (js "where") in
    let conds := read parsed (js "conditions") in
    let* r1 := if is_object where_ then exact_rules where_ else ids_ret [] in
    let* r2 := match conds with
               | JArr l => ids_map normalizePruneRule (List.filter (λ item, truthy item && typeof_object item) l)
               | JObj _ => exact_rules conds
               | _ => ids_ret []
               end in
    ids_ret {|
      simpleMode := match read parsed (js "logic"), read parsed (js "recursive"), where_, conds with
                    | JUndef, JUndef, JUndef, JUndef => true
                    | _, _, _, _ => false
                    end;
      typeText := match read parsed (js "type") with JUndef => [] | v => trim (String_of v) end;
      pr_logic := if streq (ascii_upper (String_of (js_or (read parsed (js "logic")) (JStr (js "AND"))))) (js "OR")
                  then js "OR" else js "AND";
      recursive := negb (is_false (read parsed (js "recursive")));
      rules := r1 ++ r2 |}
  | Some parsed => ids_ret (Prune true (nullish_text parsed) (js "AND") true [])
  | None => ids_ret (Prune true raw (js "AND") true [])
  end.
End Ids.

(** ** Writing the rules of [prune_objects] *)

Definition prune_condition_payload (rule : condition) : jval :=
  let valueRaw := trim (cond_value_text rule) in
  let payload := [(js "path", JStr (trim (cond_path rule)));
                  (js "mode", JStr (if has CONDITION_MODE_VALUES (cond_mode rule) then cond_mode rule else js "full"))] in
  let payload := set_if (negb (is_empty valueRaw)) "value" (parseLooseValue valueRaw) payload in
  let payload := set_if (cond_invert rule) "invert" (JBool true) payload in
  JObj (set_if (cond_pass_missing_key rule) "pass_missing_key" (JBool true) payload).

Definition buildPruneObjectsValueText (draft : prune_draft) : jsstr :=
  let type := trim (typeText draft) in
  if simpleMode draft then type else
  let conds := map prune_condition_payload (List.filter (λ rule, negb (is_empty (trim (cond_path rule)))) (rules draft)) in
  let has_conds := match conds with [] => false | _ => true end in
  let payload := set_if (negb (is_empty type)) "type" (JStr type) [] in
  let payload := set_if (streq (ascii_upper (or_text (pr_logic draft) (js "AND"))) (js "OR")) "logic" (JStr (js "OR")) payload in
  let payload := set_if (negb (recursive draft)) "recursive" (JBool false) payload in
  let payload := set_if has_conds "conditions" (JArr conds) payload in
  default [] (stringify (JObj (if is_empty type && negb has_conds then [(js "logic", JStr (js "AND"))] else payload))).

(** ** The list of rules *)

(** [l.splice(i, 0, x)] for [i <= l.length] *)
Definition insert_at {A} (i : nat) (x : A) (l : list A) : list A := take i l ++ x :: drop i l.
(** [l.splice(i, 1)] *)
Definition remove_at {A} (i : nat) (l : list A) : list A := take i l ++ drop (S i) l.

Inductive position := before | after.

Definition index_of_id (i : jsstr) (ops : list operation) : option nat := find_index (λ op, streq (id op) i) ops.

Definition reorderOperations (source : list operation) (sourceId targetId : jsstr) (pos : position) : list operation :=
  if is_empty sourceId || is_empty targetId || streq sourceId targetId then source else
  match index_of_id sourceId source with
  | None => source
  | Some sourceIndex =>
    match source !! sourceIndex with
    | None => source
    | Some moved =>
      let next := remove_at sourceIndex source in
      match index_of_id targetId next with
      | None => source
      | Some insertIndex => insert_at (match pos with after => insertIndex + 1 | before => insertIndex end) moved next
      end
    end
  end.

Definition getOperationSummary (operation : operation) (index : Z) : jsstr :=
  let m := or_text (mode operation) (js "set") in
  let modeLabel := or_text (OPERATION_MODE_LABEL_MAP m) m in
  let fromTo := or_text (trim (from operation)) (or_text (trim (to operation)) (js "-")) in
  string_of_Z (index + 1) ++ js ". " ++ modeLabel ++ js " · " ++
  (if streq m (js "sync_fields") then fromTo else or_text (trim (path operation)) fromTo).

Definition getOperationModeTagColor (m : jsstr) : jsstr :=
  let any := existsb (λ w, includes (js w) m) in
  if any ["header"%string] then js "cyan"
  else if any ["replace"%string; "trim"%string] then js "violet"
  else if any ["copy"%string; "move"%string] then js "blue"
  else if any ["error"%string; "prune"%string] then js "red"
  else if any ["sync"%string; "map"%string] then js "green"
  else js "grey".

Definition isOperationBlank (operation : operation) : bool :=
  let hasCondition := existsb (λ c,
    negb (is_empty (trim (cond_path c))) || negb (is_empty (trim (cond_value_text c))) ||
    negb (streq (cond_mode c) (js "full")) || cond_invert c || cond_pass_missing_key c) (conditions operation) in
  streq (mode operation) (js "set") && is_empty (trim (path operation)) && is_empty (trim (from operation)) &&
  is_empty (trim (to operation)) && is_empty (trim (value_text operation)) && negb (keep_origin operation) && negb hasCondition.

Definition buildConditionPayload (condition : condition) : option jval :=
  let p := trim (cond_path condition) in
  if is_empty p then None else
  let payload := [(js "path", JStr p); (js "mode", JStr (or_text (cond_mode condition) (js "full")));
                  (js "value", parseLooseValue (cond_value_text condition))] in
  let payload := set_if (cond_invert condition) "invert" (JBool true) payload in
  Some (JObj (set_if (cond_pass_missing_key condition) "pass_missing_key" (JBool true) payload)).

(** ** Checking rules *)

Section Validate.
Context (t : jsstr → Z → jsstr).

(** [if (b) return msg;] and what follows *)
Definition return_if (b : bool) (msg : jsstr) (rest : option jsstr) : option jsstr := if b then Some msg else rest.
(** One block of the loop's body and the blocks after it *)
Definition and_then (block rest : option jsstr) : option jsstr := match block with Some msg => Some msg | None => rest end.

Definition check_return_error (line : Z) (raw : jsstr) : option jsstr :=
  return_if (is_empty raw) (t (js "第 {{line}} 条操作缺少值") line)
  match parse raw with
  | Some parsed => return_if (is_object parsed && is_empty (or_empty (read parsed (js "message"))))
                     (t (js "第 {{line}} 条 return_error 需要 message 字段") line) None
  | None => None
  end.

Definition non_empty_object (v : jval) : bool := is_object v && negb (match keys v with [] => true | _ => false end).

Definition check_prune_objects (line : Z) (raw : jsstr) : option jsstr :=
  return_if (is_empty raw) (t (js "第 {{line}} 条 prune_objects 缺少条件") line)
  match parse raw with
  | Some parsed =>
    let type := read parsed (js "type") in
    let hasType := match type with JUndef => false | v => negb (is_empty (trim (String_of v))) end in
    let conds := read parsed (js "conditions") in
    let hasConditionsArray := match conds with JArr (_ :: _) => true | _ => false end in
    return_if (is_object parsed && negb hasType && negb (non_empty_object (read parsed (js "where"))) &&
               negb hasConditionsArray && negb (non_empty_object conds))
      (t (js "第 {{line}} 条 prune_objects 需要至少一个匹配条件") line) None
  | None => None
  end.

Definition check_transform_media (line : Z) (raw : jsstr) : option jsstr :=
  return_if (is_empty raw) (t (js "第{{line}} 条 transform_media 缺少组件配置") line)
  match parse raw with
  | Some parsed =>
    return_if (negb (is_object parsed)) (t (js "第{{line}} 条 transform_media 配置必须是 JSON 对象") line)
    (return_if (is_empty (or_empty (read parsed (js "component"))))
      (t (js "第{{line}} 条 transform_media 缺少 component 字段") line) None)
  | None => Some (t (js "第{{line}} 条 transform_media 配置必须是合法 JSON") line)
  end.

Definition map_param_sources (parsed : jval) : list jsstr :=
  let sources := match read parsed (js "sources") with
                 | JArr l => l
                 | JUndef => match read parsed (js "source") with JUndef => [] | v => [v] end
                 | v => [v]
                 end in
  filter_truthy (map nullish_text sources).

Definition check_map_param (line : Z) (raw : jsstr) : option jsstr :=
  return_if (is_empty raw) (t (js "第 {{line}} 条 map_param 缺少映射配置") line)
  match parse raw with
  | Some parsed =>
    return_if (negb (is_object parsed)) (t (js "第 {{line}} 条 map_param 配置必须是 JSON 对象") line)
    (return_if (match map_param_sources parsed with [] => true | _ => false end)
      (t (js "第 {{line}} 条 map_param 需要 sources 字段") line)
    (return_if (match read parsed (js "map") with JUndef => false | v => negb (is_object v) end)
      (t (js "第 {{line}} 条 map_param 的 map 必须是 JSON 对象") line) None))
  | None => Some (t (js "第 {{line}} 条 map_param 配置必须是合法 JSON") line)
  end.

Definition check_pass_headers (line : Z) (raw : jsstr) : option jsstr :=
  return_if (is_empty raw) (t (js "第 {{line}} 条请求头透传缺少请求头名称") line)
  (return_if (match parsePassHeaderNames (parseLooseValue raw) with [] => true | _ => false end)
    (t (js "第 {{line}} 条请求头透传格式无效") line) None).

(** The body of the loop: [Some msg] ends it. *)
Definition check_operation (line : Z) (op : operation) : option jsstr :=
  let m := or_text (mode op) (js "set") in
  let meta := meta_of m in
  let pathValue := trim (path op) in
  let fromValue := trim (from op) in
  let toValue := trim (to op) in
  let raw := trim (value_text op) in
  let alias := m_pathAlias meta && negb (is_empty pathValue) in
  let no_from := t (js "第 {{line}} 条操作缺少来源字段") line in
  let no_to := t (js "第 {{line}} 条操作缺少目标字段") line in
  let check_mode name check rest := and_then (if streq m (js name) then check line raw else None) rest in
  return_if (m_path meta && is_empty pathValue) (t (js "第 {{line}} 条操作缺少目标路径") line)
  (return_if (has FROM_REQUIRED_MODES m && is_empty fromValue && negb alias) no_from
  (return_if (has TO_REQUIRED_MODES m && is_empty toValue && negb alias) no_to
  (return_if (m_from meta && is_empty fromValue) no_from
  (return_if (m_to meta && is_empty toValue) no_to
  (return_if (has VALUE_REQUIRED_MODES m && is_empty raw) (t (js "第 {{line}} 条操作缺少值") line)
  (check_mode "return_error"%string check_return_error
  (check_mode "prune_objects"%string check_prune_objects
  (check_mode "transform_media"%string check_transform_media
  (check_mode "map_param"%string check_map_param
  (check_mode "pass_headers"%string check_pass_headers None)))))))))).

Fixpoint check_from (line : Z) (ops : list operation) : jsstr :=
  match ops with
  | [] => []
  | op :: ops' => match check_operation line op with Some msg => msg | None => check_from (line + 1) ops' end
  end.
Definition validateOperations (ops : list operation) : jsstr := check_from 1 ops.

(** ** Writing rules *)

Definition operation_payload (operation : operation) : list (jsstr * jval) :=
  let m := or_text (mode operation) (js "set") in
  let meta := meta_of m in
  let descriptionValue := trim (description operation) in
  let pathValue := trim (path operation) in
  let fromValue := trim (from operation) in
  let toValue := trim (to operation) in
  let has_path := negb (is_empty pathValue) in
  let payload := [(js "mode", JStr m)] in
  let payload := set_if (negb (is_empty descriptionValue)) "description" (JStr descriptionValue) payload in
  let payload := set_if (m_path meta) "path" (JStr pathValue) payload in
  let payload := set_if (m_pathOptional meta && has_path) "path" (JStr pathValue) payload in
  let payload := set_if (m_value meta) "value" (parseLooseValue (value_text operation)) payload in
  let payload := set_if (m_keepOrigin meta && keep_origin operation) "keep_origin" (JBool true) payload in
  let payload := set_if (m_from meta) "from" (JStr fromValue) payload in
  let payload := set_if (negb (m_to meta) && negb (is_empty toValue)) "to" (JStr toValue) payload in
  let payload := set_if (m_to meta) "to" (JStr toValue) payload in
  let payload := set_if (m_pathAlias meta && negb (truthy (obj_get payload (js "from"))) && has_path) "from" (JStr pathValue) payload in
  let payload := set_if (m_pathAlias meta && negb (truthy (obj_get payload (js "to"))) && has_path) "to" (JStr pathValue) payload in
  match omap buildConditionPayload (conditions operation) with
  | [] => payload
  | conds => obj_set (obj_set payload (js "conditions") (JArr conds)) (js "logic")
               (JStr (if streq (logic operation) (js "AND") then js "AND" else js "OR"))
  end.

Definition operations_json (ops : list jval) : jval := JObj [(js "operations", JArr ops)].

(** [inr msg] is the thrown error. *)
Definition buildOperationsJson (validate : bool) (source : list operation) : jsstr + jsstr :=
  match List.filter (λ op, negb (isOperationBlank op)) source with
  | [] => inl []
  | filteredOps =>
    let message := if validate then validateOperations filteredOps else [] in
    if is_empty message
    then inl (default [] (stringify2 (operations_json (map (λ op, JObj (operation_payload op)) filteredOps))))
    else inr message
  end.
End Validate.
