(* ===== verification/ParamOverrideEditor.v ===== *)
(** * The editor of parameter overrides
      ([web/src/components/table/channels/modals/ParamOverrideEditorModal.jsx],
      the component [ParamOverrideEditorModal] and the templates it offers)

    [editor] is the state the component keeps in its hooks, with the counter of
    local ids of the module.  Handlers are functions on it; a handler that may
    throw returns an [option], one that shows an error returns the message
    beside the state.  [lower] is [toLowerCase], [t] translates a message about
    the rule of a number and [tr] any other message. *)

From S2P Require Import Prelude JsString JsNumber Json JsObject ParamOverride.

(** ** Templates *)

(** An object literal, in JSON notation with apostrophes. *)
Definition literal (s : string) : jval := default JUndef (parse (jsq s)).

Definition LEGACY_TEMPLATE : jval := literal
    "{'temperature': 0, 'max_tokens': 1000}".

Definition OPERATION_TEMPLATE : jval := literal
    "{'operations': [{'description': 'Set default temperature for openai/* models.', 'path': 'temperature',
     'mode': 'set', 'value': 0.7, 'conditions': [{'path': 'model', 'mode': 'prefix', 'value': 'openai/'}],
     'logic': 'AND'}]}".

Definition HEADER_PASSTHROUGH_TEMPLATE : jval := literal
    "{'operations': [{'description': 'Pass through X-Request-Id header to upstream.', 'mode': 'pass_headers',
     'value': ['X-Request-Id'], 'keep_origin': true}]}".

Definition GEMINI_IMAGE_4K_TEMPLATE : jval := literal
    "{'operations': [{'description': 'Set imageSize to 4K when model contains gemini/image and ends with 4k.',
     'mode': 'set', 'path': 'generationConfig.imageConfig.imageSize', 'value': '4K',
     'conditions': [{'path': 'original_model', 'mode': 'contains', 'value': 'gemini'}, {'path': 'original_model',
     'mode': 'contains', 'value': 'image'}, {'path': 'original_model', 'mode': 'suffix', 'value': '4k'}],
     'logic': 'AND'}]}".

Definition IMAGE_PIPELINE_TO_COS_TEMPLATE : jval := literal
    "{'operations': [{'description': 'Convert image URL fields to COS URLs before sending to upstream.',
     'mode': 'transform_media', 'from': 'messages.*.content.*.image_url.url',
     'to': 'messages.*.content.*.image_url.url', 'value': {'component': 'image_pipeline', 'input': 'auto',
     'output': 'url', 'storage': 'cos', 'mime_type': 'image/jpeg', 'quality': 92, 'strip_alpha': false,
     'keep_size': true, 'max_download_mb': 20}}]}".

Definition GETTOKEN_IMAGE_PARAM_MAPPING_TEMPLATE : jval := literal
    "{'operations': [{'description': 'Map caller image size/aspect ratio params to GetToken aspectRatio.',
     'mode': 'map_param', 'to': 'aspectRatio', 'value': {'sources': ['aspectRatio', 'aspect_ratio', 'ratio',
     'size'], 'map': {'1:1': '1:1', '16:9': '16:9', '9:16': '9:16', '4:3': '4:3', '3:4': '3:4', '3:2': '3:2',
     '2:3': '2:3', '5:4': '5:4', '4:5': '4:5', '21:9': '21:9', 'square': '1:1', 'landscape': '16:9',
     'portrait': '9:16', '1024x1024': '1:1', '1920x1080': '16:9', '1080x1920': '9:16', '1024x768': '4:3',
     '768x1024': '3:4'}, 'normalize': true, 'parse_pixel_ratio': true, 'delete_sources': true,
     'keep_origin': true}}, {'description': 'Normalize GetToken image resolution values.', 'mode': 'map_param',
     'to': 'resolution', 'value': {'sources': ['resolution'], 'map': {'1k': '1k', '2k': '2k', '4k': '4k'},
     'normalize': true, 'delete_sources': true, 'keep_origin': false}},
     {'description': 'Map common image URL params to GetToken imageUrls.', 'mode': 'map_param', 'to': 'imageUrls',
     'value': {'sources': ['imageUrls', 'image_urls', 'images', 'image'], 'delete_sources': true,
     'keep_origin': true}}]}".

Definition AWS_BEDROCK_ANTHROPIC_COMPAT_TEMPLATE : jval := literal
    "{'operations': [{'description': 'Normalize anthropic-beta header tokens for Bedrock compatibility.',
     'mode': 'set_header', 'path': 'anthropic-beta',
     'value': {'advanced-tool-use-2025-11-20': 'tool-search-tool-2025-10-19', 'bash_20241022': null,
     'bash_20250124': null, 'code-execution-2025-08-25': null, 'compact-2026-01-12': 'compact-2026-01-12',
     'computer-use-2025-01-24': 'computer-use-2025-01-24', 'computer-use-2025-11-24': 'computer-use-2025-11-24',
     'context-1m-2025-08-07': 'context-1m-2025-08-07',
     'context-management-2025-06-27': 'context-management-2025-06-27', 'effort-2025-11-24': null,
     'fast-mode-2026-02-01': null, 'files-api-2025-04-14': null, 'fine-grained-tool-streaming-2025-05-14': null,
     'interleaved-thinking-2025-05-14': 'interleaved-thinking-2025-05-14', 'mcp-client-2025-11-20': null,
     'mcp-client-2025-04-04': null, 'mcp-servers-2025-12-04': null, 'output-128k-2025-02-19': null,
     'structured-output-2024-03-01': null, 'prompt-caching-scope-2026-01-05': null, 'skills-2025-10-02': null,
     'structured-outputs-2025-11-13': null, 'text_editor_20241022': null, 'text_editor_20250124': null,
     'token-efficient-tools-2025-02-19': null, 'tool-search-tool-2025-10-19': 'tool-search-tool-2025-10-19',
     'web-fetch-2025-09-10': null, 'web-search-2025-03-05': null, 'oauth-2025-04-20': null}},
     {'description': 'Remove all tools[*].custom.input_examples before upstream relay.', 'mode': 'delete',
     'path': 'tools.*.custom.input_examples'}]}".

(** [web/src/constants/channel-affinity-template.constants.js] *)
Definition buildPassHeadersTemplate (headers : list jsstr) : jval :=
  operations_json [JObj [(js "mode", JStr (js "pass_headers")); (js "value", JArr (map JStr headers)); (js "keep_origin", JBool true)]].
Definition CODEX_CLI_HEADER_PASSTHROUGH_HEADERS : list jsstr :=
  [js "Originator"; js "Session_id"; js "User-Agent"; js "X-Codex-Beta-Features"; js "X-Codex-Turn-Metadata"].
Definition CLAUDE_CLI_HEADER_PASSTHROUGH_HEADERS : list jsstr :=
  [js "X-Stainless-Arch"; js "X-Stainless-Lang"; js "X-Stainless-Os"; js "X-Stainless-Package-Version";
   js "X-Stainless-Retry-Count"; js "X-Stainless-Runtime"; js "X-Stainless-Runtime-Version"; js "X-Stainless-Timeout";
   js "User-Agent"; js "X-App"; js "Anthropic-Beta"; js "Anthropic-Dangerous-Direct-Browser-Access"; js "Anthropic-Version"].
Definition CODEX_CLI_HEADER_PASSTHROUGH_TEMPLATE : jval := buildPassHeadersTemplate CODEX_CLI_HEADER_PASSTHROUGH_HEADERS.
Definition CLAUDE_CLI_HEADER_PASSTHROUGH_TEMPLATE : jval := buildPassHeadersTemplate CLAUDE_CLI_HEADER_PASSTHROUGH_HEADERS.

Inductive template_kind := kind_operations | kind_legacy.
Record preset := Preset { group : jsstr; label : jsstr; kind : template_kind; payload : jval }.

Definition TEMPLATE_PRESET_CONFIG : list (jsstr * preset) :=
  [(js "operations_default", Preset (js "basic") (js "新格式模板（规则集）") kind_operations OPERATION_TEMPLATE);
   (js "legacy_default", Preset (js "basic") (js "旧格式模板（JSON 对象）") kind_legacy LEGACY_TEMPLATE);
   (js "pass_headers_auth", Preset (js "scenario") (js "请求头透传（X-Request-Id）") kind_operations HEADER_PASSTHROUGH_TEMPLATE);
   (js "gemini_image_4k", Preset (js "scenario") (js "Gemini 图片 4K") kind_operations GEMINI_IMAGE_4K_TEMPLATE);
   (js "image_pipeline_to_cos", Preset (js "scenario") (js "图片 URL 转 COS") kind_operations IMAGE_PIPELINE_TO_COS_TEMPLATE);
   (js "gettoken_image_param_mapping",
    Preset (js "scenario") (js "GetToken 生图参数映射") kind_operations GETTOKEN_IMAGE_PARAM_MAPPING_TEMPLATE);
   (js "claude_cli_headers_passthrough",
    Preset (js "scenario") (js "Claude CLI 请求头透传") kind_operations CLAUDE_CLI_HEADER_PASSTHROUGH_TEMPLATE);
   (js "codex_cli_headers_passthrough",
    Preset (js "scenario") (js "Codex CLI 请求头透传") kind_operations CODEX_CLI_HEADER_PASSTHROUGH_TEMPLATE);
   (js "aws_bedrock_anthropic_beta_override",
    Preset (js "scenario") (js "AWS Bedrock Claude 兼容模板") kind_operations AWS_BEDROCK_ANTHROPIC_COMPAT_TEMPLATE)].

(** ** State *)

Inductive edit_mode := visual | json.
Inductive visual_mode := operations_view | legacy_view.

Record editor := Editor {
  editMode : edit_mode; visualMode : visual_mode; legacyValue : jsstr; operations : list operation;
  jsonText : jsstr; jsonError : jsstr; operationSearch : jsstr; selectedOperationId : jsstr;
  expandedConditionMap : list (jsstr * list jsstr);
  draggedOperationId : jsstr; dragOverOperationId : jsstr; dragOverPosition : position;
  templateGroupKey : jsstr; templatePresetKey : jsstr; localIdSeed : nat
}.

(** The setters of the hooks. *)
Definition setEditMode x e := Editor x (visualMode e) (legacyValue e) (operations e) (jsonText e) (jsonError e)
  (operationSearch e) (selectedOperationId e) (expandedConditionMap e) (draggedOperationId e) (dragOverOperationId e)
  (dragOverPosition e) (templateGroupKey e) (templatePresetKey e) (localIdSeed e).
Definition setVisualMode x e := Editor (editMode e) x (legacyValue e) (operations e) (jsonText e) (jsonError e)
  (operationSearch e) (selectedOperationId e) (expandedConditionMap e) (draggedOperationId e) (dragOverOperationId e)
  (dragOverPosition e) (templateGroupKey e) (templatePresetKey e) (localIdSeed e).
Definition setLegacyValue x e := Editor (editMode e) (visualMode e) x (operations e) (jsonText e) (jsonError e)
  (operationSearch e) (selectedOperationId e) (expandedConditionMap e) (draggedOperationId e) (dragOverOperationId e)
  (dragOverPosition e) (templateGroupKey e) (templatePresetKey e) (localIdSeed e).
Definition setOperations x e := Editor (editMode e) (visualMode e) (legacyValue e) x (jsonText e) (jsonError e)
  (operationSearch e) (selectedOperationId e) (expandedConditionMap e) (draggedOperationId e) (dragOverOperationId e)
  (dragOverPosition e) (templateGroupKey e) (templatePresetKey e) (localIdSeed e).
Definition setJsonText x e := Editor (editMode e) (visualMode e) (legacyValue e) (operations e) x (jsonError e)
  (operationSearch e) (selectedOperationId e) (expandedConditionMap e) (draggedOperationId e) (dragOverOperationId e)
  (dragOverPosition e) (templateGroupKey e) (templatePresetKey e) (localIdSeed e).
Definition setJsonError x e := Editor (editMode e) (visualMode e) (legacyValue e) (operations e) (jsonText e) x
  (operationSearch e) (selectedOperationId e) (expandedConditionMap e) (draggedOperationId e) (dragOverOperationId e)
  (dragOverPosition e) (templateGroupKey e) (templatePresetKey e) (localIdSeed e).
Definition setOperationSearch x e := Editor (editMode e) (visualMode e) (legacyValue e) (operations e) (jsonText e)
  (jsonError e) x (selectedOperationId e) (expandedConditionMap e) (draggedOperationId e) (dragOverOperationId e)
  (dragOverPosition e) (templateGroupKey e) (templatePresetKey e) (localIdSeed e).
Definition setSelectedOperationId x e := Editor (editMode e) (visualMode e) (legacyValue e) (operations e) (jsonText e)
  (jsonError e) (operationSearch e) x (expandedConditionMap e) (draggedOperationId e) (dragOverOperationId e)
  (dragOverPosition e) (templateGroupKey e) (templatePresetKey e) (localIdSeed e).
Definition setExpandedConditionMap x e := Editor (editMode e) (visualMode e) (legacyValue e) (operations e) (jsonText e)
  (jsonError e) (operationSearch e) (selectedOperationId e) x (draggedOperationId e) (dragOverOperationId e)
  (dragOverPosition e) (templateGroupKey e) (templatePresetKey e) (localIdSeed e).
Definition setDraggedOperationId x e := Editor (editMode e) (visualMode e) (legacyValue e) (operations e) (jsonText e)
  (jsonError e) (operationSearch e) (selectedOperationId e) (expandedConditionMap e) x (dragOverOperationId e)
  (dragOverPosition e) (templateGroupKey e) (templatePresetKey e) (localIdSeed e).
Definition setDragOverOperationId x e := Editor (editMode e) (visualMode e) (legacyValue e) (operations e) (jsonText e)
  (jsonError e) (operationSearch e) (selectedOperationId e) (expandedConditionMap e) (draggedOperationId e) x
  (dragOverPosition e) (templateGroupKey e) (templatePresetKey e) (localIdSeed e).
Definition setDragOverPosition x e := Editor (editMode e) (visualMode e) (legacyValue e) (operations e) (jsonText e)
  (jsonError e) (operationSearch e) (selectedOperationId e) (expandedConditionMap e) (draggedOperationId e)
  (dragOverOperationId e) x (templateGroupKey e) (templatePresetKey e) (localIdSeed e).
Definition setTemplateGroupKey x e := Editor (editMode e) (visualMode e) (legacyValue e) (operations e) (jsonText e)
  (jsonError e) (operationSearch e) (selectedOperationId e) (expandedConditionMap e) (draggedOperationId e)
  (dragOverOperationId e) (dragOverPosition e) x (templatePresetKey e) (localIdSeed e).
Definition setTemplatePresetKey x e := Editor (editMode e) (visualMode e) (legacyValue e) (operations e) (jsonText e)
  (jsonError e) (operationSearch e) (selectedOperationId e) (expandedConditionMap e) (draggedOperationId e)
  (dragOverOperationId e) (dragOverPosition e) (templateGroupKey e) x (localIdSeed e).
Definition setLocalIdSeed x e := Editor (editMode e) (visualMode e) (legacyValue e) (operations e) (jsonText e) (jsonError e)
  (operationSearch e) (selectedOperationId e) (expandedConditionMap e) (draggedOperationId e) (dragOverOperationId e)
  (dragOverPosition e) (templateGroupKey e) (templatePresetKey e) x.

Section Editor.
Context (clock : nat → Z) (lower : jsstr → jsstr) (t : jsstr → Z → jsstr) (tr : jsstr → jsstr).

(** Runs code that makes ids: [None] is a thrown error. *)
Definition issue {A} (m : ids A) (k : A → editor → editor) (e : editor) : option editor :=
  match m (localIdSeed e) with Some (a, n) => Some (k a (setLocalIdSeed n e)) | None => None end.

Definition createDefault : ids operation := createDefaultOperation clock.
Definition pretty (v : jval) : jsstr := default [] (stringify2 v).
(** [ops[0]?.id || ''] *)
Definition first_id (ops : list operation) : jsstr := match ops with op :: _ => id op | [] => [] end.

(** ** Opening a stored value *)

Record initial := Initial {
  i_editMode : edit_mode; i_visualMode : visual_mode; i_legacyValue : jsstr; i_operations : list operation;
  i_jsonText : jsstr; i_jsonError : jsstr
}.

(** [ops.length > 0 ? ops.map(normalizeOperation) : [createDefaultOperation()]] *)
Definition read_operations (ops : list jval) : ids (list operation) :=
  match ops with
  | [] => let* op := createDefault in ids_ret [op]
  | _ => ids_map (normalizeOperation clock) ops
  end.

Definition parseInitialState (rawValue : jval) : ids initial :=
  let text := text_or_empty rawValue in
  let trimmed := trim text in
  if is_empty trimmed then let* op := createDefault in ids_ret (Initial visual operations_view [] [op] [] []) else
  match parse trimmed with
  | None => let* op := createDefault in ids_ret (Initial json operations_view [] [op] text (js "JSON 格式不正确"))
  | Some parsed =>
    match is_object parsed, read parsed (js "operations") with
    | true, JArr ops =>
      let* nextOperations := read_operations ops in
      ids_ret (Initial visual operations_view [] nextOperations (pretty parsed) [])
    | true, _ => let* op := createDefault in ids_ret (Initial visual legacy_view (pretty parsed) [op] (pretty parsed) [])
    | false, _ => let* op := createDefault in ids_ret (Initial json operations_view [] [op] (pretty parsed) [])
    end
  end.

(** The effect that runs when the dialog is shown. *)
Definition open_editor (value : jval) (e : editor) : option editor :=
  issue (parseInitialState value) (λ s e,
    Editor (i_editMode s) (i_visualMode s) (i_legacyValue s) (i_operations s) (i_jsonText s) (i_jsonError s)
      [] (first_id (i_operations s)) [] [] [] before
      (js "basic") (match i_visualMode s with legacy_view => js "legacy_default" | operations_view => js "operations_default" end)
      (localIdSeed e)) e.

(** ** What is shown *)

Definition templatePresetOptions (e : editor) : list (jsstr * jsstr) :=
  map (λ en, (en.1, label en.2)) (List.filter (λ en, streq (group en.2) (templateGroupKey e)) TEMPLATE_PRESET_CONFIG).

(** The effects on a change of the rules and of the template group. *)
Definition repair_selection (e : editor) : editor :=
  match operations e with
  | [] => setSelectedOperationId [] e
  | op :: _ => if existsb (λ o, streq (id o) (selectedOperationId e)) (operations e) then e else setSelectedOperationId (id op) e
  end.
Definition repair_preset (e : editor) : editor :=
  match templatePresetOptions e with
  | [] => e
  | o :: _ => if existsb (λ o, streq o.1 (templatePresetKey e)) (templatePresetOptions e) then e else setTemplatePresetKey o.1 e
  end.

Definition operationCount (e : editor) : nat := length (List.filter (λ op, negb (isOperationBlank op)) (operations e)).

Definition filteredOperations (e : editor) : list operation :=
  let keyword := lower (trim (operationSearch e)) in
  if is_empty keyword then operations e else
  List.filter (λ op, includes keyword (lower (join (js " ")
    (filter_truthy [description op; mode op; path op; from op; to op; value_text op])))) (operations e).

Definition find_operation (i : jsstr) (ops : list operation) : option operation := List.find (λ op, streq (id op) i) ops.
Definition selectedOperation (e : editor) : option operation := find_operation (selectedOperationId e) (operations e).
Definition selectedOperationIndex (e : editor) : option nat := index_of_id (selectedOperationId e) (operations e).

Definition returnErrorDraft (e : editor) : option return_error_draft :=
  match selectedOperation e with
  | Some op => if streq (mode op) (js "return_error") then Some (parseReturnErrorDraft (value_text op)) else None
  | None => None
  end.
(** A render that shows the form of a [prune_objects] rule makes ids for the
    rules of the form; every render makes one for the unused initial state. *)
Definition pruneObjectsDraft (e : editor) : ids (option prune_draft) :=
  match selectedOperation e with
  | Some op =>
    if streq (mode op) (js "prune_objects")
    then let* d := parsePruneObjectsDraft clock (value_text op) in ids_ret (Some d)
    else ids_ret None
  | None => ids_ret None
  end.
Definition render (e : editor) : option (option prune_draft * editor) :=
  match (let* _ := createDefault in pruneObjectsDraft e) (localIdSeed e) with
  | Some (d, n) => Some (d, setLocalIdSeed n e)
  | None => None
  end.

Definition topOperationModes (e : editor) : list (jsstr * nat) :=
  let counts := fold_left (λ acc op, let m := or_text (mode op) (js "set") in
                             assoc_set acc m (default 0 (assoc_get acc m) + 1)) (operations e) [] in
  take 4 (sort (λ a b, Z.of_nat b.2 - Z.of_nat a.2)%Z counts).

(** ** Text and form *)

Definition buildVisualJson (e : editor) : jsstr + jsstr :=
  match visualMode e with
  | legacy_view =>
    let trimmed := trim (legacyValue e) in
    if is_empty trimmed then inl [] else
    match parse trimmed with
    | None => inr (tr (js "参数覆盖必须是合法的 JSON 格式！"))
    | Some parsed => if is_object parsed then inl (pretty parsed) else inr (tr (js "旧格式必须是 JSON 对象"))
    end
  | operations_view => buildOperationsJson t true (operations e)
  end.

(** The second component is the message shown, if any. *)
Definition switchToJsonMode (e : editor) : editor * option jsstr :=
  match editMode e with
  | json => (e, None)
  | visual =>
    match buildVisualJson e with
    | inl text => (setEditMode json (setJsonError [] (setJsonText text e)), None)
    | inr msg =>
      let text := match visualMode e with
                  | legacy_view => legacyValue e
                  | operations_view => match buildOperationsJson t false (operations e) with inl text => text | inr _ => [] end
                  end in
      (setEditMode json (setJsonError (or_text msg (tr (js "参数配置有误"))) (setJsonText text e)), Some msg)
    end
  end.

Definition show_operations (ops : list operation) (e : editor) : editor :=
  setSelectedOperationId (first_id ops) (setOperations ops (setVisualMode operations_view e)).
Definition show_legacy (text : jsstr) (fallback : operation) (e : editor) : editor :=
  setSelectedOperationId (id fallback) (setOperations [fallback] (setLegacyValue text (setVisualMode legacy_view e))).

Definition switchToVisualMode (e : editor) : option (editor * option jsstr) :=
  match editMode e with
  | visual => Some (e, None)
  | json =>
    let trimmed := trim (jsonText e) in
    let quiet (r : option editor) : option (editor * option jsstr) := match r with Some e' => Some (e', None) | None => None end in
    if is_empty trimmed then
      quiet (issue createDefault (λ op e, setEditMode visual (setJsonError [] (setLegacyValue [] (show_operations [op] e)))) e)
    else
    match parse trimmed with
    | None => Some (e, Some (tr (js "参数覆盖必须是合法的 JSON 格式！")))
    | Some parsed =>
      match is_object parsed, read parsed (js "operations") with
      | true, JArr ops =>
        quiet (issue (read_operations ops) (λ nextOperations e,
          setTemplatePresetKey (js "operations_default") (setTemplateGroupKey (js "basic")
            (setEditMode visual (setJsonError [] (setLegacyValue [] (show_operations nextOperations e)))))) e)
      | true, _ =>
        quiet (issue createDefault (λ op e,
          setTemplatePresetKey (js "legacy_default") (setTemplateGroupKey (js "basic")
            (setEditMode visual (setJsonError [] (show_legacy (pretty parsed) op e))))) e)
      | false, _ => Some (e, Some (tr (js "参数覆盖必须是合法的 JSON 对象")))
      end
    end
  end.

Definition handleJsonChange (nextValue : jsstr) (e : editor) : editor :=
  let trimmed := trim nextValue in
  setJsonError (if is_empty trimmed || verifyJSON trimmed then [] else tr (js "JSON格式错误")) (setJsonText nextValue e).

Definition formatJson (e : editor) : editor * option jsstr :=
  let trimmed := trim (jsonText e) in
  if is_empty trimmed then (e, None) else
  match parse trimmed with
  | None => (e, Some (tr (js "参数覆盖必须是合法的 JSON 格式！")))
  | Some v => (setJsonError [] (setJsonText (pretty v) e), None)
  end.

Definition visualValidationError (e : editor) : jsstr :=
  match editMode e with
  | json => []
  | visual => match buildVisualJson e with inl _ => [] | inr msg => or_text msg (tr (js "参数配置有误")) end
  end.

(** [inl] is the text given to [onSave], [inr] the message shown instead. *)
Definition handleSave (e : editor) : jsstr + jsstr :=
  match editMode e with
  | json =>
    let trimmed := trim (jsonText e) in
    if is_empty trimmed then inl [] else
    match parse trimmed with
    | None => inr (tr (js "参数覆盖必须是合法的 JSON 格式！"))
    | Some v => inl (pretty v)
    end
  | visual => buildVisualJson e
  end.

(** ** Templates *)

Definition fillLegacyTemplate (legacyPayload : jval) (e : editor) : option editor :=
  let text := pretty legacyPayload in
  issue createDefault (λ op e, setEditMode visual (setJsonError [] (setJsonText text
    (setExpandedConditionMap [] (show_legacy text op e))))) e.

Definition fillOperationsTemplate (operationsPayload : list jval) (e : editor) : option editor :=
  issue (read_operations operationsPayload) (λ finalOperations e,
    setEditMode visual (setJsonError [] (setJsonText (pretty (operations_json operationsPayload))
      (setExpandedConditionMap [] (show_operations finalOperations e))))) e.

(** [inr msg] is the message shown when the text in the form cannot be merged. *)
Definition legacy_current (e : editor) : list (jsstr * jval) + jsstr :=
  match visualMode e with
  | operations_view => inl []
  | legacy_view =>
    let trimmed := trim (legacyValue e) in
    if is_empty trimmed then inl [] else
    match parse trimmed with
    | None => inr (tr (js "当前旧格式 JSON 不合法，无法追加模板"))
    | Some (JObj o) => inl o
    | Some _ => inr (tr (js "当前旧格式不是 JSON 对象，无法追加模板"))
    end
  end.
Definition appendLegacyTemplate (legacyPayload : jval) (e : editor) : option (editor * option jsstr) :=
  match legacy_current e with
  | inr msg => Some (e, Some msg)
  | inl parsedCurrent =>
    let text := pretty (JObj (spread (spread [] legacyPayload) (JObj parsedCurrent))) in
    match issue createDefault (λ op e, setEditMode visual (setJsonError [] (setJsonText text
            (setExpandedConditionMap [] (show_legacy text op e))))) e with
    | Some e' => Some (e', None)
    | None => None
    end
  end.

Definition appendOperationsTemplate (operationsPayload : list jval) (e : editor) : option editor :=
  issue (ids_map (normalizeOperation clock) operationsPayload) (λ appended e,
    let existing := match visualMode e with
                    | operations_view => List.filter (λ op, negb (isOperationBlank op)) (operations e)
                    | legacy_view => []
                    end in
    setJsonText [] (setEditMode visual (setJsonError [] (setLegacyValue [] (setExpandedConditionMap []
      (show_operations (existing ++ appended) e)))))) e.

Definition clearValue (e : editor) : option editor :=
  issue createDefault (λ op e,
    setTemplatePresetKey (js "operations_default") (setTemplateGroupKey (js "basic") (setJsonError [] (setJsonText []
      (setExpandedConditionMap [] (setLegacyValue [] (show_operations [op] e))))))) e.
Definition resetEditorState (e : editor) : option editor :=
  match clearValue e with Some e' => Some (setEditMode visual e') | None => None end.

Definition getSelectedTemplatePreset (e : editor) : preset :=
  default (Preset (js "basic") (js "新格式模板（规则集）") kind_operations OPERATION_TEMPLATE)
    (assoc_get TEMPLATE_PRESET_CONFIG (templatePresetKey e)).

(** [preset.payload?.operations || []] *)
Definition preset_operations (p : preset) : list jval := match read (payload p) (js "operations") with JArr l => l | _ => [] end.

Definition fillTemplateFromLibrary (e : editor) : option editor :=
  let preset := getSelectedTemplatePreset e in
  match kind preset with
  | kind_legacy => fillLegacyTemplate (payload preset) e
  | kind_operations => fillOperationsTemplate (preset_operations preset) e
  end.
Definition appendTemplateFromLibrary (e : editor) : option (editor * option jsstr) :=
  let preset := getSelectedTemplatePreset e in
  match kind preset with
  | kind_legacy => appendLegacyTemplate (payload preset) e
  | kind_operations => match appendOperationsTemplate (preset_operations preset) e with
                       | Some e' => Some (e', None)
                       | None => None
                       end
  end.

(** ** Editing rules *)

(** The fields of a rule the form writes: [{ ...item, ...patch }]. *)
Inductive patch :=
  | p_description (s : jsstr) | p_path (s : jsstr) | p_mode (s : jsstr) | p_value_text (s : jsstr)
  | p_keep_origin (b : bool) | p_from (s : jsstr) | p_to (s : jsstr) | p_logic (s : jsstr).
Definition apply_patch (p : patch) (op : operation) : operation :=
  let 'Operation i d pa m v k f o l c := op in
  match p with
  | p_description s => Operation i s pa m v k f o l c
  | p_path s => Operation i d s m v k f o l c
  | p_mode s => Operation i d pa s v k f o l c
  | p_value_text s => Operation i d pa m s k f o l c
  | p_keep_origin b => Operation i d pa m v b f o l c
  | p_from s => Operation i d pa m v k s o l c
  | p_to s => Operation i d pa m v k f s l c
  | p_logic s => Operation i d pa m v k f o s c
  end.

Inductive cond_patch :=
  | c_path (s : jsstr) | c_mode (s : jsstr) | c_value_text (s : jsstr) | c_invert (b : bool) | c_pass_missing_key (b : bool).
Definition apply_cond_patch (p : cond_patch) (c : condition) : condition :=
  let 'Condition i pa m v n k := c in
  match p with
  | c_path s => Condition i s m v n k
  | c_mode s => Condition i pa s v n k
  | c_value_text s => Condition i pa m s n k
  | c_invert b => Condition i pa m v b k
  | c_pass_missing_key b => Condition i pa m v n b
  end.

Definition map_operation (operationId : jsstr) (f : operation → operation) (e : editor) : editor :=
  setOperations (map (λ op, if streq (id op) operationId then f op else op) (operations e)) e.

Definition updateOperation (operationId : jsstr) (p : patch) (e : editor) : editor :=
  map_operation operationId (apply_patch p) e.

Inductive field_target := target_path | target_from | target_to.
Definition applyBuiltinField (fieldKey : jsstr) (target : field_target) (e : editor) : editor * option jsstr :=
  match selectedOperation e with
  | None => (e, Some (tr (js "请先选择一条规则")))
  | Some op =>
    let m := or_text (mode op) (js "set") in
    let meta := meta_of m in
    let sync := streq m (js "sync_fields") in
    let spec := if sync then buildSyncTargetSpec (js "json") fieldKey else fieldKey in
    let refused := (e, Some (tr (js "当前规则不支持写入到该位置"))) in
    match target with
    | target_path => if m_path meta || m_pathOptional meta || m_pathAlias meta
                     then (updateOperation (id op) (p_path fieldKey) e, None) else refused
    | target_from => if m_from meta || m_pathAlias meta || sync then (updateOperation (id op) (p_from spec) e, None) else refused
    | target_to => if m_to meta || sync then (updateOperation (id op) (p_to spec) e, None) else refused
    end
  end.

Definition formatSelectedOperationValueAsJson (e : editor) : editor * option jsstr :=
  match selectedOperation e with
  | None => (e, None)
  | Some op =>
    let raw := trim (value_text op) in
    if is_empty raw then (e, None) else
    match parse raw with
    | None => (e, Some (tr (js "当前值不是合法 JSON，无法格式化")))
    | Some v => (updateOperation (id op) (p_value_text (pretty v)) e, None)
    end
  end.

(** [{ ...draft, ...draftPatch }] is a function on drafts. *)
Definition updateReturnErrorDraft (operationId : jsstr) (draftPatch : return_error_draft → return_error_draft) (e : editor) : editor :=
  match find_operation operationId (operations e) with
  | None => e
  | Some current =>
    updateOperation operationId
      (p_value_text (buildReturnErrorValueText (draftPatch (parseReturnErrorDraft (value_text current))))) e
  end.

(** An update may itself make ids. *)
Definition updatePruneObjectsDraft (operationId : jsstr) (updater : prune_draft → ids prune_draft) (e : editor) : option editor :=
  match find_operation operationId (operations e) with
  | None => Some e
  | Some current =>
    issue (let* draft := parsePruneObjectsDraft clock (value_text current) in updater draft)
      (λ nextDraft e, updateOperation operationId (p_value_text (buildPruneObjectsValueText nextDraft)) e) e
  end.

Definition addPruneRule (operationId : jsstr) (e : editor) : option editor :=
  updatePruneObjectsDraft operationId (λ draft,
    let* rule := normalizePruneRule clock (JObj []) in
    ids_ret (Prune false (typeText draft) (pr_logic draft) (recursive draft) (rules draft ++ [rule]))) e.

Definition updatePruneRule (operationId ruleId : jsstr) (p : cond_patch) (e : editor) : option editor :=
  updatePruneObjectsDraft operationId (λ draft, ids_ret
    (Prune (simpleMode draft) (typeText draft) (pr_logic draft) (recursive draft)
      (map (λ rule, if streq (cond_id rule) ruleId then apply_cond_patch p rule else rule) (rules draft)))) e.

Definition removePruneRule (operationId ruleId : jsstr) (e : editor) : option editor :=
  updatePruneObjectsDraft operationId (λ draft, ids_ret
    (Prune (simpleMode draft) (typeText draft) (pr_logic draft) (recursive draft)
      (List.filter (λ rule, negb (streq (cond_id rule) ruleId)) (rules draft)))) e.

Definition addOperation (e : editor) : option editor :=
  issue createDefault (λ created e, setSelectedOperationId (id created) (setOperations (operations e ++ [created]) e)) e.

(** ** Moving rules *)

Definition resetOperationDragState (e : editor) : editor :=
  setDragOverPosition before (setDragOverOperationId [] (setDraggedOperationId [] e)).

Definition moveOperation (sourceId targetId : jsstr) (pos : position) (e : editor) : editor :=
  if is_empty sourceId || is_empty targetId || streq sourceId targetId then e
  else setSelectedOperationId sourceId (setOperations (reorderOperations (operations e) sourceId targetId pos) e).

Definition handleOperationDragStart (operationId : jsstr) (e : editor) : editor :=
  setSelectedOperationId operationId (setDraggedOperationId operationId e).

(** [pos] is the half of the rule the pointer is over. *)
Definition handleOperationDragOver (operationId : jsstr) (pos : position) (e : editor) : editor :=
  if is_empty (draggedOperationId e) || streq (draggedOperationId e) operationId then e
  else setDragOverPosition pos (setDragOverOperationId operationId e).

(** [data] is the text the drag carries. *)
Definition handleOperationDrop (operationId data : jsstr) (e : editor) : editor :=
  let sourceId := or_text (draggedOperationId e) data in
  let pos := if streq (dragOverOperationId e) operationId then dragOverPosition e else before in
  resetOperationDragState (moveOperation sourceId operationId pos e).

(** ** Copying and removing rules *)

Definition cloned_condition (c : condition) : jval :=
  JObj [(js "path", JStr (cond_path c)); (js "mode", JStr (cond_mode c)); (js "value", parseLooseValue (cond_value_text c));
        (js "invert", JBool (cond_invert c)); (js "pass_missing_key", JBool (cond_pass_missing_key c))].
Definition cloned_operation (source : operation) : jval :=
  JObj [(js "description", JStr (description source)); (js "path", JStr (path source)); (js "mode", JStr (mode source));
        (js "value", parseLooseValue (value_text source)); (js "keep_origin", JBool (keep_origin source));
        (js "from", JStr (from source)); (js "to", JStr (to source)); (js "logic", JStr (logic source));
        (js "conditions", JArr (map cloned_condition (conditions source)))].

(** [eager]: whether the updater has run when [setOperations] returns, which
    is React's choice; only then the copy is selected. *)
Definition duplicateOperation (eager : bool) (operationId : jsstr) (e : editor) : option editor :=
  match index_of_id operationId (operations e) with
  | None => Some e
  | Some index =>
    match operations e !! index with
    | None => Some e
    | Some source =>
      issue (normalizeOperation clock (cloned_operation source)) (λ cloned e,
        let e := setOperations (insert_at (index + 1) cloned (operations e)) e in
        if eager then setSelectedOperationId (id cloned) e else e) e
    end
  end.

Definition removeOperation (operationId : jsstr) (e : editor) : option editor :=
  let forget e := setExpandedConditionMap (assoc_delete (expandedConditionMap e) operationId) e in
  if (length (operations e) <=? 1)%nat then issue createDefault (λ op e, forget (setOperations [op] e)) e
  else Some (forget (setOperations (List.filter (λ op, negb (streq (id op) operationId)) (operations e)) e)).

(** ** Conditions *)

Definition set_conditions (f : list condition → list condition) (op : operation) : operation :=
  let 'Operation i d pa m v k fr o l c := op in Operation i d pa m v k fr o l (f c).

(** [prev[operationId] || []] *)
Definition expanded (e : editor) (operationId : jsstr) : list jsstr := default [] (assoc_get (expandedConditionMap e) operationId).
Definition set_expanded (operationId : jsstr) (ks : list jsstr) (e : editor) : editor :=
  setExpandedConditionMap (assoc_set (expandedConditionMap e) operationId ks) e.

Definition addCondition (operationId : jsstr) (e : editor) : option editor :=
  issue (createDefaultCondition clock) (λ created e,
    set_expanded operationId (expanded e operationId ++ [cond_id created])
      (map_operation operationId (set_conditions (λ cs, cs ++ [created])) e)) e.

Definition updateCondition (operationId conditionId : jsstr) (p : cond_patch) (e : editor) : editor :=
  map_operation operationId (set_conditions (map (λ c, if streq (cond_id c) conditionId then apply_cond_patch p c else c))) e.

Definition removeCondition (operationId conditionId : jsstr) (e : editor) : editor :=
  set_expanded operationId (List.filter (λ k, negb (streq k conditionId)) (expanded e operationId))
    (map_operation operationId (set_conditions (List.filter (λ c, negb (streq (cond_id c) conditionId)))) e).

Definition selectedConditionKeys (e : editor) : list jsstr := expanded e (selectedOperationId e).

Definition handleConditionCollapseChange (operationId : jsstr) (activeKeys : list jsstr) (e : editor) : editor :=
  set_expanded operationId (filter_truthy activeKeys) e.

Definition expandAllSelectedConditions (e : editor) : editor :=
  match selectedOperation e with
  | Some op => if is_empty (selectedOperationId e) then e
               else set_expanded (selectedOperationId e) (map cond_id (conditions op)) e
  | None => e
  end.
Definition collapseAllSelectedConditions (e : editor) : editor :=
  if is_empty (selectedOperationId e) then e else set_expanded (selectedOperationId e) [] e.

(** ** The dialog as a whole: every control it has, and the effects after each *)

Inductive event :=
  | ev_open (value : jval) | ev_json | ev_visual | ev_json_change (text : jsstr) | ev_format_json
  | ev_template_group (scenario : bool) | ev_template_preset (key : jsstr) | ev_fill | ev_append | ev_reset
  | ev_legacy_change (text : jsstr) | ev_search (text : jsstr) | ev_select (i : jsstr)
  | ev_update (i : jsstr) (p : patch) | ev_field (key : jsstr) (target : field_target) | ev_format_value
  | ev_return_error (i : jsstr) (f : return_error_draft → return_error_draft)
  | ev_prune (i : jsstr) (f : prune_draft → prune_draft) | ev_prune_add (i : jsstr)
  | ev_prune_update (i rule : jsstr) (p : cond_patch) | ev_prune_remove (i rule : jsstr)
  | ev_add | ev_drag_start (i : jsstr) | ev_drag_over (i : jsstr) (pos : position) | ev_drop (i data : jsstr) | ev_drag_end
  | ev_duplicate (eager : bool) (i : jsstr) | ev_remove (i : jsstr)
  | ev_add_condition (i : jsstr) | ev_update_condition (i c : jsstr) (p : cond_patch) | ev_remove_condition (i c : jsstr)
  | ev_collapse (i : jsstr) (ks : list jsstr) | ev_expand_all | ev_collapse_all | ev_render.

(** [None] is an error nobody catches. *)
Definition handle (ev : event) (e : editor) : option editor :=
  match ev with
  | ev_open value => open_editor value e
  | ev_json => Some (switchToJsonMode e).1
  | ev_visual => fst <$> switchToVisualMode e
  | ev_json_change text => Some (handleJsonChange text e)
  | ev_format_json => Some (formatJson e).1
  | ev_template_group scenario => Some (setTemplateGroupKey (if scenario then js "scenario" else js "basic") e)
  | ev_template_preset key => Some (setTemplatePresetKey (or_text key (js "operations_default")) e)
  | ev_fill => fillTemplateFromLibrary e
  | ev_append => fst <$> appendTemplateFromLibrary e
  | ev_reset => resetEditorState e
  | ev_legacy_change text => Some (setLegacyValue text e)
  | ev_search text => Some (setOperationSearch text e)
  | ev_select i => Some (setSelectedOperationId i e)
  | ev_update i p => Some (updateOperation i p e)
  | ev_field key target => Some (applyBuiltinField key target e).1
  | ev_format_value => Some (formatSelectedOperationValueAsJson e).1
  | ev_return_error i f => Some (updateReturnErrorDraft i f e)
  | ev_prune i f => updatePruneObjectsDraft i (λ d, ids_ret (f d)) e
  | ev_prune_add i => addPruneRule i e
  | ev_prune_update i rule p => updatePruneRule i rule p e
  | ev_prune_remove i rule => removePruneRule i rule e
  | ev_add => addOperation e
  | ev_drag_start i => Some (handleOperationDragStart i e)
  | ev_drag_over i pos => Some (handleOperationDragOver i pos e)
  | ev_drop i data => Some (handleOperationDrop i data e)
  | ev_drag_end => Some (resetOperationDragState e)
  | ev_duplicate eager i => duplicateOperation eager i e
  | ev_remove i => removeOperation i e
  | ev_add_condition i => addCondition i e
  | ev_update_condition i c p => Some (updateCondition i c p e)
  | ev_remove_condition i c => Some (removeCondition i c e)
  | ev_collapse i ks => Some (handleConditionCollapseChange i ks e)
  | ev_expand_all => Some (expandAllSelectedConditions e)
  | ev_collapse_all => Some (collapseAllSelectedConditions e)
  | ev_render => snd <$> render e
  end.

(** The state of the hooks before the dialog is shown, with [n] ids given out. *)
Definition initial_editor (n : nat) : option editor :=
  issue createDefault (λ op e, setOperations [op] e)
    (Editor visual operations_view [] [] [] [] [] [] [] [] [] before (js "basic") (js "operations_default") n).

(** The states the dialog shows: after each event the effects have run. *)
Inductive reachable : editor → Prop :=
  | reach_start n e : initial_editor n = Some e → reachable (repair_preset (repair_selection e))
  | reach_step e ev e' : reachable e → handle ev e = Some e' → reachable (repair_preset (repair_selection e')).
End Editor.
