(* ===== verification/ParamOverrideTheorems.v ===== *)
(** * The editor of parameter overrides: properties

    Ids, the invariant of the editor's state, what saving and reopening keep,
    what the checks guarantee, moving rules, the templates, and the forms of
    two kinds of rule. *)

From stdpp Require Import sets sorting.
From S2P Require Import Prelude JsString JsNumber Json JsObject ParamOverride ParamOverrideEditor.

(** ** Ids *)

Lemma split_last_unit (c : N) (a a' d d' : jsstr) : c ∉ d → c ∉ d' → a ++ c :: d = a' ++ c :: d' → d = d'.
Proof.
  revert a'. induction a as [|x a IH]; intros a' H H' E; destruct a' as [|y a']; cbn [app] in E; simplify_eq.
  - done.
  - exfalso. apply H. set_solver.
  - exfalso. apply H'. set_solver.
  - by eapply IH.
Qed.

Section Ids.
Context (clock : nat → Z).

Lemma local_id_inj n m : local_id clock n = local_id clock m → n = m.
Proof.
  unfold local_id. change (js "_") with [95%N]. cbn [app]. rewrite !app_assoc. intros H.
  apply numeral_inj. eapply split_last_unit; [| |exact H]; intros Hin.
  all: unfold string_of_Z in Hin; rewrite (proj2 (Z.ltb_ge _ _)) in Hin by lia.
  all: revert Hin; apply digits_not_in; [apply string_of_nonneg_spec; lia|reflexivity].
Qed.

Lemma local_id_nonempty n : local_id clock n ≠ [].
Proof. unfold local_id. intros H. apply app_eq_nil in H as [H _]. discriminate H. Qed.

(** [m] gives out consecutive ids, and [all] lists them. *)
Definition makes {A} (m : ids A) (all : A → list jsstr) : Prop :=
  ∀ n a n', m n = Some (a, n') → ∃ k, n' = n + k ∧ all a = map (local_id clock) (seq n k).

Lemma makes_ret {A} (a : A) all : all a = [] → makes (ids_ret a) all.
Proof. intros H n a' n' [= <- <-]. exists 0. by rewrite H, Nat.add_0_r. Qed.

Lemma makes_map {A B} (f : A → ids B) all l : (∀ x, x ∈ l → makes (f x) all) → makes (ids_map f l) (λ ys, concat (map all ys)).
Proof.
  induction l as [|x l IH]; intros Hf; cbn [ids_map]; [by apply makes_ret|].
  intros n ys n'. unfold ids_bind. destruct (f x n) as [[y n1]|] eqn:E; [|done].
  destruct (ids_map f l n1) as [[ys' n2]|] eqn:E2; [|done]. intros [= <- <-].
  destruct (Hf x ltac:(set_solver) _ _ _ E) as (k & -> & Ha).
  destruct (IH ltac:(set_solver) _ _ _ E2) as (k2 & -> & Hb). exists (k + k2). split; [lia|].
  cbn [map concat]. by rewrite Ha, Hb, seq_app, map_app.
Qed.

Lemma makes_condition v : makes (normalizeCondition clock v) (λ c, [cond_id c]).
Proof.
  intros n c n'. unfold normalizeCondition, ids_bind, nextLocalId, ids_ret, ids_throw.
  destruct v; try discriminate; intros [= <- <-]; exists 1; (split; [lia|reflexivity]).
Qed.

Lemma makes_rule v : makes (normalizePruneRule clock v) (λ c, [cond_id c]).
Proof. exact (makes_condition v). Qed.

Lemma concat_singletons {A B} (f : A → B) l : concat (map (λ x, [f x]) l) = map f l.
Proof. induction l as [|x l IH]; cbn [map concat app]; [done|by rewrite IH]. Qed.

Lemma makes_conditions v : makes (read_conditions clock v) (map cond_id).
Proof.
  unfold read_conditions. destruct v as [| | | | |l|]; try (by apply makes_ret).
  intros n cs n' H. rewrite <- concat_singletons. eapply makes_map; [|exact H]. intros x _. apply makes_condition.
Qed.

(** A rule's id and the ids of its conditions. *)
Definition op_ids (op : operation) : list jsstr := id op :: map cond_id (conditions op).
Definition all_ids (ops : list operation) : list jsstr := concat (map op_ids ops).

Lemma makes_operation v : makes (normalizeOperation clock v) op_ids.
Proof.
  intros n op n' H.
  assert (Hc : ∃ conds, read_conditions clock (read v (js "conditions")) (S n) = Some (conds, n') ∧
                        op_ids op = local_id clock n :: map cond_id conds).
  { unfold normalizeOperation, ids_bind, nextLocalId, ids_ret, ids_throw in H.
    destruct v; try discriminate H;
      (destruct (read_conditions clock _ (S n)) as [[conds n1]|] eqn:E; [|discriminate H]);
      injection H as <- <-; exists conds; (split; reflexivity). }
  destruct Hc as (conds & Hc & ->). destruct (makes_conditions _ _ _ _ Hc) as (k & -> & ->).
  exists (S k). split; [lia|reflexivity].
Qed.

Lemma makes_exact_rules v : makes (exact_rules clock v) (map cond_id).
Proof.
  intros n cs n' H. rewrite <- concat_singletons. eapply makes_map; [|exact H]. intros x _. apply makes_rule.
Qed.

Lemma makes_app {A} (m1 m2 : ids (list condition)) (f : list condition → A) (all : A → list jsstr) :
  makes m1 (map cond_id) → makes m2 (map cond_id) → (∀ l, all (f l) = map cond_id l) →
  makes (let* r1 := m1 in let* r2 := m2 in ids_ret (f (r1 ++ r2))) all.
Proof.
  intros H1 H2 Hf n a n'. unfold ids_bind, ids_ret. destruct (m1 n) as [[r1 n1]|] eqn:E1; [|done].
  destruct (m2 n1) as [[r2 n2]|] eqn:E2; [|done]. intros [= <- <-].
  destruct (H1 _ _ _ E1) as (k & -> & Hr1). destruct (H2 _ _ _ E2) as (k2 & -> & Hr2).
  exists (k + k2). split; [lia|]. by rewrite Hf, map_app, Hr1, Hr2, seq_app, map_app.
Qed.

Lemma makes_draft vt : makes (parsePruneObjectsDraft clock vt) (λ d, map cond_id (rules d)).
Proof.
  unfold parsePruneObjectsDraft. destruct (is_empty (trim vt)); [by apply makes_ret|].
  destruct (parse (trim vt)) as [[| | | | | |o]|]; try (by apply makes_ret).
  apply (makes_app _ _ (λ l, Prune _ _ _ _ l)); [| |reflexivity].
  - destruct (is_object _); [apply makes_exact_rules|by apply makes_ret].
  - destruct (read (JObj o) (js "conditions")) as [| | | | |l|o']; try (by apply makes_ret); [|apply makes_exact_rules].
    intros n cs n' H. rewrite <- concat_singletons. eapply makes_map; [|exact H]. intros x _. apply makes_rule.
Qed.

(** Reading the form of a [prune_objects] rule never throws. *)
Lemma ids_map_total {A B} (f : A → ids B) l n : (∀ x n, x ∈ l → is_Some (f x n)) → is_Some (ids_map f l n).
Proof.
  revert n. induction l as [|x l IH]; intros n Hf; cbn [ids_map]; [by eexists|]. unfold ids_bind.
  destruct (Hf x n ltac:(set_solver)) as [[y n1] ->]. destruct (IH n1 ltac:(set_solver)) as [[ys n2] ->]. by eexists.
Qed.

Lemma rule_total v n : v ≠ JNull → is_Some (normalizePruneRule clock v n).
Proof. intros Hv. destruct v; [by eexists|done|by eexists..]. Qed.

Lemma exact_rules_total v n : is_Some (exact_rules clock v n).
Proof. apply ids_map_total. intros x m _. by apply rule_total. Qed.

Lemma draft_total vt n : is_Some (parsePruneObjectsDraft clock vt n).
Proof.
  unfold parsePruneObjectsDraft. destruct (is_empty (trim vt)); [by eexists|].
  destruct (parse (trim vt)) as [[| | | | | |o]|]; try (by eexists). unfold ids_bind.
  match goal with |- context [(if ?b then ?x else ?y) n] =>
    assert (H1 : is_Some ((if b then x else y) n)) by (destruct b; [apply exact_rules_total|by eexists]) end.
  destruct H1 as [[r1 n1] ->].
  match goal with |- context [match ?m n1 with _ => _ end] => assert (H2 : is_Some (m n1)) end.
  { destruct (read (JObj o) (js "conditions")) as [| | | | |l|o']; try (by eexists); [|apply exact_rules_total].
    apply ids_map_total. intros x m [_ Hx]%list_elem_of_In%filter_In. apply rule_total. by intros ->. }
  destruct H2 as [[r2 n2] ->]. by eexists.
Qed.
End Ids.

(** ** The form of a [prune_objects] rule *)

Section PruneForm.
Context (clock : nat → Z).

Lemma map_id_if {A} (f : A → A) (p : A → bool) l : (∀ x, x ∈ l → p x = false) → map (λ x, if p x then f x else x) l = l.
Proof. induction l as [|x l IH]; intros H; cbn [map]; [done|]. rewrite (H x), IH; [done|set_solver..]. Qed.

(** Ids given out later differ from those a render has shown. *)
Lemma later_ids d0 n0 n1 vt vt' n d n' r r' : n1 ≤ n →
  parsePruneObjectsDraft clock vt n0 = Some (d0, n1) → parsePruneObjectsDraft clock vt' n = Some (d, n') →
  r ∈ rules d0 → r' ∈ rules d → streq (cond_id r') (cond_id r) = false.
Proof.
  intros Hn H0 H Hr Hr'. apply streq_false. intros E.
  destruct (makes_draft clock _ _ _ _ H0) as (k0 & -> & Hi0). destruct (makes_draft clock _ _ _ _ H) as (k & -> & Hi).
  assert (H1 : cond_id r ∈ map cond_id (rules d0)) by (apply list_elem_of_fmap; eauto).
  assert (H2 : cond_id r' ∈ map cond_id (rules d)) by (apply list_elem_of_fmap; eauto).
  rewrite Hi0 in H1. rewrite Hi in H2. apply list_elem_of_fmap in H1 as (a & Ea & Ha). apply list_elem_of_fmap in H2 as (b & Eb & Hb).
  apply elem_of_seq in Ha. apply elem_of_seq in Hb. rewrite Ea, Eb in E. apply local_id_inj in E. lia.
Qed.

Lemma update_draft_ext opId (f g : prune_draft → ids prune_draft) e :
  (∀ vt d n, parsePruneObjectsDraft clock vt (localIdSeed e) = Some (d, n) → f d n = g d n) →
  updatePruneObjectsDraft clock opId f e = updatePruneObjectsDraft clock opId g e.
Proof.
  intros H. unfold updatePruneObjectsDraft. destruct (find_operation _ _) as [op|]; [|done]. unfold issue, ids_bind.
  destruct (parsePruneObjectsDraft clock (value_text op) (localIdSeed e)) as [[d n]|] eqn:E; [|done]. by rewrite (H _ _ _ E).
Qed.

Lemma render_shows e d e' : render clock e = Some (Some d, e') →
  ∃ vt n, parsePruneObjectsDraft clock vt n = Some (d, localIdSeed e').
Proof.
  unfold render, ids_bind, pruneObjectsDraft. destruct (createDefault clock (localIdSeed e)) as [[op0 n0]|]; [|done].
  destruct (selectedOperation e) as [op|]; [|done]. destruct (streq (mode op) (js "prune_objects")); [|done]. unfold ids_bind.
  destruct (parsePruneObjectsDraft clock (value_text op) n0) as [[d' n1]|] eqn:E; [|done]. intros [= <- <-]. by exists (value_text op), n0.
Qed.

(** A rule without a path is not written. *)
Lemma blank_rule_not_written s ty lo re rs n rule n' : normalizePruneRule clock (JObj []) n = Some (rule, n') →
  buildPruneObjectsValueText (Prune s ty lo re (rs ++ [rule])) = buildPruneObjectsValueText (Prune s ty lo re rs).
Proof.
  intros [= <- <-]. unfold buildPruneObjectsValueText. cbn [rules typeText simpleMode pr_logic recursive].
  rewrite List.filter_app. cbn [List.filter cond_path]. by rewrite app_nil_r.
Qed.

(** The buttons and fields of the rules in the form of a [prune_objects] operation do nothing: whatever rule
    the form shows, changing one of its fields or removing it rewrites the value as it is, and adding a rule writes
    the rules there were. *)
Theorem prune_form_frozen e d e1 rule opId p e2 :
  render clock e = Some (Some d, e1) → rule ∈ rules d → localIdSeed e1 ≤ localIdSeed e2 →
  updatePruneRule clock opId (cond_id rule) p e2 = updatePruneObjectsDraft clock opId ids_ret e2 ∧
  removePruneRule clock opId (cond_id rule) e2 = updatePruneObjectsDraft clock opId ids_ret e2 ∧
  operations <$> addPruneRule clock opId e2 =
    operations <$> updatePruneObjectsDraft clock opId
      (λ d, ids_ret (Prune false (typeText d) (pr_logic d) (recursive d) (rules d))) e2.
Proof.
  intros Hr Hin Hn. destruct (render_shows _ _ _ Hr) as (vt0 & n0 & H0). split_and!.
  - apply update_draft_ext. intros vt d' n H. destruct d' as [s ty lo re rs]. cbn [simpleMode typeText pr_logic recursive rules].
    rewrite map_id_if; [reflexivity|]. intros r' Hr'. by eapply (later_ids d n0).
  - apply update_draft_ext. intros vt d' n H. destruct d' as [s ty lo re rs]. cbn [simpleMode typeText pr_logic recursive rules].
    rewrite filter_all; [reflexivity|]. apply forallb_forall. intros r' Hr'%list_elem_of_In. apply negb_true_iff.
    by eapply (later_ids d n0).
  - unfold addPruneRule, updatePruneObjectsDraft. destruct (find_operation _ _) as [op|]; [|done]. unfold issue, ids_bind.
    destruct (draft_total clock (value_text op) (localIdSeed e2)) as [[d' n] ->].
    destruct (rule_total clock (JObj []) n ltac:(done)) as [[rule' n'] Erule]. rewrite Erule. unfold ids_ret.
    cbn [fmap option_fmap option_map]. rewrite (blank_rule_not_written _ _ _ _ _ _ _ _ Erule). reflexivity.
Qed.
End PruneForm.

(** A dialog that shows a [prune_objects] rule with one condition. *)
Definition sample_prune : editor :=
  Editor visual operations_view []
    [Operation (js "a") [] [] (js "prune_objects") (jsq "{'conditions':[{'path':'type','mode':'full','value':'image'}]}")
       false [] [] (js "OR") []]
    [] [] [] (js "a") [] [] [] before (js "basic") (js "operations_default") 7.

Lemma prune_form_frozen_witness :
  match render (λ _, 0%Z) sample_prune with
  | Some (Some d, e) =>
    match rules d with
    | rule :: _ =>
      updatePruneRule (λ _, 0%Z) (js "a") (cond_id rule) (c_path (js "role")) e =
        updatePruneObjectsDraft (λ _, 0%Z) (js "a") ids_ret e
    | [] => False
    end
  | _ => False
  end.
Proof.
  destruct (render (λ _, 0%Z) sample_prune) as [[[d|] e]|] eqn:E; [|vm_compute in E; discriminate E..].
  destruct (rules d) as [|rule l] eqn:Er; [vm_compute in E; injection E as <- <-; discriminate Er|].
  eapply (prune_form_frozen (λ _, 0%Z) sample_prune d e rule (js "a") (c_path (js "role")) e E); [|done]. rewrite Er. left.
Defined.

(** ** Moving a rule *)

Lemma index_split i ops k : index_of_id i ops = Some k →
  ∃ l1 x l2, ops = l1 ++ x :: l2 ∧ length l1 = k ∧ id x = i ∧ ops !! k = Some x.
Proof.
  intros (x & Hx & Hid & _)%find_index_Some. apply streq_true in Hid. exists (take k ops), x, (drop (S k) ops). split_and!.
  - symmetry. by apply take_drop_middle.
  - rewrite length_take. apply lookup_lt_Some in Hx. lia.
  - exact Hid.
  - exact Hx.
Qed.

Lemma index_found i ops : i ∈ map id ops → ∃ k, index_of_id i ops = Some k.
Proof.
  intros (x & -> & Hx)%list_elem_of_fmap. destruct (index_of_id (id x) ops) as [k|] eqn:E; [eauto|].
  apply find_index_None in E. rewrite forallb_forall in E. apply list_elem_of_In in Hx. specialize (E x Hx).
  cbn beta in E. by rewrite streq_refl in E.
Qed.

Lemma insert_at_app {A} (l1 l2 : list A) x k : length l1 = k → insert_at k x (l1 ++ l2) = l1 ++ x :: l2.
Proof. intros <-. unfold insert_at. by rewrite take_app_length, drop_app_length. Qed.

Lemma remove_at_app {A} (l1 l2 : list A) x k : length l1 = k → remove_at k (l1 ++ x :: l2) = l1 ++ l2.
Proof.
  intros <-. unfold remove_at. rewrite take_app_length. f_equal.
  change (l1 ++ x :: l2) with (l1 ++ [x] ++ l2). rewrite app_assoc, drop_app_length'; [done|]. rewrite length_app. simpl. lia.
Qed.

(** Dragging a rule onto another one puts it right before or right after that rule, and every other rule keeps
    its place among the rest: nothing is lost or repeated. *)
Theorem reorder_exact ops s target pos :
  s ∈ map id ops → target ∈ map id ops → s ≠ target → s ≠ [] → target ≠ [] →
  ∃ m g l1 l2 r1 r2, id m = s ∧ id g = target ∧ ops = l1 ++ m :: l2 ∧ l1 ++ l2 = r1 ++ g :: r2 ∧
    reorderOperations ops s target pos = r1 ++ match pos with before => [m; g] | after => [g; m] end ++ r2.
Proof.
  intros Hs Ht Hne Hs0 Ht0. destruct (index_found _ _ Hs) as [i Hi].
  destruct (index_split _ _ _ Hi) as (l1 & m & l2 & -> & Hl1 & Hm & Hlk).
  assert (Ht' : target ∈ map id (l1 ++ l2)).
  { clear Hs Hi Hlk. rewrite map_app, elem_of_app in *. cbn [map] in Ht. rewrite elem_of_cons in Ht. intuition congruence. }
  destruct (index_found _ _ Ht') as [j Hj]. destruct (index_split _ _ _ Hj) as (r1 & g & r2 & Er & Hr1 & Hg & _).
  exists m, g, l1, l2, r1, r2. split_and!; [done..|]. unfold reorderOperations.
  destruct s as [|s0 s']; [done|]. destruct target as [|t0 t']; [done|]. cbn [is_empty orb].
  rewrite (proj2 (streq_false _ _) Hne), Hi, Hlk, remove_at_app, Hj, Er by done. destruct pos.
  - by apply insert_at_app.
  - change (r1 ++ g :: r2) with (r1 ++ [g] ++ r2). rewrite app_assoc, insert_at_app; [by rewrite <- app_assoc|].
    rewrite length_app. simpl. lia.
Qed.

Lemma reorder_exact_witness :
  let op i := Operation (js i) [] [] (js "set") [] false [] [] (js "OR") [] in
  let ops := [op "a"%string; op "b"%string; op "c"%string] in
  reorderOperations ops (js "c") (js "a") before = [op "c"%string; op "a"%string; op "b"%string] ∧
  ∃ m g l1 l2 r1 r2, id m = js "a" ∧ id g = js "b" ∧ ops = l1 ++ m :: l2 ∧ l1 ++ l2 = r1 ++ g :: r2 ∧
    reorderOperations ops (js "a") (js "b") after = r1 ++ [g; m] ++ r2.
Proof.
  split; [vm_compute; reflexivity|].
  apply (reorder_exact _ (js "a") (js "b") after); [| |discriminate..]; apply list_elem_of_In; vm_compute; tauto.
Defined.

Lemma reorder_perm ops s target pos : reorderOperations ops s target pos ≡ₚ ops.
Proof.
  unfold reorderOperations. destruct (_ || _); [done|]. destruct (index_of_id s ops) as [i|] eqn:Hi; [|done].
  destruct (index_split _ _ _ Hi) as (l1 & m & l2 & -> & Hl1 & Hm & ->). rewrite remove_at_app by done.
  destruct (index_of_id target (l1 ++ l2)) as [j|]; [|done]. unfold insert_at.
  rewrite <- Permutation_middle, take_drop. apply Permutation_middle.
Qed.

(** ** The invariant of the dialog *)

Local Opaque js.

Section Invariant.
Context (clock : nat → Z).

(** Every id of a rule or condition was given out, and none twice. *)
Definition ids_ok (e : editor) : Prop :=
  NoDup (all_ids (operations e)) ∧
  Forall (λ i, ∃ k, k < localIdSeed e ∧ i = local_id clock k) (all_ids (operations e)).
Definition rules_ok (e : editor) : Prop := operations e ≠ [] ∧ ids_ok e.

Lemma fresh_NoDup n k : NoDup (map (local_id clock) (seq n k)).
Proof. apply NoDup_fmap_2_strong; [|apply NoDup_seq]. intros x y _ _. apply local_id_inj. Qed.

Lemma NoDup_sub {A} (l k : list A) : l ⊆+ k → NoDup k → NoDup l.
Proof. intros [k' ->]%submseteq_Permutation. by intros [? _]%NoDup_app. Qed.

(** The ids of a new state are among the old ones and [k] new ones. *)
Lemma ids_grow e e' k :
  all_ids (operations e') ⊆+ all_ids (operations e) ++ map (local_id clock) (seq (localIdSeed e) k) →
  localIdSeed e' = localIdSeed e + k → ids_ok e → ids_ok e'.
Proof.
  intros Hsub Hn [Hnd Hall]. assert (Hfa : Forall (λ i, ∃ k', k' < localIdSeed e' ∧ i = local_id clock k')
    (all_ids (operations e) ++ map (local_id clock) (seq (localIdSeed e) k))).
  { apply Forall_app. split.
    - eapply Forall_impl; [exact Hall|]. intros i (k' & Hk & ->). exists k'. split; [lia|done].
    - apply Forall_forall. intros i (k' & -> & Hk)%list_elem_of_fmap. apply elem_of_seq in Hk. exists k'. split; [lia|done]. }
  split; [|rewrite Forall_forall in Hfa |- *; intros i Hi; eapply Hfa, elem_of_submseteq; eassumption].
  eapply NoDup_sub; [exact Hsub|]. apply NoDup_app. split_and!; [done| |apply fresh_NoDup].
  intros i Hi Hf. rewrite Forall_forall in Hall. destruct (Hall i Hi) as (k1 & Hk1 & ->).
  apply list_elem_of_fmap in Hf as (k2 & Ek & Hk2). apply elem_of_seq in Hk2. apply local_id_inj in Ek. lia.
Qed.

Lemma ids_keep e e' : all_ids (operations e') ⊆+ all_ids (operations e) → localIdSeed e' = localIdSeed e → ids_ok e → ids_ok e'.
Proof. intros H Hn. apply (ids_grow e e' 0); [by rewrite app_nil_r|lia]. Qed.

Lemma all_ids_app a b : all_ids (a ++ b) = all_ids a ++ all_ids b.
Proof. unfold all_ids. by rewrite map_app, concat_app. Qed.

Lemma all_ids_perm a b : a ≡ₚ b → all_ids a ≡ₚ all_ids b.
Proof. unfold all_ids. rewrite <- !flat_map_concat_map. apply Permutation_flat_map. Qed.

Lemma all_ids_map (f : operation → operation) ops : (∀ op, op_ids (f op) ⊆+ op_ids op) → all_ids (map f ops) ⊆+ all_ids ops.
Proof. intros Hf. unfold all_ids. induction ops as [|op ops IH]; cbn [map concat]; [done|]. by apply submseteq_app. Qed.

Lemma all_ids_filter p ops : all_ids (List.filter p ops) ⊆+ all_ids ops.
Proof.
  unfold all_ids. induction ops as [|op ops IH]; cbn [List.filter map concat]; [done|].
  destruct (p op); cbn [map concat]; [by apply submseteq_app|by apply submseteq_inserts_l].
Qed.

(** An operation on one rule. *)
Lemma ids_map_operation i f e : (∀ op, op_ids (f op) ⊆+ op_ids op) → rules_ok e → rules_ok (map_operation i f e).
Proof.
  intros Hf [Hne Hok]. split; [unfold map_operation; cbn [operations setOperations]; by destruct (operations e)|].
  apply (ids_keep e); [|done..]. apply all_ids_map. intros op. destruct (streq (id op) i); [apply Hf|done].
Qed.

Lemma op_ids_patch p op : op_ids (apply_patch p op) = op_ids op.
Proof. destruct op, p; reflexivity. Qed.

Lemma op_ids_conditions f op : (∀ cs, map cond_id (f cs) ⊆+ map cond_id cs) → op_ids (set_conditions f op) ⊆+ op_ids op.
Proof. intros Hf. destruct op. cbn. apply submseteq_skip, Hf. Qed.

Lemma cond_ids_patch i p cs : map cond_id (map (λ c, if streq (cond_id c) i then apply_cond_patch p c else c) cs) = map cond_id cs.
Proof. rewrite map_map. apply map_ext. intros c. destruct (streq _ _); [|done]. by destruct c, p. Qed.

Lemma cond_ids_filter p cs : map cond_id (List.filter p cs) ⊆+ map cond_id cs.
Proof.
  induction cs as [|c cs IH]; cbn [List.filter map]; [done|].
  destruct (p c); cbn [map]; [by apply submseteq_skip|by apply submseteq_cons].
Qed.

Lemma rules_same e e' : operations e' = operations e → localIdSeed e ≤ localIdSeed e' → rules_ok e → rules_ok e'.
Proof.
  intros Ho Hn [Hne [Hnd Hall]]. split; [by rewrite Ho|]. split; rewrite Ho; [done|].
  eapply Forall_impl; [exact Hall|]. intros i (k & Hk & ->). exists k. split; [lia|done].
Qed.

Lemma rules_fresh (m : ids (list operation)) n ops n' e' :
  makes clock m all_ids → m n = Some (ops, n') → ops ≠ [] → operations e' = ops → localIdSeed e' = n' → rules_ok e'.
Proof.
  intros Hm Hr Hne Ho Hs. destruct (Hm _ _ _ Hr) as (k & -> & Hids). split; [by rewrite Ho|]. split; rewrite Ho, Hids.
  - apply fresh_NoDup.
  - apply Forall_forall. intros i (j & -> & Hj)%list_elem_of_fmap. apply elem_of_seq in Hj. exists j. split; [lia|done].
Qed.

Lemma issue_Some {A} (m : ids A) k e e' : issue m k e = Some e' →
  ∃ a n, m (localIdSeed e) = Some (a, n) ∧ e' = k a (setLocalIdSeed n e).
Proof. unfold issue. destruct (m _) as [[a n]|]; [|done]. intros [= <-]. eauto. Qed.

Lemma ids_map_length {A B} (f : A → ids B) l n ys n' : ids_map f l n = Some (ys, n') → length ys = length l.
Proof.
  revert n ys. induction l as [|x l IH]; cbn [ids_map]; intros n ys; [by intros [= <- <-]|]. unfold ids_bind.
  destruct (f x n) as [[y n1]|]; [|done]. destruct (ids_map f l n1) as [[ys' n2]|] eqn:E; [|done].
  intros [= <- <-]. cbn [length]. f_equal. by eapply IH.
Qed.

Lemma makes_rules l : makes clock (ids_map (normalizeOperation clock) l) all_ids.
Proof. apply makes_map. intros x _. apply makes_operation. Qed.

Lemma makes_one (m : ids operation) : makes clock m op_ids → makes clock (let* op := m in ids_ret [op]) all_ids.
Proof.
  intros Hm n ops n'. unfold ids_bind. destruct (m n) as [[op n1]|] eqn:E; [|done]. intros [= <- <-].
  destruct (Hm _ _ _ E) as (k & -> & Hk). exists k. split; [done|]. unfold all_ids. cbn [map concat]. by rewrite app_nil_r.
Qed.

Lemma makes_default : makes clock (createDefault clock) op_ids.
Proof. apply makes_operation. Qed.

Lemma default_rules k e e' : issue (createDefault clock) k e = Some e' →
  (∀ op e, operations (k op e) = [op]) → (∀ op e, localIdSeed (k op e) = localIdSeed e) → rules_ok e'.
Proof.
  intros (op & n & Hm & ->)%issue_Some Ho Hs.
  apply (rules_fresh (let* op := createDefault clock in ids_ret [op]) (localIdSeed e) [op] n); [apply makes_one, makes_default| |discriminate|apply Ho|].
  - unfold ids_bind. rewrite Hm. reflexivity.
  - rewrite Hs. reflexivity.
Qed.

Lemma makes_read l : makes clock (read_operations clock l) all_ids.
Proof. destruct l; [apply makes_one, makes_default|apply makes_rules]. Qed.

Lemma read_nonempty l n ops n' : read_operations clock l n = Some (ops, n') → ops ≠ [].
Proof.
  destruct l as [|x l].
  - unfold read_operations, ids_bind. destruct (createDefault clock n) as [[op n1]|]; [|done]. by intros [= <- <-].
  - intros H%ids_map_length. by destruct ops.
Qed.

Lemma read_rules l k e e' : issue (read_operations clock l) k e = Some e' →
  (∀ ops e, operations (k ops e) = ops) → (∀ ops e, localIdSeed (k ops e) = localIdSeed e) → rules_ok e'.
Proof.
  intros (ops & n & Hm & ->)%issue_Some Ho Hs.
  eapply rules_fresh; [apply makes_read|exact Hm|by eapply read_nonempty|apply Ho|rewrite Hs; reflexivity].
Qed.

(** *** Handlers *)

Lemma open_rules value e e' : open_editor clock value e = Some e' → rules_ok e'.
Proof.
  intros (s & n & Hm & ->)%issue_Some.
  assert (H : ∃ l, read_operations clock l (localIdSeed e) = Some (i_operations s, n)).
  { unfold parseInitialState, ids_bind in Hm. destruct (is_empty _).
    { exists []. unfold read_operations, ids_bind. destruct (createDefault clock _) as [[op n1]|]; [|done]. by injection Hm as <- <-. }
    destruct (parse _) as [v|].
    2:{ exists []. unfold read_operations, ids_bind. destruct (createDefault clock _) as [[op n1]|]; [|done]. by injection Hm as <- <-. }
    destruct (is_object v), (read v (js "operations")) as [| | | | |l|];
      try (exists []; unfold read_operations, ids_bind; destruct (createDefault clock _) as [[op n1]|]; [|done]; by injection Hm as <- <-).
    exists l. destruct (read_operations clock l _) as [[ops n1]|]; [|done]. by injection Hm as <- <-. }
  destruct H as (l & Hl). by eapply rules_fresh; [apply makes_read|exact Hl|eapply read_nonempty; exact Hl| |].
Qed.

Lemma visual_rules tr e e' msg : switchToVisualMode clock tr e = Some (e', msg) → rules_ok e → rules_ok e'.
Proof.
  intros H Hok. unfold switchToVisualMode in H. destruct (editMode e); [by injection H as <- <-|].
  destruct (is_empty _).
  { destruct (issue _ _ e) as [e1|] eqn:E; [|done]. injection H as <- <-. by eapply default_rules; [exact E| |]. }
  destruct (parse _) as [v|]; [|by injection H as <- <-].
  destruct (is_object v); [|by injection H as <- <-].
  destruct (read v (js "operations")) as [| | | | |l|];
    (destruct (issue _ _ e) as [e1|] eqn:E; [|done]); injection H as <- <-;
    first [by eapply default_rules; [exact E| |]|by eapply read_rules; [exact E| |]].
Qed.

Lemma fill_rules e e' : fillTemplateFromLibrary clock e = Some e' → rules_ok e'.
Proof.
  unfold fillTemplateFromLibrary. destruct (kind _).
  - intros H. by eapply read_rules; [exact H| |].
  - intros H. by eapply default_rules; [exact H| |].
Qed.

Lemma reset_rules e e' : resetEditorState clock e = Some e' → rules_ok e'.
Proof.
  unfold resetEditorState. destruct (clearValue clock e) as [e1|] eqn:E; [|done]. intros [= <-].
  apply (rules_same e1); [done..|]. by eapply default_rules; [exact E| |].
Qed.

Lemma presets_nonempty e : kind (getSelectedTemplatePreset e) = kind_operations → preset_operations (getSelectedTemplatePreset e) ≠ [].
Proof.
  unfold getSelectedTemplatePreset.
  assert (H : Forall (λ p, kind p.2 = kind_operations → match preset_operations p.2 with [] => false | _ => true end = true)
    ((js "operations_default", Preset (js "basic") (js "新格式模板（规则集）") kind_operations OPERATION_TEMPLATE) :: TEMPLATE_PRESET_CONFIG)).
  { repeat apply Forall_cons_2; try apply Forall_nil_2; cbn [snd kind]; intros Hk; first [discriminate Hk|vm_compute; reflexivity]. }
  rewrite Forall_cons, Forall_forall in H. destruct H as [H0 H].
  destruct (assoc_get TEMPLATE_PRESET_CONFIG (templatePresetKey e)) as [p|] eqn:E; cbn [default].
  - intros Hk Hn. apply assoc_get_In in E. specialize (H _ E Hk). cbn [snd] in H. unfold Datatypes.id in Hn. by rewrite Hn in H.
  - intros Hk. specialize (H0 Hk). intros Hn. cbn [snd] in H0. by rewrite Hn in H0.
Qed.

Lemma append_rules tr e e' msg : appendTemplateFromLibrary clock tr e = Some (e', msg) → rules_ok e → rules_ok e'.
Proof.
  unfold appendTemplateFromLibrary. intros H [Hne Hok]. destruct (kind _) eqn:Ek.
  - destruct (appendOperationsTemplate clock _ e) as [e1|] eqn:E; [|done]. injection H as <- <-.
    apply issue_Some in E as (ops & n & Hm & ->). destruct (makes_rules _ _ _ _ Hm) as (k & -> & Hids). split.
    + cbn -[preset_operations getSelectedTemplatePreset]. apply ids_map_length in Hm. pose proof (presets_nonempty e Ek) as Hp.
      destruct ops; [by destruct (preset_operations (getSelectedTemplatePreset e))|]. by intros [_ ?]%app_eq_nil.
    + apply (ids_grow e _ k); [|done..]. cbn -[all_ids]. rewrite all_ids_app, Hids. apply submseteq_app; [|done].
      destruct (visualMode e); [apply all_ids_filter|apply submseteq_nil_l].
  - unfold appendLegacyTemplate in H. destruct (legacy_current tr e); [|by injection H as <- <-].
    destruct (issue _ _ e) as [e1|] eqn:E; [|done]. injection H as <- <-. by eapply default_rules; [exact E| |].
Qed.

Lemma update_rules i p e : rules_ok e → rules_ok (updateOperation i p e).
Proof. apply ids_map_operation. intros op. by rewrite op_ids_patch. Qed.

Lemma prune_rules i f e e' :
  (∀ d n d' n', f d n = Some (d', n') → n ≤ n') → updatePruneObjectsDraft clock i f e = Some e' → rules_ok e → rules_ok e'.
Proof.
  intros Hf. unfold updatePruneObjectsDraft. destruct (find_operation _ _) as [op|]; [|by intros [= <-]].
  intros (d & n & Hm & ->)%issue_Some Hok. apply update_rules. apply (rules_same e); [done| |done]. cbn [localIdSeed setLocalIdSeed].
  unfold ids_bind in Hm. destruct (parsePruneObjectsDraft clock _ _) as [[d0 n0]|] eqn:E; [|done].
  apply makes_draft in E as (k & -> & _). apply Hf in Hm. lia.
Qed.

Lemma first_id_unique op ops : NoDup (all_ids (op :: ops)) → id op ∉ map id ops.
Proof.
  unfold all_ids. cbn [map concat op_ids app]. rewrite NoDup_cons. intros [Hni _] (o & Eo & Ho)%list_elem_of_fmap.
  apply Hni, elem_of_app. right. apply list_elem_of_In, in_concat. exists (op_ids o).
  split; [apply in_map, list_elem_of_In, Ho|]. rewrite Eo. left. reflexivity.
Qed.

Lemma tail_unique op ops : NoDup (all_ids (op :: ops)) → NoDup (all_ids ops).
Proof. apply NoDup_sub. unfold all_ids. cbn [map concat]. by apply submseteq_inserts_l. Qed.

Lemma ids_unique ops : NoDup (all_ids ops) → NoDup (map id ops).
Proof.
  induction ops as [|op ops IH]; intros H; cbn [map]; [constructor|]. apply NoDup_cons.
  split; [by apply first_id_unique|by eapply IH, tail_unique].
Qed.

(** Only one rule has the id, so one condition is added. *)
Lemma add_condition_ids i c ops : NoDup (all_ids ops) →
  all_ids (map (λ op, if streq (id op) i then set_conditions (λ cs, cs ++ [c]) op else op) ops) ⊆+ all_ids ops ++ [cond_id c].
Proof.
  induction ops as [|op ops IH]; intros Hnd; [apply submseteq_nil_l|]. cbn [map].
  destruct (streq (id op) i) eqn:E.
  - apply streq_true in E as <-. rewrite map_id_if.
    + destruct op as [oi d pa m v k fr o l cs]. unfold all_ids. cbn. rewrite map_app, <- !app_assoc. cbn [map app].
      apply submseteq_skip, submseteq_app; [done|]. by rewrite Permutation_cons_append.
    + intros x Hx. apply streq_false. intros Ex. apply (first_id_unique op ops Hnd). rewrite <- Ex. by apply list_elem_of_fmap_2.
  - unfold all_ids. cbn [map concat]. rewrite <- app_assoc. apply submseteq_app; [done|]. apply IH. by eapply tail_unique.
Qed.

Lemma add_condition_rules i e e' : addCondition clock i e = Some e' → rules_ok e → rules_ok e'.
Proof.
  intros (c & n & Hm & ->)%issue_Some [Hne Hok]. apply makes_condition in Hm as (k & -> & Hc). split.
  - cbn. by destruct (operations e).
  - apply (ids_grow e _ k); [|done..]. cbn -[all_ids set_conditions]. rewrite <- Hc. by apply add_condition_ids, Hok.
Qed.

Lemma remove_rules i e e' : removeOperation clock i e = Some e' → rules_ok e → rules_ok e'.
Proof.
  unfold removeOperation. intros H [Hne Hok]. destruct (Nat.leb_spec (length (operations e)) 1) as [Hl|Hl].
  - by eapply default_rules; [exact H| |].
  - injection H as <-. split; [|by apply (ids_keep e); [apply all_ids_filter|..]]. cbn [operations setOperations setExpandedConditionMap].
    destruct Hok as [Hnd%ids_unique _]. destruct (operations e) as [|a [|b ops]]; [done|simpl in Hl; lia|]. cbn [map] in Hnd.
    apply NoDup_cons in Hnd as [Hni _]. cbn [List.filter]. destruct (streq (id a) i) eqn:Ea; [|done].
    apply streq_true in Ea as <-. destruct (streq (id b) (id a)) eqn:Eb; [|done]. apply streq_true in Eb. set_solver.
Qed.

Lemma duplicate_rules eager i e e' : duplicateOperation clock eager i e = Some e' → rules_ok e → rules_ok e'.
Proof.
  unfold duplicateOperation. intros H [Hne Hok]. destruct (index_of_id i _) as [k|]; [|by injection H as <-].
  destruct (operations e !! k) as [src|]; [|by injection H as <-].
  apply issue_Some in H as (op & n & Hm & ->). apply makes_operation in Hm as (j & -> & Hj).
  assert (Hr : rules_ok (setOperations (insert_at (k + 1) op (operations e)) (setLocalIdSeed (localIdSeed e + j) e))).
  { split; [cbn; unfold insert_at; by intros [_ ?]%app_eq_nil|].
    apply (ids_grow e _ j); [|done..]. cbn [operations setOperations]. unfold insert_at.
    rewrite (all_ids_perm _ (op :: operations e)) by (by rewrite <- Permutation_middle, take_drop).
    unfold all_ids at 1. cbn [map concat]. rewrite Hj. by rewrite Permutation_app_comm. }
  destruct eager; [|exact Hr]. by apply (rules_same _ _ eq_refl (le_n _)) in Hr.
Qed.

Lemma add_rules e e' : addOperation clock e = Some e' → rules_ok e → rules_ok e'.
Proof.
  intros (op & n & Hm & ->)%issue_Some [Hne Hok]. apply makes_default in Hm as (k & -> & Hk). split.
  - cbn. by intros [_ ?]%app_eq_nil.
  - apply (ids_grow e _ k); [|done..]. cbn [operations setOperations setSelectedOperationId setLocalIdSeed].
    rewrite all_ids_app, <- Hk. unfold all_ids at 2. cbn [map concat]. by rewrite app_nil_r.
Qed.

Lemma render_rules e d e' : render clock e = Some (d, e') → rules_ok e → rules_ok e'.
Proof.
  unfold render. destruct (ids_bind _ _ _) as [[d0 n]|] eqn:E; [|done]. intros [= <- <-]. apply rules_same; [done|].
  cbn [localIdSeed setLocalIdSeed]. unfold ids_bind in E. destruct (createDefault clock _) as [[op n0]|] eqn:E0; [|done].
  apply makes_default in E0 as (k & -> & _). unfold pruneObjectsDraft in E.
  destruct (selectedOperation e) as [o|]; [|injection E as <- <-; lia].
  destruct (streq _ _); [|injection E as <- <-; lia]. unfold ids_bind in E.
  destruct (parsePruneObjectsDraft clock _ _) as [[d1 n1]|] eqn:E1; [|done]. injection E as <- <-.
  apply makes_draft in E1 as (k1 & -> & _). lia.
Qed.

Lemma move_rules s target pos e : rules_ok e → rules_ok (moveOperation s target pos e).
Proof.
  intros [Hne Hok]. unfold moveOperation. destruct (_ || _); [done|]. split.
  - cbn. intros Hn. apply Hne, Permutation_nil_r. rewrite <- Hn. symmetry. apply reorder_perm.
  - apply (ids_keep e); [|done..]. cbn [operations setOperations setSelectedOperationId]. by rewrite (all_ids_perm _ _ (reorder_perm _ _ _ _)).
Qed.

Lemma handle_rules t tr ev e e' : handle clock t tr ev e = Some e' → rules_ok e → rules_ok e'.
Proof.
  intros H Hok. assert (Hsame : ∀ e1, operations e1 = operations e → localIdSeed e1 = localIdSeed e → rules_ok e1).
  { intros e1 Ho Hs. apply (rules_same e); [done|by rewrite Hs|done]. }
  destruct ev; cbn [handle] in H;
    try (injection H as <-; first [by apply Hsame|by apply update_rules]).
  - by eapply open_rules.
  - injection H as <-. unfold switchToJsonMode. destruct (editMode e); [|done]. destruct (buildVisualJson t tr e); by apply Hsame.
  - destruct (switchToVisualMode clock tr e) as [[e1 msg]|] eqn:E; [|done]. injection H as <-. by eapply visual_rules.
  - injection H as <-. unfold formatJson. destruct (is_empty _); [done|]. destruct (parse _); by apply Hsame.
  - by eapply fill_rules.
  - destruct (appendTemplateFromLibrary clock tr e) as [[e1 msg]|] eqn:E; [|done]. injection H as <-. by eapply append_rules.
  - by eapply reset_rules.
  - injection H as <-. unfold applyBuiltinField. destruct (selectedOperation e) as [op|]; [|exact Hok].
    destruct target; (destruct (_ || _); [by apply update_rules|done]).
  - injection H as <-. unfold formatSelectedOperationValueAsJson. destruct (selectedOperation e) as [op|]; [|done].
    destruct (is_empty _); [done|]. destruct (parse _); [by apply update_rules|done].
  - injection H as <-. unfold updateReturnErrorDraft. destruct (find_operation _ _); [by apply update_rules|done].
  - eapply prune_rules; [|exact H|exact Hok]. intros d n d' n' [= <- <-]. done.
  - eapply prune_rules; [|exact H|exact Hok]. intros d n d' n'. unfold ids_bind, ids_ret.
    destruct (normalizePruneRule clock _ n) as [[r n1]|] eqn:E; [|done]. intros [= <- <-].
    apply makes_rule in E as (k & -> & _). lia.
  - eapply prune_rules; [|exact H|exact Hok]. intros d n d' n' [= <- <-]. done.
  - eapply prune_rules; [|exact H|exact Hok]. intros d n d' n' [= <- <-]. done.
  - by eapply add_rules.
  - injection H as <-. unfold handleOperationDragOver. destruct (_ || _); [done|by apply Hsame].
  - injection H as <-. unfold handleOperationDrop. eapply rules_same; [| |apply move_rules, Hok]; reflexivity.
  - by eapply duplicate_rules.
  - by eapply remove_rules.
  - by eapply add_condition_rules.
  - injection H as <-. apply ids_map_operation; [|done]. intros op. apply op_ids_conditions. intros cs. by rewrite cond_ids_patch.
  - injection H as <-. unfold removeCondition. eapply rules_same; [| |apply ids_map_operation; [|exact Hok]]; [reflexivity..|].
    intros op. apply op_ids_conditions, cond_ids_filter.
  - injection H as <-. unfold expandAllSelectedConditions. destruct (selectedOperation e); [|done].
    destruct (is_empty _); [done|by apply Hsame].
  - injection H as <-. unfold collapseAllSelectedConditions. destruct (is_empty _); [done|by apply Hsame].
  - destruct (render clock e) as [[d e1]|] eqn:E; [|done]. injection H as <-. by eapply render_rules.
Qed.

Lemma repair_selection_ops e : operations (repair_selection e) = operations e.
Proof. unfold repair_selection. destruct (operations e) as [|op ops] eqn:E; [exact E|]. destruct (existsb _ _); [exact E|exact E]. Qed.

Lemma repair_same e : operations (repair_preset (repair_selection e)) = operations e ∧
  localIdSeed (repair_preset (repair_selection e)) = localIdSeed e ∧
  selectedOperationId (repair_preset (repair_selection e)) = selectedOperationId (repair_selection e).
Proof.
  assert (H : ∀ e, operations (repair_preset e) = operations e ∧ localIdSeed (repair_preset e) = localIdSeed e ∧
              selectedOperationId (repair_preset e) = selectedOperationId e).
  { intros e0. unfold repair_preset. destruct (templatePresetOptions e0); [done|]. destruct (existsb _ _); done. }
  destruct (H (repair_selection e)) as (-> & -> & ->). rewrite repair_selection_ops. split_and!; [done| |done].
  unfold repair_selection. destruct (operations e); [done|]. destruct (existsb _ _); done.
Qed.

Lemma selected_found e : operations e ≠ [] → is_Some (selectedOperation (repair_preset (repair_selection e))).
Proof.
  intros Hne. destruct (repair_same e) as (Ho & _ & Hs). unfold selectedOperation. rewrite Ho, Hs. unfold repair_selection.
  destruct (operations e) as [|op ops] eqn:E; [done|].
  destruct (existsb (λ o, streq (id o) (selectedOperationId e)) (op :: ops)) eqn:Ex.
  - unfold find_operation. destruct (List.find _ (op :: ops)) as [x|] eqn:Ef; [by eexists|].
    apply existsb_exists in Ex as (x & Hx & Hid). by rewrite (find_none _ _ Ef x Hx) in Hid.
  - unfold find_operation. cbn [List.find selectedOperationId setSelectedOperationId]. rewrite streq_refl. by eexists.
Qed.

Lemma preset_offered e : templatePresetOptions (repair_preset e) = [] ∨
  templatePresetKey (repair_preset e) ∈ map fst (templatePresetOptions (repair_preset e)).
Proof.
  unfold repair_preset. destruct (templatePresetOptions e) as [|o l] eqn:E; [by left|]. right.
  destruct (existsb _ _) eqn:Ex.
  - rewrite E. apply existsb_exists in Ex as (x & Hx & <-%streq_true). by apply list_elem_of_fmap_2, list_elem_of_In.
  - change (templatePresetOptions (setTemplatePresetKey o.1 e)) with (templatePresetOptions e). rewrite E. left.
Qed.

(** C11. Whatever the user does with the dialog, it shows at least one rule, no two rules or conditions share an id,
    one of the rules is selected, and the template selected is one of those offered. *)
Theorem override_editor_invariant t tr e : reachable clock t tr e →
  operations e ≠ [] ∧ NoDup (all_ids (operations e)) ∧ is_Some (selectedOperation e) ∧
  (templatePresetOptions e = [] ∨ templatePresetKey e ∈ map fst (templatePresetOptions e)).
Proof.
  assert (H : ∀ e, rules_ok e → rules_ok (repair_preset (repair_selection e)) ∧
    is_Some (selectedOperation (repair_preset (repair_selection e))) ∧
    (templatePresetOptions (repair_preset (repair_selection e)) = [] ∨
     templatePresetKey (repair_preset (repair_selection e)) ∈ map fst (templatePresetOptions (repair_preset (repair_selection e))))).
  { intros e0 Hok. destruct (repair_same e0) as (Ho & Hs & _). split_and!.
    - apply (rules_same e0); [done|by rewrite Hs|done].
    - apply selected_found, Hok.
    - apply preset_offered. }
  intros Hr. assert (Hall : rules_ok e ∧ is_Some (selectedOperation e) ∧
    (templatePresetOptions e = [] ∨ templatePresetKey e ∈ map fst (templatePresetOptions e))).
  { induction Hr as [n e Hi|e ev e' Hr IH Hh]; apply H.
    - by eapply default_rules; [exact Hi| |].
    - eapply handle_rules; [exact Hh|apply IH]. }
  destruct Hall as ([Hne [Hnd _]] & Hsel & Hp). done.
Qed.
End Invariant.

Lemma override_editor_invariant_witness :
  let clock := λ _, 0%Z in let t := λ s _, s in let tr := λ s, s in
  match initial_editor clock 0 with
  | Some e0 =>
    match handle clock t tr ev_append (repair_preset (repair_selection e0)) with
    | Some e => let e := repair_preset (repair_selection e) in length (operations e) = 1 ∧ NoDup (all_ids (operations e))
    | None => False
    end
  | None => False
  end.
Proof.
  cbn zeta. destruct (initial_editor (λ _, 0%Z) 0) as [e0|] eqn:E0; [|vm_compute in E0; discriminate E0].
  destruct (handle (λ _, 0%Z) (λ s _, s) (λ s, s) ev_append (repair_preset (repair_selection e0))) as [e|] eqn:E.
  - split.
    + assert (He : Some e = handle (λ _, 0%Z) (λ s _, s) (λ s, s) ev_append
        (repair_preset (repair_selection (default e0 (initial_editor (λ _, 0%Z) 0))))) by (rewrite E0; symmetry; exact E).
      vm_compute in He. injection He as ->. vm_compute. reflexivity.
    + eapply (override_editor_invariant (λ _, 0%Z) (λ s _, s) (λ s, s)). eapply reach_step; [|exact E]. eapply reach_start. exact E0.
  - vm_compute in E0. injection E0 as <-. vm_compute in E. discriminate E.
Defined.

(** ** Uncaught errors *)

Definition is_null (v : jval) : bool := match v with JNull => true | _ => false end.
(** A rule, or one of its conditions, is [null]. *)
Definition null_rule (v : jval) : bool :=
  is_null v || match read v (js "conditions") with JArr l => existsb is_null l | _ => false end.

Section Throws.
Context (clock : nat → Z).

Lemma condition_throws v n : normalizeCondition clock v n = None ↔ is_null v = true.
Proof. destruct v; split; intros H; try reflexivity; discriminate H. Qed.

Lemma ids_map_throws {A B} (f : A → ids B) (bad : A → bool) l n :
  (∀ x n, f x n = None ↔ bad x = true) → ids_map f l n = None ↔ existsb bad l = true.
Proof.
  intros Hf. revert n. induction l as [|x l IH]; intros n; cbn [ids_map existsb]; [split; discriminate|].
  unfold ids_bind. destruct (f x n) as [[y n1]|] eqn:E.
  - assert (Hx : bad x = false) by (apply not_true_is_false; intros Hb; apply (Hf x n) in Hb; congruence).
    rewrite Hx. cbn [orb]. rewrite <- (IH n1). destruct (ids_map f l n1) as [[ys n2]|]; [split; discriminate|done].
  - apply Hf in E. rewrite E. done.
Qed.

Lemma rule_throws v n : normalizeOperation clock v n = None ↔ null_rule v = true.
Proof.
  assert (Hc : ∀ m, read_conditions clock (read v (js "conditions")) m = None ↔
               match read v (js "conditions") with JArr l => existsb is_null l | _ => false end = true).
  { intros m. unfold read_conditions. destruct (read v (js "conditions")) as [| | | | |l|]; [split; discriminate..| |split; discriminate].
    apply ids_map_throws. intros x k. apply condition_throws. }
  unfold null_rule, normalizeOperation, ids_bind, nextLocalId, ids_throw, ids_ret.
  destruct v as [| | | | | |o]; cbn [is_null orb]; [|done|..]; rewrite <- (Hc (S n));
    destruct (read_conditions clock _ (S n)) as [[cs n1]|]; (split; [intros H; (done || discriminate H)|intros H; (done || discriminate H)]).
Qed.

Lemma default_never_throws k e : issue (createDefault clock) k e ≠ None.
Proof.
  unfold issue. destruct (createDefault clock (localIdSeed e)) as [[op n]|] eqn:E; [done|].
  apply rule_throws in E. vm_compute in E. discriminate E.
Qed.

Lemma read_throws l n : read_operations clock l n = None ↔ existsb null_rule l = true.
Proof.
  destruct l as [|x l]; [|apply ids_map_throws; intros y k; apply rule_throws].
  unfold read_operations, ids_bind. destruct (createDefault clock n) as [[op n1]|] eqn:E; [split; discriminate|].
  apply rule_throws in E. vm_compute in E. discriminate E.
Qed.

(** A text whose rules cannot be read. *)
Definition unreadable (text : jsstr) : Prop :=
  ∃ v l, parse (trim text) = Some v ∧ is_object v = true ∧ read v (js "operations") = JArr l ∧ existsb null_rule l = true.

Lemma open_throws value e : open_editor clock value e = None ↔ unreadable (text_or_empty value).
Proof.
  unfold open_editor, issue. assert (Hi : parseInitialState clock value (localIdSeed e) = None ↔ unreadable (text_or_empty value)).
  { unfold parseInitialState, unreadable. set (text := trim (text_or_empty value)). unfold ids_bind.
    assert (Hd : createDefault clock (localIdSeed e) ≠ None).
    { intros E. apply rule_throws in E. vm_compute in E. discriminate E. }
    destruct (createDefault clock (localIdSeed e)) as [[op n]|]; [clear Hd|done].
    destruct (is_empty text) eqn:Et.
    { split; [discriminate|]. intros (v & l & Hp & _). apply is_empty_true in Et. rewrite Et in Hp. vm_compute in Hp. discriminate Hp. }
    destruct (parse text) as [v|]; [|split; [discriminate|by intros (v & l & Hp & _)]].
    destruct (is_object v) eqn:Eo, (read v (js "operations")) as [| | | | |l|] eqn:Er;
      try (split; [discriminate|intros (v' & l' & [= <-] & Ho & Hl & _); congruence]).
    pose proof (read_throws l (localIdSeed e)) as Hr. destruct (read_operations clock l _) as [[ops n']|].
    - split; [discriminate|]. intros (v' & l' & [= <-] & Ho & Hl & Hb). rewrite Er in Hl. injection Hl as <-. by apply Hr in Hb.
    - split; [|done]. intros _. exists v, l. split_and!; [done..|by apply Hr]. }
  rewrite <- Hi. destruct (parseInitialState clock value (localIdSeed e)) as [[s n]|]; [split; discriminate|done].
Qed.

Lemma visual_throws tr e : switchToVisualMode clock tr e = None ↔ editMode e = json ∧ unreadable (jsonText e).
Proof.
  unfold switchToVisualMode, unreadable. destruct (editMode e); [split; [discriminate|by intros [? _]]|].
  destruct (is_empty (trim (jsonText e))) eqn:Et.
  { split.
    - destruct (issue _ _ e) eqn:E; [discriminate|]. by apply default_never_throws in E.
    - intros (_ & v & l & Hp & _). apply is_empty_true in Et. rewrite Et in Hp. vm_compute in Hp. discriminate Hp. }
  destruct (parse (trim (jsonText e))) as [v|]; [|split; [discriminate|by intros (_ & v & l & Hp & _)]].
  destruct (is_object v) eqn:Eo; [|split; [discriminate|intros (_ & v' & l' & [= <-] & Ho & _); congruence]].
  destruct (read v (js "operations")) as [| | | | |l|] eqn:Er;
    try (split; [destruct (issue _ _ e) eqn:E; [discriminate|by apply default_never_throws in E]
                |intros (_ & v' & l' & [= <-] & _ & Hl & _); congruence]).
  unfold issue. pose proof (read_throws l (localIdSeed e)) as Hr. destruct (read_operations clock l _) as [[ops n']|].
  - split; [discriminate|]. intros (_ & v' & l' & [= <-] & Ho & Hl & Hb). rewrite Er in Hl. injection Hl as <-. by apply Hr in Hb.
  - split; [|done]. intros _. split; [done|]. exists v, l. split_and!; [done..|by apply Hr].
Qed.

Lemma prune_never_throws i f e : (∀ d n, f d n ≠ None) → updatePruneObjectsDraft clock i f e ≠ None.
Proof.
  intros Hf. unfold updatePruneObjectsDraft. destruct (find_operation _ _) as [op|]; [|done]. unfold issue, ids_bind.
  destruct (draft_total clock (value_text op) (localIdSeed e)) as [[d n] ->]. specialize (Hf d n).
  destruct (f d n) as [[d' n']|]; done.
Qed.

Lemma cloned_conditions op : read (cloned_operation op) (js "conditions") = JArr (map cloned_condition (conditions op)).
Proof.
  unfold cloned_operation. generalize (parseLooseValue (value_text op)) (map cloned_condition (conditions op)). intros v cs.
  destruct op. vm_compute. reflexivity.
Qed.

Lemma clone_never_throws op n : normalizeOperation clock (cloned_operation op) n ≠ None.
Proof.
  rewrite rule_throws. unfold null_rule. rewrite cloned_conditions. cbn [is_null orb cloned_operation].
  induction (conditions op) as [|c cs IH]; cbn [map existsb]; [discriminate|exact IH].
Qed.

Lemma preset_rules_readable e : existsb null_rule (preset_operations (getSelectedTemplatePreset e)) = false.
Proof.
  unfold getSelectedTemplatePreset.
  assert (H : forallb (λ p, negb (existsb null_rule (preset_operations p.2))) TEMPLATE_PRESET_CONFIG = true) by (vm_compute; reflexivity).
  rewrite forallb_forall in H.
  destruct (assoc_get TEMPLATE_PRESET_CONFIG (templatePresetKey e)) as [p|] eqn:E; cbn [default].
  - apply assoc_get_In, list_elem_of_In, H in E. by apply negb_true_iff in E.
  - vm_compute. reflexivity.
Qed.

Lemma templates_never_throw tr e : fillTemplateFromLibrary clock e ≠ None ∧ appendTemplateFromLibrary clock tr e ≠ None.
Proof.
  pose proof (preset_rules_readable e) as Hp. split.
  - unfold fillTemplateFromLibrary. destruct (kind _); [|apply default_never_throws].
    unfold fillOperationsTemplate, issue. destruct (read_operations clock _ _) as [[ops n]|] eqn:E; [done|].
    apply read_throws in E. congruence.
  - unfold appendTemplateFromLibrary. destruct (kind _).
    + unfold appendOperationsTemplate, issue. destruct (ids_map _ _ _) as [[ops n]|] eqn:E; [done|].
      apply (ids_map_throws _ null_rule) in E; [congruence|]. intros x n. apply rule_throws.
    + unfold appendLegacyTemplate. destruct (legacy_current tr e); [|done].
      destruct (issue _ _ e) eqn:E; [done|]. by apply default_never_throws in E.
Qed.

(** C38. Nothing the user does makes the dialog fail with an uncaught error, except showing as rules a text in which a
    rule, or a condition of a rule, is [null]: opening the dialog on such a text, or switching to the form with it. *)
Theorem override_throws_iff t tr ev e :
  handle clock t tr ev e = None ↔
  (∃ value, ev = ev_open value ∧ unreadable (text_or_empty value)) ∨ (ev = ev_visual ∧ editMode e = json ∧ unreadable (jsonText e)).
Proof.
  assert (Hno : handle clock t tr ev e ≠ None → (∀ v, ev ≠ ev_open v) → ev ≠ ev_visual →
    handle clock t tr ev e = None ↔ (∃ value, ev = ev_open value ∧ unreadable (text_or_empty value)) ∨
      (ev = ev_visual ∧ editMode e = json ∧ unreadable (jsonText e))).
  { intros Hn Ho Hv. split; [done|]. intros [(v & E & _)|(E & _)]; [by apply Ho in E|done]. }
  destruct ev; try (apply Hno; [discriminate|discriminate|discriminate]); try (apply Hno; [|discriminate|discriminate]); cbn [handle].
  - rewrite open_throws. split; [eauto|]. intros [(v & [= ->] & H)|([=] & _)]. exact H.
  - rewrite fmap_None, visual_throws. split; [eauto|]. intros [(v & [=] & _)|(_ & H)]. exact H.
  - apply (templates_never_throw tr).
  - rewrite fmap_None. apply templates_never_throw.
  - by apply prune_never_throws.
  - apply prune_never_throws. intros d n. unfold ids_bind. by destruct (rule_total clock (JObj []) n ltac:(done)) as [[r n'] ->].
  - by apply prune_never_throws.
  - by apply prune_never_throws.
  - unfold duplicateOperation. destruct (index_of_id i (operations e)) as [k|]; [|discriminate].
    destruct (operations e !! k); [|discriminate]. unfold issue.
    destruct (normalizeOperation clock _ _) as [[op n']|] eqn:E; [done|]. by apply clone_never_throws in E.
  - unfold removeOperation. destruct (_ <=? _)%nat; [apply default_never_throws|done].
  - rewrite fmap_None. unfold render, ids_bind. destruct (createDefault clock (localIdSeed e)) as [[op n]|] eqn:E.
    + unfold pruneObjectsDraft. destruct (selectedOperation e) as [o|]; [|done]. destruct (streq _ _); [|done].
      unfold ids_bind. by destruct (draft_total clock (value_text o) n) as [[d n'] ->].
    + apply rule_throws in E. vm_compute in E. discriminate E.
Qed.
End Throws.
