(* ===== verification/ParamOverrideSave.v ===== *)
(** * Saving and reopening parameter overrides

    What the checks guarantee of a saved rule, that a saved list of rules is
    shown again as it was and saved to the same text, that every template can
    be saved unchanged, and two ways in which a text or a value changes. *)

From stdpp Require Import sets.
From S2P Require Import Prelude JsString JsNumber Json JsObject ParamOverride ParamOverrideEditor ParamOverrideTheorems.

Local Opaque js.

(** ** Texts *)

Lemma wrap_ends gap ind op cl items : ∃ mid, wrap gap ind op cl items = op :: mid ++ [cl].
Proof.
  unfold wrap. destruct items as [|i l]; [by exists []|]. destruct (is_empty gap); [eauto|].
  exists (10%N :: (ind ++ gap) ++ join (44%N :: 10%N :: ind ++ gap) (i :: l) ++ 10%N :: ind).
  cbn [app]. rewrite <- !app_assoc. reflexivity.
Qed.

Lemma ends_trimmed a mid b : is_ws a = false → is_ws b = false → trim (a :: mid ++ [b]) = a :: mid ++ [b].
Proof. intros Ha Hb. apply trim_trimmed. split; [exact Ha|]. exists b. by rewrite app_comm_cons, last_snoc. Qed.

Lemma num_char_not_ws c : num_char c = true → is_ws c = false.
Proof.
  unfold num_char, is_digit. rewrite !orb_true_iff, andb_true_iff, !N.eqb_eq, !N.leb_le. intros H.
  assert (Hc : (43 ≤ c ≤ 101)%N) by lia. clear H. unfold is_ws.
  repeat match goal with
  | |- context [(?a =? ?b)%N] => destruct (N.eqb_spec a b); [lia|]
  | |- context [(?a <=? ?b)%N] => destruct (N.leb_spec a b); try lia
  end; reflexivity.
Qed.

(** The text of a value other than a string has no white space at its ends. *)
Lemma stringify_trimmed gap ind v s : json_ok v = true → stringify_at gap ind v = Some s → is_string v = false → trim s = s.
Proof.
  destruct v as [| |b|x|t|l|o]; intros Hok Hs Hn; cbn [stringify_at is_string] in *; try discriminate; injection Hs as <-.
  - vm_compute. reflexivity.
  - destruct b; vm_compute; reflexivity.
  - cbn [json_ok] in Hok. unfold num_ok in Hok. rewrite !andb_true_iff in Hok. destruct Hok as [[[-> Hc] _] _].
    apply trim_trimmed, no_ws_trimmed. eapply forallb_impl; [|exact Hc]. intros c H. by rewrite (num_char_not_ws c H).
  - destruct (wrap_ends gap ind 91 93 (map (λ x, default (js "null") (stringify_at gap (ind ++ gap) x)) l)) as (mid & ->).
    by apply ends_trimmed.
  - match goal with |- context [wrap gap ind 123 125 ?items] => destruct (wrap_ends gap ind 123 125 items) as (mid & ->) end.
    by apply ends_trimmed.
Qed.


Lemma wf_forallb s : wf_str s → forallb unit_ok s = true.
Proof. intros H. by apply forallb_Forall. Qed.

(** ** Values *)


Lemma is_empty_false s : is_empty s = false ↔ s ≠ [].
Proof. destruct s; cbn; intuition discriminate. Qed.

Lemma parse_nonempty s v : parse s = Some v → s ≠ [].
Proof. intros H ->. vm_compute in H. discriminate H. Qed.








(** ** What the checks guarantee *)

Section Checks.
Context (t : jsstr → Z → jsstr).

Lemma return_if_None b msg rest : return_if b msg rest = None ↔ b = false ∧ rest = None.
Proof. destruct b; cbn; intuition discriminate. Qed.
Lemma and_then_None a b : and_then a b = None ↔ a = None ∧ b = None.
Proof. destruct a; cbn; intuition discriminate. Qed.

(** The checks of the value, by mode. *)
Definition value_checks (line : Z) (m raw : jsstr) : Prop :=
  (m = js "return_error" → check_return_error t line raw = None) ∧
  (m = js "prune_objects" → check_prune_objects t line raw = None) ∧
  (m = js "transform_media" → check_transform_media t line raw = None) ∧
  (m = js "map_param" → check_map_param t line raw = None) ∧
  (m = js "pass_headers" → check_pass_headers t line raw = None).

(** The fields the mode needs are filled in. *)
Definition complete (op : operation) : Prop :=
  (m_path (meta_of (mode op)) = true → trim (path op) ≠ []) ∧
  (m_from (meta_of (mode op)) = true → trim (from op) ≠ []) ∧
  (m_to (meta_of (mode op)) = true → trim (to op) ≠ []) ∧
  (has VALUE_REQUIRED_MODES (mode op) = true → trim (value_text op) ≠ []).

Lemma has_In l s : has l s = true ↔ s ∈ l.
Proof.
  unfold has. rewrite existsb_exists. split.
  - intros (x & Hx & <-%streq_true). by apply list_elem_of_In.
  - intros H. exists s. split; [by apply list_elem_of_In|apply streq_refl].
Qed.

Lemma modes_meta m : m ∈ OPERATION_MODE_VALUES →
  m ≠ [] ∧ (has FROM_REQUIRED_MODES m = true → m_from (meta_of m) = true) ∧ (has TO_REQUIRED_MODES m = true → m_to (meta_of m) = true) ∧
  (has VALUE_REQUIRED_MODES m = true → m_value (meta_of m) = true) ∧
  (m_pathAlias (meta_of m) = true → m_from (meta_of m) = true ∧ m_to (meta_of m) = true).
Proof.
  assert (H : forallb (λ m, negb (is_empty m) && implb (has FROM_REQUIRED_MODES m) (m_from (meta_of m)) &&
    implb (has TO_REQUIRED_MODES m) (m_to (meta_of m)) && implb (has VALUE_REQUIRED_MODES m) (m_value (meta_of m)) &&
    implb (m_pathAlias (meta_of m)) (m_from (meta_of m) && m_to (meta_of m))) OPERATION_MODE_VALUES = true) by (vm_compute; reflexivity).
  rewrite forallb_forall in H. intros Hm%list_elem_of_In%H. clear H.
  destruct m; [discriminate Hm|]. rewrite !andb_true_iff in Hm. destruct Hm as [[[[_ H1] H2] H3] H4].
  split_and!; [done| | | |]; intros Hb; rewrite Hb in *; cbn [implb] in *; try done. by apply andb_true_iff in H4.
Qed.

Lemma guard_None b s : b && is_empty s = false ↔ (b = true → s ≠ []).
Proof. rewrite <- is_empty_false. destruct b; cbn [andb]; [tauto|]. split; [discriminate|done]. Qed.

Lemma mode_check_None m name check : (if streq m (js name) then check else None) = (None : option jsstr) ↔ (m = js name → check = None).
Proof. destruct (streq m (js name)) eqn:E; [apply streq_true in E|apply streq_false in E]; intuition. Qed.

Lemma check_None line op : mode op ∈ OPERATION_MODE_VALUES →
  check_operation t line op = None ↔ complete op ∧ value_checks line (mode op) (trim (value_text op)).
Proof.
  intros Hm. destruct (modes_meta _ Hm) as (Hne & Hf & Ht & Hv & _).
  assert (Em : or_text (mode op) (js "set") = mode op) by (unfold or_text; by destruct (mode op)).
  unfold check_operation, complete, value_checks. rewrite Em, !return_if_None, !and_then_None, !guard_None, !mode_check_None.
  split.
  - intros (H1 & _ & _ & H2 & H3 & H4 & H5 & H6 & H7 & H8 & H9 & _). exact (conj (conj H1 (conj H2 (conj H3 H4))) (conj H5 (conj H6 (conj H7 (conj H8 H9))))).
  - intros ((H1 & H2 & H3 & H4) & (H5 & H6 & H7 & H8 & H9)).
    assert (Hfr : has FROM_REQUIRED_MODES (mode op) && is_empty (trim (from op)) = false) by (apply guard_None; auto).
    assert (Hto : has TO_REQUIRED_MODES (mode op) && is_empty (trim (to op)) = false) by (apply guard_None; auto).
    rewrite Hfr, Hto. split_and!; first [assumption|reflexivity].
Qed.
End Checks.

(** ** The saved form of a rule *)

Lemma get_set_if b k v o k' : obj_get (set_if b k v o) k' = if b && streq (js k) k' then v else obj_get o k'.
Proof. unfold set_if. destruct b; cbn [andb]; [apply obj_get_set|done]. Qed.

(** The conditions that are saved. *)
Definition kept (op : operation) : list condition :=
  List.filter (λ c, negb (is_empty (trim (cond_path c)))) (conditions op).

Definition cond_payload (c : condition) : jval :=
  JObj (set_if (cond_pass_missing_key c) "pass_missing_key" (JBool true)
    (set_if (cond_invert c) "invert" (JBool true)
      [(js "path", JStr (trim (cond_path c))); (js "mode", JStr (or_text (cond_mode c) (js "full")));
       (js "value", parseLooseValue (cond_value_text c))])).

Lemma omap_kept op : omap buildConditionPayload (conditions op) = map cond_payload (kept op).
Proof.
  unfold kept. induction (conditions op) as [|c cs IH]; [reflexivity|]. change (omap buildConditionPayload (c :: cs)) with
    (match buildConditionPayload c with Some y => y :: omap buildConditionPayload cs | None => omap buildConditionPayload cs end).
  rewrite IH. unfold buildConditionPayload. cbn [List.filter]. destruct (is_empty (trim (cond_path c))); reflexivity.
Qed.

(** The fields of a rule the mode uses, in the order they are written. *)
Definition fields_payload (op : operation) : list (jsstr * jval) :=
  let meta := meta_of (mode op) in
  let has_path := negb (is_empty (trim (path op))) in
  set_if (m_to meta) "to" (JStr (trim (to op)))
  (set_if (negb (m_to meta) && negb (is_empty (trim (to op)))) "to" (JStr (trim (to op)))
  (set_if (m_from meta) "from" (JStr (trim (from op)))
  (set_if (m_keepOrigin meta && keep_origin op) "keep_origin" (JBool true)
  (set_if (m_value meta) "value" (parseLooseValue (value_text op))
  (set_if (m_pathOptional meta && has_path) "path" (JStr (trim (path op)))
  (set_if (m_path meta) "path" (JStr (trim (path op)))
  (set_if (negb (is_empty (trim (description op)))) "description" (JStr (trim (description op))) [(js "mode", JStr (mode op))]))))))).

Definition logic_text (op : operation) : jsstr := if streq (logic op) (js "AND") then js "AND" else js "OR".

Definition plain_payload (op : operation) : list (jsstr * jval) :=
  match map cond_payload (kept op) with
  | [] => fields_payload op
  | conds => obj_set (obj_set (fields_payload op) (js "conditions") (JArr conds)) (js "logic") (JStr (logic_text op))
  end.

Lemma get_from op : m_from (meta_of (mode op)) = true → obj_get (fields_payload op) (js "from") = JStr (trim (from op)).
Proof.
  intros H. unfold fields_payload. rewrite !get_set_if, H.
  replace (streq (js "to") (js "from")) with false by (vm_compute; reflexivity).
  replace (streq (js "from") (js "from")) with true by (vm_compute; reflexivity). by rewrite !andb_false_r.
Qed.

Lemma get_to op : m_to (meta_of (mode op)) = true → obj_get (fields_payload op) (js "to") = JStr (trim (to op)).
Proof.
  intros H. unfold fields_payload. rewrite get_set_if, H.
  replace (streq (js "to") (js "to")) with true by (vm_compute; reflexivity). reflexivity.
Qed.

(** A rule that passed the checks needs none of the fallbacks. *)
Lemma payload_plain op : mode op ∈ OPERATION_MODE_VALUES → complete op → operation_payload op = plain_payload op.
Proof.
  intros Hm (_ & Hf & Ht & _). destruct (modes_meta _ Hm) as (Hne & _ & _ & _ & Ha). unfold operation_payload, plain_payload.
  assert (Em : or_text (mode op) (js "set") = mode op) by (unfold or_text; by destruct (mode op)). rewrite Em, omap_kept.
  fold (fields_payload op) (logic_text op).
  destruct (m_pathAlias (meta_of (mode op))) eqn:Ea.
  - destruct (Ha eq_refl) as [Hf' Ht']. rewrite (get_from op Hf'). specialize (Hf Hf'). specialize (Ht Ht').
    assert (Ef : truthy (JStr (trim (from op))) = true) by (cbn; by destruct (trim (from op))).
    assert (Et : truthy (JStr (trim (to op))) = true) by (cbn; by destruct (trim (to op))).
    rewrite Ef. cbn [negb andb set_if]. rewrite (get_to op Ht'), Et. reflexivity.
  - reflexivity.
Qed.










(** ** Reading a saved rule *)





Section Read.
Context (clock : nat → Z).










End Read.

(** ** Saving what is shown *)









(** ** The whole list *)

Section Whole.
Context (clock : nat → Z) (t : jsstr → Z → jsstr) (t_text : ∀ k line, t k line ≠ []).









Lemma pretty_reads v : json_ok v = true → is_string v = false → parse (pretty v) = Some v ∧ trim (pretty v) = pretty v.
Proof.
  intros Hok Hs. unfold pretty. destruct (parse_stringify_at (js "  ") v ltac:(vm_compute; reflexivity) Hok) as (s & E & Hp).
  unfold stringify2. rewrite E. cbn [default]. split; [exact Hp|]. by eapply stringify_trimmed.
Qed.



End Whole.

Section Saved.
Context (clock : nat → Z) (t : jsstr → Z → jsstr).




(** The stored form of one rule that sets a field. *)
Definition stored_set (p : jsstr) (v : jval) : jval :=
  operations_json [JObj [(js "mode", JStr (js "set")); (js "path", JStr p); (js "value", v)]].

(** A string that reads as JSON changes its type: a stored rule that sets a field to such a string, like the text
    123, true or null, is saved with the number, boolean or other value when the dialog is opened on it and saved
    without a change. *)
Theorem string_value_retyped p s v n :
  trim p = p → p ≠ [] → wf_str p → wf_str s → parse s = Some v → trim s ≠ [] →
  ∃ ops n', parseInitialState clock (JStr (pretty (stored_set p (JStr s)))) n =
      Some (Initial visual operations_view [] ops (pretty (stored_set p (JStr s))) [], n') ∧
    buildOperationsJson t true ops = inl (pretty (stored_set p v)).
Proof.
  intros Hp Hpne Hwp Hws Hv Hs.
  assert (Hok : json_ok (stored_set p (JStr s)) = true).
  { unfold stored_set, operations_json. apply json_ok_fields; [vm_compute; reflexivity|]. cbn [map snd]. apply Forall_singleton.
    change (json_ok (JObj [(js "mode", JStr (js "set")); (js "path", JStr p); (js "value", JStr s)]) && true = true).
    rewrite andb_true_r. apply json_ok_fields; [vm_compute; reflexivity|]. cbn [map snd].
    repeat apply Forall_cons_2; [vm_compute; reflexivity|by apply wf_forallb|by apply wf_forallb|apply Forall_nil_2]. }
  destruct (pretty_reads _ Hok eq_refl) as [Hparse Htrim].
  set (op := Operation (local_id clock n) [] p (js "set") s false [] [] (js "OR") []). exists [op], (S n).
  assert (Hread : normalizeOperation clock (JObj [(js "mode", JStr (js "set")); (js "path", JStr p); (js "value", JStr s)]) n = Some (op, S n)).
  { unfold normalizeOperation, ids_bind, nextLocalId. cbn [read obj_get]. names. reflexivity. }
  split.
  - unfold parseInitialState. cbn [text_or_empty]. rewrite Htrim, (proj2 (is_empty_false _) (parse_nonempty _ _ Hparse)), Hparse.
    unfold stored_set at 1 2, operations_json. cbn [is_object read obj_get]. rewrite streq_refl.
    unfold ids_bind, read_operations. cbn [ids_map]. unfold ids_bind. rewrite Hread. reflexivity.
  - assert (Hc : ∀ line, check_operation t line op = None).
    { intros line. apply check_None; [by apply has_In; vm_compute|]. split.
      - unfold complete, op. cbn [mode path from to value_text]. rewrite Hp. split_and!; [done|..]; intros H; vm_compute in H; discriminate H.
      - unfold value_checks, op. cbn [mode]. split_and!; intros H; vm_compute in H; discriminate H. }
    assert (Hnb : isOperationBlank op = false).
    { unfold isOperationBlank, op. cbn [mode path]. rewrite Hp. names. by destruct p. }
    unfold buildOperationsJson. cbn [List.filter]. rewrite Hnb. cbn [negb]. unfold validateOperations. cbn [check_from]. rewrite Hc.
    cbn [is_empty map]. rewrite payload_plain; [|by apply has_In; vm_compute|].
    2:{ specialize (Hc 0%Z). apply check_None in Hc; [apply Hc|by apply has_In; vm_compute]. }
    unfold plain_payload, kept, fields_payload, op. cbn [description mode path value_text keep_origin from to conditions List.filter map].
    replace (meta_of (js "set")) with meta_set by (vm_compute; reflexivity). rewrite Hp.
    unfold parseLooseValue. rewrite (proj2 (is_empty_false _) Hs), Hv.
    cbn [meta_set m_path m_pathOptional m_value m_keepOrigin m_from m_to andb negb set_if is_empty trim drop_while rev app].
    cbn [obj_set]. names. cbn [obj_set]. names. reflexivity.
Qed.

(** [{ ...draft, message }] *)
Definition with_message (m : jsstr) (d : return_error_draft) : return_error_draft :=
  ReturnError m (re_statusCode d) (re_code d) (re_type d) (re_skipRetry d) (re_simpleMode d).

Lemma trim_space s : trim (s ++ js " ") = trim s.
Proof.
  change (js " ") with [32%N]. unfold trim. destruct (drop_while_suffix is_ws s) as (a & Ha & Hw).
  destruct (drop_while is_ws s) as [|c r] eqn:E.
  - rewrite app_nil_r in Ha. subst a. rewrite drop_while_app_all by done. reflexivity.
  - assert (Hc : is_ws c = false) by (by eapply drop_while_head). rewrite Ha, <- app_assoc, drop_while_app_all by done.
    cbn [app]. rewrite (drop_while_id is_ws (c :: r ++ [32%N]) c _ eq_refl Hc). rewrite app_comm_cons, rev_app_distr. reflexivity.
Qed.

(** No space can be typed at the end of the message of a [return_error] rule: the dialog is as it would be
    without the space. *)
Theorem message_space_lost i m e :
  updateReturnErrorDraft i (with_message (m ++ js " ")) e = updateReturnErrorDraft i (with_message m) e.
Proof.
  unfold updateReturnErrorDraft. destruct (find_operation i (operations e)) as [op|]; [|done]. unfold buildReturnErrorValueText, with_message.
  cbn [re_message re_simpleMode re_code re_type re_statusCode re_skipRetry]. by rewrite trim_space.
Qed.
End Saved.

Lemma string_value_retyped_witness :
  ∃ ops n', parseInitialState (λ _, 0%Z) (JStr (pretty (stored_set (js "user") (JStr (js "123"))))) 0 =
      Some (Initial visual operations_view [] ops (pretty (stored_set (js "user") (JStr (js "123")))) [], n') ∧
    buildOperationsJson (λ k _, k) true ops = inl (pretty (stored_set (js "user") (JNum (num_of_Z 123)))).
Proof.
  apply (string_value_retyped (λ _, 0%Z) (λ k _, k) (js "user") (js "123") (JNum (num_of_Z 123)) 0).
  - vm_compute. reflexivity.
  - discriminate.
  - apply wf_str_forallb. vm_compute. reflexivity.
  - apply wf_str_forallb. vm_compute. reflexivity.
  - vm_compute. reflexivity.
  - discriminate.
Defined.







(** ** Templates *)

(** Equality of JSON values up to the order of members. *)
Fixpoint same_json (a b : jval) : bool :=
  match a, b with
  | JArr l, JArr l' => (length l =? length l')%nat && forallb Datatypes.id (zip_with same_json l l')
  | JObj o, JObj o' => (length o =? length o')%nat && forallb (λ e, same_json e.2 (obj_get o' e.1)) o
  | JObj _, _ | JArr _, _ => false
  | a, b => bool_decide (stringify a = stringify b)
  end.

(** Every template of the library can be used as it is: filling it into the empty dialog and saving writes the
    template's rules, or its object, up to the order of their fields. *)
Theorem templates_saved_unchanged :
  forallb (λ en,
    match initial_editor (λ _, 0%Z) 0 with
    | Some e =>
      match fillTemplateFromLibrary (λ _, 0%Z) (setTemplatePresetKey en.1 e) with
      | Some e' =>
        match handleSave (λ k _, k) (λ s, s) e' with
        | inl text => match parse text with Some v => same_json v (payload en.2) | None => false end
        | inr _ => false
        end
      | None => false
      end
    | None => false
    end) TEMPLATE_PRESET_CONFIG = true.
Proof. vm_compute. reflexivity. Qed.
