(* ===== verification/RatioSync.v ===== *)
(** * Taking prices over from upstream channels

    [web/src/pages/Setting/Ratio/UpstreamRatioSync.jsx] and the dialog
    [web/src/components/settings/ChannelSelectorModal.jsx]: the administrator
    chooses channels, the server compares their prices with the local ones, and
    the page lets the administrator pick values and writes them into the options.

    [differences] and [resolutions] are objects of objects, kept as members in
    the order of their creation.  A channel is typed as [dto.SyncableChannel] of
    the server.  [t] is the translation, [lower] is [toLowerCase], and [other] is
    [toUpperCase] of a code unit outside ASCII.  The dialogs cover the page, so
    that its controls are used only while no dialog is open. *)

From S2P Require Import Prelude JsString JsNumber Json JsObject.

(** [a === b]; arrays and objects are compared by identity, and the values
    compared here are numbers and texts. *)
Definition strict_eq (a b : jval) : bool :=
  match a, b with
  | JUndef, JUndef | JNull, JNull => true
  | JBool x, JBool y => eqb x y
  | JNum x, JNum y => neq x y
  | JStr x, JStr y => streq x y
  | _, _ => false
  end.

Definition defined (v : jval) : bool := match v with JUndef => false | _ => true end.
(** The members of a value that holds an object. *)
Definition members (v : jval) : list (jsstr * jval) := match v with JObj o => o | _ => [] end.
(** [l.includes(x)] *)
Definition listed (l : list jsstr) (x : jsstr) : bool := existsb (streq x) l.

(** ** The fields that can be taken over *)

Definition model_price := js "model_price".
Definition billing_mode := js "billing_mode".
Definition billing_expr := js "billing_expr".

Definition ratioSyncFields : list jsstr :=
  [js "model_ratio"; js "completion_ratio"; js "cache_ratio"; js "create_cache_ratio"; js "image_ratio"; js "audio_ratio";
   js "audio_completion_ratio"].
Definition numericSyncFields : list jsstr := ratioSyncFields ++ [model_price].
Definition syncFieldOrder : list jsstr := ratioSyncFields ++ [model_price; billing_mode; billing_expr].

Definition getSyncFieldLabel (t : jsstr → jsstr) (ratioType : jsstr) : jsstr :=
  let typeMap :=
    [(js "model_ratio", t (js "模型倍率")); (js "completion_ratio", t (js "补全倍率")); (js "cache_ratio", t (js "缓存倍率"));
     (js "create_cache_ratio", t (js "缓存创建倍率")); (js "image_ratio", t (js "图片倍率")); (js "audio_ratio", t (js "音频倍率"));
     (js "audio_completion_ratio", t (js "音频补全倍率")); (model_price, t (js "固定价格")); (billing_mode, t (js "计费模式"));
     (billing_expr, t (js "表达式计费"))] in
  match assoc_get typeMap ratioType with Some l => if is_empty l then ratioType else l | None => ratioType end.

Definition getOrderedRatioTypes (ratioTypeFilter : jsstr) (ratioTypes : jval) : list jsstr :=
  let ks := keys (js_or ratioTypes (JObj [])) in
  let ordered := List.filter (listed ks) syncFieldOrder ++ List.filter (λ f, negb (listed syncFieldOrder f)) ks in
  if is_empty ratioTypeFilter then ordered else List.filter (λ f, streq f ratioTypeFilter) ordered.

Inductive category := price | ratio | tiered.
#[global] Instance category_eq_dec : EqDecision category.
Proof. solve_decision. Defined.

Definition getBillingCategory (ratioType : jsstr) : category :=
  if streq ratioType model_price then price
  else if streq ratioType billing_mode || streq ratioType billing_expr then tiered
  else ratio.

(** [word.charAt(0).toUpperCase() + word.slice(1)] *)
Definition upper_unit (other : N → jsstr) (c : N) : jsstr :=
  if (c <? 128)%N then [if (97 <=? c)%N && (c <=? 122)%N then (c - 32)%N else c] else other c.
Definition capitalize (other : N → jsstr) (word : jsstr) : jsstr :=
  match word with [] => [] | c :: rest => upper_unit other c ++ rest end.

Definition optionKeyBySyncField (other : N → jsstr) (ratioType : jsstr) : jsstr :=
  if streq ratioType billing_mode then js "billing_setting.billing_mode"
  else if streq ratioType billing_expr then js "billing_setting.billing_expr"
  else join [] (map (capitalize other) (split (js "_") ratioType)).

Definition isSelectableUpstreamValue (v : jval) : bool :=
  match v with JNull | JUndef => false | JStr s => negb (streq s (js "same")) | _ => true end.

(** [differences[model]?.[ratioType]?.upstreams?.[sourceName]] *)
Definition getUpstreamValue (differences : list (jsstr * jval)) (model ratioType sourceName : jsstr) : jval :=
  prop (prop (prop (obj_get differences model) ratioType) (js "upstreams")) sourceName.

Definition getPreferredSyncField (differences : list (jsstr * jval)) (model ratioType sourceName : jsstr) : jsstr :=
  if negb (streq ratioType billing_expr) && isSelectableUpstreamValue (getUpstreamValue differences model billing_expr sourceName)
  then billing_expr else ratioType.

Definition shouldShowSyncField (differences : list (jsstr * jval)) (model ratioType sourceName : jsstr) : bool :=
  is_empty sourceName || streq (getPreferredSyncField differences model ratioType sourceName) ratioType.

(** ** Picking values *)

(** The object [newRes[model]] is changed in place; the updater's argument is
    not used after it. *)
Definition deleteResolutionField (newRes : list (jsstr * jval)) (model ratioType : jsstr) : list (jsstr * jval) :=
  if negb (truthy (obj_get newRes model)) then newRes else
  let r := obj_delete (members (obj_get newRes model)) ratioType in
  let r := if streq ratioType billing_expr then obj_delete r billing_mode else r in
  let r := if streq ratioType billing_mode then obj_delete r billing_expr else r in
  match own_keys r with [] => obj_delete newRes model | _ => obj_set newRes model (JObj r) end.

(** The body of the updater: the model's object after the choice. *)
Definition select_fields (differences : list (jsstr * jval)) (model ratioType : jsstr) (value : jval) (sourceName : jsstr)
    (r0 : list (jsstr * jval)) : list (jsstr * jval) :=
  let cat := getBillingCategory ratioType in
  let r := fold_left (λ acc rt,
    if negb (bool_decide (cat = tiered)) && negb (bool_decide (getBillingCategory rt = tiered))
       && negb (bool_decide (getBillingCategory rt = cat)) then obj_delete acc rt else acc) (own_keys r0) r0 in
  let r := obj_set r ratioType value in
  if bool_decide (cat = tiered) && negb (is_empty sourceName) then
    let modeValue := getUpstreamValue differences model billing_mode sourceName in
    let exprValue := getUpstreamValue differences model billing_expr sourceName in
    let r := if isSelectableUpstreamValue modeValue then obj_set r billing_mode modeValue
             else if streq ratioType billing_expr then obj_set r billing_mode (JStr (js "tiered_expr")) else r in
    if isSelectableUpstreamValue exprValue then obj_set r billing_expr exprValue else r
  else r.

Definition selectValue (differences : list (jsstr * jval)) (model ratioType : jsstr) (value : jval) (sourceName : jsstr)
    (prev : list (jsstr * jval)) : list (jsstr * jval) :=
  let preferred := if is_empty sourceName then ratioType else getPreferredSyncField differences model ratioType sourceName in
  let value := if streq preferred ratioType then value else getUpstreamValue differences model preferred sourceName in
  obj_set (spread [] (JObj prev)) model
    (JObj (select_fields differences model preferred value sourceName (spread [] (js_or (obj_get prev model) (JObj []))))).

(** ** The rows of the table *)

(** [{ model, ratioTypes, billingConflict }] *)
Record row := Row { r_model : jsstr; r_types : jval; billingConflict : bool }.

Definition dataSource (differences : list (jsstr * jval)) : list row :=
  map (λ e, Row e.1 e.2 (obj_has (members e.2) model_price && existsb (obj_has (members e.2)) ratioSyncFields))
    (own_entries differences).

Definition filteredDataSource (lower : jsstr → jsstr) (searchKeyword ratioTypeFilter : jsstr) (differences : list (jsstr * jval)) : list row :=
  if is_empty (trim searchKeyword) && is_empty ratioTypeFilter then dataSource differences else
  List.filter (λ item,
    (is_empty (trim searchKeyword) || includes (trim (lower searchKeyword)) (lower (r_model item)))
    && (is_empty ratioTypeFilter || obj_has (members (r_types item)) ratioTypeFilter)) (dataSource differences).

Definition upstreamNames (ratioTypeFilter : jsstr) (rows : list row) : list jsstr :=
  uniq (concat (map (λ r, concat (map (λ rt,
    keys (js_or (prop (prop (r_types r) rt) (js "upstreams")) (JObj []))) (getOrderedRatioTypes ratioTypeFilter (r_types r)))) rows)).

Definition getCurrentPageData {A} (currentPage pageSize : Z) (data : list A) : list A :=
  let startIndex := ((currentPage - 1) * pageSize)%Z in slice_list data startIndex (startIndex + pageSize).

(** The cell of one field of one channel: the value, whether it is selected,
    and whether the server trusts it. *)
Inductive cell := Unset | Same | Choice (text : jsstr) (selected : bool) | Text (text : jsstr).

Definition renderUpstreamField (differences resolutions : list (jsstr * jval)) (record : row) (ratioType upName : jsstr) : cell * bool :=
  let diff := js_or (prop (r_types record) ratioType) (JObj []) in
  let upstreamVal := prop (prop diff (js "upstreams")) upName in
  let isConfident := negb (is_false (prop (prop diff (js "confidence")) upName)) in
  let isPreferredField := streq (getPreferredSyncField differences (r_model record) ratioType upName) ratioType in
  if is_nullish upstreamVal then (Unset, true) else
  if strict_eq upstreamVal (JStr (js "same")) then (Same, true) else
  (if isPreferredField
   then Choice (String_of upstreamVal) (strict_eq (prop (obj_get resolutions (r_model record)) ratioType) upstreamVal)
   else Text (String_of upstreamVal), isConfident).

Definition renderUpstreamFields (ratioTypeFilter : jsstr) (differences resolutions : list (jsstr * jval)) (record : row) (upName : jsstr)
    : list (jsstr * (cell * bool)) :=
  map (λ rt, (rt, renderUpstreamField differences resolutions record rt upName))
    (List.filter (λ rt, shouldShowSyncField differences (r_model record) rt upName) (getOrderedRatioTypes ratioTypeFilter (r_types record))).

(** ** A whole column *)

Section Column.
Context (ratioTypeFilter : jsstr) (differences : list (jsstr * jval)) (upName : jsstr).

Definition row_value (r : row) (rt : jsstr) : jval := prop (prop (prop (r_types r) rt) (js "upstreams")) upName.

Definition selectable (r : row) (rt : jsstr) : bool :=
  streq (getPreferredSyncField differences (r_model r) rt upName) rt && isSelectableUpstreamValue (row_value r rt).

(** [(row, field)] for the fields a checkbox is shown for *)
Definition selectable_fields (rows : list row) : list (row * jsstr) :=
  concat (map (λ r, map (λ rt, (r, rt)) (List.filter (selectable r) (getOrderedRatioTypes ratioTypeFilter (r_types r)))) rows).

Record stats := Stats { selectableCount : nat; selectedCount : nat }.
Definition channelStats (rows : list row) (resolutions : list (jsstr * jval)) : stats :=
  let fields := selectable_fields rows in
  Stats (length fields)
    (length (List.filter (λ f, strict_eq (prop (obj_get resolutions (r_model f.1)) f.2) (row_value f.1 f.2)) fields)).
Definition allSelected (s : stats) : bool := (0 <? selectableCount s) && (selectedCount s =? selectableCount s).
Definition partiallySelected (s : stats) : bool := (0 <? selectedCount s) && (selectedCount s <? selectableCount s).

Definition handleBulkSelect (checked : bool) (rows : list row) (resolutions : list (jsstr * jval)) : list (jsstr * jval) :=
  if checked then
    fold_left (λ acc f, selectValue differences (r_model f.1) f.2 (row_value f.1 f.2) upName acc) (selectable_fields rows) resolutions
  else
    fold_left (λ acc r, fold_left (λ acc rt,
        if defined (row_value r rt) then deleteResolutionField acc (r_model r) rt else acc)
      (getOrderedRatioTypes ratioTypeFilter (r_types r)) acc) rows (spread [] (JObj resolutions)).
End Column.

(** ** Writing the options *)

Definition ratio_options : list jsstr :=
  [js "ModelRatio"; js "CompletionRatio"; js "CacheRatio"; js "CreateCacheRatio"; js "ImageRatio"; js "AudioRatio"; js "AudioCompletionRatio"].
Definition option_keys : list jsstr :=
  ratio_options ++ [js "ModelPrice"; js "billing_setting.billing_mode"; js "billing_setting.billing_expr"].

(** [currentRatios]: [None] is the error [JSON.parse] throws.  An option that is
    missing is an empty text. *)
Definition read_options (options : list (jsstr * jsstr)) : option (list (jsstr * jval)) :=
  map_opt (λ k, let text := default [] (assoc_get options k) in
    match parse (if is_empty text then js "{}" else text) with Some v => Some (k, v) | None => None end) option_keys.

(** The first of the options that has the model; [None] is the [TypeError] of a
    read of [null]. *)
Fixpoint any_defined (currentRatios : list (jsstr * jval)) (model : jsstr) (ks : list jsstr) : option bool :=
  match ks with
  | [] => Some false
  | k :: ks' => match read_throw (obj_get currentRatios k) model with
                | None => None
                | Some v => if defined v then Some true else any_defined currentRatios model ks'
                end
  end.
Definition getLocalBillingCategory (currentRatios : list (jsstr * jval)) (model : jsstr) : option (option category) :=
  match any_defined currentRatios model [js "ModelPrice"] with
  | None => None
  | Some true => Some (Some price)
  | Some false => match any_defined currentRatios model ratio_options with
                  | None => None
                  | Some true => Some (Some ratio)
                  | Some false => Some None
                  end
  end.

(** The category of what is picked for a model *)
Definition newCategory (ratios : list (jsstr * jval)) : category :=
  if obj_has ratios model_price then price else if existsb (obj_has ratios) ratioSyncFields then ratio else tiered.

Definition findSourceChannel (t : jsstr → jsstr) (differences : list (jsstr * jval)) (model ratioType : jsstr) (value : jval) : jsstr :=
  let d := obj_get differences model in
  if truthy d && truthy (prop d ratioType) then
    let upMap := js_or (prop (prop d ratioType) (js "upstreams")) (JObj []) in
    match List.find (λ e, strict_eq e.2 value) (entries upMap) with
    | Some e => e.1
    | None => t (js "未知")
    end
  else t (js "未知").

Record conflict := Conflict { c_channel : jsstr; c_model : jsstr; c_current : jsstr; c_newVal : jsstr }.

Definition dash_or (v : jval) : jsstr := String_of (js_nullish v (JStr (js "-"))).

Definition describe_conflict (t : jsstr → jsstr) (differences currentRatios : list (jsstr * jval)) (model : jsstr)
    (ratios : list (jsstr * jval)) (localCat newCat : category) : conflict :=
  let cur k := read (obj_get currentRatios k) model in
  let two a b := t (js "模型倍率") ++ js " : " ++ dash_or a ++ [10%N] ++ t (js "补全倍率") ++ js " : " ++ dash_or b in
  let one v := t (js "固定价格") ++ js " : " ++ String_of v in
  let channels := uniq (map (λ e, findSourceChannel t differences model e.1 e.2) (own_entries ratios)) in
  Conflict (join (js ", ") channels) model
    (if bool_decide (localCat = price) then one (cur (js "ModelPrice")) else two (cur (js "ModelRatio")) (cur (js "CompletionRatio")))
    (if bool_decide (newCat = price) then one (obj_get ratios model_price)
     else two (obj_get ratios (js "model_ratio")) (obj_get ratios (js "completion_ratio"))).

(** [localCat && newCat !== 'tiered' && localCat !== newCat] *)
Definition conflicting (localCat : option category) (newCat : category) : bool :=
  match localCat with Some c => negb (bool_decide (newCat = tiered)) && negb (bool_decide (c = newCat)) | None => false end.

Definition model_conflict (t : jsstr → jsstr) (differences currentRatios : list (jsstr * jval)) (e : jsstr * jval) : option (list conflict) :=
  let ratios := members e.2 in
  match getLocalBillingCategory currentRatios e.1 with
  | None => None
  | Some localCat =>
    let newCat := newCategory ratios in
    Some (match localCat with
          | Some c => if conflicting localCat newCat then [describe_conflict t differences currentRatios e.1 ratios c newCat] else []
          | None => []
          end)
  end.
Definition find_conflicts (t : jsstr → jsstr) (differences currentRatios resolutions : list (jsstr * jval)) : option (list conflict) :=
  option_map (@concat _) (map_opt (model_conflict t differences currentRatios) (own_entries resolutions)).

Section Write.
Context (other : N → jsstr).

(** [delete finalRatios.k[model]] *)
Definition drop_model (model : jsstr) (finalRatios : list (jsstr * jval)) (k : jsstr) : list (jsstr * jval) :=
  obj_set finalRatios k (JObj (obj_delete (members (obj_get finalRatios k)) model)).

Definition sync_value (ratioType : jsstr) (v : jval) : jval :=
  if listed numericSyncFields ratioType then JNum (parseFloat (String_of v)) else v.

(** [finalRatios[optionKey][model] = ...]: a [TypeError] for an unknown option. *)
Definition write_field (model : jsstr) (finalRatios : list (jsstr * jval)) (f : jsstr * jval) : option (list (jsstr * jval)) :=
  let optionKey := optionKeyBySyncField other f.1 in
  match obj_get finalRatios optionKey with
  | JObj o => Some (obj_set finalRatios optionKey (JObj (obj_set o model (sync_value f.1 f.2))))
  | _ => None
  end.

(** A loop whose body may throw *)
Fixpoint fold_opt {A B} (f : A → B → option A) (l : list B) (a : A) : option A :=
  match l with [] => Some a | x :: l' => match f a x with Some a' => fold_opt f l' a' | None => None end end.

Definition sync_model (finalRatios : list (jsstr * jval)) (e : jsstr * jval) : option (list (jsstr * jval)) :=
  let ratios := members e.2 in
  let selectedTypes := own_keys ratios in
  let f1 := if listed selectedTypes model_price then fold_left (drop_model e.1) ratio_options finalRatios else finalRatios in
  let f2 := if existsb (listed ratioSyncFields) selectedTypes then drop_model e.1 f1 (js "ModelPrice") else f1 in
  fold_opt (write_field e.1) (own_entries ratios) f2.

Definition final_ratios (currentRatios resolutions : list (jsstr * jval)) : option (list (jsstr * jval)) :=
  fold_opt sync_model (own_entries resolutions)
    (map (λ k, (k, JObj (spread [] (obj_get currentRatios k)))) option_keys).

(** The bodies of the requests *)
Definition put_requests (finalRatios : list (jsstr * jval)) : list (jsstr * jsstr) :=
  map (λ e, (e.1, default [] (stringify2 e.2))) (own_entries finalRatios).
End Write.

(** What a successful save takes out of the comparison; the objects of the
    models are changed in place. *)
Definition forget_field (model : jsstr) (newDifferences : list (jsstr * jval)) (ratioType : jsstr) : list (jsstr * jval) :=
  let d := obj_get newDifferences model in
  if truthy d && truthy (prop d ratioType) then
    let d' := obj_delete (members d) ratioType in
    match own_keys d' with [] => obj_delete newDifferences model | _ => obj_set newDifferences model (JObj d') end
  else newDifferences.
Definition forget_synced (resolutions prevDifferences : list (jsstr * jval)) : list (jsstr * jval) :=
  fold_left (λ acc e, fold_left (forget_field e.1) (own_keys (members e.2)) acc) (own_entries resolutions)
    (spread [] (JObj prevDifferences)).

(** ** Channels *)

Record channel := Channel { ch_id : Z; ch_name : jsstr; base_url : jsstr; ch_status : Z; ch_type : Z }.

Definition OFFICIAL_RATIO_PRESET_ID : Z := -100.
Definition OFFICIAL_RATIO_PRESET_NAME := js "官方倍率预设".
Definition OFFICIAL_RATIO_PRESET_BASE_URL := js "https://basellm.github.io".
Definition OFFICIAL_RATIO_PRESET_ENDPOINT := js "/llm-metadata/api/newapi/ratio_config-v1-base.json".
Definition MODELS_DEV_PRESET_ID : Z := -101.
Definition MODELS_DEV_PRESET_NAME := js "models.dev 价格预设".
Definition MODELS_DEV_PRESET_BASE_URL := js "https://models.dev".
Definition MODELS_DEV_PRESET_ENDPOINT := js "https://models.dev/api.json".
Definition DEFAULT_ENDPOINT := js "/api/pricing".

Definition isOfficialRatioPreset (c : channel) : bool :=
  (ch_id c =? OFFICIAL_RATIO_PRESET_ID)%Z || streq (base_url c) OFFICIAL_RATIO_PRESET_BASE_URL || streq (ch_name c) OFFICIAL_RATIO_PRESET_NAME.
Definition isModelsDevPreset (c : channel) : bool :=
  (ch_id c =? MODELS_DEV_PRESET_ID)%Z || streq (base_url c) MODELS_DEV_PRESET_BASE_URL || streq (ch_name c) MODELS_DEV_PRESET_NAME.

Definition endpoint_of (channelEndpoints : list (Z * jsstr)) (id : Z) : jsstr := default [] (assoc_get channelEndpoints id).

Definition merge_endpoint (merged : list (Z * jsstr)) (c : channel) : list (Z * jsstr) :=
  if is_empty (endpoint_of merged (ch_id c)) then
    assoc_set merged (ch_id c)
      (if isModelsDevPreset c then MODELS_DEV_PRESET_ENDPOINT
       else if isOfficialRatioPreset c then OFFICIAL_RATIO_PRESET_ENDPOINT
       else if (ch_type c =? 20)%Z then js "openrouter"
       else DEFAULT_ENDPOINT)
  else merged.
Definition merge_endpoints (channels : list channel) (prev : list (Z * jsstr)) : list (Z * jsstr) := fold_left merge_endpoint channels prev.

(** The channels to compare with: [{ id, name, base_url, endpoint }] *)
Record upstream := Upstream { u_id : Z; u_name : jsstr; u_base_url : jsstr; u_endpoint : jsstr }.
Definition upstreams (channelEndpoints : list (Z * jsstr)) (channelList : list channel) : list upstream :=
  map (λ ch, let e := endpoint_of channelEndpoints (ch_id ch) in
    Upstream (ch_id ch) (ch_name ch) (base_url ch) (if is_empty e then DEFAULT_ENDPOINT else e)) channelList.

(** *** The dialog that chooses channels *)

Module Selector.
Record selector := Selector { searchText : jsstr; sel_page : Z; sel_size : Z }.

Definition initial : selector := Selector [] 1 10.
Definition resetPagination (s : selector) : selector := Selector [] 1 (sel_size s).
Definition setSearchText (x : jsstr) (s : selector) : selector := Selector x (sel_page s) (sel_size s).
Definition onPageChange (page size : Z) (s : selector) : selector := Selector (searchText s) page size.
Definition onShowSizeChange (size : Z) (s : selector) : selector := Selector (searchText s) 1 size.

Definition isOfficialChannel (c : channel) : bool :=
  (ch_id c =? OFFICIAL_RATIO_PRESET_ID)%Z || (ch_id c =? MODELS_DEV_PRESET_ID)%Z
  || streq (base_url c) OFFICIAL_RATIO_PRESET_BASE_URL || streq (base_url c) MODELS_DEV_PRESET_BASE_URL
  || streq (ch_name c) OFFICIAL_RATIO_PRESET_NAME || streq (ch_name c) MODELS_DEV_PRESET_NAME.

(** The effect on a change of the channels or of the text *)
Definition filteredData (lower : jsstr → jsstr) (allChannels : list channel) (s : selector) : list channel :=
  let searchLower := lower (trim (searchText s)) in
  let matched := if is_empty searchLower then allChannels
                 else List.filter (λ c, includes searchLower (lower (ch_name c)) || includes searchLower (lower (base_url c))) allChannels in
  let weight c := if isOfficialChannel c then 0%Z else 1%Z in
  sort (λ a b, weight a - weight b)%Z matched.

Definition paginatedData (lower : jsstr → jsstr) (allChannels : list channel) (s : selector) : list channel :=
  slice_list (filteredData lower allChannels s) ((sel_page s - 1) * sel_size s) (sel_page s * sel_size s).

Inductive endpoint_type := ratio_config | pricing | openrouter | custom.
#[global] Instance endpoint_type_eq_dec : EqDecision endpoint_type.
Proof. solve_decision. Defined.

Definition getEndpointType (ep : jsstr) : endpoint_type :=
  if streq ep (js "/api/ratio_config") then ratio_config
  else if streq ep (js "/api/pricing") then pricing
  else if streq ep (js "openrouter") then openrouter
  else custom.

Definition handleTypeChange (val : endpoint_type) (id : Z) (channelEndpoints : list (Z * jsstr)) : list (Z * jsstr) :=
  match val with
  | ratio_config => assoc_set channelEndpoints id (js "/api/ratio_config")
  | pricing => assoc_set channelEndpoints id (js "/api/pricing")
  | openrouter => assoc_set channelEndpoints id (js "openrouter")
  | custom => if bool_decide (getEndpointType (endpoint_of channelEndpoints id) = custom) then channelEndpoints
              else assoc_set channelEndpoints id []
  end.

(** The text box is there only for a custom endpoint. *)
Definition type_endpoint (text : jsstr) (id : Z) (channelEndpoints : list (Z * jsstr)) : option (list (Z * jsstr)) :=
  if bool_decide (getEndpointType (endpoint_of channelEndpoints id) = custom) then Some (assoc_set channelEndpoints id text) else None.
End Selector.

(** ** The page *)

(** A save under way: the selection the handler closed over, and whether the
    confirmation dialog started it. *)
Record save := Save { s_resolutions : list (jsstr * jval); s_confirmed : bool }.

Record sync := Sync {
  modalVisible : bool; loading : bool; syncLoading : bool; confirmLoading : bool;
  allChannels : list channel; selectedChannelIds : list Z; channelEndpoints : list (Z * jsstr);
  differences : list (jsstr * jval); resolutions : list (jsstr * jval); hasSynced : bool;
  currentPage : Z; pageSize : Z; searchKeyword : jsstr; ratioTypeFilter : jsstr;
  confirmVisible : bool; conflictItems : list conflict;
  (** requests under way *)
  channels_awaited : bool; ratios_awaited : bool; save_awaited : option save
}.

Definition initial_sync : sync := Sync false false false false [] [] [] [] [] false 1 10 [] [] false [] false false None.

(** The setters of the hooks that are called together. *)
Definition set_flags (m l c : bool) (s : sync) : sync :=
  Sync m l (syncLoading s) c (allChannels s) (selectedChannelIds s) (channelEndpoints s) (differences s) (resolutions s)
    (hasSynced s) (currentPage s) (pageSize s) (searchKeyword s) (ratioTypeFilter s) (confirmVisible s) (conflictItems s)
    (channels_awaited s) (ratios_awaited s) (save_awaited s).
Definition set_loading (x : bool) (s : sync) : sync := set_flags (modalVisible s) x (confirmLoading s) s.
Definition set_modal (x : bool) (s : sync) : sync := set_flags x (loading s) (confirmLoading s) s.
Definition set_confirm_loading (x : bool) (s : sync) : sync := set_flags (modalVisible s) (loading s) x s.
Definition set_channels (cs : list channel) (eps : list (Z * jsstr)) (s : sync) : sync :=
  Sync (modalVisible s) (loading s) (syncLoading s) (confirmLoading s) cs (selectedChannelIds s) eps (differences s)
    (resolutions s) (hasSynced s) (currentPage s) (pageSize s) (searchKeyword s) (ratioTypeFilter s) (confirmVisible s)
    (conflictItems s) (channels_awaited s) (ratios_awaited s) (save_awaited s).
Definition set_selected (ids : list Z) (s : sync) : sync :=
  Sync (modalVisible s) (loading s) (syncLoading s) (confirmLoading s) (allChannels s) ids (channelEndpoints s) (differences s)
    (resolutions s) (hasSynced s) (currentPage s) (pageSize s) (searchKeyword s) (ratioTypeFilter s) (confirmVisible s)
    (conflictItems s) (channels_awaited s) (ratios_awaited s) (save_awaited s).
Definition set_data (d r : list (jsstr * jval)) (h : bool) (s : sync) : sync :=
  Sync (modalVisible s) (loading s) (syncLoading s) (confirmLoading s) (allChannels s) (selectedChannelIds s) (channelEndpoints s)
    d r h (currentPage s) (pageSize s) (searchKeyword s) (ratioTypeFilter s) (confirmVisible s)
    (conflictItems s) (channels_awaited s) (ratios_awaited s) (save_awaited s).
Definition set_resolutions (r : list (jsstr * jval)) (s : sync) : sync := set_data (differences s) r (hasSynced s) s.
Definition set_view (page size : Z) (keyword filter : jsstr) (s : sync) : sync :=
  Sync (modalVisible s) (loading s) (syncLoading s) (confirmLoading s) (allChannels s) (selectedChannelIds s) (channelEndpoints s)
    (differences s) (resolutions s) (hasSynced s) page size keyword filter (confirmVisible s)
    (conflictItems s) (channels_awaited s) (ratios_awaited s) (save_awaited s).
Definition set_confirm (v : bool) (items : list conflict) (s : sync) : sync :=
  Sync (modalVisible s) (loading s) (syncLoading s) (confirmLoading s) (allChannels s) (selectedChannelIds s) (channelEndpoints s)
    (differences s) (resolutions s) (hasSynced s) (currentPage s) (pageSize s) (searchKeyword s) (ratioTypeFilter s) v items
    (channels_awaited s) (ratios_awaited s) (save_awaited s).
(** [syncLoading] is set with the request for the comparison. *)
Definition set_awaited (c r : bool) (w : option save) (s : sync) : sync :=
  Sync (modalVisible s) (loading s) r (confirmLoading s) (allChannels s) (selectedChannelIds s) (channelEndpoints s)
    (differences s) (resolutions s) (hasSynced s) (currentPage s) (pageSize s) (searchKeyword s) (ratioTypeFilter s)
    (confirmVisible s) (conflictItems s) c r w.

(** What comes back from the server: an answer, a refusal, or a failed request. *)
Inductive reply (A : Type) := Answered (a : A) | Refused (message : jsstr) | Broken (message : jsstr).
Arguments Answered {A} a.
Arguments Refused {A} message.
Arguments Broken {A} message.

Inductive note := Info (m : jsstr) | Success (m : jsstr) | Warning (m : jsstr) | Error (m : jsstr).

(** [{ name, status, error }] *)
Record test_result := TestResult { tr_name : jsstr; tr_status : jsstr; tr_error : jsstr }.

Section Page.
Context (lower : jsstr → jsstr) (other : N → jsstr) (t : jsstr → jsstr).

(** [disabled={loading || syncLoading || confirmLoading}], and no dialog open *)
Definition page_enabled (s : sync) : bool :=
  negb (loading s || syncLoading s || confirmLoading s) && negb (modalVisible s || confirmVisible s).

Definition fetchAllChannels (s : sync) : sync := set_loading true (set_awaited true (ratios_awaited s) (save_awaited s) s).
Definition openSelector (s : sync) : sync :=
  let s' := set_modal true s in
  match allChannels s with [] => fetchAllChannels s' | _ => s' end.
Definition on_channels (r : reply (list channel)) (s : sync) : sync * list note :=
  let s' := set_loading false (set_awaited false (ratios_awaited s) (save_awaited s) s) in
  match r with
  | Answered channels => (set_channels channels (merge_endpoints channels (channelEndpoints s)) s', [])
  | Refused m => (s', [Error m])
  | Broken m => (s', [Error (t (js "获取渠道失败：") ++ m)])
  end.

Definition chosen_channels (s : sync) : list channel :=
  List.filter (λ c, existsb (Z.eqb (ch_id c)) (selectedChannelIds s)) (allChannels s).
Definition confirmChannelSelection (s : sync) : sync * list note * list upstream :=
  match chosen_channels s with
  | [] => (s, [Warning (t (js "请至少选择一个渠道"))], [])
  | selected => (set_awaited (channels_awaited s) true (save_awaited s) (set_modal false s), [],
                 upstreams (channelEndpoints s) selected)
  end.

Definition test_warning (results : list test_result) : list note :=
  match List.filter (λ r, streq (tr_status r) (js "error")) results with
  | [] => []
  | errorResults => [Warning (t (js "部分渠道测试失败：") ++
                       join (js ", ") (map (λ r, tr_name r ++ js ": " ++ tr_error r) errorResults))]
  end.
Definition on_ratios (r : reply (list (jsstr * jval) * list test_result)) (s : sync) : sync * list note :=
  let s' := set_awaited (channels_awaited s) false (save_awaited s) s in
  match r with
  | Answered (differences, test_results) =>
    (set_data differences [] true s',
     test_warning test_results ++
     match own_keys differences with [] => [Success (t (js "未找到差异化价格，无需同步"))] | _ => [] end)
  | Refused m => (s', [Error (if is_empty m then t (js "后端请求失败") else m)])
  | Broken m => (s', [Error (t (js "请求后端接口失败：") ++ m)])
  end.

Definition rows (s : sync) : list row := filteredDataSource lower (searchKeyword s) (ratioTypeFilter s) (differences s).

(** A checkbox of the current page: [None] if there is none. *)
Definition toggle (model ratioType upName : jsstr) (checked : bool) (s : sync) : option sync :=
  match List.find (λ r, streq (r_model r) model) (getCurrentPageData (currentPage s) (pageSize s) (rows s)) with
  | None => None
  | Some r =>
    if listed (upstreamNames (ratioTypeFilter s) (rows s)) upName then
      match assoc_get (renderUpstreamFields (ratioTypeFilter s) (differences s) (resolutions s) r upName) ratioType with
      | Some (Choice _ _, _) =>
        Some (set_resolutions
          (if checked then selectValue (differences s) model ratioType (row_value upName r ratioType) upName (resolutions s)
           else deleteResolutionField (spread [] (JObj (resolutions s))) model ratioType) s)
      | _ => None
      end
    else None
  end.

(** The checkbox in the head of a column: only with something to select *)
Definition bulk (upName : jsstr) (checked : bool) (s : sync) : option sync :=
  if listed (upstreamNames (ratioTypeFilter s) (rows s)) upName
     && (0 <? selectableCount (channelStats (ratioTypeFilter s) (differences s) upName (rows s) (resolutions s)))
  then Some (set_resolutions (handleBulkSelect (ratioTypeFilter s) (differences s) upName checked (rows s) (resolutions s)) s)
  else None.

(** The part of [performSync] before the first [await]: [None] is a [TypeError]. *)
Definition performSync (confirmed : bool) (currentRatios : list (jsstr * jval)) (s : sync) : option (sync * list note * list (jsstr * jsstr)) :=
  match final_ratios other currentRatios (resolutions s) with
  | None => None
  | Some finalRatios =>
    Some (set_loading true (set_awaited (channels_awaited s) (ratios_awaited s) (Some (Save (resolutions s) confirmed)) s),
          [Info (t (js "正在同步价格，请稍候"))], put_requests finalRatios)
  end.

(** The rest of it: [None] of the replies is a failed request. *)
Definition on_saved (replies : option (list bool)) (w : save) (s : sync) : sync * list note :=
  let s' := set_flags (modalVisible s) false (if s_confirmed w then false else confirmLoading s)
              (set_awaited (channels_awaited s) (ratios_awaited s) None s) in
  match replies with
  | Some rs =>
    if forallb (λ b, b) rs then
      let s'' := set_data (forget_synced (s_resolutions w) (differences s)) [] (hasSynced s) s' in
      (if s_confirmed w then set_confirm false (conflictItems s) s'' else s'', [Success (t (js "同步成功"))])
    else (s', [Error (t (js "部分保存失败"))])
  | None => (s', [Error (t (js "保存失败"))])
  end.

(** [None]: an error before anything is set *)
Definition applySync (options : list (jsstr * jsstr)) (s : sync) : option (sync * list note * list (jsstr * jsstr)) :=
  match read_options options with
  | None => None
  | Some currentRatios =>
    match find_conflicts t (differences s) currentRatios (resolutions s) with
    | None => None
    | Some [] => performSync false currentRatios s
    | Some conflicts => Some (set_confirm true conflicts s, [], [])
    end
  end.

(** The confirmation dialog: an error while the options are read leaves it
    loading, an error of [performSync] does not. *)
Definition confirmSync (options : list (jsstr * jsstr)) (s : sync) : sync * list note * list (jsstr * jsstr) :=
  let s' := set_confirm_loading true s in
  match read_options options with
  | None => (s', [], [])
  | Some currentRatios =>
    match performSync true currentRatios s' with
    | None => (set_confirm_loading false s', [], [])
    | Some out => out
    end
  end.

Inductive event :=
| OpenSelector | CancelSelector | SelectChannels (ids : list Z)
| ChooseEndpoint (id : Z) (val : Selector.endpoint_type) | TypeEndpoint (id : Z) (text : jsstr)
| ChannelsReply (r : reply (list channel)) | ConfirmSelection | RatiosReply (r : reply (list (jsstr * jval) * list test_result))
| Toggle (model ratioType upName : jsstr) (checked : bool) | Bulk (upName : jsstr) (checked : bool)
| SearchFor (text : jsstr) | FilterBy (field : jsstr) | GoToPage (page size : Z) | ShowSize (size : Z)
| Apply (options : list (jsstr * jsstr)) | Confirm (options : list (jsstr * jsstr)) | CancelConfirm
| SaveReply (replies : option (list bool)).

(** The server answers with a [map[string]map[string]dto.DifferenceItem]: fields
    of its list [pricingSyncFields], no model without one, named channels, and
    numbers, texts or [null] for values. *)
Definition scalar (v : jval) : bool := match v with JNum x => negb (isNaN x) | JStr _ => true | _ => false end.
Definition item_ok (v : jval) : bool :=
  match v with
  | JObj o => match obj_get o (js "upstreams") with
              | JObj ups => negb (obj_has ups []) && forallb (λ e, is_nullish e.2 || scalar e.2) ups
              | _ => false
              end
  | _ => false
  end.
Definition fields_known (fs : list (jsstr * jval)) : bool := forallb (λ f, listed syncFieldOrder f.1 && item_ok f.2) fs.
Definition comparison_ok (d : list (jsstr * jval)) : bool :=
  unique_keys (JObj d) &&
  forallb (λ e, match e.2 with JObj (f :: fs) => fields_known (f :: fs) | _ => false end) d.
Definition server_event (e : event) : bool :=
  match e with RatiosReply (Answered (d, _)) => comparison_ok d | _ => true end.

(** [None]: the control is not there or disabled, or the handler throws before
    it changes anything. *)
Definition handle (e : event) (s : sync) : option sync :=
  let when (b : bool) (r : option sync) := if b then r else None in
  match e with
  | OpenSelector => when (page_enabled s) (Some (openSelector s))
  | CancelSelector => when (modalVisible s) (Some (set_modal false s))
  | SelectChannels ids => when (modalVisible s) (Some (set_selected ids s))
  | ChooseEndpoint id val =>
    when (modalVisible s) (Some (set_channels (allChannels s) (Selector.handleTypeChange val id (channelEndpoints s)) s))
  | TypeEndpoint id text =>
    when (modalVisible s)
      (option_map (λ eps, set_channels (allChannels s) eps s) (Selector.type_endpoint text id (channelEndpoints s)))
  | ChannelsReply r => when (channels_awaited s) (Some (on_channels r s).1)
  | ConfirmSelection => when (modalVisible s) (Some (confirmChannelSelection s).1.1)
  | RatiosReply r => when (ratios_awaited s) (Some (on_ratios r s).1)
  | Toggle model rt up checked => when (page_enabled s) (toggle model rt up checked s)
  | Bulk up checked => when (page_enabled s) (bulk up checked s)
  | SearchFor text => when (page_enabled s) (Some (set_view 1 (pageSize s) text (ratioTypeFilter s) s))
  | FilterBy field => when (page_enabled s) (Some (set_view 1 (pageSize s) (searchKeyword s) field s))
  | GoToPage page size =>
    when (negb (modalVisible s || confirmVisible s)) (Some (set_view page size (searchKeyword s) (ratioTypeFilter s) s))
  | ShowSize size => when (negb (modalVisible s || confirmVisible s)) (Some (set_view 1 size (searchKeyword s) (ratioTypeFilter s) s))
  | Apply options =>
    when (page_enabled s && negb (bool_decide (own_keys (resolutions s) = []))) (option_map (λ o, o.1.1) (applySync options s))
  | Confirm options => when (confirmVisible s && negb (confirmLoading s)) (Some (confirmSync options s).1.1)
  | CancelConfirm => when (confirmVisible s && negb (confirmLoading s)) (Some (set_confirm false (conflictItems s) s))
  | SaveReply replies => match save_awaited s with Some w => Some (on_saved replies w s).1 | None => None end
  end.

Inductive reachable : sync → Prop :=
| reach_initial : reachable initial_sync
| reach_event e s s' : reachable s → server_event e = true → handle e s = Some s' → reachable s'.
End Page.
