(* ===== verification/RatioSyncTheorems.v ===== *)
(** * Taking prices over: what holds of the page

    Objects under deletion, the selection of a model, the invariant of every
    reachable state, the options a save writes, and the selection of a column. *)

From stdpp Require Import sorting.
From S2P Require Import Prelude JsString JsNumber Json JsObject RatioSync.

Local Opaque js.

(** ** Objects *)

Lemma has_defined o k : defined (obj_get o k) = true → obj_has o k = true.
Proof. destruct (obj_has o k) eqn:E; [done|]. by rewrite obj_absent. Qed.

(** A copy of an object *)
Lemma copy_has o k : obj_has (spread [] (JObj o)) k = obj_has o k.
Proof. rewrite spread_has. cbn [obj_has]. by rewrite orb_false_r. Qed.
Lemma listed_true l x : listed l x = true ↔ x ∈ l.
Proof.
  unfold listed. rewrite existsb_exists. split.
  - intros (y & Hy & ->%streq_true). by apply list_elem_of_In.
  - intros H. exists x. split; [by apply list_elem_of_In|apply streq_refl].
Qed.
Lemma listed_false l x : listed l x = false ↔ x ∉ l.
Proof. rewrite <- listed_true. destruct (listed l x); naive_solver. Qed.

Lemma own_keys_has o k : listed (own_keys o) k = obj_has o k.
Proof. apply eq_true_iff_eq. by rewrite listed_true, own_keys_In, obj_has_In. Qed.

Lemma own_keys_nil o : own_keys o = [] → ∀ k, obj_has o k = false.
Proof. intros H k. rewrite <- own_keys_has, H. done. Qed.

(** Deleting, of some keys, those that satisfy a test. *)
Lemma fold_delete_has (p : jsstr → bool) ks o k :
  obj_has (fold_left (λ acc x, if p x then obj_delete acc x else acc) ks o) k = obj_has o k && negb (p k && listed ks k).
Proof.
  revert o. induction ks as [|x ks IH]; intros o; cbn [fold_left listed existsb]; [by rewrite andb_false_r, andb_true_r|].
  rewrite IH. fold (listed ks k). destruct (p x) eqn:Ep.
  - rewrite obj_has_delete. destruct (streq x k) eqn:E.
    + apply streq_true in E as ->. rewrite streq_refl, Ep. cbn. by rewrite andb_false_r.
    + cbn [negb]. rewrite (proj2 (streq_false k x)) by (apply streq_false in E; congruence). done.
  - destruct (streq k x) eqn:E; [|done]. apply streq_true in E as ->. rewrite Ep. by destruct (listed ks x), (obj_has o x).
Qed.

Lemma fold_delete_get (p : jsstr → bool) ks o k :
  obj_get (fold_left (λ acc x, if p x then obj_delete acc x else acc) ks o) k = if p k && listed ks k then JUndef else obj_get o k.
Proof.
  revert o. induction ks as [|x ks IH]; intros o; cbn [fold_left listed existsb]; [by rewrite andb_false_r|].
  rewrite IH. fold (listed ks k). destruct (p x) eqn:Ep.
  - rewrite obj_get_delete. destruct (streq x k) eqn:E.
    + apply streq_true in E as ->. rewrite streq_refl, Ep. by destruct (true && listed ks k).
    + rewrite (proj2 (streq_false k x)) by (apply streq_false in E; congruence). done.
  - destruct (streq k x) eqn:E; [|done]. apply streq_true in E as ->. by rewrite Ep.
Qed.

Lemma fold_delete_keys (p : jsstr → bool) ks o : NoDup (map fst o) →
  NoDup (map fst (fold_left (λ acc x, if p x then obj_delete acc x else acc) ks o)).
Proof. intros H. apply fold_left_inv; [done|]. intros acc x _ Hacc. destruct (p x); [by apply obj_delete_keys|done]. Qed.

(** ** The selection of one model *)

Lemma mode_not_expr : streq billing_mode billing_expr = false.
Proof. by vm_compute. Qed.
Lemma expr_not_mode : streq billing_expr billing_mode = false.
Proof. by vm_compute. Qed.
Lemma price_not_mode : streq model_price billing_mode = false.
Proof. by vm_compute. Qed.
Lemma price_not_expr : streq model_price billing_expr = false.
Proof. by vm_compute. Qed.
Lemma mode_not_price : streq billing_mode model_price = false.
Proof. by vm_compute. Qed.
Lemma expr_not_price : streq billing_expr model_price = false.
Proof. by vm_compute. Qed.
Ltac fields := rewrite ?mode_not_expr, ?expr_not_mode, ?price_not_mode, ?price_not_expr, ?mode_not_price, ?expr_not_price, ?streq_refl; cbn [orb andb negb].
Tactic Notation "fields" "in" hyp(H) := rewrite ?mode_not_expr, ?expr_not_mode, ?price_not_mode, ?price_not_expr, ?mode_not_price, ?expr_not_price, ?streq_refl in H; cbn [orb andb negb] in H.

Lemma category_price rt : getBillingCategory rt = price ↔ rt = model_price.
Proof.
  unfold getBillingCategory. destruct (streq rt model_price) eqn:E; [apply streq_true in E as ->; done|].
  apply streq_false in E. destruct (_ || _); naive_solver.
Qed.
Lemma category_tiered rt : getBillingCategory rt = tiered ↔ rt = billing_mode ∨ rt = billing_expr.
Proof.
  unfold getBillingCategory. destruct (streq rt model_price) eqn:E.
  - apply streq_true in E as ->. split; [done|]. by intros [H|H]; apply (proj2 (streq_true _ _)) in H; fields in H.
  - rewrite <- !(streq_true rt), <- orb_true_iff. destruct (_ || _); done.
Qed.
Lemma category_mode : getBillingCategory billing_mode = tiered.
Proof. apply category_tiered. by left. Qed.
Lemma category_expr : getBillingCategory billing_expr = tiered.
Proof. apply category_tiered. by right. Qed.

(** Which fields a choice of a field removes *)
Definition clears (rt rt' : jsstr) : bool :=
  negb (bool_decide (getBillingCategory rt = tiered)) && negb (bool_decide (getBillingCategory rt' = tiered))
  && negb (bool_decide (getBillingCategory rt' = getBillingCategory rt)).

Lemma clears_tiered rt rt' : getBillingCategory rt = tiered → clears rt rt' = false.
Proof. intros H. unfold clears. by rewrite H. Qed.

(** A choice of a price or a ratio *)
Definition cleared (rt : jsstr) (r0 : list (jsstr * jval)) : list (jsstr * jval) :=
  fold_left (λ acc x, if clears rt x then obj_delete acc x else acc) (own_keys r0) r0.

Lemma cleared_has rt r0 k : obj_has (cleared rt r0) k = obj_has r0 k && negb (clears rt k).
Proof. unfold cleared. rewrite fold_delete_has, own_keys_has. by destruct (obj_has r0 k), (clears rt k). Qed.
Lemma cleared_get rt r0 k : clears rt k = false → obj_get (cleared rt r0) k = obj_get r0 k.
Proof. intros H. unfold cleared. by rewrite fold_delete_get, H. Qed.
Lemma cleared_keys rt r0 : NoDup (map fst r0) → NoDup (map fst (cleared rt r0)).
Proof. apply fold_delete_keys. Qed.

Section Select.
Context (d : list (jsstr * jval)) (m src : jsstr) (r0 : list (jsstr * jval)).
Local Abbreviation up rt := (getUpstreamValue d m rt src).

Lemma select_unfold rt v : select_fields d m rt v src r0 =
  let r := obj_set (cleared rt r0) rt v in
  if bool_decide (getBillingCategory rt = tiered) && negb (is_empty src) then
    let r := if isSelectableUpstreamValue (up billing_mode) then obj_set r billing_mode (up billing_mode)
             else if streq rt billing_expr then obj_set r billing_mode (JStr (js "tiered_expr")) else r in
    if isSelectableUpstreamValue (up billing_expr) then obj_set r billing_expr (up billing_expr) else r
  else r.
Proof. reflexivity. Qed.

Lemma select_plain rt v : getBillingCategory rt ≠ tiered → select_fields d m rt v src r0 = obj_set (cleared rt r0) rt v.
Proof. intros H. rewrite select_unfold. by rewrite (bool_decide_eq_false_2 _ H). Qed.

(** A choice of a billing mode or expression of a named channel *)
Lemma select_tiered rt v : getBillingCategory rt = tiered → is_empty src = false →
  select_fields d m rt v src r0 =
  let r := obj_set (cleared rt r0) rt v in
  let r := if isSelectableUpstreamValue (up billing_mode) then obj_set r billing_mode (up billing_mode)
           else if streq rt billing_expr then obj_set r billing_mode (JStr (js "tiered_expr")) else r in
  if isSelectableUpstreamValue (up billing_expr) then obj_set r billing_expr (up billing_expr) else r.
Proof. intros H Hs. rewrite select_unfold. by rewrite H, Hs. Qed.

Lemma select_keys rt v : NoDup (map fst r0) → NoDup (map fst (select_fields d m rt v src r0)).
Proof.
  intros H. rewrite select_unfold. cbv zeta.
  repeat case_match; repeat apply obj_set_keys; by apply cleared_keys.
Qed.

(** The chosen field holds the chosen value. *)
Lemma select_chosen rt v : (rt = billing_mode ∨ rt = billing_expr → isSelectableUpstreamValue v = true ∧ v = up rt) →
  obj_get (select_fields d m rt v src r0) rt = v.
Proof.
  intros Hv. rewrite select_unfold. cbv zeta. case_match eqn:Et; [|by rewrite obj_get_set, streq_refl].
  apply andb_true_iff in Et as [Et%bool_decide_eq_true _]. apply category_tiered in Et. specialize (Hv Et) as [Hs Hv].
  destruct Et as [->| ->]; rewrite <- Hv, Hs; fields; repeat case_match; rewrite !obj_get_set; fields; done.
Qed.
End Select.

(** What is picked for a model: price and ratios are not mixed, an expression
    comes with a mode, and every value is one of the compared ones. *)
Definition from_upstream (d : list (jsstr * jval)) (m rt : jsstr) (v : jval) : Prop :=
  (∃ up, is_empty up = false ∧ v = getUpstreamValue d m rt up ∧ isSelectableUpstreamValue v = true)
  ∨ (rt = billing_mode ∧ v = JStr (js "tiered_expr")).

Definition source_ok (d : list (jsstr * jval)) (m : jsstr) (r : list (jsstr * jval)) : Prop :=
  ∀ rt, obj_has r rt = true → from_upstream d m rt (obj_get r rt).

Record picks_ok (d : list (jsstr * jval)) (m : jsstr) (r : list (jsstr * jval)) : Prop := PicksOk {
  ok_keys : NoDup (map fst r);
  ok_exclusive : ∀ rt, obj_has r rt = true → getBillingCategory rt = ratio → obj_has r model_price = false;
  ok_paired : obj_has r billing_expr = true → obj_has r billing_mode = true;
  ok_source : source_ok d m r }.

Lemma source_set d m r k v : source_ok d m r → from_upstream d m k v → source_ok d m (obj_set r k v).
Proof.
  intros Hr Hv rt. rewrite obj_has_set, obj_get_set. destruct (streq k rt) eqn:E; [by apply streq_true in E as <-|apply Hr].
Qed.

Lemma source_cleared d m r k : source_ok d m r → source_ok d m (cleared k r).
Proof.
  intros Hr rt. rewrite cleared_has. intros [H Hc]%andb_true_iff. apply negb_true_iff in Hc. rewrite cleared_get by done. auto.
Qed.

Lemma picks_nil d m : picks_ok d m [].
Proof. by split; [apply NoDup_nil_2|..]. Qed.

Section SelectOk.
Context (d : list (jsstr * jval)) (m src rt : jsstr) (r0 : list (jsstr * jval)).
Context (Hr0 : picks_ok d m r0) (Hsrc : is_empty src = false).
Context (Hv : isSelectableUpstreamValue (getUpstreamValue d m rt src) = true).
Let chosen := select_fields d m rt (getUpstreamValue d m rt src) src r0.

Lemma here_from rt' : isSelectableUpstreamValue (getUpstreamValue d m rt' src) = true →
  from_upstream d m rt' (getUpstreamValue d m rt' src).
Proof using Hsrc. intros H. left. exists src. auto. Qed.

Lemma select_source : source_ok d m chosen.
Proof using Hr0 Hsrc Hv.
  pose proof (source_cleared d m r0 rt (ok_source _ _ _ Hr0)) as Hc. unfold chosen. rewrite select_unfold. cbv zeta.
  repeat case_match; repeat apply source_set; try done; try (by apply here_from); by right.
Qed.

(** The other categories of fields stay as they are. *)
Lemma select_has_plain k : getBillingCategory k ≠ tiered →
  obj_has chosen k = streq rt k || (obj_has r0 k && negb (clears rt k)).
Proof using.
  intros Hk. unfold chosen. rewrite select_unfold. cbv zeta.
  assert (H1 : streq billing_mode k = false) by (apply streq_false; intros <-; by rewrite category_mode in Hk).
  assert (H2 : streq billing_expr k = false) by (apply streq_false; intros <-; by rewrite category_expr in Hk).
  repeat case_match; rewrite !obj_has_set, cleared_has, ?H1, ?H2; done.
Qed.

Lemma select_paired : obj_has chosen billing_expr = true → obj_has chosen billing_mode = true.
Proof using Hr0 Hsrc Hv.
  unfold chosen. destruct (decide (getBillingCategory rt = tiered)) as [Ht|Ht].
  - rewrite select_tiered by done. intros _. destruct (proj1 (category_tiered rt) Ht) as [->| ->];
      repeat case_match; rewrite !obj_has_set; fields; rewrite ?orb_true_r; done.
  - rewrite select_plain, !obj_has_set, !cleared_has by done.
    assert (He : ∀ k, getBillingCategory k = tiered → streq rt k = false ∧ clears rt k = false).
    { intros k Hk. split; [apply streq_false; intros ->; done|]. unfold clears. by rewrite Hk, andb_false_r. }
    destruct (He _ category_mode) as [-> ->], (He _ category_expr) as [-> ->]. cbn [orb negb]. rewrite !andb_true_r.
    apply (ok_paired _ _ _ Hr0).
Qed.

Lemma select_exclusive k : obj_has chosen k = true → getBillingCategory k = ratio → obj_has chosen model_price = false.
Proof using Hr0 Hv.
  intros Hk Hc. assert (Hp : getBillingCategory model_price = price) by (by apply category_price).
  rewrite select_has_plain in Hk |- * by (rewrite ?Hc, ?Hp; done).
  destruct (getBillingCategory rt) eqn:Ert.
  - apply category_price in Ert as Ert'. subst rt. exfalso. unfold clears in Hk. rewrite Ert, Hc in Hk. cbn in Hk.
    rewrite andb_false_r, orb_false_r in Hk. apply streq_true in Hk as <-. congruence.
  - assert (Hn : streq rt model_price = false) by (apply streq_false; intros ->; congruence). rewrite Hn.
    unfold clears. rewrite Ert, Hp. cbn. by rewrite andb_false_r.
  - assert (Hn : streq rt model_price = false) by (apply streq_false; intros ->; congruence).
    assert (Hn' : streq rt k = false) by (apply streq_false; intros ->; congruence).
    rewrite Hn, Hn', !(clears_tiered rt) in * by done. cbn [orb negb] in *. rewrite andb_true_r in *.
    by apply (ok_exclusive _ _ _ Hr0 k).
Qed.

Lemma select_ok : picks_ok d m chosen.
Proof using Hr0 Hsrc Hv.
  split; [apply select_keys, Hr0|exact select_exclusive|exact select_paired|exact select_source].
Qed.
End SelectOk.

(** ** Unselecting *)

Definition unselect_fields (rt : jsstr) (r : list (jsstr * jval)) : list (jsstr * jval) :=
  let r := obj_delete r rt in
  let r := if streq rt billing_expr then obj_delete r billing_mode else r in
  if streq rt billing_mode then obj_delete r billing_expr else r.

(** Whether unselecting [rt] takes [k] away *)
Definition unselects (rt k : jsstr) : bool :=
  streq rt k || (streq rt billing_expr && streq billing_mode k) || (streq rt billing_mode && streq billing_expr k).

Lemma unselect_has rt r k : obj_has (unselect_fields rt r) k = obj_has r k && negb (unselects rt k).
Proof.
  unfold unselect_fields, unselects. destruct (streq rt billing_expr), (streq rt billing_mode); rewrite !obj_has_delete; cbn [andb orb];
    rewrite ?orb_false_r; destruct (streq rt k), (streq billing_mode k), (streq billing_expr k), (obj_has r k); done.
Qed.
Lemma unselect_get rt r k : unselects rt k = false → obj_get (unselect_fields rt r) k = obj_get r k.
Proof.
  unfold unselect_fields, unselects. destruct (streq rt billing_expr), (streq rt billing_mode); cbn [andb orb];
    rewrite !obj_get_delete; destruct (streq rt k), (streq billing_mode k), (streq billing_expr k); done.
Qed.
Lemma unselect_keys rt r : NoDup (map fst r) → NoDup (map fst (unselect_fields rt r)).
Proof. intros H. unfold unselect_fields. repeat case_match; repeat apply obj_delete_keys; done. Qed.

Lemma unselects_pair rt : unselects rt billing_mode = true → unselects rt billing_expr = true.
Proof.
  unfold unselects. fields. rewrite !andb_true_r, !andb_false_r, !orb_false_r. rewrite !orb_true_iff. tauto.
Qed.

Lemma unselect_ok d m rt r : picks_ok d m r → picks_ok d m (unselect_fields rt r).
Proof.
  intros [Hk He Hp Hs]. split.
  - by apply unselect_keys.
  - intros k. rewrite !unselect_has. intros [H _]%andb_true_iff Hc. by rewrite (He k).
  - rewrite !unselect_has. intros [H Hu]%andb_true_iff. rewrite (Hp H). apply negb_true_iff in Hu. apply negb_true_iff.
    destruct (unselects rt billing_mode) eqn:E; [|done]. apply unselects_pair in E. congruence.
  - intros k. rewrite unselect_has. intros [H Hu]%andb_true_iff. apply negb_true_iff in Hu. rewrite unselect_get by done. auto.
Qed.

(** ** The selection of all models *)

(** What is picked for a model; nothing is an empty list. *)
Definition picks (res : list (jsstr * jval)) (m : jsstr) : list (jsstr * jval) := members (obj_get res m).

Definition resolutions_ok (d res : list (jsstr * jval)) : Prop :=
  NoDup (map fst res) ∧
  ∀ m, obj_has res m = true → ∃ r, obj_get res m = JObj r ∧ picks_ok d m r ∧ ∃ rt, obj_has r rt = true.

Lemma resolutions_nil d : resolutions_ok d [].
Proof. split; [apply NoDup_nil_2|done]. Qed.

Lemma picks_all_ok d res m : resolutions_ok d res → picks_ok d m (picks res m).
Proof.
  intros [_ H]. unfold picks. destruct (obj_has res m) eqn:E.
  - destruct (H m E) as (r & -> & Hr & _). exact Hr.
  - rewrite obj_absent by done. apply picks_nil.
Qed.

Lemma picks_get d res m : resolutions_ok d res → obj_get res m = if obj_has res m then JObj (picks res m) else JUndef.
Proof.
  intros [_ H]. unfold picks. destruct (obj_has res m) eqn:E; [|by apply obj_absent]. by destruct (H m E) as (r & -> & _).
Qed.

Lemma copy_ok d m r : picks_ok d m r → picks_ok d m (spread [] (JObj r)).
Proof.
  intros [Hk He Hp Hs]. split; [apply spread_keys, NoDup_nil_2|intros k; rewrite !copy_has; apply He|by rewrite !copy_has|].
  intros k. rewrite copy_has, copy_get by done. apply Hs.
Qed.

(** The object a choice starts from *)
Definition picks_copy (res : list (jsstr * jval)) (m : jsstr) : list (jsstr * jval) :=
  spread [] (js_or (obj_get res m) (JObj [])).

Lemma picks_copy_eq d res m : resolutions_ok d res → picks_copy res m = spread [] (JObj (picks res m)).
Proof.
  intros H. unfold picks_copy. rewrite (picks_get d) by done. destruct (obj_has res m) eqn:E; [done|].
  unfold picks. by rewrite obj_absent.
Qed.

Lemma resolutions_set d res m r : resolutions_ok d res → picks_ok d m r → (∃ rt, obj_has r rt = true) →
  resolutions_ok d (obj_set res m (JObj r)).
Proof.
  intros [Hk H] Hr Hne. split; [by apply obj_set_keys|]. intros m'. rewrite obj_has_set, obj_get_set.
  destruct (streq m m') eqn:E; [|apply H]. apply streq_true in E as <-. intros _. by exists r.
Qed.

Lemma resolutions_delete d res m : resolutions_ok d res → resolutions_ok d (obj_delete res m).
Proof.
  intros [Hk H]. split; [by apply obj_delete_keys|]. intros m'. rewrite obj_has_delete, obj_get_delete.
  intros [Hn Hh]%andb_true_iff. apply negb_true_iff in Hn. rewrite Hn. auto.
Qed.

Lemma resolutions_copy d res : resolutions_ok d res → resolutions_ok d (spread [] (JObj res)).
Proof.
  intros [Hk H]. split; [apply spread_keys, NoDup_nil_2|]. intros m. rewrite copy_has, copy_get by done. apply H.
Qed.

Lemma delete_unfold newRes m rt : deleteResolutionField newRes m rt =
  if negb (truthy (obj_get newRes m)) then newRes else
  match own_keys (unselect_fields rt (picks newRes m)) with
  | [] => obj_delete newRes m
  | _ => obj_set newRes m (JObj (unselect_fields rt (picks newRes m)))
  end.
Proof. reflexivity. Qed.

Lemma delete_ok d res m rt : resolutions_ok d res → resolutions_ok d (deleteResolutionField res m rt).
Proof.
  intros H. rewrite delete_unfold. case_match; [done|]. destruct (own_keys _) as [|k ks] eqn:E; [by apply resolutions_delete|].
  apply resolutions_set; [done|apply unselect_ok, picks_all_ok, H|].
  exists k. rewrite <- own_keys_has, E. cbn. by rewrite streq_refl.
Qed.

(** Unselecting takes the fields out of one model and leaves the others. *)
Lemma delete_picks d res m rt m' k : resolutions_ok d res →
  obj_has (picks (deleteResolutionField res m rt) m') k = obj_has (picks res m') k && negb (streq m m' && unselects rt k).
Proof.
  intros H. rewrite delete_unfold. destruct (truthy (obj_get res m)) eqn:Et; cbn [negb].
  - destruct (own_keys _) eqn:E; unfold picks at 1; rewrite ?obj_get_delete, ?obj_get_set; destruct (streq m m') eqn:Em; cbn [andb negb];
      rewrite ?andb_true_r; try done; apply streq_true in Em as <-; cbn [members].
    + pose proof (own_keys_nil _ E k) as Hn. rewrite unselect_has in Hn. by rewrite Hn.
    + by rewrite unselect_has.
  - destruct (streq m m') eqn:Em; cbn [andb negb]; [|by rewrite andb_true_r]. apply streq_true in Em as <-.
    unfold picks. rewrite (picks_get d) in * by done. destruct (obj_has res m); done.
Qed.

Section Choose.
Context (d res : list (jsstr * jval)) (m rt src : jsstr).
Context (Hres : resolutions_ok d res) (Hsrc : is_empty src = false).
Context (Hv : isSelectableUpstreamValue (getUpstreamValue d m rt src) = true) (Hp : getPreferredSyncField d m rt src = rt).
Let chosen := selectValue d m rt (getUpstreamValue d m rt src) src res.

Lemma choose_unfold :
  chosen = obj_set (spread [] (JObj res)) m (JObj (select_fields d m rt (getUpstreamValue d m rt src) src (picks_copy res m))).
Proof using Hsrc Hp. unfold chosen, selectValue. rewrite Hsrc, Hp, streq_refl. done. Qed.

Lemma choose_ok : resolutions_ok d chosen.
Proof using Hres Hsrc Hv Hp.
  rewrite choose_unfold. apply resolutions_set; [by apply resolutions_copy| |].
  - apply select_ok; [|done..]. rewrite (picks_copy_eq d) by done. by apply copy_ok, picks_all_ok.
  - exists rt. apply has_defined. rewrite select_chosen by done. by destruct (getUpstreamValue _ _ _ _).
Qed.

Lemma choose_picks m' : picks chosen m' =
  if streq m m' then select_fields d m rt (getUpstreamValue d m rt src) src (picks_copy res m) else picks res m'.
Proof using Hres Hsrc Hp.
  rewrite choose_unfold. unfold picks. rewrite obj_get_set. destruct (streq m m'); [done|]. by rewrite copy_get by apply Hres.
Qed.
End Choose.

(** ** The comparison *)

Lemma comparison_keys d : comparison_ok d = true → NoDup (map fst d).
Proof. unfold comparison_ok. cbn [unique_keys]. rewrite !andb_true_iff, bool_decide_eq_true. tauto. Qed.

Lemma get_member o k : obj_has o k = true → (k, obj_get o k) ∈ o.
Proof.
  induction o as [|[k' v] o IH]; cbn [obj_has obj_get]; [done|]. destruct (streq k' k) eqn:E; cbn [orb].
  - apply streq_true in E as ->. intros _. apply elem_of_cons. by left.
  - intros H. apply elem_of_cons. right. auto.
Qed.

Lemma comparison_model d m : comparison_ok d = true → obj_has d m = true →
  ∃ fs, obj_get d m = JObj fs ∧ fs ≠ [] ∧ fields_known fs = true ∧ NoDup (map fst fs).
Proof.
  unfold comparison_ok. cbn [unique_keys]. rewrite !andb_true_iff, bool_decide_eq_true. intros [[_ Hu] Hf] Hm%get_member%list_elem_of_In.
  pose proof (proj1 (forallb_forall _ _) Hf _ Hm) as H. pose proof (proj1 (forallb_forall _ _) Hu _ Hm) as H'. cbn [snd] in *.
  destruct (obj_get d m) as [| | | | | |[|f fs]]; try done. exists (f :: fs). cbn [unique_keys] in H'.
  apply andb_true_iff in H' as [H'%bool_decide_eq_true _]. done.
Qed.

Lemma known_field fs rt : fields_known fs = true → obj_has fs rt = true →
  listed syncFieldOrder rt = true ∧ ∃ o ups, obj_get fs rt = JObj o ∧ obj_get o (js "upstreams") = JObj ups ∧ obj_has ups [] = false
  ∧ forallb (λ e, is_nullish e.2 || scalar e.2) ups = true.
Proof.
  intros Hf Hr%get_member%list_elem_of_In. pose proof (proj1 (forallb_forall _ _) Hf _ Hr) as H. cbn [fst snd] in H.
  apply andb_true_iff in H as [H1 H2]. split; [done|]. destruct (obj_get fs rt) as [| | | | | |o]; try done. unfold item_ok in H2.
  destruct (obj_get o (js "upstreams")) as [| | | | | |ups] eqn:Eu; try done. apply andb_true_iff in H2 as [H2%negb_true_iff H3].
  by exists o, ups.
Qed.

(** A value that can be picked is one of a named channel, for a known field. *)
Lemma upstream_known d m rt src : comparison_ok d = true → isSelectableUpstreamValue (getUpstreamValue d m rt src) = true →
  listed syncFieldOrder rt = true ∧ is_empty src = false ∧ scalar (getUpstreamValue d m rt src) = true.
Proof.
  intros Hd. unfold getUpstreamValue. destruct (obj_has d m) eqn:Em; [|by rewrite (obj_absent d m)].
  destruct (comparison_model d m Hd Em) as (fs & Hfs & _ & Hk & _). rewrite Hfs. cbn [prop members].
  destruct (obj_has fs rt) eqn:Er; [|by rewrite (obj_absent fs rt)].
  destruct (known_field fs rt Hk Er) as (Hl & o & ups & Ho & Hu & Hne & Hsc). rewrite Ho. cbn [prop]. rewrite Hu. cbn [prop]. intros H.
  destruct (obj_has ups src) eqn:Es; [|by rewrite (obj_absent ups src) in H]. split; [done|]. split; [destruct src; [congruence|done]|].
  apply get_member, list_elem_of_In in Es. apply (proj1 (forallb_forall _ _) Hsc) in Es. cbn [snd] in Es.
  by destruct (obj_get ups src).
Qed.

(** A row shows what the comparison has of its model. *)
Lemma row_types d r : comparison_ok d = true → r ∈ dataSource d → r_types r = obj_get d (r_model r).
Proof.
  intros Hd. unfold dataSource. rewrite list_elem_of_fmap. intros ([m v] & -> & Hin). cbn [r_types r_model fst snd].
  rewrite own_entries_perm in Hin. symmetry. apply obj_get_In; [by apply comparison_keys|done].
Qed.

Lemma rows_in lower kw f d r : r ∈ filteredDataSource lower kw f d → r ∈ dataSource d.
Proof. unfold filteredDataSource. case_match; [done|]. intros [Hin _]%list_elem_of_In%filter_In. by apply list_elem_of_In. Qed.

Lemma row_value_eq d r rt up : comparison_ok d = true → r ∈ dataSource d → row_value up r rt = getUpstreamValue d (r_model r) rt up.
Proof. intros Hd Hr. unfold row_value, getUpstreamValue. by rewrite (row_types d). Qed.

Lemma selectable_eq d r rt up : comparison_ok d = true → r ∈ dataSource d → selectable d up r rt = true →
  isSelectableUpstreamValue (getUpstreamValue d (r_model r) rt up) = true ∧ getPreferredSyncField d (r_model r) rt up = rt.
Proof.
  intros Hd Hr. unfold selectable. rewrite (row_value_eq d) by done. rewrite andb_true_iff, streq_true. tauto.
Qed.

(** Picking a value that is offered keeps the selection in order. *)
Lemma offered_ok d res r rt up : comparison_ok d = true → r ∈ dataSource d → selectable d up r rt = true → resolutions_ok d res →
  resolutions_ok d (selectValue d (r_model r) rt (row_value up r rt) up res).
Proof.
  intros Hd Hr Hs Hres. destruct (selectable_eq d r rt up) as [Hv Hp]; [done..|]. rewrite (row_value_eq d) by done.
  apply choose_ok; [done| |done..]. by eapply upstream_known.
Qed.

Lemma selectable_fields_In f d up rows r rt : (r, rt) ∈ selectable_fields f d up rows ↔
  r ∈ rows ∧ rt ∈ getOrderedRatioTypes f (r_types r) ∧ selectable d up r rt = true.
Proof.
  unfold selectable_fields. rewrite list_elem_of_In, in_concat. setoid_rewrite in_map_iff. split.
  - intros (l & (r' & <- & Hr') & Hin). apply in_map_iff in Hin as (rt' & [= -> ->] & Hin%filter_In).
    rewrite !list_elem_of_In. tauto.
  - rewrite !list_elem_of_In. intros (Hr & Hrt & Hs). eexists. split; [by exists r|]. apply in_map_iff. exists rt.
    split; [done|]. by apply filter_In.
Qed.

Lemma bulk_ok f d up checked rows res : comparison_ok d = true → (∀ r, r ∈ rows → r ∈ dataSource d) →
  resolutions_ok d res → resolutions_ok d (handleBulkSelect f d up checked rows res).
Proof.
  intros Hd Hrows Hres. unfold handleBulkSelect. destruct checked.
  - apply fold_left_inv; [done|]. intros acc [r rt] Hin Hacc. cbn [fst snd].
    apply selectable_fields_In in Hin as (Hr & _ & Hs). apply offered_ok; auto.
  - apply fold_left_inv; [by apply resolutions_copy|]. intros acc r _ Hacc. apply fold_left_inv; [done|].
    intros acc' rt _ Hacc'. case_match; [by apply delete_ok|done].
Qed.

(** *** Forgetting what was saved *)

Lemma forallb_delete (p : jsstr * jval → bool) o k : forallb p o = true → forallb p (obj_delete o k) = true.
Proof.
  unfold obj_delete. rewrite !forallb_forall. intros H e He%filter_In. apply H. tauto.
Qed.

Lemma unique_delete o k : unique_keys (JObj o) = true → unique_keys (JObj (obj_delete o k)) = true.
Proof.
  cbn [unique_keys]. rewrite !andb_true_iff, !bool_decide_eq_true. intros [H1 H2]. split; [by apply obj_delete_keys|by apply forallb_delete].
Qed.

Lemma unique_member o k : unique_keys (JObj o) = true → obj_has o k = true → unique_keys (obj_get o k) = true.
Proof.
  cbn [unique_keys]. rewrite andb_true_iff. intros [_ H] Hk%get_member%list_elem_of_In.
  by apply (proj1 (forallb_forall _ _) H) in Hk.
Qed.

Lemma unique_members o k : unique_keys (JObj o) = true → unique_keys (JObj (members (obj_get o k))) = true.
Proof.
  intros H. destruct (obj_has o k) eqn:E; [|by rewrite obj_absent]. pose proof (unique_member o k H E) as Hu.
  by destruct (obj_get o k).
Qed.

Lemma comparison_set d m f fs : comparison_ok d = true → unique_keys (JObj (f :: fs)) = true → fields_known (f :: fs) = true →
  comparison_ok (obj_set d m (JObj (f :: fs))) = true.
Proof.
  unfold comparison_ok. rewrite !andb_true_iff. intros [H1 H2] Hu Hf. split; [by apply unique_set|by apply forallb_obj_set].
Qed.

Lemma comparison_delete d m : comparison_ok d = true → comparison_ok (obj_delete d m) = true.
Proof. unfold comparison_ok. rewrite !andb_true_iff. intros [H1 H2]. split; [by apply unique_delete|by apply forallb_delete]. Qed.

Lemma unique_copy o : unique_keys (JObj o) = true → unique_keys (JObj (spread [] (JObj o))) = true.
Proof.
  intros H. unfold spread. apply fold_left_inv; [done|]. intros acc e He Hacc. apply unique_set; [done|].
  apply (unique_entry (JObj o) e.1); [done|]. by destruct e.
Qed.

Lemma comparison_copy d : comparison_ok d = true → comparison_ok (spread [] (JObj d)) = true.
Proof.
  unfold comparison_ok. rewrite !andb_true_iff. intros [H1 H2]. split; [by apply unique_copy|].
  unfold spread. apply fold_left_inv; [done|]. intros acc e He Hacc. apply forallb_obj_set; [done|]. cbn [entries] in He.
  rewrite own_entries_perm, list_elem_of_In in He. apply (proj1 (forallb_forall _ _) H2) in He. by destruct e.
Qed.

Lemma forget_ok m d rt : comparison_ok d = true → comparison_ok (forget_field m d rt) = true.
Proof.
  intros Hd. unfold forget_field. case_match; [|done]. destruct (own_keys _) as [|k ks] eqn:E; [by apply comparison_delete|].
  destruct (obj_has d m) eqn:Em; [|by rewrite (obj_absent d m Em) in *].
  destruct (comparison_model d m Hd Em) as (fs & Hfs & _ & Hk & _). rewrite Hfs in *. cbn [members] in *.
  destruct (obj_delete fs rt) as [|f fs'] eqn:Edel; [done|]. apply comparison_set; [done| |]; rewrite <- Edel.
  - apply unique_delete. unfold comparison_ok in Hd. apply andb_true_iff in Hd as [Hu _].
    pose proof (unique_members d m Hu) as H'. by rewrite Hfs in H'.
  - by apply forallb_delete.
Qed.

(** One field of one model goes; everything else stays. *)
Lemma forget_field_get m d rt m' k : comparison_ok d = true →
  prop (obj_get (forget_field m d rt) m') k = if streq m m' && streq rt k then JUndef else prop (obj_get d m') k.
Proof.
  intros Hd. unfold forget_field. destruct (obj_has d m) eqn:Em.
  - destruct (comparison_model d m Hd Em) as (fs & Hfs & _ & Hk & _). rewrite Hfs. cbn [truthy andb prop members].
    destruct (obj_has fs rt) eqn:Er.
    + destruct (known_field fs rt Hk Er) as (_ & o & ups & -> & _). cbn [truthy].
      destruct (own_keys (obj_delete fs rt)) as [|k0 ks] eqn:E; rewrite ?obj_get_delete, ?obj_get_set;
        destruct (streq m m') eqn:Emm; cbn [andb]; try done; apply streq_true in Emm as <-; rewrite Hfs; cbn [prop].
      * pose proof (own_keys_nil _ E k) as Hn. rewrite obj_has_delete in Hn. destruct (streq rt k); [done|]. by rewrite obj_absent.
      * by rewrite obj_get_delete.
    + rewrite (obj_absent fs rt) by done. cbn [truthy]. destruct (streq m m') eqn:Emm; [|done]. apply streq_true in Emm as <-.
      destruct (streq rt k) eqn:E; [|done]. apply streq_true in E as <-. rewrite Hfs. cbn [prop andb]. by rewrite obj_absent.
  - rewrite (obj_absent d m) by done. cbn [truthy andb]. destruct (streq m m') eqn:Emm; [|done]. apply streq_true in Emm as <-.
    rewrite (obj_absent d m) by done. by destruct (_ && _).
Qed.

Lemma forget_fields m ks d : comparison_ok d = true →
  comparison_ok (fold_left (forget_field m) ks d) = true ∧
  ∀ m' k, prop (obj_get (fold_left (forget_field m) ks d) m') k = if streq m m' && listed ks k then JUndef else prop (obj_get d m') k.
Proof.
  revert d. induction ks as [|x ks IH]; intros d Hd; cbn [fold_left].
  { split; [done|]. intros m' k. by rewrite andb_false_r. }
  destruct (IH (forget_field m d x)) as [H1 H2]; [by apply forget_ok|]. split; [done|]. intros m' k.
  rewrite H2, forget_field_get by done. cbn [listed existsb]. fold (listed ks k).
  destruct (streq m m'); cbn [andb]; [|done]. destruct (streq k x) eqn:E.
  - apply streq_true in E as ->. rewrite streq_refl. by destruct (listed ks x).
  - rewrite (proj2 (streq_false x k)) by (apply streq_false in E; congruence). done.
Qed.

Lemma entries_existsb o m (p : jval → bool) : NoDup (map fst o) →
  existsb (λ e, streq e.1 m && p e.2) (own_entries o) = obj_has o m && p (obj_get o m).
Proof.
  intros Hnd. apply eq_true_iff_eq. rewrite existsb_exists, andb_true_iff. split.
  - intros ([k v] & Hin & [Hk%streq_true Hp]%andb_true_iff). cbn [fst snd] in *. subst k.
    apply list_elem_of_In in Hin. rewrite own_entries_perm in Hin. rewrite (obj_get_In o m v) by done. split; [|done].
    apply obj_has_In, list_elem_of_fmap. by exists (m, v).
  - intros [Hh Hp]. exists (m, obj_get o m). cbn [fst snd]. rewrite streq_refl. split; [|done].
    apply list_elem_of_In. rewrite own_entries_perm. by apply get_member.
Qed.

(** Exactly the saved fields leave the comparison. *)
Lemma forget_synced_spec res d : comparison_ok d = true → NoDup (map fst res) →
  comparison_ok (forget_synced res d) = true ∧
  ∀ m k, prop (obj_get (forget_synced res d) m) k = if obj_has (picks res m) k then JUndef else prop (obj_get d m) k.
Proof.
  intros Hd Hres. unfold forget_synced.
  assert (H : ∀ l d, comparison_ok d = true →
    let d' := fold_left (λ acc e, fold_left (forget_field e.1) (own_keys (members e.2)) acc) l d in
    comparison_ok d' = true ∧
    ∀ m k, prop (obj_get d' m) k = if existsb (λ e, streq e.1 m && obj_has (members e.2) k) l then JUndef else prop (obj_get d m) k).
  { clear. induction l as [|e l IH]; intros d Hd; cbn [fold_left existsb]; [done|].
    destruct (forget_fields e.1 (own_keys (members e.2)) d Hd) as [H1 H2]. destruct (IH _ H1) as [H3 H4]. split; [done|].
    intros m k. rewrite H4, H2, own_keys_has. by destruct (_ && _), (existsb _ l). }
  destruct (H (own_entries res) (spread [] (JObj d)) (comparison_copy d Hd)) as [H1 H2]. split; [done|].
  intros m k. rewrite H2, copy_get by (by apply comparison_keys).
  rewrite (entries_existsb res m (λ v, obj_has (members v) k)) by done. unfold picks.
  destruct (obj_has res m) eqn:E; [done|]. by rewrite (obj_absent res m).
Qed.

(** ** The invariant *)

Record inv (s : sync) : Prop := Inv {
  inv_comparison : comparison_ok (differences s) = true;
  inv_resolutions : resolutions_ok (differences s) (resolutions s);
  inv_sync : syncLoading s = ratios_awaited s;
  inv_loading : loading s = channels_awaited s || bool_decide (is_Some (save_awaited s));
  inv_dialogs : confirmVisible s = true → modalVisible s = false ∧ ratios_awaited s = false ∧ channels_awaited s = false;
  inv_save : ∀ w, save_awaited s = Some w →
    s_resolutions w = resolutions s ∧ ratios_awaited s = false ∧ channels_awaited s = false ∧ modalVisible s = false
    ∧ confirmVisible s = s_confirmed w ∧ (s_confirmed w = true → confirmLoading s = true) }.

Lemma enabled_idle s : inv s → page_enabled s = true →
  save_awaited s = None ∧ channels_awaited s = false ∧ ratios_awaited s = false ∧ modalVisible s = false ∧ confirmVisible s = false.
Proof.
  intros H. unfold page_enabled. rewrite inv_loading, inv_sync by done. rewrite andb_true_iff, !negb_true_iff, !orb_false_iff.
  intros [[[[-> Hs] ->] _] [-> ->]]. split_and!; try done. apply bool_decide_eq_false, eq_None_not_Some in Hs. done.
Qed.

Lemma slice_In {A} (l : list A) a b x : x ∈ slice_list l a b → x ∈ l.
Proof. unfold slice_list. intros H. apply list_elem_of_lookup in H as (i & H). apply lookup_take_Some in H as [H _]. rewrite lookup_drop in H. by eapply list_elem_of_lookup_2. Qed.

(** A checkbox is shown for what can be picked. *)
Lemma choice_selectable d res r rt up text b c :
  renderUpstreamField d res r rt up = (Choice text b, c) → selectable d up r rt = true.
Proof.
  unfold renderUpstreamField, selectable, row_value. intros H.
  assert (E : prop (prop (js_or (prop (r_types r) rt) (JObj [])) (js "upstreams")) up = prop (prop (prop (r_types r) rt) (js "upstreams")) up).
  { clear H. unfold js_or. destruct (prop (r_types r) rt); try done; cbn [truthy prop]; by case_match. }
  rewrite E in H. clear E. destruct (is_nullish _) eqn:En; [done|]. destruct (strict_eq _ (JStr (js "same"))) eqn:Es; [done|].
  destruct (streq _ rt); [|done]. cbn [andb]. destruct (prop (prop (prop _ _) _) _); try done. cbn in *. by rewrite Es.
Qed.

Lemma rendered_In f d res r up rt c : assoc_get (renderUpstreamFields f d res r up) rt = Some c →
  c = renderUpstreamField d res r rt up ∧ rt ∈ getOrderedRatioTypes f (r_types r).
Proof.
  unfold renderUpstreamFields. intros H%assoc_get_In. apply list_elem_of_fmap in H as (rt' & [= <- ->] & Hin).
  apply list_elem_of_In, filter_In in Hin as [Hin _]. by apply list_elem_of_In in Hin.
Qed.

(** *** Every handler keeps it *)

Ltac state :=
  cbn [set_flags set_loading set_modal set_confirm_loading set_channels set_selected set_data set_resolutions set_view set_confirm
       set_awaited modalVisible loading syncLoading confirmLoading allChannels selectedChannelIds channelEndpoints differences
       resolutions hasSynced currentPage pageSize searchKeyword ratioTypeFilter confirmVisible conflictItems channels_awaited
       ratios_awaited save_awaited s_resolutions s_confirmed fst snd].
Tactic Notation "state" "in" hyp(H) :=
  cbn [set_flags set_loading set_modal set_confirm_loading set_channels set_selected set_data set_resolutions set_view set_confirm
       set_awaited modalVisible loading syncLoading confirmLoading allChannels selectedChannelIds channelEndpoints differences
       resolutions hasSynced currentPage pageSize searchKeyword ratioTypeFilter confirmVisible conflictItems channels_awaited
       ratios_awaited save_awaited s_resolutions s_confirmed fst snd] in H.

(** States that agree on what the invariant speaks of *)
Lemma inv_same s s' : inv s →
  differences s' = differences s → resolutions s' = resolutions s → syncLoading s' = syncLoading s → loading s' = loading s →
  confirmLoading s' = confirmLoading s → modalVisible s' = modalVisible s → confirmVisible s' = confirmVisible s →
  channels_awaited s' = channels_awaited s → ratios_awaited s' = ratios_awaited s → save_awaited s' = save_awaited s → inv s'.
Proof.
  intros [H1 H2 H3 H4 H5 H6] E1 E2 E3 E4 E5 E6 E7 E8 E9 E10. by split; rewrite ?E1, ?E2, ?E3, ?E4, ?E5, ?E6, ?E7, ?E8, ?E9, ?E10.
Qed.

(** A changed selection, while nothing is under way *)
Lemma inv_picks s res : inv s → page_enabled s = true → resolutions_ok (differences s) res → inv (set_resolutions res s).
Proof.
  intros H He Hres. destruct (enabled_idle s H He) as (Hs & _). destruct H as [H1 H2 H3 H4 H5 H6].
  split; state; try done. by rewrite Hs.
Qed.

Section Handlers.
Context (lower : jsstr → jsstr) (other : N → jsstr) (t : jsstr → jsstr).

Lemma inv_open s : inv s → page_enabled s = true → inv (openSelector s).
Proof.
  intros H He. destruct (enabled_idle s H He) as (Hs & Hc & Hr & Hm & Hv). destruct H as [H1 H2 H3 H4 H5 H6].
  unfold openSelector, fetchAllChannels. destruct (allChannels s); split; state; try done; by rewrite ?Hs, ?Hv.
Qed.

Lemma inv_modal s (b : bool) : inv s → (b = false ∨ modalVisible s = true) → inv (set_modal b s).
Proof.
  intros [H1 H2 H3 H4 H5 H6] Hb. split; state; try done.
  - intros Hc. destruct (H5 Hc) as (Hm & ? & ?). by destruct Hb as [->|?]; [|congruence].
  - intros w Hw. destruct (H6 w Hw) as (? & ? & ? & Hm & ? & ?). destruct Hb as [->|?]; [by split_and!|congruence].
Qed.

Lemma inv_on_channels r s : inv s → channels_awaited s = true → inv (on_channels t r s).1.
Proof.
  intros [H1 H2 H3 H4 H5 H6] Hc.
  assert (Hs : save_awaited s = None) by (destruct (save_awaited s) as [w|]; [|done]; destruct (H6 w eq_refl) as (_ & _ & ? & _); congruence).
  unfold on_channels. destruct r; split; state; try done; rewrite ?Hs; try done; intros Hv; destruct (H5 Hv) as (_ & _ & ?); congruence.
Qed.

Lemma inv_selection s : inv s → modalVisible s = true → inv (confirmChannelSelection t s).1.1.
Proof.
  intros [H1 H2 H3 H4 H5 H6] Hm.
  assert (Hs : save_awaited s = None) by (destruct (save_awaited s) as [w|]; [|done]; destruct (H6 w eq_refl) as (_ & _ & _ & ? & _); congruence).
  unfold confirmChannelSelection. destruct (chosen_channels s); [by split|]. split; state; try done; rewrite ?Hs; try done.
  intros Hv. destruct (H5 Hv) as (? & _). congruence.
Qed.

Lemma inv_on_ratios r s : inv s → ratios_awaited s = true →
  (∀ d l, r = Answered (d, l) → comparison_ok d = true) → inv (on_ratios t r s).1.
Proof.
  intros [H1 H2 H3 H4 H5 H6] Hr Hd.
  assert (Hs : save_awaited s = None) by (destruct (save_awaited s) as [w|]; [|done]; destruct (H6 w eq_refl) as (_ & ? & _); congruence).
  assert (Hv : confirmVisible s = false) by (destruct (confirmVisible s); [|done]; destruct (H5 eq_refl) as (_ & ? & _); congruence).
  rewrite Hs in H4. unfold on_ratios. destruct r as [[d l]|m|m]; split; state; rewrite ?Hv, ?Hs; try done.
  - by eapply Hd.
  - apply resolutions_nil.
Qed.

Lemma inv_toggle m rt up c s s' : inv s → page_enabled s = true → toggle lower m rt up c s = Some s' → inv s'.
Proof.
  intros H He. unfold toggle. destruct (List.find _ _) as [r|] eqn:Ef; [|done]. case_match; [|done].
  destruct (assoc_get _ rt) as [[[| |text b|] conf]|] eqn:Ea; try done. intros [= <-].
  apply find_some in Ef as [Hin%list_elem_of_In Hm%streq_true]. apply slice_In, rows_in in Hin.
  apply rendered_In in Ea as [Ec _]. symmetry in Ec. apply choice_selectable in Ec.
  pose proof (inv_comparison s H) as Hd. pose proof (inv_resolutions s H) as Hres.
  apply inv_picks; [done..|]. destruct c; [subst m; by apply offered_ok|by apply delete_ok, resolutions_copy].
Qed.

Lemma inv_bulk up c s s' : inv s → page_enabled s = true → bulk lower up c s = Some s' → inv s'.
Proof.
  intros H He. unfold bulk. case_match; [|done]. intros [= <-]. apply inv_picks; [done..|].
  apply bulk_ok; [apply H| |apply H]. intros r. apply rows_in.
Qed.

(** Nothing is under way, and the dialogs fit how the save is started. *)
Lemma inv_perform c cur s out : inv s → save_awaited s = None → ratios_awaited s = false → channels_awaited s = false →
  modalVisible s = false → confirmVisible s = c → (c = true → confirmLoading s = true) →
  performSync other t c cur s = Some out → inv out.1.1.
Proof.
  intros [H1 H2 H3 H4 H5 H6] Hs Hr Hc Hm Hv Hl. unfold performSync. case_match; [|done]. intros [= <-].
  split; state; try done.
  - by rewrite Hc.
  - intros w [= <-]. by rewrite Hr, Hc, Hm.
Qed.

Lemma inv_apply options s s' : inv s → page_enabled s = true → option_map (λ o, o.1.1) (applySync other t options s) = Some s' → inv s'.
Proof.
  intros H He. destruct (enabled_idle s H He) as (Hs & Hc & Hr & Hm & Hv). unfold applySync.
  destruct (read_options options) as [cur|]; [|done]. destruct (find_conflicts _ _ _ _) as [[|c cs]|]; [| |done].
  - destruct (performSync _ _ _ _ _) as [out|] eqn:E; [|done]. intros [= <-]. by eapply inv_perform; [..|exact E].
  - intros [= <-]. destruct H as [H1 H2 H3 H4 H5 H6]. split; state; try done. by rewrite Hs.
Qed.

Lemma inv_confirm options s : inv s → confirmVisible s = true → confirmLoading s = false → inv (confirmSync other t options s).1.1.
Proof.
  intros H Hv Hl. destruct (inv_dialogs s H Hv) as (Hm & Hr & Hc).
  assert (Hs : save_awaited s = None).
  { destruct (save_awaited s) as [w|] eqn:Ew; [|done]. destruct (inv_save s H w Ew) as (_ & _ & _ & _ & Hcv & Hcl).
    rewrite <- Hcv, Hl in Hcl. by specialize (Hcl Hv). }
  assert (Hset : ∀ b, inv (set_confirm_loading b s)).
  { intros b. destruct H as [H1 H2 H3 H4 H5 H6]. split; state; try done. by rewrite Hs. }
  unfold confirmSync. destruct (read_options options) as [cur|]; [|by apply Hset].
  destruct (performSync _ _ _ _ _) as [out|] eqn:E; [|by apply (Hset false)].
  by eapply inv_perform; [apply (Hset true)|..|exact E].
Qed.

Lemma inv_on_saved replies w s : inv s → save_awaited s = Some w → inv (on_saved t replies w s).1.
Proof.
  intros H Hw. destruct (inv_save s H w Hw) as (Hsr & Hr & Hc & Hm & Hcv & Hcl).
  destruct (forget_synced_spec (s_resolutions w) (differences s)) as [Hf _]; [apply H|rewrite Hsr; apply H|].
  destruct H as [H1 H2 H3 H4 H5 H6]. unfold on_saved.
  destruct replies as [rs|]; [destruct (forallb _ rs)|]; [destruct (s_confirmed w)|..]; split; state;
    rewrite ?Hc, ?Hr, ?Hm; try done; apply resolutions_nil.
Qed.

Lemma inv_cancel s : inv s → confirmVisible s = true → confirmLoading s = false → inv (set_confirm false (conflictItems s) s).
Proof.
  intros [H1 H2 H3 H4 H5 H6] Hv Hl. split; state; try done.
  intros w Hw. destruct (H6 w Hw) as (_ & _ & _ & _ & Hcv & Hcl). rewrite <- Hcv in Hcl. specialize (Hcl Hv). congruence.
Qed.

Lemma handle_inv e s s' : inv s → server_event e = true → handle lower other t e s = Some s' → inv s'.
Proof.
  intros H He. destruct e; cbn [handle]; try (case_match; [|done]).
  - intros [= <-]. by apply inv_open.
  - intros [= <-]. apply inv_modal; auto.
  - intros [= <-]. by eapply inv_same.
  - intros [= <-]. by eapply inv_same.
  - destruct (Selector.type_endpoint _ _ _); [|done]. intros [= <-]. by eapply inv_same.
  - intros [= <-]. by apply inv_on_channels.
  - intros [= <-]. by apply inv_selection.
  - intros [= <-]. apply inv_on_ratios; [done..|]. by intros d l ->.
  - by apply inv_toggle.
  - by apply inv_bulk.
  - intros [= <-]. by eapply inv_same.
  - intros [= <-]. by eapply inv_same.
  - intros [= <-]. by eapply inv_same.
  - intros [= <-]. by eapply inv_same.
  - bool_hyps. by apply inv_apply.
  - intros [= <-]. bool_hyps. by apply inv_confirm.
  - intros [= <-]. bool_hyps. by apply inv_cancel.
  - intros [= <-]. by apply inv_on_saved.
Qed.

Lemma reachable_inv s : reachable lower other t s → inv s.
Proof.
  induction 1 as [|e s s' _ IH He Hs]; [|by eapply handle_inv]. split; try done. apply resolutions_nil.
Qed.

(** *** The confirmation dialog *)

(** A save the dialog started is under way. *)
Definition confirmed_save (s : sync) : bool := match save_awaited s with Some w => s_confirmed w | None => false end.
Definition under_way (s : sync) : bool := channels_awaited s || ratios_awaited s || bool_decide (is_Some (save_awaited s)).

(** The options can be read when the dialog is confirmed. *)
Definition readable_confirm (e : event) : bool :=
  match e with Confirm options => bool_decide (is_Some (read_options options)) | _ => true end.

(** The states reached with options that can be read. *)
Inductive reached_readable : sync → Prop :=
| readable_initial : reached_readable initial_sync
| readable_event e s s' : reached_readable s → server_event e = true → readable_confirm e = true →
    handle lower other t e s = Some s' → reached_readable s'.

(** What the dialog and its loading mark depend on, unchanged. *)
Definition dialog_same (s s' : sync) : Prop :=
  confirmLoading s' = confirmLoading s ∧ confirmVisible s' = confirmVisible s ∧ save_awaited s' = save_awaited s.

(** Every other handler leaves them. *)
Lemma handle_dialog e s s' : handle lower other t e s = Some s' →
  match e with Apply _ | Confirm _ | CancelConfirm | SaveReply _ => True | _ => dialog_same s s' end.
Proof.
  destruct e as [| | | | |r| |r| | | | | | | | | |]; cbn [handle]; try done; try (case_match; [|done]); try (intros [= <-]; by repeat split).
  - intros [= <-]. unfold openSelector, fetchAllChannels. by destruct (allChannels s).
  - destruct (Selector.type_endpoint _ _ _); [|done]. intros [= <-]. by repeat split.
  - intros [= <-]. unfold on_channels. by destruct r.
  - intros [= <-]. unfold confirmChannelSelection. by destruct (chosen_channels s).
  - intros [= <-]. unfold on_ratios. by destruct r as [[]| |].
  - unfold toggle. repeat (case_match; try done). all: intros [= <-]; by repeat split.
  - unfold bulk. case_match; [|done]. intros [= <-]. by repeat split.
Qed.

Definition dialog_open (s : sync) : Prop := confirmLoading s = true → confirmVisible s = true.
Definition dialog_true (s : sync) : Prop := confirmLoading s = confirmed_save s.

Lemma performed c cur s out : performSync other t c cur s = Some out →
  confirmLoading out.1.1 = confirmLoading s ∧ confirmVisible out.1.1 = confirmVisible s ∧ confirmed_save out.1.1 = c.
Proof. unfold performSync. case_match; [|done]. intros [= <-]. by repeat split. Qed.

Lemma handle_dialogs e s s' : inv s → handle lower other t e s = Some s' → dialog_open s →
  dialog_open s' ∧ (readable_confirm e = true → dialog_true s → dialog_true s').
Proof.
  intros H Hh Ho. pose proof (handle_dialog e s s' Hh) as Hd. unfold dialog_open, dialog_true in *.
  destruct e as [| | | | |r| |r| | | | | | |options|options| |replies];
    try (destruct Hd as (E1 & E2 & E3); unfold confirmed_save; by rewrite E1, E2, E3). all: cbn [handle] in Hh; clear Hd.
  - destruct (_ && _) eqn:Ep in Hh; [|done]. apply andb_true_iff in Ep as [Ep _]. destruct (enabled_idle s H Ep) as (Hs & _ & _ & _ & Hv).
    assert (Hl : confirmLoading s = false) by (destruct (confirmLoading s); [by rewrite Ho in Hv|done]).
    destruct (applySync other t options s) as [out|] eqn:E; [|done]. injection Hh as <-. unfold applySync in E.
    destruct (read_options options); [|done]. destruct (find_conflicts _ _ _ _) as [[|c cs]|]; [| |done].
    + apply performed in E as (E1 & E2 & E3). rewrite E1, E2, E3. auto.
    + injection E as <-. state. unfold confirmed_save. state. by rewrite Hl, Hs.
  - destruct (_ && _) eqn:Ep in Hh; [|done]. injection Hh as <-. apply andb_true_iff in Ep as [Hv Hl%negb_true_iff].
    unfold confirmSync. cbn [readable_confirm]. destruct (read_options options) as [cur|]; [|by split; [state|]].
    destruct (performSync _ _ _ _ _) as [out|] eqn:E.
    + apply performed in E as (E1 & E2 & E3). rewrite E1, E2, E3. by split.
    + state. split; [done|]. unfold confirmed_save. state. by rewrite Hl.
  - destruct (_ && _) eqn:Ep in Hh; [|done]. injection Hh as <-. apply andb_true_iff in Ep as [Hv Hl%negb_true_iff].
    unfold confirmed_save. state. by rewrite Hl.
  - destruct (save_awaited s) as [w|] eqn:Ew; [|done]. injection Hh as <-. unfold confirmed_save. rewrite Ew.
    destruct (inv_save s H w Ew) as (_ & _ & _ & _ & Hcv & _).
    unfold on_saved. destruct replies as [rs|]; [destruct (forallb _ rs)|]; destruct (s_confirmed w) eqn:Ec; state; by rewrite ?Ec.
Qed.

Lemma reachable_dialog s : reachable lower other t s → dialog_open s.
Proof.
  induction 1 as [|e s s' Hr IH He Hs]; [done|]. by eapply handle_dialogs; [apply reachable_inv|exact Hs|].
Qed.

Lemma readable_reachable s : reached_readable s → reachable lower other t s.
Proof. induction 1 as [|e s s' _ IH He _ Hs]; [apply reach_initial|by eapply reach_event]. Qed.

Lemma readable_dialog s : reached_readable s → dialog_true s.
Proof.
  induction 1 as [|e s s' Hr IH He Hc Hs]; [done|]. apply readable_reachable in Hr.
  by eapply handle_dialogs; [apply reachable_inv| |apply reachable_dialog| |].
Qed.

(** C8. In every state of the page, under any order of clicks and answers
    (with comparisons of the shape the server sends): what is picked for a model
    never mixes a fixed price with ratios, has a billing mode with every billing
    expression and holds only values of the comparison (or the mode that goes
    with an expression); no model without a difference is listed; while a save
    is under way the selection is the one that is being saved; and the dialog's
    loading mark is set only while the dialog is open.  If moreover the options
    could be read whenever the dialog was confirmed, its mark is set exactly
    while a save it started is under way, and the controls of the page are
    blocked by the three marks exactly while some request is. *)
Theorem sync_page_invariant s :
  reachable lower other t s →
  inv s ∧ (confirmLoading s = true → confirmVisible s = true) ∧
  (reached_readable s → confirmLoading s = confirmed_save s ∧ loading s || syncLoading s || confirmLoading s = under_way s).
Proof.
  intros Hr. pose proof (reachable_inv s Hr) as H. split; [done|]. split; [by apply reachable_dialog|].
  intros Hd%readable_dialog. split; [done|]. rewrite Hd, inv_loading, inv_sync by done. unfold under_way, confirmed_save.
  destruct (save_awaited s) as [w|]; [|by rewrite bool_decide_eq_false_2, !orb_false_r by by intros []].
  rewrite bool_decide_eq_true_2 by by eexists. by rewrite !orb_true_r.
Qed.

(** Options that cannot be read when the dialog is confirmed leave it loading
    with no request under way, and with its buttons blocked. *)
Lemma unreadable_confirm_stuck options s s' : read_options options = None → save_awaited s = None →
  handle lower other t (Confirm options) s = Some s' →
  confirmLoading s' = true ∧ save_awaited s' = None ∧
  ∀ options', handle lower other t (Confirm options') s' = None ∧ handle lower other t CancelConfirm s' = None.
Proof.
  intros Hr Hs. cbn [handle]. destruct (_ && _); [|done]. intros [= <-]. unfold confirmSync. rewrite Hr. state.
  split; [done|]. split; [done|]. intros options'. by rewrite andb_false_r.
Qed.
End Handlers.

(** ** The options a save writes *)

Section Save.
Context (other : N → jsstr).
Local Abbreviation key := (optionKeyBySyncField other).

Lemma option_keys_eq : option_keys = map key syncFieldOrder.
Proof. by vm_compute. Qed.
Lemma ratio_options_eq : ratio_options = map key ratioSyncFields.
Proof. by vm_compute. Qed.
Lemma price_option_eq : js "ModelPrice" = key model_price.
Proof. by vm_compute. Qed.
Lemma mode_option_eq : js "billing_setting.billing_mode" = key billing_mode.
Proof. by vm_compute. Qed.
Lemma fields_distinct : bool_decide (NoDup syncFieldOrder) && bool_decide (NoDup option_keys) = true.
Proof. by vm_compute. Qed.
Lemma ratio_fields_listed rt : listed ratioSyncFields rt = true → listed syncFieldOrder rt = true.
Proof. rewrite !listed_true. unfold syncFieldOrder. rewrite elem_of_app. tauto. Qed.
Lemma price_listed : listed syncFieldOrder model_price = true.
Proof. by vm_compute. Qed.

Lemma key_In f : listed syncFieldOrder f = true → key f ∈ option_keys.
Proof. rewrite listed_true, option_keys_eq. intros H. by apply list_elem_of_fmap_2. Qed.

Lemma NoDup_map_inj {A B} (g : A → B) l x y : NoDup (map g l) → x ∈ l → y ∈ l → g x = g y → x = y.
Proof.
  intros Hnd (i & Hi)%list_elem_of_lookup (j & Hj)%list_elem_of_lookup E. change (map g) with (fmap (M:=list) g) in Hnd.
  enough (i = j) by congruence. apply (NoDup_lookup _ i j (g x) Hnd); rewrite list_lookup_fmap; [by rewrite Hi|by rewrite Hj, E].
Qed.

Lemma key_streq f f' : listed syncFieldOrder f = true → listed syncFieldOrder f' = true → streq (key f) (key f') = streq f f'.
Proof.
  rewrite !listed_true. intros Hf Hf'. pose proof fields_distinct as [_ Hnd%bool_decide_eq_true]%andb_true_iff.
  rewrite option_keys_eq in Hnd. apply eq_true_iff_eq. rewrite !streq_true. split; [by apply (NoDup_map_inj key syncFieldOrder)|by intros ->].
Qed.

(** The options stay objects throughout. *)
Definition options_shape (final : list (jsstr * jval)) : Prop := ∀ k, k ∈ option_keys → ∃ o, obj_get final k = JObj o.

Lemma shape_set final k o : options_shape final → options_shape (obj_set final k (JObj o)).
Proof. intros H k' Hk'. rewrite obj_get_set. destruct (streq k k'); [by exists o|auto]. Qed.

Lemma drop_get m final k k' m' : options_shape final → k ∈ option_keys →
  prop (obj_get (drop_model m final k) k') m' = if streq k k' && streq m m' then JUndef else prop (obj_get final k') m'.
Proof.
  intros Hs Hk. unfold drop_model. destruct (Hs k Hk) as [o Ho]. rewrite obj_get_set, Ho. cbn [members].
  destruct (streq k k') eqn:E; [|done]. apply streq_true in E as <-. cbn [prop andb]. by rewrite obj_get_delete, Ho.
Qed.

Lemma drops_get m ks final : options_shape final → (∀ k, k ∈ ks → k ∈ option_keys) →
  options_shape (fold_left (drop_model m) ks final) ∧
  ∀ k' m', prop (obj_get (fold_left (drop_model m) ks final) k') m' = if listed ks k' && streq m m' then JUndef else prop (obj_get final k') m'.
Proof.
  revert final. induction ks as [|k ks IH]; intros final Hs Hks; cbn [fold_left]; [done|].
  destruct (IH (drop_model m final k)) as [H1 H2]; [by apply shape_set|intros; apply Hks; by right|]. split; [done|].
  intros k' m'. rewrite H2, drop_get by (try done; apply Hks; by left). cbn [listed existsb]. fold (listed ks k').
  destruct (streq k' k) eqn:E.
  - apply streq_true in E as ->. rewrite streq_refl. by destruct (listed ks k), (streq m m').
  - rewrite (proj2 (streq_false k k')) by (apply streq_false in E; congruence). done.
Qed.

Lemma write_get m final f v : options_shape final → listed syncFieldOrder f = true →
  ∃ final', write_field other m final (f, v) = Some final' ∧ options_shape final' ∧
  ∀ k' m', prop (obj_get final' k') m' = if streq (key f) k' && streq m m' then sync_value f v else prop (obj_get final k') m'.
Proof.
  intros Hs Hf. unfold write_field. cbn [fst snd]. destruct (Hs (key f) (key_In f Hf)) as [o Ho]. rewrite Ho. eexists.
  split; [done|]. split; [by apply shape_set|]. intros k' m'. rewrite obj_get_set. destruct (streq (key f) k') eqn:E; [|done].
  apply streq_true in E as <-. cbn [prop andb]. by rewrite obj_get_set, Ho.
Qed.

Lemma writes_get m l final : options_shape final → (∀ f, obj_has l f = true → listed syncFieldOrder f = true) → NoDup (map fst l) →
  ∃ final', fold_opt (write_field other m) l final = Some final' ∧ options_shape final' ∧
  ∀ f m', listed syncFieldOrder f = true →
    prop (obj_get final' (key f)) m' = if obj_has l f && streq m m' then sync_value f (obj_get l f) else prop (obj_get final (key f)) m'.
Proof.
  revert final. induction l as [|[f v] l IH]; intros final Hs Hl Hnd; cbn [fold_opt map fst] in *; [by exists final|].
  apply NoDup_cons in Hnd as [Hni Hnd].
  destruct (write_get m final f v Hs) as (final1 & -> & Hs1 & H1); [apply Hl; cbn [obj_has]; by rewrite streq_refl|].
  destruct (IH final1 Hs1) as (final2 & -> & Hs2 & H2); [intros f' Hf'; apply Hl; cbn [obj_has]; by rewrite Hf', orb_true_r|done|].
  exists final2. split; [done|]. split; [done|]. intros f' m' Hf'.
  rewrite H2, H1, key_streq by (try done; apply Hl; cbn [obj_has]; by rewrite streq_refl). cbn [obj_has obj_get].
  destruct (streq f f') eqn:E; [|reflexivity]. apply streq_true in E as <-.
  assert (Hh : obj_has l f = false) by (destruct (obj_has l f) eqn:Eh; [by apply obj_has_In in Eh|done]). by rewrite Hh.
Qed.

(** The fields of a model that give way to what is picked *)
Definition replaced (r : list (jsstr * jval)) (f : jsstr) : bool :=
  match getBillingCategory f with
  | ratio => obj_has r model_price
  | price => existsb (obj_has r) ratioSyncFields
  | tiered => false
  end.

(** What is stored for a model and a field, given what was stored *)
Definition stored (r : list (jsstr * jval)) (f : jsstr) (old : jval) : jval :=
  if obj_has r f then sync_value f (obj_get r f) else if replaced r f then JUndef else old.

(** A test of a known field, decided field by field *)
Lemma each_field (p : jsstr → bool) f : forallb p syncFieldOrder = true → listed syncFieldOrder f = true → p f = true.
Proof. intros H Hf%listed_true%list_elem_of_In. by apply (proj1 (forallb_forall _ _) H). Qed.

Lemma listed_ratio f : listed syncFieldOrder f = true → listed ratio_options (key f) = bool_decide (getBillingCategory f = ratio).
Proof.
  intros Hf. apply eqb_prop.
  exact (each_field (λ f, eqb (listed ratio_options (key f)) (bool_decide (getBillingCategory f = ratio))) f ltac:(by vm_compute) Hf).
Qed.
Lemma listed_price f : listed syncFieldOrder f = true → streq (js "ModelPrice") (key f) = bool_decide (getBillingCategory f = price).
Proof.
  intros Hf. apply eqb_prop.
  exact (each_field (λ f, eqb (streq (js "ModelPrice") (key f)) (bool_decide (getBillingCategory f = price))) f ltac:(by vm_compute) Hf).
Qed.

Lemma has_ratio r : existsb (listed ratioSyncFields) (own_keys r) = existsb (obj_has r) ratioSyncFields.
Proof.
  apply eq_true_iff_eq. rewrite !existsb_exists. split; intros (x & H1 & H2); exists x.
  - rewrite <- own_keys_has, listed_true, list_elem_of_In. by apply listed_true, list_elem_of_In in H2.
  - rewrite listed_true, list_elem_of_In. rewrite <- own_keys_has, listed_true, list_elem_of_In in H2. done.
Qed.

Lemma model_saved final e : options_shape final → NoDup (map fst (members e.2)) →
  (∀ f, obj_has (members e.2) f = true → listed syncFieldOrder f = true) →
  ∃ final', sync_model other final e = Some final' ∧ options_shape final' ∧
  ∀ f m', listed syncFieldOrder f = true → prop (obj_get final' (key f)) m' =
    if streq e.1 m' then stored (members e.2) f (prop (obj_get final (key f)) m') else prop (obj_get final (key f)) m'.
Proof.
  intros Hs Hnd Hl. unfold sync_model. rewrite own_keys_has, has_ratio. set (r := members e.2) in *. cbv zeta.
  set (f1 := if obj_has r model_price then fold_left (drop_model e.1) ratio_options final else final).
  set (f2 := if existsb (obj_has r) ratioSyncFields then drop_model e.1 f1 (js "ModelPrice") else f1).
  assert (H1 : options_shape f1 ∧ ∀ f m', listed syncFieldOrder f = true → prop (obj_get f1 (key f)) m' =
    if obj_has r model_price && bool_decide (getBillingCategory f = ratio) && streq e.1 m' then JUndef else prop (obj_get final (key f)) m').
  { unfold f1. destruct (obj_has r model_price); [|done].
    destruct (drops_get e.1 ratio_options final Hs) as [Ha Hb]; [|split; [done|intros f m' Hf; by rewrite Hb, listed_ratio]].
    intros k Hk. unfold option_keys. apply elem_of_app. by left. }
  assert (H2 : options_shape f2 ∧ ∀ f m', listed syncFieldOrder f = true → prop (obj_get f2 (key f)) m' =
    if existsb (obj_has r) ratioSyncFields && bool_decide (getBillingCategory f = price) && streq e.1 m' then JUndef else prop (obj_get f1 (key f)) m').
  { unfold f2. destruct (existsb (obj_has r) ratioSyncFields); [|tauto]. split; [apply shape_set, H1|]. intros f m' Hf.
    rewrite drop_get, listed_price; [done..|apply H1|]. rewrite price_option_eq. apply key_In, price_listed. }
  destruct (writes_get e.1 (own_entries r) f2) as (final' & Hw & Hs' & H3); [apply H2| |by apply entries_NoDup|].
  { intros f. rewrite own_entries_has. apply Hl. }
  exists final'. split; [done|]. split; [done|]. intros f m' Hf.
  rewrite H3, own_entries_has, own_entries_get, (proj2 H2), (proj2 H1) by done. unfold stored, replaced.
  destruct (obj_has r f), (streq e.1 m'), (getBillingCategory f), (obj_has r model_price), (existsb (obj_has r) ratioSyncFields); done.
Qed.

(** The loop over the models touches each of them once. *)
Lemma models_saved l final : options_shape final → NoDup (map fst l) →
  (∀ m v, (m, v) ∈ l → NoDup (map fst (members v)) ∧ ∀ f, obj_has (members v) f = true → listed syncFieldOrder f = true) →
  ∃ final', fold_opt (sync_model other) l final = Some final' ∧ options_shape final' ∧
  ∀ f m, listed syncFieldOrder f = true →
    prop (obj_get final' (key f)) m = stored (picks l m) f (prop (obj_get final (key f)) m).
Proof.
  revert final. induction l as [|[m0 v] l IH]; intros final Hs Hnd Hl; cbn [fold_opt map fst] in *.
  { exists final. split; [done|]. split; [done|]. intros f m _. unfold stored, replaced, picks. cbn. by destruct (getBillingCategory f). }
  apply NoDup_cons in Hnd as [Hni Hnd]. destruct (Hl m0 v) as [Hv1 Hv2]; [by left|].
  destruct (model_saved final (m0, v) Hs Hv1 Hv2) as (final1 & -> & Hs1 & H1).
  destruct (IH final1 Hs1 Hnd) as (final2 & -> & Hs2 & H2); [intros m v' Hin; apply (Hl m v'); by right|].
  exists final2. split; [done|]. split; [done|]. intros f m Hf. rewrite H2, H1 by done. unfold picks. cbn [obj_get fst snd].
  destruct (streq m0 m) eqn:E; [|done]. apply streq_true in E as <-. rewrite (obj_get_absent l) by done.
  unfold stored at 1, replaced at 1. cbn. by destruct (getBillingCategory f).
Qed.

Lemma initial_shape cur : options_shape (map (λ k, (k, JObj (spread [] (obj_get cur k)))) option_keys) ∧
  ∀ k, k ∈ option_keys → obj_get (map (λ k, (k, JObj (spread [] (obj_get cur k)))) option_keys) k = JObj (spread [] (obj_get cur k)).
Proof.
  assert (H : ∀ l k, k ∈ l → obj_get (map (λ k, (k, JObj (spread [] (obj_get cur k)))) l) k = JObj (spread [] (obj_get cur k))).
  { induction l as [|x l IH]; intros k; [by intros ?%elem_of_nil|]. cbn [map obj_get]. intros [->|Hk]%elem_of_cons; [by rewrite streq_refl|].
    destruct (streq x k) eqn:E; [by apply streq_true in E as ->|auto]. }
  split; [|apply H]. intros k Hk. eexists. by apply H.
Qed.
End Save.

Lemma map_opt_In {A B} (f : A → option B) l k y : map_opt f l = Some k → y ∈ k → ∃ x, x ∈ l ∧ f x = Some y.
Proof.
  intros H%map_opt_Forall2 (i & Hi)%list_elem_of_lookup. destruct (Forall2_lookup_r _ _ _ _ _ H Hi) as (x & Hx & E).
  exists x. split; [by eapply list_elem_of_lookup_2|done].
Qed.

Lemma options_unique options cur k : read_options options = Some cur → unique_keys (obj_get cur k) = true.
Proof.
  intros H. destruct (obj_has cur k) eqn:E; [|by rewrite obj_absent]. apply get_member in E. unfold read_options in H.
  destruct (map_opt_In _ _ _ _ H E) as (k' & _ & Hk). destruct (parse _) as [v|] eqn:Ep; [|done]. injection Hk as _ <-.
  by eapply parse_unique.
Qed.

Lemma copied_get v m : unique_keys v = true → obj_get (spread [] v) m = obj_get (entries v) m.
Proof.
  intros H%unique_entries. unfold spread. rewrite fold_set_get by done. destruct (obj_has (entries v) m) eqn:E; [done|].
  by rewrite (obj_absent (entries v)).
Qed.

(** What is picked in a reachable state is in order for a save. *)
Lemma picks_known d res m f : comparison_ok d = true → resolutions_ok d res → obj_has (picks res m) f = true → listed syncFieldOrder f = true.
Proof.
  intros Hd Hres Hf. destruct (ok_source _ _ _ (picks_all_ok d res m Hres) f Hf) as [(up & _ & -> & Hv)|[-> _]]; [|by vm_compute].
  by eapply upstream_known.
Qed.

Lemma final_spec other d res cur : comparison_ok d = true → resolutions_ok d res → (∀ k, unique_keys (obj_get cur k) = true) →
  ∃ final, final_ratios other cur res = Some final ∧ options_shape final ∧
  ∀ f m, listed syncFieldOrder f = true → prop (obj_get final (optionKeyBySyncField other f)) m =
    stored (picks res m) f (obj_get (entries (obj_get cur (optionKeyBySyncField other f))) m).
Proof.
  intros Hd Hres Hu. destruct (initial_shape cur) as [Hs Hi]. pose proof (proj1 Hres) as Hk.
  destruct (models_saved other (own_entries res) _ Hs) as (final & Hf & Hsh & H); [by apply entries_NoDup| |].
  - intros m v Hin. rewrite own_entries_perm in Hin. apply (obj_get_In res m v Hk) in Hin.
    pose proof (picks_all_ok d res m Hres) as Hp. unfold picks in Hp. rewrite Hin in Hp. split; [apply Hp|].
    intros f Hf. apply (picks_known d res m f Hd Hres). unfold picks. by rewrite Hin.
  - exists final. split; [done|]. split; [done|]. intros f m Hl. rewrite H, Hi by (try done; by apply key_In). cbn [prop].
    unfold picks. rewrite own_entries_get by done. by rewrite copied_get.
Qed.

(** C9. A save of the selection never fails on the way to its requests, and the
    options it writes are exactly these, for every model and every field: a
    picked value, read as a number where the field is one; nothing for the ratios
    of a model that gets a fixed price and for the fixed price of one that gets a
    ratio; and otherwise what the option held before. *)
Theorem sync_saves_exactly lower other t s options cur c : reachable lower other t s → read_options options = Some cur →
  ∃ s' notes final, performSync other t c cur s = Some (s', notes, put_requests final) ∧
  ∀ f m, listed syncFieldOrder f = true → prop (obj_get final (optionKeyBySyncField other f)) m =
    stored (picks (resolutions s) m) f (obj_get (entries (obj_get cur (optionKeyBySyncField other f))) m).
Proof.
  intros Hs Hc. assert (H : inv s) by by eapply reachable_inv.
  destruct (final_spec other (differences s) (resolutions s) cur) as (final & Hf & _ & Hspec); [apply H..| |].
  - intros k. by eapply options_unique.
  - unfold performSync. rewrite Hf. by eexists _, _, final.
Qed.

(** *** Price or ratio *)

Lemma any_defined_spec cur m ks : options_shape cur → (∀ k, k ∈ ks → k ∈ option_keys) →
  any_defined cur m ks = Some (existsb (λ k, defined (prop (obj_get cur k) m)) ks).
Proof.
  intros Hs. induction ks as [|k ks IH]; intros Hk; cbn [any_defined existsb]; [done|].
  destruct (Hs k) as [o ->]; [apply Hk; by left|]. cbn [read_throw is_nullish read prop].
  destruct (defined (obj_get o m)); [done|]. apply IH. intros k' Hk'. apply Hk. by right.
Qed.

Lemma existsb_map {A B} (g : A → B) p l : existsb p (map g l) = existsb (λ x, p (g x)) l.
Proof. induction l as [|x l IH]; cbn; [done|]. by rewrite IH. Qed.
Lemma existsb_ext_in {A} (p q : A → bool) l : (∀ x, List.In x l → p x = q x) → existsb p l = existsb q l.
Proof. induction l as [|x l IH]; intros H; cbn; [done|]. rewrite (H x) by by left. f_equal. apply IH. intros y Hy. apply H. by right. Qed.

(** The category by the fields rather than by the options *)
Definition category_of (get : jsstr → jval) : option category :=
  if defined (get model_price) then Some price else if existsb (λ f, defined (get f)) ratioSyncFields then Some ratio else None.

Lemma local_category other cur m : options_shape cur →
  getLocalBillingCategory cur m = Some (category_of (λ f, prop (obj_get cur (optionKeyBySyncField other f)) m)).
Proof.
  intros Hs. unfold getLocalBillingCategory, category_of.
  assert (Hr : ∀ k, k ∈ ratio_options → k ∈ option_keys) by (intros k Hk; unfold option_keys; apply elem_of_app; by left).
  rewrite (any_defined_spec cur m ratio_options), (ratio_options_eq other) by done. rewrite any_defined_spec.
  - cbn [existsb]. rewrite (price_option_eq other), orb_false_r. rewrite existsb_map. by repeat case_match.
  - done.
  - intros k Hk%list_elem_of_singleton. subst k. rewrite (price_option_eq other). apply key_In, price_listed.
Qed.

Lemma sync_value_defined f v : listed numericSyncFields f = true → defined (sync_value f v) = true.
Proof. intros H. unfold sync_value. by rewrite H. Qed.
Lemma ratio_numeric f : f ∈ ratioSyncFields → listed numericSyncFields f = true.
Proof. intros H. apply listed_true. unfold numericSyncFields. apply elem_of_app. by left. Qed.
Lemma ratio_category f : f ∈ ratioSyncFields → getBillingCategory f = ratio.
Proof.
  intros H%list_elem_of_In. assert (E : forallb (λ f, bool_decide (getBillingCategory f = ratio)) ratioSyncFields = true) by by vm_compute.
  by apply (proj1 (forallb_forall _ _) E) in H as ?%bool_decide_eq_true.
Qed.

(** What a save makes of a model's category *)
Lemma category_after r (old : jsstr → jval) :
  category_of (λ f, stored r f (old f)) = match newCategory r with tiered => category_of old | c => Some c end.
Proof.
  unfold category_of, newCategory, stored at 1, replaced at 1.
  assert (Hp : getBillingCategory model_price = price) by by apply category_price. rewrite Hp.
  destruct (obj_has r model_price) eqn:Ep; [by rewrite sync_value_defined by by vm_compute|].
  assert (Hr : ∀ f, f ∈ ratioSyncFields → stored r f (old f) = if obj_has r f then sync_value f (obj_get r f) else old f).
  { intros f Hf. unfold stored, replaced. by rewrite (ratio_category f Hf), Ep. }
  destruct (existsb (obj_has r) ratioSyncFields) eqn:Er; cbn [defined].
  - apply existsb_exists in Er as (f & Hf & Hh). rewrite (proj2 (existsb_exists _ _)); [done|].
    exists f. split; [done|]. apply list_elem_of_In in Hf. rewrite Hr, Hh by done. by apply sync_value_defined, ratio_numeric.
  - assert (E : existsb (λ f, defined (stored r f (old f))) ratioSyncFields = existsb (λ f, defined (old f)) ratioSyncFields); [|by rewrite E].
    apply existsb_ext_in. intros f Hf. apply list_elem_of_In in Hf as Hf'. rewrite Hr by done.
    destruct (obj_has r f) eqn:Eh; [|done]. rewrite (proj2 (existsb_exists _ _)) in Er; [done|]. by exists f.
Qed.

(** The conflicts are those of the models that are picked for. *)
Lemma conflicts_In t d cur res : options_shape cur → NoDup (map fst res) →
  ∃ cs, find_conflicts t d cur res = Some cs ∧
  ∀ m, m ∈ map c_model cs ↔ obj_has res m = true ∧ ∃ c, getLocalBillingCategory cur m = Some (Some c) ∧ conflicting (Some c) (newCategory (picks res m)) = true.
Proof.
  intros Hs Hnd. unfold find_conflicts.
  set (one := λ e : jsstr * jval, default [] (model_conflict t d cur e)).
  assert (Hone : ∀ e, model_conflict t d cur e = Some (one e)).
  { intros e. unfold one, model_conflict. by rewrite (local_category (λ c, [c])) by done. }
  assert (Hm : ∀ l, map_opt (model_conflict t d cur) l = Some (map one l)).
  { intros l. rewrite <- (map_id l) at 1. by apply map_opt_map. }
  rewrite Hm. eexists. split; [done|]. intros m. rewrite list_elem_of_fmap. setoid_rewrite list_elem_of_In. setoid_rewrite in_concat.
  split.
  - intros (c & Hm' & l & ([k v] & <- & Hin)%in_map_iff & Hc). apply list_elem_of_In in Hin. rewrite own_entries_perm in Hin.
    pose proof (obj_get_In res k v Hnd Hin) as Hv. specialize (Hone (k, v)). unfold model_conflict in Hone. cbn [fst snd] in Hone.
    destruct (getLocalBillingCategory cur k) as [[lc|]|] eqn:El; [|apply (inj Some) in Hone; by rewrite <- Hone in Hc|done].
    apply (inj Some) in Hone. rewrite <- Hone in Hc. destruct (conflicting _ _) eqn:Ec; [|done]. destruct Hc as [<-|[]].
    cbn [describe_conflict c_model] in Hm'. subst k. split; [by apply obj_has_In, list_elem_of_fmap; exists (m, v)|].
    exists lc. unfold picks. by rewrite Hv.
  - intros (Hh & lc & El & Ec). specialize (Hone (m, obj_get res m)). unfold model_conflict in Hone. cbn [fst snd] in Hone.
    rewrite El in Hone. fold (picks res m) in Hone. rewrite Ec in Hone. apply (inj Some) in Hone.
    exists (describe_conflict t d cur m (picks res m) lc (newCategory (picks res m))). split; [done|].
    exists (one (m, obj_get res m)). split; [|rewrite <- Hone; by left]. apply in_map_iff. exists (m, obj_get res m). split; [done|].
    apply list_elem_of_In. rewrite own_entries_perm. by apply get_member.
Qed.

(** C12. The models the administrator has to confirm are exactly those that the
    save would move from a fixed price to ratios or back; without any the save
    starts at once, so no model changes sides unasked.  (The options hold objects.) *)
Theorem confirmation_exact lower other t s options cur :
  reachable lower other t s → read_options options = Some cur → options_shape cur →
  ∃ final cs, final_ratios other cur (resolutions s) = Some final ∧
  applySync other t options s = match cs with [] => performSync other t false cur s | _ => Some (set_confirm true cs s, [], []) end ∧
  ∀ m, m ∈ map c_model cs ↔
    ∃ c c', getLocalBillingCategory cur m = Some (Some c) ∧ getLocalBillingCategory final m = Some (Some c') ∧ c ≠ c'.
Proof.
  intros Hr Hc Hs. assert (H : inv s) by by eapply reachable_inv.
  destruct (final_spec other (differences s) (resolutions s) cur) as (final & Hf & Hsf & Hspec); [apply H..|intros k; by eapply options_unique|].
  destruct (conflicts_In t (differences s) cur (resolutions s) Hs) as (cs & Hcs & Hin); [apply H|].
  exists final, cs. split; [done|]. split; [unfold applySync; rewrite Hc, Hcs; by destruct cs|]. intros m. rewrite Hin. clear Hin Hcs.
  assert (Hold : ∀ f, listed syncFieldOrder f = true →
    obj_get (entries (obj_get cur (optionKeyBySyncField other f))) m = prop (obj_get cur (optionKeyBySyncField other f)) m).
  { intros f Hl. destruct (Hs (optionKeyBySyncField other f)) as [o Ho]; [by apply key_In|].
    pose proof (options_unique options cur (optionKeyBySyncField other f) Hc) as Hu. rewrite Ho in *. cbn [entries prop].
    apply own_entries_get. cbn [unique_keys] in Hu. apply andb_true_iff in Hu as [Hu%bool_decide_eq_true _]. done. }
  assert (Hafter : getLocalBillingCategory final m = Some (match newCategory (picks (resolutions s) m) with
    | tiered => category_of (λ f, prop (obj_get cur (optionKeyBySyncField other f)) m) | c => Some c end)).
  { rewrite (local_category other), <- category_after by done. f_equal. unfold category_of.
    rewrite Hspec, Hold by apply price_listed. case_match; [done|].
    erewrite existsb_ext_in; [done|]. intros f Hf'. cbn beta. apply list_elem_of_In, listed_true, ratio_fields_listed in Hf'.
    by rewrite Hspec, Hold. }
  rewrite Hafter, (local_category other cur) by done.
  assert (Hpick : obj_has (resolutions s) m = false → newCategory (picks (resolutions s) m) = tiered).
  { intros E. unfold picks. by rewrite obj_absent. }
  destruct (category_of _) as [c|]; [|split; [by intros (_ & ? & [=] & _)|by intros (? & ? & [=] & _)]]. unfold conflicting.
  destruct (obj_has (resolutions s) m) eqn:Em;
    [|rewrite Hpick by done; split; [by intros [? _]|by intros (? & ? & [= <-] & [= <-] & ?)]].
  destruct c, (newCategory (picks (resolutions s) m)); (split; [intros (_ & ? & [= <-] & E)|intros (? & ? & [= <-] & [= <-] & E)]); try done;
    try (by eexists _, _); (split; [done|by eexists]).
Qed.

(** ** A whole column *)

(** A field a checkbox is shown for *)
Definition offered (d : list (jsstr * jval)) (m src rt : jsstr) : Prop :=
  isSelectableUpstreamValue (getUpstreamValue d m rt src) = true ∧ getPreferredSyncField d m rt src = rt.

Lemma offered_alone d m src rt : offered d m src rt → rt = billing_expr ∨ isSelectableUpstreamValue (getUpstreamValue d m billing_expr src) = false.
Proof.
  intros [_ Hp]. unfold getPreferredSyncField in Hp. destruct (streq rt billing_expr) eqn:E; [by apply streq_true in E; left|].
  cbn [negb andb] in Hp. right. destruct (isSelectableUpstreamValue _); [|done]. by rewrite <- Hp, streq_refl in E.
Qed.

(** What picking [rt'] does to another field of the column *)
Lemma select_other d m src r0 rt rt' : is_empty src = false → offered d m src rt → offered d m src rt' → rt ≠ rt' →
  obj_get (select_fields d m rt' (getUpstreamValue d m rt' src) src r0) rt = if clears rt' rt then JUndef else obj_get r0 rt.
Proof.
  intros Hs Ho Ho' Hne. assert (Hc : obj_get (cleared rt' r0) rt = if clears rt' rt then JUndef else obj_get r0 rt).
  { destruct (clears rt' rt) eqn:E; [|by apply cleared_get]. apply obj_absent. by rewrite cleared_has, E, andb_false_r. }
  apply offered_alone in Ho as Ha. apply offered_alone in Ho' as Ha'. assert (Hn : streq rt' rt = false) by (apply streq_false; congruence).
  destruct (decide (getBillingCategory rt' = tiered)) as [Ht|Ht].
  - rewrite select_tiered by done. cbv zeta. apply category_tiered in Ht as [->| ->].
    + destruct Ha' as [Ha'|Ha']; [by apply (proj2 (streq_true _ _)) in Ha'; fields in Ha'|]. rewrite Ha'. fields.
      by repeat case_match; rewrite !obj_get_set, ?Hn.
    + destruct Ha as [->|Ha]; [by rewrite streq_refl in Hn|]. destruct Ho' as [Ho' _]. congruence.
  - rewrite select_plain by done. by rewrite obj_get_set, Hn.
Qed.

(** In the order of the fields no ratio comes after the fixed price. *)
Definition before_price (a b : jsstr) : Prop := ¬ (a = model_price ∧ getBillingCategory b = ratio).
#[local] Instance before_price_dec a b : Decision (before_price a b).
Proof. unfold before_price. apply _. Defined.

Lemma clears_cases rt' rt : clears rt' rt = true ↔
  (rt' = model_price ∧ getBillingCategory rt = ratio) ∨ (rt = model_price ∧ getBillingCategory rt' = ratio).
Proof.
  rewrite <- !category_price. unfold clears. rewrite !andb_true_iff, !negb_true_iff, !bool_decide_eq_false.
  destruct (getBillingCategory rt), (getBillingCategory rt'); naive_solver.
Qed.

(** A ratio that shares its row with a fixed price *)
Definition outdone (L : list jsstr) (rt : jsstr) : bool := bool_decide (getBillingCategory rt = ratio) && listed L model_price.

Lemma outdone_snoc L x rt : StronglySorted before_price (L ++ [x]) → rt ∈ L → rt ≠ x →
  outdone (L ++ [x]) rt = clears x rt || outdone L rt.
Proof.
  intros Hs Hin Hne. unfold outdone, listed. rewrite existsb_app. cbn [existsb]. rewrite orb_false_r. fold (listed L model_price).
  assert (Hb : before_price rt x) by (eapply StronglySorted_app_1_elem_of; [exact Hs|done|by apply list_elem_of_singleton]).
  destruct (clears x rt) eqn:E; cbn [orb].
  - apply clears_cases in E as [[-> ->]|E]; [|by destruct Hb]. rewrite streq_refl. by rewrite orb_true_r.
  - destruct (streq model_price x) eqn:Ex; [|by rewrite orb_false_r]. apply streq_true in Ex as <-.
    destruct (bool_decide (getBillingCategory rt = ratio)) eqn:Er; [|done]. apply bool_decide_eq_true in Er.
    rewrite (proj2 (clears_cases model_price rt)) in E; [done|by left].
Qed.

Section Row.
Context (d : list (jsstr * jval)) (up : jsstr) (Hd : comparison_ok d = true) (r : row) (Hr : r ∈ dataSource d).
Let m := r_model r.
Let pick acc (f : row * jsstr) := selectValue d (r_model f.1) f.2 (row_value up f.1 f.2) up acc.

(** The fields of a row, one after the other *)
Lemma row_selected L res : resolutions_ok d res → NoDup L → StronglySorted before_price L → (∀ rt, rt ∈ L → selectable d up r rt = true) →
  let res' := fold_left pick (map (λ rt, (r, rt)) L) res in
  resolutions_ok d res' ∧
  (∀ rt, rt ∈ L → obj_get (picks res' m) rt = if outdone L rt then JUndef else row_value up r rt) ∧
  (∀ m', m' ≠ m → picks res' m' = picks res m').
Proof.
  intros Hres. induction L as [|x L IH] using rev_ind; intros Hnd Hs HL res'.
  { split_and!; [done| |done]. by intros rt ?%elem_of_nil. }
  apply NoDup_app in Hnd as (HndL & Hx & _). assert (Hs' : StronglySorted before_price L) by by eapply StronglySorted_app_1_l.
  destruct (IH HndL Hs') as (Hok & Hin & Hout); [intros rt Hrt; apply HL, elem_of_app; by left|]. clear IH.
  set (res1 := fold_left pick (map (λ rt, (r, rt)) L) res) in *. assert (Hsel : selectable d up r x = true) by (apply HL, elem_of_app; right; by apply list_elem_of_singleton).
  destruct (selectable_eq d r x up Hd Hr Hsel) as [Hv Hp].
  assert (Hres' : res' = selectValue d m x (getUpstreamValue d m x up) up res1).
  { unfold res'. rewrite map_app, fold_left_app. unfold m. by rewrite <- row_value_eq. }
  rewrite Hres'. clear res' Hres'. fold m in Hv, Hp. assert (Hup : is_empty up = false) by by eapply upstream_known.
  split; [by apply choose_ok|]. split.
  - intros rt Hrt. rewrite choose_picks, streq_refl, (picks_copy_eq d) by done. destruct (decide (rt = x)) as [->|Hne].
    + rewrite select_chosen by done. unfold outdone. rewrite (row_value_eq d) by done. case_bool_decide as Hc; [|done].
      rewrite (proj2 (listed_false _ _)); [done|]. intros [Hl|Hl%list_elem_of_singleton]%elem_of_app.
      * assert (Hb : before_price model_price x) by (eapply StronglySorted_app_1_elem_of; [exact Hs|done|by apply list_elem_of_singleton]). by apply Hb.
      * rewrite <- Hl in Hc. by vm_compute in Hc.
    + apply elem_of_app in Hrt as [Hrt|Hrt%list_elem_of_singleton]; [|done]. rewrite outdone_snoc by done.
      assert (Hsel' : selectable d up r rt = true) by (apply HL, elem_of_app; by left).
      rewrite select_other by (try done; by apply selectable_eq). destruct (clears x rt); [done|]. cbn [orb].
      rewrite copy_get by apply (picks_all_ok d), Hok. by apply Hin.
  - intros m' Hm'. rewrite choose_picks by done. rewrite (proj2 (streq_false _ _)) by (intros E; by apply Hm'). by apply Hout.
Qed.
End Row.

Lemma filter_sorted {A} (R : A → A → Prop) (p : A → bool) l : StronglySorted R l → StronglySorted R (List.filter p l).
Proof.
  induction 1 as [|x l Hs IH Hf]; cbn [List.filter]; [constructor|]. destruct (p x); [|done]. constructor; [done|].
  rewrite Forall_forall in *. intros y [Hy _]%list_elem_of_In%filter_In. apply Hf. by apply list_elem_of_In.
Qed.
Lemma filter_NoDup {A} (p : A → bool) (l : list A) : NoDup l → NoDup (List.filter p l).
Proof.
  induction 1 as [|x l Hx Hnd IH]; cbn [List.filter]; [constructor|]. destruct (p x); [|done]. constructor; [|done].
  intros [H _]%list_elem_of_In%filter_In. by apply Hx, list_elem_of_In.
Qed.

Lemma order_sorted : StronglySorted before_price syncFieldOrder.
Proof.
  unfold syncFieldOrder, ratioSyncFields. cbn [app].
  repeat (constructor; [|rewrite Forall_forall; intros y Hy [E Hc];
    first [apply (proj2 (streq_true _ _)) in E; by vm_compute in E
          |repeat (apply elem_of_cons in Hy as [->|Hy]; [by vm_compute in Hc|]); by apply elem_of_nil in Hy]]). constructor.
Qed.

Lemma ordered_fields d r f : comparison_ok d = true → r ∈ dataSource d →
  StronglySorted before_price (getOrderedRatioTypes f (r_types r)) ∧ NoDup (getOrderedRatioTypes f (r_types r)).
Proof.
  intros Hd Hr. assert (Hm : obj_has d (r_model r) = true).
  { unfold dataSource in Hr. apply list_elem_of_fmap in Hr as ([m v] & -> & Hin). rewrite own_entries_perm in Hin.
    apply obj_has_In, list_elem_of_fmap. by exists (m, v). }
  destruct (comparison_model d _ Hd Hm) as (fs & Hfs & _ & Hk & _). rewrite (row_types d) by done. rewrite Hfs.
  unfold getOrderedRatioTypes. change (keys (js_or (JObj fs) (JObj []))) with (own_keys fs). cbv zeta.
  assert (E : List.filter (λ f, negb (listed syncFieldOrder f)) (own_keys fs) = []).
  { destruct (List.filter _ _) as [|x l] eqn:Ef; [done|]. exfalso.
    assert (Hx : List.In x (x :: l)) by by left. rewrite <- Ef in Hx. apply filter_In in Hx as [Hx Hn].
    apply list_elem_of_In, (proj2 (listed_true _ _)) in Hx. rewrite own_keys_has in Hx. destruct (known_field fs x Hk Hx) as [Hl _]. by rewrite Hl in Hn. }
  rewrite E, app_nil_r. pose proof fields_distinct as [Hnd%bool_decide_eq_true _]%andb_true_iff.
  case_match; split; repeat apply filter_sorted; repeat apply filter_NoDup; try done; apply order_sorted.
Qed.

Lemma rows_models lower kw f d : comparison_ok d = true → NoDup (map r_model (filteredDataSource lower kw f d)).
Proof.
  intros Hd. assert (H : NoDup (map r_model (dataSource d))).
  { unfold dataSource. rewrite map_map. cbn [r_model]. apply entries_NoDup. by apply comparison_keys. }
  unfold filteredDataSource. case_match; [done|]. by apply filter_map_NoDup.
Qed.

(** The fields of a row the head of the column selects *)
Definition row_fields (f : jsstr) (d : list (jsstr * jval)) (up : jsstr) (r : row) : list jsstr :=
  List.filter (selectable d up r) (getOrderedRatioTypes f (r_types r)).

Lemma column_selected f d up rows res : comparison_ok d = true → (∀ r, r ∈ rows → r ∈ dataSource d) → NoDup (map r_model rows) →
  resolutions_ok d res →
  let res' := handleBulkSelect f d up true rows res in
  (∀ r rt, r ∈ rows → rt ∈ row_fields f d up r →
    obj_get (picks res' (r_model r)) rt = if outdone (row_fields f d up r) rt then JUndef else row_value up r rt) ∧
  (∀ m, m ∉ map r_model rows → picks res' m = picks res m).
Proof.
  intros Hd. revert res. induction rows as [|r rows IH]; intros res Hrows Hnd Hres; cbn [handleBulkSelect map] in *.
  { split; [|done]. by intros r rt ?%elem_of_nil. }
  apply NoDup_cons in Hnd as [Hni Hnd]. unfold selectable_fields. cbn [map concat]. rewrite fold_left_app.
  destruct (ordered_fields d r f Hd) as [Hso Hno]; [apply Hrows; by left|].
  destruct (row_selected d up Hd r ltac:(apply Hrows; by left) (row_fields f d up r) res Hres) as (Hok & Hin & Hout).
  { by apply filter_NoDup. } { by apply filter_sorted. } { by intros rt [_ H]%list_elem_of_In%filter_In. }
  set (res1 := fold_left _ (map _ (List.filter _ _)) res). change (resolutions_ok d res1) in Hok.
  destruct (IH res1) as [H1 H2]; [intros; apply Hrows; by right|done|done|]. split.
  - intros r' rt [->|Hr']%elem_of_cons Hrt; [|by apply H1]. etrans; [apply (f_equal (λ p, obj_get p rt)); by apply H2|]. by apply Hin.
  - intros m [Hm Hm']%not_elem_of_cons. etrans; [by apply H2|]. by apply Hout.
Qed.

Lemma picked_value d res m rt : resolutions_ok d res → prop (obj_get res m) rt = obj_get (picks res m) rt.
Proof. intros H. unfold picks. rewrite (picks_get d) by done. by destruct (obj_has res m). Qed.

Lemma scalar_eq v : scalar v = true → strict_eq v v = true.
Proof.
  destruct v as [| | |x|s| |]; try done; cbn [scalar strict_eq]; [|intros _; apply streq_refl].
  unfold neq, SFeqb, SFcompare. destruct x as [[]|[]| |[] mm e]; try done; intros _; by rewrite ?Z.compare_refl, ?Pos.compare_refl.
Qed.

Lemma undefined_ne v : isSelectableUpstreamValue v = true → strict_eq JUndef v = false.
Proof. by destruct v. Qed.

Lemma filter_length_forallb {A} (p : A → bool) l : length (List.filter p l) = length l → forallb p l = true.
Proof.
  induction l as [|x l IH]; cbn [List.filter forallb length]; [done|]. destruct (p x); cbn [length]; [intros [= H]; auto|].
  pose proof (filter_length_le p l). lia.
Qed.

(** When every box of the column is ticked *)
Lemma all_selected_iff f d up rows res : selectable_fields f d up rows ≠ [] →
  allSelected (channelStats f d up rows res) = true ↔
  ∀ r rt, (r, rt) ∈ selectable_fields f d up rows → strict_eq (prop (obj_get res (r_model r)) rt) (row_value up r rt) = true.
Proof.
  intros Hne. unfold allSelected, channelStats. cbn [selectableCount selectedCount]. set (F := selectable_fields f d up rows) in *.
  rewrite andb_true_iff, Nat.ltb_lt, Nat.eqb_eq. split.
  - intros [_ H] r rt Hin. pose proof (filter_length_forallb _ _ H) as Hall.
    apply list_elem_of_In in Hin. by apply (proj1 (forallb_forall _ _) Hall) in Hin.
  - intros H. split; [destruct F; [done|cbn; lia]|]. f_equal. apply filter_all, forallb_forall. intros [r rt] Hin.
    apply list_elem_of_In in Hin. by apply H.
Qed.

Lemma row_fields_In f d up rows r rt : (r, rt) ∈ selectable_fields f d up rows ↔ r ∈ rows ∧ rt ∈ row_fields f d up r.
Proof.
  rewrite selectable_fields_In. unfold row_fields. rewrite (list_elem_of_In (List.filter _ _)), filter_In, <- list_elem_of_In. tauto.
Qed.

(** Ticking the head of a column picks every value the column offers, but
    for the ratios of a model whose fixed price the column offers too; the head
    is then shown as ticked exactly if there is no such model. *)
Theorem column_head_selects lower other t up s s' : reachable lower other t s → bulk lower up true s = Some s' →
  let fields := selectable_fields (ratioTypeFilter s) (differences s) up (rows lower s) in
  let mixed r rt := (r, model_price) ∈ fields ∧ getBillingCategory rt = ratio in
  (∀ r rt, (r, rt) ∈ fields →
    (¬ mixed r rt → prop (obj_get (resolutions s') (r_model r)) rt = row_value up r rt) ∧
    (mixed r rt → prop (obj_get (resolutions s') (r_model r)) rt = JUndef)) ∧
  (allSelected (channelStats (ratioTypeFilter s) (differences s) up (rows lower s) (resolutions s')) = true ↔
    ∀ r rt, (r, rt) ∈ fields → ¬ mixed r rt).
Proof.
  intros Hs Hb fields mixed. assert (H : inv s) by by eapply reachable_inv. destruct H as [Hd Hres _ _ _ _].
  unfold bulk in Hb. case_match eqn:Eg; [|done]. apply (inj Some) in Hb. subst s'.
  set (res := resolutions (set_resolutions _ s)). assert (Hok : resolutions_ok (differences s) res)
    by (apply bulk_ok; [done|intros r; apply rows_in|done]).
  destruct (column_selected (ratioTypeFilter s) (differences s) up (rows lower s) (resolutions s)) as [Hsel _];
    [done|intros r; apply rows_in|by apply rows_models|done|].
  change (handleBulkSelect _ _ _ _ _ _) with res in Hsel. clearbody res.
  assert (Hval : ∀ r rt, (r, rt) ∈ fields →
    (¬ mixed r rt → prop (obj_get res (r_model r)) rt = row_value up r rt) ∧ (mixed r rt → prop (obj_get res (r_model r)) rt = JUndef)).
  { intros r rt [Hr Hrt]%row_fields_In. rewrite (picked_value (differences s)), (Hsel r rt Hr Hrt) by done.
    assert (Hmix : outdone (row_fields (ratioTypeFilter s) (differences s) up r) rt = true ↔ mixed r rt).
    { unfold outdone, mixed, fields. rewrite andb_true_iff, bool_decide_eq_true, listed_true, row_fields_In. tauto. }
    destruct (outdone _ rt); [split; [intros []; by apply Hmix|done]|split; [done|]]. by intros ?%Hmix. }
  split; [exact Hval|]. rewrite all_selected_iff; [|intros E; unfold channelStats in Eg; cbn [selectableCount] in Eg; by rewrite E, andb_false_r in Eg].
  split; intros Hall r rt Hin; specialize (Hall r rt Hin); destruct (Hval r rt Hin) as [H1 H2];
    apply selectable_fields_In in Hin as (Hr & _ & Hsl); apply rows_in in Hr; destruct (selectable_eq _ _ _ _ Hd Hr Hsl) as [Hv _];
    rewrite <- (row_value_eq (differences s)) in Hv by done.
  - intros Hm. rewrite H2, undefined_ne in Hall by done. done.
  - rewrite H1 by done. apply scalar_eq. rewrite (row_value_eq (differences s)) in * by done. by eapply upstream_known.
Qed.

(** Unselecting only ever takes away. *)
Lemma row_cleared d up r l res : resolutions_ok d res →
  let res' := fold_left (λ acc rt, if defined (row_value up r rt) then deleteResolutionField acc (r_model r) rt else acc) l res in
  resolutions_ok d res' ∧ (∀ m k, obj_has (picks res m) k = false → obj_has (picks res' m) k = false) ∧
  (∀ rt, rt ∈ l → defined (row_value up r rt) = true → obj_has (picks res' (r_model r)) rt = false).
Proof.
  revert res. induction l as [|x l IH]; intros res Hres; cbn [fold_left]; [split_and!; [done..|by intros rt ?%elem_of_nil]|].
  assert (Hok : resolutions_ok d (if defined (row_value up r x) then deleteResolutionField res (r_model r) x else res))
    by (case_match; [by apply delete_ok|done]).
  destruct (IH _ Hok) as (H1 & H2 & H3). split; [done|]. split.
  - intros m k Hk. apply H2. case_match; [|done]. by rewrite (delete_picks d), Hk by done.
  - intros rt [->|Hrt]%elem_of_cons Hdef; [|by apply H3]. apply H2. rewrite Hdef, (delete_picks d), streq_refl by done.
    unfold unselects. by rewrite streq_refl, andb_false_r.
Qed.

Lemma column_cleared f d up rows res : resolutions_ok d res →
  let res' := handleBulkSelect f d up false rows res in
  ∀ r rt, r ∈ rows → rt ∈ getOrderedRatioTypes f (r_types r) → defined (row_value up r rt) = true → obj_has (picks res' (r_model r)) rt = false.
Proof.
  intros Hres. unfold handleBulkSelect. apply resolutions_copy in Hres. generalize dependent (spread [] (JObj res)). clear res.
  assert (Hgen : ∀ rows res, resolutions_ok d res →
    let res' := fold_left (λ acc r, fold_left (λ acc rt, if defined (row_value up r rt) then deleteResolutionField acc (r_model r) rt else acc)
                  (getOrderedRatioTypes f (r_types r)) acc) rows res in
    (∀ m k, obj_has (picks res m) k = false → obj_has (picks res' m) k = false) ∧
    ∀ r rt, r ∈ rows → rt ∈ getOrderedRatioTypes f (r_types r) → defined (row_value up r rt) = true → obj_has (picks res' (r_model r)) rt = false).
  { clear rows. induction rows as [|x rows IH]; intros res Hres; cbn [fold_left]; [split; [done|by intros r rt ?%elem_of_nil]|].
    destruct (row_cleared d up x (getOrderedRatioTypes f (r_types x)) res Hres) as (H1 & H2 & H3). destruct (IH _ H1) as [H4 H5].
    split; [auto|]. intros r rt [->|Hr]%elem_of_cons Hrt Hdef; [by apply H4, H3|by apply H5]. }
  intros res Hres. by apply Hgen.
Qed.

(** Clearing the head of a column leaves no value of the column picked. *)
Theorem column_head_clears lower other t up s s' : reachable lower other t s → bulk lower up false s = Some s' →
  selectedCount (channelStats (ratioTypeFilter s) (differences s) up (rows lower s) (resolutions s')) = 0.
Proof.
  intros Hs Hb. assert (H : inv s) by by eapply reachable_inv. destruct H as [Hd Hres _ _ _ _].
  unfold bulk in Hb. case_match; [|done]. apply (inj Some) in Hb. subst s'. unfold channelStats. cbn [selectedCount].
  apply length_zero_iff_nil. destruct (List.filter _ _) as [|[r rt] l] eqn:E; [done|exfalso].
  assert (Hin : List.In (r, rt) ((r, rt) :: l)) by by left. rewrite <- E in Hin. clear E l. apply filter_In in Hin as [Hin Heq]. cbn [fst snd] in Heq.
  apply list_elem_of_In, selectable_fields_In in Hin as (Hr & Hrt & Hsl). unfold selectable in Hsl. apply andb_true_iff in Hsl as [_ Hsl].
  assert (Hok : resolutions_ok (differences s) (handleBulkSelect (ratioTypeFilter s) (differences s) up false (rows lower s) (resolutions s)))
    by (apply bulk_ok; [done|intros x; apply rows_in|done]).
  change (resolutions (set_resolutions ?x s)) with x in Heq.
  rewrite (picked_value (differences s)), obj_absent, undefined_ne in Heq; [done|done| |done].
  eapply column_cleared; [done..|]. by destruct (row_value up r rt).
Qed.

(** A column with a model that has both is never shown as selected, so that its
    head can never be cleared. *)
Theorem mixed_column_never_ticked lower other t up s r rt : reachable lower other t s →
  let fields := selectable_fields (ratioTypeFilter s) (differences s) up (rows lower s) in
  (r, model_price) ∈ fields → (r, rt) ∈ fields → getBillingCategory rt = ratio →
  allSelected (channelStats (ratioTypeFilter s) (differences s) up (rows lower s) (resolutions s)) = false.
Proof.
  intros Hs fields Hp Hr Hc. assert (H : inv s) by by eapply reachable_inv. destruct H as [Hd Hres _ _ _ _].
  apply not_true_is_false. rewrite all_selected_iff by (intros E; unfold fields in Hp; by rewrite E in Hp; apply elem_of_nil in Hp).
  intros Hall. assert (Hhas : ∀ k, (r, k) ∈ fields → obj_has (picks (resolutions s) (r_model r)) k = true).
  { intros k Hk. apply Hall in Hk as Heq. rewrite (picked_value (differences s)) in Heq by done. apply has_defined.
    destruct (obj_get _ k); try done. apply selectable_fields_In in Hk as (_ & _ & [_ Hsl]%andb_true_iff). by rewrite undefined_ne in Heq. }
  pose proof (ok_exclusive _ _ _ (picks_all_ok (differences s) _ (r_model r) Hres) rt (Hhas rt Hr) Hc) as Hx. by rewrite Hhas in Hx.
Qed.

(** ** After the save *)

(** A save whose requests all succeed clears the selection and takes exactly
    the saved fields out of the comparison; one that fails keeps both, so that it
    can be repeated.  Either way the page can be used again. *)
Theorem save_settles lower other t s w replies : reachable lower other t s → save_awaited s = Some w →
  let s' := (on_saved t replies w s).1 in
  loading s' = false ∧ syncLoading s' = false ∧ save_awaited s' = None ∧
  match replies with
  | Some rs =>
    if forallb (λ b, b) rs
    then resolutions s' = [] ∧ confirmVisible s' = false ∧
         ∀ m f, prop (obj_get (differences s') m) f =
           if obj_has (picks (resolutions s) m) f then JUndef else prop (obj_get (differences s) m) f
    else resolutions s' = resolutions s ∧ differences s' = differences s
  | None => resolutions s' = resolutions s ∧ differences s' = differences s
  end.
Proof.
  intros Hs Hw. assert (H : inv s) by by eapply reachable_inv. destruct (inv_save s H w Hw) as (Hsr & Hr & Hc & Hm & Hcv & Hcl).
  destruct (forget_synced_spec (resolutions s) (differences s)) as [_ Hf]; [apply H..|]. unfold on_saved.
  destruct replies as [rs|]; [destruct (forallb _ rs)|]; state; rewrite ?Hr; try done.
  destruct (s_confirmed w) eqn:Ew; state; rewrite ?Hr, ?Hcv, Hsr; done.
Qed.

(** A price or ratio taken over leaves the billing mode alone: a model that is
    billed by an expression stays so, whatever price is written for it. *)
Theorem price_leaves_mode lower other t s options cur final m : reachable lower other t s → read_options options = Some cur →
  final_ratios other cur (resolutions s) = Some final → obj_has (picks (resolutions s) m) billing_mode = false →
  prop (obj_get final (js "billing_setting.billing_mode")) m = obj_get (entries (obj_get cur (js "billing_setting.billing_mode"))) m.
Proof.
  intros Hs Hc Hf Hm. assert (H : inv s) by by eapply reachable_inv.
  destruct (final_spec other (differences s) (resolutions s) cur) as (final' & Hf' & _ & Hspec); [apply H..|intros k; by eapply options_unique|].
  rewrite Hf in Hf'. injection Hf' as <-. specialize (Hspec billing_mode m ltac:(by vm_compute)).
  rewrite <- mode_option_eq in Hspec. rewrite Hspec. clear Hspec.
  unfold stored, replaced. by rewrite Hm, category_mode.
Qed.

(** ** Channels *)

Lemma merge_one merged c id : endpoint_of (merge_endpoint merged c) id =
  if (ch_id c =? id)%Z && is_empty (endpoint_of merged id) then endpoint_of (merge_endpoint [] c) id else endpoint_of merged id.
Proof.
  unfold merge_endpoint. change (endpoint_of [] (ch_id c)) with ([] : jsstr). cbn [is_empty].
  destruct (Z.eqb_spec (ch_id c) id) as [<-|Hne]; cbn [andb].
  - destruct (is_empty (endpoint_of merged (ch_id c))); [|done]. unfold endpoint_of. rewrite !assoc_get_set. by rewrite !decide_True by done.
  - destruct (is_empty (endpoint_of merged (ch_id c))); [|done]. unfold endpoint_of. rewrite assoc_get_set. by rewrite decide_False by done.
Qed.

Lemma preset_nonempty c : is_empty (endpoint_of (merge_endpoint [] c) (ch_id c)) = false.
Proof.
  unfold merge_endpoint, endpoint_of. cbn [assoc_get default is_empty]. rewrite assoc_get_set, decide_True by done. cbn [default].
  repeat case_match; by vm_compute.
Qed.

(** Loading the channels keeps the endpoints the administrator has set, and gives
    one to every channel without. *)
Theorem endpoints_merged channels prev :
  (∀ id, is_empty (endpoint_of prev id) = false → endpoint_of (merge_endpoints channels prev) id = endpoint_of prev id) ∧
  (∀ c, c ∈ channels → is_empty (endpoint_of (merge_endpoints channels prev) (ch_id c)) = false).
Proof.
  unfold merge_endpoints. revert prev. induction channels as [|c cs IH]; intros prev; cbn [fold_left]; [split; [done|by intros c ?%elem_of_nil]|].
  destruct (IH (merge_endpoint prev c)) as [H1 H2]. split.
  - intros id Hid. rewrite H1; rewrite merge_one, Hid, andb_false_r; done.
  - intros c' [->|Hc]%elem_of_cons; [|by apply H2].
    assert (Hne : is_empty (endpoint_of (merge_endpoint prev c) (ch_id c)) = false).
    { rewrite merge_one, Z.eqb_refl. cbn [andb]. destruct (is_empty (endpoint_of prev (ch_id c))) eqn:E; [apply preset_nonempty|done]. }
    by rewrite H1.
Qed.

(** An endpoint that begins with one of the known ones cannot be typed: once the
    text is the known one, the text box is gone. *)
Theorem typed_endpoint_stuck text text' id eps eps' : Selector.getEndpointType text ≠ Selector.custom →
  Selector.type_endpoint text id eps = Some eps' → Selector.type_endpoint text' id eps' = None.
Proof.
  intros Ht. unfold Selector.type_endpoint at 1. case_match; [|done]. intros [= <-]. unfold Selector.type_endpoint, endpoint_of.
  rewrite assoc_get_set, decide_True by done. cbn [default]. by rewrite (bool_decide_eq_false_2 _ Ht).
Qed.

(** The search keeps the page: matches that do not reach it are not shown. *)
Theorem search_keeps_page lower channels text s : (0 < Selector.sel_size s)%Z → (1 ≤ Selector.sel_page s)%Z →
  let s' := Selector.setSearchText text s in
  (Z.of_nat (length (Selector.filteredData lower channels s')) ≤ (Selector.sel_page s - 1) * Selector.sel_size s)%Z →
  Selector.paginatedData lower channels s' = [].
Proof.
  intros Hsz Hpg s' Hlen. unfold Selector.paginatedData. cbn [Selector.sel_page Selector.sel_size s' Selector.setSearchText].
  unfold slice_list. rewrite drop_ge; [by rewrite take_nil|]. unfold slice_pos.
  destruct (Z.ltb_spec ((Selector.sel_page s - 1) * Selector.sel_size s) 0); [nia|]. fold s'. lia.
Qed.

(** ** Concrete runs *)

Definition run (es : list event) (s : sync) : option sync := fold_opt (λ s e, handle (λ x, x) (λ c, [c]) (λ x, x) e s) es s.

Lemma run_reachable es s s' : reachable (λ x, x) (λ c, [c]) (λ x, x) s → forallb server_event es = true → run es s = Some s' →
  reachable (λ x, x) (λ c, [c]) (λ x, x) s'.
Proof.
  revert s. induction es as [|e es IH]; intros s Hs He; cbn [run fold_opt]; [by intros [= <-]|].
  cbn [forallb] in He. apply andb_true_iff in He as [He Hes]. destruct (handle _ _ _ e s) as [s1|] eqn:E; [|done].
  apply IH; [by eapply reach_event|done].
Qed.

(** Two channels: one offers a fixed price and a ratio for [m1] and an
    expression for [m2], the other a ratio for [m1]. *)
Definition sample_differences : list (jsstr * jval) := members (default JNull (parse (jsq
  "{'m1':{'model_ratio':{'current':null,'upstreams':{'A':2,'B':3},'confidence':{'A':true,'B':true}},
          'model_price':{'current':1,'upstreams':{'A':0.5,'B':'same'},'confidence':{'A':true,'B':true}}},
    'm2':{'billing_expr':{'current':null,'upstreams':{'A':'tier(1)','B':null},'confidence':{'A':true,'B':true}}}}"))).
Definition sample_channels : list channel :=
  [Channel 1 (js "A") (js "https://a") 1 1; Channel 2 (js "B") (js "https://b") 1 20].
Definition sample_fetch : list event :=
  [OpenSelector; ChannelsReply (Answered sample_channels); SelectChannels [1%Z; 2%Z]; ConfirmSelection;
   RatiosReply (Answered (sample_differences, []))].
Definition sample_options : list (jsstr * jsstr) :=
  [(js "ModelPrice", jsq "{'m1':1}"); (js "billing_setting.billing_mode", jsq "{'m1':'tiered_expr'}")].

Definition after (es : list event) : sync := default initial_sync (run es initial_sync).
Lemma after_reachable es : forallb server_event es && bool_decide (is_Some (run es initial_sync)) = true →
  reachable (λ x, x) (λ c, [c]) (λ x, x) (after es).
Proof.
  intros [He Hs%bool_decide_eq_true]%andb_true_iff. unfold after. destruct (run es initial_sync) as [s|] eqn:E; [|by destruct Hs].
  by eapply run_reachable; [apply reach_initial|exact He|].
Qed.

Definition sample_picked : sync := after (sample_fetch ++ [Toggle (js "m1") (js "model_ratio") (js "B") true; Toggle (js "m2") billing_expr (js "A") true]).

Lemma after_readable es : forallb server_event es && forallb readable_confirm es && bool_decide (is_Some (run es initial_sync)) = true →
  reached_readable (λ x, x) (λ c, [c]) (λ x, x) (after es).
Proof.
  intros [[He Hc]%andb_true_iff Hs%bool_decide_eq_true]%andb_true_iff. unfold after.
  assert (H : ∀ s s', reached_readable (λ x, x) (λ c, [c]) (λ x, x) s → run es s = Some s' → reached_readable (λ x, x) (λ c, [c]) (λ x, x) s').
  { clear Hs. revert He Hc. induction es as [|e es IH]; intros He Hc s s' Hr; cbn [run fold_opt]; [by intros [= <-]|].
    cbn [forallb] in He, Hc. apply andb_true_iff in He as [He1 He2], Hc as [Hc1 Hc2].
    destruct (handle _ _ _ e s) as [s1|] eqn:E; [|done]. apply (IH He2 Hc2). by eapply readable_event. }
  destruct (run es initial_sync) as [s|] eqn:E; [|by destruct Hs]. by apply (H initial_sync); [apply readable_initial|].
Qed.

(** A save that was confirmed is under way. *)
Definition sample_confirmed : sync :=
  after (sample_fetch ++ [Toggle (js "m1") (js "model_ratio") (js "B") true; Apply sample_options; Confirm sample_options]).

Lemma sync_page_invariant_witness :
  inv sample_picked ∧ picks (resolutions sample_picked) (js "m2") = [(billing_expr, JStr (js "tier(1)")); (billing_mode, JStr (js "tiered_expr"))] ∧
  confirmLoading sample_confirmed = true ∧ confirmVisible sample_confirmed = true ∧ under_way sample_confirmed = true.
Proof.
  assert (Hr : reachable (λ x, x) (λ c, [c]) (λ x, x) sample_picked) by (apply after_reachable; by vm_compute).
  assert (Hc : reached_readable (λ x, x) (λ c, [c]) (λ x, x) sample_confirmed) by (apply after_readable; by vm_compute).
  destruct (sync_page_invariant _ _ _ _ Hr) as (H1 & _). split; [exact H1|]. split; [by vm_compute|].
  destruct (sync_page_invariant _ _ _ _ (readable_reachable _ _ _ _ Hc)) as (_ & H2 & H3). destruct (H3 Hc) as [H4 H5].
  assert (H6 : confirmLoading sample_confirmed = true) by (rewrite H4; by vm_compute).
  split; [exact H6|]. split; [exact (H2 H6)|]. rewrite <- H5, H6. by rewrite orb_true_r.
Defined.

Lemma sync_saves_exactly_witness : ∃ cur s' notes final,
  read_options sample_options = Some cur ∧
  performSync (λ c, [c]) (λ x, x) false cur sample_picked = Some (s', notes, put_requests final) ∧
  prop (obj_get final (optionKeyBySyncField (λ c, [c]) (js "model_ratio"))) (js "m1") = JNum (num_of_Z 3) ∧
  prop (obj_get final (optionKeyBySyncField (λ c, [c]) model_price)) (js "m1") = JUndef.
Proof.
  destruct (read_options sample_options) as [cur|] eqn:E; [|by vm_compute in E]. exists cur.
  destruct (sync_saves_exactly (λ x, x) (λ c, [c]) (λ x, x) sample_picked sample_options cur false) as (s' & notes & final & H1 & H2);
    [apply after_reachable; by vm_compute|exact E|].
  exists s', notes, final. split; [done|]. split; [exact H1|]. rewrite !H2 by (by vm_compute). split; by vm_compute.
Defined.

Lemma confirmation_exact_witness : ∃ cur final cs, read_options sample_options = Some cur ∧
  final_ratios (λ c, [c]) cur (resolutions sample_picked) = Some final ∧
  (js "m1" ∈ map c_model cs ↔ ∃ c c', getLocalBillingCategory cur (js "m1") = Some (Some c) ∧
    getLocalBillingCategory final (js "m1") = Some (Some c') ∧ c ≠ c').
Proof.
  destruct (read_options sample_options) as [cur|] eqn:E; [|by vm_compute in E]. exists cur.
  destruct (confirmation_exact (λ x, x) (λ c, [c]) (λ x, x) sample_picked sample_options cur) as (final & cs & H1 & _ & H2);
    [apply after_reachable; by vm_compute|exact E| |].
  - vm_compute in E. injection E as <-. intros k Hk. unfold option_keys, ratio_options in Hk. cbn [app] in Hk.
    repeat (apply elem_of_cons in Hk as [->|Hk]; [eexists; by vm_compute|]). by apply elem_of_nil in Hk.
  - exists final, cs. split; [done|]. split; [exact H1|]. apply H2.
Defined.

Lemma column_head_selects_witness : ∃ s', bulk (λ x, x) (js "B") true (after sample_fetch) = Some s' ∧
  allSelected (channelStats (ratioTypeFilter (after sample_fetch)) (differences (after sample_fetch)) (js "B")
    (rows (λ x, x) (after sample_fetch)) (resolutions s')) = true.
Proof.
  destruct (bulk (λ x, x) (js "B") true (after sample_fetch)) as [s'|] eqn:E; [|by vm_compute in E]. exists s'. split; [done|].
  apply (column_head_selects (λ x, x) (λ c, [c]) (λ x, x) (js "B") (after sample_fetch) s'); [apply after_reachable; by vm_compute|exact E|].
  intros r rt _ [Hp%list_elem_of_In _]. revert Hp. cbv zeta.
  assert (Hno : forallb (λ f, negb (streq f.2 model_price)) (selectable_fields (ratioTypeFilter (after sample_fetch))
    (differences (after sample_fetch)) (js "B") (rows (λ x, x) (after sample_fetch))) = true) by by vm_compute.
  intros Hp. apply (proj1 (forallb_forall _ _) Hno) in Hp. cbn [snd] in Hp. by rewrite streq_refl in Hp.
Defined.

Lemma column_head_clears_witness : ∃ s', bulk (λ x, x) (js "A") false sample_picked = Some s' ∧
  selectedCount (channelStats (ratioTypeFilter sample_picked) (differences sample_picked) (js "A") (rows (λ x, x) sample_picked) (resolutions s')) = 0.
Proof.
  destruct (bulk (λ x, x) (js "A") false sample_picked) as [s'|] eqn:E; [|by vm_compute in E]. exists s'. split; [done|].
  apply (column_head_clears (λ x, x) (λ c, [c]) (λ x, x) (js "A") sample_picked s'); [apply after_reachable; by vm_compute|exact E].
Defined.

(** The save that follows a confirmed conflict *)
Definition sample_saving : sync :=
  after (sample_fetch ++ [Toggle (js "m1") (js "model_ratio") (js "B") true; Apply sample_options; Confirm sample_options]).

Lemma save_settles_witness : ∃ w, save_awaited sample_saving = Some w ∧
  loading (on_saved (λ x, x) None w sample_saving).1 = false ∧
  resolutions (on_saved (λ x, x) None w sample_saving).1 = resolutions sample_saving.
Proof.
  assert (Hr : reachable (λ x, x) (λ c, [c]) (λ x, x) sample_saving) by (apply after_reachable; by vm_compute).
  assert (Hw : is_Some (save_awaited sample_saving)) by (apply (bool_decide_eq_true_1 (is_Some (save_awaited sample_saving))); by vm_compute).
  revert Hr Hw. generalize sample_saving as s. intros s Hr [w Hw]. exists w. split; [exact Hw|].
  pose proof (save_settles (λ x, x) (λ c, [c]) (λ x, x) s w None Hr Hw) as H. cbv zeta in H.
  exact (conj (proj1 H) (proj1 (proj2 (proj2 (proj2 H))))).
Defined.
