(* ===== verification/Channels.v ===== *)
(** * The table of channels

    [web/src/hooks/channels/useChannelsData.jsx], with the controls of
    [web/src/components/table/channels/] that call it: columns, rows and tag
    groups, paging, searching, the operations on a channel.

    Channels are objects that are changed in place and shared between the lists a
    handler has closed over and the list that is shown; they live in a heap, and
    lists hold references.  A request under way carries what its handler closed
    over.  [lower] is [toLowerCase]; ids, priorities, weights and quotas are
    integers.  The times of the last test and of the last balance are left out. *)

From S2P Require Import Prelude JsString JsNumber Json JsObject ChannelForms.

(** ** Columns *)

Definition COLUMN_KEYS : list (jsstr * jsstr) :=
  [(js "ID", js "id"); (js "NAME", js "name"); (js "GROUP", js "group"); (js "TYPE", js "type"); (js "STATUS", js "status");
   (js "RESPONSE_TIME", js "response_time"); (js "BALANCE", js "balance"); (js "PRIORITY", js "priority"); (js "WEIGHT", js "weight");
   (js "FEATURES", js "features"); (js "OPERATE", js "operate")].

Definition getDefaultColumnVisibility : list (jsstr * jval) := map (λ k, (k.2, JBool true)) COLUMN_KEYS.

(** The effect that reads the stored columns *)
Definition load_columns (savedColumns : jsstr) : list (jsstr * jval) :=
  if is_empty savedColumns then getDefaultColumnVisibility else
  match parse savedColumns with
  | Some parsed => spread (spread [] (JObj getDefaultColumnVisibility)) parsed
  | None => getDefaultColumnVisibility
  end.
(** The effect that stores them: [None] is no change of the storage. *)
Definition save_columns (visibleColumns : list (jsstr * jval)) : option jsstr :=
  match own_keys visibleColumns with [] => None | _ => stringify (JObj visibleColumns) end.

Definition handleColumnVisibilityChange (columnKey : jsstr) (checked : bool) (visibleColumns : list (jsstr * jval)) : list (jsstr * jval) :=
  obj_set (spread [] (JObj visibleColumns)) columnKey (JBool checked).
Definition handleSelectAll (checked : bool) : list (jsstr * jval) :=
  fold_left (λ acc key, obj_set acc key (JBool checked)) (map snd COLUMN_KEYS) [].

(** ** Channels and tag groups *)

Record chan := Chan {
  c_id : Z; c_name : jsstr; c_type : Z; c_status : Z; c_tag : jsstr; c_group : jsstr; c_priority : Z; c_weight : Z;
  c_used_quota : Z; c_response_time : num; c_balance : num; c_models : jsstr; c_settings : jval;
  upstreamUpdateMeta : option update_meta
}.

(** The row of a tag.  [None] of priority and weight is the empty text, of the
    status a property that was never set.  Children are positions or references. *)
Record tag_row := TagRow {
  t_tag : jsstr; t_group : jsstr; t_used_quota : Z; t_response_time : num; t_priority : option Z; t_weight : option Z;
  t_status : option Z; t_children : list nat
}.
Definition t_name (r : tag_row) : jsstr := js "标签：" ++ t_tag r.

(** [priority === -1 ? c : priority !== c ? '' : priority] *)
Definition merge_number (known : option Z) (c : Z) : option Z :=
  match known with
  | Some p => if (p =? -1)%Z then Some c else if (p =? c)%Z then Some p else None
  | None => None
  end.
Definition merge_group (known group : jsstr) : jsstr :=
  if is_empty known then group
  else fold_left (λ acc item, if includes item acc then acc else acc ++ js "," ++ item) (split (js ",") group) known.

Definition new_tag_row (tag : jsstr) : tag_row := TagRow tag [] 0 nzero (Some (-1)%Z) (Some (-1)%Z) None [].

(** A channel, at position [i] of the answer, joins the row of its tag. *)
Definition add_to_tag (i : nat) (c : chan) (r : tag_row) : tag_row :=
  TagRow (t_tag r) (merge_group (t_group r) (c_group c)) (t_used_quota r + c_used_quota c)
    (ndiv (nadd (t_response_time r) (c_response_time c)) (num_of_Z 2))
    (merge_number (t_priority r) (c_priority c)) (merge_number (t_weight r) (c_weight c))
    (if (c_status c =? 1)%Z then Some 1%Z else t_status r) (t_children r ++ [i]).

(** The first row with the tag is updated, or a new one is put at the end. *)
Fixpoint update_tag (i : nat) (c : chan) (rows : list tag_row) : list tag_row :=
  match rows with
  | [] => [add_to_tag i c (new_tag_row (c_tag c))]
  | r :: rows' => if streq (t_tag r) (c_tag c) then add_to_tag i c r :: rows' else r :: update_tag i c rows'
  end.

Fixpoint tag_rows (i : nat) (items : list chan) (rows : list tag_row) : list tag_row :=
  match items with [] => rows | c :: items' => tag_rows (S i) items' (update_tag i c rows) end.

(** [parseUpstreamUpdateMeta] may throw. *)
Definition with_meta (c : chan) : option chan :=
  match parseUpstreamUpdateMeta (c_settings c) with
  | Some m => Some (Chan (c_id c) (c_name c) (c_type c) (c_status c) (c_tag c) (c_group c) (c_priority c) (c_weight c) (c_used_quota c)
                      (c_response_time c) (c_balance c) (c_models c) (c_settings c) (Some m))
  | None => None
  end.

(** *** The heap *)

Inductive obj := Channel (c : chan) | Tag (r : tag_row).

(** [setChannelFormat]: the answer's channels, and in the tag mode the rows of
    the tags, are new objects; the result is the list that is shown. *)
Definition setChannelFormat (items : list chan) (enableTagMode : bool) (heap : list obj) : option (list obj * list nat) :=
  match map_opt with_meta items with
  | None => None
  | Some cs =>
    let base := length heap in
    let heap' := heap ++ map Channel cs in
    if enableTagMode then
      let rows := map (λ r, TagRow (t_tag r) (t_group r) (t_used_quota r) (t_response_time r) (t_priority r) (t_weight r) (t_status r)
                               (map (Nat.add base) (t_children r))) (tag_rows 0 cs []) in
      Some (heap' ++ map Tag rows, seq (length heap') (length rows))
    else Some (heap', seq base (length cs))
  end.

(** ** Counts of the types *)

(** [Object.entries] of an object with integer keys *)
Definition by_key (counts : list (Z * Z)) : list (Z * Z) := sort (λ a b, a.1 - b.1)%Z counts.
Definition sum_counts (counts : list (Z * Z)) : Z := fold_left (λ acc e, acc + e.2)%Z (by_key counts) 0%Z.

Definition row_channels (heap : list obj) (ref : nat) : list chan :=
  match heap !! ref with
  | Some (Channel c) => [c]
  | Some (Tag r) => concat (map (λ i, match heap !! i with Some (Channel c) => [c] | _ => [] end) (t_children r))
  | None => []
  end.

(** The counts and their total; [typeCounts] is [None] while it is empty. *)
Definition channelTypeCounts (typeCounts : option (list (Z * Z) * Z)) (heap : list obj) (channels : list nat) : list (Z * Z) * Z :=
  match typeCounts with
  | Some tc => tc
  | None => (fold_left (λ counts c, assoc_set counts (c_type c) (default 0%Z (assoc_get counts (c_type c)) + 1)%Z)
               (concat (map (row_channels heap) channels)) [], Z.of_nat (length channels))
  end.
Definition availableTypeKeys (counts : list (Z * Z) * Z) : list jsstr :=
  js "all" :: map (λ e, string_of_Z e.1) (List.filter (λ e, (0 <? e.2)%Z) (by_key counts.1)).

(** ** The list: loading, searching, paging *)

Record form := Form { searchKeyword : jsstr; searchGroup : jsstr; searchModel : jsstr }.
Definition form_empty (f : form) : bool := is_empty (searchKeyword f) && is_empty (searchGroup f) && is_empty (searchModel f).

Record query := Query { q_page : Z; q_size : Z; q_sort : bool; q_tag : bool; q_type : jsstr; q_status : jsstr }.

Definition bool_text (b : bool) : jsstr := if b then js "true" else js "false".
Definition filter_params (q : query) : jsstr :=
  (if streq (q_type q) (js "all") then [] else js "&type=" ++ q_type q) ++
  (if streq (q_status q) (js "all") then [] else js "&status=" ++ q_status q).
Definition load_url (q : query) : jsstr :=
  js "/api/channel/?p=" ++ string_of_Z (q_page q) ++ js "&page_size=" ++ string_of_Z (q_size q) ++ js "&id_sort=" ++ bool_text (q_sort q) ++
  js "&tag_mode=" ++ bool_text (q_tag q) ++ filter_params q.
Definition search_url (f : form) (q : query) : jsstr :=
  js "/api/channel/search?keyword=" ++ searchKeyword f ++ js "&group=" ++ searchGroup f ++ js "&model=" ++ searchModel f ++
  js "&id_sort=" ++ bool_text (q_sort q) ++ js "&tag_mode=" ++ bool_text (q_tag q) ++ js "&p=" ++ string_of_Z (q_page q) ++
  js "&page_size=" ++ string_of_Z (q_size q) ++ filter_params q.

(** What runs after a request that was awaited: [StopSearching] stands in a
    [finally], the others run only if nothing was thrown. *)
Inductive cont := StopSearching | StopLoading | ShowList (captured : list nat) | StepBack (captured : list nat) (q : query).

Inductive action := ADelete | AEnable | ADisable | APriority | AWeight | AEnableAll.
#[global] Instance action_eq_dec : EqDecision action.
Proof. solve_decision. Defined.

Inductive request :=
| LoadReq (reqId : nat) (q : query) (after : list cont)
| SearchReq (f : form) (q : query) (after : list cont)
| ManageReq (a : action) (record : nat) (captured : list nat) (q : query)
| TagReq (tag : jsstr) (enable : bool) (captured : list nat)
| BalanceReq (id : Z) (captured : list nat)
| DeleteReq (ids : list Z) (captured : list nat) (q : query)
| RefreshReq (q : query).

Record hook := Hook {
  heap : list obj; channels : list nat; loading : bool; searching : bool; activePage : Z; pageSize : Z; idSort : bool;
  enableTagMode : bool; activeTypeKey : jsstr; statusFilter : jsstr; typeCounts : option (list (Z * Z) * Z); channelCount : Z;
  requestCounter : nat; formValues : form; awaited : list request
}.

(** The setters of the hooks. *)
Definition set_list (h : list obj) (l : list nat) (s : hook) : hook :=
  Hook h l (loading s) (searching s) (activePage s) (pageSize s) (idSort s) (enableTagMode s) (activeTypeKey s) (statusFilter s)
    (typeCounts s) (channelCount s) (requestCounter s) (formValues s) (awaited s).
Definition set_busy (l se : bool) (s : hook) : hook :=
  Hook (heap s) (channels s) l se (activePage s) (pageSize s) (idSort s) (enableTagMode s) (activeTypeKey s) (statusFilter s)
    (typeCounts s) (channelCount s) (requestCounter s) (formValues s) (awaited s).
Definition set_query (q : query) (s : hook) : hook :=
  Hook (heap s) (channels s) (loading s) (searching s) (q_page q) (q_size q) (q_sort q) (q_tag q) (q_type q) (q_status q)
    (typeCounts s) (channelCount s) (requestCounter s) (formValues s) (awaited s).
Definition set_counts (tc : option (list (Z * Z) * Z)) (total : Z) (s : hook) : hook :=
  Hook (heap s) (channels s) (loading s) (searching s) (activePage s) (pageSize s) (idSort s) (enableTagMode s) (activeTypeKey s)
    (statusFilter s) tc total (requestCounter s) (formValues s) (awaited s).
Definition set_form (f : form) (s : hook) : hook :=
  Hook (heap s) (channels s) (loading s) (searching s) (activePage s) (pageSize s) (idSort s) (enableTagMode s) (activeTypeKey s)
    (statusFilter s) (typeCounts s) (channelCount s) (requestCounter s) f (awaited s).
Definition set_requests (n : nat) (rs : list request) (s : hook) : hook :=
  Hook (heap s) (channels s) (loading s) (searching s) (activePage s) (pageSize s) (idSort s) (enableTagMode s) (activeTypeKey s)
    (statusFilter s) (typeCounts s) (channelCount s) n (formValues s) rs.

Definition current_query (s : hook) : query :=
  Query (activePage s) (pageSize s) (idSort s) (enableTagMode s) (activeTypeKey s) (statusFilter s).
Definition on_page (p : Z) (q : query) : query := Query p (q_size q) (q_sort q) (q_tag q) (q_type q) (q_status q).

(** The requests of [loadChannels] and [searchChannels] *)
Definition issue_load (q : query) (after : list cont) (s : hook) : hook :=
  let reqId := S (requestCounter s) in
  set_requests reqId (awaited s ++ [LoadReq reqId q after]) (set_busy true (searching s) s).
Definition issue_search (q : query) (after : list cont) (s : hook) : hook :=
  set_requests (requestCounter s) (awaited s ++ [SearchReq (formValues s) q after]) s.

(** Either function hands over to the other when the form says so. *)
Definition searchChannels (q : query) (after : list cont) (s : hook) : hook :=
  let s := set_busy (loading s) true s in
  if form_empty (formValues s) then issue_load q (StopSearching :: after) s
  else issue_search q (StopSearching :: after) s.
Definition loadChannels (q : query) (after : list cont) (s : hook) : hook :=
  if form_empty (formValues s) then issue_load q after s
  else searchChannels q (StopLoading :: after) (set_busy true (searching s) s).

(** [refresh(page)] of the render in which [q] was current *)
Definition refresh (q : query) (after : list cont) (s : hook) : hook :=
  if form_empty (formValues s) then loadChannels q after s else searchChannels q after s.

Definition run_cont (ok : bool) (s : hook) (c : cont) : hook :=
  match c with
  | StopSearching => set_busy (loading s) false s
  | StopLoading => if ok then set_busy false (searching s) s else s
  | ShowList l => if ok then set_list (heap s) l s else s
  | StepBack l q =>
    match l with
    | [] => if ok && (1 <? q_page q)%Z then refresh (on_page (q_page q - 1) q) [] s else s
    | _ => s
    end
  end.
Definition run_conts (ok : bool) (cs : list cont) (s : hook) : hook := fold_left (run_cont ok) cs s.

(** ** Answers *)

Inductive reply :=
| Items (items : list chan) (total : Z) (type_counts : option (list (Z * Z)))
| Updated (channel : option chan) | Balance (balance : num) | Refused | Failed.

Definition total_counts (counts : list (Z * Z)) : list (Z * Z) * Z := (counts, sum_counts counts).

Definition on_load (reqId : nat) (q : query) (after : list cont) (r : reply) (s : hook) : hook :=
  if negb (reqId =? requestCounter s) then run_conts true after s else
  match r with
  | Items items total type_counts =>
    let tc := match type_counts with Some c => Some (total_counts c) | None => typeCounts s end in
    match setChannelFormat items (q_tag q) (heap s) with
    | Some (h, l) => run_conts true after (set_busy false (searching s) (set_counts tc total (set_list h l s)))
    | None => run_conts false after (set_counts tc (channelCount s) s)
    end
  | Failed => run_conts false after s
  | _ => run_conts true after (set_busy false (searching s) s)
  end.

Definition on_search (q : query) (after : list cont) (r : reply) (s : hook) : hook :=
  match r with
  | Items items total type_counts =>
    let tc := Some (total_counts (default [] type_counts)) in
    match setChannelFormat items (q_tag q) (heap s) with
    | Some (h, l) => run_conts true after (set_query (on_page (q_page q) (current_query s)) (set_counts tc total (set_list h l s)))
    | None => run_conts false after (set_counts tc (channelCount s) s)
    end
  | Failed => run_conts false after s
  | _ => run_conts true after s
  end.

(** ** Operations on a channel *)

(** The body of the request: [None] without one. *)
Definition manage_body (a : action) (id : Z) (value : jsstr) : option (list (jsstr * jval)) :=
  let idf := (js "id", JNum (num_of_Z id)) in
  match a with
  | ADelete => Some []
  | AEnable => Some [idf; (js "status", JNum (num_of_Z 1))]
  | ADisable => Some [idf; (js "status", JNum (num_of_Z 2))]
  | APriority => if is_empty value then None else Some [idf; (js "priority", JNum (parseInt10 value))]
  | AWeight => if is_empty value then None
               else let w := parseInt10 value in Some [idf; (js "weight", JNum (if nlt w nzero then nzero else w))]
  | AEnableAll => Some [(js "channel_id", JNum (num_of_Z id)); (js "action", JStr (js "enable_all_keys"))]
  end.

(** [Object.assign(record, channel)]: what the page computed itself stays. *)
Definition assign (old new : chan) : chan :=
  Chan (c_id new) (c_name new) (c_type new) (c_status new) (c_tag new) (c_group new) (c_priority new) (c_weight new) (c_used_quota new)
    (c_response_time new) (c_balance new) (c_models new) (c_settings new) (upstreamUpdateMeta old).

Definition change_channel (f : chan → chan) (ref : nat) (h : list obj) : list obj :=
  match h !! ref with Some (Channel c) => <[ref := Channel (f c)]> h | _ => h end.

Definition on_managed (a : action) (record : nat) (captured : list nat) (q : query) (r : reply) (s : hook) : hook :=
  let s' :=
    match r with
    | Updated channel =>
      match channel with
      | Some c => if bool_decide (a = ADelete) then set_list (heap s) captured s
                  else set_list (change_channel (λ old, assign old c) record (heap s)) captured s
      | None => if bool_decide (a = AEnableAll) then refresh q [ShowList captured] s else set_list (heap s) captured s
      end
    | _ => s
    end in
  match a, r with
  | ADelete, Failed => s'
  | ADelete, _ => refresh q [StepBack captured q] s'
  | _, _ => s'
  end.

Definition set_status (v : Z) (c : chan) : chan :=
  Chan (c_id c) (c_name c) (c_type c) v (c_tag c) (c_group c) (c_priority c) (c_weight c) (c_used_quota c) (c_response_time c)
    (c_balance c) (c_models c) (c_settings c) (upstreamUpdateMeta c).
Definition set_row_status (v : Z) (r : tag_row) : tag_row :=
  TagRow (t_tag r) (t_group r) (t_used_quota r) (t_response_time r) (t_priority r) (t_weight r) (Some v) (t_children r).

Definition tag_status (tag : jsstr) (v : Z) (h : list obj) (ref : nat) : list obj :=
  match h !! ref with
  | Some (Tag r) =>
    if streq (t_tag r) tag
    then <[ref := Tag (set_row_status v r)]> (fold_left (λ h i, change_channel (set_status v) i h) (t_children r) h)
    else h
  | Some (Channel c) => if streq (c_tag c) tag then <[ref := Channel (set_status v c)]> h else h
  | None => h
  end.
Definition on_tag_managed (tag : jsstr) (enable : bool) (captured : list nat) (r : reply) (s : hook) : hook :=
  match r with
  | Updated _ => set_list (fold_left (tag_status tag (if enable then 1 else 2)%Z) captured (heap s)) captured s
  | _ => s
  end.

(** [updateChannelProperty] on the list it closed over: the heap, and whether a
    channel was found. *)
Definition update_ref (id : Z) (f : chan → chan) (acc : list obj * bool) (ref : nat) : list obj * bool :=
  match acc.1 !! ref with
  | Some (Channel c) => if (c_id c =? id)%Z then (<[ref := Channel (f c)]> acc.1, true) else acc
  | _ => acc
  end.
Definition update_row (id : Z) (f : chan → chan) (acc : list obj * bool) (ref : nat) : list obj * bool :=
  match acc.1 !! ref with
  | Some (Tag r) => fold_left (update_ref id f) (t_children r) acc
  | _ => update_ref id f acc ref
  end.
Definition updateChannelProperty (id : Z) (f : chan → chan) (captured : list nat) (s : hook) : hook :=
  let '(h, updated) := fold_left (update_row id f) captured (heap s, false) in
  if updated then set_list h captured s else s.

Definition set_balance (b : num) (c : chan) : chan :=
  Chan (c_id c) (c_name c) (c_type c) (c_status c) (c_tag c) (c_group c) (c_priority c) (c_weight c) (c_used_quota c) (c_response_time c)
    b (c_models c) (c_settings c) (upstreamUpdateMeta c).
Definition set_response_time (t : num) (c : chan) : chan :=
  Chan (c_id c) (c_name c) (c_type c) (c_status c) (c_tag c) (c_group c) (c_priority c) (c_weight c) (c_used_quota c) t
    (c_balance c) (c_models c) (c_settings c) (upstreamUpdateMeta c).
Definition on_balance (id : Z) (captured : list nat) (r : reply) (s : hook) : hook :=
  match r with Balance b => updateChannelProperty id (set_balance b) captured s | _ => s end.

Definition on_deleted (captured : list nat) (q : query) (r : reply) (s : hook) : hook :=
  match r with
  | Updated _ => refresh q [StopLoading; StepBack captured q] s
  | Failed => s
  | _ => set_busy false (searching s) s
  end.

Definition on_reply (rq : request) (r : reply) (s : hook) : hook :=
  match rq with
  | LoadReq reqId q after => on_load reqId q after r s
  | SearchReq _ q after => on_search q after r s
  | ManageReq a record captured q => on_managed a record captured q r s
  | TagReq tag enable captured => on_tag_managed tag enable captured r s
  | BalanceReq id captured => on_balance id captured r s
  | DeleteReq _ captured q => on_deleted captured q r s
  | RefreshReq q => match r with Updated _ => refresh q [] s | _ => s end
  end.

(** ** The page *)

(** The effect that runs when the page opens; [getItem] is the local storage,
    with an empty text for a missing item. *)
Definition ITEMS_PER_PAGE : Z := 10.
Definition stored_size (text : jsstr) : Z :=
  match parseInt10 text with
  | S754_finite sg m e => let z := match e with Zneg p => Z.shiftr (Zpos m) (Zpos p) | _ => Z.shiftl (Zpos m) e end in
                          if sg then (- z)%Z else z
  | _ => ITEMS_PER_PAGE
  end.
Definition mount (getItem : jsstr → jsstr) : hook :=
  let q := Query 1 (stored_size (getItem (js "page-size"))) (streq (getItem (js "id-sort")) (js "true"))
             (streq (getItem (js "enable-tag-mode")) (js "true")) (js "all")
             (let f := getItem (js "channel-status-filter") in if is_empty f then js "all" else f) in
  loadChannels q [] (set_query q (Hook [] [] true false 1 ITEMS_PER_PAGE false false (js "all") (q_status q) None 0 0 (Form [] [] []) [])).

(** Checks of [submitTagEdit]: the number sent, or none. *)
Inductive tag_field := TagPriority | TagWeight.
Definition tag_edit_value (f : tag_field) (value : jsstr) : option num :=
  match f with
  | TagPriority => if is_empty value then None else Some (parseInt10 value)
  | TagWeight => if is_empty value || nlt (Number_of_string value) nzero then None else Some (parseInt10 value)
  end.

Inductive event :=
| TypeForm (f : form) | Submit | PageChange (page : Z) | PageSizeChange (size : Z) | SortChange (v : bool) | TagModeChange (v : bool)
| StatusChange (v : jsstr) | TabChange (key : jsstr)
| Manage (a : action) (record : nat) (value : jsstr) | ManageTag (tag : jsstr) (enable : bool) | UpdateBalance (id : Z)
| BatchDelete (ids : list Z) | TagEdit (f : tag_field) (value : jsstr) | ThenRefresh
| Answer (i : nat) (r : reply).

Definition send (rq : request) (s : hook) : hook := set_requests (requestCounter s) (awaited s ++ [rq]) s.
Definition load_or_search (q : query) (s : hook) : hook := if form_empty (formValues s) then loadChannels q [] s else searchChannels q [] s.

Definition handlePageChange (page : Z) (s : hook) : hook :=
  let q := on_page page (current_query s) in load_or_search q (set_query q s).
Definition handlePageSizeChange (size : Z) (s : hook) : hook :=
  let q := Query 1 size (idSort s) (enableTagMode s) (activeTypeKey s) (statusFilter s) in load_or_search q (set_query q s).
Definition sort_change (v : bool) (s : hook) : hook :=
  let q := Query (activePage s) (pageSize s) v (enableTagMode s) (activeTypeKey s) (statusFilter s) in load_or_search q (set_query q s).
Definition tag_mode_change (v : bool) (s : hook) : hook :=
  let q := Query 1 (pageSize s) (idSort s) v (activeTypeKey s) (statusFilter s) in loadChannels q [] (set_query q s).
Definition status_change (v : jsstr) (s : hook) : hook :=
  let q := Query 1 (pageSize s) (idSort s) (enableTagMode s) (activeTypeKey s) v in loadChannels q [] (set_query q s).
Definition handleTabChange (key : jsstr) (s : hook) : hook :=
  let q := Query 1 (pageSize s) (idSort s) (enableTagMode s) key (statusFilter s) in loadChannels q [] (set_query q s).

(** [None]: the control is not there, or nothing is sent. *)
Definition handle (e : event) (s : hook) : option hook :=
  match e with
  | TypeForm f => Some (set_form f s)
  | Submit => Some (searchChannels (on_page 1 (current_query s)) [] s)
  | PageChange page => Some (handlePageChange page s)
  | PageSizeChange size => Some (handlePageSizeChange size s)
  | SortChange v => Some (sort_change v s)
  | TagModeChange v => Some (tag_mode_change v s)
  | StatusChange v => Some (status_change v s)
  | TabChange key => if enableTagMode s then None else Some (handleTabChange key s)
  | Manage a record value =>
    match heap s !! record with
    | Some (Channel c) => match manage_body a (c_id c) value with
                          | Some _ => Some (send (ManageReq a record (channels s) (current_query s)) s)
                          | None => None
                          end
    | _ => None
    end
  | ManageTag tag enable => Some (send (TagReq tag enable (channels s)) s)
  | UpdateBalance id => Some (send (BalanceReq id (channels s)) s)
  | BatchDelete ids =>
    match ids with [] => None | _ => Some (set_busy true (searching s) (send (DeleteReq ids (channels s) (current_query s)) s)) end
  | TagEdit f value => match tag_edit_value f value with Some _ => Some (send (RefreshReq (current_query s)) s) | None => None end
  | ThenRefresh => Some (send (RefreshReq (current_query s)) s)
  | Answer i r =>
    match awaited s !! i with
    | Some rq => Some (on_reply rq r (set_requests (requestCounter s) (delete i (awaited s)) s))
    | None => None
    end
  end.
