(* ===== verification/ChannelsTheorems.v ===== *)
(** * The table of channels: what holds of it

    The rows of the tags partition the channels; with the list only loaded (not
    searched), the list that is shown once nothing is under way is the server's
    answer for the current page and filters, whatever the order of the answers;
    and the situations in which the page shows an old list. *)

From S2P Require Import Prelude JsString JsNumber Json JsObject ChannelForms Channels.

Local Opaque js.

(** ** Columns *)

Lemma defaults_ok : json_ok (JObj getDefaultColumnVisibility) = true.
Proof. by vm_compute. Qed.

(** The columns the handlers make of the defaults *)
Inductive columns_reached : list (jsstr * jval) → Prop :=
| cols_default : columns_reached getDefaultColumnVisibility
| cols_change k b cols : k ∈ map snd COLUMN_KEYS → columns_reached cols → columns_reached (handleColumnVisibilityChange k b cols)
| cols_all b : columns_reached (handleSelectAll b).

Definition column_keys : list jsstr := map snd COLUMN_KEYS.
Definition columns_ok (cols : list (jsstr * jval)) : Prop :=
  map fst cols = column_keys ∧ Forall (λ e, ∃ b, e.2 = JBool b) cols.

Lemma column_keys_facts : fields_ok column_keys && forallb (λ k, bool_decide (array_index k = None)) column_keys = true.
Proof. by vm_compute. Qed.

Lemma columns_json cols : columns_ok cols → json_ok (JObj cols) = true.
Proof.
  intros [Hk Hv]. apply json_ok_fields; [rewrite Hk; by pose proof column_keys_facts as [? _]%andb_true_iff|].
  apply Forall_map. eapply Forall_impl; [exact Hv|]. cbn beta. intros e [b Hb]. by rewrite Hb.
Qed.

(** An object without integer keys is listed in the order of its members. *)
Lemma own_entries_plain o : forallb (λ k, bool_decide (array_index k = None)) (map fst o) = true → own_entries o = o.
Proof.
  intros H. unfold own_entries.
  assert (Hi : index_entries o = [] ∧ List.filter (λ e, match array_index e.1 with Some _ => false | None => true end) o = o).
  { induction o as [|e o IH]; cbn [map forallb index_entries List.filter] in *; [done|].
    apply andb_true_iff in H as [H1%bool_decide_eq_true H2]. rewrite H1. destruct (IH H2) as [-> ->]. done. }
  destruct Hi as [Hi1 Hi2]. by rewrite Hi1, Hi2.
Qed.

Lemma columns_copy cols : columns_ok cols → spread [] (JObj cols) = cols.
Proof.
  intros [Hk _]. unfold spread. cbn [entries]. pose proof column_keys_facts as [Hf Hi]%andb_true_iff.
  rewrite own_entries_plain by by rewrite Hk. unfold fields_ok in Hf. rewrite !andb_true_iff, !bool_decide_eq_true in Hf.
  destruct Hf as [[_ Hnd] _]. rewrite <- Hk in Hnd. by apply (fold_set_fresh cols []).
Qed.

Lemma set_bools k b cols : Forall (λ e : jsstr * jval, ∃ b, e.2 = JBool b) cols → Forall (λ e, ∃ b, e.2 = JBool b) (obj_set cols k (JBool b)).
Proof.
  induction 1 as [|[k' v'] cols Hv Hf IH]; cbn [obj_set]; [constructor; [by exists b|constructor]|].
  destruct (streq k' k); constructor; try done. by exists b.
Qed.

Lemma columns_set k b cols : k ∈ column_keys → columns_ok cols → columns_ok (obj_set cols k (JBool b)).
Proof. intros Hin [Hk Hv]. split; [by rewrite obj_set_same_keys by by rewrite Hk|by apply set_bools]. Qed.

Lemma columns_inv cols : columns_reached cols → columns_ok cols.
Proof.
  induction 1 as [|k b cols Hk _ IH|b].
  - split; [by vm_compute|]. apply Forall_map, Forall_forall. intros k _. by exists true.
  - unfold handleColumnVisibilityChange. rewrite columns_copy by done. by apply columns_set.
  - split; [destruct b; by vm_compute|]. unfold handleSelectAll. apply fold_left_inv; [constructor|]. intros acc k _. apply set_bools.
Qed.

Lemma obj_set_here l1 k v v' l2 : k ∉ map fst l1 → obj_set (l1 ++ (k, v) :: l2) k v' = l1 ++ (k, v') :: l2.
Proof.
  induction l1 as [|[k0 v0] l1 IH]; cbn [app obj_set map fst]; [by rewrite streq_refl|]. intros [Hne Hni]%not_elem_of_cons.
  rewrite (proj2 (streq_false k0 k)) by done. by rewrite IH.
Qed.

(** An object with the same keys replaces every value. *)
Lemma overwrite_all l acc : NoDup (map fst l) → map fst acc = map fst l → fold_left (λ acc e, obj_set acc e.1 e.2) l acc = l.
Proof.
  intros Hnd Hk. assert (Hgen : ∀ l1 acc, NoDup (map fst (l1 ++ l)) → map fst acc = map fst l →
    fold_left (λ acc e, obj_set acc e.1 e.2) l (l1 ++ acc) = l1 ++ l); [|by apply (Hgen [])]. clear Hnd Hk acc.
  induction l as [|[k v] l IH]; intros l1 [|[k' v'] acc] Hnd Hk; cbn [fold_left map fst snd] in *; try done.
  injection Hk as -> Hk. rewrite obj_set_here.
  - specialize (IH (l1 ++ [(k, v)]) acc). rewrite <- !app_assoc in IH. by apply IH.
  - rewrite map_app in Hnd. cbn [map fst] in Hnd. apply NoDup_app in Hnd as (_ & Hd & _). intros Hin. apply (Hd _ Hin). by left.
Qed.

(** The columns chosen for the table are the same after the page is loaded
    again. *)
Theorem columns_survive_reload cols : columns_reached cols →
  ∃ text, save_columns cols = Some text ∧ load_columns text = cols.
Proof.
  intros Hr%columns_inv. pose proof (columns_json cols Hr) as Hj. pose proof Hr as [Hk _].
  pose proof column_keys_facts as [Hf Hi]%andb_true_iff. assert (Hown : own_entries cols = cols) by (apply own_entries_plain; by rewrite Hk).
  destruct (parse_stringify _ Hj) as (text & Ht & Hp). exists text. unfold save_columns, own_keys, load_columns.
  rewrite Hown, Hk, (parsed_nonempty _ _ Hp), Hp, Ht. split; [by vm_compute|].
  rewrite columns_copy by apply columns_inv, cols_default. unfold spread. cbn [entries]. rewrite Hown. apply overwrite_all; [|rewrite Hk; by vm_compute].
  rewrite Hk. unfold fields_ok in Hf. rewrite !andb_true_iff, !bool_decide_eq_true in Hf. tauto.
Qed.

(** ** Tag groups *)

(** The row of a tag: the channels of the tag, added in their order. *)
Definition with_tag (t : jsstr) (P : list (nat * chan)) : list (nat * chan) := List.filter (λ e, streq (c_tag e.2) t) P.
Definition group_row (t : jsstr) (P : list (nat * chan)) : tag_row :=
  fold_left (λ r e, add_to_tag e.1 e.2 r) (with_tag t P) (new_tag_row t).
Definition group_rows (P : list (nat * chan)) : list tag_row := map (λ t, group_row t P) (uniq (map (λ e, c_tag e.2) P)).

Lemma group_tag t P : t_tag (group_row t P) = t.
Proof. unfold group_row. apply (fold_left_inv (λ r, t_tag r = t)); [done|]. by intros r e _ <-. Qed.

Lemma group_snoc t P i c : group_row t (P ++ [(i, c)]) = if streq (c_tag c) t then add_to_tag i c (group_row t P) else group_row t P.
Proof.
  unfold group_row, with_tag. rewrite List.filter_app. cbn [List.filter snd]. rewrite fold_left_app. by destruct (streq (c_tag c) t).
Qed.

Lemma uniq_snoc {A} `{EqDecision A} (l : list A) x : uniq (l ++ [x]) = if bool_decide (x ∈ l) then uniq l else uniq l ++ [x].
Proof.
  unfold uniq. rewrite fold_left_app. cbn [fold_left].
  rewrite (bool_decide_ext _ (x ∈ l)); [by case_bool_decide; rewrite ?reverse_cons|].
  pose proof (elem_of_uniq l x) as H. unfold uniq in H. by rewrite reverse_Permutation in H.
Qed.

Lemma update_tag_in i c rows : c_tag c ∈ map t_tag rows → NoDup (map t_tag rows) →
  update_tag i c rows = map (λ r, if streq (c_tag c) (t_tag r) then add_to_tag i c r else r) rows.
Proof.
  induction rows as [|r rows IH]; cbn [map update_tag]; [by intros ?%elem_of_nil|]. intros Hin [Hni Hnd]%NoDup_cons.
  destruct (streq (t_tag r) (c_tag c)) eqn:E.
  - apply streq_true in E. rewrite <- E, streq_refl. f_equal. rewrite <- (map_id rows) at 1. apply map_ext_in. intros r' Hr'.
    rewrite (proj2 (streq_false _ _)); [done|]. intros Heq. apply Hni. rewrite Heq. by apply list_elem_of_fmap_2, list_elem_of_In.
  - apply streq_false in E. rewrite (proj2 (streq_false (c_tag c) _)) by congruence. f_equal. apply IH; [|done].
    apply elem_of_cons in Hin as [Hin|Hin]; [congruence|done].
Qed.

Lemma update_tag_new i c rows : c_tag c ∉ map t_tag rows → update_tag i c rows = rows ++ [add_to_tag i c (new_tag_row (c_tag c))].
Proof.
  induction rows as [|r rows IH]; cbn [map update_tag app]; [done|]. intros [Hne Hni]%not_elem_of_cons.
  rewrite (proj2 (streq_false _ _)) by congruence. by rewrite IH.
Qed.

Lemma group_rows_tags P : map t_tag (group_rows P) = uniq (map (λ e, c_tag e.2) P).
Proof. unfold group_rows. rewrite map_map. rewrite <- (map_id (uniq _)) at 2. apply map_ext. intros t. apply group_tag. Qed.

Lemma group_rows_snoc P i c : update_tag i c (group_rows P) = group_rows (P ++ [(i, c)]).
Proof.
  set (tags := map (λ e : nat * chan, c_tag e.2) P). destruct (decide (c_tag c ∈ tags)) as [Hin|Hni].
  - rewrite update_tag_in; [|rewrite group_rows_tags; by apply elem_of_uniq|rewrite group_rows_tags; apply uniq_NoDup].
    unfold group_rows. rewrite map_app. cbn [map snd]. rewrite uniq_snoc. fold tags. rewrite bool_decide_eq_true_2 by done.
    rewrite map_map. apply map_ext. intros t. by rewrite group_tag, group_snoc.
  - rewrite update_tag_new by (rewrite group_rows_tags; by rewrite elem_of_uniq). unfold group_rows. rewrite map_app. cbn [map snd]. rewrite uniq_snoc.
    fold tags. rewrite bool_decide_eq_false_2, map_app by done. cbn [map]. f_equal.
    + apply map_ext_in. intros t Ht. rewrite group_snoc, (proj2 (streq_false _ _)); [done|]. intros <-. apply Hni.
      by apply list_elem_of_In, (proj1 (elem_of_uniq _ _)) in Ht.
    + rewrite group_snoc, streq_refl. f_equal. unfold group_row. replace (with_tag (c_tag c) P) with (@nil (nat * chan)); [done|].
      symmetry. unfold with_tag. destruct (List.filter _ _) as [|e l] eqn:E; [done|exfalso]. assert (He : List.In e (e :: l)) by by left.
      rewrite <- E in He. apply filter_In in He as [He Ht%streq_true]. apply Hni. rewrite <- Ht.
      apply (list_elem_of_fmap_2 (λ e : nat * chan, c_tag e.2)). by apply list_elem_of_In.
Qed.

(** Positions and channels *)
Definition numbered (n : nat) (cs : list chan) : list (nat * chan) := imap (λ i c, (n + i, c)) cs.

Lemma numbered_cons n c cs : numbered n (c :: cs) = (n, c) :: numbered (S n) cs.
Proof.
  unfold numbered. cbn [imap]. rewrite Nat.add_0_r. f_equal. apply imap_ext. intros i x _. cbn. f_equal. lia.
Qed.

Lemma tag_rows_spec cs : ∀ n P, tag_rows n cs (group_rows P) = group_rows (P ++ numbered n cs).
Proof.
  induction cs as [|c cs IH]; intros n P; cbn [tag_rows]; [by rewrite app_nil_r|].
  rewrite group_rows_snoc, IH, numbered_cons. by rewrite <- app_assoc.
Qed.

Lemma group_children t P : t_children (group_row t P) = map fst (with_tag t P).
Proof.
  unfold group_row. assert (H : ∀ l r, t_children (fold_left (λ r e, add_to_tag e.1 e.2 r) l r) = t_children r ++ map fst l); [|by rewrite H].
  induction l as [|e l IH]; intros r; cbn [fold_left map]; [by rewrite app_nil_r|]. rewrite IH. cbn [add_to_tag t_children]. by rewrite <- app_assoc.
Qed.

Definition quota_sum (l : list (nat * chan)) : Z := fold_right (λ e n, c_used_quota e.2 + n)%Z 0%Z l.
Lemma group_quota t P : t_used_quota (group_row t P) = quota_sum (with_tag t P).
Proof.
  unfold group_row. assert (H : ∀ l r, t_used_quota (fold_left (λ r e, add_to_tag e.1 e.2 r) l r) = (t_used_quota r + quota_sum l)%Z); [|by rewrite H].
  induction l as [|e l IH]; intros r; cbn [fold_left quota_sum fold_right]; [lia|]. rewrite IH. cbn [add_to_tag t_used_quota]. unfold quota_sum. lia.
Qed.

Lemma group_status t P : t_status (group_row t P) = if existsb (λ e, (c_status e.2 =? 1)%Z) (with_tag t P) then Some 1%Z else None.
Proof.
  unfold group_row. assert (H : ∀ l r, t_status (fold_left (λ r e, add_to_tag e.1 e.2 r) l r) =
    if existsb (λ e, (c_status e.2 =? 1)%Z) l then Some 1%Z else t_status r); [|by rewrite H].
  induction l as [|e l IH]; intros r; cbn [fold_left existsb]; [done|]. rewrite IH. cbn [add_to_tag t_status].
  by destruct (c_status e.2 =? 1)%Z, (existsb _ l).
Qed.

(** The number a row shows for those of its channels: [-1] stands for none yet,
    so the first ones that are [-1] do not count; the others must agree. *)
Fixpoint common (l : list Z) : option Z :=
  match l with
  | [] => Some (-1)%Z
  | x :: l' => if (x =? -1)%Z then common l' else if forallb (Z.eqb x) l' then Some x else None
  end.

Lemma merge_common l : fold_left merge_number l (Some (-1)%Z) = common l.
Proof.
  assert (Hnone : ∀ l, fold_left merge_number l None = None) by (clear; induction l; done).
  assert (H : ∀ l v, v ≠ (-1)%Z → fold_left merge_number l (Some v) = if forallb (Z.eqb v) l then Some v else None).
  { clear l. induction l as [|x l IH]; intros v Hv; cbn [fold_left forallb]; [done|]. cbn [merge_number].
    rewrite (proj2 (Z.eqb_neq v (-1)) Hv). destruct (Z.eqb_spec v x) as [->|Hne]; [by rewrite IH|by rewrite Hnone]. }
  induction l as [|x l IH]; cbn [fold_left common]; [done|]. cbn [merge_number]. rewrite Z.eqb_refl.
  destruct (Z.eqb_spec x (-1)) as [->|Hx]; [done|by apply H].
Qed.

(** Without a [-1] a number is shown exactly if all channels have it. *)
Lemma common_shared l : l ≠ [] → Forall (λ x, x ≠ (-1)%Z) l → ∀ p, common l = Some p ↔ Forall (λ x, x = p) l.
Proof.
  intros Hne Hall p. destruct l as [|x l]; [done|]. apply Forall_cons in Hall as [Hx _]. cbn [common].
  rewrite (proj2 (Z.eqb_neq _ _) Hx), Forall_cons. destruct (forallb (Z.eqb x) l) eqn:E.
  - split; [intros [= <-]|by intros [-> _]]. split; [done|]. rewrite forallb_forall in E. apply Forall_forall.
    intros y Hy%list_elem_of_In. symmetry. by apply Z.eqb_eq, E.
  - split; [done|]. intros [-> Hl]. exfalso. apply not_true_iff_false in E. apply E, forallb_forall. rewrite Forall_forall in Hl.
    intros y Hy%list_elem_of_In. apply Z.eqb_eq. symmetry. by apply Hl.
Qed.

Lemma group_numbers t P :
  t_priority (group_row t P) = common (map (λ e, c_priority e.2) (with_tag t P)) ∧
  t_weight (group_row t P) = common (map (λ e, c_weight e.2) (with_tag t P)).
Proof.
  unfold group_row. assert (H : ∀ l r,
    t_priority (fold_left (λ r e, add_to_tag e.1 e.2 r) l r) = fold_left merge_number (map (λ e : nat * chan, c_priority e.2) l) (t_priority r) ∧
    t_weight (fold_left (λ r e, add_to_tag e.1 e.2 r) l r) = fold_left merge_number (map (λ e : nat * chan, c_weight e.2) l) (t_weight r)).
  { induction l as [|e l IH]; intros r; cbn [fold_left map]; [done|]. destruct (IH (add_to_tag e.1 e.2 r)) as [-> ->]. done. }
  destruct (H (with_tag t P) (new_tag_row t)) as [-> ->]. cbn [new_tag_row t_priority t_weight]. by rewrite !merge_common.
Qed.

Lemma numbered_tags n cs : map (λ e : nat * chan, c_tag e.2) (numbered n cs) = map c_tag cs.
Proof. revert n. induction cs as [|c cs IH]; intros n; [done|]. rewrite numbered_cons. cbn [map snd]. by rewrite IH. Qed.

(** C28. In the tag mode there is one row per tag, in the order in which the tags
    first occur; its children are the channels of the tag, its quota the sum of
    theirs, and it is enabled exactly if one of them is.  Its priority is the one
    its channels agree on, but for those at the beginning whose priority is -1,
    which the row takes for not set: it is -1 if all of them have it, and not shown
    if two others differ; so if none is -1, a priority is shown exactly if all
    channels have it.  The same holds of its weight. *)
Theorem tag_groups_exact cs :
  map t_tag (tag_rows 0 cs []) = uniq (map c_tag cs) ∧
  ∀ r, r ∈ tag_rows 0 cs [] →
    let members := with_tag (t_tag r) (numbered 0 cs) in
    let priorities := map (λ e, c_priority e.2) members in let weights := map (λ e, c_weight e.2) members in
    t_children r = map fst members ∧ t_used_quota r = quota_sum members ∧
    (t_status r = Some 1%Z ↔ ∃ e, e ∈ members ∧ c_status e.2 = 1%Z) ∧
    t_priority r = common priorities ∧ t_weight r = common weights ∧
    (Forall (λ x, x ≠ (-1)%Z) priorities → ∀ p, t_priority r = Some p ↔ Forall (λ x, x = p) priorities) ∧
    (Forall (λ x, x ≠ (-1)%Z) weights → ∀ w, t_weight r = Some w ↔ Forall (λ x, x = w) weights).
Proof.
  pose proof (tag_rows_spec cs 0 []) as H. cbn [app] in H. change (group_rows []) with (@nil tag_row) in H. rewrite H. clear H.
  split; [by rewrite group_rows_tags, numbered_tags|]. intros r Hr. unfold group_rows in Hr. apply list_elem_of_fmap in Hr as (t & -> & Ht).
  destruct (group_numbers t (numbered 0 cs)) as [Hp Hw].
  rewrite group_tag, group_children, group_quota, group_status, Hp, Hw. intros members priorities weights. split; [done|]. split; [done|].
  assert (Hne : members ≠ []).
  { apply (proj1 (elem_of_uniq _ _)), list_elem_of_fmap in Ht as (e & -> & He). intros E. assert (Hin : List.In e members); [|by rewrite E in Hin].
    apply filter_In. split; [by apply list_elem_of_In|apply streq_refl]. }
  fold members. split.
  - destruct (existsb (λ e, (c_status e.2 =? 1)%Z) members) eqn:E.
    + split; [|done]. intros _. apply existsb_exists in E as (e & He & Hs%Z.eqb_eq). exists e. split; [by apply list_elem_of_In|done].
    + split; [done|]. intros (e & He & Hs). apply list_elem_of_In in He.
      rewrite (proj2 (existsb_exists _ _)) in E; [done|]. exists e. split; [done|]. by apply Z.eqb_eq.
  - split; [done|]. split; [done|]. split; intros Hx; apply common_shared; try done; by intros ?%map_eq_nil.
Qed.

(** Sorting into boxes loses nothing and doubles nothing. *)
Lemma boxes_perm {A} (f : A → jsstr) (ts : list jsstr) (P : list A) : NoDup ts → (∀ e, e ∈ P → f e ∈ ts) →
  concat (map (λ t, List.filter (λ e, streq (f e) t) P) ts) ≡ₚ P.
Proof.
  intros Hnd. induction P as [|e P IH]; intros HP; cbn [List.filter].
  { clear. induction ts as [|t ts IH]; cbn [map concat]; done. }
  etrans; [|apply Permutation_cons; [done|apply IH; intros e' He'; apply HP; by right]].
  assert (He : f e ∈ ts) by (apply HP; by left). clear IH HP. apply list_elem_of_split in He as (l1 & l2 & ->).
  apply NoDup_app in Hnd as (_ & Hd1 & [Hn2 _]%NoDup_cons).
  rewrite !map_app, !concat_app. cbn [map concat]. rewrite streq_refl.
  assert (H : ∀ l, f e ∉ l → map (λ t, if streq (f e) t then e :: List.filter (λ e0, streq (f e0) t) P else List.filter (λ e0, streq (f e0) t) P) l
                       = map (λ t, List.filter (λ e0, streq (f e0) t) P) l).
  { intros l Hl. apply map_ext_in. intros t Ht. rewrite (proj2 (streq_false _ _)); [done|]. intros <-. by apply Hl, list_elem_of_In. }
  rewrite !H; [|done|intros Hin; apply (Hd1 _ Hin); by left].
  cbn [app]. symmetry. apply Permutation_middle.
Qed.

Lemma heap_channels heap cs rest i : i < length cs →
  ∃ c, cs !! i = Some c ∧ (heap ++ map Channel cs ++ rest) !! (length heap + i) = Some (Channel c).
Proof.
  intros Hi. destruct (lookup_lt_is_Some_2 cs i Hi) as [c Hc]. exists c. split; [done|].
  rewrite lookup_app_r by lia. replace (length heap + i - length heap) with i by lia.
  rewrite lookup_app_l by (rewrite length_map; lia). change (map Channel) with (fmap (M:=list) Channel). by rewrite list_lookup_fmap, Hc.
Qed.

Lemma map_seq_lookup {A B} (g : nat → B) (f : A → B) base (l : list A) : (∀ i x, l !! i = Some x → g (base + i) = f x) →
  map g (seq base (length l)) = map f l.
Proof.
  revert base. induction l as [|x l IH]; intros base H; cbn [length seq map]; [done|]. f_equal.
  - rewrite <- (H 0 x eq_refl). f_equal. lia.
  - apply IH. intros i y Hy. replace (S base + i) with (base + S i) by lia. by apply H.
Qed.

Lemma numbered_In n cs i c : (i, c) ∈ numbered n cs → n ≤ i ∧ cs !! (i - n) = Some c.
Proof. intros (j & x & [= -> ->] & Hj)%elem_of_lookup_imap_1. split; [lia|]. by replace (n + j - n) with j by lia. Qed.

(** The channels of a list of positions *)
Lemma children_channels heap cs rest l : (∀ e, e ∈ l → e ∈ numbered 0 cs) →
  concat (map (λ i, match (heap ++ map Channel cs ++ rest) !! i with Some (Channel c) => [c] | _ => [] end)
    (map (Nat.add (length heap)) (map fst l))) = map snd l.
Proof.
  induction l as [|[i c] l IH]; intros Hl; cbn [map concat fst snd]; [done|].
  destruct (numbered_In 0 cs i c) as [_ Hc]; [apply Hl; by left|]. rewrite Nat.sub_0_r in Hc.
  destruct (heap_channels heap cs rest i) as (c' & Hc' & ->); [by eapply lookup_lt_Some|]. rewrite Hc in Hc'. injection Hc' as ->.
  cbn [app]. f_equal. apply IH. intros e He. apply Hl. by right.
Qed.

(** The table shows every channel of the server's answer exactly once: in
    order, or in the tag mode below the row of its tag. *)
Theorem rows_partition items tag heap0 h l : setChannelFormat items tag heap0 = Some (h, l) →
  ∃ cs, map_opt with_meta items = Some cs ∧
    (if tag then concat (map (row_channels h) l) ≡ₚ cs else concat (map (row_channels h) l) = cs).
Proof.
  unfold setChannelFormat. destruct (map_opt with_meta items) as [cs|]; [|done]. intros H. exists cs. split; [done|]. destruct tag.
  - injection H as <- <-. pose proof (tag_rows_spec cs 0 []) as Hrows. cbn [app] in Hrows. change (group_rows []) with (@nil tag_row) in Hrows.
    rewrite Hrows. clear Hrows. set (P := numbered 0 cs). rewrite <- app_assoc.
    set (rows := map _ (group_rows P)).
    assert (Hsnd : map snd P = cs).
    { unfold P. generalize 0. induction cs as [|c cs' IH]; intros n; [done|]. rewrite numbered_cons. cbn [map snd]. by rewrite IH. }
    rewrite (map_seq_lookup _ (λ r, map snd (with_tag (t_tag r) P)) _ rows).
    + unfold rows. rewrite map_map. cbn [t_tag]. unfold group_rows. rewrite map_map.
      rewrite (map_ext _ (λ t, map snd (with_tag t P))) by (intros t; by rewrite group_tag).
      rewrite <- (map_map (λ t, with_tag t P) (map snd)), <- concat_map. transitivity (map snd P); [apply Permutation_map|by rewrite Hsnd].
      unfold with_tag. apply (boxes_perm (λ e : nat * chan, c_tag e.2)); [apply uniq_NoDup|]. intros e He.
      apply elem_of_uniq. by apply (list_elem_of_fmap_2 (λ e : nat * chan, c_tag e.2)).
    + intros i r Hr. unfold row_channels. rewrite app_assoc, lookup_app_r by lia.
      replace (length (heap0 ++ map Channel cs) + i - length (heap0 ++ map Channel cs)) with i by lia.
      change (map Tag) with (fmap (M:=list) Tag). rewrite list_lookup_fmap, Hr. cbn [fmap option_fmap option_map].
      unfold rows in Hr. change (map ?f) with (fmap (M:=list) f) in Hr. rewrite list_lookup_fmap in Hr.
      destruct (group_rows P !! i) as [r0|] eqn:E; [|done]. injection Hr as <-. cbn [t_tag t_children].
      apply list_elem_of_lookup_2 in E. unfold group_rows in E. apply list_elem_of_fmap in E as (t & -> & _).
      rewrite group_tag, group_children, <- app_assoc. apply children_channels. intros e He%list_elem_of_In. unfold with_tag in He.
      apply filter_In in He as [He _]. by apply list_elem_of_In.
  - injection H as <- <-. rewrite (map_seq_lookup _ (λ c, [c]) _ cs).
    + clear. induction cs as [|c cs IH]; cbn [map concat app]; [done|]. by rewrite IH.
    + intros i c Hc. unfold row_channels. destruct (heap_channels heap0 cs [] i) as (c' & Hc' & Hh); [by eapply lookup_lt_Some|].
      rewrite app_nil_r in Hh. rewrite Hh. congruence.
Qed.

(** ** Only the last request counts *)

Definition asks (e : event) : bool :=
  match e with
  | PageChange _ | PageSizeChange _ | SortChange _ | TagModeChange _ | StatusChange _ | TabChange _ => true
  | _ => false
  end.

Ltac hooks :=
  cbn [set_list set_busy set_query set_counts set_form set_requests heap channels loading searching activePage pageSize idSort enableTagMode
       activeTypeKey statusFilter typeCounts channelCount requestCounter formValues awaited q_page q_size q_sort q_tag q_type q_status].
Tactic Notation "hooks" "in" hyp(H) :=
  cbn [set_list set_busy set_query set_counts set_form set_requests heap channels loading searching activePage pageSize idSort enableTagMode
       activeTypeKey statusFilter typeCounts channelCount requestCounter formValues awaited q_page q_size q_sort q_tag q_type q_status] in H.

Section Loads.
(** What the server answers to each request for the list; the settings of its
    channels can be read. *)
Context (server : query → list chan * Z * option (list (Z * Z))).
Context (Hserver : ∀ q, is_Some (map_opt with_meta (server q).1.1)).

Definition answer (q : query) : reply := Items (server q).1.1 (server q).1.2 (server q).2.

(** Runs in which the list is loaded, with an empty search form; the answers come
    in any order. *)
Inductive loads : hook → Prop :=
| loads_mount getItem : loads (mount getItem)
| loads_ask e s s' : asks e = true → handle e s = Some s' → loads s → loads s'
| loads_answer i reqId q after s s' :
    awaited s !! i = Some (LoadReq reqId q after) → handle (Answer i (answer q)) s = Some s' → loads s → loads s'.

(** The list is the server's answer for the current page and filters. *)
Definition shows_current (s : hook) : Prop :=
  let '(items, total, _) := server (current_query s) in
  (∃ h0, setChannelFormat items (enableTagMode s) h0 = Some (heap s, channels s)) ∧ channelCount s = total.

Definition load_ids (rs : list request) : list nat := omap (λ rq, match rq with LoadReq n _ _ => Some n | _ => None end) rs.

Record linv (s : hook) : Prop := LInv {
  li_form : form_empty (formValues s) = true;
  li_plain : Forall (λ rq, match rq with LoadReq n q after => n ≤ requestCounter s ∧ after = [] ∧ (n = requestCounter s → q = current_query s)
                                    | _ => False end) (awaited s);
  li_ids : NoDup (load_ids (awaited s));
  li_last : if loading s then requestCounter s ∈ load_ids (awaited s) else shows_current s }.

Lemma query_eta q : Query (q_page q) (q_size q) (q_sort q) (q_tag q) (q_type q) (q_status q) = q.
Proof. by destruct q. Qed.

Lemma linv_issue q s : form_empty (formValues s) = true →
  Forall (λ rq, match rq with LoadReq n q after => n ≤ requestCounter s ∧ after = [] | _ => False end) (awaited s) →
  NoDup (load_ids (awaited s)) → linv (issue_load q [] (set_query q s)).
Proof.
  intros Hf Hp Hids. unfold issue_load. split; hooks; [done| | |].
  - apply Forall_app. split.
    + eapply Forall_impl; [exact Hp|]. intros [n q' after|?|?|?|?|?|?]; try done. intros [Hn Ha]. split; [lia|]. split; [done|]. lia.
    + constructor; [|constructor]. split; [done|]. split; [done|]. intros _. unfold current_query. hooks. by rewrite query_eta.
  - unfold load_ids. rewrite omap_app. cbn [omap list_omap]. apply NoDup_app. split; [done|]. split; [|apply NoDup_singleton].
    intros n Hn ->%list_elem_of_singleton. apply list_elem_of_omap in Hn as (rq & Hrq & E). rewrite Forall_forall in Hp. specialize (Hp _ Hrq).
    destruct rq; try done. injection E as ->. lia.
  - unfold load_ids. rewrite omap_app. cbn [omap list_omap]. apply elem_of_app. right. by apply list_elem_of_singleton.
Qed.

Lemma linv_asks e s s' : asks e = true → handle e s = Some s' → linv s → linv s'.
Proof.
  intros Ha Hh [Hf Hp Hids _].
  assert (Hp' : Forall (λ rq, match rq with LoadReq n q after => n ≤ requestCounter s ∧ after = [] | _ => False end) (awaited s)).
  { eapply Forall_impl; [exact Hp|]. intros [| | | | | |]; try done. tauto. }
  assert (Hload : ∀ q, load_or_search q (set_query q s) = issue_load q [] (set_query q s) ∧ loadChannels q [] (set_query q s) = issue_load q [] (set_query q s)).
  { intros q. unfold load_or_search, loadChannels. hooks. by rewrite Hf. }
  destruct e; try done; cbn [handle] in Hh; try (case_match; [done|]); injection Hh as <-;
    unfold handlePageChange, handlePageSizeChange, sort_change, tag_mode_change, status_change, handleTabChange; cbv zeta;
    rewrite ?(proj1 (Hload _)), ?(proj2 (Hload _)); by apply linv_issue.
Qed.

Lemma load_ids_delete rs i n q after : rs !! i = Some (LoadReq n q after) → NoDup (load_ids rs) →
  NoDup (load_ids (delete i rs)) ∧ ∀ m, m ∈ load_ids (delete i rs) ↔ m ∈ load_ids rs ∧ m ≠ n.
Proof.
  intros Hi Hnd. apply list_elem_of_split_length in Hi as (l1 & l2 & -> & ->). rewrite delete_middle. unfold load_ids in *.
  rewrite omap_app in Hnd |- *. cbn [omap list_omap] in Hnd. rewrite <- Permutation_middle in Hnd. apply NoDup_cons in Hnd as [Hni Hnd].
  split; [done|]. intros m. rewrite omap_app. cbn [omap list_omap]. rewrite !elem_of_app, elem_of_cons.
  rewrite elem_of_app in Hni. naive_solver.
Qed.

Lemma linv_answer i reqId q after s s' :
  awaited s !! i = Some (LoadReq reqId q after) → handle (Answer i (answer q)) s = Some s' → linv s → linv s'.
Proof.
  intros Hi Hh [Hf Hp Hids Hl]. cbn [handle] in Hh. rewrite Hi in Hh. injection Hh as <-. cbn [on_reply].
  destruct (load_ids_delete _ _ _ _ _ Hi Hids) as [Hids' Hin].
  pose proof (proj1 (Forall_forall _ _) Hp _ (list_elem_of_lookup_2 _ _ _ Hi)) as (Hle & -> & Hq). cbn beta in *.
  assert (Hpd : Forall (λ rq, match rq with LoadReq n q after => n ≤ requestCounter s ∧ after = [] ∧ (n = requestCounter s → q = current_query s)
                                    | _ => False end) (delete i (awaited s))).
  { by apply Forall_delete. }
  unfold on_load. hooks. destruct (Nat.eqb_spec reqId (requestCounter s)) as [->|Hne]; cbn [negb].
  - specialize (Hq eq_refl). subst q. unfold answer. destruct (Hserver (current_query s)) as [cs Hcs].
    destruct (setChannelFormat _ _ _) as [[h l]|] eqn:Ef; [|by unfold setChannelFormat in Ef; rewrite Hcs in Ef; destruct (q_tag _)].
    cbn [run_conts fold_left]. split; hooks; try done. unfold shows_current, current_query. hooks.
    destruct (server _) as [[items total] counts]. cbn [fst snd] in Ef. split; [by exists (heap s)|done].
  - cbn [run_conts fold_left]. split; hooks; try done. destruct (loading s); [|exact Hl]. apply Hin. split; [done|congruence].
Qed.

(** C14. However the pages, filters and sort order are changed and in whatever
    order the server's answers arrive: when the table is not loading, it shows the
    server's answer for the current page and filters; and it is not loading when
    no answer is outstanding. *)
Theorem last_load_shown s : loads s → (awaited s = [] → loading s = false) ∧ (loading s = false → shows_current s).
Proof.
  intros H. assert (Hi : linv s).
  { induction H as [getItem|e s s' Ha Hh _ IH|i reqId q after s s' Hi Hh _ IH]; [|by eapply linv_asks|by eapply linv_answer].
    unfold mount. cbv zeta. unfold loadChannels. hooks. apply linv_issue; [done|constructor|constructor]. }
  destruct Hi as [_ _ _ Hl]. split.
  - intros E. rewrite E in Hl. destruct (loading s); [|done]. by apply elem_of_nil in Hl.
  - intros E. by rewrite E in Hl.
Qed.
End Loads.

(** ** Changes in place *)

(** The channels a list of rows leads to *)
Definition row_refs (h : list obj) (ref : nat) : list nat :=
  match h !! ref with Some (Tag r) => t_children r | _ => [ref] end.
Definition reach (h : list obj) (l : list nat) : list nat := concat (map (row_refs h) l).

(** [h'] is [h] with [f] applied to the channels with the id among [refs]. *)
Definition updated_at (id : Z) (f : chan → chan) (refs : list nat) (h h' : list obj) : Prop :=
  ∀ ref, h' !! ref = match h !! ref with
                     | Some (Channel c) => Some (Channel (if bool_decide (ref ∈ refs) && (c_id c =? id)%Z then f c else c))
                     | o => o
                     end.

Section Update.
Context (id : Z) (f : chan → chan) (Hid : ∀ c, c_id (f c) = c_id c) (Hidem : ∀ c, f (f c) = f c).

Lemma updated_refl h : updated_at id f [] h h.
Proof using. intros ref. destruct (h !! ref) as [[c|r]|]; [|done..]. by rewrite bool_decide_eq_false_2 by apply not_elem_of_nil. Qed.

Lemma updated_rows r1 h h' l : updated_at id f r1 h h' → reach h' l = reach h l.
Proof using.
  intros H. unfold reach. f_equal. apply map_ext. intros ref. unfold row_refs. rewrite (H ref). by destruct (h !! ref) as [[c|r]|].
Qed.

Lemma updated_step r1 h h' b ref : updated_at id f r1 h h' → (∀ r, h !! ref ≠ Some (Tag r)) →
  updated_at id f (r1 ++ [ref]) h (update_ref id f (h', b) ref).1.
Proof using Hid Hidem.
  intros H Hr ref'. unfold update_ref. cbn [fst]. rewrite (H ref).
  assert (Hin : ∀ x, x ∈ r1 ++ [ref] ↔ x ∈ r1 ∨ x = ref) by (intros x; by rewrite elem_of_app, list_elem_of_singleton).
  assert (Hoff : ref' ≠ ref → h' !! ref' = match h !! ref' with
    | Some (Channel c) => Some (Channel (if bool_decide (ref' ∈ r1 ++ [ref]) && (c_id c =? id)%Z then f c else c)) | o => o end).
  { intros Hne. rewrite (H ref'). destruct (h !! ref') as [[c|r]|]; try done.
    by rewrite (bool_decide_ext (ref' ∈ r1 ++ [ref]) (ref' ∈ r1)) by (rewrite Hin; naive_solver). }
  destruct (decide (ref' = ref)) as [->|Hne].
  - destruct (h !! ref) as [[c|r]|] eqn:Er; [|by destruct (Hr r)|cbn [fst]; by rewrite (H ref), Er].
    clear Hoff. rewrite (bool_decide_eq_true_2 (ref ∈ r1 ++ [ref])) by (apply Hin; by right). cbn [andb].
    set (c' := if bool_decide (ref ∈ r1) && (c_id c =? id)%Z then f c else c).
    assert (Hc' : c_id c' = c_id c) by (unfold c'; case_match; [apply Hid|done]). rewrite Hc'.
    destruct (c_id c =? id)%Z eqn:Ei.
    + cbn [fst]. rewrite list_lookup_insert_eq by (eapply lookup_lt_Some; by rewrite (H ref), Er). unfold c'. rewrite andb_true_r. by case_match; rewrite ?Hidem.
    + cbn [fst]. rewrite (H ref), Er, Ei, andb_false_r. done.
  - rewrite <- Hoff by done. destruct (h !! ref) as [[c|r]|]; [|by destruct (Hr r)|done].
    destruct (c_id _ =? id)%Z; cbn [fst]; [by rewrite list_lookup_insert_ne|done].
Qed.

Lemma updated_refs r1 h h' b refs : updated_at id f r1 h h' → (∀ ref r, ref ∈ refs → h !! ref ≠ Some (Tag r)) →
  updated_at id f (r1 ++ refs) h (fold_left (update_ref id f) refs (h', b)).1.
Proof using Hid Hidem.
  revert r1 h' b. induction refs as [|ref refs IH]; intros r1 h' b H Hr; cbn [fold_left]; [by rewrite app_nil_r|].
  destruct (update_ref id f (h', b) ref) as [h1 b1] eqn:E.
  pose proof (updated_step r1 h h' b ref H) as Hs. rewrite E in Hs. cbn [fst] in Hs.
  replace (r1 ++ ref :: refs) with ((r1 ++ [ref]) ++ refs) by by rewrite <- app_assoc. apply IH.
  - apply Hs. intros r. apply Hr. by left.
  - intros ref' r Hin. apply Hr. by right.
Qed.

(** An update by id changes exactly the channels with that id that the list
    leads to, rows of tags included, and no other object. *)
Theorem update_by_id_exact h l : (∀ r ref i, ref ∈ l → h !! ref = Some (Tag r) → i ∈ t_children r → ∀ r', h !! i ≠ Some (Tag r')) →
  updated_at id f (reach h l) h (fold_left (update_row id f) l (h, false)).1.
Proof using Hid Hidem.
  intros Hc. assert (Hgen : ∀ l r1 h' b, (∀ r ref i, ref ∈ l → h !! ref = Some (Tag r) → i ∈ t_children r → ∀ r', h !! i ≠ Some (Tag r')) →
    updated_at id f r1 h h' → updated_at id f (r1 ++ reach h l) h (fold_left (update_row id f) l (h', b)).1).
  { clear l Hc. induction l as [|ref l IH]; intros r1 h' b Hc H; cbn [fold_left]; [by rewrite app_nil_r|].
    unfold reach. cbn [map concat]. fold (reach h l). rewrite app_assoc.
    assert (Hstep : updated_at id f (r1 ++ row_refs h ref) h (update_row id f (h', b) ref).1).
    { unfold update_row. cbn [fst]. rewrite (H ref). unfold row_refs. destruct (h !! ref) as [[c|r]|] eqn:Er.
      - apply updated_step; [done|]. intros r. by rewrite Er.
      - apply updated_refs; [done|]. intros i r' Hi. eapply (Hc r ref); [by left|done|done].
      - apply updated_step; [done|]. intros r. by rewrite Er. }
    destruct (update_row id f (h', b) ref) as [h1 b1]. cbn [fst] in Hstep. apply IH; [|done]. intros r ref' i Hin. apply Hc. by right. }
  apply (Hgen l [] h false); [done|apply updated_refl].
Qed.
End Update.

(** ** Where the page shows something else *)

(** The answer to an operation on a channel brings back the list that was shown
    when the operation was started, whatever has been loaded since. *)
Theorem operation_restores_list a record captured q c i s s' : awaited s !! i = Some (ManageReq a record captured q) → a ≠ ADelete →
  handle (Answer i (Updated (Some c))) s = Some s' → channels s' = captured ∧ current_query s' = current_query s.
Proof.
  intros Hi Ha. cbn [handle]. rewrite Hi. intros [= <-]. cbn [on_reply]. unfold on_managed. rewrite bool_decide_eq_false_2 by done.
  by destruct a.
Qed.

(** After all keys of a channel have been enabled the list is loaded again, and
    then replaced by the one from before. *)
Theorem enable_all_shows_old record captured q i s s1 : form_empty (formValues s) = true →
  awaited s !! i = Some (ManageReq AEnableAll record captured q) → handle (Answer i (Updated None)) s = Some s1 →
  last (awaited s1) = Some (LoadReq (requestCounter s1) q [ShowList captured]) ∧
  ∀ j items total counts s2, awaited s1 !! j = Some (LoadReq (requestCounter s1) q [ShowList captured]) → is_Some (map_opt with_meta items) →
    handle (Answer j (Items items total counts)) s1 = Some s2 → channels s2 = captured.
Proof.
  intros Hf Hi. cbn [handle]. rewrite Hi. intros [= <-].
  unfold refresh, loadChannels. hooks. rewrite Hf. unfold issue_load. hooks. split; [by rewrite last_snoc|].
  intros j items total counts s2 Hj [cs Hcs]. rewrite Hj. intros [= <-]. cbn [on_reply]. unfold on_load. hooks. rewrite Nat.eqb_refl. cbn [negb].
  unfold setChannelFormat. rewrite Hcs. by destruct (q_tag q).
Qed.

(** A request for the list that fails leaves the table loading. *)
Theorem failed_load_keeps_loading reqId q i s s' : awaited s !! i = Some (LoadReq reqId q []) →
  handle (Answer i Failed) s = Some s' → loading s' = loading s.
Proof. intros Hi. cbn [handle]. rewrite Hi. intros [= <-]. cbn [on_reply]. unfold on_load. hooks. by destruct (negb _). Qed.

(** Submitting an empty search form loads the first page and leaves the number of
    the page as it is. *)
Theorem empty_search_keeps_page s s' : form_empty (formValues s) = true → handle Submit s = Some s' →
  activePage s' = activePage s ∧ last (awaited s') = Some (LoadReq (S (requestCounter s)) (on_page 1 (current_query s)) [StopSearching]).
Proof.
  intros Hf. cbn [handle]. unfold searchChannels. hooks. rewrite Hf. unfold issue_load. intros [= <-]. hooks. split; [done|].
  by rewrite last_snoc.
Qed.

(** *** Concrete runs *)

Definition sample_chan (id : Z) (name tag group : jsstr) (prio : Z) (rt : num) : chan :=
  Chan id name 1 1 tag group prio 0 5 rt nzero (js "m") JNull None.

Definition names (s : hook) : list jsstr := map c_name (concat (map (row_channels (heap s)) (channels s))).
Definition run (es : list event) (s : hook) : option hook := fold_left (λ acc e, match acc with Some s => handle e s | None => None end) es (Some s).

Definition page_one : reply := Items [sample_chan 1 (js "one") [] (js "default") 0 nzero] 11 None.
Definition page_two : reply := Items [sample_chan 11 (js "eleven") [] (js "default") 0 nzero] 11 None.

(** An answer for the whole list that comes late replaces the result of a search
    that was asked for later: nothing is awaited, the form is not empty, and the
    channel shown is not the one searched for. *)
Theorem search_overtaken :
  option_map (λ s, (length (awaited s), form_empty (formValues s), names s))
    (run [TypeForm (Form (js "eleven") [] []); Submit; Answer 1 page_two; Answer 0 page_one] (mount (λ _, [])))
  = Some (0, false, [js "one"]).
Proof. by vm_compute. Qed.

(** While a status is being changed the administrator turns the page; the answer
    shows the first page under the number of the second. *)
Theorem operation_turns_page_back :
  option_map (λ s, (length (awaited s), activePage s, names s))
    (run [Answer 0 page_one; Manage ADisable 0 []; PageChange 2; Answer 1 page_two;
          Answer 0 (Updated (Some (sample_chan 1 (js "one") [] (js "default") 0 nzero)))] (mount (λ _, [])))
  = Some (0, 2%Z, [js "one"]).
Proof. by vm_compute. Qed.

(** The last channel of a page is deleted: the page stays, empty, although there
    are channels before it. *)
Theorem emptied_page_stays :
  option_map (λ s, (length (awaited s), activePage s, names s, channelCount s))
    (run [Answer 0 page_one; PageChange 2; Answer 0 page_two; BatchDelete [11%Z]; Answer 0 (Updated None); Answer 0 (Items [] 10 None)] (mount (λ _, [])))
  = Some (0, 2%Z, [], 10%Z).
Proof. by vm_compute. Qed.

(** A tag with one channel shows half of its response time. *)
Theorem single_response_halved : map t_response_time (tag_rows 0 [sample_chan 1 (js "a") (js "t") (js "g") 0 (num_of_Z 300)] []) = [num_of_Z 150].
Proof. by vm_compute. Qed.

(** A group whose name is part of another one is missing in the row of the tag. *)
Theorem contained_group_missing :
  map t_group (tag_rows 0 [sample_chan 1 (js "a") (js "t") (js "svip") 0 nzero; sample_chan 2 (js "b") (js "t") (js "vip") 0 nzero] []) = [js "svip"].
Proof. by vm_compute. Qed.

(** Priorities -1 and 5 below one tag are shown as 5. *)
Theorem minus_one_priority_hidden :
  map t_priority (tag_rows 0 [sample_chan 1 (js "a") (js "t") (js "g") (-1) nzero; sample_chan 2 (js "b") (js "t") (js "g") 5 nzero] []) = [Some 5%Z].
Proof. by vm_compute. Qed.

(** *** Witnesses *)

Lemma columns_survive_reload_witness : ∃ text, save_columns (handleColumnVisibilityChange (js "balance") false getDefaultColumnVisibility) = Some text ∧
  load_columns text = handleColumnVisibilityChange (js "balance") false getDefaultColumnVisibility.
Proof.
  apply columns_survive_reload. apply cols_change; [|apply cols_default]. apply (bool_decide_eq_true_1 _). by vm_compute.
Defined.

Definition sample_items : list chan :=
  [sample_chan 1 (js "a") (js "x") (js "g") 0 nzero; sample_chan 2 (js "b") (js "y") (js "g") 0 nzero; sample_chan 3 (js "c") (js "x") (js "g") 0 nzero].
Lemma rows_partition_witness : ∃ h l cs, setChannelFormat sample_items true [] = Some (h, l) ∧ length l = 2 ∧
  map_opt with_meta sample_items = Some cs ∧ concat (map (row_channels h) l) ≡ₚ cs.
Proof.
  destruct (setChannelFormat sample_items true []) as [[h l]|] eqn:E; [|by vm_compute in E].
  destruct (rows_partition sample_items true [] h l E) as (cs & H1 & H2). exists h, l, cs.
  split; [done|]. split; [vm_compute in E; by injection E as <- <-|]. split; [exact H1|exact H2].
Defined.

Definition sample_server (q : query) : list chan * Z * option (list (Z * Z)) := ([sample_chan (q_page q) (js "a") [] (js "g") 0 nzero], 11%Z, None).
Definition sample_query : query := Query 1 10 false false (js "all") (js "all").
Lemma last_load_shown_witness : ∃ s, loads sample_server s ∧ awaited s = [] ∧ shows_current sample_server s.
Proof.
  destruct (handle (Answer 0 (answer sample_server sample_query)) (mount (λ _, []))) as [s|] eqn:E; [|by vm_compute in E]. exists s.
  assert (Hl : loads sample_server s).
  { apply (loads_answer _ 0 1 sample_query [] (mount (λ _, [])) s); [by vm_compute|exact E|apply loads_mount]. }
  assert (Ha : awaited s = []) by (vm_compute in E; by injection E as <-).
  destruct (last_load_shown sample_server ltac:(intros q; eexists; cbn [sample_server fst]; reflexivity) s Hl) as [H1 H2].
  split; [exact Hl|]. split; [exact Ha|]. exact (H2 (H1 Ha)).
Defined.

Lemma update_by_id_exact_witness : ∃ h l, setChannelFormat sample_items true [] = Some (h, l) ∧
  updated_at 2 (set_balance (num_of_Z 7)) (reach h l) h (fold_left (update_row 2 (set_balance (num_of_Z 7))) l (h, false)).1.
Proof.
  destruct (setChannelFormat sample_items true []) as [[h l]|] eqn:E; [|by vm_compute in E]. exists h, l. split; [done|].
  apply (update_by_id_exact 2 (set_balance (num_of_Z 7))); [done|done|].
  vm_compute in E. injection E as <- <-. intros r ref i Href Hr Hi r'.
  repeat (apply elem_of_cons in Href as [->|Href]; [injection Hr as <-; repeat (apply elem_of_cons in Hi as [->|Hi]; [done|]); by apply elem_of_nil in Hi|]).
  by apply elem_of_nil in Href.
Defined.
