(* ===== verification/ChannelTests.v ===== *)
(** * Testing the models of a channel

    The tests of [web/src/hooks/channels/useChannelsData.jsx] ([testChannel],
    [batchTestModels], [handleCloseModal]) and the dialog
    [web/src/components/table/channels/modals/ModelTestModal.jsx], on top of the
    table of [Channels].

    A batch is a loop that waits for up to five requests at a time; its requests,
    single tests, the table and the closing of the dialog interleave in any order.
    A loop and a single test carry what their handler closed over: the list of
    channels and whether a batch was running in the render they were started
    from.  The timer between two batches and the one before the summary are
    events.  Times of day ([timestamp], [test_time]) are left out;
    [stopBatchTesting] and [clearTestResults] are handed to no component. *)

From S2P Require Import Prelude JsString JsNumber Json JsObject ChannelForms Channels.

Record test_result := Result { success : bool; message : jsstr; time : num; errorCode : option jsstr }.

(** The arguments and the closure of a test *)
Record closure := Closure { c_channel : Z; c_endpoint : jsstr; c_stream : bool; c_batching : bool; c_captured : list nat }.
Record loop := Loop { l_run : closure; l_models : list jsstr; l_next : nat; l_waiting : list jsstr }.

Record dialog := Dialog {
  showModelTestModal : bool; currentTestChannel : option (Z * jsstr); modelSearchKeyword : jsstr; selectedModelKeys : list jsstr;
  modelTablePage : Z; selectedEndpointType : jsstr; isStreamTest : bool; allSelecting : bool
}.

(** [urls]: the requests sent so far *)
Record tests := Tests {
  table : hook; results : list (jsstr * test_result); testing : list jsstr; urls : list jsstr;
  isBatchTesting : bool; shouldStop : bool; loops : list loop; singles : list (closure * jsstr); dlg : dialog
}.

Definition set_table (tb : hook) (st : tests) : tests :=
  Tests tb (results st) (testing st) (urls st) (isBatchTesting st) (shouldStop st) (loops st) (singles st) (dlg st).
Definition set_results (rs : list (jsstr * test_result)) (st : tests) : tests :=
  Tests (table st) rs (testing st) (urls st) (isBatchTesting st) (shouldStop st) (loops st) (singles st) (dlg st).
Definition set_testing (te : list jsstr) (st : tests) : tests :=
  Tests (table st) (results st) te (urls st) (isBatchTesting st) (shouldStop st) (loops st) (singles st) (dlg st).
Definition set_batching (b stop : bool) (st : tests) : tests :=
  Tests (table st) (results st) (testing st) (urls st) b stop (loops st) (singles st) (dlg st).
Definition set_loops (ls : list loop) (st : tests) : tests :=
  Tests (table st) (results st) (testing st) (urls st) (isBatchTesting st) (shouldStop st) ls (singles st) (dlg st).
Definition set_singles (ss : list (closure * jsstr)) (st : tests) : tests :=
  Tests (table st) (results st) (testing st) (urls st) (isBatchTesting st) (shouldStop st) (loops st) ss (dlg st).
Definition set_dlg (d : dialog) (st : tests) : tests :=
  Tests (table st) (results st) (testing st) (urls st) (isBatchTesting st) (shouldStop st) (loops st) (singles st) d.

Definition set_keys (keys : list jsstr) (selecting : bool) (d : dialog) : dialog :=
  Dialog (showModelTestModal d) (currentTestChannel d) (modelSearchKeyword d) keys (modelTablePage d) (selectedEndpointType d) (isStreamTest d) selecting.
Definition set_stream (ep : jsstr) (b : bool) (d : dialog) : dialog :=
  Dialog (showModelTestModal d) (currentTestChannel d) (modelSearchKeyword d) (selectedModelKeys d) (modelTablePage d) ep b (allSelecting d).
Definition set_view (kw : jsstr) (page : Z) (d : dialog) : dialog :=
  Dialog (showModelTestModal d) (currentTestChannel d) kw (selectedModelKeys d) page (selectedEndpointType d) (isStreamTest d) (allSelecting d).
Definition open_dialog (id : Z) (models : jsstr) (d : dialog) : dialog :=
  Dialog true (Some (id, models)) (modelSearchKeyword d) (selectedModelKeys d) (modelTablePage d) (selectedEndpointType d) (isStreamTest d) (allSelecting d).

Definition testKey (id : Z) (model : jsstr) : jsstr := string_of_Z id ++ js "-" ++ model.

(** The answer to a test *)
Inductive test_reply := Tested (ok : bool) (msg : jsstr) (t : num) (code : jsstr) | TestFailed (msg : jsstr).

Section Tests.
Context (lower : jsstr → jsstr) (t : jsstr → jsstr).

Definition test_url (c : closure) (model : jsstr) : jsstr :=
  js "/api/channel/test/" ++ string_of_Z (c_channel c) ++ js "?model=" ++ model ++
  (if is_empty (c_endpoint c) then [] else js "&endpoint_type=" ++ c_endpoint c) ++ (if c_stream c then js "&stream=true" else []).

(** [testChannel] up to its request, and whether it is sent *)
Definition stopped (c : closure) (st : tests) : bool := shouldStop st && c_batching c.
Definition begin_test (c : closure) (model : jsstr) (st : tests) : tests :=
  Tests (table st) (results st) (if existsb (streq model) (testing st) then testing st else testing st ++ [model])
    (urls st ++ [test_url c model]) (isBatchTesting st) (shouldStop st) (loops st) (singles st) (dlg st).

(** [testChannel] from the answer on *)
Definition record_test (c : closure) (model : jsstr) (r : test_reply) (st : tests) : tests :=
  let key := testKey (c_channel c) model in
  match r with
  | Tested ok msg tm code =>
    if stopped c st then st else
    let st' := set_results (assoc_set (results st) key (Result ok msg tm (if is_empty code then None else Some code))) st in
    if ok then set_table (updateChannelProperty (c_channel c) (set_response_time (nmul tm (num_of_Z 1000))) (c_captured c) (table st)) st'
    else st'
  | TestFailed msg =>
    set_results (assoc_set (results st) key (Result false (if is_empty msg then t (js "网络错误") else msg) nzero None)) st
  end.
Definition finish_test (c : closure) (model : jsstr) (r : test_reply) (st : tests) : tests :=
  let st' := record_test c model r st in set_testing (List.filter (λ m, negb (streq m model)) (testing st')) st'.

Definition testChannel (c : closure) (model : jsstr) (st : tests) : tests :=
  if stopped c st then st else let st' := begin_test c model st in set_singles (singles st' ++ [(c, model)]) st'.

(** *** Batches *)

Definition concurrencyLimit : nat := 5.

Definition filteredModels (models keyword : jsstr) : list jsstr :=
  List.filter (λ m, includes (lower keyword) (lower m)) (split (js ",") models).

Definition clear_results (id : Z) (models : list jsstr) (rs : list (jsstr * test_result)) : list (jsstr * test_result) :=
  fold_left (λ acc m, assoc_delete acc (testKey id m)) models rs.

Definition end_loop (k : nat) (st : tests) : tests := set_batching false (shouldStop st) (set_loops (delete k (loops st)) st).

(** One round of the loop: unless it is stopped, the requests of a batch are sent. *)
Definition next_round (k : nat) (l : loop) (st : tests) : tests :=
  if shouldStop st then end_loop k st else
  let batch := take concurrencyLimit (drop (l_next l) (l_models l)) in
  let st' := fold_left (λ st m, begin_test (l_run l) m st) batch st in
  set_loops (<[k := Loop (l_run l) (l_models l) (l_next l + concurrencyLimit) batch]> (loops st')) st'.

Definition closure_now (id : Z) (st : tests) : closure :=
  Closure id (selectedEndpointType (dlg st)) (isStreamTest (dlg st)) (isBatchTesting st) (channels (table st)).

Definition batchTestModels (st : tests) : option tests :=
  match currentTestChannel (dlg st) with
  | None => None
  | Some (id, text) =>
    if is_empty text then None else
    let models := filteredModels text (modelSearchKeyword (dlg st)) in
    if length models =? 0 then None else
    let l := Loop (closure_now id st) models 0 [] in
    Some (next_round (length (loops st)) l
      (set_results (clear_results id models (results st)) (set_batching true false (set_loops (loops st ++ [l]) st))))
  end.

Definition count_results (id : Z) (models : list jsstr) (rs : list (jsstr * test_result)) : nat * nat :=
  fold_left (λ acc m, match assoc_get rs (testKey id m) with
                      | Some r => if success r then (S acc.1, acc.2) else (acc.1, S acc.2)
                      | None => (acc.1, S acc.2)
                      end) models (0, 0).

(** The timer of a loop that has no request under way: the next round, or the
    end with its summary. *)
Definition on_timer (k : nat) (l : loop) (st : tests) : tests * option (nat * nat) :=
  if l_next l <? length (l_models l) then (next_round k l st, None)
  else (end_loop k st, Some (count_results (c_channel (l_run l)) (l_models l) (results st))).

(** An answer to the [j]-th request under way; after the last one the loop ends
    if it was stopped. *)
Definition loop_reply (k j : nat) (r : test_reply) (st : tests) : option tests :=
  match loops st !! k with
  | None => None
  | Some l =>
    match l_waiting l !! j with
    | None => None
    | Some m =>
      let rest := delete j (l_waiting l) in
      let st' := finish_test (l_run l) m r st in
      let st'' := set_loops (<[k := Loop (l_run l) (l_models l) (l_next l) rest]> (loops st')) st' in
      Some (if (length rest =? 0) && shouldStop st'' then end_loop k st'' else st'')
    end
  end.

Definition handleCloseModal (st : tests) : tests :=
  set_dlg (Dialog false (currentTestChannel (dlg st)) [] [] 1 [] false (allSelecting (dlg st)))
    (set_testing [] (set_batching false (if isBatchTesting st then true else shouldStop st) st)).

(** *** The dialog *)

Definition streamToggleDisabled (endpoint : jsstr) : bool :=
  existsb (streq endpoint) [js "embeddings"; js "image-generation"; js "jina-rerank"; js "openai-response-compact"].
(** The effect that switches streaming off *)
Definition stream_effect (d : dialog) : dialog :=
  if streamToggleDisabled (selectedEndpointType d) && isStreamTest d then set_stream (selectedEndpointType d) false d else d.

Definition dialog_models (d : dialog) : list jsstr :=
  match currentTestChannel d with Some (_, models) => filteredModels models (modelSearchKeyword d) | None => [] end.

Definition handleSelectSuccess (rs : list (jsstr * test_result)) (d : dialog) : dialog :=
  match currentTestChannel d with
  | None => d
  | Some (id, _) =>
    set_keys (List.filter (λ m, match assoc_get rs (testKey id m) with Some r => success r | None => false end) (dialog_models d))
      (allSelecting d) d
  end.

Definition MODEL_TABLE_PAGE_SIZE : Z := 10.
Definition dataSource (d : dialog) : list jsstr :=
  let start := ((modelTablePage d - 1) * MODEL_TABLE_PAGE_SIZE)%Z in
  slice_list (dialog_models d) start (start + MODEL_TABLE_PAGE_SIZE).

Definition rows_change (keys : list jsstr) (d : dialog) : dialog :=
  if allSelecting d then set_keys (selectedModelKeys d) false d else set_keys keys false d.
Definition rows_select_all (checked : bool) (d : dialog) : dialog := set_keys (if checked then dialog_models d else []) true d.

(** What a row of the dialog shows *)
Inductive model_status := Testing | NotStarted | Passed (seconds : num) | NotPassed (msg : jsstr) (price_button : bool).
Definition status_cell (id : Z) (st : tests) (model : jsstr) : model_status :=
  if existsb (streq model) (testing st) then Testing else
  match assoc_get (results st) (testKey id model) with
  | None => NotStarted
  | Some r =>
    if success r then Passed (time r)
    else NotPassed (message r) (negb (is_empty (message r)) && bool_decide (errorCode r = Some (js "model_price_error")))
  end.

Inductive test_event :=
| OnTable (e : event) | TestRow (id : Z) | OpenDialog (id : Z) (models : jsstr) | CloseDialog | Batch | TestOne (model : jsstr)
| LoopReply (k j : nat) (r : test_reply) | SingleReply (k : nat) (r : test_reply) | Timer (k : nat)
| ChooseEndpoint (e : jsstr) | ChooseStream (b : bool) | SearchModels (kw : jsstr) | ModelPage (page : Z)
| SelectRows (keys : list jsstr) | SelectAllRows (checked : bool) | SelectSuccess.

Definition in_dialog (f : dialog → dialog) (st : tests) : option tests :=
  if showModelTestModal (dlg st) then Some (set_dlg (stream_effect (f (dlg st))) st) else None.

Definition handle_test (e : test_event) (st : tests) : option tests :=
  match e with
  | OnTable e => match handle e (table st) with Some tb => Some (set_table tb st) | None => None end
  | TestRow id => Some (testChannel (Closure id [] false (isBatchTesting st) (channels (table st))) [] st)
  | OpenDialog id models => if showModelTestModal (dlg st) then None else Some (set_dlg (stream_effect (open_dialog id models (dlg st))) st)
  | CloseDialog => if showModelTestModal (dlg st) then Some (handleCloseModal st) else None
  | Batch => if showModelTestModal (dlg st) && negb (isBatchTesting st) then batchTestModels st else None
  | TestOne model =>
    match currentTestChannel (dlg st) with
    | Some (id, _) =>
      if showModelTestModal (dlg st) && existsb (streq model) (dataSource (dlg st)) then Some (testChannel (closure_now id st) model st) else None
    | None => None
    end
  | LoopReply k j r => loop_reply k j r st
  | SingleReply k r =>
    match singles st !! k with Some (c, m) => Some (finish_test c m r (set_singles (delete k (singles st)) st)) | None => None end
  | Timer k =>
    match loops st !! k with
    | Some l => if length (l_waiting l) =? 0 then Some (on_timer k l st).1 else None
    | None => None
    end
  | ChooseEndpoint ep => in_dialog (λ d, set_stream ep (isStreamTest d) d) st
  | ChooseStream b =>
    if streamToggleDisabled (selectedEndpointType (dlg st)) then None else in_dialog (λ d, set_stream (selectedEndpointType d) b d) st
  | SearchModels kw => in_dialog (set_view kw 1) st
  | ModelPage page => in_dialog (λ d, set_view (modelSearchKeyword d) page d) st
  | SelectRows keys => in_dialog (rows_change keys) st
  | SelectAllRows checked => in_dialog (rows_select_all checked) st
  | SelectSuccess => in_dialog (handleSelectSuccess (results st)) st
  end.
End Tests.
