(* ===== verification/ChannelTestsTheorems.v ===== *)
(** * Testing the models of a channel: what holds of it

    What every state of the dialog keeps to; a batch that is not closed tests
    every model exactly once, five at a time, ends, and its summary counts real
    results; closing the dialog does not stop what was sent, and starting again
    revives the old batch. *)

From S2P Require Import Prelude JsString JsNumber Json JsObject ChannelForms Channels ChannelsTheorems ChannelTests.

Local Opaque js.

Ltac fields := cbn [table results testing urls isBatchTesting shouldStop loops singles dlg set_table set_results set_testing set_batching
  set_loops set_singles set_dlg l_run l_models l_next l_waiting c_channel c_endpoint c_stream c_batching c_captured fst snd] in *.

Section Tests.
Context (lower t : jsstr → jsstr).

Lemma begin_all c b st : ∃ te, fold_left (λ st m, begin_test c m st) b st =
  Tests (table st) (results st) te (urls st ++ map (test_url c) b) (isBatchTesting st) (shouldStop st) (loops st) (singles st) (dlg st).
Proof.
  revert st. induction b as [|m b IH]; intros st; cbn [fold_left map].
  - exists (testing st). rewrite app_nil_r. by destruct st.
  - destruct (IH (begin_test c m st)) as [te ->]. exists te. unfold begin_test. fields. by rewrite <- app_assoc.
Qed.

(** What the answer to a test changes *)
Lemma finish_kept c m r st : let st' := finish_test t c m r st in
  urls st' = urls st ∧ isBatchTesting st' = isBatchTesting st ∧ shouldStop st' = shouldStop st ∧ loops st' = loops st ∧
  singles st' = singles st ∧ dlg st' = dlg st.
Proof. unfold finish_test, record_test. destruct r; fields; [destruct (stopped c st); [done|destruct ok]|]; done. Qed.

Lemma finish_results c m r st k :
  is_Some (assoc_get (results st) k) → is_Some (assoc_get (results (finish_test t c m r st)) k).
Proof.
  unfold finish_test, record_test. intros H.
  destruct r; fields; [destruct (stopped c st); [done|destruct ok]|]; fields; rewrite assoc_get_set; by case_decide.
Qed.
Lemma finish_records c m r st : stopped c st = false →
  is_Some (assoc_get (results (finish_test t c m r st)) (testKey (c_channel c) m)).
Proof.
  unfold finish_test, record_test. intros H. rewrite H.
  destruct r; fields; [destruct ok|]; fields; rewrite assoc_get_set; rewrite decide_True by done; eauto.
Qed.

(** ** Every state *)

Inductive tests_reached (st0 : tests) : tests → Prop :=
| tests_start : tests_reached st0 st0
| tests_step e st st' : tests_reached st0 st → handle_test lower t e st = Some st' → tests_reached st0 st'.

Definition fresh (st : tests) : Prop :=
  loops st = [] ∧ singles st = [] ∧ isStreamTest (dlg st) = false.

Definition stream_allowed (c : closure) : Prop := c_stream c = true → streamToggleDisabled (c_endpoint c) = false.
Definition loop_ok (l : loop) : Prop :=
  stream_allowed (l_run l) ∧ c_batching (l_run l) = false ∧ length (l_waiting l) ≤ concurrencyLimit ∧ Forall (.∈ l_models l) (l_waiting l).
Definition dialog_ok (d : dialog) : Prop := isStreamTest d = true → streamToggleDisabled (selectedEndpointType d) = false.
Definition tests_ok (st : tests) : Prop :=
  dialog_ok (dlg st) ∧ Forall loop_ok (loops st) ∧ Forall (λ x, stream_allowed x.1) (singles st).

Lemma effect_ok d : dialog_ok (stream_effect d).
Proof.
  unfold dialog_ok, stream_effect. destruct (streamToggleDisabled (selectedEndpointType d)) eqn:E; cbn [andb]; [|done].
  destruct (isStreamTest d) eqn:E'; cbn; congruence.
Qed.

Lemma round_ok k l st : loop_ok l → tests_ok st → tests_ok (next_round k l st).
Proof.
  intros (Hs & Hb & _ & _) (Hd & Hl & Hsi). unfold next_round. destruct (shouldStop st).
  - unfold end_loop. split_and!; fields; [done|by apply Forall_delete|done].
  - destruct (begin_all (l_run l) (take concurrencyLimit (drop (l_next l) (l_models l))) st) as [te ->].
    split_and!; fields; [done| |done]. apply Forall_insert; [done|]. split_and!; fields; [done|done| |].
    + rewrite length_take. lia.
    + apply Forall_take, Forall_drop. by apply Forall_forall.
Qed.

Lemma single_ok c m st : stream_allowed c → tests_ok st → tests_ok (testChannel c m st).
Proof.
  intros Hc (Hd & Hl & Hs). unfold testChannel. destruct (stopped c st); [done|]. unfold begin_test.
  split_and!; fields; [done|done|]. apply Forall_app. by split; [|constructor].
Qed.

Lemma finish_ok c m r st : tests_ok st → tests_ok (finish_test t c m r st).
Proof. unfold tests_ok. by destruct (finish_kept c m r st) as (_ & _ & _ & -> & -> & ->). Qed.

Lemma reply_ok k j r st st' : loop_reply t k j r st = Some st' → tests_ok st → tests_ok st'.
Proof.
  unfold loop_reply. destruct (loops st !! k) as [l|] eqn:Hk; [|done]. destruct (l_waiting l !! j) as [m|] eqn:Hj; [|done].
  intros Hst Hok. apply (inj Some) in Hst. subst st'. pose proof (finish_ok (l_run l) m r st Hok) as (Hd & Hl & Hs).
  assert (Hlk : loop_ok l) by (destruct Hok as (_ & H & _); by eapply Forall_lookup_1 in H).
  destruct Hlk as (H1 & H2 & H3 & H4).
  assert (Hl' : loop_ok (Loop (l_run l) (l_models l) (l_next l) (delete j (l_waiting l)))).
  { split_and!; fields; [done|done| |by apply Forall_delete]. pose proof (lookup_lt_Some _ _ _ Hj).
    rewrite length_delete by eauto. lia. }
  destruct (_ && _); unfold end_loop, tests_ok; fields; split_and!; try done.
  - by apply Forall_delete, Forall_insert.
  - by apply Forall_insert.
Qed.

Lemma step_ok e st st' : handle_test lower t e st = Some st' → tests_ok st → tests_ok st'.
Proof.
  intros He Hok. pose proof Hok as (Hd & Hl & Hs).
  destruct e; cbn [handle_test] in He; unfold in_dialog in He; try (by eapply reply_ok);
    repeat (case_match; try done); try (apply (inj Some) in He; subst st');
    try (by split_and!; fields; [apply effect_ok|..]).
  - by split_and!; fields.
  - by apply single_ok.
  - by split_and!; fields.
  - unfold batchTestModels in He. apply andb_true_iff in H as [_ H%negb_true_iff].
    repeat (case_match; try done). apply (inj Some) in He. subst st'.
    match goal with |- context[next_round _ ?l _] => assert (loop_ok l) end.
    { split_and!; fields; [exact Hd|done|unfold concurrencyLimit; cbn; lia|done]. }
    apply round_ok; [done|]. split_and!; fields; [done| |done]. apply Forall_app. by split; [|constructor].
  - by apply single_ok.
  - apply finish_ok. split_and!; fields; [done|done|by apply Forall_delete].
  - unfold on_timer. case_match; fields; [apply round_ok; [by eapply Forall_lookup_1 in Hl|done]|].
    unfold end_loop. split_and!; fields; [done|by apply Forall_delete|done].
Qed.

(** C29. In every reachable state streaming is off where the endpoint does not
    allow it, in the dialog and in every request sent from it; no batch has more
    than five requests under way, all of its own models; and since a batch is
    started only while none is running, its requests never pass for stopped: every
    answer to one is recorded, even after the dialog was closed. *)
Theorem tests_invariant st0 st : fresh st0 → tests_reached st0 st →
  tests_ok st ∧
  ∀ k j r st' l m, loop_reply t k j r st = Some st' → loops st !! k = Some l → l_waiting l !! j = Some m →
    is_Some (assoc_get (results st') (testKey (c_channel (l_run l)) m)).
Proof.
  intros (H1 & H2 & H3) Hr.
  assert (Hok : tests_ok st).
  { induction Hr as [|e st st' _ IH He]; [|by eapply step_ok]. unfold tests_ok, dialog_ok. rewrite H1, H2, H3. done. }
  split; [done|]. intros k j r st' l m Hst Hk Hm. unfold loop_reply in Hst. rewrite Hk, Hm in Hst. apply (inj Some) in Hst. subst st'.
  assert (Hf : stopped (l_run l) st = false).
  { destruct Hok as (_ & Hl & _). eapply Forall_lookup_1 in Hl as (_ & Hb & _); [|done]. unfold stopped. rewrite Hb. apply andb_false_r. }
  pose proof (finish_records (l_run l) m r st Hf). by destruct (_ && _).
Qed.

(** ** A batch that is not closed *)

(** The requests an event sends beside the batch, and the events of the batch *)
Definition sent_by (e : test_event) (st : tests) : list jsstr :=
  match e with
  | TestRow id => [test_url (Closure id [] false (isBatchTesting st) (channels (table st))) []]
  | TestOne m => match currentTestChannel (dlg st) with Some (id, _) => [test_url (closure_now id st) m] | None => [] end
  | _ => []
  end.
Definition of_batch (e : test_event) : nat := match e with LoopReply _ _ _ | Timer _ => 1 | _ => 0 end.

(** The states of a batch on [models] from its start in [st0]: with the requests
    of other tests, and the number of its own answers and timers *)
Inductive during (st0 : tests) (c : closure) (models : list jsstr) : tests → list jsstr → nat → Prop :=
| during_start text st : currentTestChannel (dlg st0) = Some (c_channel c, text) → c = closure_now (c_channel c) st0 →
    models = filteredModels lower text (modelSearchKeyword (dlg st0)) → loops st0 = [] →
    handle_test lower t Batch st0 = Some st → during st0 c models st [] 0
| during_step e st others n st' : during st0 c models st others n → loops st ≠ [] → e ≠ CloseDialog →
    handle_test lower t e st = Some st' → during st0 c models st' (others ++ sent_by e st) (n + of_batch e).

Definition has_result (c : closure) (st : tests) (m : jsstr) : Prop := is_Some (assoc_get (results st) (testKey (c_channel c) m)).

Definition work_left (l : loop) : nat := S (2 * (length (l_models l) - l_next l) + length (l_waiting l)).

(** The batch at work *)
Definition at_work (u0 : list jsstr) (c : closure) (models : list jsstr) (others : list jsstr) (n : nat) (st : tests) : Prop :=
  ∃ l, loops st = [l] ∧ l_run l = c ∧ l_models l = models ∧ c_batching c = false ∧ isBatchTesting st = true ∧ shouldStop st = false ∧
    length (l_waiting l) ≤ concurrencyLimit ∧
    (∀ m, m ∈ take (l_next l) models → m ∈ l_waiting l ∨ has_result c st m) ∧
    urls st ≡ₚ u0 ++ others ++ map (test_url c) (take (l_next l) models) ∧
    n + work_left l ≤ S (2 * length models).
Definition done_with (u0 : list jsstr) (c : closure) (models : list jsstr) (others : list jsstr) (n : nat) (st : tests) : Prop :=
  loops st = [] ∧ isBatchTesting st = false ∧ (∀ m, m ∈ models → has_result c st m) ∧
  urls st ≡ₚ u0 ++ others ++ map (test_url c) models ∧ n ≤ S (2 * length models).

Lemma round_works u0 c models others n l st : l_run l = c → l_models l = models → loops st = [l] → c_batching c = false →
  isBatchTesting st = true → shouldStop st = false → length (l_waiting l) = 0 → l_next l < length models →
  (∀ m, m ∈ take (l_next l) models → has_result c st m) →
  urls st ≡ₚ u0 ++ others ++ map (test_url c) (take (l_next l) models) →
  n + S (2 * (length models - l_next l)) ≤ S (S (2 * length models)) →
  at_work u0 c models others n (next_round 0 l st).
Proof.
  intros Hc Hm Hl Hb Hi Hs Hw Hn Hr Hu Hk. unfold next_round. rewrite Hs, Hc, Hm.
  destruct (begin_all c (take concurrencyLimit (drop (l_next l) models)) st) as [te ->].
  exists (Loop c models (l_next l + concurrencyLimit) (take concurrencyLimit (drop (l_next l) models))).
  assert (Ht : take (l_next l + concurrencyLimit) models = take (l_next l) models ++ take concurrencyLimit (drop (l_next l) models))
    by by rewrite take_take_drop.
  split_and!; fields; try done.
  - by rewrite Hl.
  - rewrite length_take. lia.
  - intros m. rewrite Ht, elem_of_app. intros [H|H]; [right; by apply Hr|by left].
  - rewrite Hu, Ht, map_app. by rewrite !app_assoc.
  - unfold work_left. fields. rewrite length_take, length_drop. unfold concurrencyLimit. lia.
Qed.

Lemma cleared_results id models rs k : assoc_get (clear_results id models rs) k =
  if existsb (λ m, bool_decide (testKey id m = k)) models then None else assoc_get rs k.
Proof.
  unfold clear_results. revert rs. induction models as [|m models IH]; intros rs; cbn [fold_left existsb]; [done|].
  rewrite IH, assoc_get_delete. case_bool_decide; cbn [orb]; case_match; rewrite ?decide_True, ?decide_False by done; done.
Qed.

Lemma work_kept u0 c models others n st st' extra : at_work u0 c models others n st →
  loops st' = loops st → isBatchTesting st' = isBatchTesting st → shouldStop st' = shouldStop st →
  (∀ k, is_Some (assoc_get (results st) k) → is_Some (assoc_get (results st') k)) → urls st' = urls st ++ extra →
  at_work u0 c models (others ++ extra) (n + 0) st'.
Proof.
  intros (l & Hl & Hc & Hm & Hb & Hi & Hs & Hw & Hr & Hu & Hn) El Ei Es Er Eu. exists l.
  rewrite El, Ei, Es, Eu, Nat.add_0_r. split_and!; try done.
  - intros m Hin. destruct (Hr m Hin) as [H|H]; [by left|right; by apply Er].
  - rewrite Hu. by solve_Permutation.
Qed.

Lemma work_single u0 c models others n st c' m : at_work u0 c models others n st →
  at_work u0 c models (others ++ [test_url c' m]) (n + 0) (testChannel c' m st).
Proof.
  intros H. pose proof H as (_ & _ & _ & _ & _ & _ & Hs & _).
  eapply work_kept; [exact H|..]; unfold testChannel, stopped; rewrite Hs; done.
Qed.

Lemma work_reply u0 c models others n st k j r st' : at_work u0 c models others n st → loop_reply t k j r st = Some st' →
  at_work u0 c models (others ++ []) (n + 1) st'.
Proof.
  intros (l & Hl & Hc & Hm & Hb & Hi & Hs & Hw & Hr & Hu & Hn). unfold loop_reply. rewrite Hl.
  destruct k as [|k]; cbn [lookup list_lookup]; [|done]. destruct (l_waiting l !! j) as [m|] eqn:Hj; [|done].
  destruct (finish_kept (l_run l) m r st) as (Ku & Ki & Ks & Kl & _ & _). fields. rewrite Ks, Hs, andb_false_r, Kl, Hl, app_nil_r.
  intros Hst. apply (inj Some) in Hst. subst st'. pose proof (lookup_lt_Some _ _ _ Hj) as Hlt.
  exists (Loop (l_run l) (l_models l) (l_next l) (delete j (l_waiting l))). cbn [insert list_insert].
  split_and!; fields; try done; try congruence.
  - rewrite length_delete by eauto. lia.
  - intros m' Hin. unfold has_result. fields. destruct (Hr m' Hin) as [H|H]; [|right; by apply finish_results].
    destruct (decide (m' = m)) as [->|Hne].
    + right. rewrite <- Hc. apply finish_records. unfold stopped. by rewrite Hs.
    + left. rewrite (delete_Permutation _ _ _ Hj) in H. apply elem_of_cons in H as [->|H]; done.
  - unfold work_left in *. fields. rewrite length_delete by eauto. lia.
Qed.

Lemma work_timer u0 c models others n st k st' : at_work u0 c models others n st → handle_test lower t (Timer k) st = Some st' →
  at_work u0 c models (others ++ []) (n + 1) st' ∨ done_with u0 c models (others ++ []) (n + 1) st'.
Proof.
  intros (l & Hl & Hc & Hm & Hb & Hi & Hs & Hw & Hr & Hu & Hn). cbn [handle_test]. rewrite Hl, app_nil_r.
  destruct k as [|k]; cbn [lookup list_lookup]; [|done].
  destruct (length (l_waiting l) =? 0) eqn:E; [apply Nat.eqb_eq in E|done].
  assert (Hr' : ∀ m, m ∈ take (l_next l) models → has_result c st m).
  { intros m Hin. destruct (Hr m Hin) as [H|]; [|done]. apply nil_length_inv in E. rewrite E in H. by apply elem_of_nil in H. }
  unfold work_left in Hn. rewrite Hm in Hn.
  intros Hst. apply (inj Some) in Hst. subst st'. unfold on_timer. rewrite Hm. destruct (_ <? _) eqn:El; fields.
  - left. apply Nat.ltb_lt in El. apply round_works; try done. lia.
  - right. apply Nat.ltb_ge in El. rewrite take_ge in Hr', Hu by done. unfold end_loop. split_and!; fields; try done; [by rewrite Hl|lia].
Qed.

Lemma during_work st0 c models st others n : during st0 c models st others n →
  at_work (urls st0) c models others n st ∨ done_with (urls st0) c models others n st.
Proof.
  induction 1 as [text st Ht Hc Hm Hl He|e st others n st' _ IH Hne Hcl He].
  - left. cbn [handle_test] in He. destruct (_ && _) eqn:Hg; [|done]. apply andb_true_iff in Hg as [_ Hb%negb_true_iff].
    unfold batchTestModels in He. rewrite Ht in He. destruct (is_empty text); [done|]. cbv zeta in He.
    rewrite <- Hm, <- Hc, Hl in He. destruct (length models =? 0) eqn:E; [done|]. apply Nat.eqb_neq in E.
    apply (inj Some) in He. subst st. apply round_works; fields; try done; try lia; [by rewrite Hc|intros m Hin; by apply elem_of_nil in Hin|].
    by rewrite !app_nil_r.
  - destruct IH as [IH|(H & _)]; [|done]. pose proof IH as (_ & _ & _ & _ & _ & Hi & _).
    destruct e; try done; try exact (work_timer _ _ _ _ _ _ _ _ IH He); left; try exact (work_reply _ _ _ _ _ _ _ _ _ _ IH He);
      cbn [handle_test] in He; unfold in_dialog in He; cbn [sent_by of_batch];
      repeat (case_match; try done); try (apply (inj Some) in He; subst st');
      try (by apply work_single); try (by eapply work_kept; rewrite ?app_nil_r).
    + exfalso. by rewrite Hi, andb_false_r in *.
    + match goal with |- context[finish_test _ ?c ?m ?r ?s] => destruct (finish_kept c m r s) as (Ku & Ki & Ks & Kl & _ & _) end.
      eapply work_kept; [done..|intros; by apply finish_results|by rewrite app_nil_r].
Qed.

(** A batch starts without results for its models. *)
Lemma started_clear st0 c models st others n st1 m : during st0 c models st others n →
  handle_test lower t Batch st0 = Some st1 → m ∈ models → ¬ has_result c st1 m.
Proof.
  intros H Hst Hm. induction H as [text st Ht Hc Hms Hl He|]; [|done]. cbn [handle_test] in Hst. destruct (_ && _); [|done].
  unfold batchTestModels in Hst. rewrite Ht in Hst. destruct (is_empty text); [done|]. cbv zeta in Hst. rewrite <- Hms, <- Hc, Hl in Hst.
  destruct (length models =? 0); [done|]. apply (inj Some) in Hst. subst st1. unfold next_round, has_result. fields.
  destruct (begin_all c (take concurrencyLimit (drop 0 models)) (set_results (clear_results (c_channel c) models (results st0))
    (set_batching true false (set_loops ([] ++ [Loop c models 0 []]) st0)))) as [te E]. fields. rewrite E. fields.
  rewrite cleared_results. replace (existsb _ _) with true; [by intros [? ?]|]. symmetry. apply existsb_exists.
  exists m. split; [by apply list_elem_of_In|by apply bool_decide_eq_true].
Qed.

(** C13. A batch that starts while none is at work and is not closed - with single
    tests, clicks in the table and in the dialog at any time - has at most five
    requests under way, sends one request per model, and at every moment each
    model it has come to is under way or has its result; results of earlier tests
    are gone when it starts.  Once it is over, every model was requested exactly
    once, has a result, and the button is free again. *)
Theorem batch_tests_once st0 c models st others n : during st0 c models st others n →
  (∀ st1 m, handle_test lower t Batch st0 = Some st1 → m ∈ models → ¬ has_result c st1 m) ∧
  (at_work (urls st0) c models others n st ∨ done_with (urls st0) c models others n st).
Proof. intros H. split; [|by apply during_work]. intros st1 m Hst Hm. by eapply started_clear. Qed.

(** C16. Such a batch ends: it takes at most two steps per model and one more, and
    until it is over there is always a step, whatever the answers. *)
Theorem batch_ends st0 c models st others n : during st0 c models st others n →
  n ≤ S (2 * length models) ∧
  (loops st ≠ [] → n < S (2 * length models) ∧
    ((∃ st', handle_test lower t (Timer 0) st = Some st') ∨ (∀ r, ∃ st', handle_test lower t (LoopReply 0 0 r) st = Some st'))).
Proof.
  intros [(l & Hl & _ & _ & _ & _ & _ & _ & _ & _ & Hn)|(Hl & _ & _ & _ & Hn)]%during_work; [|done]. unfold work_left in Hn.
  split; [lia|]. intros _. split; [lia|]. cbn [handle_test]. unfold loop_reply. rewrite Hl. cbn [lookup list_lookup].
  destruct (l_waiting l) as [|m w] eqn:E; [left; cbn; eauto|right]. intros r. cbn [lookup list_lookup]. eauto.
Qed.

Definition passed (id : Z) (rs : list (jsstr * test_result)) (ok : bool) (m : jsstr) : bool :=
  match assoc_get rs (testKey id m) with Some r => Bool.eqb (success r) ok | None => false end.

Lemma passed_of id rs ok m r : assoc_get rs (testKey id m) = Some r → passed id rs ok m = Bool.eqb (success r) ok.
Proof. unfold passed. by intros ->. Qed.

Lemma count_spec id rs models : (∀ m, m ∈ models → is_Some (assoc_get rs (testKey id m))) →
  count_results id models rs = (length (List.filter (passed id rs true) models), length (List.filter (passed id rs false) models)).
Proof.
  intros H. unfold count_results.
  assert (Hgen : ∀ a b, (∀ m, m ∈ models → is_Some (assoc_get rs (testKey id m))) → fold_left (λ acc m, match assoc_get rs (testKey id m) with
                      | Some r => if success r then (S acc.1, acc.2) else (acc.1, S acc.2)
                      | None => (acc.1, S acc.2)
                      end) models (a, b) = (a + length (List.filter (passed id rs true) models), b + length (List.filter (passed id rs false) models))).
  { clear H. induction models as [|m models IH]; intros a b H; cbn [fold_left List.filter length]; [by rewrite !Nat.add_0_r|].
    destruct (H m) as [r Hr]; [by left|]. rewrite !(passed_of _ _ _ _ r Hr), Hr. destruct (success r); cbn [Bool.eqb fst snd length];
      rewrite IH by (intros; apply H; by right); f_equal; lia. }
  by rewrite Hgen.
Qed.

Lemma passed_split id rs models : (∀ m, m ∈ models → is_Some (assoc_get rs (testKey id m))) →
  length (List.filter (passed id rs true) models) + length (List.filter (passed id rs false) models) = length models.
Proof.
  induction models as [|m models IH]; intros H; cbn [List.filter length]; [done|]. destruct (H m) as [r Hr]; [by left|].
  rewrite !(passed_of _ _ _ _ r Hr). destruct (success r); cbn [Bool.eqb length]; rewrite <- IH by (intros; apply H; by right); lia.
Qed.

(** The summary of such a batch counts results only: the models that passed
    and those with a failed test, together all the models. *)
Theorem batch_summary st0 c models st others n l good bad : during st0 c models st others n →
  loops st = [l] → l_waiting l = [] → (on_timer 0 l st).2 = Some (good, bad) →
  good = length (List.filter (passed (c_channel c) (results st) true) models) ∧
  bad = length (List.filter (passed (c_channel c) (results st) false) models) ∧ good + bad = length models.
Proof.
  intros [(l' & Hl & Hc & Hm & _ & _ & _ & _ & Hr & _)|(H & _)]%during_work Hl' Hw Ht; [|congruence].
  assert (l' = l) as -> by congruence. unfold on_timer in Ht. destruct (_ <? _) eqn:E; fields; [done|].
  apply Nat.ltb_ge in E. rewrite Hm in *. rewrite Hc in *. rewrite take_ge in Hr by done.
  assert (Hall : ∀ m, m ∈ models → is_Some (assoc_get (results st) (testKey (c_channel c) m))).
  { intros m Hin. destruct (Hr m Hin) as [H|]; [|done]. rewrite Hw in H. by apply elem_of_nil in H. }
  rewrite count_spec in Ht by done. apply (inj Some) in Ht. injection Ht as <- <-. split_and!; [done|done|by apply passed_split].
Qed.
End Tests.

(** *** Concrete runs *)

Definition plain (s : jsstr) : jsstr := s.
Definition run_tests (es : list test_event) (st : tests) : option tests :=
  fold_left (λ acc e, match acc with Some st => handle_test plain plain e st | None => None end) es (Some st).

Definition closed_dialog : dialog := Dialog false None [] [] 1 [] false false.
Definition tests_mounted : tests := Tests (mount (λ _, [])) [] [] [] false false [] [] closed_dialog.
Definition passing : test_reply := Tested true [] (num_of_Z 1) [].
Definition six_models : jsstr := js "a,b,c,d,e,f".

(** The dialog is closed during the first round of a batch on channel 1 and a
    batch is started on channel 2; the answers to the first round let the first
    batch go on with its last model, and its end frees the button while the second
    batch is at work. *)
Definition restart : list test_event :=
  [OpenDialog 1 six_models; Batch; CloseDialog; OpenDialog 2 six_models; Batch;
   LoopReply 0 0 passing; LoopReply 0 0 passing; LoopReply 0 0 passing; LoopReply 0 0 passing; LoopReply 0 0 passing; Timer 0].
Theorem restart_revives_batch :
  option_map (λ st, (map (λ l, (c_channel (l_run l), l_waiting l)) (loops st), isBatchTesting st)) (run_tests restart tests_mounted)
  = Some ([(1%Z, [js "f"]); (2%Z, [js "a"; js "b"; js "c"; js "d"; js "e"])], true) ∧
  option_map (λ st, (map (λ l, (c_channel (l_run l), l_waiting l)) (loops st), isBatchTesting st))
    (run_tests (restart ++ [LoopReply 0 0 passing; Timer 0]) tests_mounted)
  = Some ([(2%Z, [js "a"; js "b"; js "c"; js "d"; js "e"])], false).
Proof. split; by vm_compute. Qed.

(** Closing the dialog does not stop the answers of a batch from changing the
    table: the page turned in the meantime is replaced by the old list. *)
Theorem closed_batch_turns_page_back :
  option_map (λ st, (shouldStop st, activePage (table st), names (table st)))
    (run_tests [OnTable (Answer 0 page_one); OpenDialog 1 (js "a,b"); Batch; CloseDialog;
                OnTable (PageChange 2); OnTable (Answer 0 page_two); LoopReply 0 0 passing] tests_mounted)
  = Some (true, 2%Z, [js "one"]).
Proof. by vm_compute. Qed.

(** *** Witnesses *)

Definition after (es : list test_event) : tests := default tests_mounted (run_tests (OpenDialog 1 (js "a,b") :: es) tests_mounted).
Definition sample_run : closure := Closure 1 [] false false [].
Definition two_models : list jsstr := [js "a"; js "b"].
Definition failing : test_reply := TestFailed (js "timeout").

Lemma sample_during : during plain plain (after []) sample_run two_models (after [Batch; TestRow 1; LoopReply 0 1 failing; LoopReply 0 0 passing])
  ([] ++ [test_url sample_run []] ++ [] ++ []) (0 + 0 + 1 + 1).
Proof.
  assert (H0 : during plain plain (after []) sample_run two_models (after [Batch]) [] 0).
  { apply (during_start _ _ _ _ _ (js "a,b")); by vm_compute. }
  assert (H1 : during plain plain (after []) sample_run two_models (after [Batch; TestRow 1]) [test_url sample_run []] (0 + 0)).
  { apply (during_step plain plain (after []) sample_run two_models (TestRow 1) (after [Batch]) [] 0); [done|done|done|by vm_compute]. }
  assert (H2 : during plain plain (after []) sample_run two_models (after [Batch; TestRow 1; LoopReply 0 1 failing]) [test_url sample_run []] (0 + 0 + 1)).
  { apply (during_step plain plain (after []) sample_run two_models (LoopReply 0 1 failing) _ _ _ _ H1); [done|done|by vm_compute]. }
  apply (during_step plain plain (after []) sample_run two_models (LoopReply 0 0 passing) _ _ _ _ H2); [done|done|by vm_compute].
Qed.

Lemma tests_invariant_witness : ∃ st st', tests_reached plain plain tests_mounted st ∧ shouldStop st = true ∧
  loop_reply plain 0 0 passing st = Some st' ∧ is_Some (assoc_get (results st') (testKey 1 (js "a"))).
Proof.
  exists (after [Batch; CloseDialog]), (after [Batch; CloseDialog; LoopReply 0 0 passing]).
  assert (Hr : tests_reached plain plain tests_mounted (after [Batch; CloseDialog])).
  { apply (tests_step _ _ _ CloseDialog (after [Batch])); [|by vm_compute]. apply (tests_step _ _ _ Batch (after [])); [|by vm_compute].
    apply (tests_step _ _ _ (OpenDialog 1 (js "a,b")) tests_mounted); [apply tests_start|by vm_compute]. }
  assert (Hs : loop_reply plain 0 0 passing (after [Batch; CloseDialog]) = Some (after [Batch; CloseDialog; LoopReply 0 0 passing])) by by vm_compute.
  split; [exact Hr|]. split; [by vm_compute|]. split; [exact Hs|].
  apply (proj2 (tests_invariant plain plain tests_mounted _ ltac:(by vm_compute) Hr) 0 0 passing _ (Loop sample_run two_models 5 two_models) (js "a") Hs);
    by vm_compute.
Defined.

Lemma batch_tests_once_witness :
  at_work (urls (after [])) sample_run two_models [test_url sample_run []] 2 (after [Batch; TestRow 1; LoopReply 0 1 failing; LoopReply 0 0 passing]).
Proof. destruct (proj2 (batch_tests_once plain plain _ _ _ _ _ _ sample_during)) as [H|[H _]]; [exact H|by vm_compute in H]. Defined.

Lemma batch_ends_witness : 2 ≤ S (2 * length two_models).
Proof. exact (proj1 (batch_ends plain plain _ _ _ _ _ _ sample_during)). Defined.

Definition finished : tests := after [Batch; TestRow 1; LoopReply 0 1 failing; LoopReply 0 0 passing].
Lemma batch_summary_witness :
  1 = length (List.filter (passed 1 (results finished) true) two_models) ∧
  1 = length (List.filter (passed 1 (results finished) false) two_models) ∧ 1 + 1 = length two_models.
Proof. apply (batch_summary plain plain _ _ _ _ _ _ (Loop sample_run two_models 5 []) 1 1 sample_during); by vm_compute. Defined.
