(* ===== verification/UpstreamUpdates.v ===== *)
(** * Pending changes of a channel's models

    [web/src/hooks/channels/useChannelUpstreamUpdates.jsx] and the dialog
    [web/src/components/table/channels/modals/ChannelUpstreamUpdateModal.jsx]:
    an administrator ticks which of the models found upstream are added and which
    of the missing ones are removed.  Hook and dialog are one state under clicks
    and answers in any order; a submission carries what its handler closed over.
    The list of ticked boxes is the previous list with one model more or less, as
    the checkbox group reports it.  Messages are left out. *)

From S2P Require Import Prelude JsString JsNumber Json JsObject ChannelForms.

Inductive tab := AddTab | RemoveTab.
#[global] Instance tab_eq_dec : EqDecision tab.
Proof. solve_decision. Defined.

Definition normalizeModels (models : list jsstr) : list jsstr := uniq (filter_truthy (map trim models)).

(** What a submission closes over: the channel, the pending additions and
    removals, and the boxes ticked in the dialog *)
Record submission := Submission { s_channel : option Z; s_pending : list jsstr; s_missing : list jsstr; s_add : list jsstr; s_remove : list jsstr }.

Record choice := Choice {
  selectedAddModels : list jsstr; selectedRemoveModels : list jsstr; keyword : jsstr; activeTab : tab; partialSubmitConfirmed : bool
}.

(** [seen]: the dependencies of the effect when it last ran.  [applies]: the calls
    under way, and whether they wait for the list.  [asking]: the confirmation. *)
Record updates := Updates {
  showModal : bool; upstreamUpdateChannel : option Z; addModels : list jsstr; removeModels : list jsstr; preferredTab : tab;
  upstreamApplyLoading : bool; applyInFlight : bool; applies : list (submission * bool);
  chosen : choice; seen : bool * bool * bool * tab; asking : option submission
}.

Definition set_modal (show : bool) (ch : option Z) (add rem : list jsstr) (pt : tab) (u : updates) : updates :=
  Updates show ch add rem pt (upstreamApplyLoading u) (applyInFlight u) (applies u) (chosen u) (seen u) (asking u).
Definition set_chosen (c : choice) (u : updates) : updates :=
  Updates (showModal u) (upstreamUpdateChannel u) (addModels u) (removeModels u) (preferredTab u) (upstreamApplyLoading u) (applyInFlight u)
    (applies u) c (seen u) (asking u).
Definition set_applies (busy : bool) (l : list (submission * bool)) (u : updates) : updates :=
  Updates (showModal u) (upstreamUpdateChannel u) (addModels u) (removeModels u) (preferredTab u) busy busy l (chosen u) (seen u) (asking u).
Definition set_seen (d : bool * bool * bool * tab) (u : updates) : updates :=
  Updates (showModal u) (upstreamUpdateChannel u) (addModels u) (removeModels u) (preferredTab u) (upstreamApplyLoading u) (applyInFlight u)
    (applies u) (chosen u) d (asking u).
Definition set_asking (a : option submission) (u : updates) : updates :=
  Updates (showModal u) (upstreamUpdateChannel u) (addModels u) (removeModels u) (preferredTab u) (upstreamApplyLoading u) (applyInFlight u)
    (applies u) (chosen u) (seen u) a.

(** ** The hook *)

Definition getManualIgnoredModelCountFromSettings (settings : jval) : option nat :=
  let parsed := if truthy settings && typeof_object settings then settings
                else match settings with JStr t => default JNull (parse t) | _ => JNull end in
  if negb (truthy parsed) || negb (typeof_object parsed) then Some 0
  else match normalizeModelList (read parsed (js "upstream_model_update_ignored_models")) with
       | Some l => Some (length l)
       | None => None
       end.

(** [None]: the information that there is nothing to do *)
Definition openUpstreamUpdateModal (id : Z) (pendingAdd pendingRemove : list jsstr) (preferred : tab) (u : updates) : option updates :=
  let add := normalizeModels pendingAdd in
  let rem := normalizeModels pendingRemove in
  if (id =? 0)%Z || ((length add =? 0) && (length rem =? 0)) then None
  else Some (set_modal true (Some id) add rem preferred u).

Definition closeUpstreamUpdateModal (u : updates) : updates := set_modal false None [] [] AddTab u.

(** The request of a submission: what is added, ignored and removed *)
Record body := Body { b_id : Z; b_add : list jsstr; b_ignore : list jsstr; b_remove : list jsstr }.
Definition apply_body (id : Z) (s : submission) : body :=
  let add := normalizeModels (s_add s) in
  Body id add (List.filter (λ m, negb (existsb (streq m) add)) (s_pending s)) (normalizeModels (s_remove s)).

Definition applyUpstreamUpdates (s : submission) (u : updates) : updates :=
  if applyInFlight u then u else
  match s_channel s with
  | Some id => if (id =? 0)%Z then closeUpstreamUpdateModal u else set_applies true (applies u ++ [(s, false)]) u
  | None => closeUpstreamUpdateModal u
  end.

Definition length_of (v : jval) : jval :=
  match v with
  | JArr l => JNum (num_of_Z (Z.of_nat (length l)))
  | JStr s => JNum (num_of_Z (Z.of_nat (length s)))
  | JObj _ => read v (js "length")
  | _ => JNull
  end.

(** The numbers of the success message; [None] is an exception. *)
Definition apply_summary (data : jval) (ignoreModels : list jsstr) : option (jval * jval * nat * nat) :=
  match getManualIgnoredModelCountFromSettings (read data (js "settings")) with
  | Some total => Some (js_or (length_of (read data (js "added_models"))) (JNum nzero),
                        js_or (length_of (read data (js "removed_models"))) (JNum nzero), length (normalizeModels ignoreModels), total)
  | None => None
  end.

Inductive apply_reply := Applied (data : jval) | ApplyRefused | ApplyFailed.

Definition finish_apply (i : nat) (u : updates) : updates := set_applies false (delete i (applies u)) u.
Definition on_applied (i : nat) (r : apply_reply) (u : updates) : option updates :=
  match applies u !! i with
  | Some (s, false) =>
    Some match r with
         | Applied data =>
           match apply_summary data (b_ignore (apply_body 0 s)) with
           | Some _ => closeUpstreamUpdateModal (set_applies (applyInFlight u) (<[i := (s, true)]> (applies u)) u)
           | None => finish_apply i u
           end
         | _ => finish_apply i u
         end
  | _ => None
  end.
(** The list has been loaded again. *)
Definition on_refreshed (i : nat) (u : updates) : option updates :=
  match applies u !! i with Some (_, true) => Some (finish_apply i u) | _ => None end.

(** *** The other requests of the hook, each guarded by a flag of its own *)

Inductive job := ApplyAll | Detect (id : Z) | DetectAll.
Definition guard (j : job) : nat := match j with ApplyAll => 0 | Detect _ => 1 | DetectAll => 2 end.

(** The calls under way, and whether they wait for the list *)
Definition jobs : Type := list (job * bool).
Definition in_flight (g : nat) (l : jobs) : bool := existsb (λ x, guard x.1 =? g) l.
Definition applyAllUpstreamUpdates (l : jobs) : jobs := if in_flight 0 l then l else l ++ [(ApplyAll, false)].
Definition detectChannelUpstreamUpdates (id : Z) (l : jobs) : jobs :=
  if in_flight 1 l then l else if (id =? 0)%Z then l else l ++ [(Detect id, false)].
Definition detectAllUpstreamUpdates (l : jobs) : jobs := if in_flight 2 l then l else l ++ [(DetectAll, false)].

(** The numbers of the success message; the list of failed channels has a length
    only if it is an array or a text. *)
Definition or_zero (v : jval) : jval := js_or v (JNum nzero).
Definition job_summary (j : job) (data : jval) : list jval :=
  match j with
  | Detect _ => [or_zero (length_of (read data (js "add_models"))); or_zero (length_of (read data (js "remove_models")))]
  | ApplyAll => [or_zero (read data (js "processed_channels")); or_zero (read data (js "added_models")); or_zero (read data (js "removed_models"));
                 length_of (js_or (read data (js "failed_channel_ids")) (JArr []))]
  | DetectAll => [or_zero (read data (js "processed_channels")); or_zero (read data (js "detected_add_models"));
                  or_zero (read data (js "detected_remove_models")); length_of (js_or (read data (js "failed_channel_ids")) (JArr []))]
  end.

Inductive job_event := StartApplyAll | StartDetect (id : Z) | StartDetectAll | JobReply (i : nat) (ok : bool) | JobRefreshed (i : nat).
Definition job_step (e : job_event) (l : jobs) : option jobs :=
  match e with
  | StartApplyAll => Some (applyAllUpstreamUpdates l)
  | StartDetect id => Some (detectChannelUpstreamUpdates id l)
  | StartDetectAll => Some (detectAllUpstreamUpdates l)
  | JobReply i ok => match l !! i with Some (j, false) => Some (if ok then <[i := (j, true)]> l else delete i l) | _ => None end
  | JobRefreshed i => match l !! i with Some (_, true) => Some (delete i l) | _ => None end
  end.

(** ** The dialog *)

Section Dialog.
Context (lower : jsstr → jsstr).

Definition filterByKeyword (models : list jsstr) (kw : jsstr) : list jsstr :=
  let k := lower (trim kw) in
  if is_empty k then models else List.filter (λ m, includes k (lower m)) models.

Definition addTabEnabled (u : updates) : bool := negb (length (normalizeModels (addModels u)) =? 0).
Definition removeTabEnabled (u : updates) : bool := negb (length (normalizeModels (removeModels u)) =? 0).

(** The effect on [visible], the tabs and the preferred one *)
Definition first_tab (u : updates) : tab :=
  match preferredTab u with
  | RemoveTab => if removeTabEnabled u then RemoveTab else if addTabEnabled u then AddTab else RemoveTab
  | AddTab => if addTabEnabled u then AddTab else RemoveTab
  end.
Definition dependencies (u : updates) : bool * bool * bool * tab := (showModal u, addTabEnabled u, removeTabEnabled u, preferredTab u).
Definition run_effect (u : updates) : updates :=
  if bool_decide (dependencies u = seen u) then u else
  set_seen (dependencies u) (if showModal u then set_chosen (Choice [] [] [] (first_tab u) false) u else u).

Definition currentModels (u : updates) : list jsstr :=
  match activeTab (chosen u) with
  | AddTab => filterByKeyword (normalizeModels (addModels u)) (keyword (chosen u))
  | RemoveTab => filterByKeyword (normalizeModels (removeModels u)) (keyword (chosen u))
  end.
Definition currentSelectedModels (c : choice) : list jsstr :=
  match activeTab c with AddTab => selectedAddModels c | RemoveTab => selectedRemoveModels c end.
Definition currentSetSelectedModels (l : list jsstr) (c : choice) : choice :=
  match activeTab c with
  | AddTab => Choice l (selectedRemoveModels c) (keyword c) (activeTab c) (partialSubmitConfirmed c)
  | RemoveTab => Choice (selectedAddModels c) l (keyword c) (activeTab c) (partialSubmitConfirmed c)
  end.

Definition checkedCount (u : updates) : nat := length (List.filter (λ m, existsb (streq m) (currentSelectedModels (chosen u))) (currentModels u)).
Definition isAllChecked (u : updates) : bool := negb (length (currentModels u) =? 0) && (checkedCount u =? length (currentModels u)).

Definition handleToggleAllCurrent (checked : bool) (u : updates) : updates :=
  let c := chosen u in
  set_chosen (currentSetSelectedModels
    (if checked then normalizeModels (currentSelectedModels c ++ currentModels u)
     else List.filter (λ m, negb (existsb (streq m) (currentModels u))) (currentSelectedModels c)) c) u.

(** One box of the group *)
Definition toggle_model (m : jsstr) (u : updates) : updates :=
  let l := currentSelectedModels (chosen u) in
  set_chosen (currentSetSelectedModels
    (normalizeModels (if existsb (streq m) l then List.filter (λ x, negb (streq x m)) l else l ++ [m])) (chosen u)) u.

Definition submit_now (u : updates) : submission :=
  Submission (upstreamUpdateChannel u) (addModels u) (removeModels u) (selectedAddModels (chosen u)) (selectedRemoveModels (chosen u)).

Definition set_tab (t : tab) (c : choice) : choice := Choice (selectedAddModels c) (selectedRemoveModels c) (keyword c) t (partialSubmitConfirmed c).
Definition set_keyword (kw : jsstr) (c : choice) : choice := Choice (selectedAddModels c) (selectedRemoveModels c) kw (activeTab c) (partialSubmitConfirmed c).
Definition confirm_partial (c : choice) : choice := Choice (selectedAddModels c) (selectedRemoveModels c) (keyword c) (activeTab c) true.

Definition handleSubmit (u : updates) : updates :=
  let c := chosen u in
  let a := length (selectedAddModels c) in
  let r := length (selectedRemoveModels c) in
  if (a =? 0) && (r =? 0) then applyUpstreamUpdates (submit_now u) u else
  if (addTabEnabled u && removeTabEnabled u) && ((addTabEnabled u && (a =? 0)) || (removeTabEnabled u && (r =? 0))) then
    if partialSubmitConfirmed c then applyUpstreamUpdates (submit_now u) u
    else set_asking (Some (submit_now u)) (set_chosen (set_tab (if addTabEnabled u && (a =? 0) then AddTab else RemoveTab) c) u)
  else applyUpstreamUpdates (submit_now u) u.

Inductive update_event :=
| OpenUpdates (id : Z) (add rem : list jsstr) (preferred : tab) | CancelUpdates | ChooseTab (t : tab) | TypeKeyword (kw : jsstr)
| ToggleModel (m : jsstr) | ToggleAll (checked : bool) | SubmitUpdates | ConfirmPartial | DismissPartial
| ApplyReply (i : nat) (r : apply_reply) | Refreshed (i : nat).

(** The dialog covers the table, the confirmation covers the dialog. *)
Definition in_modal (f : updates → updates) (u : updates) : option updates :=
  match asking u with None => if showModal u then Some (f u) else None | Some _ => None end.
Definition handle_update (e : update_event) (u : updates) : option updates :=
  match e with
  | OpenUpdates id add rem preferred =>
    match asking u with None => if showModal u then None else openUpstreamUpdateModal id add rem preferred u | Some _ => None end
  | CancelUpdates => in_modal closeUpstreamUpdateModal u
  | ChooseTab t =>
    if (match t with AddTab => addTabEnabled u | RemoveTab => removeTabEnabled u end)
    then in_modal (λ u, set_chosen (set_tab t (chosen u)) u) u else None
  | TypeKeyword kw => in_modal (λ u, set_chosen (set_keyword kw (chosen u)) u) u
  | ToggleModel m => if existsb (streq m) (currentModels u) then in_modal (toggle_model m) u else None
  | ToggleAll checked => in_modal (handleToggleAllCurrent checked) u
  | SubmitUpdates => in_modal handleSubmit u
  | ConfirmPartial =>
    match asking u with
    | Some s => Some (applyUpstreamUpdates s (set_chosen (confirm_partial (chosen u)) (set_asking None u)))
    | None => None
    end
  | DismissPartial => match asking u with Some _ => Some (set_asking None u) | None => None end
  | ApplyReply i r => on_applied i r u
  | Refreshed i => on_refreshed i u
  end.
Definition update_step (e : update_event) (u : updates) : option updates := option_map run_effect (handle_update e u).
End Dialog.

(** ** What holds *)

Local Opaque js.

Ltac parts := cbn [showModal upstreamUpdateChannel addModels removeModels preferredTab upstreamApplyLoading applyInFlight applies chosen seen
  asking set_modal set_chosen set_applies set_seen set_asking closeUpstreamUpdateModal finish_apply selectedAddModels selectedRemoveModels keyword
  activeTab partialSubmitConfirmed s_channel s_pending s_missing s_add s_remove] in *.

Definition clean (l : list jsstr) : Prop := NoDup l ∧ Forall (λ m, m ≠ [] ∧ trimmed m) l.

Lemma normalize_clean l : clean (normalizeModels l).
Proof.
  split; [apply uniq_NoDup|]. apply Forall_forall. intros m. unfold normalizeModels, filter_truthy.
  rewrite elem_of_uniq, list_elem_of_In, filter_In. intros [Hin Hne]. apply in_map_iff in Hin as (x & <- & _).
  split; [|apply trimmed_trim]. intros E. by rewrite E in Hne.
Qed.

Lemma normalize_elem l m : Forall (λ m, m ≠ [] ∧ trimmed m) l → m ∈ normalizeModels l ↔ m ∈ l.
Proof.
  intros Hl. unfold normalizeModels. assert (Hm : map trim l = l).
  { rewrite <- (map_id l) at 2. apply map_ext_Forall. eapply Forall_impl; [exact Hl|]. intros x [_ Hx]. by apply trim_trimmed. }
  rewrite Hm, filter_truthy_id by (eapply Forall_impl; [exact Hl|]; by intros x []). apply elem_of_uniq.
Qed.

Lemma normalize_id l : clean l → normalizeModels l = l.
Proof.
  intros [Hnd Hl]. unfold normalizeModels. assert (Hm : map trim l = l).
  { rewrite <- (map_id l) at 2. apply map_ext_Forall. eapply Forall_impl; [exact Hl|]. intros x [_ Hx]. by apply trim_trimmed. }
  rewrite Hm, filter_truthy_id by (eapply Forall_impl; [exact Hl|]; by intros x []). by apply uniq_id.
Qed.

Definition picks (pending sel : list jsstr) : Prop := clean sel ∧ ∀ m, m ∈ sel → m ∈ pending.
Definition submission_ok (s : submission) : Prop := clean (s_pending s) ∧ picks (s_pending s) (s_add s) ∧ picks (s_missing s) (s_remove s).
Definition open_ok (u : updates) : Prop :=
  picks (addModels u) (selectedAddModels (chosen u)) ∧ picks (removeModels u) (selectedRemoveModels (chosen u)).

Record base (u : updates) : Prop := Base {
  base_flag : upstreamApplyLoading u = applyInFlight u ∧ applyInFlight u = negb (length (applies u) =? 0) ∧ length (applies u) ≤ 1;
  base_add : clean (addModels u);
  base_remove : clean (removeModels u);
  base_open : showModal u = true → (∃ id, upstreamUpdateChannel u = Some id ∧ id ≠ 0%Z) ∧ (dependencies u = seen u → open_ok u);
  base_asking : ∀ s, asking u = Some s → submission_ok s;
  base_sent : Forall (λ x, submission_ok x.1) (applies u)
}.

Lemma nothing_picked l : picks l [].
Proof. split; [split; constructor|]. by intros m ?%elem_of_nil. Qed.

Lemma deps_effect u : dependencies (run_effect u) = seen (run_effect u).
Proof. unfold run_effect. case_bool_decide as E; [done|]. by destruct (showModal u) eqn:Es; unfold dependencies; parts. Qed.

Lemma base_effect u : base u → base (run_effect u).
Proof.
  intros [H1 H2 H3 H4 H5 H6]. unfold run_effect. case_bool_decide; [by split|]. destruct (showModal u) eqn:E; split; parts; try done.
  - intros _. split; [by apply H4|]. intros _. split; apply nothing_picked.
  - by rewrite E.
Qed.

Lemma picks_normal pending l : clean pending → (∀ m, m ∈ l → m ∈ pending) → picks pending (normalizeModels l).
Proof.
  intros [_ Hp] H. split; [apply normalize_clean|]. intros m. rewrite normalize_elem; [apply H|]. rewrite Forall_forall in *. eauto.
Qed.
Lemma picks_filter pending l f : picks pending l → picks pending (List.filter f l).
Proof.
  intros [[Hnd Hl] H]. split; [split|].
  - by apply NoDup_ListNoDup, List.NoDup_filter, NoDup_ListNoDup.
  - rewrite Forall_forall in *. intros m [Hm _]%list_elem_of_In%filter_In. apply Hl. by apply list_elem_of_In.
  - intros m [Hm _]%list_elem_of_In%filter_In. apply H. by apply list_elem_of_In.
Qed.

(** Whatever the open tab sets is picked from what is pending. *)
Lemma set_selected u l : open_ok u →
  picks (match activeTab (chosen u) with AddTab => addModels u | RemoveTab => removeModels u end) l →
  open_ok (set_chosen (currentSetSelectedModels l (chosen u)) u).
Proof. intros [Ha Hr] Hl. unfold open_ok, currentSetSelectedModels. by destruct (activeTab (chosen u)); parts. Qed.

Lemma base_close u : base u → base (closeUpstreamUpdateModal u).
Proof. intros [H1 H2 H3 H4 H5 H6]. split; parts; try done; split; constructor. Qed.

(** A state that differs in the choice only *)
Lemma base_chosen u c : base u → (open_ok u → open_ok (set_chosen c u)) → base (set_chosen c u).
Proof.
  intros [H1 H2 H3 H4 H5 H6] Hc. split; parts; try done. intros Hs. destruct (H4 Hs) as [Hid Ho]. split; [done|].
  intros Hd. apply Hc, Ho. exact Hd.
Qed.

Lemma base_apply s u : base u → submission_ok s → base (applyUpstreamUpdates s u).
Proof.
  intros Hb Hs. unfold applyUpstreamUpdates. destruct (applyInFlight u) eqn:E; [done|].
  destruct (s_channel s) as [id|]; [destruct (id =? 0)%Z|]; try by apply base_close.
  destruct Hb as [(H1 & H1' & H1'') H2 H3 H4 H5 H6]. rewrite E in H1'. symmetry in H1'. apply negb_false_iff, Nat.eqb_eq, nil_length_inv in H1'.
  split; parts; rewrite ?H1'; try done. by constructor.
Qed.

Lemma base_finish i x u : base u → applies u !! i = Some x → base (finish_apply i u).
Proof.
  intros [(H1 & H1' & H1'') H2 H3 H4 H5 H6] Hi. split; parts; try done; [|by apply Forall_delete].
  destruct (applies u) as [|y [|z l]]; [done| |cbn in H1''; lia]. destruct i as [|i]; [|by destruct i]. cbn. split_and!; [done|done|lia].
Qed.

Lemma base_replied i r u u' : on_applied i r u = Some u' → base u → base u'.
Proof.
  unfold on_applied. destruct (applies u !! i) as [[s []]|] eqn:E; try done. intros Hu Hb. apply (inj Some) in Hu. subst u'.
  destruct r; [|by eapply base_finish..]. destruct (apply_summary _ _); [|by eapply base_finish]. apply base_close.
  destruct Hb as [(H1 & H1' & H1'') H2 H3 H4 H5 H6]. split; parts; rewrite ?length_insert; try done.
  apply Forall_insert; [done|]. exact (Forall_lookup_1 _ _ _ _ H6 E).
Qed.

Lemma base_no_question u : base u → base (set_asking None u).
Proof. intros [H1 H2 H3 H4 H5 H6]. by split; parts. Qed.

Section Invariant.
Context (lower : jsstr → jsstr).

Lemma current_pending u m : clean (addModels u) → clean (removeModels u) → m ∈ currentModels lower u →
  m ∈ match activeTab (chosen u) with AddTab => addModels u | RemoveTab => removeModels u end.
Proof.
  intros Ha Hr. unfold currentModels, filterByKeyword. destruct (activeTab (chosen u)); case_match; rewrite normalize_id by done;
    try done; by intros [Hm%list_elem_of_In _]%list_elem_of_In%filter_In.
Qed.

Lemma current_picks u : open_ok u → picks (match activeTab (chosen u) with AddTab => addModels u | RemoveTab => removeModels u end)
  (currentSelectedModels (chosen u)).
Proof. intros [Ha Hr]. unfold currentSelectedModels. by destruct (activeTab (chosen u)). Qed.

Lemma current_clean u : clean (addModels u) → clean (removeModels u) →
  clean (match activeTab (chosen u) with AddTab => addModels u | RemoveTab => removeModels u end).
Proof. by destruct (activeTab (chosen u)). Qed.

Lemma toggle_open u m : base u → existsb (streq m) (currentModels lower u) = true → open_ok u → open_ok (toggle_model m u).
Proof.
  intros [_ Ha Hr _ _ _] Hm Ho. apply set_selected; [done|]. pose proof (current_picks u Ho) as [Hc Hp].
  apply picks_normal; [by apply current_clean|]. intros x. destruct (existsb (streq m) (currentSelectedModels (chosen u))).
  - intros [Hx%list_elem_of_In _]%list_elem_of_In%filter_In. by apply Hp.
  - rewrite elem_of_app, list_elem_of_singleton. intros [Hx| ->]; [by apply Hp|]. apply current_pending; [done|done|].
    apply existsb_exists in Hm as (y & Hy & E%bool_decide_eq_true). subst y. by apply list_elem_of_In.
Qed.

Lemma toggle_all_open u b : base u → open_ok u → open_ok (handleToggleAllCurrent lower b u).
Proof.
  intros [_ Ha Hr _ _ _] Ho. apply set_selected; [done|]. pose proof (current_picks u Ho) as Hp. destruct b; [|by apply picks_filter].
  apply picks_normal; [by apply current_clean|]. intros x [Hx|Hx]%elem_of_app; [by apply Hp|by apply current_pending].
Qed.

Lemma submit_base u : base u → open_ok u → base (handleSubmit u).
Proof.
  intros Hb Ho. assert (Hs : submission_ok (submit_now u)) by (destruct Hb, Ho; by split_and!).
  unfold handleSubmit. cbv zeta. repeat case_match; try (by apply base_apply).
  all: assert (Hc : ∀ t, base (set_chosen (set_tab t (chosen u)) u)) by (intros t; by apply base_chosen).
  all: match goal with |- base (set_asking _ (set_chosen (set_tab ?t _) _)) => destruct (Hc t) as [H1' H2' H3' H4' H5' H6'] end.
  all: split; parts; try done; intros ? [= <-]; done.
Qed.

Lemma step_base e u u' : base u → dependencies u = seen u → handle_update lower e u = Some u' → base u'.
Proof.
  intros Hb Hd He. destruct e; cbn [handle_update] in He; unfold in_modal in He; try (by eapply base_replied);
    repeat (match type of He with context[match ?x with _ => _ end] => destruct x eqn:? end; try done);
    try (apply (inj Some) in He; subst u'); try (by apply base_close);
    try (by apply base_chosen; [done|]; intros ?; unfold open_ok; parts).
  - unfold openUpstreamUpdateModal in He. destruct (_ || _) eqn:E; [done|]. apply (inj Some) in He. subst u'.
    apply orb_false_iff in E as [E%Z.eqb_neq _]. destruct Hb as [H1 H2 H3 H4 H5 H6]. split; parts; try done; try apply normalize_clean.
    intros _. split; [by eexists|]. rewrite <- Hd. unfold dependencies. parts. congruence.
  - apply base_chosen; [done|]. by apply toggle_open.
  - apply base_chosen; [done|]. by apply toggle_all_open.
  - apply submit_base; [done|]. by apply (base_open _ Hb).
  - apply base_apply; [|by eapply base_asking]. apply base_chosen; [by apply base_no_question|]. done.
  - by apply base_no_question.
  - unfold on_refreshed in He. destruct (applies u !! i) as [[s []]|] eqn:E; try done. apply (inj Some) in He. subst u'. by eapply base_finish.
Qed.

(** The states of the page from one without a dialog and requests *)
Inductive updates_reached : updates → Prop :=
| updates_start c : updates_reached (Updates false None [] [] AddTab false false [] c (false, false, false, AddTab) None)
| updates_next e u u' : updates_reached u → update_step lower e u = Some u' → updates_reached u'.

Lemma updates_base u : updates_reached u → base u ∧ dependencies u = seen u.
Proof.
  induction 1 as [c|e u u' _ [IH Hd] He].
  - split; [|by vm_compute]. split; parts; try done; [cbn; split_and!; [done|done|lia]|split; constructor..].
  - unfold update_step in He. destruct (handle_update lower e u) as [u1|] eqn:E; [|done]. apply (inj Some) in He. subst u'.
    split; [apply base_effect; by eapply step_base|apply deps_effect].
Qed.

Lemma body_partition id s : submission_ok s → b_add (apply_body id s) ++ b_ignore (apply_body id s) ≡ₚ s_pending s.
Proof.
  intros ([Hnd Hcl] & [Hc Hp] & _). cbn [apply_body b_add b_ignore]. rewrite normalize_id by done. apply NoDup_Permutation; [|done|].
  - apply NoDup_app. split_and!; [apply Hc| |by apply NoDup_ListNoDup, List.NoDup_filter, NoDup_ListNoDup].
    intros m Hm [_ Hf%negb_true_iff]%list_elem_of_In%filter_In. apply not_true_iff_false in Hf. apply Hf, existsb_exists.
    exists m. split; [by apply list_elem_of_In|by apply bool_decide_eq_true].
  - intros m. rewrite elem_of_app. split.
    + intros [Hm|[Hm%list_elem_of_In _]%list_elem_of_In%filter_In]; [by apply Hp|done].
    + intros Hm. destruct (existsb (streq m) (s_add s)) eqn:E.
      * left. apply existsb_exists in E as (y & Hy & E%bool_decide_eq_true). subst y. by apply list_elem_of_In.
      * right. apply list_elem_of_In, filter_In. split; [by apply list_elem_of_In|by rewrite E].
Qed.

(** C17. Whatever the administrator clicks and whenever answers come: at most one
    set of changes is under way, and the button is blocked exactly then; the boxes
    ticked in an open dialog are of models offered for its channel; and the request
    of changes divides the models offered for addition, each once, into added and
    ignored ones and removes only models offered for removal. *)
Theorem updates_invariant u : updates_reached u →
  length (applies u) ≤ 1 ∧ upstreamApplyLoading u = negb (length (applies u) =? 0) ∧
  (showModal u = true → open_ok u) ∧
  ∀ s w id, (s, w) ∈ applies u →
    b_add (apply_body id s) ++ b_ignore (apply_body id s) ≡ₚ s_pending s ∧ NoDup (s_pending s) ∧
    (∀ m, m ∈ b_remove (apply_body id s) → m ∈ s_missing s).
Proof.
  intros [[(H1 & H1' & H1'') H2 H3 H4 H5 H6] Hd]%updates_base. split_and!; [done|congruence|intros Hs; by apply H4|].
  intros s w id Hin. rewrite Forall_forall in H6. specialize (H6 _ Hin). cbn [fst] in H6.
  split; [by apply body_partition|]. destruct H6 as ([Hnd _] & _ & [Hc Hp]). split; [done|].
  cbn [apply_body b_remove]. by rewrite normalize_id.
Qed.
End Invariant.

Inductive jobs_reached : jobs → Prop :=
| jobs_none : jobs_reached []
| jobs_next e l l' : jobs_reached l → job_step e l = Some l' → jobs_reached l'.

Lemma in_flight_false g (l : jobs) : in_flight g l = false → g ∉ map (λ x, guard x.1) l.
Proof.
  intros H Hin. apply not_true_iff_false in H. apply H, existsb_exists. apply list_elem_of_In, in_map_iff in Hin as (x & Hx & Hin).
  exists x. split; [done|by apply Nat.eqb_eq].
Qed.

Lemma map_delete_sub {A B} (f : A → B) (l : list A) i : map f (delete i l) `sublist_of` map f l.
Proof. revert i. induction l as [|x l IH]; intros [|i]; cbn; [done|done|by constructor|by constructor]. Qed.

(** The requests for all channels and for a single one are never under way twice. *)
Theorem jobs_once l : jobs_reached l → NoDup (map (λ x, guard x.1) l).
Proof.
  assert (Hadd : ∀ j (l : jobs), in_flight (guard j) l = false → NoDup (map (λ x, guard x.1) l) → NoDup (map (λ x, guard x.1) (l ++ [(j, false)]))).
  { intros j l' H Hnd. rewrite map_app. apply NoDup_app. split_and!; [done| |apply NoDup_singleton].
    intros g Hg ->%list_elem_of_singleton. by apply in_flight_false in H. }
  induction 1 as [|e l l' _ IH He]; [constructor|]. destruct e; cbn [job_step] in He.
  1-3: apply (inj Some) in He; subst l'; unfold applyAllUpstreamUpdates, detectChannelUpstreamUpdates, detectAllUpstreamUpdates;
       repeat case_match; try done; by apply Hadd.
  - destruct (l !! i) as [[j []]|] eqn:E; try done. apply (inj Some) in He. subst l'. destruct ok.
    + replace (map _ (<[i := (j, true)]> l)) with (map (λ x : job * bool, guard x.1) l); [done|].
      clear -E. revert i E. induction l as [|x l IH]; intros [|i] E; cbn in *; [done|done|by injection E as ->|by rewrite <- IH].
    + eapply sublist_NoDup; [done|apply map_delete_sub].
  - destruct (l !! i) as [[j []]|] eqn:E; try done. apply (inj Some) in He. subst l'. eapply sublist_NoDup; [done|apply map_delete_sub].
Qed.

(** *** Concrete runs *)

Definition run_updates (es : list update_event) (u : updates) : option updates :=
  fold_left (λ acc e, match acc with Some u => update_step (λ s, s) e u | None => None end) es (Some u).
Definition updates_mounted : updates :=
  Updates false None [] [] AddTab false false [] (Choice [] [] [] AddTab false) (false, false, false, AddTab) None.

(** Changes of channel 1 are under way, its dialog is closed and the one of channel
    2 opened; the answer for channel 1 closes the dialog of channel 2 and drops its
    ticks. *)
Theorem late_answer_closes_dialog :
  let es := [OpenUpdates 1 [js "a"] [] AddTab; ToggleModel (js "a"); SubmitUpdates; CancelUpdates; OpenUpdates 2 [js "b"; js "c"] [] AddTab;
             ToggleModel (js "b")] in
  option_map (λ u, (showModal u, upstreamUpdateChannel u, selectedAddModels (chosen u))) (run_updates es updates_mounted)
  = Some (true, Some 2%Z, [js "b"]) ∧
  option_map (λ u, (showModal u, upstreamUpdateChannel u)) (run_updates (es ++ [ApplyReply 0 (Applied JNull)]) updates_mounted) = Some (false, None).
Proof. split; by vm_compute. Qed.

(** *** Witnesses *)

Definition sample_updates : updates :=
  default updates_mounted (run_updates [OpenUpdates 1 [js "a"; js "b"] [] AddTab; ToggleModel (js "a"); SubmitUpdates] updates_mounted).
Lemma updates_invariant_witness : ∃ s, (s, false) ∈ applies sample_updates ∧ b_add (apply_body 1 s) = [js "a"] ∧
  b_add (apply_body 1 s) ++ b_ignore (apply_body 1 s) ≡ₚ [js "a"; js "b"].
Proof.
  exists (Submission (Some 1%Z) [js "a"; js "b"] [] [js "a"] []).
  assert (Hin : (Submission (Some 1%Z) [js "a"; js "b"] [] [js "a"] [], false) ∈ applies sample_updates).
  { replace (applies sample_updates) with [(Submission (Some 1%Z) [js "a"; js "b"] [] [js "a"] [], false)] by by vm_compute. by left. }
  assert (Hr : updates_reached (λ s, s) sample_updates).
  { apply (updates_next _ SubmitUpdates (default updates_mounted (run_updates [OpenUpdates 1 [js "a"; js "b"] [] AddTab; ToggleModel (js "a")] updates_mounted)));
      [|by vm_compute].
    apply (updates_next _ (ToggleModel (js "a")) (default updates_mounted (run_updates [OpenUpdates 1 [js "a"; js "b"] [] AddTab] updates_mounted)));
      [|by vm_compute].
    apply (updates_next _ (OpenUpdates 1 [js "a"; js "b"] [] AddTab) updates_mounted); [apply updates_start|by vm_compute]. }
  split; [exact Hin|]. split; [by vm_compute|].
  exact (proj1 (proj2 (proj2 (proj2 (updates_invariant _ _ Hr))) _ _ 1%Z Hin)).
Defined.
