(* ===== verification/JsonEditor.v ===== *)
(** * The JSON editor of the forms

    [web/src/components/common/ui/JSONEditor.jsx]: a JSON object in a form field,
    edited as rows of keys and values or as text.  The field's text is the value
    the parent hands down; a change is handed up and comes back as the new value.
    The two effects that follow the value run after every event.  Ids are the
    numbers of the counter that makes them. *)

From S2P Require Import Prelude JsString JsNumber Json JsObject.

Record pair := Pair { p_id : nat; p_key : jsstr; p_value : jval }.

(** ** Rows and objects *)

(** The rows of the entries; a row keeps the id of the previous row at its place
    if that has the same key. *)
Fixpoint rows (es : list (jsstr * jval)) (prevPairs : list pair) (counter : nat) : list pair * nat :=
  match es with
  | [] => ([], counter)
  | (k, v) :: es' =>
    let '(id, c1) := match prevPairs with
                     | prev :: _ => if streq (p_key prev) k then (p_id prev, counter) else (counter, S counter)
                     | [] => (counter, S counter)
                     end in
    let '(l, c2) := rows es' (tail prevPairs) c1 in
    (Pair id k v :: l, c2)
  end.
Definition object_entries (obj : jval) : list (jsstr * jval) := if truthy obj && typeof_object obj then entries obj else [].
Definition objectToKeyValueArray (obj : jval) (prevPairs : list pair) (counter : nat) : list pair * nat :=
  rows (object_entries obj) prevPairs counter.

(** An assignment to [__proto__] makes no property. *)
Definition assign_pair (result : list (jsstr * jval)) (item : pair) : list (jsstr * jval) :=
  if is_empty (p_key item) || streq (p_key item) (js "__proto__") then result else obj_set result (p_key item) (p_value item).
Definition keyValueArrayToObject (arr : list pair) : list (jsstr * jval) := fold_left assign_pair arr [].

(** The count of a name that every object inherits is not a number. *)
Definition count_key (acc : list (jsstr * nat) * list jsstr) (p : pair) : list (jsstr * nat) * list jsstr :=
  if is_empty (p_key p) || existsb (streq (p_key p)) inherited then acc else
  let n := S (default 0 (assoc_get acc.1 (p_key p))) in
  (assoc_set acc.1 (p_key p) n, if (1 <? n) && negb (existsb (streq (p_key p)) acc.2) then acc.2 ++ [p_key p] else acc.2).
Definition duplicateKeys (pairs : list pair) : list jsstr := (fold_left count_key pairs ([], [])).2.

Definition isDuplicate (pairs : list pair) (p : pair) : bool := existsb (streq (p_key p)) (duplicateKeys pairs).
Definition isLastDuplicate (pairs : list pair) (index : nat) (p : pair) : bool :=
  isDuplicate pairs p && forallb (λ q, negb (streq (p_key q) (p_key p))) (drop (S index) pairs).

(** ** State *)

Inductive mode := Visual | Manual.
#[global] Instance mode_eq_dec : EqDecision mode.
Proof. solve_decision. Defined.

(** [seen]: value and mode when the effects last ran *)
Record jeditor := JEditor {
  value : jsstr; keyValuePairs : list pair; manualText : jsstr; editMode : mode; jsonError : bool; counter : nat;
  seen : option (jsstr * mode)
}.

(** A text is JSON, and a blank one is no object. *)
Definition read_value (s : jsstr) : option jval := if blank s then Some (JObj []) else parse s.

Definition object_text (o : list (jsstr * jval)) : jsstr := match o with [] => [] | _ => default [] (stringify2 (JObj o)) end.

Definition initial_pairs (v : jsstr) (n : nat) : list pair * nat :=
  if blank v then ([], n) else match parse v with Some parsed => objectToKeyValueArray parsed [] n | None => ([], n) end.
(** [Object.keys(null)] throws. *)
Definition initial_mode (v : jsstr) : mode :=
  if blank v then Visual else
  match parse v with
  | Some parsed => if is_nullish parsed then Manual else if 10 <? length (keys parsed) then Manual else Visual
  | None => Manual
  end.

(** *** Effects *)

Definition sync_pairs (e : jeditor) : jeditor :=
  match read_value (value e) with
  | None => JEditor (value e) (keyValuePairs e) (manualText e) (editMode e) true (counter e) (seen e)
  | Some parsed =>
    let '(ps, n) := if bool_decide (stringify parsed = stringify (JObj (keyValueArrayToObject (keyValuePairs e))))
                    then (keyValuePairs e, counter e) else objectToKeyValueArray parsed (keyValuePairs e) (counter e) in
    JEditor (value e) ps (manualText e) (editMode e) false n (seen e)
  end.
Definition sync_text (e : jeditor) : jeditor :=
  match editMode e with
  | Manual => e
  | Visual => JEditor (value e) (keyValuePairs e) (value e) (editMode e) (jsonError e) (counter e) (seen e)
  end.
Definition effects (e : jeditor) : jeditor :=
  let e1 := if bool_decide (fst <$> seen e = Some (value e)) then e else sync_pairs e in
  let e2 := if bool_decide (seen e = Some (value e, editMode e)) then e1 else sync_text e1 in
  JEditor (value e2) (keyValuePairs e2) (manualText e2) (editMode e2) (jsonError e2) (counter e2) (Some (value e2, editMode e2)).

Definition mount (v : jsstr) (n : nat) : jeditor :=
  let '(ps, n') := initial_pairs v n in effects (JEditor v ps v (initial_mode v) false n' None).

(** *** Handlers *)

Definition handleVisualChange (newPairs : list pair) (n : nat) (e : jeditor) : jeditor :=
  JEditor (object_text (keyValueArrayToObject newPairs)) newPairs (manualText e) (editMode e) false n (seen e).

Definition handleManualChange (newValue : jsstr) (e : jeditor) : jeditor :=
  if blank newValue then JEditor [] [] newValue (editMode e) false (counter e) (seen e) else
  match parse newValue with
  | Some parsed =>
    let '(ps, n) := objectToKeyValueArray parsed (keyValuePairs e) (counter e) in JEditor newValue ps newValue (editMode e) false n (seen e)
  | None => JEditor (value e) (keyValuePairs e) newValue (editMode e) true (counter e) (seen e)
  end.

(** The tab to the text only switches; the one back reads the text, or the value
    if it is blank. *)
Definition to_manual (e : jeditor) : jeditor := JEditor (value e) (keyValuePairs e) (manualText e) Manual (jsonError e) (counter e) (seen e).
Definition toggleEditMode (e : jeditor) : jeditor :=
  match (if blank (manualText e) then read_value (value e) else parse (manualText e)) with
  | Some parsed =>
    let '(ps, n) := objectToKeyValueArray parsed (keyValuePairs e) (counter e) in JEditor (value e) ps (manualText e) Visual false n (seen e)
  | None => JEditor (value e) (keyValuePairs e) (manualText e) (editMode e) true (counter e) (seen e)
  end.

Definition field_key (n : nat) : jsstr := js "field_" ++ string_of_Z (Z.of_nat n).
Definition newKey (pairs : list pair) : jsstr := first_free field_key (length pairs) 1 (map p_key pairs).

Definition append_pair (k : jsstr) (v : jval) (e : jeditor) : jeditor :=
  handleVisualChange (keyValuePairs e ++ [Pair (counter e) k v]) (S (counter e)) e.
Definition addKeyValue (e : jeditor) : jeditor := append_pair (newKey (keyValuePairs e)) (JStr []) e.
Definition removeKeyValue (id : nat) (e : jeditor) : jeditor :=
  handleVisualChange (List.filter (λ p, negb (p_id p =? id)) (keyValuePairs e)) (counter e) e.
Definition updateKey (id : nat) (k : jsstr) (e : jeditor) : jeditor :=
  handleVisualChange (map (λ p, if p_id p =? id then Pair (p_id p) k (p_value p) else p) (keyValuePairs e)) (counter e) e.
Definition updateValue (id : nat) (v : jval) (e : jeditor) : jeditor :=
  handleVisualChange (map (λ p, if p_id p =? id then Pair (p_id p) (p_key p) v else p) (keyValuePairs e)) (counter e) e.

Definition fillTemplate (template : list (jsstr * jval)) (e : jeditor) : jeditor :=
  let templateString := default [] (stringify2 (JObj template)) in
  let '(ps, n) := objectToKeyValueArray (JObj template) (keyValuePairs e) (counter e) in
  JEditor templateString ps templateString (editMode e) false n (seen e).

(** *** The input of a value *)

Inductive control := SwitchBox | NumberBox | AreaBox | TextBox.
#[global] Instance control_eq_dec : EqDecision control.
Proof. solve_decision. Defined.
Definition renderValueInput (v : jval) : control :=
  match v with JBool _ => SwitchBox | JNum _ => NumberBox | JArr _ | JObj _ => AreaBox | _ => TextBox end.

(** What a text box makes of its text *)
Definition convertedValue (s : jsstr) : jval :=
  if streq s (js "true") then JBool true else if streq s (js "false") then JBool false else
  if negb (isNaN (Number_of_string s)) && negb (is_empty s)
  then let n := Number_of_string s in if isInteger n then JNum n else JStr s
  else JStr s.
(** What an area makes of it; [None] is ignored. *)
Definition nested_value (s : jsstr) : option jval := if blank s then Some (JObj []) else parse s.

Definition region_default (v : jsstr) (e : jeditor) : jeditor :=
  match List.find (λ p, streq (p_key p) (js "default")) (keyValuePairs e) with
  | Some p => updateValue (p_id p) (JStr v) e
  | None => append_pair (js "default") (JStr v) e
  end.

(** An emptied number box gives the empty text. *)
Inductive json_event :=
| AddRow | RemoveRow (id : nat) | RenameRow (id : nat) (k : jsstr)
| TypeText (id : nat) (s : jsstr) | SetSwitch (id : nat) (b : bool) | SetNumber (id : nat) (n : option num) | TypeNested (id : nat) (s : jsstr)
| RegionDefault (s : jsstr) | RegionValue (id : nat) (s : jsstr)
| EditText (s : jsstr) | ToManual | ToVisual | Fill | External (s : jsstr).

Section Events.
Context (template : list (jsstr * jval)) (region : bool).

Definition row_control (id : nat) (e : jeditor) : option control :=
  match List.find (λ p, p_id p =? id) (keyValuePairs e) with Some p => Some (renderValueInput (p_value p)) | None => None end.

Definition visual_event (ev : json_event) (e : jeditor) : option jeditor :=
  match ev with
  | AddRow => Some (addKeyValue e)
  | RemoveRow id => Some (removeKeyValue id e)
  | RenameRow id k => Some (updateKey id k e)
  | TypeText id s => if negb region && bool_decide (row_control id e = Some TextBox) then Some (updateValue id (convertedValue s) e) else None
  | SetSwitch id b => if negb region && bool_decide (row_control id e = Some SwitchBox) then Some (updateValue id (JBool b) e) else None
  | SetNumber id n => if negb region && bool_decide (row_control id e = Some NumberBox) then Some (updateValue id (match n with Some x => JNum x | None => JStr [] end) e) else None
  | TypeNested id s =>
    if negb region && bool_decide (row_control id e = Some AreaBox)
    then match nested_value s with Some v => Some (updateValue id v e) | None => Some e end else None
  | RegionDefault s => if region then Some (region_default s e) else None
  | RegionValue id s => if region then Some (updateValue id (JStr s) e) else None
  | _ => None
  end.

Definition json_handle (ev : json_event) (e : jeditor) : option jeditor :=
  match ev, editMode e with
  | Fill, _ => Some (fillTemplate template e)
  | External s, m => Some (JEditor s (keyValuePairs e) (manualText e) m (jsonError e) (counter e) (seen e))
  | ToManual, Visual => Some (to_manual e)
  | ToVisual, Manual => Some (toggleEditMode e)
  | EditText s, Manual => Some (handleManualChange s e)
  | _, Visual => visual_event ev e
  | _, Manual => None
  end.
Definition json_step (ev : json_event) (e : jeditor) : option jeditor := option_map effects (json_handle ev e).
End Events.
