(* ===== verification/JsonEditorTheorems.v ===== *)
(** * The JSON editor: what holds of it

    Rows have ids of their own and show the stored object, whatever is edited
    where; the stored text reads back as what the rows say, with the last of
    several rows of one key; and the texts the editor cannot store. *)

From S2P Require Import Prelude JsString JsNumber Json JsObject JsOrder JsonEditor.

Local Opaque js.

Ltac parts := cbn [value keyValuePairs manualText editMode jsonError counter seen handleVisualChange] in *.

(** ** Rows and objects *)

Definition sound_pair (p : pair) : Prop := forallb unit_ok (p_key p) = true ∧ json_ok (p_value p) = true.
Definition kv (p : pair) : jsstr * jval := (p_key p, p_value p).

Lemma object_keys ps : NoDup (map fst (keyValueArrayToObject ps)).
Proof.
  unfold keyValueArrayToObject. apply fold_left_inv; [constructor|]. intros o p _ Ho. unfold assign_pair. case_match; [done|].
  by apply obj_set_keys.
Qed.

Lemma object_sound ps : Forall sound_pair ps → json_ok (JObj (own_entries (keyValueArrayToObject ps))) = true.
Proof.
  intros Hs. set (o := keyValueArrayToObject ps).
  assert (Ho : forallb (λ e, forallb unit_ok e.1) o = true ∧ forallb (λ e, json_ok e.2) o = true).
  { unfold o, keyValueArrayToObject. apply fold_left_inv; [done|]. intros a p Hp [H1 H2]. unfold assign_pair. case_match; [done|].
    rewrite Forall_forall in Hs. destruct (Hs p Hp). by split; apply forallb_obj_set. }
  cbn [json_ok]. rewrite !andb_true_iff, !bool_decide_eq_true. destruct Ho as [H1 H2]. split_and!.
  - rewrite forallb_forall in *. intros e He. apply H1. by eapply Permutation_in; [apply own_entries_perm|].
  - apply entries_NoDup, object_keys.
  - unfold own_keys. by rewrite own_entries_idemp.
  - rewrite forallb_forall in *. intros e He. apply H2. by eapply Permutation_in; [apply own_entries_perm|].
Qed.

(** The stored text reads back as the object of the rows. *)
Lemma text_reads ps : Forall sound_pair ps →
  read_value (object_text (keyValueArrayToObject ps)) = Some (JObj (own_entries (keyValueArrayToObject ps))).
Proof.
  intros Hs. pose proof (object_sound ps Hs) as Hok. pose proof (object_keys ps) as Hnd. unfold object_text.
  destruct (keyValueArrayToObject ps) as [|e o] eqn:E; [done|]. unfold stringify2. rewrite <- stringify_own by done.
  destruct (parse_stringify_at (js "  ") _ ltac:(by vm_compute) Hok) as (t & Ht & Hp). rewrite Ht.
  change (default [] (Some t)) with t. unfold read_value.
  by rewrite (object_not_blank _ _ _ _ Ht).
Qed.

(** ** What the rows show *)

(** The rows show a value: they make the object with the same text, or they are its
    entries. *)
Definition shows (ps : list pair) (parsed : jval) : Prop :=
  stringify parsed = stringify (JObj (keyValueArrayToObject ps)) ∨ map kv ps = object_entries parsed.

Lemma rows_kv es prev n : map kv (rows es prev n).1 = es.
Proof.
  revert prev n. induction es as [|[k v] es IH]; intros prev n; cbn [rows]; [done|].
  destruct (match prev with [] => _ | _ :: _ => _ end) as [id c1]. specialize (IH (tail prev) c1). destruct (rows es (tail prev) c1) as [l c2].
  cbn [fst map kv p_key p_value] in *. by rewrite IH.
Qed.

(** Ids of rows: taken over from different places, or new *)
Definition ids_ok (ps : list pair) (n : nat) : Prop := NoDup (map p_id ps) ∧ Forall (λ p, p_id p < n) ps.

Lemma rows_ids es prev n : ids_ok prev n → n ≤ (rows es prev n).2 ∧ ids_ok (rows es prev n).1 (rows es prev n).2 ∧
  (∀ p, p ∈ (rows es prev n).1 → p_id p ∈ map p_id prev ∨ n ≤ p_id p).
Proof.
  revert prev n. induction es as [|[k v] es IH]; intros prev n [Hnd Hlt]; cbn [rows fst snd].
  { split_and!; [lia|by split; constructor|by intros p ?%elem_of_nil]. }
  assert (Ht : ∀ m, n ≤ m → ids_ok (tail prev) m).
  { intros m Hm. destruct prev as [|q prev]; cbn [tail]; [by split; constructor|]. apply NoDup_cons in Hnd as [_ Hnd]. apply Forall_cons in Hlt as [_ Hlt].
    split; [done|]. eapply Forall_impl; [exact Hlt|]. cbn. lia. }
  set (x := match prev with [] => _ | _ :: _ => _ end).
  assert (Hx : n ≤ x.2 ∧ x.1 < x.2 ∧ (x.1 ∈ map p_id prev ∨ x.1 = n) ∧ ∀ i, i ∈ map p_id (tail prev) ∨ x.2 ≤ i → i ≠ x.1).
  { unfold x. clear IH x. destruct prev as [|q prev]; cbn [tail map] in *.
    { cbn [fst snd]. split_and!; [lia|lia|by right|]. intros i [?%elem_of_nil|?]; [done|lia]. }
    apply NoDup_cons in Hnd as [Hni Hnd]. apply Forall_cons in Hlt as [Hq Hlt].
    assert (Hold : ∀ i, i ∈ map p_id prev → i < n).
    { rewrite Forall_forall in Hlt. intros i (p & -> & Hp)%list_elem_of_fmap. by apply Hlt. }
    case_match; cbn [fst snd]; (split_and!; [lia|lia| |]).
    - left. by left.
    - intros i [Hi|Hi]; [intros ->; done|lia].
    - by right.
    - intros i [Hi|Hi]; [specialize (Hold _ Hi); lia|lia]. }
  clearbody x. destruct x as [id c1]. cbn [fst snd] in Hx. destruct Hx as (H1 & H2 & H3 & H4).
  specialize (IH (tail prev) c1 (Ht c1 H1)). destruct (rows es (tail prev) c1) as [l c2]. cbn [fst snd] in *.
  destruct IH as (I1 & [I2 I3] & I4). split_and!; [lia|split|].
  - cbn [map p_id]. apply NoDup_cons. split; [|done]. intros (p & Hp & Hin)%list_elem_of_fmap. apply (H4 (p_id p)); [by apply I4|done].
  - constructor; [cbn; lia|done].
  - intros p [->|Hp]%elem_of_cons; cbn [p_id]; [destruct H3 as [?| ->]; [by left|by right]|].
    destruct (I4 p Hp) as [Hi|?]; [|right; lia]. left. destruct prev; [done|]. by right.
Qed.

Lemma array_ids obj prev n : ids_ok prev n → ids_ok (objectToKeyValueArray obj prev n).1 (objectToKeyValueArray obj prev n).2.
Proof. intros H. by apply (rows_ids (object_entries obj) prev n H). Qed.
Lemma array_shows obj prev n : shows (objectToKeyValueArray obj prev n).1 obj.
Proof. right. apply rows_kv. Qed.

(** ** Every state *)

Definition shown (e : jeditor) : Prop :=
  ∀ parsed, read_value (value e) = Some parsed → Forall sound_pair (keyValuePairs e) → shows (keyValuePairs e) parsed.
(** Text that reads as JSON is stored; blank text leaves the field blank. *)
Definition text_stored (e : jeditor) : Prop :=
  (blank (manualText e) = true → blank (value e) = true) ∧
  ∀ parsed, blank (manualText e) = false → parse (manualText e) = Some parsed → value e = manualText e.

Record jinv (e : jeditor) : Prop := JInv {
  inv_ids : ids_ok (keyValuePairs e) (counter e);
  inv_seen : seen e = Some (value e, editMode e);
  inv_visual : editMode e = Visual → manualText e = value e;
  inv_manual : editMode e = Manual → text_stored e;
  inv_shown : shown e
}.

(** Before the effects *)
Record pre (e : jeditor) : Prop := Pre {
  pre_ids : ids_ok (keyValuePairs e) (counter e);
  pre_visual : seen e = Some (value e, Visual) → manualText e = value e;
  pre_manual : editMode e = Manual → text_stored e;
  pre_shown : fst <$> seen e = Some (value e) → shown e
}.

Lemma sync_pairs_pre e : pre e → pre (sync_pairs e) ∧ shown (sync_pairs e).
Proof.
  intros [H1 H2 H3 H4]. unfold sync_pairs. destruct (read_value (value e)) as [parsed|] eqn:E.
  - case_bool_decide as Es.
    + assert (Hs : shown (JEditor (value e) (keyValuePairs e) (manualText e) (editMode e) false (counter e) (seen e))).
      { intros p Hp _. parts. left. congruence. }
      split; [|exact Hs]. by split; parts.
    + pose proof (array_ids parsed _ _ H1) as Hi. pose proof (array_shows parsed (keyValuePairs e) (counter e)) as Ha.
      destruct (objectToKeyValueArray parsed (keyValuePairs e) (counter e)) as [ps n]. cbn [fst snd] in *.
      assert (Hs : shown (JEditor (value e) ps (manualText e) (editMode e) false n (seen e))) by (intros p Hp _; parts; by simplify_eq).
      split; [|exact Hs]. by split; parts.
  - assert (Hs : shown (JEditor (value e) (keyValuePairs e) (manualText e) (editMode e) true (counter e) (seen e))).
    { intros p Hp. parts. congruence. }
    split; [|exact Hs]. by split; parts.
Qed.

Lemma sync_pairs_kept e : value (sync_pairs e) = value e ∧ editMode (sync_pairs e) = editMode e ∧ seen (sync_pairs e) = seen e.
Proof. unfold sync_pairs. repeat case_match; done. Qed.

Lemma effects_inv e : pre e → jinv (effects e).
Proof.
  intros Hp. unfold effects.
  set (e1 := if bool_decide (fst <$> seen e = Some (value e)) then e else sync_pairs e).
  assert (He : pre e1 ∧ shown e1 ∧ value e1 = value e ∧ editMode e1 = editMode e ∧ seen e1 = seen e).
  { unfold e1. case_bool_decide as E; [by split_and!; [|apply (pre_shown _ Hp)|..]|].
    pose proof (sync_pairs_pre e Hp) as []. by pose proof (sync_pairs_kept e) as (? & ? & ?). }
  clearbody e1. destruct He as ([H1 H2 H3 H4] & Hs & Ev & Em & Es). rewrite <- Es, <- Ev, <- Em.
  case_bool_decide as Eb.
  - split; parts; try done. intros Hv. apply H2. by rewrite Eb, Hv.
  - unfold sync_text. destruct (editMode e1) eqn:E; split; parts; try done; by rewrite ?E.
Qed.

Lemma visual_pre ps n e : ids_ok ps n → editMode e = Visual → jinv e → pre (handleVisualChange ps n e).
Proof.
  intros Hi Hm He. split; parts; try done; [|congruence|].
  - rewrite (inv_seen _ He). intros [= Hv _]. rewrite <- Hv. by apply inv_visual.
  - intros _ parsed Hr Hs. parts. rewrite text_reads in Hr by done. injection Hr as <-. left. apply stringify_own, object_keys.
Qed.

Lemma no_ids n : ids_ok [] n.
Proof. split; [apply NoDup_nil_2|apply Forall_nil_2]. Qed.
Lemma append_ids ps n k v : ids_ok ps n → ids_ok (ps ++ [Pair n k v]) (S n).
Proof.
  intros [Hnd Hlt]. split.
  - rewrite map_app. apply NoDup_app. split_and!; [done| |apply NoDup_singleton]. intros i (p & -> & Hp)%list_elem_of_fmap.
    rewrite Forall_forall in Hlt. specialize (Hlt p Hp). cbn. intros ?%list_elem_of_singleton. lia.
  - apply Forall_app. split; [|constructor; [cbn; lia|done]]. eapply Forall_impl; [exact Hlt|]. cbn. lia.
Qed.
Lemma filter_ids ps n f : ids_ok ps n → ids_ok (List.filter f ps) n.
Proof.
  intros [Hnd Hlt]. split.
  - induction ps as [|p ps IH]; cbn [List.filter map] in *; [done|]. apply NoDup_cons in Hnd as [Hni Hnd]. apply Forall_cons in Hlt as [_ Hlt].
    destruct (f p); [|by apply IH]. cbn [map]. apply NoDup_cons. split; [|by apply IH].
    intros (q & Hq & [Hin _]%list_elem_of_In%filter_In)%list_elem_of_fmap. apply Hni. rewrite Hq. apply list_elem_of_fmap_2. by apply list_elem_of_In.
  - rewrite Forall_forall in *. intros p [Hin _]%list_elem_of_In%filter_In. apply Hlt. by apply list_elem_of_In.
Qed.
Lemma map_ids ps n f : (∀ p, p_id (f p) = p_id p) → ids_ok ps n → ids_ok (map f ps) n.
Proof.
  intros Hf [Hnd Hlt]. split; [|by apply Forall_map; eapply Forall_impl; [exact Hlt|]; cbn; intros p; rewrite Hf].
  by rewrite map_map, (map_ext _ _ Hf).
Qed.

Section Events.
Context (template : list (jsstr * jval)) (region : bool) (Htemplate : json_ok (JObj template) = true).

Lemma update_pre id v e : editMode e = Visual → jinv e → pre (updateValue id v e).
Proof. intros Hm He. apply visual_pre; [|done|done]. apply map_ids; [|apply He]. intros p. by case_match. Qed.

Lemma fill_pre e : jinv e → pre (fillTemplate template e).
Proof.
  intros He. destruct (parse_stringify_at (js "  ") (JObj template) ltac:(by vm_compute) Htemplate) as (t & Ht & Hp).
  unfold fillTemplate, stringify2. rewrite Ht. change (default [] (Some t)) with t.
  pose proof (array_ids (JObj template) _ _ (inv_ids _ He)) as Hi.
  pose proof (array_shows (JObj template) (keyValuePairs e) (counter e)) as Ha.
  destruct (objectToKeyValueArray _ _ _) as [ps n]. cbn [fst snd] in *. split; parts; try done.
  intros _ parsed Hr _. parts. unfold read_value in Hr. rewrite (object_not_blank _ _ _ _ Ht), Hp in Hr. by injection Hr as <-.
Qed.

Lemma manual_pre s e : editMode e = Manual → jinv e → pre (handleManualChange s e).
Proof.
  intros Hm He. unfold handleManualChange. destruct (blank s) eqn:Eb.
  - split; parts; [apply no_ids|by rewrite (inv_seen _ He), Hm|intros _; split; parts; [done|congruence]|].
    intros _ parsed [= <-] _. by left.
  - destruct (parse s) as [parsed|] eqn:Ep.
    + pose proof (array_ids parsed _ _ (inv_ids _ He)) as Hi. pose proof (array_shows parsed (keyValuePairs e) (counter e)) as Ha.
      destruct (objectToKeyValueArray _ _ _) as [ps n]. cbn [fst snd] in *. split; parts; [done|done|intros _; split; parts; congruence|].
      intros _ p Hr _. parts. unfold read_value in Hr. rewrite Eb, Ep in Hr. by injection Hr as <-.
    + split; parts; [apply He|by rewrite (inv_seen _ He), Hm|intros _; split; parts; congruence|intros _; apply He].
Qed.

Lemma toggle_pre e : editMode e = Manual → jinv e → pre (toggleEditMode e).
Proof.
  intros Hm He. destruct (inv_manual _ He Hm) as [Hb Hv]. unfold toggleEditMode.
  destruct (if blank (manualText e) then _ else _) as [parsed|] eqn:Ep.
  - assert (Hr : read_value (value e) = Some parsed).
    { destruct (blank (manualText e)) eqn:E; [done|]. rewrite (Hv parsed eq_refl Ep). unfold read_value. by rewrite E. }
    pose proof (array_ids parsed _ _ (inv_ids _ He)) as Hi. pose proof (array_shows parsed (keyValuePairs e) (counter e)) as Ha.
    destruct (objectToKeyValueArray _ _ _) as [ps n]. cbn [fst snd] in *. split; parts; [done|by rewrite (inv_seen _ He), Hm|done|].
    intros _ p Hp _. parts. by simplify_eq.
  - split; parts; [apply He|by rewrite (inv_seen _ He), Hm|intros _; by apply (inv_manual _ He)|intros _; apply He].
Qed.

Lemma visual_event_pre ev e e' : editMode e = Visual → jinv e → visual_event region ev e = Some e' → pre e'.
Proof.
  intros Hm He Hev. assert (Happ : ∀ k v, pre (append_pair k v e)) by (intros; apply visual_pre; [apply append_ids, He|done|done]).
  assert (Hsame : pre e) by (split; [apply He|intros _; by apply inv_visual|intros; congruence|intros _; apply He]).
  destruct ev; cbn [visual_event] in Hev; repeat (case_match; try done); try done; apply (inj Some) in Hev; subst e'; try by apply update_pre.
  - apply Happ.
  - apply visual_pre; [apply filter_ids, He|done|done].
  - apply visual_pre; [apply map_ids; [|apply He]|done|done]. intros p. by case_match.
  - done.
  - unfold region_default. case_match; [by apply update_pre|apply Happ].
Qed.

(** The states of an editor that its parent leaves alone while the text is edited *)
Inductive json_reached : jeditor → Prop :=
| json_mount v n : json_reached (mount v n)
| json_next ev e e' : json_reached e → (∀ s, ev = External s → editMode e = Visual) → json_step template region ev e = Some e' → json_reached e'.

(** C18. Whatever is done in the rows and in the text, and by the form around the
    editor while the rows are shown, with a template that is JSON: rows have different
    ids; while the rows are shown the text is the stored one, on which the text view
    opens; in the text view, text that is JSON is stored as it is typed, and blank text
    leaves the field blank; and if the stored value can be read and JSON can hold the
    rows, they show it - they make an object with the same text, or are its entries. *)
Theorem json_editor_invariant e : json_reached e → jinv e.
Proof.
  induction 1 as [v n|ev e e' _ He Hext Hst].
  - unfold mount. assert (Hi : ids_ok (initial_pairs v n).1 (initial_pairs v n).2).
    { unfold initial_pairs. case_match; [apply no_ids|]. case_match; [|apply no_ids]. apply array_ids, no_ids. }
    destruct (initial_pairs v n) as [ps n']. cbn [fst snd] in Hi. apply effects_inv. split; parts; try done.
  - unfold json_step in Hst. destruct (json_handle template region ev e) as [e1|] eqn:Eh; [|done]. apply (inj Some) in Hst. subst e'.
    apply effects_inv. unfold json_handle in Eh. destruct (editMode e) eqn:Em; destruct ev; try done; try (by eapply visual_event_pre);
      apply (inj Some) in Eh; subst e1; try (by apply fill_pre); try (by apply manual_pre); try (by apply toggle_pre).
    + unfold to_manual. split; parts; [apply He|intros _; by apply inv_visual|intros _|intros _; apply He].
      by split; parts; rewrite (inv_visual _ He Em).
    + split; parts; [apply He|rewrite (inv_seen _ He)|congruence|rewrite (inv_seen _ He)].
      * intros [= <-]. by apply inv_visual.
      * intros [= <-]. apply He.
    + by specialize (Hext _ eq_refl).
Qed.
End Events.

(** ** What is stored *)

Definition storable (k : jsstr) : bool := negb (is_empty k || streq k (js "__proto__")).
(** The value of the last row with a key *)
Definition last_value (k : jsstr) (ps : list pair) : option jval :=
  fold_left (λ acc p, if streq (p_key p) k then Some (p_value p) else acc) ps None.

Lemma object_get ps k : obj_get (keyValueArrayToObject ps) k = if storable k then default JUndef (last_value k ps) else JUndef.
Proof.
  unfold keyValueArrayToObject, last_value.
  assert (Hgen : ∀ o acc, obj_get o k = (if storable k then default JUndef acc else JUndef) →
    obj_get (fold_left assign_pair ps o) k =
    if storable k then default JUndef (fold_left (λ acc p, if streq (p_key p) k then Some (p_value p) else acc) ps acc) else JUndef).
  { induction ps as [|p ps IH]; intros o acc H; cbn [fold_left]; [done|]. apply IH. unfold assign_pair, storable in *.
    destruct (streq (p_key p) k) eqn:E.
    - apply streq_true in E. rewrite <- E in *. destruct (is_empty (p_key p) || _) eqn:Es; cbn [negb] in *; [done|].
      by rewrite obj_get_set, streq_refl.
    - destruct (is_empty (p_key p) || _); [done|]. by rewrite obj_get_set, E. }
  apply Hgen. by destruct (storable k).
Qed.

Lemma kv_effects e es : map kv (keyValuePairs e) = es → (∀ parsed, read_value (value e) = Some parsed → object_entries parsed = es) →
  map kv (keyValuePairs (effects e)) = es.
Proof.
  intros H1 H2. assert (Hs : map kv (keyValuePairs (sync_pairs e)) = es).
  { unfold sync_pairs. destruct (read_value (value e)) as [parsed|] eqn:E; [|done]. case_bool_decide; [done|].
    pose proof (rows_kv (object_entries parsed) (keyValuePairs e) (counter e)) as Hr. unfold objectToKeyValueArray.
    destruct (rows _ _ _). cbn [fst] in Hr. parts. rewrite Hr. by apply H2. }
  unfold effects, sync_text. repeat case_match; by parts.
Qed.

(** The rows are stored exactly: opened again on the stored text, the editor
    shows one row per key, in the order of the object, and the value of a key is
    that of the last row with it. *)
Theorem rows_saved_exactly ps n e m : Forall sound_pair ps →
  map kv (keyValuePairs (mount (value (handleVisualChange ps n e)) m)) = own_entries (keyValueArrayToObject ps) ∧
  NoDup (map fst (keyValueArrayToObject ps)) ∧
  ∀ k, obj_get (keyValueArrayToObject ps) k = if storable k then default JUndef (last_value k ps) else JUndef.
Proof.
  intros Hs. split; [|split; [apply object_keys|intros; apply object_get]]. parts. pose proof (text_reads ps Hs) as Hr.
  set (s := object_text (keyValueArrayToObject ps)) in *. set (es := own_entries (keyValueArrayToObject ps)) in *.
  assert (Hes : object_entries (JObj es) = es) by apply own_entries_idemp.
  assert (Hp : map kv (initial_pairs s m).1 = es).
  { unfold read_value in Hr. unfold initial_pairs. destruct (blank s).
    - injection Hr as Hr. by rewrite <- Hr.
    - rewrite Hr. unfold objectToKeyValueArray. by rewrite rows_kv. }
  unfold mount. destruct (initial_pairs s m) as [l c]. apply kv_effects; parts; [done|]. intros parsed Hq. rewrite Hr in Hq. by injection Hq as <-.
Qed.

(** *** Duplicate keys *)

Definition counted (k : jsstr) : bool := negb (is_empty k || existsb (streq k) inherited).
Definition occurrences (k : jsstr) (ps : list pair) : nat := length (List.filter (λ p, streq (p_key p) k) ps).

Lemma duplicate_keys ps k : k ∈ duplicateKeys ps ↔ counted k = true ∧ 2 ≤ occurrences k ps.
Proof.
  unfold duplicateKeys.
  assert (H : ∀ k, (counted k = true → default 0 (assoc_get (fold_left count_key ps ([], [])).1 k) = occurrences k ps) ∧
    (k ∈ (fold_left count_key ps ([], [])).2 ↔ counted k = true ∧ 2 ≤ occurrences k ps)); [|apply H].
  clear k. induction ps as [|p ps IH] using rev_ind; intros k.
  { split; [done|]. split; [by intros ?%elem_of_nil|]. cbn. lia. }
  rewrite fold_left_app. cbn [fold_left]. set (acc := fold_left count_key ps ([], [])) in *. destruct (IH k) as [IH1 IH2].
  assert (Ho : occurrences k (ps ++ [p]) = occurrences k ps + (if streq (p_key p) k then 1 else 0)).
  { unfold occurrences. rewrite List.filter_app, length_app. cbn [List.filter]. by case_match. }
  rewrite Ho. unfold count_key. destruct (is_empty (p_key p) || _) eqn:Es.
  - destruct (streq (p_key p) k) eqn:E; [|by rewrite Nat.add_0_r]. apply streq_true in E. rewrite <- E in *.
    assert (Hc : counted (p_key p) = false) by (unfold counted; by rewrite Es). rewrite Hc in *. naive_solver.
  - cbn [fst snd]. rewrite assoc_get_set. destruct (streq (p_key p) k) eqn:E.
    + apply streq_true in E. rewrite <- E in *. assert (Hc : counted (p_key p) = true) by (unfold counted; by rewrite Es).
      rewrite decide_True by done. cbn [default from_option]. rewrite (IH1 Hc). split; [intros _; cbn; lia|].
      destruct (1 <? S (occurrences (p_key p) ps)) eqn:El; cbn [andb].
      * apply Nat.ltb_lt in El. destruct (existsb (streq (p_key p)) acc.2) eqn:Ex; cbn [negb].
        -- apply existsb_streq in Ex. split; [intros _; split; [done|lia]|done].
        -- rewrite elem_of_app, list_elem_of_singleton. split; [intros _; split; [done|lia]|by right].
      * apply Nat.ltb_ge in El. rewrite IH2. lia.
    + assert (Hne : p_key p ≠ k) by (intros Heq; by rewrite Heq, streq_refl in E). rewrite decide_False by done. rewrite Nat.add_0_r.
      split; [done|]. case_match; [|done]. rewrite elem_of_app, list_elem_of_singleton. naive_solver.
Qed.

Lemma last_value_app k ps p rest : p_key p = k → forallb (λ q, negb (streq (p_key q) k)) rest = true → last_value k (ps ++ p :: rest) = Some (p_value p).
Proof.
  intros Hk Hr. unfold last_value. rewrite fold_left_app. cbn [fold_left]. rewrite Hk, streq_refl.
  induction rest as [|q rest IH]; cbn [fold_left forallb] in *; [done|]. apply andb_true_iff in Hr as [H1%negb_true_iff H2]. rewrite H1. by apply IH.
Qed.

Lemma proto_inherited : existsb (streq (js "__proto__")) inherited = true.
Proof. by vm_compute. Qed.

(** The warning is exact: a key is reported if and only if two rows have it (and no
    object inherits a property of the name), and the row marked as the last one
    is the one whose value is stored. *)
Theorem duplicate_warning_exact ps :
  (∀ k, k ∈ duplicateKeys ps ↔ counted k = true ∧ 2 ≤ occurrences k ps) ∧
  (∀ i p, ps !! i = Some p → isLastDuplicate ps i p = true → obj_get (keyValueArrayToObject ps) (p_key p) = p_value p).
Proof.
  split; [intros; apply duplicate_keys|]. intros i p Hi [Hd Hl]%andb_true_iff.
  apply existsb_streq, duplicate_keys in Hd as [Hc _]. unfold counted in Hc. apply negb_true_iff, orb_false_iff in Hc as [He Hin].
  rewrite object_get. replace (storable (p_key p)) with true.
  - rewrite <- (take_drop_middle ps i p Hi) at 1. by rewrite last_value_app.
  - symmetry. unfold storable. rewrite He. cbn [orb]. apply negb_true_iff, not_true_iff_false. intros E%streq_true.
    rewrite E in Hin. by rewrite proto_inherited in Hin.
Qed.

(** *** New rows *)

Lemma field_key_inj m n : field_key m = field_key n → m = n.
Proof. unfold field_key. intros H%app_inv_head. by apply numeral_inj. Qed.

(** The search for the key of a new row ends after as many steps as there are rows,
    with a key no row has; the row is stored beside the others. *)
Theorem new_key_free ps : newKey ps ∉ map p_key ps.
Proof. apply first_free_fresh; [apply field_key_inj|by rewrite length_map]. Qed.

(** *** What the editor does not take *)

(** Text that is not JSON is shown but not stored; so a region alone, the first
    form the field for regions names, cannot be entered. *)
Theorem plain_text_not_stored template region s e e' : editMode e = Manual → seen e = Some (value e, editMode e) → blank s = false → parse s = None →
  json_step template region (EditText s) e = Some e' → value e' = value e ∧ manualText e' = s ∧ jsonError e' = true.
Proof.
  intros Hm Hseen Hb Hp Hst. unfold json_step, json_handle in Hst. rewrite Hm in Hst. cbn [option_map] in Hst. apply (inj Some) in Hst. subst e'.
  unfold handleManualChange. rewrite Hb, Hp. unfold effects. parts. rewrite Hseen. cbn [fmap option_fmap option_map fst].
  rewrite !bool_decide_eq_true_2 by done. by parts.
Qed.

Definition run_json (evs : list json_event) (e : jeditor) : option jeditor :=
  fold_left (λ acc ev, match acc with Some e => json_step [] false ev e | None => None end) evs (Some e).
Definition row_values (e : jeditor) : list (jsstr * jval) := map kv (keyValuePairs e).

(** A value that begins with a digit cannot be typed: the first digit turns the
    text box into a number box.  A space alone becomes the number 0. *)
Theorem digit_changes_box :
  option_map (λ e, (row_values e, row_control 0 e)) (run_json [AddRow; TypeText 0 (js "4")] (mount [] 0))
  = Some ([(js "field_1", JNum (num_of_Z 4))], Some NumberBox) ∧
  run_json [AddRow; TypeText 0 (js "4"); TypeText 0 (js "4o")] (mount [] 0) = None ∧
  convertedValue (js " ") = JNum nzero.
Proof. split_and!; by vm_compute. Qed.

(** A value the form sets while the text is edited is not shown: back in the rows
    the old text is read, and the next change stores it over the new value. *)
Theorem external_value_overwritten :
  let e0 := mount (jsq "{'a':'x'}") 0 in
  option_map (λ e, (value e, row_values e)) (run_json [ToManual; External (jsq "{'b':'y'}"); ToVisual] e0)
  = Some (jsq "{'b':'y'}", [(js "a", JStr (js "x"))]) ∧
  option_map (λ e, parse (value e)) (run_json [ToManual; External (jsq "{'b':'y'}"); ToVisual; AddRow] e0)
  = Some (Some (JObj [(js "a", JStr (js "x")); (js "field_1", JStr [])])).
Proof. split; by vm_compute. Qed.

(** Two rows of a key that every object inherits are not reported, and a member
    with an empty key is dropped by the first change of another row. *)
Theorem unreported_keys :
  duplicateKeys [Pair 0 (js "constructor") (JStr (js "a")); Pair 1 (js "constructor") (JStr (js "b"))] = [] ∧
  option_map (λ e, parse (value e)) (run_json [RenameRow 1 (js "m")] (mount (jsq "{'':1,'k':2}") 0))
  = Some (Some (JObj [(js "m", JNum (num_of_Z 2))])).
Proof. split; by vm_compute. Qed.

(** *** Witnesses *)

Lemma json_editor_invariant_witness : jinv (default (mount [] 0) (run_json [AddRow; RenameRow 0 (js "400"); ToManual] (mount [] 0))).
Proof.
  apply (json_editor_invariant [] false eq_refl).
  apply (json_next _ _ ToManual (default (mount [] 0) (run_json [AddRow; RenameRow 0 (js "400")] (mount [] 0)))); [|done|by vm_compute].
  apply (json_next _ _ (RenameRow 0 (js "400")) (default (mount [] 0) (run_json [AddRow] (mount [] 0)))); [|done|by vm_compute].
  apply (json_next _ _ AddRow (mount [] 0)); [apply json_mount|done|by vm_compute].
Defined.

Definition sample_pairs : list pair := [Pair 0 (js "b") (JStr (js "x")); Pair 1 (js "400") (JNum (num_of_Z 500)); Pair 2 (js "b") (JStr (js "y"))].
Lemma rows_saved_exactly_witness :
  map kv (keyValuePairs (mount (value (handleVisualChange sample_pairs 3 (mount [] 0))) 7)) = own_entries (keyValueArrayToObject sample_pairs).
Proof.
  apply (rows_saved_exactly sample_pairs 3 (mount [] 0) 7). unfold sample_pairs.
  repeat (apply Forall_cons; split; [split; by vm_compute|]). apply Forall_nil_2.
Defined.
