(* ===== verification/ChannelAffinity.v ===== *)
(** * The rules of the channel affinity

    [web/src/pages/Setting/Operation/SettingsChannelAffinity.jsx]: rules that keep
    the requests of a conversation on one channel, edited in a table with a dialog
    or as JSON text.  The page is a state under clicks, the answers that bring new
    options, and its effects.

    [None] of a function that reads rules is the [TypeError] of a stored value of
    an unexpected type.  [validate] is the check of the form library, [now] the
    clock, [lower] is [toLowerCase].  Options of the server are texts, except that
    the parent page turns [enabled] into a boolean.  Cache statistics, the folding
    of the advanced settings and messages are left out. *)

From S2P Require Import Prelude JsString JsNumber Json JsObject ParamOverride ParamOverrideEditor.

(** ** Shared helpers *)

(** [web/src/helpers/boolean.js] *)
Definition toBoolean (lower : jsstr → jsstr) (v : jval) : bool :=
  match v with
  | JBool b => b
  | JNum x => neq x (num_of_Z 1)
  | JStr s => streq (lower s) (js "true") || streq (lower s) (js "1")
  | _ => false
  end.

(** [(v || '').trim()] *)
Definition trim_of (v : jval) : option jsstr := match js_or v (JStr []) with JStr s => Some (trim s) | _ => None end.

(** ** Rules and texts *)

Definition normalizeStringList (text : jsstr) : list jsstr :=
  if is_empty text then [] else filter_truthy (map trim (split [10%N] text)).

Definition rule : Type := list (jsstr * jval).
Definition ID : jsstr := js "id".
Definition with_default (text : jsstr) : jsstr := if is_empty text then js "[]" else text.

Definition numbered_rule (index : nat) (r : jval) : rule := spread [(ID, JNum (num_of_Z (Z.of_nat index)))] (js_or r (JObj [])).
Definition parseRulesJson (text : jsstr) : list rule :=
  match parse (with_default text) with Some (JArr l) => imap numbered_rule l | _ => [] end.

Definition without_id (r : rule) : rule := obj_delete r ID.
Definition rulesToJson (rules : list rule) : jsstr := default [] (stringify2 (JArr (map (λ r, JObj (without_id r)) rules))).

Definition key_source (type key path : jsstr) : jval := JObj [(js "type", JStr type); (js "key", JStr key); (js "path", JStr path)].
Definition normalizeKeySource (src : jval) : option jval :=
  type ← trim_of (read src (js "type"));
  key ← trim_of (read src (js "key"));
  path ← trim_of (read src (js "path"));
  Some (if streq type (js "gjson") then key_source type [] path else key_source type key []).

Definition suffixed (base : jsstr) (i : nat) : jsstr := base ++ js "-" ++ string_of_Z (Z.of_nat i).
Fixpoint unique_from (fuel i : nat) (now : jsstr) (existing : list jsstr) (base : jsstr) : jsstr :=
  match fuel with
  | 0 => base ++ js "-" ++ now
  | S fuel' => if existsb (streq (suffixed base i)) existing then unique_from fuel' (S i) now existing base else suffixed base i
  end.
(** The loop runs from 2 to 999. *)
Definition makeUniqueName (now : jsstr) (existing : list jsstr) (baseName : jsstr) : jsstr :=
  let base := if is_empty (trim baseName) then js "rule" else trim baseName in
  if existsb (streq base) existing then unique_from 998 2 now existing base else base.

Definition tryParseRulesJsonArray (text : jsstr) : option (list jval) :=
  match parse (with_default text) with Some (JArr l) => Some l | _ => None end.

Inductive checked (A : Type) := Ok (a : A) | Wrong (msg : jsstr).
Arguments Ok {A}. Arguments Wrong {A}.

Definition parseOptionalObjectJson (text label : jsstr) : checked (option jval) :=
  let raw := trim text in
  if is_empty raw then Ok None else
  match parse raw with
  | None => Wrong (label ++ js " JSON 格式不正确")
  | Some (JObj o) => Ok (Some (JObj o))
  | Some _ => Wrong (label ++ js " 必须是 JSON 对象")
  end.

(** ** The dialog of a rule *)

(** The fields of its form *)
Record values := Values {
  v_name : jval; v_model : jsstr; v_path : jsstr; v_agent : jsstr; v_regex : jval; v_ttl : jval; v_skip : jval;
  v_group : jval; v_model_name : jval; v_rule_name : jval
}.

(** [(v || []).join('\n')] *)
Definition lines_of (v : jval) : option jsstr :=
  match js_or v (JArr []) with
  | JArr l => Some (join [10%N] (map (λ x, if is_nullish x then [] else String_of x) l))
  | _ => None
  end.
Definition as_bool (v : jval) : jval := JBool (truthy v).

(** The values and the text of the template *)
Definition buildModalFormValues (r : rule) : option (values * jsstr) :=
  let get k := obj_get r (js k) in
  model ← lines_of (get "model_regex");
  path ← lines_of (get "path_regex");
  agent ← lines_of (get "user_agent_include");
  Some (Values (js_or (get "name") (JStr [])) model path agent (js_or (get "value_regex") (JStr []))
          (JNum (Number_of (js_or (get "ttl_seconds") (JNum nzero)))) (as_bool (get "skip_retry_on_failure"))
          (js_nullish (get "include_using_group") (JBool true)) (as_bool (get "include_model_name"))
          (js_nullish (get "include_rule_name") (JBool true)),
        if truthy (get "param_override_template") then default [] (stringify2 (get "param_override_template")) else []).

Record rule_dialog := RuleDialog { editingRule : rule; isEdit : bool; form : values; paramTemplateDraft : jsstr; templateEditor : bool }.

Definition new_rule : rule :=
  [(js "name", JStr []); (js "model_regex", JArr []); (js "path_regex", JArr []); (js "user_agent_include", JArr []);
   (js "key_sources", JArr [JObj [(js "type", JStr (js "gjson")); (js "path", JStr [])]]); (js "value_regex", JStr []);
   (js "ttl_seconds", JNum nzero); (js "skip_retry_on_failure", JBool false); (js "include_using_group", JBool true);
   (js "include_model_name", JBool false); (js "include_rule_name", JBool true)].

Definition open_on (edit : bool) (r : rule) : option rule_dialog :=
  match buildModalFormValues r with Some (v, draft) => Some (RuleDialog r edit v draft false) | None => None end.
Definition openAddModal : option rule_dialog := open_on false new_rule.

(** [(r.key_sources || []).map(normalizeKeySource)] *)
Definition normal_sources (v : jval) : option (list jval) :=
  match js_or v (JArr []) with JArr l => map_opt normalizeKeySource l | _ => None end.
Definition handleEditRule (r : rule) : option rule_dialog :=
  sources ← normal_sources (obj_get r (js "key_sources"));
  let agents := match obj_get r (js "user_agent_include") with JArr l => JArr l | _ => JArr [] end in
  open_on true (obj_set (obj_set r (js "user_agent_include") agents) (js "key_sources") (JArr sources)).

Definition source_type (x : jval) : jval := read x (js "type").
Definition source_error (x : jval) : option jsstr :=
  if strict_eq (source_type x) (JStr (js "context_int")) || strict_eq (source_type x) (JStr (js "context_string")) then
    if truthy (read x (js "key")) then None else Some (js "Key 不能为空")
  else if strict_eq (source_type x) (JStr (js "gjson")) then
    if truthy (read x (js "path")) then None else Some (js "Path 不能为空")
  else Some (js "Key 来源类型不合法").
Definition validateKeySources (v : jval) : option (checked (list jval)) :=
  sources ← normal_sources v;
  let xs := List.filter (λ x, truthy (source_type x)) sources in
  Some (if length xs =? 0 then Wrong (js "Key 来源不能为空")
        else match omap source_error xs with msg :: _ => Wrong msg | [] => Ok xs end).

Definition buildChannelAffinityRulePayload (id : jval) (name regex : jsstr) (v : values) (model path : list jsstr) (sources : list jval)
    (agents : list jsstr) (template : option jval) : rule :=
  [(ID, id); (js "name", JStr name); (js "model_regex", JArr (map JStr model)); (js "path_regex", JArr (map JStr path));
   (js "key_sources", JArr sources); (js "value_regex", JStr regex); (js "ttl_seconds", JNum (Number_of (js_or (v_ttl v) (JNum nzero))));
   (js "include_using_group", as_bool (v_group v)); (js "include_model_name", as_bool (v_model_name v));
   (js "include_rule_name", as_bool (v_rule_name v)); (js "skip_retry_on_failure", as_bool (v_skip v))] ++
  (if length agents =? 0 then [] else [(js "user_agent_include", JArr (map JStr agents))]) ++
  match template with Some x => [(js "param_override_template", x)] | None => [] end.

(** The rule the dialog saves, or its message; [count] is the number of rules. *)
Definition dialog_rule (validate : values → bool) (count : nat) (d : rule_dialog) : checked rule :=
  let v := form d in
  let broken := Wrong (js "请检查输入") in
  if negb (validate v) then broken else
  let model := normalizeStringList (v_model v) in
  if length model =? 0 then Wrong (js "模型正则不能为空") else
  match validateKeySources (obj_get (editingRule d) (js "key_sources")) with
  | None => broken
  | Some (Wrong msg) => Wrong msg
  | Some (Ok sources) =>
    match parseOptionalObjectJson (paramTemplateDraft d) (js "参数覆盖模板") with
    | Wrong msg => Wrong msg
    | Ok template =>
      match trim_of (v_name v), trim_of (v_regex v) with
      | Some name, Some regex =>
        if is_empty name then Wrong (js "名称不能为空")
        else Ok (buildChannelAffinityRulePayload (if isEdit d then obj_get (editingRule d) ID else JNum (num_of_Z (Z.of_nat count))) name regex v
                   model (normalizeStringList (v_path v)) sources (normalizeStringList (v_agent v)) template)
      | _, _ => broken
      end
    end
  end.

Definition same_id (id : jval) (r : rule) : bool := strict_eq (obj_get r ID) id.
(** The place of the edited rule; [None] is an exception, [Some None] not found. *)
Fixpoint find_name (name : jsstr) (i : nat) (rules : list rule) : option (option nat) :=
  match rules with
  | [] => Some None
  | r :: rules' =>
    match trim_of (obj_get r (js "name")) with
    | Some n => if streq n name then Some (Some i) else find_name name (S i) rules'
    | None => None
    end
  end.
Definition edited_place (d : rule_dialog) (rules : list rule) : option (option nat) :=
  match find_index (same_id (obj_get (editingRule d) ID)) rules with
  | Some i => Some (Some i)
  | None => if truthy (obj_get (editingRule d) (js "name")) && negb (length rules =? 0)
            then match trim_of (obj_get (editingRule d) (js "name")) with Some n => find_name n 0 rules | None => None end
            else Some None
  end.

Definition renumber (rules : list rule) : list rule := imap (λ i r, obj_set r ID (JNum (num_of_Z (Z.of_nat i)))) rules.

(** The rules after saving the dialog *)
Definition saved_rules (validate : values → bool) (rules : list rule) (d : rule_dialog) : checked (list rule) :=
  match dialog_rule validate (length rules) d with
  | Wrong msg => Wrong msg
  | Ok r =>
    if isEdit d then
      match edited_place d rules with
      | Some (Some i) => Ok (renumber (<[i := r]> rules))
      | Some None => Wrong (js "规则未找到，请刷新后重试")
      | None => Wrong (js "请检查输入")
      end
    else Ok (renumber (rules ++ [r]))
  end.

(** *** Key sources *)

Definition sources_of (d : rule_dialog) : list jval := match js_or (obj_get (editingRule d) (js "key_sources")) (JArr []) with JArr l => l | _ => [] end.
Definition set_sources (l : list jval) (d : rule_dialog) : rule_dialog :=
  RuleDialog (obj_set (editingRule d) (js "key_sources") (JArr l)) (isEdit d) (form d) (paramTemplateDraft d) (templateEditor d).
Definition updateKeySource (index : nat) (patch : list (jsstr * jval)) (d : rule_dialog) : option rule_dialog :=
  match sources_of d !! index with
  | Some src =>
    match normalizeKeySource (JObj (spread (spread [] (js_or src (JObj []))) (JObj patch))) with
    | Some x => Some (set_sources (<[index := x]> (sources_of d)) d)
    | None => None
    end
  | None => None
  end.
Definition addKeySource (d : rule_dialog) : rule_dialog :=
  set_sources (sources_of d ++ [JObj [(js "type", JStr (js "gjson")); (js "path", JStr [])]]) d.
Definition removeKeySource (index : nat) (d : rule_dialog) : rule_dialog := set_sources (delete index (sources_of d)) d.

(** The second column of the table: the text is the path of a [gjson] source, and
    the key of another one. *)
Definition type_source (index : nat) (text : jsstr) (d : rule_dialog) : option rule_dialog :=
  match sources_of d !! index with
  | Some src =>
    match normalizeKeySource src with
    | Some x => updateKeySource index [(if strict_eq (source_type x) (JStr (js "gjson")) then js "path" else js "key", JStr text)] d
    | None => None
    end
  | None => None
  end.

(** *** The template *)

Definition updateParamTemplateDraft (text : jsstr) (d : rule_dialog) : rule_dialog :=
  RuleDialog (editingRule d) (isEdit d) (form d) text (templateEditor d).
Definition formatParamTemplateDraft (d : rule_dialog) : rule_dialog :=
  let raw := trim (paramTemplateDraft d) in
  if is_empty raw then d else
  match parse raw with Some v => updateParamTemplateDraft (default [] (stringify2 v)) d | None => d end.
Definition show_editor (b : bool) (d : rule_dialog) : rule_dialog := RuleDialog (editingRule d) (isEdit d) (form d) (paramTemplateDraft d) b.

Definition type_name (s : jsstr) (d : rule_dialog) : rule_dialog :=
  let v := form d in
  RuleDialog (obj_set (editingRule d) (js "name") (JStr s)) (isEdit d)
    (Values (JStr s) (v_model v) (v_path v) (v_agent v) (v_regex v) (v_ttl v) (v_skip v) (v_group v) (v_model_name v) (v_rule_name v))
    (paramTemplateDraft d) (templateEditor d).
(** Any of the other fields; the texts of the form are texts, its switches are
    booleans, its number is a number or the empty text. *)
Definition type_fields (v : values) (d : rule_dialog) : rule_dialog :=
  RuleDialog (editingRule d) (isEdit d)
    (Values (v_name (form d)) (v_model v) (v_path v) (v_agent v) (v_regex v) (v_ttl v) (v_skip v) (v_group v) (v_model_name v) (v_rule_name v))
    (paramTemplateDraft d) (templateEditor d).

(** ** The page *)

Record inputs := Inputs { enabled : bool; switch_on_success : bool; max_entries : num; default_ttl : num; rules_text : jsstr }.
Definition set_text (text : jsstr) (i : inputs) : inputs := Inputs (enabled i) (switch_on_success i) (max_entries i) (default_ttl i) text.

Definition KEY_ENABLED : jsstr := js "channel_affinity_setting.enabled".
Definition KEY_SWITCH_ON_SUCCESS : jsstr := js "channel_affinity_setting.switch_on_success".
Definition KEY_MAX_ENTRIES : jsstr := js "channel_affinity_setting.max_entries".
Definition KEY_DEFAULT_TTL : jsstr := js "channel_affinity_setting.default_ttl_seconds".
Definition KEY_RULES : jsstr := js "channel_affinity_setting.rules".
Definition inputs_object (i : inputs) : list (jsstr * jval) :=
  [(KEY_ENABLED, JBool (enabled i)); (KEY_SWITCH_ON_SUCCESS, JBool (switch_on_success i)); (KEY_MAX_ENTRIES, JNum (max_entries i));
   (KEY_DEFAULT_TTL, JNum (default_ttl i)); (KEY_RULES, JStr (rules_text i))].

Inductive affinity_mode := VisualMode | JsonMode.
#[global] Instance affinity_mode_eq_dec : EqDecision affinity_mode.
Proof. solve_decision. Defined.

(** [seen]: what the effect that follows the text saw when it last ran *)
Record page := Page {
  inputs_now : inputs; inputsRow : inputs; editMode : affinity_mode; rules : list rule; modal : option rule_dialog;
  seen : option (jsstr * affinity_mode)
}.
Definition set_inputs (i : inputs) (p : page) : page := Page i (inputsRow p) (editMode p) (rules p) (modal p) (seen p).
Definition set_mode (m : affinity_mode) (p : page) : page := Page (inputs_now p) (inputsRow p) m (rules p) (modal p) (seen p).
Definition set_modal (d : option rule_dialog) (p : page) : page := Page (inputs_now p) (inputsRow p) (editMode p) (rules p) d (seen p).

Definition effectiveDefaultTTLSeconds (i : inputs) : num :=
  if nlt nzero (default_ttl i) then default_ttl i else num_of_Z 3600.

Definition switchToJsonMode (p : page) : page := set_mode JsonMode (set_inputs (set_text (rulesToJson (rules p)) (inputs_now p)) p).
Definition switchToVisualMode (p : page) : page :=
  match tryParseRulesJsonArray (rules_text (inputs_now p)) with Some _ => set_mode VisualMode p | None => p end.
Definition updateRulesState (next : list rule) (p : page) : page :=
  Page (set_text (rulesToJson next) (inputs_now p)) (inputsRow p) (editMode p) next (modal p) (seen p).

Definition handleDeleteRule (id : jval) (p : page) : page :=
  updateRulesState (renumber (List.filter (λ r, negb (same_id id r)) (rules p))) p.

Definition handleModalSave (validate : values → bool) (p : page) : page :=
  match modal p with
  | Some d => match saved_rules validate (rules p) d with Ok next => set_modal None (updateRulesState next p) | Wrong _ => p end
  | None => p
  end.

(** *** Templates *)

Definition template_rule (name model path source : jsstr) (template : jval) : rule :=
  [(js "name", JStr name); (js "model_regex", JArr [JStr model]); (js "path_regex", JArr [JStr path]);
   (js "key_sources", JArr [JObj [(js "type", JStr (js "gjson")); (js "path", JStr source)]]); (js "param_override_template", template);
   (js "value_regex", JStr []); (js "ttl_seconds", JNum nzero); (js "skip_retry_on_failure", JBool true);
   (js "include_using_group", JBool true); (js "include_rule_name", JBool true)].
Definition codexCli : rule :=
  template_rule (js "codex cli trace") (js "^gpt-.*$") (js "/v1/responses") (js "prompt_cache_key") CODEX_CLI_HEADER_PASSTHROUGH_TEMPLATE.
Definition claudeCli : rule :=
  template_rule (js "claude cli trace") (js "^claude-.*$") (js "/v1/messages") (js "metadata.user_id") CLAUDE_CLI_HEADER_PASSTHROUGH_TEMPLATE.

Definition cloneChannelAffinityTemplate (r : rule) : jval := default JUndef (t ← stringify (JObj r); parse t).

(** A template under a free name, which is taken from then on *)
Definition named_template (now : jsstr) (existing : list jsstr) (r : rule) (tpl_name : jsstr) : rule * list jsstr :=
  let name := makeUniqueName now existing tpl_name in
  (obj_set (spread [] (cloneChannelAffinityTemplate r)) (js "name") (JStr name), existing ++ [name]).
Definition existing_names (rs : list rule) : option (list jsstr) := filter_truthy <$> map_opt (λ r, trim_of (obj_get r (js "name"))) rs.
Definition append_templates (now : jsstr) (p : page) : option page :=
  match existing_names (rules p) with
  | None => None
  | Some names =>
    let '(a, names1) := named_template now names codexCli (js "codex cli trace") in
    let '(b, _) := named_template now names1 claudeCli (js "claude cli trace") in
    Some (updateRulesState (renumber (rules p ++ [a; b])) p)
  end.

(** *** Submission *)

(** The requests, a key and its value each; [Wrong] is the message. *)
Definition onSubmit (p : page) : checked (list (jsstr * jsstr)) :=
  let now := inputs_object (inputs_now p) in
  let changed := compareObjects now (inputs_object (inputsRow p)) in
  if length changed =? 0 then Wrong (js "你似乎并没有修改什么") else
  match parse (with_default (rules_text (inputs_now p))) with
  | None => Wrong (js "规则 JSON 格式不正确")
  | Some v => Ok (map (λ k, (k, if streq k KEY_RULES then default (js "undefined") (stringify v) else String_of (js_nullish (obj_get now k) (JStr [])))) changed)
  end.

(** *** New options *)

Record options := Options { o_enabled : option jval; o_switch : option jval; o_max : option jval; o_ttl : option jval; o_rules : option jsstr }.

Definition pretty_rules (text : jsstr) : jsstr :=
  match parse (with_default text) with Some v => default [] (stringify2 v) | None => with_default text end.
(** [Number(v || 0) || 0] *)
Definition number_option (v : jval) : num := let n := Number_of (js_or v (JNum nzero)) in if num_truthy n then n else nzero.
Definition read_options (lower : jsstr → jsstr) (o : options) (i : inputs) : inputs :=
  Inputs (match o_enabled o with Some v => toBoolean lower v | None => enabled i end)
    (match o_switch o with Some v => toBoolean lower v | None => switch_on_success i end)
    (match o_max o with Some v => number_option v | None => max_entries i end)
    (match o_ttl o with Some v => number_option v | None => default_ttl i end)
    (match o_rules o with Some t => pretty_rules t | None => rules_text i end).
Definition take_options (lower : jsstr → jsstr) (o : options) (p : page) : page :=
  let i := read_options lower o (inputs_now p) in Page i i (editMode p) (parseRulesJson (rules_text i)) (modal p) (seen p).

(** The effect that follows the text in the visual mode *)
Definition follow_text (p : page) : page :=
  let now := (rules_text (inputs_now p), editMode p) in
  if bool_decide (seen p = Some now) then p else
  Page (inputs_now p) (inputsRow p) (editMode p)
    (match editMode p with VisualMode => parseRulesJson (rules_text (inputs_now p)) | JsonMode => rules p end) (modal p) (Some now).

Definition first_inputs : inputs := Inputs false true (num_of_Z 100000) (num_of_Z 3600) (js "[]").
Definition mount_page (lower : jsstr → jsstr) (o : options) : page :=
  follow_text (take_options lower o (Page first_inputs first_inputs VisualMode [] None None)).

(** *** Events *)

Inductive affinity_event :=
| NewOptions (o : options) | ToJson | ToVisual | AppendTemplates | AddRule | EditRule (i : nat) | DeleteRule (i : nat)
| TypeRules (text : jsstr) | ChangeSettings (e s : bool) (m t : num)
| CancelRule | SaveRule | TypeName (s : jsstr) | TypeFields (v : values) | AddSource | RemoveSource (i : nat) | SourceType (i : nat) (type : jsstr)
| SourceText (i : nat) (text : jsstr) | FormatTemplate | ClearTemplate | OpenTemplate | SaveTemplate (text : jsstr) | CloseTemplate.

Section Page.
Context (lower : jsstr → jsstr) (now : jsstr) (validate : values → bool).

Definition dialog_event (e : affinity_event) (d : rule_dialog) : option rule_dialog :=
  match e, templateEditor d with
  | SaveTemplate text, true => Some (show_editor false (updateParamTemplateDraft text d))
  | CloseTemplate, true => Some (show_editor false d)
  | _, true => None
  | TypeName s, _ => Some (type_name s d)
  | TypeFields v, _ => Some (type_fields v d)
  | AddSource, _ => Some (addKeySource d)
  | RemoveSource i, _ => Some (removeKeySource i d)
  | SourceType i type, _ => updateKeySource i [(js "type", JStr type)] d
  | SourceText i text, _ => type_source i text d
  | FormatTemplate, _ => Some (formatParamTemplateDraft d)
  | ClearTemplate, _ => Some (updateParamTemplateDraft [] d)
  | OpenTemplate, _ => Some (show_editor true d)
  | _, _ => None
  end.

Definition open_dialog (d : option rule_dialog) (p : page) : option page :=
  match d with Some d => Some (set_modal (Some d) p) | None => None end.

(** The page below the dialog *)
Definition page_event (e : affinity_event) (p : page) : option page :=
  match e, editMode p with
  | ToJson, _ => Some (switchToJsonMode p)
  | ToVisual, _ => Some (switchToVisualMode p)
  | AppendTemplates, _ => append_templates now p
  | AddRule, _ => open_dialog openAddModal p
  | EditRule i, VisualMode => match rules p !! i with Some r => open_dialog (handleEditRule r) p | None => None end
  | DeleteRule i, VisualMode => match rules p !! i with Some r => Some (handleDeleteRule (obj_get r ID) p) | None => None end
  | TypeRules text, JsonMode => Some (set_inputs (set_text text (inputs_now p)) p)
  | ChangeSettings en sw m ttl, _ => Some (set_inputs (Inputs en sw m ttl (rules_text (inputs_now p))) p)
  | _, _ => None
  end.

Definition affinity_handle (e : affinity_event) (p : page) : option page :=
  match e, modal p with
  | NewOptions o, _ => Some (take_options lower o p)
  | CancelRule, Some d => if templateEditor d then None else Some (set_modal None p)
  | SaveRule, Some d => if templateEditor d then None else Some (handleModalSave validate p)
  | _, Some d => open_dialog (dialog_event e d) p
  | _, None => page_event e p
  end.
Definition affinity_step (e : affinity_event) (p : page) : option page := option_map follow_text (affinity_handle e p).
End Page.
