(* ===== verification/ChannelAffinityTheorems.v ===== *)
(** * The rules of the channel affinity: what holds of them

    The table shows the rules of the text that is saved; the dialog writes exactly
    one rule and leaves the others alone; a rule it wrote is unchanged by opening
    and saving it again; and the situations in which edits are lost. *)

From S2P Require Import Prelude JsString JsNumber Json JsObject ParamOverride ParamOverrideEditor ChannelAffinity.

Local Opaque js.

Ltac pages := cbn [inputs_now inputsRow editMode rules modal seen set_inputs set_mode set_modal set_text rules_text enabled switch_on_success
  max_entries default_ttl updateRulesState] in *.

(** ** Rules and their text *)

Definition rule_sound (r : rule) : Prop := json_ok (JObj (without_id r)) = true.
Definition index_num (i : nat) : jval := JNum (num_of_Z (Z.of_nat i)).
Definition body_json (r : rule) : jval := JObj (without_id r).

Lemma delete_id_absent r : ID ∉ map fst (without_id r).
Proof.
  unfold without_id, obj_delete. intros ([k v] & Hk & [_ Hin]%list_elem_of_In%filter_In)%list_elem_of_fmap. cbn [fst] in *. subst k.
  by rewrite streq_refl in Hin.
Qed.
Lemma delete_absent (o : rule) k : k ∉ map fst o → obj_delete o k = o.
Proof.
  unfold obj_delete. induction o as [|[k' v] o IH]; cbn [List.filter map fst]; [done|]. intros [Hne Hni]%not_elem_of_cons.
  destruct (streq k' k) eqn:E; [by apply streq_true in E|]. cbn [negb]. by rewrite IH.
Qed.
Lemma without_id_cons v r : ID ∉ map fst r → without_id ((ID, v) :: r) = r.
Proof. intros H. unfold without_id, obj_delete. cbn [List.filter fst]. rewrite streq_refl. cbn [negb]. by apply delete_absent. Qed.
Lemma without_id_set r v : without_id (obj_set r ID v) = without_id r.
Proof.
  unfold without_id, obj_delete. induction r as [|[k x] r IH]; cbn [obj_set List.filter fst]; [by rewrite streq_refl|].
  destruct (streq k ID) eqn:E; cbn [List.filter fst negb]; rewrite ?streq_refl, ?E; cbn [negb]; [done|by rewrite IH].
Qed.

Lemma imap_bodies (f : nat → rule → rule) rs : (∀ i r, without_id (f i r) = without_id r) → map without_id (imap f rs) = map without_id rs.
Proof. revert f. induction rs as [|r rs IH]; intros f Hf; cbn [imap map]; [done|]. rewrite Hf. f_equal. apply IH. intros i x. apply Hf. Qed.
Lemma renumber_bodies rs : map without_id (renumber rs) = map without_id rs.
Proof. apply imap_bodies. intros i r. apply without_id_set. Qed.
Lemma text_of_bodies rs rs' : map without_id rs = map without_id rs' → rulesToJson rs = rulesToJson rs'.
Proof. intros H. unfold rulesToJson. rewrite <- !(map_map without_id JObj). by rewrite H. Qed.

(** The text of sound rules reads back as these rules. *)
Lemma rules_text_parses rs : Forall rule_sound rs → parse (rulesToJson rs) = Some (JArr (map body_json rs)).
Proof.
  intros H. destruct (parse_stringify_at (js "  ") (JArr (map body_json rs)) ltac:(by vm_compute)) as (t & Ht & Hp).
  { cbn [json_ok]. apply forallb_Forall, Forall_map. exact H. }
  unfold rulesToJson, stringify2. unfold body_json in *. by rewrite Ht.
Qed.

Lemma numbered_sound i r : rule_sound r → numbered_rule i (body_json r) = (ID, index_num i) :: without_id r.
Proof.
  intros H. unfold rule_sound in H. unfold numbered_rule, body_json, spread. cbn [js_or truthy entries].
  cbn [json_ok] in H. rewrite !andb_true_iff, !bool_decide_eq_true in H. destruct H as [[[_ Hnd] Hk] _].
  rewrite own_entries_fixed by done. apply (fold_set_fresh _ [(ID, index_num i)]). cbn [app map fst]. apply NoDup_cons.
  split; [apply delete_id_absent|done].
Qed.

Lemma reparse rs : Forall rule_sound rs → parseRulesJson (rulesToJson rs) = imap (λ i r, (ID, index_num i) :: without_id r) rs.
Proof.
  intros H. pose proof (rules_text_parses rs H) as Hp. unfold parseRulesJson, with_default. rewrite (parsed_nonempty _ _ Hp), Hp.
  clear Hp.
  assert (Hgen : ∀ n, imap (λ i, numbered_rule (n + i)) (map body_json rs) = imap (λ i r, (ID, index_num (n + i)) :: without_id r) rs); [|exact (Hgen 0)].
  induction H as [|r rs Hr _ IH]; intros n; cbn [map imap]; [done|]. rewrite Nat.add_0_r, numbered_sound by done. f_equal.
  specialize (IH (S n)). etrans; [|etrans; [exact IH|]]; apply imap_ext; intros i x _; cbn; by rewrite Nat.add_succ_r.
Qed.

Lemma reparse_bodies rs : Forall rule_sound rs → map without_id (parseRulesJson (rulesToJson rs)) = map without_id rs.
Proof.
  intros H. rewrite reparse by done. apply imap_bodies. intros i r. apply without_id_cons, delete_id_absent.
Qed.

(** ** Every state *)

Definition bodies_agree (p : page) : Prop :=
  Forall rule_sound (rules p) → map without_id (rules p) = map without_id (parseRulesJson (rules_text (inputs_now p))).
Definition dialog_sources (p : page) : Prop := ∀ d, modal p = Some d → ∃ l, obj_get (editingRule d) (js "key_sources") = JArr l.

Record affinity_ok (p : page) : Prop := AffinityOk {
  ok_seen : seen p = Some (rules_text (inputs_now p), editMode p);
  ok_rules : editMode p = VisualMode → bodies_agree p;
  ok_dialog : dialog_sources p
}.

(** Before the effect: rules that the effect will not read again agree. *)
Definition affinity_pre (p : page) : Prop :=
  (seen p = Some (rules_text (inputs_now p), VisualMode) → bodies_agree p) ∧ dialog_sources p.

Lemma follow_ok p : affinity_pre p → affinity_ok (follow_text p).
Proof.
  intros [Hr Hd]. unfold follow_text. case_bool_decide as E.
  - split; [done| |done]. intros Hv. apply Hr. by rewrite E, Hv.
  - split; pages; [done| |exact Hd]. intros Hv. unfold bodies_agree. pages. rewrite Hv. done.
Qed.

Lemma changed_pre next p : dialog_sources p → affinity_pre (updateRulesState next p).
Proof. intros Hd. split; [|exact Hd]. intros _ Hs. pages. symmetry. by apply reparse_bodies. Qed.

Lemma get_set_other (r : rule) a b v : streq (js a) (js b) = false → obj_get (obj_set r (js a) v) (js b) = obj_get r (js b).
Proof. intros H. by rewrite obj_get_set, H. Qed.
Lemma get_set_same (r : rule) k v : obj_get (obj_set r k v) k = v.
Proof. by rewrite obj_get_set, streq_refl. Qed.

Lemma opened_sources edit r d l : open_on edit r = Some d → obj_get r (js "key_sources") = JArr l → obj_get (editingRule d) (js "key_sources") = JArr l.
Proof. unfold open_on. destruct (buildModalFormValues r) as [[v t]|]; [|done]. by intros [= <-]. Qed.

Lemma dialog_event_sources e d d' : dialog_event e d = Some d' → (∃ l, obj_get (editingRule d) (js "key_sources") = JArr l) →
  ∃ l, obj_get (editingRule d') (js "key_sources") = JArr l.
Proof.
  intros He [l Hl]. assert (Hset : ∀ l' d0, ∃ l, obj_get (editingRule (set_sources l' d0)) (js "key_sources") = JArr l).
  { intros l' d0. exists l'. apply get_set_same. }
  assert (Hu : ∀ i patch d0 d1, updateKeySource i patch d0 = Some d1 → ∃ l, obj_get (editingRule d1) (js "key_sources") = JArr l).
  { intros i patch d0 d1. unfold updateKeySource. repeat (case_match; try done). intros [= <-]. apply Hset. }
  destruct e; cbn [dialog_event] in He; destruct (templateEditor d); try done; try (apply (inj Some) in He; subst d'); try (by exists l); try apply Hset.
  - exists l. unfold type_name. cbn [editingRule]. by rewrite get_set_other by by vm_compute.
  - by eapply Hu.
  - unfold type_source in He. repeat (case_match; try done); by eapply Hu.
  - exists l. unfold formatParamTemplateDraft. repeat case_match; done.
Qed.

Section Reach.
Context (lower : jsstr → jsstr) (now : jsstr) (validate : values → bool).

Inductive affinity_reached : page → Prop :=
| affinity_mounted o : affinity_reached (mount_page lower o)
| affinity_next e p p' : affinity_reached p → affinity_step lower now validate e p = Some p' → affinity_reached p'.

Lemma take_pre o p : dialog_sources p → affinity_pre (take_options lower o p).
Proof. intros Hd. split; [by intros _ _|exact Hd]. Qed.

Lemma kept_pre p : affinity_ok p → affinity_pre p.
Proof. intros [H1 H2 H3]. split; [|done]. rewrite H1. intros [= Hm]. by apply H2. Qed.

Lemma opened_pre d p p' : affinity_ok p → open_dialog d p = Some p' →
  (∀ d', d = Some d' → ∃ l, obj_get (editingRule d') (js "key_sources") = JArr l) → affinity_pre p'.
Proof.
  intros Hp. unfold open_dialog. destruct d as [d|]; [|done]. intros [= <-] Hd. destruct (kept_pre _ Hp) as [H1 _]. split; [exact H1|].
  intros d' [= <-]. by apply Hd.
Qed.

Lemma page_event_pre e p p' : affinity_ok p → page_event now e p = Some p' → affinity_pre p'.
Proof.
  intros Hp He. pose proof (ok_dialog _ Hp) as Hd. pose proof (ok_seen _ Hp) as Hseen.
  destruct e; cbn [page_event] in He; try done.
  - injection He as <-. split; [|exact Hd]. unfold switchToJsonMode, bodies_agree. pages. intros _ Hs. symmetry. by apply reparse_bodies.
  - injection He as <-. unfold switchToVisualMode. case_match; [|by apply kept_pre]. split; [|exact Hd]. apply (kept_pre _ Hp).
  - unfold append_templates in He. destruct (existing_names _); [|done]. destruct (named_template _ _ codexCli _) as [a n1].
    destruct (named_template _ _ claudeCli _) as [b n2]. injection He as <-. by apply changed_pre.
  - eapply opened_pre; [done|exact He|]. intros d' Hd'. eexists. eapply opened_sources; [exact Hd'|by vm_compute].
  - destruct (editMode p); [|done]. destruct (rules p !! i) as [r|]; [|done].
    eapply opened_pre; [done|exact He|]. intros d' Hd'. unfold handleEditRule in Hd'. destruct (normal_sources _) as [l|]; [|done].
    exists l. eapply opened_sources; [exact Hd'|]. apply get_set_same.
  - destruct (editMode p); [|done]. destruct (rules p !! i) as [r|]; [|done]. injection He as <-. by apply changed_pre.
  - destruct (editMode p) eqn:Em; [done|]. injection He as <-. split; [|exact Hd]. pages. rewrite Hseen. by intros [= _ Hm].
  - injection He as <-. split; [|exact Hd]. apply (kept_pre _ Hp).
Qed.

Lemma affinity_mount_ok o : affinity_ok (mount_page lower o).
Proof. by apply follow_ok, take_pre. Qed.

Lemma affinity_step_ok e p p' : affinity_ok p → affinity_step lower now validate e p = Some p' → affinity_ok p'.
Proof.
  intros Hp He.
  unfold affinity_step in He. destruct (affinity_handle _ _ _ e p) as [p1|] eqn:Eh; [|done]. apply (inj Some) in He. subst p'. apply follow_ok.
  pose proof (ok_dialog _ Hp) as Hd. unfold affinity_handle in Eh. destruct (modal p) as [d|] eqn:Em.
  + assert (Hde : ∀ e, open_dialog (dialog_event e d) p = Some p1 → affinity_pre p1).
    { intros e0 H0. eapply opened_pre; [done|exact H0|]. intros d' Hd'. eapply dialog_event_sources; [exact Hd'|by apply Hd]. }
    destruct e; try (by eapply Hde).
    * apply (inj Some) in Eh. subst p1. by apply take_pre.
    * destruct (templateEditor d); [done|]. apply (inj Some) in Eh. subst p1. split; [apply (kept_pre _ Hp)|done].
    * destruct (templateEditor d); [done|]. apply (inj Some) in Eh. subst p1. unfold handleModalSave. rewrite Em.
      destruct (saved_rules _ _ _) as [next|]; [|by apply kept_pre]. destruct (changed_pre next p Hd) as [H1 _]. by split.
  + destruct e; try (by eapply page_event_pre). apply (inj Some) in Eh. subst p1. by apply take_pre.
Qed.

(** C25. Whatever is clicked or typed and whenever options arrive: the table shows
    the rules of the text that would be saved (but for their row numbers), and an
    open dialog has a list of key sources. *)
Theorem affinity_shows_text p : affinity_reached p → affinity_ok p.
Proof. induction 1; [apply affinity_mount_ok|by eapply affinity_step_ok]. Qed.
End Reach.

(** ** Saving the dialog *)

(** The rules after saving [r]: at the place of the edited rule, or at the end *)
Definition written (d : rule_dialog) (i : nat) (r : rule) (rs : list rule) : list rule := if isEdit d then <[i := r]> rs else rs ++ [r].

(** Saving the dialog closes it and writes exactly one rule: the text that will
    be saved is that of the old rules with the new one at the place of the edited
    rule, or at the end; every other rule is as before. *)
Theorem rule_saved_exactly lower now validate p d r i :
  modal p = Some d → templateEditor d = false → dialog_rule validate (length (rules p)) d = Ok r → Forall rule_sound (rules p) → rule_sound r →
  (isEdit d = true → edited_place d (rules p) = Some (Some i)) →
  ∃ p', affinity_step lower now validate SaveRule p = Some p' ∧ modal p' = None ∧
    parse (rules_text (inputs_now p')) = Some (JArr (map body_json (written d i r (rules p)))) ∧
    map without_id (rules p') = map without_id (written d i r (rules p)).
Proof.
  intros Hm Ht Hr Hs Hsr Hi. unfold affinity_step, affinity_handle. rewrite Hm, Ht. cbn [option_map]. eexists. split; [done|].
  unfold handleModalSave. rewrite Hm. unfold saved_rules. rewrite Hr.
  assert (Hw : (if isEdit d then match edited_place d (rules p) with
      | Some (Some i) => Ok (renumber (<[i := r]> (rules p))) | Some None => Wrong (js "规则未找到，请刷新后重试") | None => Wrong (js "请检查输入") end
      else Ok (renumber (rules p ++ [r]))) = Ok (renumber (written d i r (rules p)))).
  { unfold written. destruct (isEdit d); [by rewrite Hi|done]. }
  rewrite Hw. set (ws := written d i r (rules p)) in *.
  assert (Hws : Forall rule_sound ws) by (unfold ws, written; destruct (isEdit d); [by apply Forall_insert|apply Forall_app; by repeat constructor]).
  assert (Et : rulesToJson (renumber ws) = rulesToJson ws) by (apply text_of_bodies, renumber_bodies).
  unfold follow_text. case_bool_decide; pages; rewrite Et; (split_and!; [done|by apply rules_text_parses|]).
  - apply renumber_bodies.
  - destruct (editMode p); [by apply reparse_bodies|apply renumber_bodies].
Qed.

(** A rule is removed by its number: if no other rule has it, the text that will
    be saved is that of the other rules, in their order. *)
Theorem rule_deleted_exactly lower now validate p i r :
  modal p = None → editMode p = VisualMode → rules p !! i = Some r → Forall rule_sound (rules p) →
  (∀ j r', rules p !! j = Some r' → same_id (obj_get r ID) r' = bool_decide (j = i)) →
  ∃ p', affinity_step lower now validate (DeleteRule i) p = Some p' ∧ map without_id (rules p') = map without_id (delete i (rules p)) ∧
    parse (rules_text (inputs_now p')) = Some (JArr (map body_json (delete i (rules p)))).
Proof.
  intros Hm He Hr Hs Hid. unfold affinity_step, affinity_handle. rewrite Hm. cbn [page_event]. rewrite He, Hr. eexists. split; [done|].
  assert (Hf : List.filter (λ r', negb (same_id (obj_get r ID) r')) (rules p) = delete i (rules p)).
  { clear -Hid Hr. revert Hid. generalize (same_id (obj_get r ID)). intros f Hid. revert i Hr Hid. induction (rules p) as [|x rs IH]; intros [|i] Hr Hid; try done.
    - cbn [List.filter delete list_delete]. rewrite (Hid 0 x eq_refl), bool_decide_eq_true_2 by done. cbn [negb].
      apply filter_all, forallb_Forall, Forall_forall. intros y [j Hj]%list_elem_of_lookup. by rewrite (Hid (S j) y Hj), bool_decide_eq_false_2.
    - cbn [List.filter delete list_delete]. rewrite (Hid 0 x eq_refl), bool_decide_eq_false_2 by done. cbn [negb]. f_equal.
      apply IH; [done|]. intros j r' Hj. rewrite (Hid (S j) r' Hj). apply bool_decide_ext. lia. }
  assert (Hws : Forall rule_sound (delete i (rules p))) by by apply Forall_delete.
  assert (Et : rulesToJson (renumber (delete i (rules p))) = rulesToJson (delete i (rules p))) by (apply text_of_bodies, renumber_bodies).
  unfold handleDeleteRule, follow_text. rewrite Hf. case_bool_decide; pages; rewrite Et; (split; [|by apply rules_text_parses]).
  - apply renumber_bodies.
  - rewrite He. by apply reparse_bodies.
Qed.

(** ** Opening a saved rule *)

Lemma trim_of_text s : trim_of (JStr s) = Some (trim s).
Proof. by destruct s. Qed.

Lemma trim_of_trimmed v s : trim_of v = Some s → trim s = s.
Proof. unfold trim_of. destruct (js_or v (JStr [])); try done. intros [= <-]. apply trim_idemp. Qed.

Lemma lines_clean text : Forall (λ s, s ≠ [] ∧ trim s = s ∧ 10%N ∉ s) (normalizeStringList text).
Proof.
  unfold normalizeStringList. destruct (is_empty text); [constructor|]. apply Forall_forall. intros s. unfold filter_truthy.
  intros [(x & <- & Hx)%in_map_iff Hne]%list_elem_of_In%filter_In. split_and!; [by intros E; rewrite E in Hne|apply trim_idemp|].
  intros Hin%trim_elem. pose proof (split_absent 10%N text) as Hs. rewrite Forall_forall in Hs. by apply (Hs x); [apply list_elem_of_In|].
Qed.

Lemma lines_again l : Forall (λ s, s ≠ [] ∧ trim s = s ∧ 10%N ∉ s) l → normalizeStringList (join [10%N] l) = l.
Proof.
  intros H. unfold normalizeStringList. destruct l as [|x l]; [done|].
  assert (Hne : is_empty (join [10%N] (x :: l)) = false).
  { apply Forall_cons in H as [(Hx & _) _]. destruct x as [|c x]; [done|]. by destruct l. }
  rewrite Hne, split_join_char; [|done|eapply Forall_impl; [exact H|]; by intros s (_ & _ & ?)].
  rewrite map_trim_id by (eapply Forall_impl; [exact H|]; by intros s (_ & ? & _)). apply filter_truthy_id.
  eapply Forall_impl; [exact H|]. by intros s (? & _).
Qed.

Lemma lines_of_texts l : lines_of (JArr (map JStr l)) = Some (join [10%N] l).
Proof. unfold lines_of. cbn [js_or truthy]. rewrite map_map. cbn [is_nullish String_of]. by rewrite map_id. Qed.

Lemma source_reads type key path : read (key_source type key path) (js "type") = JStr type ∧ read (key_source type key path) (js "key") = JStr key ∧
  read (key_source type key path) (js "path") = JStr path.
Proof. unfold key_source. cbn [read obj_get]. names. done. Qed.

Lemma source_again x y : normalizeKeySource x = Some y → normalizeKeySource y = Some y.
Proof.
  unfold normalizeKeySource at 1. destruct (trim_of (read x (js "type"))) as [t|] eqn:Et; [|done]. destruct (trim_of (read x (js "key"))) as [k|] eqn:Ek; [|done].
  destruct (trim_of (read x (js "path"))) as [q|] eqn:Eq; [|done]. cbn [mbind option_bind].
  apply trim_of_trimmed in Et, Ek, Eq. intros [= <-]. unfold normalizeKeySource.
  destruct (streq t (js "gjson")) eqn:E; destruct (source_reads t [] q) as (R0 & R1 & R2), (source_reads t k []) as (R3 & R4 & R5);
    rewrite ?R0, ?R1, ?R2, ?R3, ?R4, ?R5, !trim_of_text, ?Et, ?Ek, ?Eq; cbn [mbind option_bind]; by rewrite E.
Qed.

Lemma sources_again l l' : map_opt normalizeKeySource l = Some l' → ∀ f, map_opt normalizeKeySource (List.filter f l') = Some (List.filter f l').
Proof.
  intros H%map_opt_Forall2 f. induction H as [|x y l l' Hxy _ IH]; [done|]. cbn [List.filter]. destruct (f y); [|exact IH].
  cbn [map_opt]. by rewrite (source_again _ _ Hxy), IH.
Qed.

Lemma filter_twice {A} (f : A → bool) l : List.filter f (List.filter f l) = List.filter f l.
Proof. apply filter_all, forallb_forall. by intros x [_ Hx]%filter_In. Qed.

Lemma validate_again v xs : validateKeySources v = Some (Ok xs) → normal_sources (JArr xs) = Some xs ∧ validateKeySources (JArr xs) = Some (Ok xs).
Proof.
  unfold validateKeySources. destruct (normal_sources v) as [l|] eqn:El; [|done]. cbn [mbind option_bind].
  set (ys := List.filter _ l). destruct (length ys =? 0) eqn:E0; [done|]. destruct (omap source_error ys) eqn:Ee; [|done]. intros [= <-].
  assert (Hn : normal_sources (JArr ys) = Some ys).
  { unfold normal_sources in *. cbn [js_or truthy]. destruct (js_or v (JArr [])); try done. by eapply sources_again. }
  split; [done|]. rewrite Hn. cbn [mbind option_bind]. unfold ys at 1 2 3. rewrite filter_twice. fold ys. by rewrite E0, Ee.
Qed.

Lemma template_again text x : parseOptionalObjectJson text (js "参数覆盖模板") = Ok (Some x) → json_ok x = true →
  ∃ t, stringify2 x = Some t ∧ truthy x = true ∧ parseOptionalObjectJson t (js "参数覆盖模板") = Ok (Some x).
Proof.
  unfold parseOptionalObjectJson at 1. destruct (is_empty (trim text)); [done|]. destruct (parse (trim text)) as [[| | | | | |o]|]; try done.
  intros [= <-] Hok. destruct (parse_stringify_at (js "  ") (JObj o) ltac:(by vm_compute) Hok) as (t & Ht & Hp).
  exists t. split; [exact Ht|]. split; [done|]. destruct (object_text_edges _ _ _ Ht) as [Hne Htr]. unfold parseOptionalObjectJson.
  rewrite trim_trimmed by done. destruct t; [done|]. cbn [is_empty]. by rewrite Hp.
Qed.

(** The members of a rule the dialog wrote *)
Section Payload.
Context (id : jval) (name regex : jsstr) (v : values) (model path : list jsstr) (sources : list jval) (agents : list jsstr) (template : option jval).
Let r : rule := buildChannelAffinityRulePayload id name regex v model path sources agents template.

Lemma payload_texts : obj_get r ID = id ∧ obj_get r (js "name") = JStr name ∧ obj_get r (js "model_regex") = JArr (map JStr model) ∧
  obj_get r (js "path_regex") = JArr (map JStr path) ∧ obj_get r (js "key_sources") = JArr sources ∧ obj_get r (js "value_regex") = JStr regex ∧
  obj_get r (js "ttl_seconds") = JNum (Number_of (js_or (v_ttl v) (JNum nzero))).
Proof. unfold r, buildChannelAffinityRulePayload, ID. cbn [app obj_get]. names. done. Qed.

Lemma payload_switches : obj_get r (js "include_using_group") = as_bool (v_group v) ∧ obj_get r (js "include_model_name") = as_bool (v_model_name v) ∧
  obj_get r (js "include_rule_name") = as_bool (v_rule_name v) ∧ obj_get r (js "skip_retry_on_failure") = as_bool (v_skip v).
Proof. unfold r, buildChannelAffinityRulePayload, ID. cbn [app obj_get]. names. done. Qed.

Lemma payload_rest : obj_get r (js "user_agent_include") = (if length agents =? 0 then JUndef else JArr (map JStr agents)) ∧
  obj_get r (js "param_override_template") = default JUndef template.
Proof.
  unfold r, buildChannelAffinityRulePayload, ID. cbn [app obj_get]. names. destruct agents as [|a l], template as [x|]; cbn [length Nat.eqb app obj_get]; names; done.
Qed.

Lemma payload_member k x : (k, x) ∈ r → k ≠ ID → rule_sound r → json_ok x = true.
Proof.
  intros Hin Hne Hs. unfold rule_sound in Hs. cbn [json_ok] in Hs. rewrite !andb_true_iff in Hs. destruct Hs as [_ Hs].
  rewrite forallb_forall in Hs. apply (Hs (k, x)). apply filter_In. split; [by apply list_elem_of_In|]. cbn [fst].
  destruct (streq k ID) eqn:E; [by apply streq_true in E|done].
Qed.
End Payload.

Lemma number_again x : num_ok x = true → Number_of (js_or (JNum x) (JNum nzero)) = x.
Proof.
  intros H. unfold js_or. cbn [truthy]. destruct (num_truthy x) eqn:E; [done|]. destruct x as [[]|s| |s m e]; try done.
  all: by vm_compute in H.
Qed.

Lemma member_of_get r k x : obj_get r k = x → x ≠ JUndef → (k, x) ∈ r.
Proof.
  induction r as [|[k' y] r IH]; cbn [obj_get]; [by intros <-|]. destruct (streq k' k) eqn:E; intros H Hx.
  - apply streq_true in E. subst. by left.
  - right. by apply IH.
Qed.

Lemma dialog_rule_parts validate n d r : dialog_rule validate n d = Ok r → ∃ name regex sources template,
  trim_of (v_name (form d)) = Some name ∧ name ≠ [] ∧ trim_of (v_regex (form d)) = Some regex ∧ normalizeStringList (v_model (form d)) ≠ [] ∧
  validateKeySources (obj_get (editingRule d) (js "key_sources")) = Some (Ok sources) ∧
  parseOptionalObjectJson (paramTemplateDraft d) (js "参数覆盖模板") = Ok template ∧
  r = buildChannelAffinityRulePayload (if isEdit d then obj_get (editingRule d) ID else JNum (num_of_Z (Z.of_nat n))) name regex (form d)
        (normalizeStringList (v_model (form d))) (normalizeStringList (v_path (form d))) sources (normalizeStringList (v_agent (form d))) template.
Proof.
  unfold dialog_rule. destruct (validate (form d)); [|done]. cbn [negb]. destruct (length (normalizeStringList (v_model (form d))) =? 0) eqn:Em; [done|].
  destruct (validateKeySources _) as [[sources|]|]; try done. destruct (parseOptionalObjectJson _ _) as [template|]; [|done].
  destruct (trim_of (v_name (form d))) as [name|]; [|done]. destruct (trim_of (v_regex (form d))) as [regex|]; [|done].
  destruct (is_empty name) eqn:En; [done|]. intros [= <-]. exists name, regex, sources, template. split_and!; try done.
  - by intros ->.
  - intros E. by rewrite E in Em.
Qed.

(** What the dialog shows of a rule it wrote *)
Definition reopened (r : rule) (v : values) (name regex : jsstr) (model path agents : list jsstr) (ttl : num) (draft : jsstr) (d : rule_dialog) : Prop :=
  isEdit d = true ∧ templateEditor d = false ∧ paramTemplateDraft d = draft ∧
  obj_get (editingRule d) ID = obj_get r ID ∧ obj_get (editingRule d) (js "key_sources") = obj_get r (js "key_sources") ∧
  form d = Values (JStr name) (join [10%N] model) (join [10%N] path) (join [10%N] agents) (JStr regex) (JNum ttl)
    (as_bool (v_skip v)) (as_bool (v_group v)) (as_bool (v_model_name v)) (as_bool (v_rule_name v)).

Lemma or_text_self s : js_or (JStr s) (JStr []) = JStr s.
Proof. by destruct s. Qed.
Lemma agents_shown (agents : list jsstr) : match (if length agents =? 0 then JUndef else JArr (map JStr agents)) with JArr l => JArr l | _ => JArr [] end = JArr (map JStr agents).
Proof. by destruct agents. Qed.

Lemma edit_opens id name regex v model path sources agents template ttl draft :
  let r := buildChannelAffinityRulePayload id name regex v model path sources agents template in
  normal_sources (JArr sources) = Some sources → Number_of (js_or (v_ttl v) (JNum nzero)) = ttl → num_ok ttl = true →
  match template with Some x => truthy x = true ∧ stringify2 x = Some draft | None => draft = [] end →
  ∃ d, handleEditRule r = Some d ∧ reopened r v name regex model path agents ttl draft d.
Proof.
  intros r Hs Httl Hn Ht. destruct (payload_texts id name regex v model path sources agents template) as (G1 & G2 & G3 & G4 & G5 & G6 & G7).
  destruct (payload_switches id name regex v model path sources agents template) as (S1 & S2 & S3 & S4).
  destruct (payload_rest id name regex v model path sources agents template) as [R1 R2]. fold r in G1, G2, G3, G4, G5, G6, G7, S1, S2, S3, S4, R1, R2.
  unfold handleEditRule. rewrite G5, Hs. cbn [mbind option_bind]. rewrite R1, agents_shown. set (r' := obj_set _ (js "key_sources") _).
  assert (Hget : ∀ k, streq (js "key_sources") (js k) = false → streq (js "user_agent_include") (js k) = false → obj_get r' (js k) = obj_get r (js k)).
  { intros k H1 H2. unfold r'. by rewrite !get_set_other. }
  assert (Hid : obj_get r' ID = obj_get r ID) by (unfold ID; by apply Hget; vm_compute).
  assert (Hks : obj_get r' (js "key_sources") = JArr sources) by apply get_set_same.
  assert (Hua : obj_get r' (js "user_agent_include") = JArr (map JStr agents)).
  { unfold r'. rewrite get_set_other by by vm_compute. apply get_set_same. }
  unfold open_on, buildModalFormValues. cbv zeta.
  rewrite (Hget "name"), (Hget "model_regex"), (Hget "path_regex"), (Hget "value_regex"), (Hget "ttl_seconds"),
    (Hget "skip_retry_on_failure"), (Hget "include_using_group"), (Hget "include_model_name"), (Hget "include_rule_name"), (Hget "param_override_template") by by vm_compute.
  rewrite Hua, G2, G3, G4, G6, G7, S1, S2, S3, S4, R2, !lines_of_texts.
  cbn [mbind option_bind js_nullish]. eexists. split; [reflexivity|]. unfold reopened. cbn [isEdit templateEditor paramTemplateDraft editingRule form].
  rewrite Hks, G5, Httl, number_again by done. split_and!; [done|done| |done|done|].
  - destruct template as [x|]; [|by rewrite Ht]. destruct Ht as [Hx Hd]. change (default JUndef (Some x)) with x. by rewrite Hx, Hd.
  - rewrite !or_text_self. reflexivity.
Qed.

(** The dialog opened on a rule it wrote saves the same rule. *)
Lemma reopened_saves validate n id name regex v model path sources agents template ttl draft d :
  let r := buildChannelAffinityRulePayload id name regex v model path sources agents template in
  reopened r v name regex model path agents ttl draft d → validate (form d) = true →
  name ≠ [] → trim name = name → trim regex = regex → model ≠ [] →
  Forall (λ s, s ≠ [] ∧ trim s = s ∧ 10%N ∉ s) model → Forall (λ s, s ≠ [] ∧ trim s = s ∧ 10%N ∉ s) path →
  Forall (λ s, s ≠ [] ∧ trim s = s ∧ 10%N ∉ s) agents → validateKeySources (JArr sources) = Some (Ok sources) →
  parseOptionalObjectJson draft (js "参数覆盖模板") = Ok template →
  Number_of (js_or (v_ttl v) (JNum nzero)) = ttl → num_ok ttl = true → dialog_rule validate n d = Ok r.
Proof.
  intros r (He & _ & Hd & Hid & Hks & Hf) Hv Hn Htn Htr Hm Lm Lp La Hs Ht Httl Hok.
  destruct (payload_texts id name regex v model path sources agents template) as (G1 & _ & _ & _ & G5 & _). fold r in G1, G5.
  unfold dialog_rule. rewrite Hv, Hf, He, Hd, Hks, G5, Hs, Ht, Hid, G1. cbn [negb v_model v_name v_regex v_path v_agent]. rewrite !lines_again, !trim_of_text, Htn, Htr by done.
  destruct (length model =? 0) eqn:E; [apply Nat.eqb_eq, nil_length_inv in E; done|]. destruct (is_empty name) eqn:En; [by apply is_empty_true in En|].
  f_equal. unfold r, buildChannelAffinityRulePayload. cbn [v_ttl v_group v_model_name v_rule_name v_skip]. by rewrite number_again, Httl.
Qed.

Lemma payload_id id id' name regex v model path sources agents template :
  (ID, id) :: without_id (buildChannelAffinityRulePayload id' name regex v model path sources agents template) =
  buildChannelAffinityRulePayload id name regex v model path sources agents template.
Proof.
  unfold buildChannelAffinityRulePayload. cbn [app]. rewrite without_id_cons; [done|]. apply (bool_decide_unpack _).
  destruct agents, template; by vm_compute.
Qed.

Lemma payload_ttl_ok id name regex v model path sources agents template :
  rule_sound (buildChannelAffinityRulePayload id name regex v model path sources agents template) →
  num_ok (Number_of (js_or (v_ttl v) (JNum nzero))) = true.
Proof.
  intros Hs. apply (payload_member id name regex v model path sources agents template (js "ttl_seconds") (JNum (Number_of (js_or (v_ttl v) (JNum nzero)))));
    [apply member_of_get; [apply payload_texts|done]|by vm_compute|done].
Qed.

(** The text the dialog shows for a template reads as the template. *)
Lemma draft_again text id name regex v model path sources agents template :
  parseOptionalObjectJson text (js "参数覆盖模板") = Ok template →
  rule_sound (buildChannelAffinityRulePayload id name regex v model path sources agents template) →
  ∃ draft, match template with Some x => truthy x = true ∧ stringify2 x = Some draft | None => draft = [] end ∧
    parseOptionalObjectJson draft (js "参数覆盖模板") = Ok template.
Proof.
  intros Ht Hs. destruct template as [x|]; [|by exists []].
  assert (Hx : x ≠ JUndef) by (unfold parseOptionalObjectJson in Ht; repeat (case_match; try done); by injection Ht as <-).
  destruct (template_again _ _ Ht) as (t & H1 & H2 & H3); [|by exists t].
  apply (payload_member id name regex v model path sources agents (Some x) (js "param_override_template") x); [|by vm_compute|done].
  apply member_of_get; [apply payload_rest|done].
Qed.

Lemma follow_seen p : seen p = Some (rules_text (inputs_now p), editMode p) → follow_text p = p.
Proof. intros H. unfold follow_text. by rewrite bool_decide_eq_true_2. Qed.

(** C26. A rule the dialog wrote is unchanged by opening and saving it again: the
    text to be saved is that of the rules shown before. *)
Theorem rule_reopens lower now validate p i (r : rule) id validate0 n0 d0 r0 :
  affinity_reached lower now validate p → modal p = None → editMode p = VisualMode →
  dialog_rule validate0 n0 d0 = Ok r0 → rule_sound r0 → rules p !! i = Some r → r = (ID, id) :: without_id r0 →
  find_index (same_id id) (rules p) = Some i → (∀ v, validate v = true) →
  ∃ p1 p2, affinity_step lower now validate (EditRule i) p = Some p1 ∧ affinity_step lower now validate SaveRule p1 = Some p2 ∧
    modal p2 = None ∧ rules_text (inputs_now p2) = rulesToJson (rules p).
Proof.
  intros Hp Hm He Hd0 Hs Hi -> Hf Hval. assert (Hseen : affinity_ok p) by (clear -Hp; induction Hp; [apply affinity_mount_ok|by eapply affinity_step_ok]).
  apply ok_seen in Hseen. clear Hp.
  apply dialog_rule_parts in Hd0 as (name & regex & sources & template & Hn & Hne & Hre & Hmo & Hso & Hte & ->).
  destruct (validate_again _ _ Hso) as [Hn1 Hn2]. set (v := form d0) in *.
  pose proof (payload_ttl_ok _ _ _ _ _ _ _ _ _ Hs) as Hnum. destruct (draft_again _ _ _ _ _ _ _ _ _ _ Hte Hs) as (draft & Hdr & Hpd).
  rewrite payload_id in Hi. set (model := normalizeStringList (v_model v)) in *. set (path := normalizeStringList (v_path v)) in *.
  set (agents := normalizeStringList (v_agent v)) in *.
  destruct (edit_opens id name regex v model path sources agents template _ draft Hn1 eq_refl Hnum Hdr) as (d & Hed & Hre').
  pose proof Hre' as (Hise & Hte' & _ & Hidd & _). pose proof (payload_texts id name regex v model path sources agents template) as (G1 & _).
  pose proof (reopened_saves validate (length (rules p)) _ _ _ _ _ _ _ _ _ _ _ _ Hre' (Hval _) Hne (trim_of_trimmed _ _ Hn) (trim_of_trimmed _ _ Hre) Hmo
    (lines_clean _) (lines_clean _) (lines_clean _) Hn2 Hpd eq_refl Hnum) as Hsave.
  assert (Hst : affinity_step lower now validate (EditRule i) p = Some (set_modal (Some d) p)).
  { unfold affinity_step, affinity_handle. rewrite Hm. cbn [page_event]. rewrite He, Hi, Hed. cbn [open_dialog option_map]. by rewrite follow_seen. }
  eexists _, _. split; [exact Hst|]. unfold affinity_step, affinity_handle. cbn [set_modal modal]. rewrite Hte'. cbn [option_map]. split; [reflexivity|].
  unfold handleModalSave, saved_rules, edited_place. pages. rewrite Hsave, Hise, Hidd, G1, Hf, list_insert_id by done.
  assert (Et : rulesToJson (renumber (rules p)) = rulesToJson (rules p)) by (apply text_of_bodies, renumber_bodies).
  unfold follow_text. by case_bool_decide; pages.
Qed.

(** ** Names of templates *)

Lemma unique_from_full fuel i now existing base : unique_from fuel i now existing base ∈ existing → ∀ j, j < fuel → suffixed base (i + j) ∈ existing.
Proof.
  revert i. induction fuel as [|fuel IH]; intros i H j Hj; [lia|]. cbn [unique_from] in H.
  destruct (existsb (streq (suffixed base i)) existing) eqn:E; [|apply existsb_streq in H; congruence].
  destruct j as [|j]; [rewrite Nat.add_0_r; by apply existsb_streq|]. rewrite Nat.add_succ_r, <- Nat.add_succ_l. apply IH; [done|lia].
Qed.

(** A template gets a name no rule has, as long as there are fewer than 998 names. *)
Theorem template_name_free now existing baseName : length existing < 998 → makeUniqueName now existing baseName ∉ existing.
Proof.
  intros Hl. unfold makeUniqueName. set (base := if is_empty (trim baseName) then _ else _). destruct (existsb (streq base) existing) eqn:E.
  - intros H. pose proof (unique_from_full _ _ _ _ _ H) as Hall. remember 998 as n.
    assert (Hn : length (map (λ j, suffixed base (2 + j)) (seq 0 n)) ≤ length existing).
    { apply submseteq_length, NoDup_submseteq.
      - apply NoDup_fmap_2; [|apply NoDup_seq]. intros a b Hab. unfold suffixed in Hab. apply app_inv_head, app_inv_head, numeral_inj in Hab. lia.
      - intros k (j & -> & Hj)%list_elem_of_fmap. apply elem_of_seq in Hj. apply Hall. lia. }
    rewrite length_map, length_seq in Hn. lia.
  - intros H. apply existsb_streq in H. congruence.
Qed.

(** ** Submission *)

(** Exactly the settings that differ from the loaded ones are sent, and the rules as
    a text that reads as the rules. *)
Theorem submit_exact p puts v : onSubmit p = Ok puts → parse (with_default (rules_text (inputs_now p))) = Some v → json_ok v = true →
  (∀ k, k ∈ map fst puts ↔ k ∈ map fst (inputs_object (inputs_now p)) ∧
    strict_eq (obj_get (inputs_object (inputs_now p)) k) (obj_get (inputs_object (inputsRow p)) k) = false) ∧
  ∀ t, (KEY_RULES, t) ∈ puts → parse t = Some v.
Proof.
  unfold onSubmit. intros H Hp Hok. destruct (length _ =? 0); [done|]. rewrite Hp in H. injection H as <-. split.
  - intros k. rewrite map_map. cbn [fst]. rewrite map_id. unfold compareObjects. rewrite list_elem_of_In, filter_In, <- list_elem_of_In, own_keys_In, andb_true_iff, negb_true_iff.
    split; [tauto|]. intros [H1 H2]. split; [done|]. split; [|done]. apply obj_has_In. exact H1.
  - intros t Ht. destruct (parse_stringify v Hok) as (s & Hs & Hps). apply list_elem_of_In, in_map_iff in Ht as (k & Hk & _). injection Hk as -> <-.
    by rewrite streq_refl, Hs.
Qed.

(** ** Edits that are lost *)

Definition all_valid (v : values) : bool := true.
Definition run_affinity (es : list affinity_event) (p : page) : option page :=
  fold_left (λ acc e, match acc with Some p => affinity_step (λ s, s) (js "1") all_valid e p | None => None end) es (Some p).
Definition stored (text : jsstr) : page := mount_page (λ s, s) (Options None None None None (Some text)).
Definition names_of (p : page) : list jval := map (λ r, obj_get r (js "name")) (rules p).
Definition some_fields : values :=
  Values (JStr []) (js "^gpt") [] [] (JStr []) (JNum nzero) (JBool false) (JBool true) (JBool false) (JBool true).

(** Pressing the button of the JSON view in the JSON view writes the rules of the
    table over the text that was typed. *)
Theorem json_button_discards :
  option_map (λ p, (editMode p, rules_text (inputs_now p))) (run_affinity [ToJson; TypeRules (jsq "[{'name':'a'}]"); ToJson] (stored (js "[]")))
  = Some (JsonMode, js "[]").
Proof. by vm_compute. Qed.

(** Adding a rule in the JSON view adds it to the rules of the table: the rule that
    was typed is gone. *)
Theorem added_rule_discards_text :
  option_map names_of (run_affinity [ToJson; TypeRules (jsq "[{'name':'typed'}]"); AddRule; TypeName (js "added"); TypeFields some_fields;
    SourceText 0 (js "a.b"); SaveRule; ToVisual] (stored (js "[]")))
  = Some [JStr (js "added")].
Proof. by vm_compute. Qed.

(** A stored member [id] takes the place of the row number: deleting one rule removes
    the other one with it. *)
Theorem own_id_deletes_two :
  option_map (λ p, (names_of (stored (jsq "[{'name':'a','id':1},{'name':'b'}]")), rules p)) (run_affinity [DeleteRule 0] (stored (jsq "[{'name':'a','id':1},{'name':'b'}]")))
  = Some ([JStr (js "a"); JStr (js "b")], []).
Proof. by vm_compute. Qed.

(** A rule without [include_rule_name] and [include_using_group] has neither scope in
    the table and both after it was opened and saved without a change. *)
Definition scopes (p : page) : list (bool * bool) :=
  map (λ r, (truthy (obj_get r (js "include_rule_name")), truthy (obj_get r (js "include_using_group")))) (rules p).
Theorem edit_widens_scope :
  let p := stored (jsq "[{'name':'a','model_regex':['x'],'key_sources':[{'type':'gjson','path':'p'}]}]") in
  scopes p = [(false, false)] ∧ option_map scopes (run_affinity [EditRule 0; SaveRule] p) = Some [(true, true)].
Proof. split; by vm_compute. Qed.

(** A text that is not a list is refused by the table view but submitted. *)
Theorem object_submitted :
  option_map (λ p, (editMode (switchToVisualMode p), onSubmit p)) (run_affinity [ToJson; TypeRules (js "{}")] (stored (js "[]")))
  = Some (JsonMode, Ok [(KEY_RULES, js "{}")]).
Proof. by vm_compute. Qed.

(** *** Witnesses *)

Definition sample_events : list affinity_event := [AddRule; TypeName (js "a"); TypeFields some_fields; SourceText 0 (js "a.b")].
Definition sample_page (es : list affinity_event) : page := default (stored (js "[]")) (run_affinity es (stored (js "[]"))).
Definition reached_sample : page → Prop := affinity_reached (λ s, s) (js "1") all_valid.

Lemma reached_run es p : run_affinity es (stored (js "[]")) = Some p → reached_sample p.
Proof.
  revert p. induction es as [|e es IH] using rev_ind; intros p; [intros [= <-]; apply affinity_mounted|].
  unfold run_affinity. rewrite fold_left_app. cbn [fold_left]. fold (run_affinity es (stored (js "[]"))).
  destruct (run_affinity es (stored (js "[]"))) as [q|]; [|done]. intros H. eapply affinity_next; [by apply IH|exact H].
Qed.

Lemma affinity_shows_text_witness : affinity_ok (sample_page (sample_events ++ [SaveRule])).
Proof.
  apply (affinity_shows_text (λ s, s) (js "1") all_valid). apply (reached_run (sample_events ++ [SaveRule])). by vm_compute.
Defined.

Definition sample_dialog : rule_dialog := default (RuleDialog [] false some_fields [] false) (modal (sample_page sample_events)).
Definition sample_rule : rule := match dialog_rule all_valid 0 sample_dialog with Ok r => r | Wrong _ => [] end.

Lemma rule_saved_exactly_witness : ∃ p', affinity_step (λ s, s) (js "1") all_valid SaveRule (sample_page sample_events) = Some p' ∧
  parse (rules_text (inputs_now p')) = Some (JArr [body_json sample_rule]).
Proof.
  destruct (rule_saved_exactly (λ s, s) (js "1") all_valid (sample_page sample_events) sample_dialog sample_rule 0) as (p' & H1 & _ & H2 & _);
    [by vm_compute|by vm_compute|by vm_compute|apply Forall_nil_2|by vm_compute|by vm_compute|].
  exists p'. exact (conj H1 H2).
Defined.

Lemma rule_reopens_witness : ∃ p1 p2, affinity_step (λ s, s) (js "1") all_valid (EditRule 0) (sample_page (sample_events ++ [SaveRule])) = Some p1 ∧
  affinity_step (λ s, s) (js "1") all_valid SaveRule p1 = Some p2 ∧ modal p2 = None ∧
  rules_text (inputs_now p2) = rulesToJson (rules (sample_page (sample_events ++ [SaveRule]))).
Proof.
  apply (rule_reopens (λ s, s) (js "1") all_valid (sample_page (sample_events ++ [SaveRule])) 0 ((ID, index_num 0) :: without_id sample_rule) (index_num 0)
    all_valid 0 sample_dialog sample_rule); [|by vm_compute..|done].
  apply (reached_run (sample_events ++ [SaveRule])). by vm_compute.
Defined.
