(* ===== verification/GroupSettings.v ===== *)
(** * The group settings

    [web/src/pages/Setting/Ratio/GroupRatioSettings.jsx] and the four editors it
    shows in its visual mode: [GroupTable.jsx] (groups, ratios and descriptions),
    [AutoGroupList.jsx] (the order of automatic groups), [GroupGroupRatioRules.jsx]
    (ratios between groups) and [GroupSpecialUsableRules.jsx] (groups that are usable
    for some users only).  The page keeps one text per option; an editor reads its
    text when it is mounted and writes a new one at every change.

    [None] of a reading function is the [TypeError] of a text that is [null] or has a
    primitive value in place of an object.  A number box gives a number, [''] when it is cleared, or
    nothing.  Ids come from one counter for all editors.  Names that every object
    inherits ([constructor], [toString], ...) are followed as far as they change the
    editors' texts; what an assignment to an inherited object does elsewhere is not.
    Messages, tooltips and the guide are left out. *)

From S2P Require Import Prelude JsString JsNumber Json JsObject.

(** ** Texts *)

(** [parseJSON], [parseJSONSafe] *)
Definition parseJSON (str : jsstr) (fallback : jval) : jval := if blank str then fallback else default fallback (parse str).

(** [Object.keys], [Object.entries] *)
Definition entries_throw (v : jval) : option (list (jsstr * jval)) := if is_nullish v then None else Some (entries v).
Definition keys_throw (v : jval) : option (list jsstr) := map fst <$> entries_throw v.

(** ** The table of groups *)

Module GroupTable.

Record row := Row { id : nat; name : jsstr; ratio : jval; selectable : bool; description : jval }.

Definition owns (v : jval) (k : jsstr) : bool := existsb (streq k) (keys v).
(** [o[k] ?? d]; [undefined] stands for an inherited function, which has no text
    either. *)
Definition member_or (o : jval) (k : jsstr) (d : jval) : jval :=
  if inherits k && negb (owns o k) then JUndef else js_nullish (read o k) d.
(** [k in o] *)
Definition in_throw (k : jsstr) (o : jval) : option bool :=
  match o with JObj _ | JArr _ => Some (owns o k || inherits k) | _ => None end.

Definition row_of (ratioMap usableMap : jval) (e : nat * jsstr) : option row :=
  sel ← in_throw e.2 usableMap;
  Some (Row e.1 e.2 (member_or ratioMap e.2 (JNum (num_of_Z 1))) sel (member_or usableMap e.2 (JStr []))).
Definition allNames (k1 k2 : list jsstr) : list jsstr := k1 ++ List.filter (λ k, negb (existsb (streq k) k1)) k2.
Definition buildRows (groupRatioStr userUsableGroupsStr : jsstr) (n : nat) : option (list row) :=
  let ratioMap := parseJSON groupRatioStr (JObj []) in
  let usableMap := parseJSON userUsableGroupsStr (JObj []) in
  k1 ← keys_throw ratioMap;
  k2 ← keys_throw usableMap;
  map_opt (row_of ratioMap usableMap) (imap (λ i name, (n + i, name)) (allNames k1 k2)).

Definition put_row (acc : list (jsstr * jval) * list (jsstr * jval)) (r : row) : list (jsstr * jval) * list (jsstr * jval) :=
  if is_empty (name r) then acc
  else (assign acc.1 (name r) (ratio r), if selectable r then assign acc.2 (name r) (description r) else acc.2).
Definition objects_of (rows : list row) : list (jsstr * jval) * list (jsstr * jval) := fold_left put_row rows ([], []).
Definition serializeGroupTable (rows : list row) : jsstr * jsstr :=
  (default [] (stringify2 (JObj (objects_of rows).1)), default [] (stringify2 (JObj (objects_of rows).2))).

Inductive field := Name (s : jsstr) | Ratio (v : jval) | Selectable (b : bool) | Description (s : jsstr).
Definition set_field (f : field) (r : row) : row :=
  match f with
  | Name s => Row (id r) s (ratio r) (selectable r) (description r)
  | Ratio v => Row (id r) (name r) (js_nullish v (JNum nzero)) (selectable r) (description r)
  | Selectable b => Row (id r) (name r) (ratio r) b (description r)
  | Description s => Row (id r) (name r) (ratio r) (selectable r) (JStr s)
  end.
Definition updateRow (i : nat) (f : field) (rows : list row) : list row := map (λ r, if id r =? i then set_field f r else r) rows.

Definition group_n (n : nat) : jsstr := js "group_" ++ string_of_Z (Z.of_nat n).
Definition newName (rows : list row) : jsstr := first_free group_n (length rows) 1 (map name rows).
Definition addRow (n : nat) (rows : list row) : list row := rows ++ [Row n (newName rows) (JNum (num_of_Z 1)) true (JStr [])].
Definition removeRow (i : nat) (rows : list row) : list row := List.filter (λ r, negb (id r =? i)) rows.

(** The count of an inherited name is not a number. *)
Definition count_name (counts : list (jsstr * nat)) (n : jsstr) : list (jsstr * nat) :=
  if inherits n then counts else assoc_set counts n (S (default 0 (assoc_get counts n))).
Definition duplicateNames (rows : list row) : list jsstr :=
  let counts := fold_left count_name (map name rows) [] in
  List.filter (λ k, 1 <? default 0 (assoc_get counts k)) (own_keys (map (λ e, (e.1, JNull)) counts)).

End GroupTable.

(** ** The automatic groups *)

Module AutoGroups.

Record item := Item { id : nat; name : jsstr }.

Definition auto_text (v : jval) : option jsstr := match v with JStr s => Some s | _ => None end.
Definition parseAutoGroups (str : jsstr) (n : nat) : list item :=
  if blank str then [] else
  match parse str with Some (JArr l) => imap (λ i s, Item (n + i) s) (omap auto_text l) | _ => [] end.
Definition serializeAutoGroups (items : list item) : jsstr :=
  match filter_truthy (map name items) with [] => [] | names => default [] (stringify (JArr (map JStr names))) end.

Definition addItem (n : nat) (items : list item) : list item := items ++ [Item n []].
Definition removeItem (i : nat) (items : list item) : list item := List.filter (λ x, negb (id x =? i)) items.
Definition updateItem (i : nat) (s : jsstr) (items : list item) : list item := map (λ x, if id x =? i then Item (id x) s else x) items.
Definition swap (i : nat) (items : list item) : list item :=
  match items !! i, items !! S i with Some a, Some b => <[i := b]> (<[S i := a]> items) | _, _ => items end.
(** [None]: no change is handed up *)
Definition moveUp (index : nat) (items : list item) : option (list item) := match index with 0 => None | S i => Some (swap i items) end.
Definition moveDown (index : nat) (items : list item) : option (list item) :=
  if length items - 1 <=? index then None else Some (swap index items).

End AutoGroups.

(** ** Rules of one group about another

    Both editors keep a list of rules and store an object of objects: user group,
    key of the rule, value. *)

Module Nested.
Section Nested.
Context {R : Type} (id : R → nat) (user target key : R → jsstr) (val : R → jval) (make : nat → jsstr → jsstr → jval → R).

Definition typeof_object_not_null (v : jval) : bool := match v with JObj _ | JArr _ => true | _ => false end.
Definition inner_entries (e : jsstr * jval) : list (jsstr * (jsstr * jval)) :=
  if typeof_object_not_null e.2 then map (λ x, (e.1, x)) (entries e.2) else [].
Definition flattenRules (nested : jval) (n : nat) : option (list R) :=
  es ← entries_throw nested;
  Some (imap (λ i e, make (n + i) e.1 e.2.1 e.2.2) (concat (map inner_entries es))).

Definition inner_object (v : jval) : list (jsstr * jval) := match v with JObj o => o | _ => [] end.
(** [result[userGroup]] of an inherited name is no object of the result. *)
Definition nest_rule (result : list (jsstr * jval)) (r : R) : list (jsstr * jval) :=
  if is_empty (user r) || is_empty (target r) || inherits (user r) then result
  else obj_set result (user r) (JObj (assign (inner_object (obj_get result (user r))) (key r) (val r))).
Definition nestRules (rules : list R) : list (jsstr * jval) := fold_left nest_rule rules [].
Definition serialize (rules : list R) : jsstr :=
  match nestRules rules with [] => [] | nested => default [] (stringify2 (JObj nested)) end.

(** [map[r.userGroup].push] of an inherited name throws. *)
Definition group_rule (acc : option (list (jsstr * list R))) (r : R) : option (list (jsstr * list R)) :=
  match acc with
  | None => None
  | Some groups =>
    if is_empty (user r) then Some groups
    else if inherits (user r) then None
    else Some (assoc_set groups (user r) (default [] (assoc_get groups (user r)) ++ [r]))
  end.
Definition grouped (rules : list R) : option (list (jsstr * list R)) := fold_left group_rule rules (Some []).

Definition removeRule (i : nat) (rules : list R) : list R := List.filter (λ r, negb (id r =? i)) rules.
(** [items.forEach((item) => onRemove(item._id))]: every call starts from the rules
    of the render, and the last one is what remains. *)
Definition remove_group (items rules : list R) : list R := fold_left (λ _ item, removeRule (id item) rules) items rules.

End Nested.
End Nested.

(** *** Ratios between groups *)

Module GroupRatios.

Record rule := Rule { id : nat; userGroup : jsstr; usingGroup : jsstr; ratio : jval }.

Definition make (i : nat) (u k : jsstr) (v : jval) : rule := Rule i u k (match v with JNum x => JNum x | _ => JNum (num_of_Z 1) end).
Definition read_rules (value : jsstr) (n : nat) : option (list rule) := Nested.flattenRules make (parseJSON value (JObj [])) n.
Definition serializeGroupGroupRatio (rules : list rule) : jsstr := Nested.serialize userGroup usingGroup usingGroup ratio rules.
Definition grouped (rules : list rule) : option (list (jsstr * list rule)) := Nested.grouped userGroup rules.

Inductive field := UsingGroup (s : jsstr) | Ratio (v : jval).
Definition set_field (f : field) (r : rule) : rule :=
  match f with
  | UsingGroup s => Rule (id r) (userGroup r) s (ratio r)
  | Ratio v => Rule (id r) (userGroup r) (usingGroup r) (js_nullish v (JNum nzero))
  end.
Definition updateRule (i : nat) (f : field) (rules : list rule) : list rule := map (λ r, if id r =? i then set_field f r else r) rules.
Definition addRuleToGroup (n : nat) (groupName : jsstr) (rules : list rule) : list rule := rules ++ [Rule n groupName [] (JNum (num_of_Z 1))].

End GroupRatios.

(** *** Usable groups *)

Module UsableGroups.

Inductive op := Add | Remove | Append.
#[global] Instance op_eq_dec : EqDecision op.
Proof. solve_decision. Defined.

Definition parsePrefix (rawKey : jsstr) : op * jsstr :=
  if starts_with (js "+:") rawKey then (Add, drop 2 rawKey)
  else if starts_with (js "-:") rawKey then (Remove, drop 2 rawKey)
  else (Append, rawKey).
Definition toRawKey (o : op) (groupName : jsstr) : jsstr :=
  match o with Add => js "+:" ++ groupName | Remove => js "-:" ++ groupName | Append => groupName end.

Record rule := Rule { id : nat; userGroup : jsstr; r_op : op; targetGroup : jsstr; description : jsstr }.
Definition REMOVED : jsstr := js "remove".

Definition make (i : nat) (u k : jsstr) (v : jval) : rule :=
  let '(o, groupName) := parsePrefix k in
  Rule i u o groupName (if bool_decide (o = Remove) then REMOVED else match v with JStr s => s | _ => [] end).
Definition raw_key (r : rule) : jsstr := toRawKey (r_op r) (targetGroup r).
Definition read_rules (value : jsstr) (n : nat) : option (list rule) := Nested.flattenRules make (parseJSON value (JObj [])) n.
Definition serializeGroupSpecialUsable (rules : list rule) : jsstr :=
  Nested.serialize userGroup targetGroup raw_key (λ r, JStr (description r)) rules.
Definition grouped (rules : list rule) : option (list (jsstr * list rule)) := Nested.grouped userGroup rules.

Inductive field := Op (o : op) | TargetGroup (s : jsstr) | Description (s : jsstr).
(** The description follows a change of the operation to removal and back. *)
Definition set_field (f : field) (r : rule) : rule :=
  match f with
  | Op o => Rule (id r) (userGroup r) o (targetGroup r)
              (if bool_decide (o = Remove) then REMOVED
               else if bool_decide (r_op r = Remove) && streq (description r) REMOVED then [] else description r)
  | TargetGroup s => Rule (id r) (userGroup r) (r_op r) s (description r)
  | Description s => Rule (id r) (userGroup r) (r_op r) (targetGroup r) s
  end.
Definition updateRule (i : nat) (f : field) (rules : list rule) : list rule := map (λ r, if id r =? i then set_field f r else r) rules.
Definition addRuleToGroup (n : nat) (groupName : jsstr) (rules : list rule) : list rule := rules ++ [Rule n groupName Append [] []].
(** The description of a removal has no box. *)
Definition editable (i : nat) (f : field) (r : rule) : bool :=
  (id r =? i) && match f with Description _ => negb (bool_decide (r_op r = Remove)) | _ => true end.

End UsableGroups.

(** ** The page *)

Definition GROUP_RATIO : jsstr := js "GroupRatio".
Definition USER_USABLE_GROUPS : jsstr := js "UserUsableGroups".
Definition GROUP_GROUP_RATIO : jsstr := js "GroupGroupRatio".
Definition SPECIAL_USABLE : jsstr := js "group_ratio_setting.group_special_usable_group".
Definition AUTO_GROUPS : jsstr := js "AutoGroups".
Definition DEFAULT_USE_AUTO : jsstr := js "DefaultUseAutoGroup".
Definition TEXT_KEYS : list jsstr := [GROUP_RATIO; USER_USABLE_GROUPS; GROUP_GROUP_RATIO; SPECIAL_USABLE; AUTO_GROUPS].
Definition OPTION_KEYS : list jsstr := TEXT_KEYS ++ [DEFAULT_USE_AUTO].

Definition inputs : Type := list (jsstr * jval).
(** The options are texts; one that has not come is [undefined]. *)
Definition text_at (i : inputs) (k : jsstr) : jsstr := match obj_get i k with JStr s => s | _ => [] end.
Definition first_inputs : inputs := map (λ k, (k, JStr [])) TEXT_KEYS ++ [(DEFAULT_USE_AUTO, JBool false)].

(** The editors of the visual mode, with the new group chosen in the two last *)
Record editors := Editors {
  rows : list GroupTable.row; autos : list AutoGroups.item; ratios : list GroupRatios.rule; usables : list UsableGroups.rule;
  newRatioGroup : jsstr; newUsableGroup : jsstr
}.
(** [shown]: the editors, in the visual mode; [next]: the counter of ids *)
Record group_page := GroupPage { inputs_now : inputs; inputsRow : inputs; shown : option editors; next : nat }.
(** A render that throws takes the page away. *)
Inductive group_state := Live (p : group_page) | Crashed.

Definition bound {A} (n : nat) (l : list A) : nat := n + length l.
Definition mount_editors (i : inputs) (n : nat) : option (editors * nat) :=
  rs ← GroupTable.buildRows (text_at i GROUP_RATIO) (text_at i USER_USABLE_GROUPS) n;
  let n1 := bound n rs in
  let as_ := AutoGroups.parseAutoGroups (text_at i AUTO_GROUPS) n1 in
  let n2 := bound n1 as_ in
  gs ← GroupRatios.read_rules (text_at i GROUP_GROUP_RATIO) n2;
  let n3 := bound n2 gs in
  us ← UsableGroups.read_rules (text_at i SPECIAL_USABLE) n3;
  Some (Editors rs as_ gs us [] [], bound n3 us).

(** What every render evaluates: the names of groups, and the rules by group *)
Definition groupNames (i : inputs) : option (list jsstr) := keys_throw (parseJSON (text_at i GROUP_RATIO) (JObj [])).
Definition renders (p : group_page) : bool :=
  bool_decide (is_Some (groupNames (inputs_now p))) &&
  match shown p with
  | Some e => bool_decide (is_Some (GroupRatios.grouped (ratios e))) && bool_decide (is_Some (UsableGroups.grouped (usables e)))
  | None => true
  end.
Definition render (p : group_page) : group_state := if renders p then Live p else Crashed.

Definition show_editors (i row : inputs) (n : nat) : group_state :=
  match mount_editors i n with Some (e, n') => render (GroupPage i row (Some e) n') | None => Crashed end.

(** New options replace all inputs and mount the editors again. *)
Definition take_options (o : inputs) (p : group_page) : group_state :=
  let current := List.filter (λ e, existsb (streq e.1) OPTION_KEYS) o in
  match shown p with
  | Some _ => show_editors current current (next p)
  | None => render (GroupPage current current None (next p))
  end.
Definition mount_page (o : inputs) : group_state := take_options o (GroupPage first_inputs first_inputs (Some (Editors [] [] [] [] [] [])) 0).

(** *** Changes of the editors *)

Definition set_option (k : jsstr) (v : jval) (p : group_page) : group_page := GroupPage (obj_set (inputs_now p) k v) (inputsRow p) (shown p) (next p).
Definition set_text (k : jsstr) (s : jsstr) : group_page → group_page := set_option k (JStr s).
Definition set_editors (e : editors) (n : nat) (p : group_page) : group_page := GroupPage (inputs_now p) (inputsRow p) (Some e) n.

Definition handleGroupTableChange (l : list GroupTable.row) (e : editors) (n : nat) (p : group_page) : group_page :=
  let '(t1, t2) := GroupTable.serializeGroupTable l in
  set_text USER_USABLE_GROUPS t2 (set_text GROUP_RATIO t1 (set_editors (Editors l (autos e) (ratios e) (usables e) (newRatioGroup e) (newUsableGroup e)) n p)).
Definition handleAutoGroupsChange (l : list AutoGroups.item) (e : editors) (n : nat) (p : group_page) : group_page :=
  set_text AUTO_GROUPS (AutoGroups.serializeAutoGroups l)
    (set_editors (Editors (rows e) l (ratios e) (usables e) (newRatioGroup e) (newUsableGroup e)) n p).
Definition handleGroupGroupRatioChange (l : list GroupRatios.rule) (new : jsstr) (e : editors) (n : nat) (p : group_page) : group_page :=
  set_text GROUP_GROUP_RATIO (GroupRatios.serializeGroupGroupRatio l)
    (set_editors (Editors (rows e) (autos e) l (usables e) new (newUsableGroup e)) n p).
Definition handleSpecialUsableChange (l : list UsableGroups.rule) (new : jsstr) (e : editors) (n : nat) (p : group_page) : group_page :=
  set_text SPECIAL_USABLE (UsableGroups.serializeGroupSpecialUsable l)
    (set_editors (Editors (rows e) (autos e) (ratios e) l (newRatioGroup e) new) n p).

(** *** Events *)

Inductive group_event :=
| NewOptions (o : inputs) | ToManual | ToVisual | TypeText (k s : jsstr) | DefaultAuto (b : bool)
| RowChange (i : nat) (f : GroupTable.field) | RowAdd | RowRemove (i : nat)
| AutoName (i : nat) (s : jsstr) | AutoAdd | AutoRemove (i : nat) | AutoUp (index : nat) | AutoDown (index : nat)
| RatioChange (i : nat) (f : GroupRatios.field) | RatioRemove (i : nat) | RatioRemoveGroup (g : jsstr) | RatioAdd (g : jsstr)
| RatioPick (g : jsstr) | RatioAddGroup
| UsableChange (i : nat) (f : UsableGroups.field) | UsableRemove (i : nat) | UsableRemoveGroup (g : jsstr) | UsableAdd (g : jsstr)
| UsablePick (g : jsstr) | UsableAddGroup.

(** The items of a section *)
Definition items_of {R} (groups : option (list (jsstr * list R))) (g : jsstr) : list R := default [] (gs ← groups; assoc_get gs g).

(** Clicks in the editors; [None]: nothing changes *)
Definition editor_event (ev : group_event) (e : editors) (p : group_page) : option group_page :=
  let n := next p in
  let row l n := Some (handleGroupTableChange l e n p) in
  let auto l n := Some (handleAutoGroupsChange l e n p) in
  let ratio l n := Some (handleGroupGroupRatioChange l (newRatioGroup e) e n p) in
  let usable l n := Some (handleSpecialUsableChange l (newUsableGroup e) e n p) in
  match ev with
  | RowChange i f => row (GroupTable.updateRow i f (rows e)) n
  | RowAdd => row (GroupTable.addRow n (rows e)) (S n)
  | RowRemove i => row (GroupTable.removeRow i (rows e)) n
  | AutoName i s => auto (AutoGroups.updateItem i s (autos e)) n
  | AutoAdd => auto (AutoGroups.addItem n (autos e)) (S n)
  | AutoRemove i => auto (AutoGroups.removeItem i (autos e)) n
  | AutoUp i => l ← AutoGroups.moveUp i (autos e); auto l n
  | AutoDown i => l ← AutoGroups.moveDown i (autos e); auto l n
  | RatioChange i f => ratio (GroupRatios.updateRule i f (ratios e)) n
  | RatioRemove i => ratio (Nested.removeRule GroupRatios.id i (ratios e)) n
  | RatioRemoveGroup g => ratio (Nested.remove_group GroupRatios.id (items_of (GroupRatios.grouped (ratios e)) g) (ratios e)) n
  | RatioAdd g => ratio (GroupRatios.addRuleToGroup n g (ratios e)) (S n)
  | RatioPick g => Some (set_editors (Editors (rows e) (autos e) (ratios e) (usables e) g (newUsableGroup e)) n p)
  | RatioAddGroup => if blank (newRatioGroup e) then None
                     else Some (handleGroupGroupRatioChange (GroupRatios.addRuleToGroup n (trim (newRatioGroup e)) (ratios e)) [] e (S n) p)
  | UsableChange i f => if existsb (UsableGroups.editable i f) (usables e) then usable (UsableGroups.updateRule i f (usables e)) n else None
  | UsableRemove i => usable (Nested.removeRule UsableGroups.id i (usables e)) n
  | UsableRemoveGroup g => usable (Nested.remove_group UsableGroups.id (items_of (UsableGroups.grouped (usables e)) g) (usables e)) n
  | UsableAdd g => usable (UsableGroups.addRuleToGroup n g (usables e)) (S n)
  | UsablePick g => Some (set_editors (Editors (rows e) (autos e) (ratios e) (usables e) (newRatioGroup e) g) n p)
  | UsableAddGroup => if blank (newUsableGroup e) then None
                      else Some (handleSpecialUsableChange (UsableGroups.addRuleToGroup n (trim (newUsableGroup e)) (usables e)) [] e (S n) p)
  | _ => None
  end.

Definition group_handle (ev : group_event) (p : group_page) : option group_state :=
  match ev, shown p with
  | NewOptions o, _ => Some (take_options o p)
  | DefaultAuto b, _ => Some (render (set_option DEFAULT_USE_AUTO (JBool b) p))
  | ToManual, Some _ => Some (render (GroupPage (inputs_now p) (inputsRow p) None (next p)))
  | ToVisual, None => Some (show_editors (inputs_now p) (inputsRow p) (next p))
  | TypeText k s, None => if existsb (streq k) TEXT_KEYS then Some (render (set_text k s p)) else None
  | _, Some e => option_map render (editor_event ev e p)
  | _, None => None
  end.
Definition group_step (ev : group_event) (s : group_state) : option group_state :=
  match s with Live p => group_handle ev p | Crashed => None end.

(** *** Submission *)

Definition valid_json (v : jval) : bool := match v with JStr s => bool_decide (is_Some (parse s)) | _ => false end.
Definition valid_autos (v : jval) : bool :=
  match v with
  | JStr s => blank s || match parse s with Some (JArr l) => forallb (λ x, bool_decide (is_Some (AutoGroups.auto_text x))) l | _ => false end
  | _ => true
  end.
(** The rules of the form of the manual mode *)
Definition validate (i : inputs) : bool :=
  valid_json (obj_get i GROUP_RATIO) && valid_json (obj_get i USER_USABLE_GROUPS) && valid_json (obj_get i GROUP_GROUP_RATIO) &&
  valid_json (obj_get i SPECIAL_USABLE) && valid_autos (obj_get i AUTO_GROUPS).

Definition put_value (v : jval) : jval := match v with JBool b => JStr (if b then js "true" else js "false") | _ => v end.
(** The requests, a key and its value each; [inr] is the message. *)
Definition onSubmit (p : group_page) : list (jsstr * jval) + jsstr :=
  if match shown p with None => negb (validate (inputs_now p)) | Some _ => false end then inr (js "请检查输入") else
  match compareObjects (inputs_now p) (inputsRow p) with
  | [] => inr (js "你似乎并没有修改什么")
  | changed => inl (map (λ k, (k, put_value (obj_get (inputs_now p) k))) changed)
  end.
