(* ===== verification/GroupSettingsTheorems.v ===== *)
(** * The group settings: what holds of them

    Every editor writes a text that it reads back as what it shows; the page keeps
    texts and editors together whatever is clicked, and a save with the reload after
    it shows the same groups and rules.  And the changes that do not do what they
    say. *)

From stdpp Require Import gmap.
From S2P Require Import Prelude JsString JsNumber Json JsObject JsOrder GroupSettings.

Local Opaque js.

(** ** Texts *)

Lemma object_reads o : json_fit (JObj o) = true → Forall (λ e, ordered e.2 = e.2) o →
  parseJSON (default [] (stringify2 (JObj o))) (JObj []) = JObj (own_entries o).
Proof.
  intros Hf Ho. destruct (parse_stringify_ordered (js "  ") (JObj o) ltac:(by vm_compute) Hf) as (t & Ht & Hp).
  unfold stringify2. rewrite Ht. change (default [] (Some t)) with t. unfold parseJSON.
  assert (blank t = false) as -> by (unfold blank; destruct (object_text_edges _ _ _ Ht) as [Hne Htr]; rewrite trim_trimmed by done; by destruct t).
  rewrite Hp. cbn [default]. change (JObj (own_entries (map (λ e, (e.1, ordered e.2)) o)) = JObj (own_entries o)). do 2 f_equal.
  apply map_id_in. rewrite Forall_forall in Ho. intros [k v] He%list_elem_of_In. cbn [fst snd]. f_equal. apply (Ho _ He).
Qed.

Lemma own_keys_idemp o : own_keys (own_entries o) = own_keys o.
Proof. unfold own_keys. by rewrite own_entries_idemp. Qed.

Lemma map_imap {A B C} (g : B → C) (f : nat → A → B) (h : A → C) l : (∀ i x, g (f i x) = h x) → map g (imap f l) = map h l.
Proof. revert f. induction l as [|x l IH]; intros f H; [done|]. rewrite imap_cons. cbn [map]. rewrite H. f_equal. apply IH. intros i y. apply H. Qed.

Lemma filter_none {A} (p : A → bool) l : (∀ x, x ∈ l → p x = false) → List.filter p l = [].
Proof. induction l as [|x l IH]; intros H; [done|]. cbn [List.filter]. rewrite H by by left. apply IH. intros y Hy. apply H. by right. Qed.

Lemma nullish_other v d : is_nullish v = false → js_nullish v d = v.
Proof. by destruct v. Qed.

(** ** The automatic groups *)

Definition auto_sound (x : AutoGroups.item) : Prop := forallb unit_ok (AutoGroups.name x) = true.

Lemma autos_reopen items n : Forall auto_sound items →
  map AutoGroups.name (AutoGroups.parseAutoGroups (AutoGroups.serializeAutoGroups items) n) = filter_truthy (map AutoGroups.name items).
Proof.
  intros Hs. unfold AutoGroups.serializeAutoGroups.
  assert (Hu : Forall (λ s, forallb unit_ok s = true) (filter_truthy (map AutoGroups.name items))).
  { apply Forall_forall. intros s [H _]%list_elem_of_In%filter_In. apply in_map_iff in H as (x & <- & Hx). rewrite Forall_forall in Hs.
    by apply (Hs x), list_elem_of_In. }
  destruct (filter_truthy _) as [|s l] eqn:E; [done|]. set (names := s :: l) in *. clearbody names. clear E.
  assert (Hok : json_ok (JArr (map JStr names)) = true).
  { cbn [json_ok]. rewrite forallb_forall. intros v (x & <- & Hx)%in_map_iff. cbn [json_ok]. rewrite Forall_forall in Hu. by apply Hu, list_elem_of_In. }
  destruct (parse_stringify _ Hok) as (t & Ht & Hp). rewrite Ht. change (default [] (Some t)) with t. unfold AutoGroups.parseAutoGroups.
  rewrite (array_not_blank _ _ _ _ Ht), Hp.
  assert (Ho : omap AutoGroups.auto_text (map JStr names) = names) by (clear; induction names as [|x names IH]; [done|]; cbn; by rewrite IH).
  rewrite Ho. rewrite (map_imap AutoGroups.name _ (λ x, x)) by done. apply map_id.
Qed.

Lemma autos_any str n m : map AutoGroups.name (AutoGroups.parseAutoGroups str n) = map AutoGroups.name (AutoGroups.parseAutoGroups str m).
Proof. unfold AutoGroups.parseAutoGroups. repeat case_match; try done. by rewrite !(map_imap AutoGroups.name _ (λ x, x)). Qed.

(** Moving a group exchanges it with its neighbour. *)
Lemma swap_perm i items : AutoGroups.swap i items ≡ₚ items.
Proof.
  revert items. induction i as [|i IH]; intros [|a items]; try done.
  - destruct items as [|b items]; [done|]. apply Permutation_swap.
  - assert (AutoGroups.swap (S i) (a :: items) = a :: AutoGroups.swap i items) as ->; [|by rewrite IH].
    unfold AutoGroups.swap. change ((a :: items) !! S i) with (items !! i). change ((a :: items) !! S (S i)) with (items !! S i).
    by destruct (items !! i), (items !! S i).
Qed.

(** ** The table of groups *)

Module Table.
Import GroupTable.

(** The rows with a name, and what one of them says *)
Definition kept (rs : list row) : list row := List.filter (λ r, negb (is_empty (name r))) rs.
Definition view (r : row) : jval * bool * jval := (ratio r, selectable r, if selectable r then description r else JStr []).
Definition row_meaning (rs : list row) : gmap jsstr (jval * bool * jval) := list_to_map (map (λ r, (name r, view r)) (kept rs)).

Definition row_sound (r : row) : Prop :=
  forallb unit_ok (name r) = true ∧ inherits (name r) = false ∧ json_ok (ratio r) = true ∧ is_nullish (ratio r) = false ∧
  json_ok (description r) = true ∧ is_nullish (description r) = false.

Definition ratios_of (rs : list row) : list (jsstr * jval) := map (λ r, (name r, ratio r)) rs.
Definition usables_of (rs : list row) : list (jsstr * jval) := map (λ r, (name r, description r)) (List.filter selectable rs).

Lemma usables_names rs : map fst (usables_of rs) = map name (List.filter selectable rs).
Proof. unfold usables_of. by rewrite map_map. Qed.
Lemma ratios_names rs : map fst (ratios_of rs) = map name rs.
Proof. unfold ratios_of. by rewrite map_map. Qed.

Lemma put_kept rs acc : fold_left put_row rs acc = fold_left put_row (kept rs) acc.
Proof.
  revert acc. induction rs as [|r rs IH]; intros acc; [done|]. cbn [fold_left kept List.filter]. rewrite IH. fold (kept rs).
  destruct (is_empty (name r)) eqn:E; cbn [negb fold_left]; [|done].
  assert (put_row acc r = acc) as -> by (unfold put_row; by rewrite E). done.
Qed.

Lemma objects_exact rs : NoDup (map name (kept rs)) → Forall row_sound rs → objects_of rs = (ratios_of (kept rs), usables_of (kept rs)).
Proof.
  intros Hnd Hs. unfold objects_of. rewrite put_kept.
  assert (Hk : Forall (λ r, is_empty (name r) = false ∧ streq (name r) (js "__proto__") = false) (kept rs)).
  { apply Forall_forall. intros r [Hr H]%list_elem_of_In%filter_In. rewrite Forall_forall in Hs. destruct (Hs r) as (_ & Hi & _); [by apply list_elem_of_In|].
    split; [by destruct (is_empty (name r))|by apply inherits_proto]. }
  generalize dependent (kept rs). clear rs Hs. intros l. induction l as [|r l IH] using rev_ind; intros Hnd Hk; [done|].
  rewrite map_app in Hnd. apply NoDup_app in Hnd as (Hnd & Hd & _). apply Forall_app in Hk as [Hk [[He Hp] _]%Forall_cons].
  rewrite fold_left_app, IH by done. cbn [fold_left]. unfold put_row. rewrite He. unfold assign. rewrite Hp. cbn [fst snd].
  assert (Hni : name r ∉ map name l) by (intros H; apply (Hd _ H); by left).
  rewrite obj_set_fresh by by rewrite ratios_names. unfold ratios_of, usables_of. rewrite List.filter_app, !map_app. cbn [List.filter map]. f_equal.
  destruct (selectable r); cbn [map]; [|by rewrite app_nil_r]. apply obj_set_fresh. rewrite map_map. cbn [fst].
  intros (r' & Hr' & [H _]%list_elem_of_In%filter_In)%list_elem_of_fmap. apply Hni. rewrite Hr'. apply list_elem_of_fmap. exists r'. by rewrite list_elem_of_In.
Qed.

Section Reopen.
Context (rs : list row) (Hnd : NoDup (map name (kept rs))) (Hs : Forall row_sound rs).
Let l := kept rs.

Lemma kept_sound r : r ∈ l → row_sound r ∧ is_empty (name r) = false.
Proof.
  intros [Hr H]%list_elem_of_In%filter_In. rewrite Forall_forall in Hs. split; [by apply Hs, list_elem_of_In|by destruct (is_empty (name r))].
Qed.

Lemma selected_sound r : r ∈ List.filter selectable l → r ∈ l ∧ selectable r = true.
Proof. intros [Hr H]%list_elem_of_In%filter_In. by rewrite list_elem_of_In. Qed.

Lemma selected_NoDup : NoDup (map fst (usables_of l)).
Proof.
  rewrite usables_names. clear Hs. unfold l. induction (kept rs) as [|r k IH]; cbn [List.filter]; [constructor|]. cbn [map] in Hnd. apply NoDup_cons in Hnd as [Hni Hk].
  destruct (selectable r); [|by apply IH]. cbn [map]. apply NoDup_cons. split; [|by apply IH].
  intros (x & Hx & [H _]%list_elem_of_In%filter_In)%list_elem_of_fmap. apply Hni. rewrite Hx. apply list_elem_of_fmap. exists x. by rewrite list_elem_of_In.
Qed.

Lemma pairs_fit (f : row → jval) k : (∀ r, r ∈ k → forallb unit_ok (name r) = true ∧ json_ok (f r) = true) → NoDup (map name k) →
  json_fit (JObj (map (λ r, (name r, f r)) k)) = true ∧ Forall (λ e, ordered e.2 = e.2) (map (λ r, (name r, f r)) k).
Proof.
  intros Hf Hk. cbn [json_fit]. rewrite map_map. split.
  - rewrite !andb_true_iff, bool_decide_eq_true, !forallb_forall. split_and!; [|done|]; intros e (r & <- & Hr%list_elem_of_In)%in_map_iff; cbn [fst snd]; [by apply Hf|].
    apply ordered_ok. by apply Hf.
  - apply Forall_forall. intros e (r & -> & Hr)%list_elem_of_fmap. apply ordered_ok. by apply Hf.
Qed.

Lemma texts_read : (let t := serializeGroupTable rs in parseJSON t.1 (JObj []) = JObj (own_entries (ratios_of l)) ∧
  parseJSON t.2 (JObj []) = JObj (own_entries (usables_of l))).
Proof.
  unfold serializeGroupTable. rewrite objects_exact by done. cbn [fst snd]. fold l. split; apply object_reads; apply pairs_fit.
  all: try done; try (by rewrite <- usables_names; apply selected_NoDup).
  - intros r Hr. destruct (kept_sound r Hr) as [(H1 & _ & H2 & _) _]. done.
  - intros r Hr. destruct (kept_sound r Hr) as [(H1 & _ & H2 & _) _]. done.
  - intros r [Hr _]%selected_sound. destruct (kept_sound r Hr) as [(H1 & _ & _ & _ & H2 & _) _]. done.
  - intros r [Hr _]%selected_sound. destruct (kept_sound r Hr) as [(H1 & _ & _ & _ & H2 & _) _]. done.
Qed.

(** What is read for a name *)
Definition read_ratio (k : jsstr) : jval := js_nullish (obj_get (ratios_of l) k) (JNum (num_of_Z 1)).
Definition read_description (k : jsstr) : jval := js_nullish (obj_get (usables_of l) k) (JStr []).
Definition read_row (e : nat * jsstr) : row := Row e.1 e.2 (read_ratio e.2) (obj_has (usables_of l) e.2) (read_description e.2).

Lemma owns_own o k : owns (JObj (own_entries o)) k = obj_has o k.
Proof.
  apply eq_bool_prop_intro. rewrite !Is_true_true. unfold owns. rewrite existsb_streq, obj_has_In. unfold keys. cbn [entries]. rewrite own_entries_idemp.
  apply (own_keys_In o).
Qed.

Lemma row_reads e : inherits e.2 = false → row_of (JObj (own_entries (ratios_of l))) (JObj (own_entries (usables_of l))) e = Some (read_row e).
Proof.
  intros Hi. unfold row_of, in_throw, member_or. rewrite Hi, !owns_own, orb_false_r. cbn [andb mbind option_bind read].
  rewrite !own_entries_get by (try apply selected_NoDup; by rewrite ratios_names). done.
Qed.

Lemma read_view r : r ∈ l → read_ratio (name r) = ratio r ∧ obj_has (usables_of l) (name r) = selectable r ∧
  (selectable r = true → read_description (name r) = description r).
Proof.
  intros Hr. destruct (kept_sound r Hr) as [(_ & _ & _ & Hn & _ & Hd) _]. unfold read_ratio, read_description.
  rewrite (obj_get_In (ratios_of l) (name r) (ratio r)); [|by rewrite ratios_names|apply list_elem_of_fmap; by exists r].
  split; [by apply nullish_other|]. destruct (selectable r) eqn:E.
  - assert (Hin : (name r, description r) ∈ usables_of l) by (apply list_elem_of_fmap; exists r; split; [done|]; by apply list_elem_of_In, filter_In; rewrite <- list_elem_of_In).
    split; [|intros _; rewrite (obj_get_In _ _ _ selected_NoDup Hin); by apply nullish_other].
    apply obj_has_In, list_elem_of_fmap. by exists (name r, description r).
  - split; [|done]. apply not_true_iff_false. rewrite obj_has_In, usables_names. intros (x & Hx & [Hxl Hsx]%selected_sound)%list_elem_of_fmap.
    assert (r = x) as ->; [|congruence]. revert Hr Hxl Hx. clear -Hnd. fold l in Hnd. induction l as [|y k IH]; [by intros ?%elem_of_nil|].
    cbn [map] in Hnd. apply NoDup_cons in Hnd as [Hni Hk]. intros [->|Hr]%elem_of_cons [->|Hx]%elem_of_cons E; try done.
    + destruct Hni. rewrite E. by apply list_elem_of_fmap_2.
    + destruct Hni. rewrite <- E. by apply list_elem_of_fmap_2.
    + by apply IH.
Qed.

Lemma rows_reopen n : ∃ rs', buildRows (serializeGroupTable rs).1 (serializeGroupTable rs).2 n = Some rs' ∧ NoDup (map name rs') ∧ row_meaning rs' = row_meaning rs.
Proof.
  destruct texts_read as [H1 H2]. unfold buildRows. rewrite H1, H2. unfold keys_throw, entries_throw. cbn [is_nullish fmap option_fmap option_map mbind option_bind entries].
  rewrite !own_entries_idemp. fold (own_keys (ratios_of l)) (own_keys (usables_of l)).
  assert (Hp : own_keys (ratios_of l) ≡ₚ map name l) by (unfold own_keys; by rewrite own_entries_perm, ratios_names).
  assert (allNames (own_keys (ratios_of l)) (own_keys (usables_of l)) = own_keys (ratios_of l)) as ->.
  { unfold allNames. rewrite filter_none; [apply app_nil_r|]. intros k Hk. apply negb_false_iff, existsb_streq. rewrite Hp.
    rewrite own_keys_In, usables_names in Hk. apply list_elem_of_fmap in Hk as (r & -> & [Hr _]%selected_sound). by apply list_elem_of_fmap_2. }
  rewrite <- (map_id (imap _ _)). rewrite (map_opt_map _ _ read_row).
  2:{ intros e (i & k & -> & Hk)%list_elem_of_In%elem_of_lookup_imap_1. apply row_reads. cbn [snd].
      apply list_elem_of_lookup_2 in Hk. rewrite Hp in Hk. apply list_elem_of_fmap in Hk as (r & -> & Hr). by destruct (kept_sound r Hr) as [(_ & ? & _) _]. }
  eexists. split; [done|]. set (ks := own_keys (ratios_of l)) in *. rewrite !map_map. cbn [name read_row].
  assert (En : map (λ e : nat * jsstr, e.2) (imap (λ i k, (n + i, k)) ks) = ks) by (rewrite (map_imap _ _ (λ x, x)) by done; apply map_id).
  split; [by rewrite En, Hp|]. unfold row_meaning. fold l.
  assert (Hk : kept (map read_row (imap (λ i k, (n + i, k)) ks)) = map read_row (imap (λ i k, (n + i, k)) ks)).
  { apply filter_all. rewrite forallb_forall. intros x (e & <- & He)%in_map_iff. apply list_elem_of_In, elem_of_lookup_imap_1 in He as (i & k & -> & Hk). cbn [read_row name snd].
    apply list_elem_of_lookup_2 in Hk. rewrite Hp in Hk. apply list_elem_of_fmap in Hk as (r & -> & Hr). by destruct (kept_sound r Hr) as [_ ->]. }
  rewrite Hk, map_map. set (F := λ k, (read_ratio k, obj_has (usables_of l) k, if obj_has (usables_of l) k then read_description k else JStr [])).
  rewrite (map_imap _ _ (λ k, (k, F k))) by done.
  apply list_to_map_proper.
  - assert (fst <$> map (λ k, (k, F k)) ks = ks) as -> by (etrans; [apply map_map|apply map_id]). by rewrite Hp.
  - rewrite Hp, map_map. eapply eq_ind; [reflexivity|]. apply map_ext_in. intros r Hr%list_elem_of_In. destruct (read_view r Hr) as (E1 & E2 & E3).
    unfold F, view. rewrite E1, E2. f_equal. f_equal. destruct (selectable r); [by apply E3|done].
Qed.
End Reopen.

(** Rows differ by their ids only, wherever the counter stands. *)
Definition reindex (i : nat) (r : row) : row := Row i (name r) (ratio r) (selectable r) (description r).

Lemma rows_any m1 m2 ks n m rs : map_opt (row_of m1 m2) (imap (λ i k, (n + i, k)) ks) = Some rs →
  map_opt (row_of m1 m2) (imap (λ i k, (m + i, k)) ks) = Some (imap (λ i r, reindex (m + i) r) rs) ∧ map id rs = seq n (length rs).
Proof.
  revert n m rs. induction ks as [|k ks IH]; intros n m rs; [by intros [= <-]|]. rewrite !imap_cons. cbn [map_opt].
  unfold row_of at 1 3. cbn [fst snd]. destruct (in_throw k m2) as [sel|]; [|done]. cbn [mbind option_bind].
  rewrite (imap_ext _ (λ i k, (S n + i, k))) by (intros; cbn; f_equal; lia). rewrite (imap_ext ((λ i k, (m + i, k)) ∘ S) (λ i k, (S m + i, k))) by (intros; cbn; f_equal; lia).
  destruct (map_opt _ (imap (λ i k, (S n + i, k)) ks)) as [rs'|] eqn:E; [|done]. intros [= <-].
  destruct (IH _ (S m) _ E) as [-> Hi]. split.
  - rewrite imap_cons. do 2 f_equal. apply imap_ext. intros i r _. cbn. f_equal. lia.
  - cbn [map id length seq]. by rewrite Hi, Nat.add_0_r.
Qed.

Lemma reindexed_meaning m rs : row_meaning (imap (λ i r, reindex (m + i) r) rs) = row_meaning rs.
Proof.
  unfold row_meaning. f_equal. revert m. induction rs as [|r rs IH]; intros m; [done|]. rewrite imap_cons. cbn [kept List.filter]. fold (kept rs).
  rewrite (imap_ext _ (λ i r, reindex (S m + i) r)) by (intros; cbn; f_equal; lia). specialize (IH (S m)). unfold kept in IH.
  cbn [reindex name]. destruct (is_empty (name r)); cbn [negb map]; [done|]. by rewrite IH.
Qed.

Lemma build_cases t1 t2 n rs : buildRows t1 t2 n = Some rs → is_Some (keys_throw (parseJSON t1 (JObj []))) ∧
  ∃ m1 m2 ks, ∀ m, buildRows t1 t2 m = map_opt (row_of m1 m2) (imap (λ i k, (m + i, k)) ks).
Proof.
  unfold buildRows. destruct (keys_throw (parseJSON t1 _)) as [k1|], (keys_throw (parseJSON t2 _)) as [k2|]; cbn [mbind option_bind]; try discriminate.
  intros _. split; [by exists k1|]. by eexists _, _, _.
Qed.
Lemma rows_again t1 t2 n m rs : buildRows t1 t2 n = Some rs → ∃ rs', buildRows t1 t2 m = Some rs' ∧ map name rs' = map name rs ∧ row_meaning rs' = row_meaning rs.
Proof.
  intros H. destruct (build_cases _ _ _ _ H) as (_ & m1 & m2 & ks & Hb). rewrite Hb in *. destruct (rows_any _ _ _ _ m _ H) as [-> _].
  eexists. split; [done|]. split; [by apply map_imap|apply reindexed_meaning].
Qed.
Lemma built_ids t1 t2 n rs : buildRows t1 t2 n = Some rs → map id rs = seq n (length rs).
Proof. intros H. destruct (build_cases _ _ _ _ H) as (_ & m1 & m2 & ks & Hb). rewrite Hb in H. apply (rows_any _ _ _ _ 0 _ H). Qed.

End Table.

(** ** Rules about groups *)

Module Rules.
Import Nested.
Section Rules.
Context {R : Type} (id : R → nat) (user target key : R → jsstr) (val : R → jval) (make : nat → jsstr → jsstr → jval → R).

(** What a rule says, and what the rules say together: a value for a user group and
    a key, the last rule of several *)
Definition facts (r : R) : jsstr * jsstr * jsstr * jval := (user r, target r, key r, val r).
Definition counts (f : jsstr * jsstr * jsstr * jval) : bool :=
  let '(u, t, k, _) := f in negb (is_empty u || is_empty t || inherits u) && negb (streq k (js "__proto__")).
Definition say (m : gmap (jsstr * jsstr) jval) (f : jsstr * jsstr * jsstr * jval) : gmap (jsstr * jsstr) jval :=
  let '(u, _, k, v) := f in if counts f then <[(u, k) := v]> m else m.
Definition meaning (rules : list R) : gmap (jsstr * jsstr) jval := fold_left say (map facts rules) ∅.

Definition rule_fit (r : R) : Prop := forallb unit_ok (user r) = true ∧ forallb unit_ok (key r) = true ∧ json_ok (val r) = true.

(** *** The stored object *)

Definition inner_ok (v : jval) : Prop := ∃ i, v = JObj i ∧ json_fit (JObj i) = true ∧ Forall (λ e, ordered e.2 = e.2) i.
Definition shape (o : list (jsstr * jval)) : Prop :=
  NoDup (map fst o) ∧ Forall (λ e, (forallb unit_ok e.1 = true ∧ inherits e.1 = false) ∧ inner_ok e.2) o.

Lemma inner_at o u : shape o → inner_ok (JObj (inner_object (obj_get o u))).
Proof.
  intros [_ Ho]. destruct (obj_has o u) eqn:E.
  - rewrite Forall_forall in Ho. destruct (Ho _ (obj_get_elem _ _ E)) as [_ (i & Hi & Hf & Hs)]. cbn [snd] in Hi. rewrite Hi. by exists i.
  - rewrite obj_get_absent; [by exists []|]. intros H%obj_has_In. congruence.
Qed.

Lemma assign_inner i k v : inner_ok (JObj i) → forallb unit_ok k = true → json_ok v = true → inner_ok (JObj (assign i k v)).
Proof.
  intros (i' & [= <-] & Hf & Ho) Hk Hv. unfold assign. destruct (streq k _); [by exists i|]. destruct (ordered_ok v Hv) as [Hov Hfv].
  exists (obj_set i k v). split; [done|]. cbn [json_fit] in *. bool_hyps. split; [|by apply Forall_obj_set].
  rewrite !andb_true_iff, bool_decide_eq_true. split_and!; [by apply forallb_obj_set|by apply obj_set_keys|by apply forallb_obj_set].
Qed.

Lemma nest_shape rules : Forall rule_fit rules → shape (nestRules user target key val rules).
Proof.
  intros Hr. unfold nestRules. apply fold_left_inv; [by repeat constructor|]. intros o r Hin Ho. unfold nest_rule.
  destruct (is_empty (user r) || is_empty (target r) || inherits (user r)) eqn:E; [done|]. bool_hyps.
  rewrite Forall_forall in Hr. destruct (Hr r) as (Hu & Hk & Hv); [done|]. pose proof (inner_at o (user r) Ho) as Hi. destruct Ho as [Ho1 Ho2].
  split; [by apply obj_set_keys|]. apply Forall_obj_set; [done|]. split; [done|]. by apply assign_inner.
Qed.

Definition get2 (o : list (jsstr * jval)) (u k : jsstr) : option jval :=
  let i := inner_object (obj_get o u) in if obj_has i k then Some (obj_get i k) else None.

Lemma nest_get2 rules u k : get2 (nestRules user target key val rules) u k = meaning rules !! (u, k).
Proof.
  unfold nestRules, meaning. induction rules as [|r rules IH] using rev_ind; [done|]. rewrite map_app, !fold_left_app. cbn [map fold_left].
  set (o := fold_left _ rules []) in *. set (m := fold_left say _ ∅) in *. unfold nest_rule, say, facts, counts.
  destruct (is_empty (user r) || is_empty (target r) || inherits (user r)); cbn [negb andb]; [done|]. unfold get2. rewrite obj_get_set.
  unfold assign. destruct (streq (user r) u) eqn:Eu.
  - apply streq_true in Eu as <-. cbn [inner_object]. destruct (streq (key r) (js "__proto__")); cbn [negb]; [done|].
    rewrite obj_has_set, obj_get_set. destruct (streq (key r) k) eqn:Ek.
    + apply streq_true in Ek as <-. by rewrite lookup_insert_eq.
    + rewrite lookup_insert_ne; [done|]. intros [= H]. by rewrite H, streq_refl in Ek.
  - destruct (streq (key r) (js "__proto__")); cbn [negb]; [done|]. rewrite lookup_insert_ne; [done|]. intros [= H _]. by rewrite H, streq_refl in Eu.
Qed.

(** *** Reading it back *)

Definition triples (es : list (jsstr * jval)) : list (jsstr * (jsstr * jval)) := concat (map inner_entries es).
Definition place (x : jsstr * (jsstr * jval)) : jsstr * jsstr := (x.1, x.2.1).

Lemma triples_NoDup es : NoDup (map fst es) → Forall (λ e, NoDup (map fst (entries e.2))) es → NoDup (map place (triples es)).
Proof.
  induction es as [|[u v] es IH]; intros Hnd Hi; [constructor|]. unfold triples. cbn [map concat]. fold (triples es). rewrite map_app.
  cbn [map fst] in Hnd. apply NoDup_cons in Hnd as [Hni Hnd]. apply Forall_cons in Hi as [Hv Hi]. apply NoDup_app. split_and!; [| |by apply IH].
  - unfold inner_entries. cbn [fst snd] in *. destruct (typeof_object_not_null v); [|constructor]. rewrite map_map. cbn [place fst snd].
    change (NoDup (map (λ x : jsstr * jval, (u, x.1)) (entries v))). rewrite <- (map_map fst (λ k, (u, k))). by apply NoDup_fmap_2; [intros ?? [=]|].
  - intros p (x & -> & Hx)%list_elem_of_fmap (y & Hy & Hyin)%list_elem_of_fmap. apply Hni.
    assert (x.1 = u) as <-. { unfold inner_entries in Hx. case_match; [|by apply elem_of_nil in Hx]. by apply list_elem_of_fmap in Hx as (? & -> & _). }
    injection Hy as Hu _. rewrite Hu. apply list_elem_of_In, in_concat in Hyin as (l & (e & <- & He)%in_map_iff & Hyl).
    unfold inner_entries in Hyl. case_match; [|done]. apply in_map_iff in Hyl as (z & <- & _). cbn [fst]. by apply list_elem_of_In, (in_map fst).
Qed.

(** An object of the right shape in the order in which its text lists it *)
Definition listed (o : list (jsstr * jval)) : list (jsstr * jval) := own_entries (map (λ e, (e.1, ordered e.2)) o).

Lemma listed_elem o e : shape o → e ∈ listed o ↔ ∃ i, (e.1, JObj i) ∈ o ∧ e.2 = JObj (own_entries i) ∧ NoDup (map fst i).
Proof.
  intros [_ Ho]. unfold listed. rewrite own_entries_perm. rewrite Forall_forall in Ho.
  assert (Hc : ∀ u v, (u, v) ∈ o → ∃ i, v = JObj i ∧ ordered v = JObj (own_entries i) ∧ NoDup (map fst i)).
  { intros u v Hin. destruct (Ho _ Hin) as [_ (i & Hv & Hf & Hi)]. cbn [snd] in Hv. subst v. exists i. split; [done|]. cbn [ordered]. split.
    - do 2 f_equal. apply map_id_in. rewrite Forall_forall in Hi. intros [k x] Hx%list_elem_of_In. cbn [fst snd]. f_equal. apply (Hi _ Hx).
    - cbn [json_fit] in Hf. by bool_hyps. }
  split.
  - intros ([u v] & -> & Hin)%list_elem_of_fmap. cbn [fst snd]. destruct (Hc _ _ Hin) as (i & -> & H1 & H2). by exists i.
  - destruct e as [u v]. cbn [fst snd]. intros (i & Hin & -> & _). destruct (Hc _ _ Hin) as (i' & [= <-] & H1 & _).
    apply list_elem_of_fmap. exists (u, JObj i). split; [|done]. cbn [fst snd]. by rewrite H1.
Qed.

Lemma listed_keys o : shape o → NoDup (map fst (listed o)).
Proof. intros [Hnd _]. apply entries_NoDup. by rewrite ordered_keys. Qed.

Lemma triples_elem o u k v : shape o → (u, (k, v)) ∈ triples (listed o) ↔ get2 o u k = Some v.
Proof.
  intros Hs. unfold triples. rewrite list_elem_of_In, in_concat. split.
  - intros (l & (e & <- & He%list_elem_of_In)%in_map_iff & Hin). apply (listed_elem o) in He as (i & Hio & Hei & Hi); [|done].
    unfold inner_entries in Hin. rewrite Hei in Hin. cbn [typeof_object_not_null entries] in Hin. rewrite own_entries_idemp in Hin.
    apply in_map_iff in Hin as (x & [= <- Hx] & Hxin). subst x. apply list_elem_of_In in Hxin. rewrite own_entries_perm in Hxin.
    unfold get2. rewrite (obj_get_In _ _ _ (proj1 Hs) Hio). cbn [inner_object]. rewrite (obj_get_In _ _ _ Hi Hxin).
    assert (obj_has i k = true) as ->; [|done]. apply obj_has_In, list_elem_of_fmap. by exists (k, v).
  - unfold get2. intros H. destruct (obj_has _ k) eqn:Ek; [|done]. injection H as <-. set (i := inner_object (obj_get o u)) in *.
    assert (Hu : obj_has o u = true).
    { apply not_false_iff_true. intros Hu. unfold i in Ek. by rewrite (obj_absent _ _ Hu) in Ek. }
    pose proof (obj_get_elem _ _ Hu) as Hin. assert (Hi : obj_get o u = JObj i).
    { destruct Hs as [_ Ho]. rewrite Forall_forall in Ho. destruct (Ho _ Hin) as [_ (i' & Hi & _)]. cbn [snd] in Hi. unfold i. by rewrite Hi. }
    rewrite Hi in Hin. assert (Hnd : NoDup (map fst i)).
    { destruct Hs as [_ Ho]. rewrite Forall_forall in Ho. destruct (Ho _ Hin) as [_ (i' & [= <-] & Hf & _)]. cbn [json_fit] in Hf. by bool_hyps. }
    exists (inner_entries (u, JObj (own_entries i))). split.
    + apply in_map, list_elem_of_In, listed_elem; [done|]. by exists i.
    + unfold inner_entries. cbn [fst snd typeof_object_not_null entries]. rewrite own_entries_idemp. apply in_map, list_elem_of_In. rewrite own_entries_perm. by apply obj_get_elem.
Qed.

(** *** The meaning of a list of facts *)

Definition fact_place (f : jsstr * jsstr * jsstr * jval) : jsstr * jsstr := let '(u, _, k, _) := f in (u, k).

Lemma said_from F u k v : fold_left say F ∅ !! (u, k) = Some v → ∃ t, (u, t, k, v) ∈ F ∧ counts (u, t, k, v) = true.
Proof.
  induction F as [|[[[u' t'] k'] v'] F IH] using rev_ind; [done|]. rewrite fold_left_app. cbn [fold_left say].
  assert (Hw : (∃ t, (u, t, k, v) ∈ F ∧ counts (u, t, k, v) = true) → ∃ t, (u, t, k, v) ∈ F ++ [(u', t', k', v')] ∧ counts (u, t, k, v) = true).
  { intros (t & H1 & H2). exists t. split; [|done]. apply elem_of_app. by left. }
  destruct (counts (u', t', k', v')) eqn:Ec; [|by intros H; apply Hw, IH]. destruct (decide ((u', k') = (u, k))) as [[= -> ->]|Hne].
  - rewrite lookup_insert_eq. intros [= ->]. exists t'. split; [|done]. apply elem_of_app. right. by left.
  - rewrite lookup_insert_ne by done. intros H. by apply Hw, IH.
Qed.

Lemma said_all F u t k v : NoDup (map fact_place F) → Forall (λ f, counts f = true) F → (u, t, k, v) ∈ F → fold_left say F ∅ !! (u, k) = Some v.
Proof.
  induction F as [|[[[u' t'] k'] v'] F IH] using rev_ind; [by intros _ _ ?%elem_of_nil|]. rewrite map_app, fold_left_app.
  intros (Hnd & Hd & _)%NoDup_app [HF [Hc _]%Forall_cons]%Forall_app. cbn [fold_left say]. rewrite Hc. intros [Hin|Hin]%elem_of_app.
  - rewrite lookup_insert_ne; [by apply IH|]. intros Heq. apply (Hd (u, k)); [apply list_elem_of_fmap; by exists (u, t, k, v)|]. rewrite <- Heq. by left.
  - apply list_elem_of_singleton in Hin as [= -> -> -> ->]. by rewrite lookup_insert_eq.
Qed.

(** *** Round trip *)

Context (make_facts : ∀ i j u k v, facts (make i u k v) = facts (make j u k v)).
Definition remakes (r : R) : Prop := ∀ i, facts (make i (user r) (key r) (val r)) = facts r.
Definition make_triple (x : jsstr * (jsstr * jval)) : jsstr * jsstr * jsstr * jval := facts (make 0 x.1 x.2.1 x.2.2).

Lemma text_entries rules : Forall rule_fit rules →
  entries_throw (parseJSON (serialize user target key val rules) (JObj [])) = Some (listed (nestRules user target key val rules)).
Proof.
  intros Hr. pose proof (nest_shape rules Hr) as [Hnd Ho]. unfold serialize. set (o := nestRules user target key val rules) in *.
  destruct o as [|e o'] eqn:E; [done|]. rewrite <- E in *. clear E e o'.
  assert (Hf : json_fit (JObj o) = true).
  { cbn [json_fit]. rewrite !andb_true_iff, bool_decide_eq_true, !forallb_forall. rewrite Forall_forall in Ho.
    split_and!; [|done|]; intros e He%list_elem_of_In; destruct (Ho e He) as [[Hu _] (i & Hi & Hfi & _)]; [done|by rewrite Hi]. }
  destruct (parse_stringify_ordered (js "  ") (JObj o) ltac:(by vm_compute) Hf) as (t & Ht & Hp). unfold stringify2. rewrite Ht. change (default [] (Some t)) with t.
  unfold parseJSON. destruct (object_text_edges _ _ _ Ht) as [Hne Htr]. unfold blank. rewrite trim_trimmed by done.
  destruct t as [|c t']; [done|]. cbn [is_empty]. rewrite Hp.
  change (Some (own_entries (listed o)) = Some (listed o)). unfold listed. by rewrite own_entries_idemp.
Qed.

Lemma rules_reopen rules n : Forall rule_fit rules → (∀ r, r ∈ rules → counts (facts r) = true → remakes r) →
  ∃ rules', flattenRules make (parseJSON (serialize user target key val rules) (JObj [])) n = Some rules' ∧
    NoDup (map fact_place (map facts rules')) ∧ Forall (λ r, counts (facts r) = true) rules' ∧ meaning rules' = meaning rules.
Proof.
  intros Hr Hre. pose proof (nest_shape rules Hr) as Hsh. unfold flattenRules. rewrite text_entries by done. cbn [mbind option_bind]. eexists. split; [done|].
  set (o := nestRules user target key val rules) in *. fold (triples (listed o)). set (T := triples (listed o)).
  set (rules' := imap _ T). assert (EF : map facts rules' = map make_triple T) by (apply map_imap; intros; apply make_facts).
  assert (HT : ∀ u k v, (u, (k, v)) ∈ T ↔ meaning rules !! (u, k) = Some v) by (intros; by rewrite <- nest_get2; apply triples_elem).
  assert (Hm : ∀ u k v, (u, (k, v)) ∈ T → ∃ t, make_triple (u, (k, v)) = (u, t, k, v) ∧ counts (u, t, k, v) = true).
  { intros u k v Hin%HT%said_from. destruct Hin as (t & Hin & Hc). apply list_elem_of_fmap in Hin as (r & Hf & Hin). exists t. split; [|done].
    rewrite Hf in Hc. specialize (Hre r Hin Hc 0). injection Hf as -> -> -> ->. exact Hre. }
  assert (Hnd : NoDup (map fact_place (map facts rules'))).
  { rewrite EF, map_map. rewrite (map_ext_in _ place).
    - apply triples_NoDup; [by apply listed_keys|]. apply Forall_forall. intros e (i & _ & -> & Hi)%listed_elem; [|done].
      cbn [entries]. rewrite own_entries_idemp. by apply entries_NoDup.
    - intros [u [k v]] Hin%list_elem_of_In. by destruct (Hm _ _ _ Hin) as (t & -> & _). }
  assert (Hc : Forall (λ f, counts f = true) (map facts rules')).
  { rewrite EF. apply Forall_forall. intros f ([u [k v]] & -> & Hin)%list_elem_of_fmap. by destruct (Hm _ _ _ Hin) as (t & -> & ?). }
  split; [done|]. split; [by apply Forall_map in Hc|]. apply map_eq. intros [u k]. apply option_eq. intros v. rewrite <- HT. unfold meaning. split.
  - intros (t & Hin & _)%said_from. rewrite EF in Hin. apply list_elem_of_fmap in Hin as ([u' [k' v']] & Hf & Hin).
    destruct (Hm _ _ _ Hin) as (t' & Hf' & _). rewrite Hf' in Hf. by injection Hf as -> _ -> ->.
  - intros Hin. destruct (Hm _ _ _ Hin) as (t & Hf & _). apply (said_all _ _ t); [done|done|]. rewrite EF. rewrite <- Hf. by apply list_elem_of_fmap_2.
Qed.

Lemma rules_again v n m rules : flattenRules make v n = Some rules → ∃ rules', flattenRules make v m = Some rules' ∧ map facts rules' = map facts rules.
Proof.
  unfold flattenRules. destruct (entries_throw v) as [es|]; cbn [mbind option_bind]; [|done]. intros [= <-]. eexists. split; [done|].
  by rewrite !(map_imap facts _ make_triple) by (intros; apply make_facts).
Qed.

Lemma rules_ids (make_id : ∀ i u k v, id (make i u k v) = i) v n rules : flattenRules make v n = Some rules → map id rules = seq n (length rules).
Proof.
  unfold flattenRules. destruct (entries_throw v) as [es|]; cbn [mbind option_bind]; [|done]. intros [= <-]. revert n. induction (concat _) as [|x l IH]; intros n; [done|].
  rewrite imap_cons. cbn [map length seq]. rewrite make_id, Nat.add_0_r. f_equal.
  rewrite (imap_ext _ (λ i e, make (S n + i) e.1 e.2.1 e.2.2)) by (intros; cbn; f_equal; lia). apply IH.
Qed.

(** *** Sections *)

Definition groupable (u : jsstr) : Prop := is_empty u = true ∨ inherits u = false.
Lemma grouped_iff rules : is_Some (grouped user rules) ↔ Forall groupable (map user rules).
Proof.
  unfold grouped. induction rules as [|r rules IH] using rev_ind; [by split|]. rewrite map_app, fold_left_app, Forall_app. cbn [fold_left map].
  rewrite <- IH, Forall_singleton. unfold groupable. destruct (fold_left _ rules _) as [gs|]; cbn [group_rule].
  - destruct (is_empty (user r)); [by split; [split; [eexists|left]|eexists]|]. destruct (inherits (user r)); [|by split; [split; [eexists|right]|eexists]]. split; [by intros [? ?]|]. by intros [_ [?|?]].
  - split; [by intros [? ?]|]. by intros [[? ?] _].
Qed.

End Rules.
End Rules.

(** ** The two kinds of rules *)

Module RatioRules.
Import GroupRatios.
Definition facts : rule → jsstr * jsstr * jsstr * jval := Rules.facts userGroup usingGroup usingGroup ratio.
Definition meaning : list rule → gmap (jsstr * jsstr) jval := Rules.meaning userGroup usingGroup usingGroup ratio.
Definition ratio_sound (r : rule) : Prop :=
  forallb unit_ok (userGroup r) = true ∧ forallb unit_ok (usingGroup r) = true ∧ ∃ x, ratio r = JNum x ∧ num_ok x = true.

Lemma ratios_reopen rules n : Forall ratio_sound rules → ∃ rules', read_rules (serializeGroupGroupRatio rules) n = Some rules' ∧
  Forall (λ r, Rules.counts (facts r) = true) rules' ∧ meaning rules' = meaning rules.
Proof.
  intros Hs. destruct (Rules.rules_reopen userGroup usingGroup usingGroup ratio make (λ _ _ _ _ _, eq_refl) rules n) as (rules' & H1 & _ & H2 & H3).
  - eapply Forall_impl; [exact Hs|]. intros r (H1 & H2 & x & H3 & H4). split_and!; [done|done|by rewrite H3].
  - intros r Hr _ i. rewrite Forall_forall in Hs. destruct (Hs r Hr) as (_ & _ & x & Hx & _). unfold Rules.facts, make. cbn [userGroup usingGroup ratio]. by rewrite Hx.
  - by exists rules'.
Qed.
End RatioRules.

Module UsableRules.
Import UsableGroups.
Definition text (r : rule) : jval := JStr (description r).
Definition facts : rule → jsstr * jsstr * jsstr * jval := Rules.facts userGroup targetGroup raw_key text.
Definition meaning : list rule → gmap (jsstr * jsstr) jval := Rules.meaning userGroup targetGroup raw_key text.
(** The name of an appended group does not begin like an operation. *)
Definition plain (r : rule) : Prop := r_op r = Append → starts_with (js "+:") (targetGroup r) = false ∧ starts_with (js "-:") (targetGroup r) = false.
Definition removal_named (r : rule) : Prop := r_op r = Remove → description r = REMOVED.
Definition usable_sound (r : rule) : Prop :=
  forallb unit_ok (userGroup r) = true ∧ forallb unit_ok (targetGroup r) = true ∧ forallb unit_ok (description r) = true ∧ plain r.

Lemma prefix_raw o t : (o = Append → starts_with (js "+:") t = false ∧ starts_with (js "-:") t = false) → parsePrefix (toRawKey o t) = (o, t).
Proof.
  intros H. unfold parsePrefix. destruct o; cbn [toRawKey].
  - done.
  - done.
  - destruct H as [-> ->]; done.
Qed.
Lemma usable_facts i j u k v : facts (make i u k v) = facts (make j u k v).
Proof. unfold facts, Rules.facts, make, raw_key, text. by destruct (parsePrefix k). Qed.

Lemma usables_reopen rules n : Forall usable_sound rules → Forall removal_named rules → ∃ rules', read_rules (serializeGroupSpecialUsable rules) n = Some rules' ∧
  Forall (λ r, Rules.counts (facts r) = true) rules' ∧ meaning rules' = meaning rules.
Proof.
  intros Hs Hn. destruct (Rules.rules_reopen userGroup targetGroup raw_key text make) with (rules := rules) (n := n) as (rules' & H1 & _ & H2 & H3).
  - exact usable_facts.
  - eapply Forall_impl; [exact Hs|]. intros r (H1 & H2 & H3 & _). split_and!; [done| |done]. unfold raw_key, toRawKey. by destruct (r_op r).
  - intros r Hr _ i. rewrite Forall_forall in Hs, Hn. destruct (Hs r Hr) as (_ & _ & _ & Hp). specialize (Hn r Hr). unfold Rules.facts, make.
    unfold raw_key at 1 2 3 4 5. rewrite prefix_raw by done. cbn [userGroup targetGroup raw_key r_op text description]. unfold text. cbn [description].
    case_bool_decide as Ho; [by rewrite (Hn Ho)|done].
  - by exists rules'.
Qed.
End UsableRules.

(** ** Ids *)

Definition ids_ok (ids : list nat) (n : nat) : Prop := NoDup ids ∧ Forall (λ i, i < n) ids.

Lemma ids_more ids n m : ids_ok ids n → n ≤ m → ids_ok ids m.
Proof. intros [H1 H2] Hm. split; [done|]. eapply Forall_impl; [exact H2|]. cbn. intros. lia. Qed.
Lemma ids_seq n k : ids_ok (seq n k) (n + k).
Proof. split; [apply NoDup_seq|]. apply Forall_seq. lia. Qed.
Lemma ids_none n : ids_ok [] n.
Proof. by split; constructor. Qed.
Lemma ids_snoc {A} (f : A → nat) l x n : ids_ok (map f l) n → f x = n → ids_ok (map f (l ++ [x])) (S n).
Proof.
  intros [H1 H2] Hx. rewrite map_app. cbn [map]. rewrite Hx. split.
  - apply NoDup_app. split_and!; [done| |apply NoDup_singleton]. intros i Hi ->%list_elem_of_singleton. rewrite Forall_forall in H2. specialize (H2 _ Hi). lia.
  - apply Forall_app. split; [|by repeat constructor]. eapply Forall_impl; [exact H2|]. cbn. intros. lia.
Qed.
Lemma ids_filter {A} (f : A → nat) p l n : ids_ok (map f l) n → ids_ok (map f (List.filter p l)) n.
Proof.
  intros [H1 H2]. assert (Hsub : map f (List.filter p l) `sublist_of` map f l).
  { clear. induction l as [|x l IH]; [constructor|]. cbn [List.filter map]. destruct (p x); cbn [map]; by constructor. }
  split; [by eapply sublist_NoDup|]. rewrite Forall_forall in *. intros i (x & -> & [Hx _]%list_elem_of_In%filter_In)%list_elem_of_fmap.
  apply H2, list_elem_of_fmap_2. by apply list_elem_of_In.
Qed.
Lemma ids_map {A} (f : A → nat) g l n : (∀ x, f (g x) = f x) → ids_ok (map f l) n → ids_ok (map f (map g l)) n.
Proof. intros H. rewrite map_map. by rewrite (map_ext (λ x, f (g x)) f). Qed.
Lemma ids_change {A} (f : A → nat) (g : A → A) i l n : (∀ x, f (g x) = f x) → ids_ok (map f l) n → ids_ok (map f (map (λ x, if f x =? i then g x else x) l)) n.
Proof. intros H. apply ids_map. intros x. by destruct (f x =? i). Qed.
Lemma ids_perm {A} (f : A → nat) l l' n : l' ≡ₚ l → ids_ok (map f l) n → ids_ok (map f l') n.
Proof. intros Hp [H1 H2]. split; by rewrite Hp. Qed.

(** Removing a group removes its last rule. *)
Lemma remove_group_last {R} (id : R → nat) items rules : Nested.remove_group id items rules =
  match last items with Some r => Nested.removeRule id (id r) rules | None => rules end.
Proof. unfold Nested.remove_group. destruct items as [|r items _] using rev_ind; [done|]. rewrite fold_left_app, last_snoc. done. Qed.
Lemma ids_group {R} (id : R → nat) items rules n : ids_ok (map id rules) n → ids_ok (map id (Nested.remove_group id items rules)) n.
Proof. intros H. rewrite remove_group_last. destruct (last items); [by apply ids_filter|done]. Qed.

(** ** The page *)

Lemma text_set i k v k' : text_at (obj_set i k v) k' = if streq k k' then match v with JStr s => s | _ => [] end else text_at i k'.
Proof. unfold text_at. rewrite obj_get_set. by destruct (streq k k'). Qed.

(** Text and editor: as they were read, or as the editor wrote them *)
Definition rows_sync (i : inputs) (l : list GroupTable.row) : Prop :=
  (∃ n, GroupTable.buildRows (text_at i GROUP_RATIO) (text_at i USER_USABLE_GROUPS) n = Some l) ∨
  (text_at i GROUP_RATIO, text_at i USER_USABLE_GROUPS) = GroupTable.serializeGroupTable l.
Definition autos_sync (i : inputs) (l : list AutoGroups.item) : Prop :=
  (∃ n, AutoGroups.parseAutoGroups (text_at i AUTO_GROUPS) n = l) ∨ text_at i AUTO_GROUPS = AutoGroups.serializeAutoGroups l.
Definition ratios_sync (i : inputs) (l : list GroupRatios.rule) : Prop :=
  (∃ n, GroupRatios.read_rules (text_at i GROUP_GROUP_RATIO) n = Some l) ∨ text_at i GROUP_GROUP_RATIO = GroupRatios.serializeGroupGroupRatio l.
Definition usables_sync (i : inputs) (l : list UsableGroups.rule) : Prop :=
  (∃ n, UsableGroups.read_rules (text_at i SPECIAL_USABLE) n = Some l) ∨ text_at i SPECIAL_USABLE = UsableGroups.serializeGroupSpecialUsable l.

Record editors_ok (i : inputs) (e : editors) (n : nat) : Prop := {
  e_rows : rows_sync i (rows e);
  e_autos : autos_sync i (autos e);
  e_ratios : ratios_sync i (ratios e);
  e_usables : usables_sync i (usables e);
  e_row_ids : ids_ok (map GroupTable.id (rows e)) n;
  e_auto_ids : ids_ok (map AutoGroups.id (autos e)) n;
  e_ratio_ids : ids_ok (map GroupRatios.id (ratios e)) n;
  e_usable_ids : ids_ok (map UsableGroups.id (usables e)) n;
  e_removals : Forall UsableRules.removal_named (usables e)
}.

Definition page_ok (p : group_page) : Prop :=
  (∀ k, obj_has (inputsRow p) k = true → obj_has (inputs_now p) k = true) ∧ renders p = true ∧
  ∀ e, shown p = Some e → editors_ok (inputs_now p) e (next p).
Definition state_ok (s : group_state) : Prop := match s with Live p => page_ok p | Crashed => True end.

(** *** Mounting *)

Lemma made_removals value n rules : UsableGroups.read_rules value n = Some rules → Forall UsableRules.removal_named rules.
Proof.
  unfold UsableGroups.read_rules, Nested.flattenRules. destruct (entries_throw _) as [es|]; cbn [mbind option_bind]; [|done]. intros [= <-].
  apply Forall_forall. intros r (i & x & -> & _)%elem_of_lookup_imap_1. unfold UsableRules.removal_named, UsableGroups.make.
  destruct (UsableGroups.parsePrefix _) as [o g]. cbn [UsableGroups.r_op UsableGroups.description]. intros ->. by rewrite bool_decide_eq_true_2.
Qed.

Lemma auto_ids str n : map AutoGroups.id (AutoGroups.parseAutoGroups str n) = seq n (length (AutoGroups.parseAutoGroups str n)).
Proof.
  unfold AutoGroups.parseAutoGroups. repeat case_match; try done. clear. revert n. induction (omap _ l) as [|x k IH]; intros n; [done|].
  rewrite imap_cons. cbn [map length seq AutoGroups.id]. rewrite Nat.add_0_r. f_equal.
  rewrite (imap_ext _ (λ i s, AutoGroups.Item (S n + i) s)) by (intros; cbn; f_equal; lia). apply IH.
Qed.

Lemma usable_make_id i u k v : UsableGroups.id (UsableGroups.make i u k v) = i.
Proof. unfold UsableGroups.make. by destruct (UsableGroups.parsePrefix k). Qed.

Lemma mounted_ok i n e n' : mount_editors i n = Some (e, n') → editors_ok i e n'.
Proof.
  unfold mount_editors. destruct (GroupTable.buildRows _ _ n) as [rs|] eqn:E1; cbn [mbind option_bind]; [|done].
  set (al := AutoGroups.parseAutoGroups _ _). destruct (GroupRatios.read_rules _ _) as [gs|] eqn:E2; cbn [mbind option_bind]; [|done].
  destruct (UsableGroups.read_rules _ _) as [us|] eqn:E3; cbn [mbind option_bind]; [|done]. intros [= <- <-]. unfold bound in *.
  split; cbn [rows autos ratios usables].
  - left. by exists n.
  - left. by eexists.
  - left. by eexists.
  - left. by eexists.
  - rewrite (Table.built_ids _ _ _ _ E1). eapply ids_more; [apply ids_seq|]. lia.
  - unfold al at 1. rewrite auto_ids. eapply ids_more; [apply ids_seq|]. fold al. lia.
  - rewrite (Rules.rules_ids GroupRatios.id GroupRatios.make (λ _ _ _ _, eq_refl) _ _ _ E2). eapply ids_more; [apply ids_seq|]. lia.
  - rewrite (Rules.rules_ids UsableGroups.id UsableGroups.make usable_make_id _ _ _ E3). apply ids_seq.
  - by eapply made_removals.
Qed.

Lemma render_ok p : (∀ k, obj_has (inputsRow p) k = true → obj_has (inputs_now p) k = true) →
  (∀ e, shown p = Some e → editors_ok (inputs_now p) e (next p)) → state_ok (render p).
Proof. intros H1 H2. unfold render. destruct (renders p) eqn:E; [|done]. by split. Qed.

Lemma shown_ok i row n : (∀ k, obj_has row k = true → obj_has i k = true) → state_ok (show_editors i row n).
Proof.
  intros H. unfold show_editors. destruct (mount_editors i n) as [[e n']|] eqn:E; [|done]. apply render_ok; [done|].
  intros e' [= <-]. by eapply mounted_ok.
Qed.

Lemma options_ok o p : state_ok (take_options o p).
Proof. unfold take_options. destruct (shown p); [by apply shown_ok|]. by apply render_ok. Qed.

(** *** Changes *)

Ltac texts := rewrite ?text_set; repeat match goal with |- context [streq ?a ?b] =>
  let r := eval vm_compute in (streq a b) in change (streq a b) with r end; cbv match.

Ltac sync := split; unfold rows_sync, autos_sync, ratios_sync, usables_sync in *; cbn [rows autos ratios usables]; texts; try done;
  try (by eapply ids_more).

Lemma kept_keys i k v : ∀ k', obj_has i k' = true → obj_has (obj_set i k v) k' = true.
Proof. intros k' H. rewrite obj_has_set, H. apply orb_true_r. Qed.

Section Change.
Context (p : group_page) (e : editors) (Hk : ∀ k, obj_has (inputsRow p) k = true → obj_has (inputs_now p) k = true)
  (He : editors_ok (inputs_now p) e (next p)).

Lemma rows_change l n : ids_ok (map GroupTable.id l) n → next p ≤ n → state_ok (render (handleGroupTableChange l e n p)).
Proof.
  intros Hl Hn. unfold handleGroupTableChange. destruct (GroupTable.serializeGroupTable l) as [t1 t2] eqn:Et. destruct He. apply render_ok.
  - intros k H. by apply kept_keys, kept_keys, Hk.
  - intros e' [= <-]. unfold set_text, set_option, set_editors. cbn [inputs_now next].
    sync.
    right. by rewrite Et.
Qed.
Lemma autos_change l n : ids_ok (map AutoGroups.id l) n → next p ≤ n → state_ok (render (handleAutoGroupsChange l e n p)).
Proof.
  intros Hl Hn. destruct He. apply render_ok.
  - intros k H. by apply kept_keys, Hk.
  - intros e' [= <-]. unfold handleAutoGroupsChange, set_text, set_option, set_editors. cbn [inputs_now next].
    sync. by right.
Qed.
Lemma ratios_change l new n : ids_ok (map GroupRatios.id l) n → next p ≤ n → state_ok (render (handleGroupGroupRatioChange l new e n p)).
Proof.
  intros Hl Hn. destruct He. apply render_ok.
  - intros k H. by apply kept_keys, Hk.
  - intros e' [= <-]. unfold handleGroupGroupRatioChange, set_text, set_option, set_editors. cbn [inputs_now next].
    sync. by right.
Qed.
Lemma usables_change l new n : ids_ok (map UsableGroups.id l) n → Forall UsableRules.removal_named l → next p ≤ n →
  state_ok (render (handleSpecialUsableChange l new e n p)).
Proof.
  intros Hl Hr Hn. destruct He. apply render_ok.
  - intros k H. by apply kept_keys, Hk.
  - intros e' [= <-]. unfold handleSpecialUsableChange, set_text, set_option, set_editors. cbn [inputs_now next].
    sync. by right.
Qed.
End Change.

Lemma ratio_field_id f r : GroupRatios.id (GroupRatios.set_field f r) = GroupRatios.id r.
Proof. by destruct f. Qed.
Lemma usable_field_id f r : UsableGroups.id (UsableGroups.set_field f r) = UsableGroups.id r.
Proof. by destruct f. Qed.
Lemma row_field_id f r : GroupTable.id (GroupTable.set_field f r) = GroupTable.id r.
Proof. by destruct f. Qed.

Lemma filter_removals p l : Forall UsableRules.removal_named l → Forall UsableRules.removal_named (List.filter p l).
Proof. rewrite !Forall_forall. intros H r [Hr _]%list_elem_of_In%filter_In. by apply H, list_elem_of_In. Qed.
Lemma group_removals items l : Forall UsableRules.removal_named l → Forall UsableRules.removal_named (Nested.remove_group UsableGroups.id items l).
Proof. intros H. rewrite remove_group_last. destruct (last items); [by apply filter_removals|done]. Qed.
Lemma add_removals n g l : Forall UsableRules.removal_named l → Forall UsableRules.removal_named (UsableGroups.addRuleToGroup n g l).
Proof. intros H. apply Forall_app. split; [done|]. by repeat constructor. Qed.

(** A changed rule keeps the description of a removal; ids tell rules apart. *)
Lemma change_removals i f l n : ids_ok (map UsableGroups.id l) n → existsb (UsableGroups.editable i f) l = true → Forall UsableRules.removal_named l →
  Forall UsableRules.removal_named (UsableGroups.updateRule i f l).
Proof.
  intros [Hnd _] He Hl. apply existsb_exists in He as (r0 & Hr0 & He). unfold UsableGroups.editable in He. apply andb_true_iff in He as [Hi0 Hf].
  apply Nat.eqb_eq in Hi0. apply Forall_forall. intros r' (r & -> & Hr)%list_elem_of_fmap. rewrite Forall_forall in Hl. specialize (Hl r Hr).
  destruct (UsableGroups.id r =? i) eqn:Ei; [|done]. apply Nat.eqb_eq in Ei.
  assert (r0 = r) as ->.
  { apply list_elem_of_lookup in Hr as [a Ha]. apply list_elem_of_In, list_elem_of_lookup in Hr0 as [b Hb].
    assert (b = a) as ->; [|congruence]. eapply (NoDup_lookup _ _ _ (UsableGroups.id r) Hnd); rewrite list_lookup_fmap; [rewrite Hb|rewrite Ha]; cbn; congruence. }
  unfold UsableRules.removal_named in *. destruct f as [o|s|s]; cbn [UsableGroups.set_field UsableGroups.r_op UsableGroups.description]; [|done|].
  - intros ->. by rewrite bool_decide_eq_true_2.
  - intros Ho. rewrite Ho in Hf. by rewrite bool_decide_eq_true_2 in Hf.
Qed.

Lemma editor_event_ok ev e p p' : (∀ k, obj_has (inputsRow p) k = true → obj_has (inputs_now p) k = true) → editors_ok (inputs_now p) e (next p) →
  editor_event ev e p = Some p' → state_ok (render p').
Proof.
  intros Hk He Hp. pose proof He as [S1 S2 S3 S4 I1 I2 I3 I4 Hr].
  assert (Hsame : ∀ a b, state_ok (render (set_editors (Editors (rows e) (autos e) (ratios e) (usables e) a b) (next p) p))).
  { intros a b. apply render_ok; [done|]. intros e' [= <-]. by split. }
  destruct ev; cbn [editor_event] in Hp; try done.
  - injection Hp as <-. apply rows_change; [done|done|by apply ids_change; [apply row_field_id|]|done].
  - injection Hp as <-. apply rows_change; [done|done|by apply ids_snoc|lia].
  - injection Hp as <-. apply rows_change; [done|done|by apply ids_filter|done].
  - injection Hp as <-. apply autos_change; [done|done|by apply ids_change|done].
  - injection Hp as <-. apply autos_change; [done|done|by apply ids_snoc|lia].
  - injection Hp as <-. apply autos_change; [done|done|by apply ids_filter|done].
  - destruct index as [|i]; cbn [AutoGroups.moveUp mbind option_bind] in Hp; [done|]. injection Hp as <-.
    apply autos_change; [done|done|by eapply ids_perm; [apply swap_perm|]|done].
  - unfold AutoGroups.moveDown in Hp. destruct (_ <=? _); cbn [mbind option_bind] in Hp; [done|]. injection Hp as <-.
    apply autos_change; [done|done|by eapply ids_perm; [apply swap_perm|]|done].
  - injection Hp as <-. apply ratios_change; [done|done|by apply ids_change; [apply ratio_field_id|]|done].
  - injection Hp as <-. apply ratios_change; [done|done|by apply ids_filter|done].
  - injection Hp as <-. apply ratios_change; [done|done|by apply ids_group|done].
  - injection Hp as <-. apply ratios_change; [done|done|by apply ids_snoc|lia].
  - injection Hp as <-. apply Hsame.
  - destruct (blank _); [done|]. injection Hp as <-. apply ratios_change; [done|done|by apply ids_snoc|lia].
  - destruct (existsb _ _) eqn:Ed; [|done]. injection Hp as <-.
    apply usables_change; [done|done|by apply ids_change; [apply usable_field_id|]|by eapply change_removals|done].
  - injection Hp as <-. apply usables_change; [done|done|by apply ids_filter|by apply filter_removals|done].
  - injection Hp as <-. apply usables_change; [done|done|by apply ids_group|by apply group_removals|done].
  - injection Hp as <-. apply usables_change; [done|done|by apply ids_snoc|by apply add_removals|lia].
  - injection Hp as <-. apply Hsame.
  - destruct (blank _); [done|]. injection Hp as <-. apply usables_change; [done|done|by apply ids_snoc|by apply add_removals|lia].
Qed.

Inductive group_reached : group_state → Prop :=
| group_mounted o : group_reached (mount_page o)
| group_next ev s s' : group_reached s → group_step ev s = Some s' → group_reached s'.

Lemma group_step_ok ev s s' : state_ok s → group_step ev s = Some s' → state_ok s'.
Proof.
  intros Hs Hst. destruct s as [p|]; [|done]. cbn [group_step] in Hst. destruct Hs as (Hk & _ & He).
  unfold group_handle in Hst. destruct (shown p) as [e|] eqn:Esh.
  - specialize (He e eq_refl). destruct ev; try (destruct (editor_event _ e p) as [p'|] eqn:Ee; [|done]; injection Hst as <-; by eapply editor_event_ok).
    + injection Hst as <-. apply options_ok.
    + injection Hst as <-. by apply render_ok.
    + injection Hst as <-. apply render_ok; [intros k H; by apply kept_keys, Hk|]. cbn [set_option shown inputs_now next].
      rewrite Esh. intros e' [= <-]. destruct He. sync.
  - destruct ev; try done.
    + injection Hst as <-. apply options_ok.
    + injection Hst as <-. by apply shown_ok.
    + destruct (existsb _ _); [|done]. injection Hst as <-. apply render_ok; [intros k' H; by apply kept_keys, Hk|]. cbn [set_text set_option shown]. by rewrite Esh.
    + injection Hst as <-. apply render_ok; [intros k' H; by apply kept_keys, Hk|]. cbn [set_option shown]. by rewrite Esh.
Qed.

(** C20. Whatever is clicked, typed or loaded, as long as the page is shown: every
    editor has read the text that would be saved or has written it; its items have
    ids of their own; the description of a removed group is the word the server
    expects. *)
Theorem groups_synced s : group_reached s → state_ok s.
Proof. induction 1; [apply options_ok|by eapply group_step_ok]. Qed.

(** *** Saving and loading again *)

Definition saved (row puts : inputs) : inputs := fold_left (λ acc e, obj_set acc e.1 e.2) puts row.
Definition has_texts (i : inputs) : Prop := Forall (λ k, ∃ s, obj_get i k = JStr s) TEXT_KEYS.

Lemma filter_get (o : inputs) ks k : existsb (streq k) ks = true → obj_get (List.filter (λ e, existsb (streq e.1) ks) o) k = obj_get o k.
Proof.
  intros Hk. induction o as [|[k' v] o IH]; [done|]. cbn [List.filter fst obj_get]. destruct (streq k' k) eqn:E.
  - apply streq_true in E as ->. rewrite Hk. cbn [obj_get]. by rewrite streq_refl.
  - destruct (existsb (streq k') ks); cbn [obj_get]; by rewrite ?E.
Qed.

Lemma stored_text i row k : (∃ s, obj_get i k = JStr s) → (∃ s, obj_get row k = JStr s) →
  obj_get (saved row (map (λ k, (k, put_value (obj_get i k))) (compareObjects i row))) k = obj_get i k.
Proof.
  intros [s Hs] [s' Hs']. set (F := λ k, put_value (obj_get i k)). set (ks := compareObjects i row).
  assert (Hf : ∀ l acc, fold_left (λ acc e, obj_set acc e.1 e.2) (map (λ k, (k, F k)) l) acc = fold_left (λ acc k, if (λ _, false) k then acc else obj_set acc k (F k)) l acc)
    by (induction l as [|x l IH]; intros acc; [done|]; apply IH).
  unfold saved. etrans; [apply (f_equal (λ o, obj_get o k)), Hf|]. etrans; [apply (fold_keys_get F (λ _, false))|]. unfold F. rewrite Hs. cbn [put_value negb].
  rewrite andb_true_r. case_bool_decide as Hin; [done|].
  assert (Hp : ∀ o k s, obj_get o k = JStr s → obj_has o k = true).
  { intros o k0 s0 H. apply not_false_iff_true. intros Hn. by rewrite (obj_absent _ _ Hn) in H. }
  assert (He : strict_eq (obj_get i k) (obj_get row k) = true).
  { apply not_false_iff_true. intros He. apply Hin. apply list_elem_of_In, filter_In. rewrite <- list_elem_of_In, own_keys_In, <- obj_has_In, He.
    by rewrite (Hp _ _ _ Hs), (Hp _ _ _ Hs'). }
  rewrite Hs, Hs' in He. cbn [strict_eq] in He. apply streq_true in He. by rewrite Hs', He.
Qed.

Lemma submitted_texts p puts k : has_texts (inputs_now p) → has_texts (inputsRow p) → onSubmit p = inl puts → k ∈ TEXT_KEYS →
  text_at (List.filter (λ e, existsb (streq e.1) OPTION_KEYS) (saved (inputsRow p) puts)) k = text_at (inputs_now p) k.
Proof.
  intros H1 H2 Hsub Hk. unfold text_at. rewrite filter_get.
  - unfold onSubmit in Hsub. case_match; [done|]. destruct (compareObjects _ _) as [|c cs] eqn:Ec; [done|]. injection Hsub as <-.
    unfold has_texts in *. rewrite Forall_forall in H1, H2. pose proof (stored_text _ _ _ (H1 k Hk) (H2 k Hk)) as Hs. rewrite Ec in Hs. cbn [map] in Hs. by rewrite Hs.
  - apply existsb_streq. unfold OPTION_KEYS. apply elem_of_app. by left.
Qed.

(** *** What the editors show, loaded from the same texts *)

Lemma text_key k : existsb (streq k) TEXT_KEYS = true → k ∈ TEXT_KEYS.
Proof. apply existsb_streq. Qed.

Section Reload.
Context (i i' : inputs) (Ht : ∀ k, k ∈ TEXT_KEYS → text_at i' k = text_at i k).

Lemma rows_reload l n : rows_sync i l → NoDup (map GroupTable.name (Table.kept l)) → Forall Table.row_sound l →
  ∃ l', GroupTable.buildRows (text_at i' GROUP_RATIO) (text_at i' USER_USABLE_GROUPS) n = Some l' ∧ Table.row_meaning l' = Table.row_meaning l.
Proof.
  intros Hs Hnd Hl. rewrite !Ht by (by apply text_key; vm_compute). destruct Hs as [[m Hm]|Hm].
  - destruct (Table.rows_again _ _ _ n _ Hm) as (l' & H1 & _ & H2). by exists l'.
  - destruct (Table.rows_reopen l Hnd Hl n) as (l' & H1 & _ & H2). rewrite <- Hm in H1. by exists l'.
Qed.

Lemma truthy_idemp l : filter_truthy (filter_truthy l) = filter_truthy l.
Proof. unfold filter_truthy. induction l as [|x l IH]; [done|]. cbn [List.filter]. destruct (negb _) eqn:E; cbn [List.filter]; rewrite ?E; congruence. Qed.

Lemma autos_reload l n : autos_sync i l → Forall auto_sound l →
  filter_truthy (map AutoGroups.name (AutoGroups.parseAutoGroups (text_at i' AUTO_GROUPS) n)) = filter_truthy (map AutoGroups.name l).
Proof.
  intros Hs Hl. rewrite !Ht by (by apply text_key; vm_compute). destruct Hs as [[m <-] | -> ]; [f_equal; apply autos_any|].
  rewrite autos_reopen by done. apply truthy_idemp.
Qed.

Lemma counted_groups {R} (user target key : R → jsstr) val rules : Forall (λ r, Rules.counts (Rules.facts user target key val r) = true) rules →
  is_Some (Nested.grouped user rules).
Proof.
  intros H. apply Rules.grouped_iff. rewrite Forall_forall in H. apply Forall_forall. intros u (r & -> & Hr%H)%list_elem_of_fmap. right. unfold Rules.facts, Rules.counts in Hr. by bool_hyps.
Qed.

Lemma same_facts {R} (user target key : R → jsstr) val rules rules' : map (Rules.facts user target key val) rules' = map (Rules.facts user target key val) rules →
  is_Some (Nested.grouped user rules) → is_Some (Nested.grouped user rules').
Proof.
  intros Hf. rewrite !Rules.grouped_iff. assert (map user rules' = map user rules) as ->; [|done].
  apply (f_equal (map (λ f, f.1.1.1))) in Hf. by rewrite !map_map in Hf.
Qed.

Lemma ratios_reload l n : ratios_sync i l → Forall RatioRules.ratio_sound l → is_Some (GroupRatios.grouped l) →
  ∃ l', GroupRatios.read_rules (text_at i' GROUP_GROUP_RATIO) n = Some l' ∧ RatioRules.meaning l' = RatioRules.meaning l ∧ is_Some (GroupRatios.grouped l').
Proof.
  intros Hs Hl Hg. rewrite !Ht by (by apply text_key; vm_compute). destruct Hs as [[m Hm] | -> ].
  - destruct (Rules.rules_again GroupRatios.userGroup GroupRatios.usingGroup GroupRatios.usingGroup GroupRatios.ratio GroupRatios.make (λ _ _ _ _ _, eq_refl) _ _ n _ Hm) as (l' & H1 & H2).
    exists l'. split; [done|]. split; [unfold RatioRules.meaning, Rules.meaning; by rewrite H2|by eapply same_facts].
  - destruct (RatioRules.ratios_reopen l n Hl) as (l' & H1 & H2 & H3). exists l'. split; [done|]. split; [done|by eapply counted_groups].
Qed.

Lemma usables_reload l n : usables_sync i l → Forall UsableRules.usable_sound l → Forall UsableRules.removal_named l → is_Some (UsableGroups.grouped l) →
  ∃ l', UsableGroups.read_rules (text_at i' SPECIAL_USABLE) n = Some l' ∧ UsableRules.meaning l' = UsableRules.meaning l ∧ is_Some (UsableGroups.grouped l').
Proof.
  intros Hs Hl Hr Hg. rewrite !Ht by (by apply text_key; vm_compute). destruct Hs as [[m Hm] | -> ].
  - destruct (Rules.rules_again UsableGroups.userGroup UsableGroups.targetGroup UsableGroups.raw_key UsableRules.text UsableGroups.make UsableRules.usable_facts _ _ n _ Hm) as (l' & H1 & H2).
    exists l'. split; [done|]. split; [unfold UsableRules.meaning, Rules.meaning; by rewrite H2|by eapply same_facts].
  - destruct (UsableRules.usables_reopen l n Hl Hr) as (l' & H1 & H2 & H3). exists l'. split; [done|]. split; [done|by eapply counted_groups].
Qed.
End Reload.

(** Editors whose items can be written: texts without lone surrogates, numbers where
    ratios are expected, one row per group, no inherited name, no appended group
    named like an operation *)
Record editors_sound (e : editors) : Prop := {
  s_names : NoDup (map GroupTable.name (Table.kept (rows e)));
  s_rows : Forall Table.row_sound (rows e);
  s_autos : Forall auto_sound (autos e);
  s_ratios : Forall RatioRules.ratio_sound (ratios e);
  s_usables : Forall UsableRules.usable_sound (usables e)
}.

(** C19. What is saved is what was shown.  Let the page show its editors, with
    the five options there as texts; let the groups of the table that have a name have
    different ones, none that every object inherits, each with a ratio that is not
    cleared and a description; let the rules have numbers for ratios, and no rule
    append a group whose name begins like an operation.  When the server has stored the
    requests of a save and the options are loaded again, the page is shown, and the
    table has the same named groups, the automatic groups the same order, and the rules
    of both kinds the same meaning, the last of several rules for the same groups. *)
Theorem groups_survive_save p e puts : group_reached (Live p) → shown p = Some e → editors_sound e →
  has_texts (inputs_now p) → has_texts (inputsRow p) → onSubmit p = inl puts →
  ∃ p' e', take_options (saved (inputsRow p) puts) p = Live p' ∧ shown p' = Some e' ∧
    Table.row_meaning (rows e') = Table.row_meaning (rows e) ∧
    filter_truthy (map AutoGroups.name (autos e')) = filter_truthy (map AutoGroups.name (autos e)) ∧
    RatioRules.meaning (ratios e') = RatioRules.meaning (ratios e) ∧ UsableRules.meaning (usables e') = UsableRules.meaning (usables e).
Proof.
  intros Hp He [N1 N2 N3 N4 N5] T1 T2 Hsub. assert (Hok : state_ok (Live p)) by (clear -Hp; induction Hp; [apply options_ok|by eapply group_step_ok]).
  destruct Hok as (_ & Hren & Hed). destruct (Hed e He) as [S1 S2 S3 S4 _ _ _ _ Hr]. unfold renders in Hren. rewrite He in Hren. bool_hyps.
  set (i' := List.filter (λ e, existsb (streq e.1) OPTION_KEYS) (saved (inputsRow p) puts)).
  assert (Ht : ∀ k, k ∈ TEXT_KEYS → text_at i' k = text_at (inputs_now p) k) by (intros k Hk; by apply submitted_texts).
  unfold take_options. rewrite He. fold i'. unfold show_editors, mount_editors.
  destruct (rows_reload _ i' Ht (rows e) (next p) S1 N1 N2) as (l1 & B1 & M1). rewrite B1. cbn [mbind option_bind].
  pose proof (λ n, autos_reload _ i' Ht (autos e) n S2 N3) as M2. set (al := AutoGroups.parseAutoGroups _ _).
  destruct (ratios_reload _ i' Ht (ratios e) (bound (bound (next p) l1) al) S3 N4) as (l3 & B3 & M3 & G3); [done|]. rewrite B3. cbn [mbind option_bind].
  destruct (usables_reload _ i' Ht (usables e) (bound (bound (bound (next p) l1) al) l3) S4 N5 Hr) as (l4 & B4 & M4 & G4); [done|]. rewrite B4. cbn [mbind option_bind].
  unfold render, renders. cbn [inputs_now shown ratios usables]. rewrite !bool_decide_eq_true_2; [|done|done|apply (Table.build_cases _ _ _ _ B1)]. cbn [andb].
  eexists _, _. split; [done|]. split; [done|]. cbn [rows autos ratios usables]. split_and!; [done|apply M2|done|done].
Qed.

(** The name of a new group is free. *)
Theorem new_group_free n l : GroupTable.newName l ∉ map GroupTable.name l ∧ map GroupTable.name (GroupTable.addRow n l) = map GroupTable.name l ++ [GroupTable.newName l].
Proof.
  split; [|unfold GroupTable.addRow; by rewrite map_app]. apply first_free_fresh; [|by rewrite length_map].
  unfold GroupTable.group_n. intros i j H%app_inv_head. by apply numeral_inj.
Qed.

(** ** Changes that do something else *)

Definition run_groups (evs : list group_event) (s : group_state) : option group_state :=
  fold_left (λ acc ev, match acc with Some s => group_step ev s | None => None end) evs (Some s).
Definition options_with (o : inputs) : group_state := mount_page (spread first_inputs (JObj o)).
Definition of_page {A} (f : group_page → A) (s : option group_state) : option A := match s with Some (Live p) => Some (f p) | _ => None end.
Definition using_groups (p : group_page) : list jsstr := match shown p with Some e => map GroupRatios.usingGroup (ratios e) | None => [] end.

Definition vip_ratios : inputs := [(GROUP_GROUP_RATIO, JStr (jsq "{'vip':{'a':1,'b':2,'c':3}}"))].

(** The button that removes all rules of a group removes the last one only. *)
Theorem removed_group_stays : of_page using_groups (run_groups [RatioRemoveGroup (js "vip")] (options_with vip_ratios)) = Some [js "a"; js "b"].
Proof. by vm_compute. Qed.

(** When the last rule is removed, the empty text is saved, which is not JSON; the
    text view refuses to save it. *)
Definition one_ratio : inputs := [(GROUP_GROUP_RATIO, JStr (jsq "{'vip':{'a':1}}"))].
Theorem emptied_text_saved :
  of_page onSubmit (run_groups [RatioRemove 0] (options_with one_ratio)) = Some (inl [(GROUP_GROUP_RATIO, JStr [])]) ∧ parse [] = None ∧
  of_page onSubmit (run_groups [RatioRemove 0; ToManual] (options_with one_ratio)) = Some (inr (js "请检查输入")).
Proof. split_and!; by vm_compute. Qed.

(** Typing [null] as the group ratios takes the page away. *)
Theorem typed_null_crashes : run_groups [ToManual; TypeText GROUP_RATIO (js "null")] (options_with []) = Some Crashed.
Proof. by vm_compute. Qed.

(** So does a rule for a group named like something every object has. *)
Theorem inherited_group_crashes : run_groups [RatioPick (js "constructor"); RatioAddGroup] (options_with []) = Some Crashed.
Proof. by vm_compute. Qed.

(** A ratio that is cleared is saved as an empty text. *)
Theorem cleared_ratio_saved :
  of_page onSubmit (run_groups [RowChange 0 (GroupTable.Ratio (JStr []))] (options_with [(GROUP_RATIO, JStr (jsq "{'a':1}"))]))
  = Some (inl [(GROUP_RATIO, JStr (jsq "{
  'a': ''
}")); (USER_USABLE_GROUPS, JStr (js "{}"))]).
Proof. by vm_compute. Qed.

(** *** Witnesses *)

Definition sample_events : list group_event :=
  [RowAdd; RowChange 0 (GroupTable.Name (js "default")); AutoAdd; AutoName 1 (js "default"); RatioPick (js "vip"); RatioAddGroup;
   RatioChange 2 (GroupRatios.UsingGroup (js "default")); UsablePick (js "vip"); UsableAddGroup; UsableChange 3 (UsableGroups.TargetGroup (js "default"));
   UsableChange 3 (UsableGroups.Op UsableGroups.Remove)].
Definition sample_state : group_state := default Crashed (run_groups sample_events (options_with [])).
Definition sample_page : group_page := match sample_state with Live p => p | Crashed => GroupPage [] [] None 0 end.
Definition sample_editors : editors := default (Editors [] [] [] [] [] []) (shown sample_page).

Lemma run_reached evs s : run_groups evs (options_with []) = Some s → group_reached s.
Proof.
  revert s. induction evs as [|ev evs IH] using rev_ind; intros s; [intros [= <-]; apply group_mounted|].
  unfold run_groups. rewrite fold_left_app. cbn [fold_left]. fold (run_groups evs (options_with [])).
  destruct (run_groups evs (options_with [])) as [q|]; [|done]. intros H. eapply group_next; [by apply IH|exact H].
Qed.

Lemma groups_synced_witness : page_ok sample_page.
Proof. apply (groups_synced (Live sample_page)). apply (run_reached sample_events). by vm_compute. Defined.

Definition sample_puts : inputs := match onSubmit sample_page with inl l => l | inr _ => [] end.

Lemma sample_sound : editors_sound sample_editors.
Proof.
  let x := eval vm_compute in sample_editors in assert (sample_editors = x) as -> by by vm_compute. split; cbn [rows autos ratios usables].
  - apply (bool_decide_unpack _). by vm_compute.
  - apply Forall_singleton. split_and!; by vm_compute.
  - apply Forall_singleton. by vm_compute.
  - apply Forall_singleton. split_and!; [by vm_compute..|]. exists (num_of_Z 1). split; by vm_compute.
  - apply Forall_singleton. split_and!; [by vm_compute..|]. by vm_compute.
Qed.
Lemma texts_of i : forallb (λ k, match obj_get i k with JStr _ => true | _ => false end) TEXT_KEYS = true → has_texts i.
Proof. intros H. apply forallb_Forall in H. eapply Forall_impl; [exact H|]. intros k Hk. cbn in Hk. destruct (obj_get i k) as [| | | |s| |]; try done. by exists s. Qed.

Lemma groups_survive_save_witness : ∃ p' e', take_options (saved (inputsRow sample_page) sample_puts) sample_page = Live p' ∧ shown p' = Some e' ∧
  UsableRules.meaning (usables e') = UsableRules.meaning (usables sample_editors).
Proof.
  destruct (groups_survive_save sample_page sample_editors sample_puts) as (p' & e' & H1 & H2 & _ & _ & _ & H3).
  - apply (run_reached sample_events). by vm_compute.
  - by vm_compute.
  - apply sample_sound.
  - apply texts_of. by vm_compute.
  - apply texts_of. by vm_compute.
  - by vm_compute.
  - exists p', e'. exact (conj H1 (conj H2 H3)).
Defined.
