(* ===== verification/AsyncTask.v ===== *)
(** * Asynchronous tasks of a channel

    The part of [web/src/components/table/channels/modals/EditChannelModal.jsx] that
    edits the member [async_task] of a channel's settings: reading it into the boxes
    of the form, writing it back at every change and for a save, the map of states
    written as lines, and the import of a configuration or of a sample answer, from
    which paths and states are guessed.

    A configuration is an object.  [lower] and [upper] are [toLowerCase] and
    [toUpperCase].  An assignment to [__proto__] makes no property. *)

From S2P Require Import Prelude JsString JsNumber Json JsObject JsOrder.

Definition task_config : Type := list (jsstr * jval).
Definition get (c : task_config) (k : string) : jval := obj_get c (js k).

(** ** The map of states

    One line per state: the state of the service, an arrow, the state shown. *)

Definition ARROW : N := 8594.

(** The text before and after the first unit [c] *)
Fixpoint split_first (c : N) (s : jsstr) : option (jsstr * jsstr) :=
  match s with
  | [] => None
  | x :: s' => if (x =? c)%N then Some ([], s') else match split_first c s' with Some (a, b) => Some (x :: a, b) | None => None end
  end.
Definition status_line (line : jsstr) : option (jsstr * jsstr) :=
  match split_first ARROW (trim line) with
  | Some (a, b) => if is_empty a || is_empty (trim a) then None else Some (trim a, trim b)
  | None => None
  end.
Definition parseStatusMapToObject (str : jsstr) : task_config :=
  fold_left (λ obj e, assign obj e.1 (JStr e.2)) (omap status_line (split [10%N] str)) [].

Definition line_of (e : jsstr * jval) : jsstr := e.1 ++ [ARROW] ++ String_of e.2.
Definition parseStatusMapToString (obj : jval) : jsstr :=
  if truthy obj && typeof_object obj then join [10%N] (map line_of (entries obj)) else [].

(** ** The stored configuration *)

Definition FIELDS : list string :=
  ["enabled"; "sync_mode"; "task_id_path"; "status_path"; "error_code_path"; "error_msg_path"; "success_statuses"; "query_method"; "query_path";
   "query_body"; "status_map"; "result_list_path"; "result_url_path"; "result_type_path"; "output_type"; "poll_interval_sec"; "max_poll_attempts"]%string.
Definition asyncTaskConfigKeys : list jsstr := map js FIELDS.
Definition asyncTaskImportSignatureKeys : list jsstr := List.filter (λ k, negb (streq k (js "enabled"))) asyncTaskConfigKeys.

Definition of_fields (f : string → jval) : task_config := map (λ k, (js k, f k)) FIELDS.

Definition emptyAsyncTaskConfig : task_config := of_fields (λ k,
  if String.eqb k "enabled" || String.eqb k "sync_mode" then JBool false
  else if String.eqb k "success_statuses" then JArr []
  else if String.eqb k "poll_interval_sec" || String.eqb k "max_poll_attempts" then JUndef
  else JStr []).

(** The object a text of settings holds *)
Definition settings_object (rawSettings : jval) : option task_config :=
  match rawSettings with
  | JStr s => if blank s then None else match parse s with Some (JObj o) => Some o | _ => None end
  | _ => None
  end.
Definition parseSettingsObject (rawSettings : jval) : task_config := default [] (settings_object rawSettings).

Definition list_or_empty (v : jval) : jval := match v with JArr l => JArr l | _ => JArr [] end.
Definition text_if (v : jval) (f : jval → jsstr) : jval := JStr (if truthy v then f v else []).
Definition read_member (k : string) (v : jval) : jval :=
  if String.eqb k "enabled" || String.eqb k "sync_mode" then JBool (is_true v)
  else if String.eqb k "success_statuses" then list_or_empty v
  else if String.eqb k "query_body" then text_if v (λ v, default [] (stringify2 v))
  else if String.eqb k "status_map" then text_if v (λ v, join [10%N] (map line_of (entries v)))
  else if String.eqb k "poll_interval_sec" || String.eqb k "max_poll_attempts" then js_or v JUndef
  else js_or v (JStr []).
Definition readAsyncTaskConfigFromSettings (rawSettings : jval) : task_config :=
  match settings_object rawSettings with
  | Some o => match get o "async_task" with JObj at_ => of_fields (λ k, read_member k (get at_ k)) | _ => emptyAsyncTaskConfig end
  | None => emptyAsyncTaskConfig
  end.

(** [JSON.parse] of a value *)
Definition parse_value_of (v : jval) : option jval := parse (String_of v).
Definition text_value (v : jval) : jsstr := match v with JStr s => s | _ => [] end.

Definition stored_body (v : jval) : jval := if truthy v then default v (parse_value_of v) else JStr [].
Definition buildAsyncTaskStorageConfig (c : task_config) : task_config :=
  obj_set (obj_set c (js "query_body") (stored_body (get c "query_body"))) (js "status_map") (JObj (parseStatusMapToObject (text_value (get c "status_map")))).

(** [parseInt(text)]: a prefix [0x] makes it hexadecimal. *)
Fixpoint hex_digits (acc : Z) (s : jsstr) : Z := match s with c :: s' => match hex_val c with Some d => hex_digits (acc * 16 + Z.of_N d) s' | None => acc end | [] => acc end.
Definition parseInt (s : jsstr) : num :=
  let '(neg, t) := take_sign (drop_while is_ws s) in
  match (if starts_with (js "0x") t then strip_prefix (js "0x") t else strip_prefix (js "0X") t) with
  | Some (c :: h) => match hex_val c with Some _ => num_of_Z ((if neg then -1 else 1) * hex_digits 0 (c :: h)) | None => nan end
  | Some [] => nan
  | None => parseInt10 s
  end.
Definition number_or (v : jval) (d : Z) : jval := let n := parseInt (String_of v) in JNum (if num_truthy n then n else num_of_Z d).

Definition save_member (k : string) (v : jval) : jval :=
  let text d := js_or v (JStr (js d)) in
  if String.eqb k "enabled" || String.eqb k "sync_mode" then JBool (is_true v)
  else if String.eqb k "task_id_path" then text "taskId"%string
  else if String.eqb k "status_path" then text "status"%string
  else if String.eqb k "success_statuses" then match v with JArr l => JArr l | _ => JArr [JStr (js "RUNNING"); JStr (js "QUEUED")] end
  else if String.eqb k "query_method" then text "POST"%string
  else if String.eqb k "query_body" then if truthy v then default (JObj []) (parse_value_of v) else JObj []
  else if String.eqb k "status_map" then JObj (parseStatusMapToObject (text_value v))
  else if String.eqb k "result_list_path" then text "results"%string
  else if String.eqb k "result_url_path" then text "url"%string
  else if String.eqb k "result_type_path" then text "outputType"%string
  else if String.eqb k "output_type" then text "image"%string
  else if String.eqb k "poll_interval_sec" then number_or v 5
  else if String.eqb k "max_poll_attempts" then number_or v 120
  else text ""%string.
Definition buildAsyncTaskSaveConfig (c : task_config) : task_config := of_fields (λ k, save_member k (get c k)).

(** ** The boxes of the form

    [settings]: the text of the page's inputs; [boxes]: what the form shows.  A change
    of a box writes the text and shows the configuration it wrote; a change of any
    other input shows what the text holds. *)

Record task_form := TaskForm { settings : jval; boxes : task_config }.

Definition settings_with (rawSettings : jval) (next : task_config) : jval :=
  JStr (default [] (stringify (JObj (obj_set (parseSettingsObject rawSettings) (js "async_task") (JObj (buildAsyncTaskStorageConfig next)))))).
Definition updateAsyncTaskConfigState (updater : task_config → task_config) (f : task_form) : task_form :=
  let nextConfig := updater (readAsyncTaskConfigFromSettings (settings f)) in
  TaskForm (settings_with (settings f) nextConfig) nextConfig.
Definition handleAsyncTaskConfigChange (key : jsstr) (value : jval) : task_form → task_form :=
  updateAsyncTaskConfigState (λ prevConfig, obj_set prevConfig key value).
Definition show_settings (rawSettings : jval) : task_form := TaskForm rawSettings (readAsyncTaskConfigFromSettings rawSettings).

Definition copyAsyncTaskConfigJson (f : task_form) : jsstr :=
  default [] (stringify2 (JObj (buildAsyncTaskSaveConfig (readAsyncTaskConfigFromSettings (settings f))))).

(** ** Import *)

Section Importing.
(** [type_error]: the engine's message *)
Context (lower upper : jsstr → jsstr) (type_error : jsstr).

Definition getImportedAsyncTaskConfigObject (data : task_config) : option task_config :=
  let '(candidate, keys) := match get data "async_task" with JObj o => (o, asyncTaskConfigKeys) | _ => (data, asyncTaskImportSignatureKeys) end in
  if existsb (obj_has candidate) keys then Some candidate else None.

Definition imported_member (k : string) (v : jval) : jval :=
  if String.eqb k "enabled" || String.eqb k "sync_mode" then JBool (is_true v)
  else if String.eqb k "query_method" then JStr (upper (String_of (js_or v (JStr []))))
  else if String.eqb k "success_statuses" then
    JArr (map JStr (match v with
                    | JArr l => filter_truthy (map String_of l)
                    | _ => filter_truthy (map trim (split (js ",") (String_of (js_or v (JStr [])))))
                    end))
  else if String.eqb k "query_body" then JStr (match v with JStr s => s | JNull | JUndef => [] | _ => default [] (stringify2 v) end)
  else if String.eqb k "status_map" then JStr (match v with JStr s => s | _ => parseStatusMapToString v end)
  else if String.eqb k "poll_interval_sec" || String.eqb k "max_poll_attempts" then
    let n := parseInt10 (String_of v) in if isFinite n then JNum n else JUndef
  else JStr (if is_nullish v then [] else String_of v).
(** In the order in which the members are set *)
Definition IMPORTED_FIELDS : list string :=
  ["enabled"; "sync_mode"; "task_id_path"; "status_path"; "error_code_path"; "error_msg_path"; "query_path"; "result_list_path"; "result_url_path";
   "result_type_path"; "output_type"; "query_method"; "success_statuses"; "query_body"; "status_map"; "poll_interval_sec"; "max_poll_attempts"]%string.
Definition normalizeImportedAsyncTaskConfig (raw : task_config) : task_config :=
  map (λ k, (js k, imported_member k (get raw k))) (List.filter (λ k, obj_has raw (js k)) IMPORTED_FIELDS).

(** *** A sample answer

    Objects are taken in the order of enumeration. *)

Definition path_to (prefix key : jsstr) : jsstr := if is_empty prefix then key else prefix ++ js "." ++ key.
Fixpoint visit (prefix : jsstr) (obj : jval) : list (jsstr * jval) :=
  match obj with
  | JObj o => flat_map (λ e, let path := path_to prefix e.1 in (path, e.2) :: visit path e.2) o
  | _ => []
  end.
Definition collect_paths (data : jval) : task_config := fold_left (λ paths e, assign paths e.1 e.2) (visit [] data) [].

Definition last_key (path : jsstr) : jsstr := default [] (last (split (js ".") path)).
Definition listed (names : list string) (k : jsstr) : bool := existsb (streq k) (map js names).

Fixpoint find_id (paths : task_config) (bestIdPath : jsstr) : jsstr :=
  match paths with
  | [] => bestIdPath
  | (path, JStr _) :: rest =>
    let lkey := lower (last_key path) in
    if listed ["id"; "task_id"; "taskId"]%string lkey then
      if streq lkey (js "id") && negb (existsb (N.eqb 46) path) then path else find_id rest path
    else if ends_with (js "_id") lkey && is_empty bestIdPath then find_id rest path
    else find_id rest bestIdPath
  | _ :: rest => find_id rest bestIdPath
  end.
Definition or_text (s : jsstr) (d : string) : jsstr := if is_empty s then js d else s.
Definition find_path (p : jsstr → bool) (paths : task_config) : jsstr := default [] (fst <$> List.find (λ e, p e.1) paths).

Fixpoint scanStatuses (statusKey : jsstr) (obj : jval) : list jsstr :=
  match obj with
  | JObj o => flat_map (λ e, match e.2 with JStr s => if streq e.1 statusKey then [s] else [] | _ => [] end ++ scanStatuses statusKey e.2) o
  | _ => []
  end.

Definition has_url (v : jval) : bool := match v with JObj o => existsb (obj_has o) (map js ["url"; "image_url"; "video_url"]%string) | _ => false end.
Fixpoint findResultArray (prefix : jsstr) (obj : jval) : option jsstr :=
  match obj with
  | JObj o =>
    (fix go (es : list (jsstr * jval)) : option jsstr :=
      match es with
      | [] => None
      | (key, v) :: rest =>
        let path := path_to prefix key in
        if match v with JArr (x :: _) => has_url x | _ => false end then Some path
        else match findResultArray path v with Some found => if is_empty found then go rest else Some found | None => go rest end
      end) o
  | _ => None
  end.

(** [part in current ? current[part] : null]; an inherited function is no object. *)
Definition member (current : jval) (part : jsstr) : jval :=
  match current with
  | JObj o => if obj_has o part then obj_get o part else JNull
  | JArr _ => match read current part with JUndef => JNull | v => v end
  | _ => JNull
  end.
Definition is_url (v : jval) : bool := match v with JStr s => starts_with (js "http") s | _ => false end.
(** [None]: [in] on [null] throws *)
Definition find_url (data : jval) (listPath : jsstr) : option jsstr :=
  match fold_left member (split (js ".") listPath) data with
  | JArr (JNull :: _) => None
  | JArr ((JObj _ | JArr _) as first :: _) =>
    Some (match List.find (λ k, is_url (read first k)) (map js ["url"; "image_url"; "video_url"; "audio_url"; "result_url"]%string) with
          | Some k => k
          | None => default [] (fst <$> List.find (λ e, is_url e.2) (entries first))
          end)
  | _ => Some []
  end.

(** The state of one kind *)
Definition state_of (found : list jsstr) (names : list string) : option jsstr :=
  match List.find (λ s, listed names (lower s)) found with
  | Some s => match List.find (λ x, streq (lower x) (lower s)) found with Some k => if is_empty k then None else Some k | None => None end
  | None => None
  end.
Definition STATES : list (list string * string) :=
  [(["queued"; "pending"], "pending"); (["running"; "in_progress"; "processing"], "running"); (["completed"; "succeeded"; "success"], "succeeded");
   (["failed"], "failed")]%string.
Definition guess_states (found : list jsstr) : task_config :=
  match fold_left (λ m x, match state_of found x.1 with Some k => assign m k (JStr (js x.2)) | None => m end) STATES [] with
  | [] => map (λ x, (js x.1, JStr (js x.2))) [("QUEUED", "pending"); ("RUNNING", "running"); ("SUCCESS", "succeeded"); ("FAILED", "failed")]%string
  | m => m
  end.

Inductive outcome := Detected (c : task_config) | Failed (msg : jsstr).

Definition guess (data : jval) : outcome :=
  let paths := own_entries (collect_paths data) in
  let status_path := or_text (find_path (λ p, listed ["status"; "state"; "task_status"]%string (lower (last_key p))) paths) "status" in
  let found := uniq (scanStatuses (last_key status_path) data) in
  let nonTerminal := List.filter (λ s, negb (listed ["completed"; "succeeded"; "success"; "failed"]%string (lower s))) found in
  let candidate names := default [] (List.find (obj_has paths) (map js names)) in
  let list_path := or_text (default [] (findResultArray [] data)) "results" in
  match find_url data list_path with
  | None => Failed type_error
  | Some urlPath =>
    Detected [(js "task_id_path", JStr (or_text (find_id paths []) "taskId")); (js "status_path", JStr status_path);
      (js "success_statuses", JArr (map JStr (match nonTerminal with [] => [js "RUNNING"; js "QUEUED"] | l => l end)));
      (js "error_code_path", JStr (candidate ["error.code"; "error.error_code"; "error.type"]%string));
      (js "error_msg_path", JStr (candidate ["error.message"; "error.error_message"; "error.msg"]%string));
      (js "result_list_path", JStr list_path); (js "result_url_path", JStr (or_text urlPath "url"));
      (js "result_type_path", JStr (or_text (find_path (λ p, listed ["outputType"; "output_type"; "result_type"; "media_type"; "type"]%string (last_key p)) paths) "outputType"));
      (js "output_type", JStr (js "image"));
      (js "status_map", JStr (join [10%N] (map line_of (own_entries (guess_states found)))))]
  end.

Definition analyzeAsyncTaskJson (jsonStr : jsstr) : outcome :=
  match parse jsonStr with
  | None => Failed (js "JSON 格式无效")
  | Some (JObj o) =>
    match getImportedAsyncTaskConfigObject o with
    | Some raw => Detected (normalizeImportedAsyncTaskConfig raw)
    | None => guess (ordered (JObj o))
    end
  | Some _ => Failed (js "需要 JSON 对象，不是数组")
  end.

(** *** The dialog *)

Record import_dialog := ImportDialog { showImportModal : bool; importJsonText : jsstr; importPreview : option task_config; importError : jsstr }.
Definition type_json (text : jsstr) (d : import_dialog) : import_dialog := ImportDialog (showImportModal d) text (importPreview d) (importError d).
Definition open_import (d : import_dialog) : import_dialog := ImportDialog true (importJsonText d) (importPreview d) (importError d).
Definition handleCloseImportModal : import_dialog := ImportDialog false [] None [].
Definition handleParseImportJson (d : import_dialog) : import_dialog :=
  match analyzeAsyncTaskJson (importJsonText d) with
  | Detected c => ImportDialog (showImportModal d) (importJsonText d) (Some c) []
  | Failed msg => ImportDialog (showImportModal d) (importJsonText d) (importPreview d) msg
  end.
End Importing.

Definition handleApplyImportPreview (d : import_dialog) (f : task_form) : import_dialog * task_form :=
  match importPreview d with
  | None => (d, f)
  | Some preview => (handleCloseImportModal, updateAsyncTaskConfigState (λ prevConfig, fold_left (λ acc e, obj_set acc e.1 e.2) preview prevConfig) f)
  end.
