(* ===== verification/AsyncTaskTheorems.v ===== *)
(** * Asynchronous tasks: what holds of them

    The lines of states and the whole configuration are written and read back
    unchanged; changing one box leaves the others; a copied configuration can be
    imported; the paths guessed from a sample lead to what they are said to lead to.
    And the inputs that end up as something else. *)

From S2P Require Import Prelude JsString JsNumber Json JsObject JsOrder AsyncTask.

Local Opaque js.

(** ** The map of states *)

Definition clean_key (k : jsstr) : Prop := trim k = k ∧ k ≠ [] ∧ ARROW ∉ k ∧ 10%N ∉ k ∧ streq k (js "__proto__") = false.
Definition clean_text (v : jsstr) : Prop := trim v = v ∧ 10%N ∉ v.
Definition clean_state (e : jsstr * jval) : Prop := clean_key e.1 ∧ ∃ v, e.2 = JStr v ∧ clean_text v.

Lemma split_first_at c a b : c ∉ a → split_first c (a ++ c :: b) = Some (a, b).
Proof.
  induction a as [|x a IH]; intros Hc; cbn [app split_first]; [by rewrite N.eqb_refl|]. apply not_elem_of_cons in Hc as [Hne Hc].
  rewrite (proj2 (N.eqb_neq x c)) by done. by rewrite IH.
Qed.
Lemma split_first_parts c s a b : split_first c s = Some (a, b) → s = a ++ c :: b ∧ c ∉ a.
Proof.
  revert a b. induction s as [|x s IH]; intros a b; cbn [split_first]; [done|]. destruct (N.eqb_spec x c) as [->|Hne].
  - intros [= <- <-]. split; [done|by apply not_elem_of_nil].
  - destruct (split_first c s) as [[a' b']|]; [|done]. intros [= <- <-]. destruct (IH _ _ eq_refl) as [-> Hc]. split; [done|]. by apply not_elem_of_cons.
Qed.

Lemma line_trimmed k v : clean_key k → clean_text v → trim (k ++ [ARROW] ++ v) = k ++ [ARROW] ++ v.
Proof.
  intros (Hk & Hne & _) (Hv & _). apply trim_trimmed. pose proof (trimmed_trim k) as Tk. pose proof (trimmed_trim v) as Tv. rewrite Hk in Tk. rewrite Hv in Tv.
  destruct k as [|c k]; [done|]. destruct Tk as [Hc _]. split; [done|]. destruct v as [|d v].
  - exists ARROW. split; [|done]. cbn [app]. rewrite app_comm_cons. apply last_snoc.
  - destruct Tv as [_ (x & Hx & Hws)]. exists x. split; [|done]. rewrite !last_app. by rewrite Hx.
Qed.

Lemma clean_line e : clean_state e → status_line (line_of e) = Some (e.1, text_value e.2) ∧ 10%N ∉ line_of e.
Proof.
  intros [Hk (v & Hv & Hc)]. unfold status_line, line_of. rewrite Hv. cbn [String_of text_value]. rewrite line_trimmed by done.
  destruct Hk as (Hk & Hne & Ha & Hn & _). destruct Hc as [Htv Hnv]. cbn [app]. rewrite split_first_at, Hk, Htv by done. split.
  - destruct (e.1) eqn:E; [done|]. done.
  - rewrite elem_of_app, elem_of_cons. intros [?|[?|?]]; done.
Qed.

Lemma states_roundtrip m : Forall clean_state m → NoDup (map fst m) → parseStatusMapToObject (join [10%N] (map line_of m)) = m.
Proof.
  intros Hm Hnd. unfold parseStatusMapToObject. destruct m as [|e0 m0]; [done|]. set (m := e0 :: m0) in *.
  rewrite split_join_char.
  - assert (Ho : omap status_line (map line_of m) = map (λ e, (e.1, text_value e.2)) m).
    { clear Hnd. induction Hm as [|e l He Hl IH]; [done|]. cbn [map omap list_omap]. by rewrite (proj1 (clean_line e He)), IH. }
    rewrite Ho. rewrite <- (app_nil_l m) at 2. rewrite <- (fold_set_fresh m []) by done. clear Ho Hnd. generalize (@nil (jsstr * jval)).
    induction Hm as [|e l He Hl IH]; intros acc; [done|]. cbn [map fold_left fst snd]. rewrite IH. do 2 f_equal.
    destruct He as [(_ & _ & _ & _ & Hp) (v & Hv & _)]. unfold assign. rewrite Hp, Hv. done.
  - done.
  - apply Forall_forall. intros l (e & -> & He)%list_elem_of_fmap. rewrite Forall_forall in Hm. by apply clean_line, Hm.
Qed.

Lemma states_clean s : Forall clean_state (parseStatusMapToObject s) ∧ NoDup (map fst (parseStatusMapToObject s)).
Proof.
  unfold parseStatusMapToObject. apply (fold_left_inv (λ o, Forall clean_state o ∧ NoDup (map fst o))); [split; constructor|]. intros o [k v] Hin [H1 H2].
  unfold assign. cbn [fst snd]. destruct (streq k (js "__proto__")) eqn:Ep; [done|]. split; [|by apply obj_set_keys]. apply Forall_obj_set; [done|].
  apply list_elem_of_omap in Hin as (line & Hline & Hs). unfold status_line in Hs. destruct (split_first ARROW (trim line)) as [[a b]|] eqn:E; [|done].
  destruct (is_empty a || is_empty (trim a)) eqn:Ee; [done|]. injection Hs as <- <-. apply split_first_parts in E as [Et Ha]. bool_hyps.
  assert (Hn : 10%N ∉ trim line). { intros Hc%trim_elem. pose proof (split_absent 10%N s) as Hf. rewrite Forall_forall in Hf. by apply (Hf _ Hline). }
  rewrite Et in Hn. split; [split_and!|].
  - apply trim_idemp.
  - cbn [fst]. intros Hc. by rewrite Hc in *.
  - intros Hc%trim_elem. done.
  - intros Hc%trim_elem. apply Hn, elem_of_app. by left.
  - done.
  - exists (trim b). split; [done|]. split; [apply trim_idemp|]. intros Hc%trim_elem. apply Hn, elem_of_app. right. by right.
Qed.

(** ** Fields *)

Ltac fields := unfold read_member, save_member, imported_member in *; cbv [String.eqb Ascii.eqb Bool.eqb orb andb] in *.

(** Case analysis on the field a name is *)
Ltac each_field H := unfold FIELDS in H; repeat (apply elem_of_cons in H as [->|H]); [..|by apply elem_of_nil in H].

Lemma get_fields f k : k ∈ FIELDS → get (of_fields f) k = f k.
Proof. intros H. each_field H; unfold get, of_fields, FIELDS; cbn [map obj_get]; names; done. Qed.
Lemma fields_ext f g : (∀ k, k ∈ FIELDS → f k = g k) → of_fields f = of_fields g.
Proof. intros H. apply map_ext_in. intros k Hk. f_equal. by apply H, list_elem_of_In. Qed.
Lemma fields_keys f : map fst (of_fields f) = asyncTaskConfigKeys.
Proof. unfold of_fields. by rewrite map_map. Qed.
Lemma keys_ok : fields_ok asyncTaskConfigKeys = true.
Proof. by vm_compute. Qed.

Lemma fields_ordered f : ordered (JObj (of_fields f)) = JObj (of_fields (λ k, ordered (f k))).
Proof.
  cbn [ordered]. assert (E : map (λ e, (e.1, ordered e.2)) (of_fields f) = of_fields (λ k, ordered (f k))) by (unfold of_fields; by rewrite map_map).
  rewrite E. apply (f_equal JObj). pose proof keys_ok as Hk. unfold fields_ok in Hk. bool_hyps. apply own_entries_fixed; rewrite fields_keys; [done|].
  etrans; [|eassumption]. apply own_keys_keys. rewrite fields_keys, map_map. cbn [fst]. symmetry. apply map_id.
Qed.

Lemma text_again d v : let w := ordered (js_or v (JStr d)) in js_or (js_or w (JStr [])) (JStr d) = w.
Proof. cbv zeta. unfold js_or at 3 4. destruct (truthy v) eqn:E; [|by destruct d]. unfold js_or. rewrite ordered_truthy, E. by rewrite ordered_truthy, E. Qed.

Lemma clean_own m : Forall clean_state m → Forall clean_state (own_entries m).
Proof. rewrite !Forall_forall. intros H e. rewrite own_entries_perm. apply H. Qed.
Lemma states_ordered m : Forall clean_state m → ordered (JObj m) = JObj (own_entries m).
Proof.
  intros Hm. cbn [ordered]. do 2 f_equal. apply map_id_in. intros [k v] He%list_elem_of_In. rewrite Forall_forall in Hm.
  destruct (Hm _ He) as [_ (t & Ht & _)]. cbn [fst snd] in *. by rewrite Ht.
Qed.
Lemma states_again t : let m := own_entries (parseStatusMapToObject t) in parseStatusMapToObject (join [10%N] (map line_of (own_entries m))) = m.
Proof.
  cbv zeta. destruct (states_clean t) as [Hc Hn]. rewrite own_entries_idemp. apply states_roundtrip; [by apply clean_own|by apply entries_NoDup].
Qed.

Lemma set_fields g k v : k ∈ FIELDS → obj_set (of_fields g) (js k) v = of_fields (λ k', if String.eqb k' k then v else g k').
Proof.
  intros H. each_field H; unfold of_fields, FIELDS; cbn [map obj_set]; names; cbn [obj_set]; cbv [String.eqb Ascii.eqb Bool.eqb]; done.
Qed.

(** ** Settings written and read *)

Definition fits (v : jval) : Prop := v = JUndef ∨ json_fit v = true.
Definition settings_text (rest c : task_config) : jval := JStr (default [] (stringify (JObj (obj_set rest (js "async_task") (JObj c))))).

Lemma fields_defined g : (∀ k, k ∈ FIELDS → fits (g k)) → json_fit (JObj (List.filter defined (of_fields g))) = true ∧ NoDup (map fst (of_fields g)).
Proof.
  intros Hg. pose proof keys_ok as Hk. unfold fields_ok in Hk. bool_hyps. assert (Hn : NoDup (map fst (of_fields g))) by by rewrite fields_keys.
  split; [|done]. cbn [json_fit]. rewrite !andb_true_iff, bool_decide_eq_true, !forallb_forall.
  assert (He : ∀ e, List.In e (List.filter defined (of_fields g)) → ∃ k, e = (js k, g k) ∧ k ∈ FIELDS ∧ json_fit (g k) = true).
  { intros e [(k & <- & Hin%list_elem_of_In)%in_map_iff Hd]%filter_In. exists k. split_and!; [done|done|]. destruct (Hg k Hin) as [Hu|Hf]; [|done].
    unfold defined in Hd. cbn [snd] in Hd. by rewrite Hu in Hd. }
  split_and!; [|by apply filter_map_NoDup|].
  - intros e (k & -> & Hin & _)%He. cbn [fst]. rewrite forallb_forall in H. apply H, in_map, list_elem_of_In, Hin.
  - by intros e (k & -> & _ & Hf)%He.
Qed.

Lemma settings_written rest g : json_fit (JObj rest) = true → (∀ k, k ∈ FIELDS → fits (g k)) →
  let t := settings_text rest (of_fields g) in
  readAsyncTaskConfigFromSettings t = of_fields (λ k, read_member k (ordered (g k))) ∧
  ∃ o, settings_object t = Some o ∧ json_fit (JObj o) = true ∧ (∀ k, streq (js "async_task") k = false → obj_get o k = ordered (obj_get rest k)) ∧
    ∃ c, get o "async_task" = JObj c ∧ ∀ k, k ∈ FIELDS → get c k = ordered (g k).
Proof.
  intros Hr Hg. destruct (fields_defined g Hg) as [Hf Hn]. cbv zeta. set (c' := List.filter defined (of_fields g)) in *.
  assert (Ht : stringify (JObj (obj_set rest (js "async_task") (JObj (of_fields g)))) = stringify (JObj (obj_set rest (js "async_task") (JObj c')))).
  { apply stringify_set_ext. symmetry. by apply stringify_defined. }
  assert (Hfit : json_fit (JObj (obj_set rest (js "async_task") (JObj c'))) = true) by (apply fit_set; [by vm_compute|done|done]).
  destruct (parse_stringify_ordered [] _ eq_refl Hfit) as (t & Hs & Hp). unfold settings_text. rewrite Ht. unfold stringify. rewrite Hs. change (default [] (Some t)) with t.
  cbn [ordered] in Hp. set (o := own_entries _) in Hp.
  assert (Hget : ∀ k, obj_get o k = ordered (obj_get (obj_set rest (js "async_task") (JObj c')) k)).
  { intros k. apply get_ordered. cbn [json_fit] in Hr. bool_hyps. by apply obj_set_keys. }
  assert (Hso : settings_object (JStr t) = Some o). { cbn [settings_object]. rewrite (object_not_blank _ _ _ _ Hs). by rewrite Hp. }
  set (c := own_entries (map (λ e, (e.1, ordered e.2)) c')).
  assert (Ha : get o "async_task" = JObj c). { unfold get. rewrite Hget, obj_get_set, streq_refl. done. }
  assert (Hc : ∀ k, get c k = ordered (get (of_fields g) k)).
  { intros k. unfold get, c. rewrite get_ordered by by apply filter_map_NoDup. unfold c'. by rewrite get_defined. }
  split.
  - unfold readAsyncTaskConfigFromSettings. rewrite Hso, Ha. apply fields_ext. intros k Hk. by rewrite Hc, get_fields.
  - exists o. split_and!; [done| | |].
    + exact (proj2 (ordered_ok _ (fit_ordered _ Hfit))).
    + intros k Hk. by rewrite Hget, obj_get_set, Hk.
    + exists c. split; [done|]. intros k Hk. by rewrite Hc, get_fields.
Qed.

Lemma fold_fields h ks : (∀ k, k ∈ ks → k ∈ FIELDS) → ∀ g,
  fold_left (λ acc e, obj_set acc e.1 e.2) (map (λ k, (js k, h k)) ks) (of_fields g) = of_fields (λ k, if existsb (String.eqb k) ks then h k else g k).
Proof.
  induction ks as [|k ks IH]; intros Hks g; [done|]. cbn [map fold_left fst snd existsb]. rewrite set_fields by (apply Hks; by left).
  rewrite IH by (intros k' Hk'; apply Hks; by right). apply fields_ext. intros k' _. destruct (existsb (String.eqb k') ks) eqn:E; [by rewrite orb_true_r|].
  rewrite orb_false_r. by destruct (String.eqb_spec k' k) as [->|].
Qed.

(** ** A field saved and read *)

Lemma body_text v : json_fit v = true → ∃ t, stringify2 v = Some t ∧ parse t = Some (ordered v) ∧ is_empty t = false.
Proof.
  intros Hv. destruct (parse_stringify_ordered (js "  ") v) as (t & Ht & Hp); [by vm_compute|done|]. exists t. split_and!; [done|done|].
  destruct t; [|done]. assert (He : parse [] = None) by by vm_compute. by rewrite He in Hp.
Qed.

Lemma body_again v : json_fit v = true → truthy v = true →
  read_member "query_body" v = JStr (default [] (stringify2 v)) ∧ truthy (read_member "query_body" v) = true ∧
  parse_value_of (read_member "query_body" v) = Some (ordered v).
Proof.
  intros Hv Ht. destruct (body_text v Hv) as (t & Hs & Hp & Hne). unfold read_member. cbv [String.eqb Ascii.eqb Bool.eqb orb]. unfold text_if. rewrite Ht, Hs.
  change (default [] (Some t)) with t. split_and!; [done| |exact Hp]. cbn [truthy]. by rewrite Hne.
Qed.

Lemma poll_truthy v d : num_truthy (num_of_Z d) = true → truthy (number_or v d) = true.
Proof. intros Hd. unfold number_or. cbn [truthy]. by destruct (num_truthy (parseInt (String_of v))) eqn:E. Qed.

Lemma poll_ordered v d : ordered (number_or v d) = number_or v d.
Proof. done. Qed.

Lemma save_stable k v : k ∈ FIELDS → json_fit (save_member k v) = true → (k = "query_body"%string → truthy (save_member k v) = true) →
  (k = "poll_interval_sec"%string ∨ k = "max_poll_attempts"%string → save_member k (save_member k v) = save_member k v) →
  save_member k (read_member k (ordered (save_member k v))) = ordered (save_member k v).
Proof.
  intros Hk Hf Hb Hn. each_field Hk; try (fields; first [apply text_again|by destruct v as [| |[]| | | |]]).
  - specialize (Hb eq_refl). set (w := save_member _ v) in *. destruct (body_again (ordered w)) as (Hr & Ht & Hp).
    { by apply ordered_ok, fit_ordered. } { by rewrite ordered_truthy. }
    unfold save_member. cbv [String.eqb Ascii.eqb Bool.eqb orb]. rewrite Ht, Hp. cbn. by apply ordered_idemp.
  - fields. rewrite states_ordered by apply states_clean. unfold text_if. cbn [truthy entries text_value]. by rewrite states_again.
  - specialize (Hn (or_introl eq_refl)). fields. rewrite poll_ordered. unfold js_or. by rewrite poll_truthy.
  - specialize (Hn (or_intror eq_refl)). fields. rewrite poll_ordered. unfold js_or. by rewrite poll_truthy.
Qed.

(** What a box kept in the text shows again *)
Definition stored_member (k : string) (v : jval) : jval :=
  if String.eqb k "query_body" then stored_body v else if String.eqb k "status_map" then JObj (parseStatusMapToObject (text_value v)) else v.
Definition tidy (k : string) (v : jval) : Prop := k = "status_map"%string → truthy v = true → ∃ m, v = JObj m ∧ Forall clean_state m ∧ NoDup (map fst m).

Lemma storage_fields g : buildAsyncTaskStorageConfig (of_fields g) = of_fields (λ k, stored_member k (g k)).
Proof. unfold buildAsyncTaskStorageConfig. rewrite !get_fields, !set_fields by by apply elem_of_names. apply fields_ext. intros k Hk. each_field Hk; done. Qed.

Lemma or_again v d : truthy d = false → ordered d = d → js_or (ordered (js_or v d)) d = ordered (js_or v d).
Proof. intros Hd Ho. unfold js_or. destruct (truthy v) eqn:E; [by rewrite ordered_truthy, E|]. by rewrite Ho, Hd. Qed.

Lemma states_read m : Forall clean_state m → NoDup (map fst m) → read_member "status_map" (JObj m) = JStr (join [10%N] (map line_of (own_entries m))) ∧
  parseStatusMapToObject (text_value (read_member "status_map" (JObj m))) = own_entries m.
Proof.
  intros Hc Hn. fields. unfold text_if. cbn [truthy entries text_value]. split; [done|]. apply states_roundtrip; [by apply clean_own|by apply entries_NoDup].
Qed.

Lemma stored_again k v : k ∈ FIELDS → fits v → tidy k v → read_member k (ordered (stored_member k (read_member k v))) = ordered (read_member k v).
Proof.
  intros Hk Hf Ht. each_field Hk; try (unfold stored_member; fields; first [by apply or_again|by destruct v as [| |[]| | | |]]).
  - change (stored_member "query_body") with stored_body. unfold stored_body. destruct (truthy v) eqn:E; [|unfold read_member; cbv [String.eqb Ascii.eqb Bool.eqb orb]; unfold text_if; by rewrite E].
    destruct Hf as [->|Hf]; [done|]. destruct (body_again v Hf E) as (Hr & Hn & Hp). rewrite Hn, Hp. cbn [default from_option id]. rewrite ordered_idemp by done.
    destruct (body_again (ordered v)) as (Hr' & _). { by apply ordered_ok, fit_ordered. } { by rewrite ordered_truthy. }
    rewrite Hr, Hr'. cbn [ordered]. unfold stringify2. by rewrite (stringify_ordered (js "  ") [] v).
  - change (stored_member "status_map") with (λ v, JObj (parseStatusMapToObject (text_value v))). cbv beta. destruct (truthy v) eqn:E.
    + destruct (Ht eq_refl E) as (m & -> & Hc & Hn). destruct (states_read m Hc Hn) as [Hr Hs]. rewrite Hs, states_ordered by by apply clean_own.
      rewrite !own_entries_idemp. destruct (states_read (own_entries m)) as [Hr' _]; [by apply clean_own|by apply entries_NoDup|].
      rewrite Hr, Hr'. by rewrite own_entries_idemp.
    + fields. unfold text_if. rewrite E. done.
Qed.

Lemma fit_again v : json_fit v = true → json_fit (ordered v) = true.
Proof. intros H. by apply ordered_ok, fit_ordered. Qed.

Lemma stored_fits k v : k ∈ FIELDS → fits v → tidy k v → fits (stored_member k (read_member k v)).
Proof.
  intros Hk Hf Ht. each_field Hk; try (unfold stored_member; fields; destruct Hf as [->|Hf]; unfold js_or;
    first [by right|by left|by destruct (truthy v); [right|(right + left)]|right; by destruct v]).
  - change (stored_member "query_body") with stored_body. unfold stored_body. right. destruct (truthy v) eqn:E;
      [|unfold read_member; cbv [String.eqb Ascii.eqb Bool.eqb orb]; unfold text_if; by rewrite E].
    destruct Hf as [->|Hf]; [done|]. destruct (body_again v Hf E) as (_ & Hn & Hp). rewrite Hn, Hp. by apply fit_again.
  - right. change (stored_member "status_map") with (λ v, JObj (parseStatusMapToObject (text_value v))). cbv beta. destruct (truthy v) eqn:E.
    + destruct (Ht eq_refl E) as (m & -> & Hc & Hn). destruct (states_read m Hc Hn) as [_ ->]. destruct Hf as [?|Hf]; [done|].
      rewrite <- states_ordered by done. by apply fit_again.
    + fields. unfold text_if. by rewrite E.
Qed.

(** ** Editing *)

(** The stored member of a field *)
Definition member_of (raw : jval) (k : string) : jval := match get (parseSettingsObject raw) "async_task" with JObj c => get c k | _ => JUndef end.
Definition sound (raw : jval) : Prop := json_fit (JObj (parseSettingsObject raw)) = true ∧ tidy "status_map" (member_of raw "status_map").

Lemma read_members raw : readAsyncTaskConfigFromSettings raw = of_fields (λ k, read_member k (member_of raw k)).
Proof.
  assert (He : emptyAsyncTaskConfig = of_fields (λ k, read_member k JUndef)) by (apply fields_ext; intros k Hk; each_field Hk; done).
  unfold readAsyncTaskConfigFromSettings, member_of, parseSettingsObject. destruct (settings_object raw) as [o|]; [|exact He].
  change (default [] (Some o)) with o. by destruct (get o "async_task").
Qed.

Lemma get_fits o k : json_fit (JObj o) = true → fits (obj_get o k).
Proof.
  intros H. destruct (obj_has o k) eqn:E; [|left; by apply obj_absent]. right. cbn [json_fit] in H. bool_hyps. rewrite forallb_forall in H0.
  apply (H0 (k, obj_get o k)), list_elem_of_In. by apply obj_get_elem.
Qed.
Lemma member_fits raw k : sound raw → fits (member_of raw k).
Proof.
  intros [Hf _]. unfold member_of. destruct (get_fits _ (js "async_task") Hf) as [Hu|Hu]; unfold get at 1; [rewrite Hu; by left|].
  destruct (obj_get _ _); try by left. by apply get_fits.
Qed.
Lemma member_tidy raw k : sound raw → tidy k (member_of raw k).
Proof. intros [_ Ht] ->. by apply Ht. Qed.

(** Values of the boxes that are no texts of their own kind *)
Definition plain (k : string) (v : jval) : Prop :=
  if String.eqb k "enabled" || String.eqb k "sync_mode" then ∃ b, v = JBool b
  else if String.eqb k "success_statuses" then ∃ l, v = JArr (map JStr l) ∧ Forall (λ s, forallb unit_ok s = true) l
  else if String.eqb k "poll_interval_sec" || String.eqb k "max_poll_attempts" then v = JUndef ∨ ∃ n, v = JNum n ∧ num_truthy n = true ∧ num_ok n = true
  else if String.eqb k "query_body" then v = JStr [] ∨ ∃ b, json_fit b = true ∧ truthy b = true ∧ v = JStr (default [] (stringify2 b))
  else if String.eqb k "status_map" then ∃ m, Forall clean_state m ∧ NoDup (map fst m) ∧ own_entries m = m ∧ json_fit (JObj m) = true ∧ v = JStr (join [10%N] (map line_of m))
  else ∃ s, v = JStr s ∧ forallb unit_ok s = true.

Lemma poll_kept v : v = JUndef ∨ (∃ n, v = JNum n ∧ num_truthy n = true ∧ num_ok n = true) → fits v ∧ js_or (ordered v) JUndef = v ∧ ordered v = v.
Proof. intros [->|(n & -> & Hn & Ho)]; split_and!; [by left|done|done|by right| |done]. unfold js_or. cbn [ordered truthy]. by rewrite Hn. Qed.

Lemma plain_kept k v : k ∈ FIELDS → plain k v → fits (stored_member k v) ∧ read_member k (ordered (stored_member k v)) = v ∧ ordered v = v.
Proof.
  intros Hk Hp. each_field Hk; unfold plain in Hp; cbv [String.eqb Ascii.eqb Bool.eqb orb] in Hp;
    try (destruct Hp as (x & -> & Hx); unfold stored_member; fields; split_and!; [by right|by destruct x|done]).
  1,2: destruct Hp as [b ->]; split_and!; [by right|by destruct b|done].
  - destruct Hp as (l & -> & Hl). assert (Ho : ordered (JArr (map JStr l)) = JArr (map JStr l)) by (cbn [ordered]; by rewrite map_map).
    unfold stored_member. fields. rewrite Ho. split_and!; [right|done|done]. cbn [json_fit]. rewrite forallb_forall. rewrite Forall_forall in Hl.
    intros x (y & <- & Hy%list_elem_of_In)%in_map_iff. by apply Hl.
  - destruct Hp as [->|(b & Hf & Ht & ->)]; [split_and!; [by right|done|done]|]. destruct (body_again b Hf Ht) as (Hr & Hn & Hp).
    assert (Hs : stored_member "query_body" (JStr (default [] (stringify2 b))) = ordered b).
    { change (stored_member "query_body") with stored_body. unfold stored_body. rewrite <- Hr, Hn, Hp. done. }
    rewrite Hs. split_and!; [right; by apply fit_again| |done]. rewrite ordered_idemp by done.
    destruct (body_again (ordered b)) as (-> & _); [by apply fit_again|by rewrite ordered_truthy|]. unfold stringify2. by rewrite (stringify_ordered (js "  ") [] b).
  - destruct Hp as (m & Hc & Hn & Ho & Hf & ->).
    assert (Hs : stored_member "status_map" (JStr (join [10%N] (map line_of m))) = JObj m).
    { change (stored_member "status_map") with (λ v, JObj (parseStatusMapToObject (text_value v))). cbn [text_value]. by rewrite states_roundtrip. }
    rewrite Hs, states_ordered, Ho by done. split_and!; [by right| |done]. destruct (states_read m Hc Hn) as [-> _]. by rewrite Ho.
  - unfold stored_member. fields. by apply poll_kept.
  - unfold stored_member. fields. by apply poll_kept.
Qed.

Lemma change_fields key v f : key ∈ FIELDS → let g k := if String.eqb k key then v else read_member k (member_of (settings f) k) in
  handleAsyncTaskConfigChange (js key) v f = TaskForm (settings_text (parseSettingsObject (settings f)) (of_fields (λ k, stored_member k (g k)))) (of_fields g).
Proof.
  intros Hk. unfold handleAsyncTaskConfigChange, updateAsyncTaskConfigState. cbv beta zeta. rewrite read_members, set_fields by done.
  unfold settings_with. by rewrite storage_fields.
Qed.

Lemma read_again k v : k ∈ FIELDS → fits v → ordered (ordered (read_member k v)) = ordered (read_member k v).
Proof.
  intros Hk Hf. each_field Hk; fields; try done; destruct Hf as [->|Hf]; try done; unfold js_or; try (destruct (truthy v); [by apply ordered_idemp|done]).
  destruct v; try done. by apply ordered_idemp.
Qed.

(** What a box shows of a value that was written and read back *)
Definition shown_again (k : string) (v : jval) : jval := ordered (read_member k (ordered (stored_member k v))).

Lemma change_kept key v f : key ∈ FIELDS → sound (settings f) → fits (stored_member key v) → let f' := handleAsyncTaskConfigChange (js key) v f in
  sound (settings f') ∧
  (∀ k, k ∈ FIELDS → ordered (get (readAsyncTaskConfigFromSettings (settings f')) k) =
    if String.eqb k key then shown_again key v else ordered (get (readAsyncTaskConfigFromSettings (settings f)) k)) ∧
  (∀ k, streq (js "async_task") k = false → obj_get (parseSettingsObject (settings f')) k = ordered (obj_get (parseSettingsObject (settings f)) k)).
Proof.
  intros Hk Hs Hp. cbv zeta. rewrite change_fields by done. cbn [settings]. set (g := λ k, if String.eqb k key then v else read_member k (member_of (settings f) k)).
  assert (Hg : ∀ k, k ∈ FIELDS → fits (stored_member k (g k))).
  { intros k Hk'. unfold g. destruct (String.eqb_spec k key) as [->|]; [done|].
    apply stored_fits; [done|by apply member_fits|by apply member_tidy]. }
  destruct (settings_written _ _ (proj1 Hs) Hg) as (Hr & o & Hso & Hfo & Hrest & c & Ha & Hc). set (t := settings_text _ _) in *.
  assert (Hps : parseSettingsObject t = o) by (unfold parseSettingsObject; by rewrite Hso). split_and!.
  - split; [by rewrite Hps|]. unfold member_of. rewrite Hps, Ha, Hc by by apply elem_of_names. intros _ _.
    destruct (states_clean (text_value (g "status_map"%string))) as [H1 H2].
    change (stored_member "status_map") with (λ v, JObj (parseStatusMapToObject (text_value v))). cbv beta. rewrite states_ordered by done.
    eexists. split_and!; [done|by apply clean_own|by apply entries_NoDup].
  - intros k Hk'. rewrite Hr, read_members, !get_fields by done. unfold g. destruct (String.eqb_spec k key) as [->|].
    + done.
    + rewrite stored_again by first [done|by apply member_fits|by apply member_tidy]. by apply read_again, member_fits.
  - intros k Hk'. rewrite Hps. by apply Hrest.
Qed.

(** ** Sequences of changes *)

Definition run_edits (edits : list (string * jval)) (raw : jval) : task_form :=
  fold_left (λ f e, handleAsyncTaskConfigChange (js e.1) e.2 f) edits (show_settings raw).
(** What a box holds after the changes *)
Definition box_after (edits : list (string * jval)) (k : string) (v : jval) : jval :=
  fold_left (λ cur e, if String.eqb k e.1 then shown_again k e.2 else cur) edits v.
(** A value that JSON can hold *)
Definition storable_edit (e : string * jval) : Prop := e.1 ∈ FIELDS ∧ fits (stored_member e.1 e.2).
Definition plain_edit (e : string * jval) : Prop := e.1 ∈ FIELDS ∧ plain e.1 e.2.

(** C23. Boxes refine a map.  Let the stored settings be JSON whose map of states,
    if there is one, is an object of texts as the box writes it, and let any boxes be
    given any values that JSON can hold, in any order.  Then each box, as read back
    from the text of the settings, holds what was last written in it, as the box shows
    that value again: a request body that is JSON is laid out anew and any other text
    comes back as a quoted JSON string, lines that are no states are dropped from the map of states, and
    a finished value - a switch, a text, a list of texts, a number other than zero, a
    body or a map as the box itself writes them - is unchanged.  A box nothing was
    written in holds what it held, and the other settings are what they were. *)
Theorem boxes_refined raw edits : sound raw → Forall storable_edit edits → let f := run_edits edits raw in
  (∀ k, k ∈ FIELDS → ordered (get (readAsyncTaskConfigFromSettings (settings f)) k) = box_after edits k (ordered (get (readAsyncTaskConfigFromSettings raw) k))) ∧
  (∀ k, streq (js "async_task") k = false → ordered (obj_get (parseSettingsObject (settings f)) k) = ordered (obj_get (parseSettingsObject raw) k)) ∧
  ∀ e, plain_edit e → storable_edit e ∧ shown_again e.1 e.2 = e.2.
Proof.
  intros Hs He. cbv zeta. apply and_assoc. split.
  2: { intros [k v] [Hk Hp]. cbn [fst snd] in *. destruct (plain_kept k v Hk Hp) as (Hf & Hr & Ho). split; [done|]. unfold shown_again. by rewrite Hr. }
  unfold run_edits. change raw with (settings (show_settings raw)) in Hs. change raw with (settings (show_settings raw)) at 2 4.
  revert Hs. generalize (show_settings raw). induction He as [|[key v] edits [Hk Hp] He IH]; intros f Hs; cbn [fold_left fst snd] in *; [done|].
  destruct (change_kept key v f Hk Hs Hp) as (Hs' & Hb & Hr). destruct (IH _ Hs') as [H1 H2]. split.
  - intros k Hk'. rewrite H1, Hb by done. unfold box_after. cbn [fold_left fst snd]. by destruct (String.eqb_spec k key) as [->|].
  - intros k Hk'. rewrite H2, Hr by done. destruct (get_fits _ k (proj1 Hs)) as [->|Hf]; [done|by apply ordered_idemp].
Qed.

(** ** Saving again *)

Lemma body_saved v : fits v → truthy (save_member "query_body" (read_member "query_body" v)) = true.
Proof.
  intros Hf. unfold save_member. cbv [String.eqb Ascii.eqb Bool.eqb orb]. destruct (truthy v) eqn:E.
  - destruct Hf as [->|Hf]; [done|]. destruct (body_again v Hf E) as (_ & -> & ->). change (truthy (ordered v) = true). by rewrite ordered_truthy.
  - unfold read_member. cbv [String.eqb Ascii.eqb Bool.eqb orb]. unfold text_if. by rewrite E.
Qed.

(** What a save writes in a field *)
Definition saved_field (raw : jval) (k : string) : jval := save_member k (get (readAsyncTaskConfigFromSettings raw) k).
Definition numbers_kept (raw : jval) : Prop :=
  ∀ k, k = "poll_interval_sec"%string ∨ k = "max_poll_attempts"%string → save_member k (saved_field raw k) = saved_field raw k.
Definition savable (raw : jval) : Prop := ∀ k, k ∈ FIELDS → json_fit (saved_field raw k) = true.

Lemma fields_fit f : (∀ k, k ∈ FIELDS → json_fit (f k) = true) → json_fit (JObj (of_fields f)) = true.
Proof.
  intros Hf. pose proof keys_ok as Hk. unfold fields_ok in Hk. bool_hyps. cbn [json_fit]. rewrite fields_keys.
  rewrite !andb_true_iff, bool_decide_eq_true, !forallb_forall. split_and!; [|done|].
  - intros e (k & <- & Hin)%in_map_iff. cbn [fst]. rewrite forallb_forall in H. by apply H, in_map.
  - intros e (k & <- & Hin%list_elem_of_In)%in_map_iff. by apply Hf.
Qed.
Lemma fields_text f g : (∀ k, k ∈ FIELDS → json_fit (f k) = true) → (∀ k, k ∈ FIELDS → g k = ordered (f k)) →
  ∀ gap ind, stringify_at gap ind (JObj (of_fields g)) = stringify_at gap ind (JObj (of_fields f)).
Proof.
  intros Hf Hg gap ind. rewrite (fields_ext g _ Hg), <- fields_ordered. by apply stringify_ordered, fields_fit.
Qed.


Theorem config_save_settles raw rest : sound raw → savable raw → numbers_kept raw → json_fit (JObj rest) = true →
  let saved := buildAsyncTaskSaveConfig (readAsyncTaskConfigFromSettings raw) in
  let next := settings_text rest saved in
  stringify (JObj (buildAsyncTaskSaveConfig (readAsyncTaskConfigFromSettings next))) = stringify (JObj saved).
Proof.
  intros Hs Hf Hn Hr. cbv zeta. unfold buildAsyncTaskSaveConfig. change (λ k, save_member k (get (readAsyncTaskConfigFromSettings raw) k)) with (saved_field raw).
  destruct (settings_written rest (saved_field raw) Hr) as [-> _]; [intros k Hk; right; by apply Hf|]. apply fields_text; [done|].
  intros k Hk. rewrite get_fields by done. unfold saved_field in *. apply save_stable; [done|by apply Hf| |intros Hp; by apply Hn].
  intros ->. rewrite read_members, get_fields by done. by apply body_saved, member_fits.
Qed.

(** ** Copying and importing *)

Section Importing.
Context (lower upper : jsstr → jsstr) (type_error : jsstr).

(** Saved fields an import takes as they are *)
Definition importable (k : string) (w : jval) : Prop :=
  if String.eqb k "enabled" || String.eqb k "sync_mode" || String.eqb k "status_map" then True
  else if String.eqb k "success_statuses" then ∃ l, w = JArr (map JStr l) ∧ Forall (λ s, s ≠ []) l
  else if String.eqb k "query_body" then ∃ o, w = JObj o
  else if String.eqb k "poll_interval_sec" || String.eqb k "max_poll_attempts" then JNum (parseInt10 (String_of w)) = w ∧ save_member k w = w
  else if String.eqb k "query_method" then ∃ s, w = JStr s ∧ upper s = s
  else ∃ s, w = JStr s.

Lemma text_imported d v s : js_or v (JStr d) = JStr s → js_or (JStr s) (JStr d) = JStr s.
Proof. intros H. unfold js_or in *. destruct (truthy v) eqn:E; [rewrite H in E; by rewrite E|]. injection H as <-. by destruct (truthy (JStr d)). Qed.

Lemma poll_imported d v : num_truthy (num_of_Z d) = true → json_fit (number_or v d) = true → JNum (parseInt10 (String_of (number_or v d))) = number_or v d →
  let h := let n := parseInt10 (String_of (number_or v d)) in if isFinite n then JNum n else JUndef in
  h = number_or v d ∧ ∃ n, h = JNum n ∧ num_truthy n = true ∧ num_ok n = true.
Proof.
  intros Hd Hf Hp. pose proof (poll_truthy v d Hd) as Ht. cbv zeta. destruct (number_or v d) as [| | |n| | |] eqn:E; try done. injection Hp as Hp. change (String_of (JNum n)) with (String_of_num n). rewrite Hp.
  cbn [json_fit truthy] in *. assert (isFinite n = true) as -> by (unfold num_ok in Hf; by bool_hyps). split; [done|]. by exists n.
Qed.

Lemma body_imported v : let w := save_member "query_body" v in json_fit w = true → (∃ o, w = JObj o) →
  let h := imported_member upper "query_body" (ordered w) in plain "query_body" h ∧ save_member "query_body" h = ordered w.
Proof.
  cbv zeta. set (w := save_member _ v). intros Hf [o Ho]. assert (Ht : truthy (ordered w) = true) by by rewrite Ho.
  assert (Hh : imported_member upper "query_body" (ordered w) = JStr (default [] (stringify2 (ordered w)))) by by rewrite Ho. rewrite Hh.
  assert (Hf' : json_fit (ordered w) = true) by by apply fit_again. split; [right; by exists (ordered w)|].
  destruct (body_again (ordered w) Hf' Ht) as (Hr & Hn & Hp). rewrite <- Hr. unfold save_member. cbv [String.eqb Ascii.eqb Bool.eqb orb]. rewrite Hn, Hp.
  by apply ordered_idemp.
Qed.

Lemma states_imported v : let w := save_member "status_map" v in json_fit w = true →
  let h := imported_member upper "status_map" (ordered w) in plain "status_map" h ∧ save_member "status_map" h = ordered w.
Proof.
  cbv zeta. change (save_member "status_map") with (λ v, JObj (parseStatusMapToObject (text_value v))). cbv beta. intros Hf.
  destruct (states_clean (text_value v)) as [Hc Hn]. set (m := parseStatusMapToObject (text_value v)) in *. apply fit_again in Hf.
  rewrite states_ordered in * by done. assert (Hh : imported_member upper "status_map" (JObj (own_entries m)) = JStr (join [10%N] (map line_of (own_entries m)))).
  { fields. unfold parseStatusMapToString. cbn [truthy typeof_object andb entries]. by rewrite own_entries_idemp. }
  rewrite Hh. split; [exists (own_entries m); split_and!; [by apply clean_own|by apply entries_NoDup|apply own_entries_idemp|done|done]|].
  cbn [text_value]. rewrite states_roundtrip; [done|by apply clean_own|by apply entries_NoDup].
Qed.

Lemma statuses_imported v : let w := save_member "success_statuses" v in json_fit w = true →
  (∃ l, w = JArr (map JStr l) ∧ Forall (λ s, s ≠ []) l) →
  let h := imported_member upper "success_statuses" (ordered w) in plain "success_statuses" h ∧ save_member "success_statuses" h = ordered w.
Proof.
  cbv zeta. intros Hf (l & Hw & Hl). rewrite Hw in *. assert (Ho : ordered (JArr (map JStr l)) = JArr (map JStr l)) by (cbn [ordered]; by rewrite map_map).
  rewrite Ho. assert (Hh : imported_member upper "success_statuses" (JArr (map JStr l)) = JArr (map JStr l)).
  { fields. do 2 f_equal. rewrite map_map. change (map (λ x, String_of (JStr x)) l) with (map id l). rewrite map_id. by apply filter_truthy_id. }
  rewrite Hh. split; [|done]. exists l. split; [done|]. cbn [json_fit] in Hf. rewrite forallb_forall in Hf. apply Forall_forall. intros s Hs.
  apply (Hf (JStr s)), in_map. by apply list_elem_of_In.
Qed.

Lemma imported_again k v : k ∈ FIELDS → let w := save_member k v in json_fit w = true → importable k w →
  let h := imported_member upper k (ordered w) in plain k h ∧ save_member k h = ordered w.
Proof.
  intros Hk. cbv zeta. intros Hf Hi. each_field Hk; unfold importable in Hi; cbv [String.eqb Ascii.eqb Bool.eqb orb] in Hi.
  all: lazymatch type of Hi with True => idtac | _ =>
    try (destruct Hi as [s Hs]; rewrite Hs in *; unfold plain; fields; cbn [ordered is_nullish String_of]; split; [by exists s|by eapply text_imported]) end.
  1,2: unfold plain; fields; cbn [ordered]; split; [by eexists|by destruct v as [| |[]| | | |]].
  - by apply statuses_imported.
  - destruct Hi as (s & Hs & Hu). rewrite Hs in *. unfold plain. fields. cbn [ordered].
    assert (Ht : js_or (JStr s) (JStr []) = JStr s) by by destruct s. rewrite Ht. cbn [String_of]. rewrite Hu. split; [by exists s|by eapply text_imported].
  - by apply body_imported.
  - by apply states_imported.
  - destruct Hi as [H1 H2]. unfold plain. fields. rewrite poll_ordered. destruct (poll_imported 5 v eq_refl Hf H1) as [Hh Hn]. split; [by right|]. etrans; [exact (f_equal (λ x, number_or x 5) Hh)|exact H2].
  - destruct Hi as [H1 H2]. unfold plain. fields. rewrite poll_ordered. destruct (poll_imported 120 v eq_refl Hf H1) as [Hh Hn]. split; [by right|]. etrans; [exact (f_equal (λ x, number_or x 120) Hh)|exact H2].
Qed.

Lemma copied_parses f : savable (settings f) → ∃ o, parse (copyAsyncTaskConfigJson f) = Some (JObj o) ∧ o = of_fields (λ k, ordered (saved_field (settings f) k)).
Proof.
  intros Hs. unfold copyAsyncTaskConfigJson, buildAsyncTaskSaveConfig. change (λ k, save_member k _) with (saved_field (settings f)).
  destruct (parse_stringify_ordered (js "  ") (JObj (of_fields (saved_field (settings f))))) as (t & Ht & Hp); [by vm_compute|by apply fields_fit|].
  unfold stringify2. rewrite Ht. change (default [] (Some t)) with t. rewrite fields_ordered in Hp. by eexists.
Qed.

Lemma has_fields g k : k ∈ FIELDS → obj_has (of_fields g) (js k) = true.
Proof. intros Hk. apply obj_has_In. rewrite fields_keys. apply list_elem_of_fmap. by exists k. Qed.

Lemma imported_listed k : k ∈ IMPORTED_FIELDS → k ∈ FIELDS.
Proof.
  intros Hk. apply elem_of_names. assert (H : forallb (λ k, existsb (String.eqb k) FIELDS) IMPORTED_FIELDS = true) by by vm_compute.
  rewrite forallb_forall in H. by apply H, list_elem_of_In.
Qed.
Lemma listed_imported k : k ∈ FIELDS → existsb (String.eqb k) IMPORTED_FIELDS = true.
Proof.
  intros Hk. assert (H : forallb (λ k, existsb (String.eqb k) IMPORTED_FIELDS) FIELDS = true) by by vm_compute.
  rewrite forallb_forall in H. by apply H, list_elem_of_In.
Qed.

Lemma normalized g : getImportedAsyncTaskConfigObject (of_fields g) = Some (of_fields g) ∧
  normalizeImportedAsyncTaskConfig upper (of_fields g) = map (λ k, (js k, imported_member upper k (g k))) IMPORTED_FIELDS.
Proof.
  split.
  - unfold getImportedAsyncTaskConfigObject. assert (Ha : get (of_fields g) "async_task" = JUndef).
    { apply obj_absent, not_true_iff_false. rewrite obj_has_In, fields_keys. intros Hin%existsb_streq. revert Hin. by vm_compute. }
    rewrite Ha. assert (He : existsb (obj_has (of_fields g)) asyncTaskImportSignatureKeys = true).
    { apply existsb_exists. exists (js "task_id_path"). split; [apply list_elem_of_In, existsb_streq; by vm_compute|by apply has_fields, elem_of_names]. }
    by rewrite He.
  - unfold normalizeImportedAsyncTaskConfig. assert (Hl : List.filter (λ k, obj_has (of_fields g) (js k)) IMPORTED_FIELDS = IMPORTED_FIELDS).
    { apply List.forallb_filter_id. rewrite forallb_forall. intros k Hk. by apply has_fields, imported_listed, list_elem_of_In. }
    rewrite Hl. apply map_ext_in. intros k Hk%list_elem_of_In%imported_listed. by rewrite get_fields.
Qed.

(** C24. Copy and import.  Let the settings of two channels be JSON whose map of
    states, if there is one, is as the box writes it, and let the configuration saved
    for the first be one that JSON can hold, with a method in capitals, an object for a
    body, statuses that are texts and not empty, decimal integers for the two numbers of
    polling, and texts for the paths and the type.  Copied, pasted in the import dialog
    of the second channel, analysed and applied, it is saved as the text it was copied
    from, and the dialog is closed. *)
Theorem copied_config_imports f f2 : sound (settings f) → savable (settings f) → (∀ k, k ∈ FIELDS → importable k (saved_field (settings f) k)) → sound (settings f2) →
  ∀ d, let '(d', f') := handleApplyImportPreview (handleParseImportJson lower upper type_error (type_json (copyAsyncTaskConfigJson f) d)) f2 in
    d' = handleCloseImportModal ∧
    stringify (JObj (buildAsyncTaskSaveConfig (readAsyncTaskConfigFromSettings (settings f')))) =
    stringify (JObj (buildAsyncTaskSaveConfig (readAsyncTaskConfigFromSettings (settings f)))).
Proof.
  intros Hs Hf Hi Hs2. destruct (copied_parses f Hf) as (o & Hp & ->). set (w := saved_field (settings f)) in *.
  set (h := λ k, imported_member upper k (ordered (w k))). destruct (normalized (λ k, ordered (w k))) as [Hg Hm].
  assert (Hh : ∀ k, k ∈ FIELDS → plain k (h k) ∧ save_member k (h k) = ordered (w k)) by (intros k Hk; by apply imported_again; [|apply Hf|apply Hi]).
  intros d. unfold handleParseImportJson. cbn [type_json importJsonText]. unfold analyzeAsyncTaskJson. rewrite Hp, Hg, Hm.
  unfold handleApplyImportPreview. cbn [importPreview]. split; [done|]. unfold updateAsyncTaskConfigState. cbn [settings].
  rewrite (read_members (settings f2)), fold_fields by apply imported_listed.
  rewrite (fields_ext _ h) by (intros k Hk; by rewrite listed_imported). unfold settings_with. rewrite storage_fields.
  destruct (settings_written (parseSettingsObject (settings f2)) (λ k, stored_member k (h k)) (proj1 Hs2)) as [Hr _].
  { intros k Hk. by apply plain_kept, Hh. }
  unfold settings_text in Hr. rewrite Hr. unfold buildAsyncTaskSaveConfig. apply fields_text; [done|]. intros k Hk. rewrite get_fields by done.
  destruct (Hh k Hk) as [Hpl Hsv]. destruct (plain_kept k (h k) Hk Hpl) as (_ & -> & _). exact Hsv.
Qed.
End Importing.

(** ** Texts that end up as something else *)

Lemma written_field key v f k : key ∈ FIELDS → k ∈ FIELDS → sound (settings f) → fits (stored_member key v) →
  get (readAsyncTaskConfigFromSettings (settings (handleAsyncTaskConfigChange (js key) v f))) k =
  read_member k (ordered (stored_member k (if String.eqb k key then v else read_member k (member_of (settings f) k)))).
Proof.
  intros Hkey Hk Hs Hv. rewrite change_fields by done. cbn [settings].
  destruct (settings_written (parseSettingsObject (settings f)) (λ k, stored_member k (if String.eqb k key then v else read_member k (member_of (settings f) k))) (proj1 Hs)) as [-> _].
  - intros k' Hk'. destruct (String.eqb_spec k' key) as [->|]; [done|]. apply stored_fits; [done|by apply member_fits|by apply member_tidy].
  - by rewrite get_fields.
Qed.

(** A body that is not JSON is saved as a text, where the fallback of the save is
    an empty object. *)
Theorem broken_body_saved f s : sound (settings f) → forallb unit_ok s = true → is_empty s = false → parse s = None →
  saved_field (settings (handleAsyncTaskConfigChange (js "query_body") (JStr s) f)) "query_body" = JStr s ∧
  save_member "query_body" (JStr s) = JObj [].
Proof.
  intros Hs Hu He Hp. assert (Hst : stored_member "query_body" (JStr s) = JStr s).
  { change (stored_member "query_body") with stored_body. unfold stored_body, parse_value_of. cbn [truthy String_of]. by rewrite He, Hp. }
  split.
  - unfold saved_field. rewrite written_field; [|by apply elem_of_names|by apply elem_of_names|done|rewrite Hst; by right]. cbn [String.eqb Ascii.eqb Bool.eqb].
    change (if ("query_body" =? "query_body")%string then JStr s else read_member "query_body" (member_of (settings f) "query_body")) with (JStr s).
    rewrite Hst. cbn [ordered]. destruct (body_again (JStr s)) as (_ & Hn & Hq); [done|cbn [truthy]; by rewrite He|].
    unfold save_member. cbv [String.eqb Ascii.eqb Bool.eqb orb]. by rewrite Hn, Hq.
  - fields. unfold parse_value_of. cbn [truthy String_of]. by rewrite He, Hp.
Qed.

Lemma split_go_elem sep s : ∀ skip acc p x, p ∈ split_go sep skip acc s → x ∈ p → x ∈ acc ∨ x ∈ s.
Proof.
  assert (Hrev : ∀ (a : jsstr) x, x ∈ rev a → x ∈ a) by (intros a x; by rewrite !list_elem_of_In, <- in_rev).
  induction s as [|c s IH]; intros skip acc p x; cbn [split_go].
  - rewrite list_elem_of_singleton. intros -> Hx. left. by apply Hrev.
  - destruct skip as [|n]; [destruct (starts_with sep (c :: s))|].
    + intros [->|Hp]%elem_of_cons Hx; [left; by apply Hrev|]. destruct (IH _ _ _ _ Hp Hx) as [?%elem_of_nil|?]; [done|right; by right].
    + intros Hp Hx. destruct (IH _ _ _ _ Hp Hx) as [[->|?]%elem_of_cons|?]; [right; by left|by left|right; by right].
    + intros Hp Hx. destruct (IH _ _ _ _ Hp Hx) as [?|?]; [by left|right; by right].
Qed.

Lemma states_without_arrow s : ARROW ∉ s → parseStatusMapToObject s = [].
Proof.
  intros Ha. unfold parseStatusMapToObject. assert (Ho : omap status_line (split [10%N] s) = []); [|by rewrite Ho].
  assert (Hl : ∀ l, l ∈ split [10%N] s → ARROW ∉ l).
  { intros l Hl Hc. destruct (split_go_elem _ _ _ _ _ _ Hl Hc) as [?%elem_of_nil|?]; done. }
  induction (split [10%N] s) as [|l ls IH]; [done|]. cbn [omap list_omap]. rewrite IH by (intros l' Hl'; apply Hl; by right).
  unfold status_line. destruct (split_first ARROW (trim l)) as [[a b]|] eqn:E; [|done]. apply split_first_parts in E as [E _]. exfalso.
  apply (Hl l); [by left|]. apply trim_elem. rewrite E, elem_of_app. right. by left.
Qed.

(** A line of states that has no arrow yet is gone once another box changes. *)
Theorem unfinished_state_dropped f s : sound (settings f) → ARROW ∉ s →
  get (readAsyncTaskConfigFromSettings (settings (handleAsyncTaskConfigChange (js "status_map") (JStr s) f))) "status_map" = JStr [].
Proof.
  intros Hs Ha. assert (Hst : stored_member "status_map" (JStr s) = JObj []).
  { change (stored_member "status_map") with (λ v, JObj (parseStatusMapToObject (text_value v))). cbn [text_value]. by rewrite states_without_arrow. }
  rewrite written_field; [|by apply elem_of_names|by apply elem_of_names|done|rewrite Hst; by right].
  change (if ("status_map" =? "status_map")%string then JStr s else read_member "status_map" (member_of (settings f) "status_map")) with (JStr s).
  by rewrite Hst.
Qed.

(** ** Examples *)

Definition sample_settings : jval :=
  JStr (jsq "{'vertex_key_type':'json','async_task':{'enabled':true,'status_path':'data.state','query_method':'GET','query_body':{'id':'${task_id}'},'status_map':{'RUNNING':'running','DONE':'succeeded'},'success_statuses':['RUNNING'],'poll_interval_sec':10}}").

Definition clean_stateb (e : jsstr * jval) : bool :=
  match e.2 with
  | JStr v => streq (trim e.1) e.1 && negb (is_empty e.1) && negb (existsb (N.eqb ARROW) e.1) && negb (existsb (N.eqb 10) e.1) &&
              negb (streq e.1 (js "__proto__")) && streq (trim v) v && negb (existsb (N.eqb 10) v)
  | _ => false
  end.
Lemma clean_stateb_ok e : clean_stateb e = true → clean_state e.
Proof.
  assert (Hin : ∀ (c : N) (l : jsstr), existsb (N.eqb c) l = false → c ∉ l).
  { intros c l H Hc. apply not_true_iff_false in H. apply H, existsb_exists. exists c. split; [by apply list_elem_of_In|apply N.eqb_refl]. }
  destruct e as [k v]. unfold clean_stateb. cbn [fst snd]. destruct v as [| | | |v| |]; try done. intros H. bool_hyps. split; [split_and!; cbn [fst]|].
  - by apply streq_true.
  - by destruct k.
  - by apply Hin.
  - by apply Hin.
  - done.
  - exists v. split_and!; [done|]. split; [by apply streq_true|by apply Hin].
Qed.

Definition soundb (raw : jval) : bool :=
  json_fit (JObj (parseSettingsObject raw)) && match member_of raw "status_map" with JObj m => forallb clean_stateb m && bool_decide (NoDup (map fst m)) | v => negb (truthy v) end.
Lemma soundb_ok raw : soundb raw = true → sound raw.
Proof.
  unfold soundb. intros [H1 H2]%andb_true_iff. split; [done|]. intros _ Ht. destruct (member_of raw "status_map") as [| | | | | |m]; try by rewrite Ht in H2.
  apply andb_true_iff in H2 as [H2 H3]. exists m. split_and!; [done| |by apply bool_decide_eq_true in H3]. rewrite forallb_forall in H2. apply Forall_forall.
  intros e He. by apply clean_stateb_ok, H2, list_elem_of_In.
Qed.

Definition sample_edits : list (string * jval) :=
  [("task_id_path", JStr (js "data.id")); ("enabled", JBool false); ("max_poll_attempts", JNum (num_of_Z 60)); ("query_body", JStr (jsq "{'a': [1"));
   ("status_map", JStr (js " OK →succeeded" ++ [10%N] ++ js "FAIL")); ("enabled", JBool true)]%string.

Lemma boxes_refined_witness :
  let f := run_edits sample_edits sample_settings in
  ordered (get (readAsyncTaskConfigFromSettings (settings f)) "enabled") = JBool true ∧
  ordered (get (readAsyncTaskConfigFromSettings (settings f)) "status_map") = JStr (js "OK→succeeded") ∧
  ordered (obj_get (parseSettingsObject (settings f)) (js "vertex_key_type")) = JStr (js "json") ∧
  shown_again "max_poll_attempts" (JNum (num_of_Z 60)) = JNum (num_of_Z 60).
Proof.
  cbv zeta. edestruct (boxes_refined sample_settings sample_edits) as (H1 & H2 & H3).
  - apply soundb_ok. by vm_compute.
  - repeat (apply Forall_cons; split; [split; [apply elem_of_names; by vm_compute|right; by vm_compute]|]). constructor.
  - split_and!.
    + rewrite H1 by (apply elem_of_names; by vm_compute). by vm_compute.
    + rewrite H1 by (apply elem_of_names; by vm_compute). by vm_compute.
    + rewrite H2; by vm_compute.
    + apply (H3 ("max_poll_attempts"%string, JNum (num_of_Z 60))). split; [apply elem_of_names; by vm_compute|].
      right. exists (num_of_Z 60). split_and!; [done|by vm_compute|by vm_compute].
Defined.

Definition savableb (raw : jval) : bool := forallb (λ k, json_fit (saved_field raw k)) FIELDS.
Lemma savableb_ok raw : savableb raw = true → savable raw.
Proof. unfold savableb. rewrite forallb_forall. intros H k Hk. by apply H, list_elem_of_In. Qed.

Lemma config_save_settles_witness :
  let saved := buildAsyncTaskSaveConfig (readAsyncTaskConfigFromSettings sample_settings) in
  stringify (JObj (buildAsyncTaskSaveConfig (readAsyncTaskConfigFromSettings (settings_text [] saved)))) = stringify (JObj saved).
Proof.
  apply (config_save_settles sample_settings []); [apply soundb_ok; by vm_compute|apply savableb_ok; by vm_compute| |done].
  intros k [->| ->]; by vm_compute.
Defined.

Lemma copied_config_imports_witness :
  let f := show_settings sample_settings in
  let '(d', f') := handleApplyImportPreview (handleParseImportJson id id [] (type_json (copyAsyncTaskConfigJson f) handleCloseImportModal)) (show_settings (JStr [])) in
  d' = handleCloseImportModal ∧
  stringify (JObj (buildAsyncTaskSaveConfig (readAsyncTaskConfigFromSettings (settings f')))) =
  stringify (JObj (buildAsyncTaskSaveConfig (readAsyncTaskConfigFromSettings sample_settings))).
Proof.
  apply (copied_config_imports id id [] (show_settings sample_settings) (show_settings (JStr []))); [apply soundb_ok; by vm_compute|apply savableb_ok; by vm_compute| |apply soundb_ok; by vm_compute].
  intros k Hk. each_field Hk; unfold importable; cbv [String.eqb Ascii.eqb Bool.eqb orb]; try done; try (eexists; vm_compute; reflexivity).
  - exists [js "RUNNING"]. split; [by vm_compute|]. by repeat constructor.
  - eexists. split; [vm_compute; reflexivity|done].
Defined.

Lemma broken_body_saved_witness :
  saved_field (settings (handleAsyncTaskConfigChange (js "query_body") (JStr (js "{")) (show_settings sample_settings))) "query_body" = JStr (js "{") ∧
  save_member "query_body" (JStr (js "{")) = JObj [].
Proof. apply (broken_body_saved (show_settings sample_settings) (js "{")); [apply soundb_ok|..]; by vm_compute. Defined.

(** A save without any configuration writes the page's own defaults, the method of a
    query among them, so that no default of the server applies. *)
Theorem default_method_saved : saved_field (JStr []) "query_method" = JStr (js "POST") ∧ saved_field (JStr []) "query_body" = JObj [] ∧
  saved_field (JStr []) "status_map" = JObj [] ∧ saved_field (JStr []) "success_statuses" = JArr [].
Proof. by vm_compute. Qed.
