(* ===== verification/AsyncTaskSample.v ===== *)
(** * Asynchronous tasks: what is guessed from a sample

    The paths guessed from a sample answer lead to the values they were found at,
    and the states are states of the sample.  And the names that are not found. *)

From S2P Require Import Prelude JsString JsNumber Json JsObject JsOrder AsyncTask.

Local Opaque js.

(** ** A sample answer *)

(** Every object of the sample has its keys once, none of them empty or with a dot. *)
Fixpoint dotless (v : jval) : bool :=
  match v with
  | JObj o => bool_decide (NoDup (map fst o)) && forallb (λ e, negb (is_empty e.1) && negb (existsb (N.eqb 46) e.1)) o && forallb (λ e, dotless e.2) o
  | _ => true
  end.
Definition key_ok (k : jsstr) : Prop := k ≠ [] ∧ 46%N ∉ k.
(** The value a path leads to *)
Definition resolve (data : jval) (path : jsstr) : jval := fold_left member (split (js ".") path) data.
Definition leads (data : jval) (prefix path : jsstr) (v : jval) : Prop :=
  ∃ ks, ks ≠ [] ∧ Forall key_ok ks ∧ path = fold_left path_to ks prefix ∧ fold_left member ks data = v.

Lemma dotless_entry o e : dotless (JObj o) = true → e ∈ o → key_ok e.1 ∧ dotless e.2 = true ∧ member (JObj o) e.1 = e.2.
Proof.
  cbn [dotless]. intros H He. bool_hyps. rewrite forallb_forall in *. pose proof (proj1 (list_elem_of_In _ _) He) as Hin. specialize (H1 _ Hin). bool_hyps. split_and!.
  - split; [by destruct (e.1)|]. intros Hd. apply not_true_iff_false in H2. apply H2, existsb_exists. exists 46%N. by rewrite <- list_elem_of_In.
  - by apply H0.
  - cbn [member]. destruct e as [k v]. cbn [fst snd]. rewrite (obj_get_In o k v) by done.
    assert (obj_has o k = true) as -> by (apply obj_has_In, list_elem_of_fmap; by exists (k, v)). done.
Qed.

Lemma leads_one o prefix e : dotless (JObj o) = true → e ∈ o → leads (JObj o) prefix (path_to prefix e.1) e.2.
Proof. intros Hd He. destruct (dotless_entry o e Hd He) as (Hk & _ & Hm). exists [e.1]. split_and!; [done|by constructor|done|exact Hm]. Qed.
Lemma leads_in o prefix e path v : dotless (JObj o) = true → e ∈ o → leads e.2 (path_to prefix e.1) path v → leads (JObj o) prefix path v.
Proof.
  intros Hd He (ks & Hne & Hks & -> & <-). destruct (dotless_entry o e Hd He) as (Hk & _ & Hm). exists (e.1 :: ks).
  split_and!; [done|by constructor|done|]. cbn [fold_left]. by rewrite Hm.
Qed.

Lemma visit_leads data : dotless data = true → ∀ prefix path v, (path, v) ∈ visit prefix data → leads data prefix path v.
Proof.
  induction data as [| |b|x|s|l IH|o IH] using jval_deep_ind; intros Hd prefix path v; cbn [visit]; try by intros ?%elem_of_nil.
  rewrite list_elem_of_In, in_flat_map. intros (e & He%list_elem_of_In & Hin). rewrite Forall_forall in IH.
  destruct Hin as [[= <- <-]|Hin%list_elem_of_In]; [by apply leads_one|]. eapply leads_in; [done|exact He|].
  apply IH; [done|by apply (dotless_entry o e)|done].
Qed.

Lemma path_joined ks : ∀ prefix, prefix ≠ [] → fold_left path_to ks prefix = join (js ".") (prefix :: ks).
Proof.
  induction ks as [|k ks IH]; intros prefix Hp; [done|]. cbn [fold_left]. rewrite join_cons. unfold path_to at 2. destruct prefix as [|c p]; [done|].
  cbn [is_empty]. rewrite IH by done. destruct ks as [|k' ks]; [done|]. rewrite !join_cons. by rewrite <- !app_assoc.
Qed.

Lemma leads_resolve data path v : leads data [] path v → resolve data path = v ∧ path ≠ [].
Proof.
  intros (ks & Hne & Hks & -> & <-). destruct ks as [|k ks]; [done|]. cbn [fold_left]. pose proof Hks as [[Hk _] _]%Forall_cons.
  change (path_to [] k) with k. rewrite path_joined by done. unfold resolve. split.
  - change (js ".") with [46%N]. rewrite split_join_char; [done|done|]. eapply Forall_impl; [exact Hks|]. by intros x [_ ?].
  - destruct k; [done|]. by destruct ks.
Qed.

Lemma collected_visited data e : e ∈ own_entries (collect_paths data) → e ∈ visit [] data.
Proof.
  rewrite own_entries_perm. revert e. apply Forall_forall. unfold collect_paths.
  apply (fold_left_inv (Forall (λ e, e ∈ visit [] data))); [constructor|]. intros o [k v] Hin Ho. unfold assign. cbn [fst snd].
  destruct (streq k (js "__proto__")); [done|]. by apply Forall_obj_set.
Qed.
Lemma collected data e : dotless data = true → e ∈ own_entries (collect_paths data) → resolve data e.1 = e.2 ∧ leads data [] e.1 e.2.
Proof.
  intros Hd Hin%collected_visited. assert (Hl : leads data [] e.1 e.2) by (apply visit_leads; [done|by rewrite <- surjective_pairing]).
  split; [by apply leads_resolve|done].
Qed.

(** *** Paths *)

Definition text_at (data : jval) (path : jsstr) : Prop := ∃ s, resolve data path = JStr s.

Lemma found_id lower data paths : (∀ e, e ∈ paths → resolve data e.1 = e.2) → ∀ best, (best = [] ∨ text_at data best) →
  find_id lower paths best = [] ∨ text_at data (find_id lower paths best).
Proof.
  induction paths as [|[path v] paths IH]; intros Hp best Hb; [done|]. assert (Hv : resolve data path = v) by (apply (Hp (path, v)); by left).
  assert (IH' := IH (λ e He, Hp e (list_elem_of_further _ _ _ He))). cbn [find_id]. destruct v; try by apply IH'.
  assert (Ht : text_at data path) by by eexists. repeat case_match; try (by right); first [apply IH'; by right|by apply IH'].
Qed.

Lemma found_path p data paths : (∀ e, e ∈ paths → resolve data e.1 = e.2) →
  find_path p paths = [] ∨ p (find_path p paths) = true ∧ (find_path p paths, resolve data (find_path p paths)) ∈ paths.
Proof.
  intros Hp. unfold find_path. destruct (List.find _ paths) as [[path v]|] eqn:E; [|by left]. right. apply find_some in E as [Hin%list_elem_of_In Hpp]. change (default [] (fst <$> Some (path, v))) with path.
  pose proof (Hp _ Hin) as Hr. cbn [fst snd] in Hr. split; [done|]. by rewrite Hr.
Qed.

Lemma found_array data : dotless data = true → ∀ prefix path, findResultArray prefix data = Some path → ∃ x l, leads data prefix path (JArr (x :: l)) ∧ has_url x = true.
Proof.
  induction data as [| |b|x|s|l IH|o IH] using jval_deep_ind; intros Hd prefix path; cbn [findResultArray]; try done.
  assert (Hsub : ∀ e, e ∈ o → e ∈ o) by done. revert Hsub. generalize o at 1 3. intros es. induction es as [|[k v] rest IHl]; intros Hsub; [done|].
  assert (He : (k, v) ∈ o) by (apply Hsub; by left). assert (Hrest : ∀ e, e ∈ rest → e ∈ o) by (intros e' He'; apply Hsub; by right).
  destruct (match v with JArr (x :: _) => has_url x | _ => false end) eqn:Eu.
  - intros [= <-]. destruct v as [| | | | |[|x l]|]; try done. exists x, l. split; [|done]. by apply (leads_one o prefix (k, JArr (x :: l))).
  - destruct (findResultArray (path_to prefix k) v) as [found|] eqn:Ef; [|by apply IHl]. destruct (is_empty found) eqn:Ee; [by apply IHl|]. intros [= <-].
    rewrite Forall_forall in IH. destruct (IH _ He (proj1 (proj2 (dotless_entry o _ Hd He))) _ _ Ef) as (x & l & Hl & Hu). exists x, l. split; [|done].
    by apply (leads_in o prefix (k, v)).
Qed.

(** A path of the sample *)
Definition present (data : jval) (path : jsstr) : Prop := leads data [] path (resolve data path).

Lemma collected_present data path v : dotless data = true → (path, v) ∈ own_entries (collect_paths data) → present data path.
Proof. intros Hd He. unfold present. destruct (collected data _ Hd He) as [Hr Hl]. cbn [fst snd] in *. by rewrite Hr. Qed.

Lemma found_candidate data names : dotless data = true →
  let p := default [] (List.find (obj_has (own_entries (collect_paths data))) (map js names)) in p = [] ∨ present data p.
Proof.
  intros Hd. cbv zeta. destruct (List.find _ _) as [p|] eqn:E; [|by left]. right. apply find_some in E as [_ Hh]. change (default [] (Some p)) with p.
  eapply collected_present; [done|]. by apply obj_get_elem.
Qed.

Lemma url_found data lp u : find_url data lp = Some u → u = [] ∨
  ∃ x l, resolve data lp = JArr (x :: l) ∧ (is_url (read x u) = true ∨ ∃ v, (u, v) ∈ entries x ∧ is_url v = true).
Proof.
  unfold find_url. fold (resolve data lp). destruct (resolve data lp) as [| | | | |[|x l]|]; try (intros [= <-]; by left).
  set (named := List.find _ _). set (other := List.find _ (entries x)).
  assert (H : match named with Some k => k | None => default [] (fst <$> other) end = u → u = [] ∨ ∃ x' l', JArr (x :: l) = JArr (x' :: l') ∧ (is_url (read x' u) = true ∨ ∃ v, (u, v) ∈ entries x' ∧ is_url v = true)).
  { destruct named as [k|] eqn:En; [intros <-|].
    - right. exists x, l. split; [done|]. left. apply find_some in En as [_ Hu]. done.
    - destruct other as [[k v]|] eqn:Eo; [|intros <-; by left]. change (default [] (fst <$> Some (k, v))) with k. intros <-. right. exists x, l. split; [done|]. right.
      apply find_some in Eo as [Hin%list_elem_of_In Hu]. by exists v. }
  destruct x; try done; intros [= Hu]; try (by left); by apply H.
Qed.

(** C27. Guessed paths.  Let every object of the sample have its keys once, none of
    them empty or with a dot in it, which is what separates the keys of a path.  Then
    each of the seven paths guessed from the sample is its fixed default name or leads,
    in the sample, to what it was taken for: the identifier to a text, the state and
    the type of a result to a value whose last key is one of the names looked for, the
    two of an error to a value (or they are empty), the list of results to a list whose
    first element has a member named like an address, and the address to a member of
    that element that is one. *)
Theorem guess_resolves lower type_error data c : dotless data = true → guess lower type_error data = Detected c → ∃ idp stp ec em lp up tp,
  get c "task_id_path" = JStr idp ∧ (idp = js "taskId" ∨ text_at data idp) ∧
  get c "status_path" = JStr stp ∧ (stp = js "status" ∨ present data stp ∧ listed ["status"; "state"; "task_status"]%string (lower (last_key stp)) = true) ∧
  get c "error_code_path" = JStr ec ∧ (ec = [] ∨ present data ec) ∧
  get c "error_msg_path" = JStr em ∧ (em = [] ∨ present data em) ∧
  get c "result_list_path" = JStr lp ∧ (lp = js "results" ∨ ∃ x l, resolve data lp = JArr (x :: l) ∧ has_url x = true) ∧
  get c "result_url_path" = JStr up ∧
    (up = js "url" ∨ ∃ x l, resolve data lp = JArr (x :: l) ∧ (is_url (read x up) = true ∨ ∃ v, (up, v) ∈ entries x ∧ is_url v = true)) ∧
  get c "result_type_path" = JStr tp ∧
    (tp = js "outputType" ∨ present data tp ∧ listed ["outputType"; "output_type"; "result_type"; "media_type"; "type"]%string (last_key tp) = true).
Proof.
  intros Hd. unfold guess. set (lp := or_text (default [] (findResultArray [] data)) "results"). destruct (find_url data lp) as [u|] eqn:Eu; [|done]. intros [= <-].
  set (paths := own_entries (collect_paths data)). assert (Hp : ∀ e, e ∈ paths → resolve data e.1 = e.2) by (intros e He; by apply collected).
  assert (Hf : ∀ p d, or_text (find_path p paths) d = js d ∨ present data (or_text (find_path p paths) d) ∧ p (or_text (find_path p paths) d) = true).
  { intros p d. unfold or_text. destruct (found_path p data paths Hp) as [->|[Hpp Hin]]; [by left|]. destruct (is_empty _); [by left|right].
    split; [by eapply collected_present|done]. }
  do 7 eexists. unfold get. cbn [obj_get]. names. split_and!; try reflexivity.
  - unfold or_text. destruct (found_id lower data paths Hp []) as [->|Ht]; [by left|by left|]. destruct (is_empty _); [by left|by right].
  - apply (Hf (λ p, listed ["status"; "state"; "task_status"]%string (lower (last_key p)))).
  - exact (found_candidate data ["error.code"; "error.error_code"; "error.type"]%string Hd).
  - exact (found_candidate data ["error.message"; "error.error_message"; "error.msg"]%string Hd).
  - unfold lp, or_text. destruct (findResultArray [] data) as [r|] eqn:Er; [|by left]. change (default [] (Some r)) with r.
    destruct (found_array data Hd [] r Er) as (x & l & Hl%leads_resolve & Hu). destruct (is_empty r); [by left|right]. exists x, l. by destruct Hl.
  - unfold or_text. destruct (url_found data lp u Eu) as [->|Hu]; [by left|]. destruct (is_empty u); [by left|by right].
  - apply (Hf (λ p, listed ["outputType"; "output_type"; "result_type"; "media_type"; "type"]%string (last_key p))).
Qed.

(** *** States *)

(** The states shown are those of the sample, unless it has none that is known. *)
Theorem guessed_states lower found k v : (k, v) ∈ guess_states lower found →
  (k ∈ found ∧ k ≠ [] ∧ ∃ names shown, (names, shown) ∈ STATES ∧ listed names (lower k) = true ∧ v = JStr (js shown)) ∨
  (∀ names shown, (names, shown) ∈ STATES → state_of lower found names = None ∨ state_of lower found names = Some (js "__proto__")).
Proof.
  unfold guess_states. set (m := fold_left _ STATES []).
  assert (Hm : Forall (λ e, e.1 ∈ found ∧ e.1 ≠ [] ∧ ∃ names shown, (names, shown) ∈ STATES ∧ listed names (lower e.1) = true ∧ e.2 = JStr (js shown)) m).
  { unfold m. apply fold_left_inv; [constructor|]. intros o [names shown] Hin Ho. cbn [fst snd]. destruct (state_of lower found names) as [x|] eqn:E; [|done].
    unfold assign. destruct (streq x (js "__proto__")); [done|]. apply Forall_obj_set; [done|]. unfold state_of in E.
    destruct (List.find _ found) as [y|] eqn:E1; [|done]. destruct (List.find (λ x, streq (lower x) (lower y)) found) as [z|] eqn:E2; [|done].
    destruct (is_empty z) eqn:Ez; [done|]. injection E as <-. apply find_some in E1 as [_ Hl]. apply find_some in E2 as [Hz%list_elem_of_In Hs]. apply streq_true in Hs.
    cbn [fst snd]. split_and!; [done|by destruct z|]. exists names, shown. by rewrite Hs. }
  destruct m as [|e m'] eqn:Em; [|intros Hin; left; rewrite Forall_forall in Hm; by apply (Hm (k, v))]. intros _. right. intros names shown Hin.
  destruct (state_of lower found names) as [x|] eqn:E; [|by left]. right. f_equal. destruct (streq x (js "__proto__")) eqn:Ep; [by apply streq_true|]. exfalso.
  assert (Hx : obj_has m x = true); [|by rewrite Em in Hx]. unfold m. clear Em Hm m. apply list_elem_of_split in Hin as (l1 & l2 & ->).
  rewrite fold_left_app. cbn [fold_left fst snd]. rewrite E. unfold assign at 2. rewrite Ep. generalize (fold_left (λ m y, match state_of lower found y.1 with Some k0 => assign m k0 (JStr (js y.2)) | None => m end) l1 []).
  intros o. assert (Ho : obj_has (obj_set o x (JStr (js shown))) x = true) by by rewrite obj_has_set, streq_refl. revert Ho. generalize (obj_set o x (JStr (js shown))).
  induction l2 as [|y l2 IH]; intros o' Ho; [done|]. cbn [fold_left]. apply IH. destruct (state_of lower found y.1) as [j|]; [|done]. unfold assign.
  destruct (streq j (js "__proto__")); [done|]. rewrite obj_has_set, Ho. apply orb_true_r.
Qed.

(** ** Examples *)

(** [String.prototype.toLowerCase] on ASCII *)
Definition lower_ascii (s : jsstr) : jsstr := map (λ c, if ((65 <=? c) && (c <=? 90))%N then (c + 32)%N else c) s.
Definition sample (s : string) : jval := match parse (jsq s) with Some v => v | None => JUndef end.
Definition guessed (data : jval) (k : string) : jval := match guess lower_ascii [] data with Detected c => get c k | Failed _ => JUndef end.

Definition sample_answer : jval :=
  sample "{'code':0,'data':{'task_id':'t1','state':'RUNNING','error':{'code':'x'}},'output':{'images':[{'image_url':'https://a/b.png'}]}}".

Lemma guess_resolves_witness : ∃ c idp lp, guess lower_ascii [] sample_answer = Detected c ∧ get c "task_id_path" = JStr idp ∧ text_at sample_answer idp ∧
  get c "result_list_path" = JStr lp ∧ ∃ x l, resolve sample_answer lp = JArr (x :: l) ∧ has_url x = true.
Proof.
  destruct (guess lower_ascii [] sample_answer) as [c|] eqn:E; [|by vm_compute in E].
  destruct (guess_resolves lower_ascii [] sample_answer c) as (idp & stp & ec & em & lp & up & tp & H1 & H2 & _ & _ & _ & _ & _ & _ & H3 & H4 & _); [by vm_compute|done|].
  vm_compute in E. injection E as <-. exists (match guess lower_ascii [] sample_answer with Detected c => c | Failed _ => [] end), idp, lp. split_and!.
  - by vm_compute.
  - by rewrite <- H1; vm_compute.
  - destruct H2 as [->|H2]; [by vm_compute in H1|done].
  - by rewrite <- H3; vm_compute.
  - destruct H4 as [->|H4]; [by vm_compute in H3|done].
Defined.

(** The name [taskId] is looked for among names in lower case, so below the top level
    it is not found: the path guessed leads nowhere. *)
Theorem task_id_missed : let data := sample "{'data':{'taskId':'t1'},'status':'QUEUED'}" in
  guessed data "task_id_path" = JStr (js "taskId") ∧ resolve data (js "taskId") = JNull ∧ resolve data (js "data.taskId") = JStr (js "t1").
Proof. by vm_compute. Qed.

(** Of several names of identifiers the last one is taken, not the first. *)
Theorem last_id_taken : let data := sample "{'task':{'id':'t1'},'user':{'id':'u1'}}" in guessed data "task_id_path" = JStr (js "user.id").
Proof. by vm_compute. Qed.

(** A list whose first element is [null] makes the analysis throw. *)
Theorem null_result_throws upper type_error : analyzeAsyncTaskJson lower_ascii upper type_error (jsq "{'results':[null]}") = Failed type_error.
Proof. by vm_compute. Qed.
