(* ===== verification/ChannelEdit.v ===== *)
(** * The form of a channel

    [web/src/components/table/channels/modals/EditChannelModal.jsx]: opening the form
    on a new or a stored channel, the handlers of its fields and of its keys, and
    what is sent to the server.  The asynchronous tasks are in [AsyncTask], the
    redirect guard in [ChannelForms].

    [inputs] is the state of the component and [form] what the form component holds:
    [setValue] sets one field of it.  [setValues], by which the form component takes
    over the state after a render, is code of a library and a parameter.  A handler
    runs on the render [seen] and changes the state [d]; updates made by one handler
    add up, its reads do not see them. *)

From S2P Require Import Prelude JsString JsNumber Json JsObject JsOrder ChannelForms AsyncTask.

Notation obj := (list (jsstr * jval)).
Definition put (o : obj) (k : string) (v : jval) : obj := obj_set o (js k) v.
Definition put_all (o : obj) (l : list (string * jval)) : obj := fold_left (λ o e, put o e.1 e.2) l o.
Definition drop_all (o : obj) (ks : list string) : obj := fold_left (λ o k, obj_delete o (js k)) ks o.
Definition num (z : Z) : jval := JNum (num_of_Z z).
Definition is_type (v : jval) (z : Z) : bool := strict_eq v (num z).

Definition DOUBAO_URL : jsstr := js "https://ark.cn-beijing.volces.com".

Definition originInputs : obj :=
  map (λ e, (js e.1, e.2))
  [("name", JStr []); ("type", num 1); ("key", JStr []); ("openai_organization", JStr []); ("max_input_tokens", num 0); ("base_url", JStr []); ("other", JStr []);
   ("model_mapping", JStr []); ("param_override", JStr []); ("response_override", JStr []); ("rest_routes", JStr []); ("status_code_mapping", JStr []);
   ("models", JArr []); ("auto_ban", num 1); ("test_model", JStr []); ("groups", JArr [JStr (js "default")]); ("priority", num 0); ("weight", num 0); ("tag", JStr []);
   ("force_format", JBool false); ("thinking_to_content", JBool false); ("proxy", JStr []); ("pass_through_body_enabled", JBool false); ("system_prompt", JStr []);
   ("system_prompt_override", JBool false); ("settings", JStr []); ("vertex_key_type", JStr (js "json")); ("aws_key_type", JStr (js "ak_sk"));
   ("is_enterprise_account", JBool false); ("allow_service_tier", JBool false); ("disable_store", JBool false); ("allow_safety_identifier", JBool false);
   ("allow_include_obfuscation", JBool false); ("allow_inference_geo", JBool false); ("allow_speed", JBool false); ("claude_beta_query", JBool false);
   ("upstream_model_update_check_enabled", JBool false); ("upstream_model_update_auto_sync_enabled", JBool false); ("upstream_model_update_last_check_time", num 0);
   ("upstream_model_update_last_detected_models", JArr []); ("upstream_model_update_ignored_models", JStr [])]%string.

(** ** State *)

(** [None]: an uploaded item without its file; otherwise the text of the file *)
Record key_input := KeyInput {
  batch : bool; multiToSingle : bool; useManualInput : bool; keyMode : jsstr; vertexKeys : list jval; vertexFileList : list (option jsstr) }.
(** What the form remembers of the channel it was opened on *)
Record opened := Opened {
  isMultiKeyChannel : bool; isIonetChannel : bool; initialBaseUrl : jval; initialModels : list jsstr; initialModelMapping : jval; initialStatusCodeMapping : jval }.
Record model_cache := ModelCache { channelModels : option obj; stored_models : jsstr }.

Record dialog := Dialog {
  channelId : option jval; loading : bool; inputs : obj; form : obj; channelSettings : obj; autoBan : bool; basicModels : jval;
  keys_in : key_input; origin : opened; cache : model_cache; skipNextFormSync : bool }.

Definition isEdit (d : dialog) : bool := match channelId d with Some _ => true | None => false end.
Definition set_inputs (f : obj → obj) (d : dialog) : dialog :=
  Dialog (channelId d) (loading d) (f (inputs d)) (form d) (channelSettings d) (autoBan d) (basicModels d) (keys_in d) (origin d) (cache d) (skipNextFormSync d).
Definition set_form (f : obj → obj) (d : dialog) : dialog :=
  Dialog (channelId d) (loading d) (inputs d) (f (form d)) (channelSettings d) (autoBan d) (basicModels d) (keys_in d) (origin d) (cache d) (skipNextFormSync d).
Definition set_channel_settings (f : obj → obj) (d : dialog) : dialog :=
  Dialog (channelId d) (loading d) (inputs d) (form d) (f (channelSettings d)) (autoBan d) (basicModels d) (keys_in d) (origin d) (cache d) (skipNextFormSync d).
Definition set_basic (v : jval) (c : model_cache) (d : dialog) : dialog :=
  Dialog (channelId d) (loading d) (inputs d) (form d) (channelSettings d) (autoBan d) v (keys_in d) (origin d) c (skipNextFormSync d).
Definition set_keys (f : key_input → key_input) (d : dialog) : dialog :=
  Dialog (channelId d) (loading d) (inputs d) (form d) (channelSettings d) (autoBan d) (basicModels d) (f (keys_in d)) (origin d) (cache d) (skipNextFormSync d).
Definition set_loading (b : bool) (d : dialog) : dialog :=
  Dialog (channelId d) b (inputs d) (form d) (channelSettings d) (autoBan d) (basicModels d) (keys_in d) (origin d) (cache d) (skipNextFormSync d).

Definition setValue (k : string) (v : jval) : dialog → dialog := set_form (λ o, put o k v).
Definition setInput (k : string) (v : jval) : dialog → dialog := set_inputs (λ o, put o k v).

(** [getChannelModels] of [web/src/helpers/api.js]: [channel_models] of the storage is
    read once.  [None]: the stored text is no object. *)
Definition getChannelModels (type : jval) (c : model_cache) : option (jval * model_cache) :=
  let k := String_of type in
  match channelModels c with
  | Some o => if obj_has o k then Some (if truthy (obj_get o k) then obj_get o k else JArr [], c)
              else if is_empty (stored_models c) then Some (JArr [], c)
              else match parse (stored_models c) with
                   | Some (JObj o') => Some (if obj_has o' k then obj_get o' k else JArr [], ModelCache (Some o') (stored_models c))
                   | _ => None
                   end
  | None => if is_empty (stored_models c) then Some (JArr [], c)
            else match parse (stored_models c) with
                 | Some (JObj o') => Some (if obj_has o' k then obj_get o' k else JArr [], ModelCache (Some o') (stored_models c))
                 | _ => None
                 end
  end.

(** ** Fields *)

Definition MIDJOURNEY : list string := ["mj_imagine"; "mj_variation"; "mj_reroll"; "mj_blend"; "mj_upscale"; "mj_describe"; "mj_uploads"]%string.
Definition MIDJOURNEY_PLUS : list string :=
  ["swap_face"; "mj_imagine"; "mj_video"; "mj_edits"; "mj_variation"; "mj_reroll"; "mj_blend"; "mj_upscale"; "mj_describe"; "mj_zoom"; "mj_shorten"; "mj_modal";
   "mj_inpaint"; "mj_custom_zoom"; "mj_high_variation"; "mj_low_variation"; "mj_pan"; "mj_uploads"]%string.
Definition names_list (l : list string) : jval := JArr (map (λ s, JStr (js s)) l).

Definition type_models (value : jval) (c : model_cache) : option (jval * model_cache) :=
  if is_type value 2 then Some (names_list MIDJOURNEY, c)
  else if is_type value 5 then Some (names_list MIDJOURNEY_PLUS, c)
  else if is_type value 36 then Some (names_list ["suno_music"; "suno_lyrics"]%string, c)
  else getChannelModels value c.

(** [(v || '').trim()]; [None]: not a text *)
Definition trim_or (v : jval) : option jsstr := match js_or v (JStr []) with JStr s => Some (trim s) | _ => None end.
(** [Array.from(new Set(value.map(...)))] *)
Definition trim_models (l : list jval) : option (list jsstr) := mapM trim_or l.

Definition no_models (v : jval) : bool := match v with JArr [] | JStr [] => true | _ => false end.
Definition locked (d : dialog) (name : string) : bool := isIonetChannel (origin d) && isEdit d && existsb (String.eqb name) ["type"; "key"; "base_url"]%string.
Definition with_keys (b m u : bool) (vk : list jval) (vf : list (option jsstr)) (k : key_input) : key_input := KeyInput b m u (keyMode k) vk vf.

(** What a change of the type brings along *)
Definition change_type (seen : dialog) (value : jval) (d : dialog) : option dialog :=
  match type_models value (cache d) with
  | None => None
  | Some (localModels, c) =>
    let d := if is_type value 45 then setInput "base_url" (JStr DOUBAO_URL) d else d in
    let d := if no_models (get (inputs seen) "models") then setInput "models" localModels d else d in
    let d := set_basic localModels c d in
    let d := set_keys (λ k, KeyInput (batch k) (multiToSingle k) false (keyMode k) (vertexKeys k) (vertexFileList k)) d in
    Some (if is_type value 57 then
            setInput "vertex_files" (JArr []) (setValue "vertex_files" (JArr [])
              (set_keys (λ k, KeyInput false false (useManualInput k) (keyMode k) [] []) d))
          else d)
  end.

(** What the answer to the question about [/v1] leaves to do *)
Inductive change_result := Changed (d : dialog) | AskV1 (d : dialog) | Throws.

Definition handleInputChange (seen : dialog) (name : string) (value : jval) (d : dialog) : change_result :=
  if locked seen name then Changed d else
  let d := setValue name value d in
  match (if String.eqb name "models" then match value with JArr l => JArr ∘ map JStr ∘ uniq <$> trim_models l | _ => Some value end else Some value) with
  | None => Throws
  | Some value =>
    if String.eqb name "base_url" then
      match value with
      | JStr s => if ends_with (js "/v1") s then AskV1 d else Changed (setInput name value d)
      | _ => Throws
      end
    else
      let d := setInput name value d in
      if String.eqb name "type" then match change_type seen value d with Some d => Changed d | None => Throws end else Changed d
  end.
(** [onOk] of the question; declining does nothing. *)
Definition answer_v1 (value : jval) (ok : bool) (d : dialog) : dialog := if ok then setInput "base_url" value d else d.

Definition changed_or (d : dialog) (r : change_result) : dialog := match r with Changed d' | AskV1 d' => d' | Throws => d end.

Definition formatJsonField (seen : dialog) (fieldName : string) (d : dialog) : option dialog :=
  match js_nullish (get (inputs seen) fieldName) (JStr []) with
  | JStr raw => if blank raw then Some d
                else match parse (trim raw) with
                     | Some parsed => Some (changed_or d (handleInputChange seen fieldName (JStr (default [] (stringify2 parsed))) d))
                     | None => Some d
                     end
  | _ => None
  end.
Definition handleCodexOAuthGenerated (seen : dialog) (key : jsstr) (d : dialog) : option dialog :=
  formatJsonField seen "key" (changed_or d (handleInputChange seen "key" (JStr key) d)).

Definition handleChannelSettingsChange (seen : dialog) (key : string) (value : jval) (d : dialog) : dialog :=
  let d := setInput key value (setValue key value (set_channel_settings (λ o, put o key value) d)) in
  changed_or d (handleInputChange seen "setting" (JStr (default [] (stringify (JObj (put (channelSettings seen) key value))))) d).
(** [settings[key] = value] on a stored text that is no object is not written. *)
Definition settings_put (raw : jval) (key : string) (value : jval) : option jval :=
  match (if truthy raw then default (JObj []) (parse (String_of raw)) else JObj []) with
  | JObj o => Some (JObj (put o key value))
  | JArr l => Some (JArr l)
  | _ => None
  end.
Definition handleChannelOtherSettingsChange (seen : dialog) (key : string) (value : jval) (d : dialog) : option dialog :=
  let d := setInput key value (setValue key value (set_channel_settings (λ o, put o key value) d)) in
  match settings_put (get (inputs seen) "settings") key value with
  | Some s => Some (changed_or d (handleInputChange seen "settings" (JStr (default [] (stringify s))) d))
  | None => None
  end.
(** The names of the boxes of the tasks *)
Definition task_names (c : obj) : obj := map (λ e, (js "async_task_" ++ e.1, e.2)) c.
(** The tasks write the text of the settings. *)
Definition change_task (key : jsstr) (value : jval) (d : dialog) : dialog :=
  let f := handleAsyncTaskConfigChange key value (show_settings (get (inputs d) "settings")) in
  setInput "settings" (settings f)
    (Dialog (channelId d) (loading d) (inputs d) (spread (form d) (JObj (task_names (boxes f)))) (channelSettings d) (autoBan d)
       (basicModels d) (keys_in d) (origin d) (cache d) true).

Definition applyClipboardConfig (key url : jsstr) (d : dialog) : dialog :=
  setValue "base_url" (JStr url) (setValue "key" (JStr key) (setInput "base_url" (JStr url) (setInput "key" (JStr key) d))).
Definition pasteFromClipboard (text : jsstr) (d : dialog) : dialog :=
  match parseChannelConnectionString text with Some (key, url) => applyClipboardConfig key url d | None => d end.

(** *** Overrides

    The parameter and the response override have the same handlers; [field] is
    [param_override] or [response_override]. *)

Definition PARAM_OVERRIDE_LEGACY_TEMPLATE : obj := [(js "temperature", num 0)].
Definition OPERATION_TEMPLATE : jval :=
  JObj [(js "path", JStr (js "temperature")); (js "mode", JStr (js "set")); (js "value", JNum (Number_of_string (js "0.7")));
        (js "conditions", JArr [JObj [(js "path", JStr (js "model")); (js "mode", JStr (js "prefix")); (js "value", JStr (js "openai/"))]]); (js "logic", JStr (js "AND"))].
Definition PARAM_OVERRIDE_OPERATIONS_TEMPLATE : obj := [(js "operations", JArr [OPERATION_TEMPLATE])].

Inductive template := Legacy | Operations.
Inductive apply_mode := Fill | Append.

Definition override_text (seen : dialog) (field : string) : jsstr := match get (inputs seen) field with JStr s => trim s | _ => [] end.
(** [None]: the text is not JSON. *)
Definition parseOverrideInput (seen : dialog) (field : string) : option jval :=
  let raw := override_text seen field in if is_empty raw then Some JNull else parse raw.
Definition template_value (templateType : template) (applyMode : apply_mode) (parsedCurrent : jval) : jval :=
  match templateType, applyMode with
  | Legacy, Fill => JObj PARAM_OVERRIDE_LEGACY_TEMPLATE
  | Operations, Fill => JObj PARAM_OVERRIDE_OPERATIONS_TEMPLATE
  | Legacy, Append =>
    let currentLegacy := match parsedCurrent with JObj o => if is_array (get o "operations") then [] else o | _ => [] end in
    JObj (spread PARAM_OVERRIDE_LEGACY_TEMPLATE (JObj currentLegacy))
  | Operations, Append =>
    let currentOperations := match parsedCurrent with JObj o => match get o "operations" with JArr l => l | _ => [] end | _ => [] end in
    JObj [(js "operations", JArr (currentOperations ++ [OPERATION_TEMPLATE]))]
  end.
Definition applyOverrideTemplate (seen : dialog) (field : string) (templateType : template) (applyMode : apply_mode) (d : dialog) : dialog :=
  match parseOverrideInput seen field with
  | Some parsedCurrent => changed_or d (handleInputChange seen field (JStr (default [] (stringify2 (template_value templateType applyMode parsedCurrent)))) d)
  | None => d
  end.
Definition clearOverride (seen : dialog) (field : string) (d : dialog) : dialog := changed_or d (handleInputChange seen field (JStr []) d).
(** The text to be copied; [None]: there is none *)
Definition copyOverrideJson (seen : dialog) (field : string) : option jsstr :=
  let raw := override_text seen field in
  if is_empty raw then None else Some (match parse raw with Some v => default [] (stringify2 v) | None => raw end).

(** The kind of an override, its number of entries and its preview *)
Inductive override_meta := Unset | Invalid (raw : jsstr) | NewFormat (n : nat) (pretty : jsstr) | OldFormat (n : nat) (pretty : jsstr) | Custom (pretty : jsstr).
Definition overrideMeta (seen : dialog) (field : string) : override_meta :=
  let raw := override_text seen field in
  if is_empty raw then Unset
  else match parse raw with
       | None => Invalid raw
       | Some parsed =>
         let pretty := default [] (stringify2 parsed) in
         match parsed with
         | JObj o => match get o "operations" with JArr l => NewFormat (length l) pretty | _ => OldFormat (length (own_keys o)) pretty end
         | _ => Custom pretty
         end
       end.

(** The two fields *)
Definition parseParamOverrideInput (seen : dialog) : option jval := parseOverrideInput seen "param_override".
Definition parseResponseOverrideInput (seen : dialog) : option jval := parseOverrideInput seen "response_override".
Definition applyParamOverrideTemplate (seen : dialog) : template → apply_mode → dialog → dialog := applyOverrideTemplate seen "param_override".
Definition applyResponseOverrideTemplate (seen : dialog) : template → apply_mode → dialog → dialog := applyOverrideTemplate seen "response_override".
Definition clearParamOverride (seen : dialog) : dialog → dialog := clearOverride seen "param_override".
Definition clearResponseOverride (seen : dialog) : dialog → dialog := clearOverride seen "response_override".
Definition copyParamOverrideJson (seen : dialog) : option jsstr := copyOverrideJson seen "param_override".
Definition copyResponseOverrideJson (seen : dialog) : option jsstr := copyOverrideJson seen "response_override".
Definition paramOverrideMeta (seen : dialog) : override_meta := overrideMeta seen "param_override".
Definition responseOverrideMeta (seen : dialog) : override_meta := overrideMeta seen "response_override".

(** *** Models *)

Definition mapping_object (mapping : jval) : option obj :=
  match mapping with
  | JStr s => if blank s then None else match parse (trim s) with Some (JObj o) => Some o | _ => None end
  | _ => None
  end.
Definition redirectModelList (mapping : jval) : list jsstr :=
  match mapping_object mapping with
  | Some o => uniq (filter_truthy (omap (λ e, match e.2 with JStr v => Some (trim v) | _ => None end) (own_entries o)))
  | None => []
  end.
Definition redirectModelKeyList (mapping : jval) : list jsstr :=
  match mapping_object mapping with Some o => uniq (filter_truthy (map trim (own_keys o))) | None => [] end.

(** The models box after names typed in: those added, and all *)
Definition addCustomModels (customModel : jsstr) (models : list jsstr) : list jsstr * list jsstr :=
  if blank customModel then ([], models)
  else fold_left (λ acc model, if is_empty model || existsb (streq model) acc.2 then acc else (acc.1 ++ [model], acc.2 ++ [model])) (map trim (split (js ",") customModel)) ([], models).

(** *** Keys *)

Definition deduplicateKeys (currentKey : jsstr) : option (jsstr * nat * nat) :=
  if blank currentKey then None
  else let keyLines := split [10%N] currentKey in
       let deduplicatedKeys := uniq (filter_truthy (map trim keyLines)) in
       Some (join [10%N] deduplicatedKeys, length keyLines, length deduplicatedKeys).
Definition deduplicate_now (seen : dialog) (d : dialog) : option dialog :=
  match js_or (get (form seen) "key") (js_or (get (inputs seen) "key") (JStr [])) with
  | JStr currentKey =>
    match deduplicateKeys currentKey with
    | None => Some d
    | Some (text, _, _) => Some (changed_or d (handleInputChange seen "key" (JStr text) (setValue "key" (JStr text) d)))
    end
  | _ => None
  end.

(** The uploaded files that hold JSON *)
Definition valid_files (files : list (option jsstr)) : list (option jsstr * jval) :=
  omap (λ f, match f with Some txt => (λ k, (f, k)) <$> parse txt | None => None end) files.
Definition file_values (l : list (option jsstr)) : jval := JArr (map (λ f, match f with Some txt => JStr txt | None => JNull end) l).
Definition handleVertexUploadChange (seen : dialog) (fileList : list (option jsstr)) (d : dialog) : dialog :=
  let valid := valid_files fileList in
  let valid := if negb (batch (keys_in seen)) then match last valid with Some x => [x] | None => [] end else valid in
  setInput "vertex_files" (file_values (map fst valid)) (setValue "vertex_files" (file_values (map fst valid))
    (set_keys (λ k, with_keys (batch k) (multiToSingle k) (useManualInput k) (map snd valid) (map fst valid) k) d)).

(** The batch switch: turning it off with several files asks first. *)
Definition set_batch (seen : dialog) (checked ok : bool) (d : dialog) : dialog :=
  let k := keys_in seen in
  if negb checked && (1 <? length (vertexFileList k)) then
    if ok then
      let firstFile := take 1 (vertexFileList k) in
      let firstKey := match vertexKeys k with x :: _ => if truthy x then [x] else [] | [] => [] end in
      setInput "vertex_files" (file_values firstFile) (setValue "vertex_files" (file_values firstFile) (set_keys (λ k, with_keys false false (useManualInput k) firstKey firstFile k) d))
    else set_keys (λ k, with_keys true (multiToSingle k) (useManualInput k) (vertexKeys k) (vertexFileList k) k) d
  else if negb checked then set_keys (λ k, with_keys false false (useManualInput k) (vertexKeys k) (vertexFileList k) k) d
  else
    let d := set_keys (λ k, with_keys true (multiToSingle k) false (vertexKeys k) (vertexFileList k) k) d in
    if is_type (get (inputs seen) "type") 41 then changed_or d (handleInputChange seen "key" (JStr []) (setValue "key" (JStr []) d)) else d.
Definition toggle_aggregate (d : dialog) : dialog :=
  set_keys (λ k, with_keys (batch k) (negb (multiToSingle k)) (useManualInput k) (vertexKeys k) (vertexFileList k) k) d.
Definition use_files (seen : dialog) (d : dialog) : dialog :=
  let d := set_keys (λ k, with_keys (batch k) (multiToSingle k) false (vertexKeys k) (vertexFileList k) k) d in
  changed_or d (handleInputChange seen "key" (JStr []) (setValue "key" (JStr []) d)).
Definition use_manual (d : dialog) : dialog :=
  setInput "vertex_files" (JArr []) (setValue "vertex_files" (JArr []) (set_keys (λ k, with_keys (batch k) (multiToSingle k) true [] [] k) d)).
Definition choose_key_type (seen : dialog) (value : jval) (d : dialog) : option dialog :=
  match handleChannelOtherSettingsChange seen "vertex_key_type" value d with
  | None => None
  | Some d => Some (if strict_eq value (JStr (js "api_key")) then
                      setValue "vertex_files" (JArr []) (set_keys (λ k, with_keys false (multiToSingle k) false [] [] k) d)
                    else d)
  end.
Definition setKeyMode (m : jsstr) : dialog → dialog := set_keys (λ k, KeyInput (batch k) (multiToSingle k) (useManualInput k) m (vertexKeys k) (vertexFileList k)).

(** ** Opening a channel *)

(** [data[k] === '' ? [] : data[k].split(',')]; [None]: not a text *)
Definition split_list (v : jval) : option jval :=
  match v with
  | JStr [] => Some (JArr [])
  | JStr s => Some (JArr (map JStr (split (js ",") s)))
  | _ => None
  end.
Definition pretty_mapping (v : jval) : option jval :=
  if strict_eq v (JStr []) then Some v else (λ x, JStr (default [] (stringify2 x))) <$> parse (String_of v).

(** The parsed text of a member; [None]: none, or it does not parse or is [null] *)
Definition parsed_or_none (v : jval) : option jval := match parse (String_of v) with Some JNull => None | p => p end.

Definition SETTING_FIELDS : list (string * jval) :=
  [("force_format", JBool false); ("thinking_to_content", JBool false); ("proxy", JStr []); ("pass_through_body_enabled", JBool false); ("system_prompt", JStr []);
   ("system_prompt_override", JBool false); ("image_generation_model_prefixes", JArr [])]%string.
Definition load_setting (data : obj) : obj :=
  let v := get data "setting" in
  put_all data (match (if truthy v then parsed_or_none v else None) with
                | Some p => map (λ e, (e.1, js_or (read p (js e.1)) e.2)) SETTING_FIELDS
                | None => SETTING_FIELDS
                end).

Definition OTHER_DEFAULTS : list (string * jval) :=
  [("vertex_key_type", JStr (js "json")); ("aws_key_type", JStr (js "ak_sk")); ("is_enterprise_account", JBool false); ("allow_service_tier", JBool false);
   ("disable_store", JBool false); ("allow_safety_identifier", JBool false); ("allow_include_obfuscation", JBool false); ("allow_inference_geo", JBool false);
   ("allow_speed", JBool false); ("claude_beta_query", JBool false); ("upstream_model_update_check_enabled", JBool false);
   ("upstream_model_update_auto_sync_enabled", JBool false); ("upstream_model_update_last_check_time", num 0); ("upstream_model_update_last_detected_models", JArr []);
   ("upstream_model_update_ignored_models", JStr []); ("rest_routes", JStr [])]%string.
Definition read_other (p : jval) : list (string * jval) :=
  let r k := read p (js k) in
  let number v := let n := Number_of v in if num_truthy n then JNum n else num 0 in
  [("azure_responses_version", js_or (r "azure_responses_version") (JStr [])); ("vertex_key_type", js_or (r "vertex_key_type") (JStr (js "json")));
   ("aws_key_type", js_or (r "aws_key_type") (JStr (js "ak_sk"))); ("is_enterprise_account", JBool (is_true (r "openrouter_enterprise")));
   ("allow_service_tier", js_or (r "allow_service_tier") (JBool false)); ("disable_store", js_or (r "disable_store") (JBool false));
   ("allow_safety_identifier", js_or (r "allow_safety_identifier") (JBool false)); ("allow_include_obfuscation", js_or (r "allow_include_obfuscation") (JBool false));
   ("allow_inference_geo", js_or (r "allow_inference_geo") (JBool false)); ("allow_speed", js_or (r "allow_speed") (JBool false));
   ("claude_beta_query", js_or (r "claude_beta_query") (JBool false));
   ("upstream_model_update_check_enabled", JBool (is_true (r "upstream_model_update_check_enabled")));
   ("upstream_model_update_auto_sync_enabled", JBool (is_true (r "upstream_model_update_auto_sync_enabled")));
   ("upstream_model_update_last_check_time", number (r "upstream_model_update_last_check_time"));
   ("upstream_model_update_last_detected_models", list_or_empty (r "upstream_model_update_last_detected_models"));
   ("upstream_model_update_ignored_models", JStr (match r "upstream_model_update_ignored_models" with JArr l => String_of (JArr l) | _ => [] end));
   ("rest_routes", JStr (match r "rest_routes" with JArr [] => [] | JArr l => default [] (stringify2 (JArr l)) | _ => [] end))]%string.
Definition load_other (data : obj) : obj :=
  let v := get data "settings" in
  put_all data (if truthy v then
                  match parsed_or_none v with
                  | Some p => read_other p
                  | None => [("azure_responses_version", JStr []); ("region", JStr [])]%string ++ OTHER_DEFAULTS
                  end
                else OTHER_DEFAULTS).

Definition default_url (data : obj) : obj :=
  if is_type (get data "type") 45 && match js_or (get data "base_url") (JStr []) with JStr s => blank s | _ => false end then put data "base_url" (JStr DOUBAO_URL) else data.

(** The answer of the server as inputs; [None]: it throws and the form stays loading *)
Definition load_inputs (data : obj) : option obj :=
  models ← split_list (get data "models");
  groups ← split_list (get data "group");
  mapping ← pretty_mapping (get data "model_mapping");
  Some (default_url (load_other (load_setting (put_all data [("models", models); ("groups", groups); ("model_mapping", mapping)]%string)))).

Definition from_ionet (other_info : jval) : bool :=
  if truthy other_info then
    match parse (String_of other_info) with
    | Some meta => truthy meta && typeof_object meta && strict_eq (read meta (js "source")) (JStr (js "ionet"))
    | None => false
    end
  else false.
Definition opened_on (data inputs : obj) : opened :=
  Opened (is_true (read (js_or (get data "channel_info") (JObj [])) (js "is_multi_key"))) (from_ionet (get data "other_info"))
    (js_or (get inputs "base_url") (JStr []))
    (filter_truthy (match get inputs "models" with JArr l => map (λ m, trim (String_of m)) l | _ => [] end))
    (js_or (get inputs "model_mapping") (JStr [])) (js_or (get inputs "status_code_mapping") (JStr [])).

(** [answer]: the data of the answer, or that it failed *)
Definition loadChannel (answer : option obj) (d : dialog) : dialog :=
  let d := set_loading true d in
  match answer with
  | None => set_loading false d
  | Some data =>
    match load_inputs data with
    | None => d
    | Some i =>
      let o := opened_on data i in
      let multi := isMultiKeyChannel o in
      let k := with_keys multi multi (useManualInput (keys_in d)) (vertexKeys (keys_in d)) (vertexFileList (keys_in d)) (keys_in d) in
      let ban := negb (strict_eq (get i "auto_ban") (num 0)) in
      match getChannelModels (get i "type") (cache d) with
      | None =>
        let o' := Opened multi (isIonetChannel (origin d)) (initialBaseUrl o) (initialModels (origin d)) (initialModelMapping (origin d)) (initialStatusCodeMapping (origin d)) in
        Dialog (channelId d) true i (form d) (channelSettings d) ban (basicModels d) k o' (cache d) (skipNextFormSync d)
      | Some (models, c) =>
        Dialog (channelId d) false i (form d) (map (λ e, (js e.1, get i e.1)) SETTING_FIELDS) ban models k o c (skipNextFormSync d)
      end
    end
  end.

(** *** Opening and closing *)

Section Form.
(** [formApi.setValues] and [formApi.reset] *)
Context (setValues : obj → obj → obj) (reset : obj → obj).

Definition task_values (i : obj) : obj := task_names (readAsyncTaskConfigFromSettings (get i "settings")).
Definition form_sync (d : dialog) : dialog :=
  if skipNextFormSync d then
    Dialog (channelId d) (loading d) (inputs d) (form d) (channelSettings d) (autoBan d) (basicModels d) (keys_in d) (origin d) (cache d) false
  else set_form (λ f, setValues f (spread (inputs d) (JObj (task_values (inputs d))))) d.

Definition getInitFormValues : obj := spread originInputs (JObj (task_names emptyAsyncTaskConfig)).
Definition same_channel (a b : option jval) : bool := match a, b with Some x, Some y => strict_eq x y | None, None => true | _, _ => false end.
(** The effect of another channel: the inputs of a new one start over with the models
    of the type shown before. *)
Definition channel_effect (d : dialog) : dialog :=
  if isEdit d then d else
  let o := origin d in
  let o := Opened (isMultiKeyChannel o) (isIonetChannel o) (JStr []) (initialModels o) (initialModelMapping o) (initialStatusCodeMapping o) in
  let seen := get (inputs d) "type" in
  let d := Dialog (channelId d) (loading d) originInputs (setValues (form d) getInitFormValues) (channelSettings d) (autoBan d) (basicModels d) (keys_in d) o (cache d) (skipNextFormSync d) in
  match getChannelModels seen (cache d) with
  | Some (localModels, c) => setInput "models" localModels (set_basic localModels c d)
  | None => d
  end.
(** The form is shown for a channel; [loadChannel] follows for a stored one. *)
Definition open_form (channel : option jval) (d : dialog) : dialog :=
  let changed := negb (same_channel (channelId d) channel) in
  let d := Dialog channel (loading d) (inputs d) (form d) (channelSettings d) (autoBan d) (basicModels d)
             (with_keys (batch (keys_in d)) (multiToSingle (keys_in d)) false (vertexKeys (keys_in d)) (vertexFileList (keys_in d)) (keys_in d)) (origin d) (cache d) (skipNextFormSync d) in
  let d := if changed then channel_effect d else d in
  if isEdit d then d
  else let o := origin d in
       set_form (λ f, setValues f getInitFormValues)
         (Dialog (channelId d) (loading d) (inputs d) (form d) (channelSettings d) (autoBan d) (basicModels d) (keys_in d)
            (Opened (isMultiKeyChannel o) false (initialBaseUrl o) [] (JStr []) (JStr [])) (cache d) (skipNextFormSync d)).

(** [resetModalState] *)
Definition SETTING_RESET : list (string * jval) := take 6 SETTING_FIELDS.
Definition close_form (d : dialog) : dialog :=
  Dialog (channelId d) (loading d) originInputs (put (reset (form d)) "key_mode" JUndef) (map (λ e, (js e.1, e.2)) SETTING_RESET) (autoBan d) (basicModels d)
    (KeyInput (batch (keys_in d)) (multiToSingle (keys_in d)) (useManualInput (keys_in d)) (js "append") (vertexKeys (keys_in d)) (vertexFileList (keys_in d)))
    (origin d) (cache d) (skipNextFormSync d).
End Form.

(** ** Saving *)

Inductive choice := Cancel | SubmitAnyway | AddModels.
Inductive step (A : Type) := Ok (a : A) | Blocked (msg : jsstr) | Thrown.
Arguments Ok {A} a.
Arguments Blocked {A} msg.
Arguments Thrown {A}.
Definition and_then {A B} (m : step A) (f : A → step B) : step B := match m with Ok a => f a | Blocked msg => Blocked msg | Thrown => Thrown end.
Definition guard (b : bool) (msg : string) : step unit := if b then Ok tt else Blocked (js msg).

Declare Scope step_scope.
Delimit Scope step_scope with step.
Notation "x <-- m ; k" := (and_then m (λ x, k)) (at level 20, m at level 100, k at level 200, right associativity) : step_scope.
Open Scope step_scope.

(** Texts: [(v || '').trim()], [v.trim()] *)
Definition trimmed_text (v : jval) : step jsstr := match trim_or v with Some s => Ok s | None => Thrown end.
(** [!v || v.trim() === ''] *)
Definition missing_text (v : jval) : step bool := if truthy v then match v with JStr s => Ok (blank s) | _ => Thrown end else Ok true.

Definition prefix_list (d : dialog) (formValues : obj) : jval :=
  let l := match get (inputs d) "image_generation_model_prefixes", get formValues "image_generation_model_prefixes" with
           | JArr l, _ | _, JArr l => l
           | _, _ => []
           end in
  JArr (map JStr (uniq (filter_truthy (map (λ item, trim (String_of (js_or item (JStr [])))) l)))).
Definition INPUT_FIELDS : list string :=
  ["param_override"; "header_override"; "response_override"; "rest_routes"; "force_format"; "thinking_to_content"; "proxy"; "pass_through_body_enabled"; "system_prompt";
   "system_prompt_override"]%string.
Definition local_inputs (d : dialog) : obj :=
  put (put_all (form d) (map (λ k, (k, get (inputs d) k)) INPUT_FIELDS)) "image_generation_model_prefixes" (prefix_list d (form d)).

(** A Codex key is an object with two members. *)
Definition codex_key (d : dialog) (l : obj) : step obj :=
  if negb (is_type (get l "type") 57) then Ok l else
  _ <-- guard (negb (batch (keys_in d))) "Codex 渠道不支持批量创建";
  rawKey <-- trimmed_text (get l "key");
  _ <-- guard (isEdit d || negb (is_empty rawKey)) "请输入密钥！";
  if is_empty rawKey then Ok l else
  match parse rawKey with
  | None => Blocked (js "密钥必须是合法的 JSON 格式！")
  | Some (JObj o) =>
    _ <-- guard (negb (blank (String_of (js_or (get o "access_token") (JStr []))))) "密钥 JSON 必须包含 access_token";
    _ <-- guard (negb (blank (String_of (js_or (get o "account_id") (JStr []))))) "密钥 JSON 必须包含 account_id";
    Ok (put l "key" (JStr (default [] (stringify (JObj o)))))
  | Some _ => Blocked (js "密钥必须是 JSON 对象")
  end.

(** The keys of the files, read again where none are at hand *)
Definition file_keys (k : key_input) : step (list jval) :=
  match vertexKeys k, vertexFileList k with
  | [], (_ :: _) as files =>
    match mapM (λ f, match f with Some txt => parse txt | None => Some JNull end) files with
    | Some l => Ok (List.filter truthy l)
    | None => Blocked (js "解析密钥文件失败")
    end
  | keys, _ => Ok keys
  end.
Definition vertex_key (d : dialog) (l : obj) : step obj :=
  if negb (is_type (get l "type") 41) then Ok l
  else if strict_eq (js_or (get l "vertex_key_type") (JStr (js "json"))) (JStr (js "api_key")) then
    if isEdit d then Ok l else missing <-- missing_text (get l "key"); _ <-- guard (negb missing) "请输入密钥！"; Ok l
  else if useManualInput (keys_in d) then
    missing <-- missing_text (get l "key");
    if missing then _ <-- guard (isEdit d) "请输入密钥！"; Ok l
    else match parse (String_of (get l "key")) with
         | Some parsedKey => Ok (put l "key" (JStr (default [] (stringify parsedKey))))
         | None => Blocked (js "密钥格式无效，请输入有效的 JSON 格式密钥")
         end
  else
    keys <-- file_keys (keys_in d);
    match keys with
    | [] => _ <-- guard (isEdit d) "请上传密钥文件！"; Ok (drop_all l ["key"]%string)
    | first :: _ => Ok (put l "key" (JStr (default [] (stringify (if batch (keys_in d) then JArr keys else first)))))
    end.

(** An edit without a key sends none; then what every channel needs *)
Definition required (d : dialog) (l : obj) : step obj :=
  l <-- (if isEdit d then missing <-- missing_text (get l "key"); Ok (if missing then drop_all l ["key"]%string else l) else Ok l);
  let l := drop_all l ["vertex_files"]%string in
  _ <-- guard (isEdit d || truthy (get l "name") && truthy (get l "key")) "请填写渠道名称和渠道密钥！";
  _ <-- guard (match get l "models" with JArr (_ :: _) => true | _ => false end) "请至少选择一个模型！";
  if is_type (get l "type") 45 then missing <-- missing_text (get l "base_url"); _ <-- guard (negb missing) "请输入API地址！"; Ok l else Ok l.

Definition hasModelConfigChanged (d : dialog) (normalizedModels : list jsstr) (modelMapping : jsstr) : bool :=
  if negb (isEdit d) then true
  else if negb (bool_decide (normalizedModels = initialModels (origin d))) then true
  else negb (streq (trim modelMapping) (trim (String_of (js_or (initialModelMapping (origin d)) (JStr []))))).
(** The names of the mapping that are not among the models *)
Definition missing_models (parsedModelMapping : jval) (normalizedModels : list jsstr) : list jsstr :=
  match parsedModelMapping with
  | JObj o => List.filter (λ key, negb (is_empty key) && negb (existsb (streq key) normalizedModels)) (map trim (own_keys o))
  | _ => []
  end.

Section Questions.
(** The answers to the two questions *)
Context (confirmMissingModelMappings : list jsstr → choice) (confirmStatusCodeRisk : list jsstr → bool).

Definition models_of (d : dialog) (l : obj) : step (obj * dialog) :=
  let mapping := match get l "model_mapping" with JStr s => s | _ => [] end in
  parsed <-- (if blank mapping then Ok JNull else match parse mapping with Some v => Ok v | None => Blocked (js "模型映射必须是合法的 JSON 格式！") end);
  normalizedModels <-- match get l "models" with
                       | JArr ms => match trim_models ms with Some ns => Ok (filter_truthy ns) | None => Thrown end
                       | _ => Thrown
                       end;
  let missingModels := missing_models parsed normalizedModels in
  let plain := put l "models" (JArr (map JStr normalizedModels)) in
  if (0 <? length missingModels) && hasModelConfigChanged d normalizedModels mapping then
    match confirmMissingModelMappings missingModels with
    | Cancel => Blocked []
    | SubmitAnyway => Ok (plain, d)
    | AddModels =>
      let updatedModels := JArr (map JStr (uniq (normalizedModels ++ missingModels))) in
      Ok (put l "models" updatedModels, changed_or d (handleInputChange d "models" updatedModels d))
    end
  else Ok (plain, d).

Definition redirect_text (v : jval) : jsstr := match v with JStr s => s | _ => [] end.
Definition status_of (d : dialog) (l : obj) : step obj :=
  let mapping := redirect_text (get l "status_code_mapping") in
  let invalid := collectInvalidStatusCodeEntries mapping in
  if 0 <? length invalid then Blocked (js "状态码复写包含无效的状态码" ++ js ": " ++ join (js ", ") invalid)
  else let risky := collectNewDisallowedStatusCodeRedirects (redirect_text (initialStatusCodeMapping (origin d))) mapping in
       if (0 <? length risky) && negb (confirmStatusCodeRisk risky) then Blocked [] else Ok l.
End Questions.

Definition tidy_fields (l : obj) : step obj :=
  l <-- match get l "base_url" with
        | JStr s => Ok (if ends_with (js "/") s then put l "base_url" (JStr (take (length s - 1) s)) else l)
        | v => if truthy v then Thrown else Ok l
        end;
  Ok (if is_type (get l "type") 18 && strict_eq (get l "other") (JStr []) then put l "other" (JStr (js "v2.1")) else l).

Definition channelExtraSettings (l : obj) : obj := map (λ e, (js e.1, js_or (get l e.1) e.2)) SETTING_FIELDS.

Definition rest_routes_of (v : jval) : step (list jval) :=
  match v with
  | JStr s => if blank s then Ok []
              else match parse s with
                   | None => Blocked (js "REST 路由必须是合法的 JSON 数组")
                   | Some (JArr routes) => Ok routes
                   | Some _ => Blocked (js "REST 路由必须是 JSON 数组")
                   end
  | _ => Ok []
  end.

(** The settings that depend on the type of the channel *)
Definition typed_settings (l settings : obj) : obj :=
  let ty := get l "type" in
  let flag k := JBool (is_true (get l k)) in
  let s := settings in
  let s := if is_type ty 20 then put s "openrouter_enterprise" (flag "is_enterprise_account"%string) else s in
  let s := if is_type ty 33 then put s "aws_key_type" (js_or (get l "aws_key_type") (JStr (js "ak_sk"))) else s in
  let s := if is_type ty 41 then put s "vertex_key_type" (js_or (get l "vertex_key_type") (JStr (js "json"))) else drop_all s ["vertex_key_type"]%string in
  let s := if is_type ty 1 || is_type ty 14 then put s "allow_service_tier" (flag "allow_service_tier"%string) else s in
  let s := if is_type ty 1 then put_all s (map (λ k, (k, flag k)) ["disable_store"; "allow_safety_identifier"; "allow_include_obfuscation"]%string) else s in
  if is_type ty 14 then put_all s (map (λ k, (k, flag k)) ["allow_inference_geo"; "allow_speed"; "claude_beta_query"]%string) else s.
Definition ignored_list (v : jval) : list jsstr := uniq (filter_truthy (map trim (split (js ",") (String_of (js_or v (JStr [])))))).
Definition update_flags (l settings : obj) : obj :=
  let check := is_true (get l "upstream_model_update_check_enabled") in
  put_all settings
    [("upstream_model_update_check_enabled", JBool check);
     ("upstream_model_update_auto_sync_enabled", JBool (check && is_true (get l "upstream_model_update_auto_sync_enabled")));
     ("upstream_model_update_ignored_models", JArr (map JStr (ignored_list (get l "upstream_model_update_ignored_models"))))]%string.
Definition detected_models (s : obj) : obj :=
  if is_array (get s "upstream_model_update_last_detected_models") && truthy (get s "upstream_model_update_check_enabled") then s
  else put s "upstream_model_update_last_detected_models" (JArr []).
Definition check_time (s : obj) : obj :=
  if is_number (get s "upstream_model_update_last_check_time") then s else put s "upstream_model_update_last_check_time" (num 0).
Definition update_settings (l settings : obj) : obj := check_time (detected_models (update_flags l settings)).
Definition settings_of (d : dialog) (l : obj) (routes : list jval) (settings : obj) : obj :=
  let s := update_settings l (typed_settings l settings) in
  let s := match routes with [] => drop_all s ["rest_routes"]%string | _ => put s "rest_routes" (JArr routes) end in
  put s "async_task" (JObj (buildAsyncTaskSaveConfig (readAsyncTaskConfigFromSettings (get (inputs d) "settings")))).

(** Properties of an array are not written; anything else that is no object throws. *)
Definition settings_text_of (d : dialog) (l : obj) (routes : list jval) : step jval :=
  match (if truthy (get l "settings") then default (JObj []) (parse (String_of (get l "settings"))) else JObj []) with
  | JObj o => Ok (JStr (default [] (stringify (JObj (settings_of d l routes o)))))
  | JArr a => Ok (JStr (default [] (stringify (JArr a))))
  | _ => Thrown
  end.

Definition REMOVED : list string :=
  ["force_format"; "thinking_to_content"; "proxy"; "pass_through_body_enabled"; "system_prompt"; "system_prompt_override"; "image_generation_model_prefixes";
   "is_enterprise_account"; "vertex_key_type"; "aws_key_type"; "allow_service_tier"; "disable_store"; "allow_safety_identifier"; "allow_include_obfuscation";
   "allow_inference_geo"; "allow_speed"; "claude_beta_query"; "upstream_model_update_check_enabled"; "upstream_model_update_auto_sync_enabled";
   "upstream_model_update_last_check_time"; "upstream_model_update_last_detected_models"; "upstream_model_update_ignored_models"; "rest_routes"]%string.
(** [v.join(',')] *)
Definition join_list (v : jval) : step jval := match v with JArr l => Ok (JStr (String_of (JArr l))) | _ => Thrown end.

Inductive request := Put (body : obj) | Post (mode : jsstr) (channel : obj).

Definition build_request (d : dialog) (l : obj) : step request :=
  let l := put l "setting" (JStr (default [] (stringify (JObj (channelExtraSettings l))))) in
  routes <-- rest_routes_of (get l "rest_routes");
  settings <-- settings_text_of d l routes;
  let l := drop_all (put l "settings" settings) REMOVED in
  let l := put l "auto_ban" (num (if truthy (get l "auto_ban") then 1 else 0)) in
  models <-- join_list (get l "models");
  let l := put l "models" models in
  group <-- join_list (js_or (get l "groups") (JArr []));
  let l := put l "group" group in
  Ok (match channelId d with
      | Some id => Put (put (put l "id" (JNum (parseInt (String_of id)))) "key_mode" (if isMultiKeyChannel (origin d) then JStr (keyMode (keys_in d)) else JUndef))
      | None => Post (js (if batch (keys_in d) then if multiToSingle (keys_in d) then "multi_to_single" else "batch" else "single")) l
      end).

Definition submit (confirmMissing : list jsstr → choice) (confirmRisk : list jsstr → bool) (d : dialog) : step (request * dialog) :=
  l <-- codex_key d (local_inputs d);
  l <-- vertex_key d l;
  l <-- required d l;
  r <-- models_of confirmMissing d l;
  l <-- status_of confirmRisk d r.1;
  l <-- tidy_fields l;
  req <-- build_request d l;
  Ok (req, r.2).
(** The answer of the server: a new channel leaves an empty form, and the form closes. *)
Definition submitted (close : dialog → dialog) (success : bool) (d : dialog) : dialog :=
  if success then close (if isEdit d then d else set_inputs (λ _, originInputs) d) else d.
