(* ===== verification/ChannelEditTheorems.v ===== *)
(** * The form of a channel: what holds of it

    What is sent for an edited channel never blanks its key, a new channel has a
    name, a key and models; saving a channel as it was opened keeps its settings.
    And the states one channel leaves behind for the next. *)

From S2P Require Import Prelude JsString JsNumber Json JsObject JsOrder ChannelForms AsyncTask AsyncTaskTheorems ChannelEdit.

Local Opaque js.

(** ** Members *)

Lemma get_put o k v k' : obj_get (put o k v) k' = if streq (js k) k' then v else obj_get o k'.
Proof. apply obj_get_set. Qed.
Lemma get_put_all l : ∀ o k, obj_get (put_all o l) k = fold_left (λ v e, if streq (js e.1) k then e.2 else v) l (obj_get o k).
Proof. induction l as [|e l IH]; intros o k; [done|]. cbn [put_all fold_left]. fold (put_all (put o e.1 e.2) l). by rewrite IH, get_put. Qed.
Lemma get_drop_all ks : ∀ o k, obj_get (drop_all o ks) k = if existsb (λ x, streq (js x) k) ks then JUndef else obj_get o k.
Proof.
  induction ks as [|x ks IH]; intros o k; [done|]. cbn [drop_all fold_left existsb]. fold (drop_all (obj_delete o (js x)) ks). rewrite IH, obj_get_delete.
  by destruct (existsb _ ks), (streq (js x) k).
Qed.

(** ** What the steps of a save touch *)

Definition TOUCHED : list string := ["key"; "vertex_files"; "models"; "base_url"; "other"]%string.
Definition untouched (k : jsstr) : bool := negb (existsb (λ x, streq (js x) k) TOUCHED).
Definition framed (l l' : obj) : Prop := ∀ k, untouched k = true → obj_get l' k = obj_get l k.

Lemma framed_refl l : framed l l.
Proof. done. Qed.
Lemma framed_trans l1 l2 l3 : framed l1 l2 → framed l2 l3 → framed l1 l3.
Proof. intros H1 H2 k Hk. by rewrite H2, H1. Qed.
Lemma framed_put l k v : k ∈ TOUCHED → framed l (put l k v).
Proof.
  intros Hk k' Hu. rewrite get_put. destruct (streq (js k) k') eqn:E; [|done]. unfold untouched in Hu. apply negb_true_iff, not_true_iff_false in Hu. destruct Hu.
  apply existsb_exists. exists k. split; [by apply list_elem_of_In|done].
Qed.
Lemma framed_drop l k : k ∈ TOUCHED → framed l (drop_all l [k]).
Proof.
  intros Hk k' Hu. rewrite get_drop_all. cbn [existsb]. rewrite orb_false_r. destruct (streq (js k) k') eqn:E; [|done].
  unfold untouched in Hu. apply negb_true_iff, not_true_iff_false in Hu. destruct Hu. apply existsb_exists. exists k. split; [by apply list_elem_of_In|done].
Qed.

Lemma Some_eq {A} (a b : A) : Some a = Some b → a = b.
Proof. congruence. Qed.
Lemma Ok_eq {A} (a b : A) : Ok a = Ok b → a = b.
Proof. congruence. Qed.

(** Takes a run of steps apart. *)
Ltac steps := repeat match goal with
  | H : Blocked _ = Ok _ |- _ => discriminate H
  | H : Thrown = Ok _ |- _ => discriminate H
  | H : and_then ?m _ = Ok _ |- _ => let E := fresh "E" in destruct m eqn:E; cbn [and_then] in H; try discriminate H
  | H : Ok _ = Ok _ |- _ => apply Ok_eq in H
  | H : guard ?b _ = Ok _ |- _ => unfold guard in H; let E := fresh "G" in destruct b eqn:E; [|discriminate H]
  end.

(** Skips the members whose names are known to differ. *)
Ltac others := repeat match goal with Hx : streq (js _) _ = false |- _ => rewrite ?Hx; clear Hx end.

#[local] Hint Resolve framed_refl : core.

Lemma codex_framed d l l' : codex_key d l = Ok l' → framed l l'.
Proof.
  unfold codex_key. destruct (negb _); [by intros [= <-]|]. intros H. steps. destruct (is_empty a0); [by injection H as <-|]. destruct (parse a0) as [[| | | | | |o]|]; try done.
  steps. subst. apply framed_put, elem_of_names. by vm_compute.
Qed.
Lemma vertex_framed d l l' : vertex_key d l = Ok l' → framed l l'.
Proof.
  unfold vertex_key. destruct (negb _); [by intros [= <-]|]. destruct (strict_eq _ _); [destruct (isEdit d); intros H; steps; by subst|].
  destruct (useManualInput _); intros H; steps.
  - destruct a; steps; [by subst|]. destruct (parse _); steps. subst. apply framed_put, elem_of_names. by vm_compute.
  - destruct a; steps; subst; [apply framed_drop|apply framed_put]; apply elem_of_names; by vm_compute.
Qed.
Lemma tidy_framed l l' : tidy_fields l = Ok l' → framed l l'.
Proof.
  unfold tidy_fields. intros H. steps. subst. eapply framed_trans with a.
  - destruct (get l "base_url") as [| | | |s| |]; try (destruct (truthy _); steps; by subst). destruct (ends_with _ s); steps; subst; [|done]. apply framed_put, elem_of_names. by vm_compute.
  - destruct (_ && _); [|done]. apply framed_put, elem_of_names. by vm_compute.
Qed.
Lemma models_framed ask d l r : models_of ask d l = Ok r → framed l r.1.
Proof.
  assert (Hm : ∀ v, framed l (put l "models" v)) by (intros v; apply framed_put, elem_of_names; by vm_compute).
  unfold models_of. intros H. steps. clear E E0. repeat case_match; steps; subst; apply Hm.
Qed.
Lemma status_same ask d l l' : status_of ask d l = Ok l' → l' = l.
Proof. unfold status_of. repeat case_match; try done. by intros [= <-]. Qed.

(** *** Keys *)

(** No key, or one that is not blank *)
Definition key_ok (v : jval) : Prop := v = JUndef ∨ ∃ s, v = JStr s ∧ blank s = false.

Lemma missing_ok v b : missing_text v = Ok b → b = false → ∃ s, v = JStr s ∧ blank s = false.
Proof. unfold missing_text. destruct (truthy v); [|by intros [= <-]]. destruct v; try done. intros [= <-] ?. by eexists. Qed.

Lemma required_ok d l l' : required d l = Ok l' → framed l l' ∧ (if isEdit d then key_ok (get l' "key") else truthy (get l' "name") = true ∧ truthy (get l' "key") = true) ∧
  ∃ m ms, get l' "models" = JArr (m :: ms).
Proof.
  unfold required. intros H. steps. set (l1 := drop_all a ["vertex_files"%string]) in *.
  assert (Hl : l' = l1) by (destruct (is_type _ _); steps; by subst). subst l'. clear H.
  assert (Hg : ∀ k, streq (js "vertex_files") (js k) = false → get l1 k = get a k).
  { intros k Hk. unfold get, l1. rewrite get_drop_all. cbn [existsb]. by rewrite Hk. }
  assert (Hf : framed l a ∧ (isEdit d = true → key_ok (get a "key"))).
  { destruct (isEdit d); [|injection E as <-; by split]. steps. destruct a2.
    - subst a. split; [apply framed_drop, elem_of_names; by vm_compute|]. intros _. left. unfold get. rewrite get_drop_all. cbn [existsb]. by rewrite streq_refl.
    - subst a. split; [done|]. intros _. right. by eapply missing_ok. }
  destruct Hf as [Hf Hk]. split_and!.
  - eapply framed_trans; [exact Hf|]. apply framed_drop, elem_of_names. by vm_compute.
  - destruct (isEdit d); [rewrite Hg by (by vm_compute); by apply Hk|]. cbn [orb] in G0. by apply andb_true_iff in G0.
  - destruct (get l1 "models") as [| | | | |[|m ms]|]; try done. by exists m, ms.
Qed.

Lemma models_keep ask d l r k : models_of ask d l = Ok r → streq (js "models") k = false → obj_get r.1 k = obj_get l k.
Proof.
  intros H Hk. assert (Hm : ∀ v, obj_get (put l "models" v) k = obj_get l k) by (intros v; by rewrite get_put, Hk).
  unfold models_of in H. steps. clear E E0. repeat case_match; steps; subst; apply Hm.
Qed.
Lemma tidy_keep l l' k : tidy_fields l = Ok l' → streq (js "base_url") k = false → streq (js "other") k = false → obj_get l' k = obj_get l k.
Proof.
  unfold tidy_fields. intros H H1 H2. steps. subst. transitivity (obj_get a k).
  - destruct (_ && _); [by rewrite get_put, H2|done].
  - destruct (get l "base_url") as [| | | |s| |]; try (destruct (truthy _); steps; by subst). destruct (ends_with _ s); steps; subst; [by rewrite get_put, H1|done].
Qed.

(** A save that sends something: what it has collected *)
Lemma submit_parts cm cr d req d' : submit cm cr d = Ok (req, d') → ∃ l, build_request d l = Ok req ∧ framed (local_inputs d) l ∧
  if isEdit d then key_ok (get l "key") else truthy (get l "name") = true ∧ truthy (get l "key") = true.
Proof.
  unfold submit. intros H. steps. rename H into Hreq. exists a4. destruct (required_ok _ _ _ E1) as (Hf & Hk & _).
  pose proof (status_same _ _ _ _ E3) as ->. injection Hreq as -> _. split; [done|]. split.
  - eapply framed_trans; [by eapply codex_framed|]. eapply framed_trans; [by eapply vertex_framed|]. eapply framed_trans; [exact Hf|].
    eapply framed_trans; [by eapply models_framed|by eapply tidy_framed].
  - assert (Hkeep : ∀ k, streq (js "models") (js k) = false → streq (js "base_url") (js k) = false → streq (js "other") (js k) = false → get a4 k = get a1 k).
    { intros k H1 H2 H3. unfold get. rewrite (tidy_keep _ _ _ E4 H2 H3). by eapply models_keep. }
    by destruct (isEdit d); rewrite !Hkeep by (by vm_compute).
Qed.

(** What the request takes over *)
Definition SENT : list string := ["setting"; "settings"; "auto_ban"; "models"; "group"; "id"; "key_mode"]%string.
Lemma request_keeps d l req k : build_request d l = Ok req → existsb (λ x, streq (js x) k) (SENT ++ REMOVED) = false →
  obj_get (match req with Put b => b | Post _ b => b end) k = obj_get l k.
Proof.
  unfold build_request. intros H Hk. steps. rewrite existsb_app in Hk. apply orb_false_iff in Hk as [Hs Hr]. cbn [existsb SENT] in Hs.
  repeat (apply orb_false_iff in Hs as [? Hs]). subst. clear E E0 E1 E2.
  destruct (channelId d); repeat (rewrite get_put || rewrite get_drop_all); rewrite Hr; by others.
Qed.

(** C21. Keys: an edited channel is sent without a key or with one that is not blank,
    so a save never blanks a stored key; a new channel is sent with a name and a
    key. *)
Theorem keys_never_blanked cm cr d req d' : submit cm cr d = Ok (req, d') →
  match req with
  | Put body => isEdit d = true ∧ key_ok (get body "key")
  | Post _ channel => isEdit d = false ∧ truthy (get channel "name") = true ∧ truthy (get channel "key") = true
  end.
Proof.
  intros H. destruct (submit_parts _ _ _ _ _ H) as (l & Hr & _ & Hk).
  assert (Hput : match req with Put _ => isEdit d = true | Post _ _ => isEdit d = false end).
  { unfold build_request in Hr. steps. subst. unfold isEdit. by destruct (channelId d). }
  pose proof (request_keeps d l req (js "key") Hr) as H1. pose proof (request_keeps d l req (js "name") Hr) as H2.
  destruct req; rewrite Hput in *; (split; [done|]); unfold get in *; rewrite ?H1, ?H2 by (by vm_compute); done.
Qed.

(** ** A channel saved as it was opened *)

Definition assoc (l : list (string * jval)) (k : string) : jval := default JUndef (snd <$> List.find (λ e, String.eqb e.1 k) l).
Definition LOADED : list string :=
  ["vertex_key_type"; "aws_key_type"; "is_enterprise_account"; "allow_service_tier"; "disable_store"; "allow_safety_identifier"; "allow_include_obfuscation";
   "allow_inference_geo"; "allow_speed"; "claude_beta_query"; "upstream_model_update_check_enabled"; "upstream_model_update_auto_sync_enabled";
   "upstream_model_update_ignored_models"; "rest_routes"]%string.

Lemma get_default_url o k : streq (js "base_url") k = false → obj_get (default_url o) k = obj_get o k.
Proof. intros H. unfold default_url. destruct (_ && _); [by rewrite get_put, H|done]. Qed.

(** Case analysis on the name in a list *)
Ltac each_name H := repeat (apply elem_of_cons in H as [->|H]); [..|by apply elem_of_nil in H].

Lemma setting_keeps o k : existsb (λ e, streq (js e.1) k) SETTING_FIELDS = false → obj_get (load_setting o) k = obj_get o k.
Proof.
  intros H. unfold load_setting. rewrite get_put_all. cbn [existsb SETTING_FIELDS fst] in H. repeat (apply orb_false_iff in H as [? H]).
  destruct (if truthy _ then _ else _); cbn [map fold_left SETTING_FIELDS fst snd]; by others.
Qed.

Lemma loaded_keeps data i k : load_inputs data = Some i →
  existsb (λ x, streq (js x) k) (map fst (SETTING_FIELDS ++ OTHER_DEFAULTS) ++ ["azure_responses_version"; "region"; "base_url"; "models"; "groups"; "model_mapping"]%string) = false →
  obj_get i k = obj_get data k.
Proof.
  unfold load_inputs. intros H Hk. destruct (split_list (get data "models")) as [m|]; [|done]. destruct (split_list (get data "group")) as [g|]; [|done].
  destruct (pretty_mapping _) as [mm|]; [|done]. apply Some_eq in H as <-.
  rewrite map_app, !existsb_app in Hk. apply orb_false_iff in Hk as [Hk H3]. apply orb_false_iff in Hk as [H1 H2].
  cbn [existsb] in H3. repeat (apply orb_false_iff in H3 as [? H3]). rewrite get_default_url by done. unfold load_other. rewrite get_put_all.
  assert (Hs : ∀ l, existsb (λ e : string * jval, streq (js e.1) k) l = false → ∀ v, fold_left (λ v e, if streq (js e.1) k then e.2 else v) l v = v).
  { induction l as [|e l IH]; intros He v; [done|]. cbn [existsb fold_left] in *. apply orb_false_iff in He as [He Hl]. rewrite He. by apply IH. }
  assert (Hm : ∀ l, existsb (λ x, streq (js x) k) (map fst l) = existsb (λ e : string * jval, streq (js e.1) k) l).
  { induction l as [|e l IH]; [done|]. cbn [existsb map]. by rewrite IH. }
  rewrite Hm in H1, H2. etrans; [apply Hs|].
  - cbn [existsb OTHER_DEFAULTS fst] in H2. repeat (apply orb_false_iff in H2 as [? H2]).
    destruct (truthy _); [destruct (parsed_or_none _)|]; cbn [read_other app OTHER_DEFAULTS existsb fst];
      by others.
  - rewrite setting_keeps by done. rewrite get_put_all. cbn [fold_left fst snd]. by others.
Qed.

Lemma loaded_member data i t o k : load_inputs data = Some i → get data "settings" = JStr t → parse t = Some (JObj o) → k ∈ LOADED →
  get i k = assoc (read_other (JObj o)) k.
Proof.
  unfold load_inputs. intros H Ht Hp Hk. destruct (split_list (get data "models")) as [m|]; [|done]. destruct (split_list (get data "group")) as [g|]; [|done].
  destruct (pretty_mapping _) as [mm|]; [|done]. apply Some_eq in H as <-. unfold get at 1. set (base := put_all data _).
  assert (Hs : get (load_setting base) "settings" = JStr t).
  { unfold get. rewrite setting_keeps by (by vm_compute). unfold base. rewrite get_put_all. cbn [fold_left fst snd]. names. exact Ht. }
  assert (Hne : truthy (JStr t) = true). { destruct t; [|done]. assert (He : parse [] = None) by by vm_compute. by rewrite He in Hp. }
  assert (Hb : obj_get (default_url (load_other (load_setting base))) (js k) = obj_get (load_other (load_setting base)) (js k)).
  { apply get_default_url. each_name Hk; by vm_compute. }
  rewrite Hb. unfold load_other. rewrite Hs, Hne. unfold parsed_or_none. cbn [String_of]. rewrite Hp, get_put_all. clear -Hk.
  generalize (obj_get (load_setting base) (js k)). intros v0. unfold read_other. cbv zeta. each_name Hk; cbn [fold_left fst snd]; names; reflexivity.
Qed.

(** *** Members of the saved settings *)

Definition MANAGED : list string :=
  ["openrouter_enterprise"; "aws_key_type"; "vertex_key_type"; "allow_service_tier"; "disable_store"; "allow_safety_identifier"; "allow_include_obfuscation";
   "allow_inference_geo"; "allow_speed"; "claude_beta_query"; "upstream_model_update_check_enabled"; "upstream_model_update_auto_sync_enabled";
   "upstream_model_update_ignored_models"; "upstream_model_update_last_detected_models"; "upstream_model_update_last_check_time"; "rest_routes"; "async_task"]%string.

Lemma get_put_if (c : bool) s a v k : obj_get (if c then put s a v else s) k = if c && streq (js a) k then v else obj_get s k.
Proof. destruct c; [by rewrite get_put|done]. Qed.
Lemma get_put_all_if (c : bool) s l k : obj_get (if c then put_all s l else s) k = if c then fold_left (λ v e, if streq (js e.1) k then e.2 else v) l (obj_get s k) else obj_get s k.
Proof. destruct c; [by rewrite get_put_all|done]. Qed.

Lemma get_typed l s k : obj_get (typed_settings l s) k =
  let ty := get l "type" in
  let flag x := JBool (is_true (get l x)) in
  let v := obj_get s k in
  let v := if is_type ty 20 && streq (js "openrouter_enterprise") k then flag "is_enterprise_account"%string else v in
  let v := if is_type ty 33 && streq (js "aws_key_type") k then js_or (get l "aws_key_type") (JStr (js "ak_sk")) else v in
  let v := if streq (js "vertex_key_type") k then if is_type ty 41 then js_or (get l "vertex_key_type") (JStr (js "json")) else JUndef else v in
  let v := if (is_type ty 1 || is_type ty 14) && streq (js "allow_service_tier") k then flag "allow_service_tier"%string else v in
  let set v x := if streq (js x) k then flag x else v in
  let v := if is_type ty 1 then fold_left set ["disable_store"; "allow_safety_identifier"; "allow_include_obfuscation"]%string v else v in
  if is_type ty 14 then fold_left set ["allow_inference_geo"; "allow_speed"; "claude_beta_query"]%string v else v.
Proof.
  unfold typed_settings. cbv zeta. rewrite !get_put_all_if, get_put_if. destruct (is_type (get l "type") 41).
  - rewrite get_put, !get_put_if. cbn [map fold_left fst snd]. by destruct (streq (js "vertex_key_type") k).
  - rewrite get_drop_all, !get_put_if. cbn [map fold_left fst snd existsb]. rewrite orb_false_r. by destruct (streq (js "vertex_key_type") k).
Qed.

Lemma get_flags l s k : obj_get (update_flags l s) k =
  let check := is_true (get l "upstream_model_update_check_enabled") in
  if streq (js "upstream_model_update_ignored_models") k then JArr (map JStr (ignored_list (get l "upstream_model_update_ignored_models")))
  else if streq (js "upstream_model_update_auto_sync_enabled") k then JBool (check && is_true (get l "upstream_model_update_auto_sync_enabled"))
  else if streq (js "upstream_model_update_check_enabled") k then JBool check else obj_get s k.
Proof. unfold update_flags. cbv zeta. by rewrite get_put_all. Qed.
Lemma get_detected s k : obj_get (detected_models s) k =
  if streq (js "upstream_model_update_last_detected_models") k
  then if is_array (obj_get s k) && truthy (get s "upstream_model_update_check_enabled") then obj_get s k else JArr [] else obj_get s k.
Proof.
  unfold detected_models. destruct (streq (js "upstream_model_update_last_detected_models") k) eqn:E.
  - apply streq_true in E as <-. fold (get s "upstream_model_update_last_detected_models"). destruct (is_array _ && truthy _); [done|]. rewrite get_put. by rewrite streq_refl.
  - destruct (is_array _ && truthy _); [done|]. by rewrite get_put, E.
Qed.
Lemma get_time s k : obj_get (check_time s) k =
  if streq (js "upstream_model_update_last_check_time") k then if is_number (obj_get s k) then obj_get s k else num 0 else obj_get s k.
Proof.
  unfold check_time. destruct (streq (js "upstream_model_update_last_check_time") k) eqn:E.
  - apply streq_true in E as <-. fold (get s "upstream_model_update_last_check_time"). destruct (is_number _); [done|]. rewrite get_put. by rewrite streq_refl.
  - destruct (is_number _); [done|]. by rewrite get_put, E.
Qed.

Lemma get_settings d l routes s k : obj_get (settings_of d l routes s) k =
  if streq (js "async_task") k then JObj (buildAsyncTaskSaveConfig (readAsyncTaskConfigFromSettings (get (inputs d) "settings")))
  else if streq (js "rest_routes") k then match routes with [] => JUndef | _ => JArr routes end
  else obj_get (update_settings l (typed_settings l s)) k.
Proof.
  unfold settings_of. cbv zeta. rewrite get_put. destruct (streq (js "async_task") k); [done|]. destruct routes as [|x routes].
  - rewrite get_drop_all. cbn [existsb]. by rewrite orb_false_r.
  - by rewrite get_put.
Qed.

(** What saving a channel of type [ty] makes of a member of its settings *)
Definition resaved (ty : jval) (o : obj) (k : string) : jval :=
  let v := get o k in
  let flag := JBool (is_true v) in
  let check := is_true (get o "upstream_model_update_check_enabled") in
  let among ks := existsb (String.eqb k) ks in
  if among ["openrouter_enterprise"]%string then if is_type ty 20 then flag else v
  else if among ["aws_key_type"]%string then if is_type ty 33 then js_or v (JStr (js "ak_sk")) else v
  else if among ["vertex_key_type"]%string then if is_type ty 41 then js_or v (JStr (js "json")) else JUndef
  else if among ["allow_service_tier"]%string then if is_type ty 1 || is_type ty 14 then flag else v
  else if among ["disable_store"; "allow_safety_identifier"; "allow_include_obfuscation"]%string then if is_type ty 1 then flag else v
  else if among ["allow_inference_geo"; "allow_speed"; "claude_beta_query"]%string then if is_type ty 14 then flag else v
  else if among ["upstream_model_update_check_enabled"]%string then flag
  else if among ["upstream_model_update_auto_sync_enabled"]%string then JBool (check && is_true v)
  else if among ["upstream_model_update_ignored_models"]%string then JArr (map JStr (ignored_list (JStr (match v with JArr l => String_of (JArr l) | _ => [] end))))
  else if among ["upstream_model_update_last_detected_models"]%string then if is_array v && check then v else JArr []
  else if among ["upstream_model_update_last_check_time"]%string then if is_number v then v else num 0
  else if among ["rest_routes"]%string then match v with JArr (_ :: _) => ordered v | _ => JUndef end
  else v.

Definition FLAGS : list string := removelast LOADED.
Lemma true_or v : is_true (js_or v (JBool false)) = is_true v.
Proof. by destruct v as [| |[]| | | |]; unfold js_or; case_match. Qed.

Lemma or_twice v d : js_or (js_or v d) d = js_or v d.
Proof. unfold js_or. destruct (truthy v) eqn:E; [by rewrite E|]. by destruct (truthy d). Qed.

Lemma flags_loaded l o : (∀ x, x ∈ FLAGS → get l x = assoc (read_other (JObj o)) x) →
  is_true (get l "is_enterprise_account") = is_true (get o "openrouter_enterprise") ∧
  get l "vertex_key_type" = js_or (get o "vertex_key_type") (JStr (js "json")) ∧ get l "aws_key_type" = js_or (get o "aws_key_type") (JStr (js "ak_sk")) ∧
  get l "upstream_model_update_ignored_models" = JStr (match get o "upstream_model_update_ignored_models" with JArr x => String_of (JArr x) | _ => [] end) ∧
  Forall (λ x, is_true (get l x) = is_true (get o x))
    ["allow_service_tier"; "disable_store"; "allow_safety_identifier"; "allow_include_obfuscation"; "allow_inference_geo"; "allow_speed"; "claude_beta_query";
     "upstream_model_update_check_enabled"; "upstream_model_update_auto_sync_enabled"]%string.
Proof.
  intros Hl. assert (Hf : ∀ x, existsb (String.eqb x) FLAGS = true → get l x = assoc (read_other (JObj o)) x).
  { intros x (y & Hy & ->%String.eqb_eq)%existsb_exists. by apply Hl, list_elem_of_In. }
  assert (Hb : ∀ b, is_true (JBool b) = b) by by intros [].
  split_and!; try (rewrite Hf by (by vm_compute); try reflexivity).
  - change (is_true (JBool (is_true (get o "openrouter_enterprise"))) = is_true (get o "openrouter_enterprise")). apply Hb.
  - repeat (apply Forall_cons; split; [rewrite Hf by (by vm_compute)|]); [..|constructor].
    all: match goal with |- is_true (assoc _ ?x) = _ => first
      [change (is_true (js_or (get o x) (JBool false)) = is_true (get o x)); apply true_or|change (is_true (JBool (is_true (get o x))) = is_true (get o x)); apply Hb] end.
Qed.

Lemma managed_saved d l o routes k : (∀ x, x ∈ FLAGS → get l x = assoc (read_other (JObj o)) x) →
  match get o "rest_routes" with JArr (_ :: _) => JArr routes = ordered (get o "rest_routes") | _ => routes = [] end →
  k ∈ removelast MANAGED → get (settings_of d l routes o) k = resaved (get l "type") o k.
Proof.
  intros Hl Hr Hk. destruct (flags_loaded l o Hl) as (He & Hv & Ha & Hi & Hf). repeat (apply Forall_cons in Hf as [? Hf]).
  assert (Hc : truthy (get (update_flags l (typed_settings l o)) "upstream_model_update_check_enabled") = is_true (get o "upstream_model_update_check_enabled")).
  { unfold get at 1. rewrite get_flags. cbv zeta. names. cbn [truthy]. assumption. }
  unfold get at 1. rewrite get_settings. unfold update_settings. rewrite get_time, get_detected. unfold get at 2. rewrite !get_flags, !get_typed. cbv zeta. clear Hl.
  cbn [removelast MANAGED] in Hk. each_name Hk; cbn [fold_left]; names; unfold resaved; cbv [existsb String.eqb Ascii.eqb Bool.eqb orb]; cbn [andb];
    rewrite ?He, ?Hv, ?Ha, ?Hi, ?or_twice; repeat match goal with Hx : is_true (get l _) = _ |- _ => rewrite ?Hx; clear Hx end;
    unfold get in *; try done; try (by destruct (is_type (obj_get l (js "type")) 14), (is_type (obj_get l (js "type")) 1)).
  - rewrite Hc. by destruct (is_type (obj_get l (js "type")) 14), (is_type (obj_get l (js "type")) 1).
  - destruct (obj_get o (js "rest_routes")) as [| | | | |[|x xs]|]; try by rewrite Hr. by destruct routes.
Qed.

Lemma unmanaged_saved d l o routes k : existsb (λ x, streq (js x) k) MANAGED = false → obj_get (settings_of d l routes o) k = obj_get o k.
Proof.
  intros Hk. cbn [existsb MANAGED] in Hk. repeat (apply orb_false_iff in Hk as [? Hk]). rewrite get_settings. unfold update_settings.
  rewrite get_time, get_detected, get_flags, get_typed. cbv zeta. cbn [fold_left].
  others. rewrite !andb_false_r. by destruct (is_type _ 14), (is_type _ 1).
Qed.
