(* ===== verification/ChannelEditSave.v ===== *)
(** * The form of a channel: saving what was opened

    A channel saved as it was opened keeps its settings: members the form does not
    manage stay, those it manages are brought into their normal form, and a second
    save changes nothing more. *)

From S2P Require Import Prelude JsString JsNumber Json JsObject JsOrder ChannelForms AsyncTask AsyncTaskTheorems ChannelEdit ChannelEditTheorems.

Local Opaque js.

(** ** The saved settings have a text *)

Definition fit (o : obj) : Prop := json_fit (JObj o) = true.

Lemma fit_put o k v : fit o → json_fit v = true → forallb unit_ok (js k) = true → fit (put o k v).
Proof. intros Ho Hv Hk. by apply fit_set. Qed.
Lemma fit_drop o k : fit o → fit (obj_delete o k).
Proof.
  unfold fit. cbn [json_fit]. rewrite !andb_true_iff, !bool_decide_eq_true, !forallb_forall. intros [[H1 H2] H3].
  split_and!; [intros e He|by apply obj_delete_keys|intros e He]; apply filter_In in He as [He _]; auto.
Qed.
Lemma fit_or v d : fits v → json_fit d = true → json_fit (js_or v d) = true.
Proof. intros Hv Hd. unfold js_or. destruct (truthy v) eqn:E; [|done]. by destruct Hv as [->|Hv]. Qed.

Lemma typed_fit l s : fit s → fits (get l "aws_key_type") → fits (get l "vertex_key_type") → fit (typed_settings l s).
Proof.
  intros Hs Ha Hv. unfold typed_settings. cbv zeta.
  assert (Hput : ∀ (c : bool) o k v, fit o → json_fit v = true → forallb unit_ok (js k) = true → fit (if c then put o k v else o)).
  { intros [] o k v Ho Hj Hk; [by apply fit_put|done]. }
  assert (Hall : ∀ (c : bool) o ks, fit o → forallb (λ k, forallb unit_ok (js k)) ks = true → fit (if c then put_all o (map (λ k, (k, JBool (is_true (get l k)))) ks) else o)).
  { intros [] o ks Ho Hk; [|done]. revert o Ho. induction ks as [|k ks IH]; intros o Ho; [done|]. cbn [map put_all fold_left fst snd forallb] in *.
    apply andb_true_iff in Hk as [Hk Hks]. apply IH; [done|]. by apply fit_put. }
  apply Hall; [|by vm_compute]. apply Hall; [|by vm_compute]. apply Hput; [|done|by vm_compute].
  destruct (is_type _ 41); [apply fit_put; [|by apply fit_or|by vm_compute]|apply fit_drop];
    (apply Hput; [apply Hput; [done|done|by vm_compute]|by apply fit_or|by vm_compute]).
Qed.

Lemma ignored_fit t : forallb unit_ok t = true → json_fit (JArr (map JStr (ignored_list (JStr t)))) = true.
Proof.
  intros Ht. cbn [json_fit]. rewrite forallb_forall. intros v (s & <- & Hs%list_elem_of_In)%in_map_iff. cbn [json_fit]. rewrite forallb_forall.
  intros c Hc%list_elem_of_In. unfold ignored_list in Hs. apply (proj1 (elem_of_uniq _ _)) in Hs. unfold filter_truthy in Hs.
  apply list_elem_of_In, filter_In in Hs as [Hs _]. apply in_map_iff in Hs as (p & <- & Hp%list_elem_of_In). apply trim_elem in Hc.
  destruct (split_go_elem _ _ _ _ _ _ Hp Hc) as [?%elem_of_nil|Hin]; [done|]. rewrite forallb_forall in Ht. apply Ht, list_elem_of_In.
  destruct t; [by apply elem_of_nil in Hin|exact Hin].
Qed.

Lemma settings_fit d l o routes t : fit o → fits (get l "aws_key_type") → fits (get l "vertex_key_type") → get l "upstream_model_update_ignored_models" = JStr t →
  forallb unit_ok t = true → json_fit (JArr routes) = true →
  fit (buildAsyncTaskSaveConfig (readAsyncTaskConfigFromSettings (get (inputs d) "settings"))) → fit (settings_of d l routes o).
Proof.
  intros Ho Ha Hv Hi Ht Hr Htask. unfold settings_of. cbv zeta. apply fit_put; [|done|by vm_compute].
  assert (Hu : fit (update_settings l (typed_settings l o))).
  { assert (Hfl : fit (update_flags l (typed_settings l o))).
    { unfold update_flags. cbv zeta. cbn [put_all fold_left fst snd]. rewrite Hi. repeat (apply fit_put; [|first [done|by apply ignored_fit]|by vm_compute]). by apply typed_fit. }
    unfold update_settings, check_time, detected_models. set (o1 := if is_array _ && _ then _ else _).
    assert (H1 : fit o1) by (unfold o1; destruct (_ && _); [done|by apply fit_put; [| |vm_compute]]).
    destruct (is_number _); [done|by apply fit_put; [| |vm_compute]]. }
  destruct routes; [by apply fit_drop|by apply fit_put; [| |vm_compute]].
Qed.

(** ** What is sent *)

Definition body_of (req : request) : obj := match req with Put body => body | Post _ channel => channel end.
Definition sent_inputs (l : obj) : obj := put l "setting" (JStr (default [] (stringify (JObj (channelExtraSettings l))))).

Lemma request_settings d l req : build_request d l = Ok req → ∃ routes,
  rest_routes_of (get (sent_inputs l) "rest_routes") = Ok routes ∧ settings_text_of d (sent_inputs l) routes = Ok (get (body_of req) "settings").
Proof.
  unfold build_request. intros H. steps. exists a. split; [done|]. etrans; [exact E0|]. f_equal. subst req. clear. unfold body_of, get.
  destruct (channelId d); repeat (rewrite get_put || rewrite get_drop_all); names; by cbn [existsb REMOVED]; names.
Qed.

Lemma local_form d k : existsb (λ x, streq (js x) k) INPUT_FIELDS = false → streq (js "image_generation_model_prefixes") k = false →
  obj_get (local_inputs d) k = obj_get (form d) k.
Proof.
  intros H1 H2. unfold local_inputs. rewrite get_put, H2, get_put_all. cbn [existsb INPUT_FIELDS] in H1. repeat (apply orb_false_iff in H1 as [? H1]).
  cbn [map fold_left fst snd INPUT_FIELDS]. by others.
Qed.
Lemma local_routes d : get (local_inputs d) "rest_routes" = get (inputs d) "rest_routes".
Proof. unfold local_inputs, get at 1. rewrite get_put, get_put_all. cbn [map fold_left fst snd INPUT_FIELDS]. by names. Qed.

(** ** A channel saved as it was opened *)

(** The form shows the channel [data] whose settings are the text [t] of [o]. *)
Definition shows (d : dialog) (data : obj) (t : jsstr) (o : obj) : Prop :=
  load_inputs data = Some (inputs d) ∧ get data "settings" = JStr t ∧ parse t = Some (JObj o) ∧
  ∀ k, k ∈ "type"%string :: "settings"%string :: FLAGS → get (form d) k = get (inputs d) k.
Definition ignored_text (o : obj) : jsstr := match get o "upstream_model_update_ignored_models" with JArr l => String_of (JArr l) | _ => [] end.
(** The texts of the settings are texts of Unicode, their numbers finite. *)
Definition writable (t : jsstr) (o : obj) : Prop := fit o ∧ forallb unit_ok (ignored_text o) = true ∧ savable (JStr t).

Lemma shown_inputs d data t o l : shows d data t o → framed (local_inputs d) l →
  get (sent_inputs l) "type" = get data "type" ∧ get (sent_inputs l) "settings" = JStr t ∧
  (∀ x, x ∈ FLAGS → get (sent_inputs l) x = assoc (read_other (JObj o)) x) ∧ get (sent_inputs l) "rest_routes" = get (inputs d) "rest_routes" ∧
  get (inputs d) "settings" = JStr t.
Proof.
  intros (Hload & Ht & Hp & Hform) Hf.
  assert (Hin : ∀ k, existsb (λ x, streq (js x) (js k)) ("setting" :: TOUCHED ++ INPUT_FIELDS ++ ["image_generation_model_prefixes"])%string = false →
    get (sent_inputs l) k = get (form d) k).
  { intros k Hk. cbn [existsb] in Hk. apply orb_false_iff in Hk as [H1 Hk]. rewrite !existsb_app in Hk. apply orb_false_iff in Hk as [H2 Hk]. apply orb_false_iff in Hk as [H3 H4].
    cbn [existsb] in H4. rewrite orb_false_r in H4. unfold get, sent_inputs. rewrite get_put, H1, Hf by (unfold untouched; by rewrite H2). by apply local_form. }
  assert (Hs : get (inputs d) "settings" = JStr t) by (etrans; [apply (loaded_keeps data); [done|by vm_compute]|exact Ht]).
  split_and!; [| | | |done].
  - rewrite Hin, Hform by first [by vm_compute|by left]. apply (loaded_keeps data); [done|by vm_compute].
  - rewrite Hin, Hform by first [by vm_compute|by right; left]. done.
  - intros x Hx. rewrite Hin.
    + rewrite Hform by (right; by right). eapply loaded_member; [done|done|done|]. change LOADED with (FLAGS ++ ["rest_routes"%string]). apply elem_of_app. by left.
    + assert (Hb : forallb (λ x, negb (existsb (λ y, streq (js y) (js x)) ("setting" :: TOUCHED ++ INPUT_FIELDS ++ ["image_generation_model_prefixes"])%string)) FLAGS = true)
        by by vm_compute.
      rewrite forallb_forall in Hb. apply list_elem_of_In in Hx. specialize (Hb _ Hx). by apply negb_true_iff in Hb.
  - unfold get at 1, sent_inputs. rewrite get_put. names. rewrite Hf by (by vm_compute). apply local_routes.
Qed.

Lemma routes_reread o routes : fit o → rest_routes_of (assoc (read_other (JObj o)) "rest_routes") = Ok routes →
  json_fit (JArr routes) = true ∧ match get o "rest_routes" with JArr (_ :: _) => JArr routes = ordered (get o "rest_routes") | _ => routes = [] end.
Proof.
  intros Ho. change (assoc (read_other (JObj o)) "rest_routes") with
    (JStr (match get o "rest_routes" with JArr [] => [] | JArr l => default [] (stringify2 (JArr l)) | _ => [] end)).
  destruct (get o "rest_routes") as [| | | | |[|x xs]|] eqn:E; try (intros [= <-]; done).
  assert (Hf : json_fit (JArr (x :: xs)) = true). { destruct (get_fits o (js "rest_routes") Ho) as [Hu|Hu]; unfold get in E; rewrite E in Hu; done. }
  destruct (parse_stringify_ordered (js "  ") _ eq_refl Hf) as (t & Ht & Hp). unfold stringify2. rewrite Ht. change (default [] (Some t)) with t.
  cbn [rest_routes_of]. rewrite (array_not_blank _ _ _ _ Ht), Hp. cbn [ordered]. intros H. apply Ok_eq in H as <-. split; [|done].
  change (json_fit (ordered (JArr (x :: xs))) = true). by apply fit_again.
Qed.

(** C22. Settings kept: saving a channel as it was opened writes settings that read
    back as the opened ones: members the form does not manage are unchanged, those
    it manages are what [resaved] says for the type of the channel, and the task is
    what the boxes of the task hold. *)
Theorem unchanged_settings_kept cm cr d data t o req d' : shows d data t o → writable t o → submit cm cr d = Ok (req, d') →
  ∃ t' o', get (body_of req) "settings" = JStr t' ∧ parse t' = Some (JObj o') ∧
    (∀ k, existsb (λ x, streq (js x) k) MANAGED = false → obj_get o' k = ordered (obj_get o k)) ∧
    (∀ k, k ∈ removelast MANAGED → get o' k = ordered (resaved (get data "type") o k)) ∧
    get o' "async_task" = ordered (JObj (buildAsyncTaskSaveConfig (readAsyncTaskConfigFromSettings (JStr t)))).
Proof.
  intros Hsh (Ho & Hu & Htask) H. destruct (submit_parts _ _ _ _ _ H) as (l & Hreq & Hfr & _). destruct (request_settings d l req Hreq) as (routes & Hro & Hs).
  destruct (shown_inputs d data t o l Hsh Hfr) as (Hty & Hset & Hfl & Hrr & Hin). pose proof Hsh as (Hload & Ht & Hp & _). set (l1 := sent_inputs l) in *.
  rewrite Hrr, (loaded_member data _ t o) in Hro by (try done; apply elem_of_names; by vm_compute).
  destruct (routes_reread o routes Ho Hro) as [Hfr' Hroutes]. destruct (flags_loaded l1 o Hfl) as (_ & Hv & Ha & Hi & _).
  assert (Hfit : fit (settings_of d l1 routes o)).
  { eapply settings_fit; [done| | |exact Hi|exact Hu|done|]; [rewrite Ha|rewrite Hv|].
    - right. apply fit_or; [by apply get_fits|by vm_compute].
    - right. apply fit_or; [by apply get_fits|by vm_compute].
    - rewrite Hin. apply fields_fit. intros k Hk. by apply Htask. }
  unfold settings_text_of in Hs. rewrite Hset in Hs.
  assert (Hne : truthy (JStr t) = true). { destruct t; [|done]. assert (He : parse [] = None) by by vm_compute. by rewrite He in Hp. }
  rewrite Hne in Hs. cbn [String_of] in Hs. rewrite Hp in Hs. change (default (JObj []) (Some (JObj o))) with (JObj o) in Hs. apply Ok_eq in Hs.
  destruct (parse_stringify_ordered [] _ eq_refl Hfit) as (t' & Ht' & Hp'). change (stringify_at [] []) with stringify in Ht'. rewrite Ht' in Hs.
  change (default [] (Some t')) with t' in Hs. cbn [ordered] in Hp'. eexists t', _. split_and!; [done|exact Hp'|..].
  all: assert (Hget : ∀ k, obj_get (own_entries (map (λ e, (e.1, ordered e.2)) (settings_of d l1 routes o))) k = ordered (obj_get (settings_of d l1 routes o) k))
    by (intros k; apply get_ordered; unfold fit in Hfit; cbn [json_fit] in Hfit; by bool_hyps).
  - intros k Hk. by rewrite Hget, unmanaged_saved.
  - intros k Hk. unfold get at 1. rewrite Hget. f_equal. rewrite <- Hty. by apply managed_saved.
  - unfold get at 1. rewrite Hget, get_settings. names. by rewrite Hin.
Qed.

(** ** Saving again *)

Lemma ignored_items t s : s ∈ ignored_list (JStr t) → trim s = s ∧ s ≠ [] ∧ 44%N ∉ s.
Proof.
  unfold ignored_list. intros Hs%(proj1 (elem_of_uniq _ _)). unfold filter_truthy in Hs. apply list_elem_of_In, filter_In in Hs as [Hs Hne].
  apply in_map_iff in Hs as (p & <- & Hp). split_and!; [apply trim_idemp|by destruct (trim p)|]. intros Hc%trim_elem.
  pose proof (split_absent 44%N (String_of (js_or (JStr t) (JStr [])))) as Ha. rewrite Forall_forall in Ha. by apply (Ha p); [apply list_elem_of_In|].
Qed.
Lemma ignored_again t : ignored_list (JStr (String_of (JArr (map JStr (ignored_list (JStr t)))))) = ignored_list (JStr t).
Proof.
  set (L := ignored_list (JStr t)).
  assert (HL : ∀ s, s ∈ L → trim s = s ∧ s ≠ [] ∧ 44%N ∉ s) by apply ignored_items. assert (Hn : NoDup L) by apply uniq_NoDup.
  assert (Hj : String_of (JArr (map JStr L)) = join (js ",") L).
  { cbn [String_of]. f_equal. rewrite map_map. apply map_id_in. done. }
  rewrite Hj. destruct L as [|x L'] eqn:EL; [by vm_compute|]. rewrite <- EL in *. unfold ignored_list at 1.
  assert (Ho : String_of (js_or (JStr (join (js ",") L)) (JStr [])) = join (js ",") L) by (by destruct (join (js ",") L)).
  rewrite Ho. change (js ",") with [44%N]. rewrite split_join_char; [|by rewrite EL|apply Forall_forall; intros s Hs; by apply HL].
  rewrite (map_id_in trim) by (intros s Hs; by apply HL, list_elem_of_In). rewrite filter_truthy_id by (apply Forall_forall; intros s Hs; by apply HL).
  by apply uniq_id.
Qed.

Lemma or_ordered v d : truthy d = true → js_or (ordered (js_or v d)) d = ordered (js_or v d).
Proof. intros Hd. unfold js_or. destruct (truthy v) eqn:E; rewrite ordered_truthy; [by rewrite E|by rewrite Hd]. Qed.
Lemma true_ordered v : is_true (ordered v) = is_true v.
Proof. by destruct v. Qed.

Lemma true_bool b : is_true (JBool b) = b.
Proof. by destruct b. Qed.

Lemma flag_again (c : bool) v : ordered (ordered v) = ordered v →
  ordered (if c then JBool (is_true (ordered (if c then JBool (is_true v) else v))) else ordered (if c then JBool (is_true v) else v)) =
  ordered (if c then JBool (is_true v) else v).
Proof. intros Hv. destruct c; [|done]. cbn [ordered]. by rewrite true_bool. Qed.

(** The normal form of the managed members is one: saving what was saved writes the
    same values. *)
Theorem resaved_settles ty o o' : fit o → (∀ k, k ∈ removelast MANAGED → get o' k = ordered (resaved ty o k)) →
  ∀ k, k ∈ removelast MANAGED → ordered (resaved ty o' k) = ordered (resaved ty o k).
Proof.
  intros Ho Hget k Hk. assert (Hv : fits (get o k)) by by apply get_fits.
  assert (Hid : ordered (ordered (get o k)) = ordered (get o k)) by (destruct Hv as [->|Hv]; [done|by apply ordered_idemp]).
  assert (Hc : is_true (get o' "upstream_model_update_check_enabled") = is_true (get o "upstream_model_update_check_enabled")).
  { rewrite Hget by (apply elem_of_names; by vm_compute). unfold resaved. cbv [existsb String.eqb Ascii.eqb Bool.eqb orb]. cbn [ordered]. apply true_bool. }
  pose proof (Hget k Hk) as Hg. cbn [removelast MANAGED] in Hk. revert Hg Hid Hv.
  each_name Hk; unfold resaved; cbv [existsb String.eqb Ascii.eqb Bool.eqb orb]; intros Hg Hid Hv; rewrite ?Hg, ?Hc.
  1,4,5,6,7,8,9,10: exact (flag_again _ _ Hid).
  - destruct (is_type ty 33); [|done]. rewrite or_ordered by by vm_compute. apply ordered_idemp, fit_or; [done|by vm_compute].
  - destruct (is_type ty 41); [|done]. rewrite or_ordered by by vm_compute. apply ordered_idemp, fit_or; [done|by vm_compute].
  - cbn [ordered]. by rewrite true_bool.
  - cbn [ordered]. rewrite true_bool, andb_assoc, andb_diag. reflexivity.
  - cbn [ordered]. rewrite !map_map. cbn [ordered]. by rewrite ignored_again.
  - revert Hid. generalize (is_true (get o "upstream_model_update_check_enabled")) (get o "upstream_model_update_last_detected_models"). clear.
    intros [] v Hid; [|by rewrite !andb_false_r]. destruct v; first [reflexivity|exact Hid].
  - generalize (get o "upstream_model_update_last_check_time"). clear. intros v. by destruct v.
  - revert Hid. generalize (get o "rest_routes"). clear. intros v Hid. destruct v as [| | | | |[|x xs]|]; try reflexivity. rewrite !Hid. cbn [ordered map] in *. congruence.
Qed.
