(* ===== verification/ChannelEditRuns.v ===== *)
(** * The form of a channel: runs

    Runs of the form from its first rendering: the channels the properties are
    applied to, and what one use of the form leaves behind for the next. *)

From S2P Require Import Prelude JsString JsNumber Json JsObject JsOrder ChannelForms AsyncTask AsyncTaskTheorems ChannelEdit ChannelEditTheorems ChannelEditSave.

Local Opaque js.

(** ** What stays from one channel to the next *)

Section Kept.
Context (setValues : obj → obj → obj) (reset : obj → obj).

Lemma effect_keys d : vertexKeys (keys_in (channel_effect setValues d)) = vertexKeys (keys_in d) ∧ batch (keys_in (channel_effect setValues d)) = batch (keys_in d).
Proof. unfold channel_effect. destruct (isEdit d); [done|]. cbv zeta. by destruct (getChannelModels _ _) as [[m c]|]. Qed.
Lemma open_keys ch d : vertexKeys (keys_in (open_form setValues ch d)) = vertexKeys (keys_in d) ∧ batch (keys_in (open_form setValues ch d)) = batch (keys_in d).
Proof.
  unfold open_form. cbv zeta. set (d1 := Dialog ch _ _ _ _ _ _ _ _ _ _). assert (H : vertexKeys (keys_in d1) = vertexKeys (keys_in d) ∧ batch (keys_in d1) = batch (keys_in d)) by done.
  destruct (negb _); [|by destruct (isEdit d1)]. destruct (effect_keys d1) as [H1 H2]. destruct (isEdit (channel_effect setValues d1)); cbn; by rewrite H1, H2.
Qed.

(** The keys read from files outlive the form they were chosen in. *)
Theorem keys_outlive_form ch answer d : vertexKeys (keys_in (loadChannel answer (open_form setValues ch (close_form reset d)))) = vertexKeys (keys_in d).
Proof.
  unfold loadChannel. cbv zeta. set (d1 := open_form setValues ch _). assert (H : vertexKeys (keys_in d1) = vertexKeys (keys_in d)) by exact (proj1 (open_keys ch (close_form reset d))).
  destruct answer as [data|]; [|exact H]. destruct (load_inputs data); [|exact H]. cbn [set_loading keys_in cache]. by destruct (getChannelModels _ _) as [[m c]|].
Qed.

(** A new channel opened after one with several keys starts as a batch. *)
Theorem batch_outlives_form d data i : load_inputs data = Some i → isMultiKeyChannel (opened_on data i) = true →
  batch (keys_in (open_form setValues None (close_form reset (loadChannel (Some data) d)))) = true.
Proof.
  intros Hl Hm. etrans; [exact (proj2 (open_keys None (close_form reset (loadChannel (Some data) d))))|]. cbn [close_form keys_in batch].
  unfold loadChannel. rewrite Hl. cbv zeta. cbn [set_loading keys_in cache]. destruct (getChannelModels _ _) as [[m c]|]; exact Hm.
Qed.
End Kept.

(** ** Fields *)

(** The address whose question was answered with no is still the one of the form. *)
Theorem declined_address_stays seen d s : locked seen "base_url" = false → ends_with (js "/v1") s = true → ∃ d', handleInputChange seen "base_url" (JStr s) d = AskV1 d' ∧
  get (form (answer_v1 (JStr s) false d')) "base_url" = JStr s ∧ inputs (answer_v1 (JStr s) false d') = inputs d.
Proof.
  intros Hl Hs. unfold handleInputChange. rewrite Hl. cbv [String.eqb Ascii.eqb Bool.eqb]. rewrite Hs. eexists. split_and!; [done| |done].
  unfold answer_v1, setValue, get. cbn [set_form form]. by rewrite get_put, streq_refl.
Qed.

Lemma change_key seen d v : locked seen "key" = false → changed_or d (handleInputChange seen "key" v d) = setInput "key" v (setValue "key" v d).
Proof. intros Hl. unfold handleInputChange. rewrite Hl. done. Qed.

(** With a key already in the box, the credential just generated is replaced by it. *)
Theorem generated_key_lost seen d key old v : locked seen "key" = false → get (inputs seen) "key" = JStr old → blank old = false → parse (trim old) = Some v →
  ∃ d', handleCodexOAuthGenerated seen key d = Some d' ∧ get (inputs d') "key" = JStr (default [] (stringify2 v)) ∧ get (form d') "key" = JStr (default [] (stringify2 v)).
Proof.
  intros Hl Ho Hb Hp. unfold handleCodexOAuthGenerated, formatJsonField. rewrite Ho. cbn [js_nullish]. rewrite Hb, Hp, !change_key by done. eexists. split_and!; [done|..];
    unfold setInput, setValue, get; cbn [set_inputs set_form inputs form]; by rewrite get_put, streq_refl.
Qed.

(** A mapping that is [null] becomes the text of it; one that is no JSON leaves the
    form loading. *)
Theorem null_mapping_text : pretty_mapping JNull = Some (JStr (js "null")).
Proof. by vm_compute. Qed.
Theorem broken_mapping_loads data d : load_inputs data = None → loading (loadChannel (Some data) d) = true.
Proof. intros H. unfold loadChannel. by rewrite H. Qed.

(** ** Runs *)

(** A form that takes over every value *)
Definition all_values (f v : obj) : obj := spread f (JObj v).
Definition fresh : dialog :=
  Dialog None false originInputs originInputs [] true (JArr []) (KeyInput false false false (js "append") [] []) (Opened false false (JStr []) [] (JStr []) (JStr []))
    (ModelCache None []) false.
Definition channel_data (s : string) : obj := match parse (jsq s) with Some (JObj o) => o | _ => [] end.
Definition opened_channel (id : Z) (data : obj) (d : dialog) : dialog := form_sync all_values (loadChannel (Some data) (open_form all_values (Some (num id)) d)).
Definition sent_key (r : step (request * dialog)) : jval := match r with Ok (req, _) => get (body_of req) "key" | _ => JNull end.
Definition type_in (name : string) (v : jval) (d : dialog) : dialog := form_sync all_values (changed_or d (handleInputChange d name v d)).

Definition openai_settings : jsstr :=
  jsq "{'disable_store':true,'azure_responses_version':'preview','upstream_model_update_check_enabled':true,'upstream_model_update_last_detected_models':['m2'],'vertex_key_type':'json'}".
Definition openai_channel : obj :=
  put (channel_data "{'id':7,'name':'a','type':1,'key':'','models':'m1,m2','group':'default','model_mapping':'','status_code_mapping':'','base_url':'https://a/','setting':'','auto_ban':1}")
    "settings" (JStr openai_settings).
Definition openai_form : dialog := opened_channel 7 openai_channel fresh.

Definition no_questions {A B} (b : B) : list A → B := λ _, b.
Definition save (d : dialog) : step (request * dialog) := submit (no_questions Cancel) (no_questions false) d.

Lemma keys_never_blanked_witness : ∃ body d', save openai_form = Ok (Put body, d') ∧ key_ok (get body "key").
Proof.
  destruct (save openai_form) as [[[body|mode ch] d']|msg|] eqn:E; [|by vm_compute in E..]. exists body, d'. split; [reflexivity|].
  exact (proj2 (keys_never_blanked (no_questions Cancel) (no_questions false) openai_form (Put body) d' E)).
Defined.

Definition openai_object : obj := match parse openai_settings with Some (JObj o) => o | _ => [] end.
Lemma unchanged_settings_kept_witness : ∃ req d' t' o', save openai_form = Ok (req, d') ∧ get (body_of req) "settings" = JStr t' ∧ parse t' = Some (JObj o') ∧
  get o' "azure_responses_version" = JStr (js "preview") ∧ get o' "disable_store" = JBool true ∧ get o' "vertex_key_type" = JUndef.
Proof.
  destruct (save openai_form) as [[req d']|msg|] eqn:E; [|by vm_compute in E..].
  destruct (unchanged_settings_kept (no_questions Cancel) (no_questions false) openai_form openai_channel openai_settings openai_object req d') as (t' & o' & H1 & H2 & H3 & H4 & _).
  - split_and!; [by vm_compute|by vm_compute|by vm_compute|]. apply Forall_forall. unfold FLAGS. cbn [removelast LOADED].
    repeat (apply Forall_cons; split; [vm_compute; reflexivity|]). constructor.
  - split_and!; [by vm_compute|by vm_compute|]. apply savableb_ok. by vm_compute.
  - exact E.
  - exists req, d', t', o'. split_and!; [reflexivity|exact H1|exact H2|..].
    + unfold get. rewrite H3 by (by vm_compute). by vm_compute.
    + rewrite H4 by (apply elem_of_names; by vm_compute). by vm_compute.
    + rewrite H4 by (apply elem_of_names; by vm_compute). by vm_compute.
Defined.

(** *** A key of another channel *)

Definition vertex_channel : obj :=
  channel_data "{'id':8,'name':'b','type':41,'key':'','models':'m1','group':'default','model_mapping':'','status_code_mapping':'','base_url':'','setting':'','settings':'{}','auto_ban':1}".
Definition created : dialog :=
  let d := type_in "type" (num 41) (type_in "name" (JStr (js "new")) fresh) in
  let d := type_in "models" (JArr [JStr (js "m1")]) d in
  form_sync all_values (handleVertexUploadChange d [Some (jsq "{'project':'first'}")] d).
Definition after_creation : dialog := submitted (close_form (λ _, getInitFormValues)) true created.

(** After a Vertex channel was created from a key file, opening and saving another one
    sends the first one's key for it. *)
Theorem other_channels_key_sent : sent_key (save created) = JStr (jsq "{'project':'first'}") ∧
  sent_key (save (opened_channel 8 vertex_channel after_creation)) = JStr (jsq "{'project':'first'}") ∧
  sent_key (save (opened_channel 8 vertex_channel fresh)) = JUndef.
Proof. by vm_compute. Qed.

(** *** An address of another type *)

(** Choosing the type of Doubao writes its address, and leaving the type keeps it. *)
Theorem address_outlives_type : let d := type_in "type" (num 1) (type_in "type" (num 45) fresh) in
  get (inputs d) "type" = num 1 ∧ get (inputs d) "base_url" = JStr DOUBAO_URL.
Proof. by vm_compute. Qed.
